(* ===== verification/_CoqProject ===== *)
-Q . S2P
Prelude.v
Window.v
Text.v
Errors.v
Model.v
Zone.v
Json.v
Canon.v
Contract.v
Artifact.v
Log.v
Store.v
Registry.v
Std.v
Chain.v
Evidence.v
Rekor.v
Admission.v
Policy.v
Issuance.v
Offer.v
Need.v
Consent.v
Attest.v
Screen.v
Register.v
Jwks.v
Peer.v
Trail.v
Signal.v
Apply.v
Federate.v
Broker.v
Assure.v
Blast.v
Keys.v
Contain.v
Bundle.v
Tenant.v
Catalog.v
Cache.v
Client.v
Drain.v
Dist.v
Gate.v
Upstream.v
Gateway.v
Binding.v
Startup.v
Examples.v
