(* ===== verification/Prelude.v ===== *)
(** * warden-connect: a verification development

    warden-connect governs which software parties (agents, tools, services) may connect to
    which, and on what terms.  A control plane keeps a register of parties and issues signed
    contracts; a mediator or a gateway on the data path holds those contracts and lets a call
    through only under one.  This development translates the program's own logic, function
    by function, and proves what makes it correct.

    ** The program's parts and the files that model them

    Paths are under [src/crates]; names of definitions are the code's, a method [T::m] being
    [T_m] or [m].

    Foundations ([wc-core]).
    - [Prelude]: results, the state-and-error monad [stateR], traversals, generic lemmas.
      [Window]: what any fixed-window rate limiter guarantees.  [Text], [Std]: what the code
      uses of Rust's strings, numbers and doubles.
    - [Errors] ([error.rs]): the error codes.  [Model] ([model.rs]): identifiers, entities,
      pins, the lifecycle.  [Zone] ([zone.rs]): the zone lattice.  [Json] ([util.rs]):
      canonical JSON.  [Canon] ([canon.rs]): a declared surface to its pin.  [Contract],
      [Artifact] ([contract.rs]): terms and records; minting, verifying, admitting.

    The control plane ([wc-control]).
    - [Log], [Store] ([store.rs]): the event log, and the projection that is the fold of it.
      [Registry] ([registry.rs]): the validated writes.
    - [Chain] ([chain.rs]): tamper-evident evidence.  [Evidence] ([evidence.rs], [sink.rs]):
      events and what records them.  [Rekor] ([rekor.rs]): transparency-log inclusion.
    - [Admission] ([admission.rs]): entering the register.  [Policy] ([cpolicy.rs]): deciding
      a request.  [Issuance] ([issuance.rs]): requests, approvals, mints, break-glass.
    - [Offer], [Need] ([offer.rs], [need.rs]): what a provider makes available, what a
      consumer asks for.  [Consent] ([pipeline.rs], [scm.rs], [authority.rs],
      [proposal.rs]): what a reviewed merge stands for.  [Attest] ([attest.rs]): the proofs of
      identity, card and provenance behind a registration.  [Screen] ([screen.rs]): what the
      text of a declared surface gives away.  [Register], [Apply] ([wc-cli/src/main.rs]): the
      commands that register a party, and those that turn merged declarations into contracts.
    - [Federate] ([federate.rs]): trust chains between organisations.  [Broker]
      ([broker.rs]): discovery.  [Assure], [Blast] ([assurance.rs]): re-attestation, drift,
      posture; what a cut reaches.  [Keys] ([keys.rs]): the issuer keyring.  [Contain]
      ([contain.rs]): the revocation feed and containment orders.  [Dist] ([dist.rs]): who
      holds the current set.  [Bundle] ([bundle.rs]): contracts carried to where there is no
      network.  [Signal] ([caep.rs]): signals from other systems.  [Tenant] ([tenant.rs],
      [lock.rs]): tenants and their paths, the writer lock.

    The data path ([wc-mediator], [wc-gateway], [wc-kong], [daemon/wc-extproc]).
    - [Catalog] ([rpc.rs], [mcp.rs], [filter.rs]): frames and the catalogue filter.  [Cache]
      ([cache.rs]): contracts and revocations held.  [Client] ([client.rs] and the loop of
      [connect-mediate]): refreshing them.  [Jwks] ([jwks.rs]): the issuer keys they verify
      under.  [Peer] ([peer.rs]): who is at the other end.  [Gate] ([gate.rs]): one mediated
      connection.  [Upstream] ([upstream.rs]): the server behind it, over stdio or HTTP.
      [Drain] ([drain.rs]): calls in flight.  [Trail] ([evidence.rs] of the mediator,
      [obs.rs]): the hash-chained trail of decisions.
    - [Gateway] ([wc-gateway]): the same enforcement as a proxy filter.  [Binding]
      ([wc-extproc/src/main.rs], [wc-kong/src/abi.rs]): the two proxies that drive it.
      [Startup] (their [run] and [open], and [connect-mediate]): from flags and files to a
      process that serves, or the reason it does not.
    - [Examples]: a concrete format for the store's records, and the store's theorems at it.

    ** How they interact

    A registration goes from [Register] through [Admission], with the verifiers of [Attest] and
    the screener of [Screen], to [Registry], which commits events to [Store].
    A request goes to [Issuance], which asks [Policy], records through [Evidence] (the
    interface [EvidenceLog]) and mints with [Artifact].  [Apply] drives [Issuance] with the
    consents of [Consent] and the matches of [Need] against [Offer].  The mediator's [Client]
    takes the artifacts, and the feed of [Contain], into the [Cache]; [Gate] looks contracts
    up there and forwards to [Upstream]; [Binding] builds a [Gateway] filter for each stream
    from the caller [Peer] vouches for and the contracts of the cache, and writes each decision
    to [Trail] before it lets the call go.  [Startup] composes them all.  [Keys] publishes the keys that [Artifact]
    verifies under; [Federate] judges foreign ones with the same verifier.

    ** What the theorems show

    - Nothing is let through without a contract: [Gate.forwarded_calls_contracted],
      [Gateway.gateway_calls_contracted], [Binding.envoy_passes_contracted] (from the messages
      of a proxy's stream), [Binding.bindings_agree], [Artifact.verify_artifact_sound],
      [Artifact.check_pin_binds], [Canon.pin_binds_surface]; and who asks is known by what the
      transport proved: [Peer.peer_rests_on_transport], [Peer.certificate_identity],
      [Peer.xfcc_round_trip].  A process serves only with what that takes:
      [Startup.extproc_starts_guarded], [kong_starts_guarded], [mediator_starts_guarded].
    - No contract comes to be without its ground: [Issuance.nothing_minted_without_evidence],
      [approve_issues_as_signed], [approval_binds_request], [breakglass_bounded],
      [Policy.evaluate_decides], [evaluate_never_widens], [Apply.need_apply_mints_agreed],
      [proposals_mint_owned], [Consent.consent_establishes], [Need.match_need_exact],
      [Federate.resolve_sound]; nor does a party come on the register but through what was
      asked of it: [Register.registration_rests], [Attest.attested_is_proven],
      [Screen.registered_surface_screened], [Screen.verdict_exact].
    - A cut takes effect: [Client.cut_reaches_mediator], [Gate.containment_immediate],
      [Contain.contain_reports_exactly], [Blast.radius_exact] (what a cut reaches), and a
      withdrawn key stops being trusted: [Jwks.served_keys_current],
      [Binding.freshness_is_earned].
    - What crosses a boundary is bounded there: [Bundle.import_sealed], [Bundle.bundle_delivers]
      (an air gap), [Signal.signals_bounded], [Signal.replay_refused] (another system),
      [Tenant.tenants_apart] (another tenant), [Upstream.sse_takes_first_answer],
      [plaintext_stays_local], [header_brings_no_other], [line_bounded] (an upstream server).
    - Records are what happened: [Store.commit_refines_log] (the refinement of the log's fold
      by the state in memory), [Log.log_roundtrip], [Chain.chain_tamper_evident],
      [chain_run_verifies], [chain_verify_exact], [Trail.trail_is_evidence], [Rekor.inclusion_sound] and
      [inclusion_complete].
    - Resources are bounded and clocks honoured: [Assure.endpoint_starts_bounded],
      [Broker.throttle_bounds], [Issuance.expiry_settles_overdue], [Keys.noted_key_verifies],
      [Tenant.waiting_ends], [Tenant.acquire_exact].
    - What an asker may not know stays unknown: [Broker.discover_hides].
    - Many files also prove, as lemmas beside these, where the code departs from what a
      comment of it says (a contract outliving its expiry on an open stream, a log that loses
      a record after a torn write, ...); each is stated on the code as it is.

    ** Conventions of the translation

    - An error is its [Code]; the detail sentence and the source chain are prose for a log
      and nothing branches on them.  Where prose is built from values that matter, an
      inductive type keeps the values.
    - A [String] is its UTF-8 bytes.  An unsigned machine integer is an [N]; wrapping and
      saturation are written out where the code does either, and an addition that would trap
      is bounded by a lemma.  An [f64] is Stdlib's [spec_float] of precision 53 and exponent
      bound 1024.
    - A hash map is a [gmap] and what is answered from it does not depend on its order; a
      sorted map or set is the sorted list of its members, or a [gmap] where only lookup
      matters.  A binary heap is its elements in the order it gives them back.
    - The clock is read as one instant per command phase or frame.  What a disk, a network,
      or another process does is an argument of the operation it answers ([Io], [EvidenceIo],
      [Answers], ...), so that theorems hold for every failure and every torn write.  State
      is passed explicitly; changes made before a failure stay in the state returned.

    ** Parameters

    Code that is not of this repository is a type class, and what is relied on of it a class
    of laws, each instantiated by a concrete function where a theorem is exercised: SHA-256
    ([Sha256], [RawDigest]); [serde_json] and serde's derived readers and printers
    ([SerdeJson], [SerdeParse], [FramedJson], [ChainSerde], [ApprovalSerde], [FeedSerde],
    [ResponseSerde], [ClientSerde], [ShimCodec], [StatementSerde], [AttestCodec], [PeerCodec],
    [SignalSerde], [BundleSerde], and of a trail's rows the laws [RowLaws]); the [toml] crate
    ([TomlRoutes], [KeyringToml], [MediatorToml], [ProposalToml], [NeedToml],
    [ApprovalFileToml], [OfferToml], [AnchorToml], [ScreenToml], [TenantToml]); the JOSE library ([Jose]); hex, base64 and
    ECDSA ([HexCodec], [NoteCrypto]); Unicode composition and character tables ([Nfc],
    [CharTables], [ScreenTables]).  Sentences that are recorded and never read back are
    [Prose] and [RegisterProse].  Cryptographic strength is never assumed: a theorem that needs it ends in
    an explicit collision.  Components of the program that others use through an interface are
    classes too: [Upstream], [ZoneRule], [RevocationView], [EvidenceLog], [FixedWindow].

    ** Fuel and bounds

    Recursion is structural wherever it can be.  The remaining bounds are: 17 digits to
    display a double, which is as many as any needs, and 700 steps to find its decimal
    exponent, which lies between -324 and 308; as many rounds of trimming as the text has
    characters; 8 hexadecimal digits for a 32-bit number; as many halvings of the code table
    as it has entries; in [Blast] one step per contract and one for the subject, which [sweep_done]
    shows is never exhausted; and in [Peer] one item per byte of a DER value, each taking at
    least two ([children_items]).

    ** Not modelled

    Printing, argument parsing and the report-only commands of [wc-cli]; HTTP servers
    and clients and what they render ([http.rs], [portal.rs], [api.rs] but the
    acknowledgement handler); directory listings and backups ([backup.rs]), and what the
    operating system makes of a lock; external signers ([custody.rs], [signer.rs]); exports,
    inventory, metrics and benchmarks; and of the gateway bindings the raw pointers, the panic
    guard, the gRPC server and the threads. *)

From stdpp Require Export base tactics option list sorting strings gmap fin_maps.
From Stdlib Require Export NArith Lia Ascii.

Set Default Goal Selector "!".

Declare Scope rust_scope.
Delimit Scope rust_scope with rust.
Open Scope rust_scope.

(** ** Fallible computations: Rust's [Result<T, E>] and the [?] operator. *)

Inductive Result (A E : Type) : Type :=
| Ok (a : A)
| Err (e : E).
Arguments Ok {A E} a.
Arguments Err {A E} e.

Definition result_bind {A B E} (c : Result A E) (k : A → Result B E) : Result B E :=
  match c with Ok a => k a | Err e => Err e end.

Definition map_err {A E F} (f : E → F) (c : Result A E) : Result A F :=
  match c with Ok a => Ok a | Err e => Err (f e) end.

Definition ok_or {A E} (o : option A) (e : E) : Result A E :=
  match o with Some a => Ok a | None => Err e end.

Definition is_ok {A E} (c : Result A E) : bool :=
  match c with Ok _ => true | Err _ => false end.

Notation "'let?' p ':=' c 'in' k" := (result_bind c (λ p, k))
  (at level 10, p pattern, c at level 99, k at level 200) : rust_scope.

#[global] Instance Result_eq_dec {A E} `{EqDecision A, EqDecision E} : EqDecision (Result A E).
Proof. solve_decision. Defined.

(** A guard: [if b { return Err(e) }] followed by the rest. *)
Definition guard_err {A E} (b : bool) (e : E) (k : Result A E) : Result A E :=
  if b then Err e else k.

(** Stateful fallible computations: a method that takes [&mut self] and returns a
    [Result], whose changes to the state stay when it fails. *)
Definition stateR (S A E : Type) : Type := S → S * Result A E.
Definition retS {S A E} (a : A) : stateR S A E := λ s, (s, Ok a).
Definition liftS {S A E} (r : Result A E) : stateR S A E := λ s, (s, r).
Definition getS {S A E} (f : S → A) : stateR S A E := λ s, (s, Ok (f s)).
Definition bindS {S A B E} (m : stateR S A E) (k : A → stateR S B E) : stateR S B E := λ s,
  match m s with
  | (s', Ok a) => k a s'
  | (s', Err e) => (s', Err e)
  end.

Notation "'let!' p ':=' m 'in' k" := (bindS m (λ p, k))
  (at level 10, p pattern, m at level 99, k at level 200) : rust_scope.

(** The [for] loop of a fallible traversal: stop at the first error.  [mapR] collects,
    [foldR] threads an accumulator. *)
Section Traversals.
Context {A B E : Type}.

Section MapR.
Variable f : A → Result B E.
Fixpoint mapR (l : list A) : Result (list B) E :=
  match l with
  | [] => Ok []
  | x :: l => let? y := f x in let? ys := mapR l in Ok (y :: ys)
  end.
End MapR.

Section FoldR.
Variable f : B → A → Result B E.
Fixpoint foldR (acc : B) (l : list A) : Result B E :=
  match l with
  | [] => Ok acc
  | x :: l => let? acc := f acc x in foldR acc l
  end.
End FoldR.
End Traversals.

(** ** Machine integers

    Unsigned machine integers are naturals in [N]; [saturating_sub] is the
    truncated subtraction of [N], and an unchecked [+] wraps at the type's width
    (the workspace declares no release profile of its own, so overflow checks are
    off in release builds). *)

Definition u64_max : N := 18446744073709551615.
Definition u64_add (a b : N) : N := ((a + b) mod (u64_max + 1))%N.
Definition saturating_add_u64 (a b : N) : N := N.min (a + b) u64_max.
Definition saturating_sub (a b : N) : N := (a - b)%N.
Definition len {A} (l : list A) : N := N.of_nat (length l).
Definition str_len (s : string) : N := N.of_nat (String.length s).

Definition is_u64 (n : N) : Prop := (n ≤ u64_max)%N.

Lemma saturating_add_u64_fits a b : is_u64 (saturating_add_u64 a b).
Proof. unfold is_u64, saturating_add_u64. lia. Qed.
Lemma u64_add_0_r a : is_u64 a → u64_add a 0 = a.
Proof. unfold is_u64, u64_add. intros H. rewrite N.add_0_r. apply N.mod_small. lia. Qed.

(** ** Development tactics *)

Create HintDb warden discriminated.
Create HintDb warden_ord discriminated.

(** Case analysis on the scrutinee of every [match], [if] and [let?] of the goal
    or of a hypothesis, closing the contradictory branches on the way. *)
Ltac step_match :=
  match goal with
  | H : context [match ?x with _ => _ end] |- _ =>
      lazymatch x with context [match _ with _ => _ end] => fail | _ => idtac end;
      destruct x eqn:?; simplify_eq/=
  | |- context [match ?x with _ => _ end] =>
      lazymatch x with context [match _ with _ => _ end] => fail | _ => idtac end;
      destruct x eqn:?; simplify_eq/=
  end.
Ltac branches := repeat (step_match; try done).

(** Close a decidable closed goal by evaluation. *)
Ltac decide_now := apply (bool_decide_unpack _); vm_compute; exact I.

Ltac bool_facts :=
  repeat match goal with
  | H : _ && _ = true |- _ => apply andb_true_iff in H as [??]
  | H : _ || _ = false |- _ => apply orb_false_iff in H as [??]
  | H : negb _ = true |- _ => apply negb_true_iff in H
  | H : negb _ = false |- _ => apply negb_false_iff in H
  | H : bool_decide _ = true |- _ => apply bool_decide_eq_true in H
  | H : bool_decide _ = false |- _ => apply bool_decide_eq_false in H
  | H : (_ <? _)%N = true |- _ => apply N.ltb_lt in H
  | H : (_ <? _)%N = false |- _ => apply N.ltb_ge in H
  | H : (_ <=? _)%N = true |- _ => apply N.leb_le in H
  | H : (_ <=? _)%N = false |- _ => apply N.leb_gt in H
  | H : (_ =? _)%N = true |- _ => apply N.eqb_eq in H
  | H : (_ =? _)%N = false |- _ => apply N.eqb_neq in H
  end.

(** ** Shared lemmas on results *)

Lemma result_bind_ok {A B E} (c : Result A E) (k : A → Result B E) b :
  result_bind c k = Ok b ↔ ∃ a, c = Ok a ∧ k a = Ok b.
Proof. destruct c; naive_solver. Qed.

Lemma guard_err_ok {A E} b (e : E) (k : Result A E) a :
  guard_err b e k = Ok a ↔ b = false ∧ k = Ok a.
Proof. destruct b; naive_solver. Qed.

Lemma ok_or_ok {A E} (o : option A) (e : E) a : ok_or o e = Ok a ↔ o = Some a.
Proof. destruct o; naive_solver. Qed.

Lemma mapR_ok {A B E} (f : A → Result B E) l ys :
  mapR f l = Ok ys ↔ Forall2 (λ x y, f x = Ok y) l ys.
Proof.
  revert ys. induction l as [|x l IH]; intros ys; simpl.
  - split; [intros [= <-]; constructor | by inversion 1].
  - rewrite result_bind_ok. split.
    + intros (y & Hy & (ys' & Hys & [= <-])%result_bind_ok). constructor; [done|by apply IH].
    + inversion 1; subst. eexists; split; [done|]. apply result_bind_ok. naive_solver.
Qed.

Lemma mapR_elem {A B E} (f : A → Result B E) l ys y :
  mapR f l = Ok ys → y ∈ ys → ∃ x, x ∈ l ∧ f x = Ok y.
Proof.
  rewrite mapR_ok. induction 1 as [|x y' l ys Hxy _ IH]; [set_solver|].
  intros [->|Hy]%elem_of_cons; [exists x; set_solver|]. destruct (IH Hy) as (x' & ? & ?).
  exists x'. set_solver.
Qed.

Lemma mapR_ext {A B E} (f g : A → Result B E) l :
  (∀ x, x ∈ l → f x = g x) → mapR f l = mapR g l.
Proof.
  induction l as [|x l IH]; intros H; simpl; [done|].
  rewrite H by set_solver. destruct (g x); simpl; [|done]. rewrite IH; [done|]. set_solver.
Qed.

(** [foldR] with an invariant of the accumulator. *)
Lemma foldR_inv {A B E} (f : B → A → Result B E) (I : B → Prop) l acc out :
  (∀ b a b', a ∈ l → I b → f b a = Ok b' → I b') → I acc → foldR f acc l = Ok out → I out.
Proof.
  revert acc. induction l as [|a l IH]; intros acc Hf Hacc; simpl; [by intros [= <-]|].
  intros (b & Hb & Hout)%result_bind_ok. apply (IH b); [|by apply (Hf acc a); [set_solver|..]|done].
  intros c x c' Hx. apply Hf. set_solver.
Qed.

(** What a step that succeeds, or fails, was made of. *)
Lemma bindS_ok {S A B E} (m : stateR S A E) (k : A → stateR S B E) s s' b :
  bindS m k s = (s', Ok b) ↔ ∃ s1 a, m s = (s1, Ok a) ∧ k a s1 = (s', Ok b).
Proof. unfold bindS. destruct (m s) as [s1 [a|e]]; naive_solver. Qed.

Lemma bindS_err {S A B E} (m : stateR S A E) (k : A → stateR S B E) s s' e :
  bindS m k s = (s', Err e) ↔
  m s = (s', Err e) ∨ ∃ s1 a, m s = (s1, Ok a) ∧ k a s1 = (s', Err e).
Proof. unfold bindS. destruct (m s) as [s1 [a|c]]; naive_solver. Qed.

Lemma bindS_cases {S A B E} (m : stateR S A E) (k : A → stateR S B E) st st' r :
  bindS m k st = (st', r) → (∃ st1 a, m st = (st1, Ok a) ∧ k a st1 = (st', r)) ∨ (∃ e, m st = (st', Err e) ∧ r = Err e).
Proof.
  unfold bindS. destruct (m st) as [s1 [a|e]] eqn:Em; [left; by exists s1, a|]. intros [= <- <-]. right. by exists e.
Qed.

Lemma liftS_ok {S A E} (r : Result A E) (s s' : S) a : liftS r s = (s', Ok a) ↔ s' = s ∧ r = Ok a.
Proof. unfold liftS. naive_solver. Qed.

(** ** Boolean quantifiers over lists *)

Lemma forallb_True {A} (p : A → bool) l : forallb p l = true ↔ ∀ x, x ∈ l → p x = true.
Proof. rewrite forallb_forall. by setoid_rewrite list_elem_of_In. Qed.

Lemma existsb_True {A} (p : A → bool) l : existsb p l = true ↔ ∃ x, x ∈ l ∧ p x = true.
Proof. rewrite existsb_exists. by setoid_rewrite list_elem_of_In. Qed.

Lemma existsb_False {A} (p : A → bool) l : existsb p l = false ↔ ∀ x, x ∈ l → p x = false.
Proof.
  rewrite <-not_true_iff_false, existsb_True. split.
  - intros H x Hx. apply not_true_iff_false. naive_solver.
  - intros H (x & Hx & Hp). rewrite (H x Hx) in Hp. done.
Qed.

Lemma find_ext {A} (p q : A → bool) l : (∀ x, x ∈ l → p x = q x) → find p l = find q l.
Proof.
  induction l as [|x l IH]; intros H; simpl; [done|].
  rewrite <-(H x) by set_solver. destruct (p x); [done|]. apply IH. set_solver.
Qed.

(** Rust's [Iterator::filter] with a boolean closure. *)
Abbreviation filterb := List.filter.

#[global] Instance filterb_proper {A} (p : A → bool) : Proper ((≡ₚ) ==> (≡ₚ)) (List.filter p).
Proof.
  induction 1 as [|x l l' _ IH|x y l|l1 l2 l3 _ IH1 _ IH2]; cbn; [done|by destruct (p x); rewrite IH| |by etrans].
  destruct (p x), (p y); done || apply Permutation_swap.
Qed.
#[global] Instance len_proper {A} : Proper ((≡ₚ) ==> (=)) (@len A).
Proof. intros l l' Hp. unfold len. by rewrite Hp. Qed.
Lemma elem_of_filterb {A} (p : A → bool) l x : x ∈ filterb p l ↔ x ∈ l ∧ p x = true.
Proof. rewrite !list_elem_of_In. apply filter_In. Qed.

Lemma filterb_nil {A} (p : A → bool) l : filterb p l = [] ↔ ∀ x, x ∈ l → p x = false.
Proof.
  split.
  - intros H x Hx. apply not_true_iff_false. intros Hp.
    assert (x ∈ filterb p l) as Hin by (by apply elem_of_filterb). rewrite H in Hin. set_solver.
  - induction l as [|x l IH]; intros H; simpl; [done|].
    rewrite H by set_solver. apply IH. set_solver.
Qed.

Lemma filterb_snoc {A} (p : A → bool) l x : filterb p (l ++ [x]) = filterb p l ++ (if p x then [x] else []).
Proof. induction l as [|a l IH]; simpl; [done|]. rewrite IH. by destruct (p a). Qed.
Lemma filterb_all {A} (p : A → bool) l : (∀ x, x ∈ l → p x = true) → filterb p l = l.
Proof.
  induction l as [|x l IH]; intros H; simpl; [done|].
  rewrite H by set_solver. f_equal. apply IH. set_solver.
Qed.

Lemma sublist_filterb {A} (f : A → bool) l : filterb f l `sublist_of` l.
Proof.
  induction l as [|x l IH]; simpl; [done|]. destruct (f x); [by apply sublist_skip|by apply sublist_cons].
Qed.
