(* ===== verification/Window.v ===== *)
(** * Window: counting per fixed window of the clock

    Discovery budgets ([broker.rs], [Throttle]) and the scheduler's endpoint limits
    ([assurance.rs], [take_slot]) count what they grant in the current window of a clock and
    start over in the next.  [FixedWindow] states what such a limiter promises of one counter;
    what follows from it is that no window is overspent, however attempts of different keys
    interleave, while the clock does not go back. *)

From S2P Require Import Prelude.

Section Window.
Context {K S : Type} `{Countable K} (fresh : S) (width cap : N) (cell used : S → N) (attempt : gmap K S → K → N → gmap K S * bool).

Definition counter (t : gmap K S) (k : K) : S := default fresh (t !! k).
(** What counts in the window of [now]. *)
Definition rolled (s : S) (now : N) : N := if (cell s =? now / width)%N then used s else 0%N.

Class FixedWindow : Prop := {
  attempt_own t k now : let r := attempt t k now in
    cell (counter r.1 k) = (now / width)%N ∧
    used (counter r.1 k) = (if r.2 then rolled (counter t k) now + 1 else rolled (counter t k) now)%N ∧
    (r.2 = true → (rolled (counter t k) now < cap)%N);
  attempt_other t k k' now : k' ≠ k → (attempt t k now).1 !! k' = t !! k'
}.
Context `{!FixedWindow}.

(** No counter is ahead of the clock. *)
Definition behind (t : gmap K S) (now : N) : Prop := ∀ k, (cell (counter t k) ≤ now / width)%N.
(** What may still be granted in window [w]. *)
Definition left_in (t : gmap K S) (k : K) (w : N) : N :=
  let s := counter t k in if (cell s =? w)%N then cap - used s else if (w <? cell s)%N then 0 else cap.
Definition counts (k k' : K) (w now : N) : bool := bool_decide (k' = k) && (now / width =? w)%N.

Lemma behind_mono t now now' : (now ≤ now')%N → behind t now → behind t now'.
Proof. intros Hn Hb k. etrans; [apply Hb|]. by apply N.Div0.div_le_mono. Qed.
Lemma attempt_behind t k now : behind t now → behind (attempt t k now).1 now.
Proof.
  intros Hb k'. destruct (decide (k' = k)) as [->|Hne]; [by rewrite (proj1 (attempt_own t k now))|].
  unfold counter. rewrite attempt_other by done. apply Hb.
Qed.
(** One attempt spends at most what is left. *)
Lemma attempt_left t k k' w now : behind t now →
  ((if (attempt t k' now).2 && counts k k' w now then 1 else 0) + left_in (attempt t k' now).1 k w ≤ left_in t k w)%N.
Proof.
  intros Hb. unfold counts. destruct (decide (k' = k)) as [->|Hne].
  - rewrite bool_decide_eq_true_2 by done. cbn [andb]. pose proof (attempt_own t k now) as (Hcell & Hused & Hcap).
    specialize (Hb k). unfold left_in, rolled in *. rewrite Hcell. clear Hcell. revert Hused Hcap.
    destruct (attempt t k now) as [t' []]; cbn [fst snd andb]; generalize (counter t' k) (counter t k) Hb; clear; intros s' s Hb;
      repeat match goal with
      | |- context [(?a =? ?b)%N] => destruct (N.eqb_spec a b)
      | |- context [(?a <? ?b)%N] => destruct (N.ltb_spec a b)
      end; intros Hused Hcap; try specialize (Hcap eq_refl); lia.
  - rewrite bool_decide_eq_false_2 by done. rewrite andb_false_r. unfold left_in, counter. by rewrite attempt_other.
Qed.
Lemma left_in_empty k w : cell fresh = 0%N → used fresh = 0%N → (left_in ∅ k w ≤ cap)%N.
Proof. intros Hc Hu. unfold left_in, counter. rewrite lookup_empty. cbn [from_option id]. rewrite Hc, Hu. repeat case_match; lia. Qed.
Lemma behind_empty now : cell fresh = 0%N → behind ∅ now.
Proof. intros Hc k. unfold counter. rewrite lookup_empty. cbn [from_option id]. rewrite Hc. apply N.le_0_l. Qed.

(** Attempts in the order they are made, and those granted. *)
Fixpoint granted (t : gmap K S) (events : list (K * N)) : list (K * N) :=
  match events with
  | [] => []
  | e :: events =>
    let r := attempt t e.1 e.2 in
    if r.2 then e :: granted r.1 events else granted r.1 events
  end.
Definition in_window (k : K) (w : N) (e : K * N) : bool := counts k e.1 w e.2.
Definition in_order (events : list (K * N)) : Prop := StronglySorted (λ a b, (a.2 ≤ b.2)%N) events.

Lemma granted_bounded events t k w :
  in_order events → (∀ e, e ∈ events → behind t e.2) → (len (filterb (in_window k w) (granted t events)) ≤ left_in t k w)%N.
Proof.
  revert t. induction events as [|e events IH]; intros t Hs Hb; [apply N.le_0_l|].
  apply StronglySorted_inv in Hs as [Hs Hall]. rewrite Forall_forall in Hall. cbn [granted].
  assert (behind t e.2) as He by (apply Hb; by left).
  assert (∀ x, x ∈ events → behind (attempt t e.1 e.2).1 x.2) as Hrest.
  { intros y Hy. eapply behind_mono; [by apply Hall|]. by apply attempt_behind. }
  specialize (IH _ Hs Hrest). pose proof (attempt_left t k e.1 w e.2 He) as Hl.
  destruct (attempt t e.1 e.2) as [t' []]; cbn [fst snd andb] in *; [|lia].
  cbn [List.filter]. unfold in_window at 1. destruct (counts _ _ _ _); unfold len in *; cbn [length]; lia.
Qed.
End Window.
