(* ===== verification/Text.v ===== *)
(** * Text: what the sources use of Rust's [String], [char] and [Vec<String>]

    A [String] is a sequence of UTF-8 bytes, here a [string] whose characters are
    bytes.  [chars] decodes the code points; [str::len] counts bytes; comparison
    and sorting are byte-lexicographic, which is the order of [String.le]. *)

From S2P Require Import Prelude.

(** ** Bytes and code points *)

Fixpoint bytes (s : string) : list N :=
  match s with EmptyString => [] | String c s => N_of_ascii c :: bytes s end.

(** [str::chars]: UTF-8 decoding.  A Rust [str] is well-formed UTF-8; an ill-formed
    sequence (a stray, truncated or overlong one), which a [str] cannot hold, decodes
    to the replacement character U+FFFD. *)
Definition is_cont (b : N) : bool := ((128 <=? b) && (b <? 192))%N.

Definition utf8_2 (b0 b1 : N) : option N :=
  if ((194 <=? b0) && (b0 <? 224))%N && is_cont b1
  then Some ((b0 - 192) * 64 + (b1 - 128))%N else None.

Definition utf8_3 (b0 b1 b2 : N) : option N :=
  let c := ((b0 - 224) * 4096 + (b1 - 128) * 64 + (b2 - 128))%N in
  if ((224 <=? b0) && (b0 <? 240))%N && is_cont b1 && is_cont b2 && (2048 <=? c)%N
  then Some c else None.

Definition utf8_4 (b0 b1 b2 b3 : N) : option N :=
  let c := ((b0 - 240) * 262144 + (b1 - 128) * 4096 + (b2 - 128) * 64 + (b3 - 128))%N in
  if ((240 <=? b0) && (b0 <? 245))%N && is_cont b1 && is_cont b2 && is_cont b3
     && (65536 <=? c)%N
  then Some c else None.

Fixpoint utf8_decode (l : list N) : list N :=
  match l with
  | [] => []
  | b0 :: l0 =>
    if (b0 <? 128)%N then b0 :: utf8_decode l0
    else match l0 with
    | [] => [65533%N]
    | b1 :: l1 =>
      match utf8_2 b0 b1 with
      | Some c => c :: utf8_decode l1
      | None =>
        match l1 with
        | [] => 65533%N :: utf8_decode l0
        | b2 :: l2 =>
          match utf8_3 b0 b1 b2 with
          | Some c => c :: utf8_decode l2
          | None =>
            match l2 with
            | [] => 65533%N :: utf8_decode l0
            | b3 :: l3 =>
              match utf8_4 b0 b1 b2 b3 with
              | Some c => c :: utf8_decode l3
              | None => 65533%N :: utf8_decode l0
              end
            end
          end
        end
      end
    end
  end.

Definition chars (s : string) : list N := utf8_decode (bytes s).

(** [char::is_control]: the Unicode category Cc. *)
Definition is_control (c : N) : bool := (c <? 32)%N || ((127 <=? c) && (c <? 160))%N.

(** [char::is_whitespace]: the Unicode property White_Space. *)
Definition is_whitespace (c : N) : bool :=
  ((9 <=? c) && (c <=? 13))%N || (c =? 32)%N || (c =? 133)%N || (c =? 160)%N
  || (c =? 5760)%N || ((8192 <=? c) && (c <=? 8202))%N || (c =? 8232)%N || (c =? 8233)%N
  || (c =? 8239)%N || (c =? 8287)%N || (c =? 12288)%N.

Definition is_ascii_digit (c : N) : bool := ((48 <=? c) && (c <=? 57))%N.
Definition is_ascii_lowercase (c : N) : bool := ((97 <=? c) && (c <=? 122))%N.
Definition is_ascii_uppercase (c : N) : bool := ((65 <=? c) && (c <=? 90))%N.
Definition is_ascii_alphanumeric (c : N) : bool :=
  is_ascii_digit c || is_ascii_lowercase c || is_ascii_uppercase c.
Definition is_ascii_hexdigit (c : N) : bool :=
  is_ascii_digit c || ((97 <=? c) && (c <=? 102))%N || ((65 <=? c) && (c <=? 70))%N.

(** ** Prefixes, splitting and joining *)

(** [str::strip_prefix]. *)
Fixpoint strip_prefix (p s : string) : option string :=
  match p, s with
  | EmptyString, _ => Some s
  | String a p, String b s => if bool_decide (a = b) then strip_prefix p s else None
  | String _ _, EmptyString => None
  end.

(** [str::starts_with]. *)
Definition starts_with (p s : string) : bool :=
  match strip_prefix p s with Some _ => true | None => false end.

(** [str::split(c)] for a one-byte separator: never empty. *)
Fixpoint split_on (c : ascii) (s : string) : list string :=
  match s with
  | EmptyString => [""]
  | String a s =>
    if bool_decide (a = c) then "" :: split_on c s
    else match split_on c s with
         | [] => [String a ""]
         | w :: ws => String a w :: ws
         end
  end.

(** [\[String\]::join(sep)]. *)
Definition join (sep : string) (l : list string) : string := String.concat sep l.

(** ** Sorting and deduplication of [Vec<String>] *)

(** [sort_unstable] (equal strings are indistinguishable, so stability is moot). *)
Definition sort_strings (l : list string) : list string := merge_sort String.le l.

(** [Vec::dedup]: drop consecutive repetitions. *)
Fixpoint dedup (l : list string) : list string :=
  match l with
  | [] => []
  | x :: l' => match l' with
               | [] => [x]
               | y :: _ => if bool_decide (x = y) then dedup l' else x :: dedup l'
               end
  end.

Definition sort_dedup (l : list string) : list string := dedup (sort_strings l).

Definition str_in (x : string) (l : list string) : bool := bool_decide (x ∈ l).

(** ** Lemmas: strings as byte lists *)

Lemma bytes_app s t : bytes (s +:+ t) = bytes s ++ bytes t.
Proof. induction s as [|c s IH]; [done|]. change (String c s +:+ t) with (String c (s +:+ t)). simpl. by f_equal. Qed.

Lemma bytes_inj s t : bytes s = bytes t → s = t.
Proof.
  revert t. induction s as [|c s IH]; intros [|d t] H; simplify_eq/=; [done|].
  f_equal; [|by apply IH].
  rewrite <-(ascii_N_embedding c), <-(ascii_N_embedding d). by f_equal.
Qed.
#[global] Instance bytes_Inj : Inj (=) (=) bytes.
Proof. intros ??. apply bytes_inj. Qed.

Lemma length_bytes s : length (bytes s) = String.length s.
Proof. induction s; simpl; congruence. Qed.

Lemma bytes_lt s b : b ∈ bytes s → (b < 256)%N.
Proof.
  induction s as [|c s IH]; simpl; [by inversion 1|].
  intros [->|?]%elem_of_cons; [|auto].
  pose proof (N_ascii_bounded c). done.
Qed.

Lemma string_length_app s t : String.length (s +:+ t) = String.length s + String.length t.
Proof. by rewrite <-!length_bytes, bytes_app, length_app. Qed.

Lemma string_app_nil_r s : s +:+ "" = s.
Proof. apply bytes_inj. by rewrite bytes_app, app_nil_r. Qed.

Lemma string_app_assoc s t u : (s +:+ t) +:+ u = s +:+ (t +:+ u).
Proof. apply bytes_inj. by rewrite !bytes_app, <-app_assoc. Qed.

(** A string all of whose code points are ASCII is its own decoding. *)
Lemma utf8_decode_ascii l : Forall (λ b, (b < 128)%N) l → utf8_decode l = l.
Proof.
  induction 1 as [|b l Hb Hl IH]; [done|]. simpl.
  apply N.ltb_lt in Hb. rewrite Hb. by f_equal.
Qed.

(** Conversely, code points below 128 only come from one-byte sequences. *)
Lemma utf8_decode_ascii_inv l :
  Forall (λ c, (c < 128)%N) (utf8_decode l) → Forall (λ b, (b < 128)%N) l.
Proof.
  induction l as [|b0 l IH]; [done|]. simpl.
  destruct (b0 <? 128)%N eqn:E.
  { intros [??]%Forall_cons. apply N.ltb_lt in E. constructor; auto. }
  assert (¬ (65533 < 128)%N) as Hrep by lia.
  intros H. exfalso. unfold utf8_2, utf8_3, utf8_4, is_cont in H.
  repeat case_match; simplify_eq/=; try (by inversion H);
    apply Forall_cons in H as [H _]; bool_facts; lia.
Qed.

(** An ASCII byte is never swallowed by the decoding of a longer sequence. *)
Lemma utf8_decode_keeps_ascii l b : (b < 128)%N → b ∈ l → b ∈ utf8_decode l.
Proof.
  intros Hb. assert (∀ c, is_cont c = true → b ≠ c) as Hcont.
  { unfold is_cont. intros c Hc. bool_facts. lia. }
  remember (length l) as n eqn:Hn. assert (length l ≤ n) as Hl by lia. clear Hn.
  revert l Hl. induction n as [|n IH]; intros l Hl Hin.
  { destruct l; [by apply not_elem_of_nil in Hin|simpl in Hl; lia]. }
  destruct l as [|b0 l0]; [done|]. simpl in Hl. cbn [utf8_decode].
  destruct (b0 <? 128)%N eqn:E0; bool_facts.
  { apply elem_of_cons in Hin as [->|Hin]; [set_solver|].
    apply elem_of_cons. right. apply IH; [lia|done]. }
  apply elem_of_cons in Hin as [->|Hin]; [lia|].
  assert (b ∈ utf8_decode l0) as Hdef by (apply IH; [lia|done]).
  destruct l0 as [|b1 l1]; [by apply not_elem_of_nil in Hin|].
  apply elem_of_cons in Hin as Hin1. simpl in Hl.
  destruct (utf8_2 b0 b1) eqn:E2.
  { unfold utf8_2 in E2. repeat case_match; simplify_eq; bool_facts.
    destruct Hin1 as [->|]; [by destruct (Hcont b1)|]. apply elem_of_cons. right.
    apply IH; [lia|done]. }
  destruct l1 as [|b2 l2]; [apply elem_of_cons; right; exact Hdef|]. simpl in Hl.
  destruct (utf8_3 b0 b1 b2) eqn:E3.
  { unfold utf8_3 in E3. repeat case_match; simplify_eq; bool_facts.
    destruct Hin1 as [->|[->|]%elem_of_cons]; [by destruct (Hcont b1)|by destruct (Hcont b2)|].
    apply elem_of_cons. right. apply IH; [lia|done]. }
  destruct l2 as [|b3 l3]; [apply elem_of_cons; right; exact Hdef|]. simpl in Hl.
  destruct (utf8_4 b0 b1 b2 b3) eqn:E4; [|apply elem_of_cons; right; exact Hdef].
  unfold utf8_4 in E4. repeat case_match; simplify_eq; bool_facts.
  destruct Hin1 as [->|[->|[->|]%elem_of_cons]%elem_of_cons];
    [by destruct (Hcont b1)|by destruct (Hcont b2)|by destruct (Hcont b3)|].
  apply elem_of_cons. right. apply IH; [lia|done].
Qed.

Lemma chars_ascii s : Forall (λ c, (c < 128)%N) (chars s) → chars s = bytes s.
Proof. intros H. apply utf8_decode_ascii, utf8_decode_ascii_inv, H. Qed.

Lemma chars_ascii_bytes s : Forall (λ b, (b < 128)%N) (bytes s) → chars s = bytes s.
Proof. apply utf8_decode_ascii. Qed.

(** Reading a per-character check of ASCII class [p] as a check of the bytes. *)
Lemma chars_forallb (p : N → bool) s :
  (∀ c, p c = true → (c < 128)%N) →
  forallb p (chars s) = true ↔ forallb p (bytes s) = true.
Proof.
  intros Hp. rewrite !forallb_True. split; intros H.
  - rewrite chars_ascii in H; [done|]. apply Forall_forall. auto.
  - rewrite chars_ascii_bytes; [done|]. apply Forall_forall. auto.
Qed.

(** ** Lemmas: prefixes *)

Lemma strip_prefix_Some p s r : strip_prefix p s = Some r ↔ s = p +:+ r.
Proof.
  revert s. induction p as [|a p IH]; intros s; simpl.
  - naive_solver.
  - destruct s as [|b s]; simpl; [naive_solver|].
    case_bool_decide as Hab.
    + subst. rewrite IH. change (String b p +:+ r) with (String b (p +:+ r)). naive_solver.
    + change (String a p +:+ r) with (String a (p +:+ r)). naive_solver.
Qed.

Lemma starts_with_spec p s : starts_with p s = true ↔ ∃ r, s = p +:+ r.
Proof.
  unfold starts_with. destruct (strip_prefix p s) eqn:E.
  - apply strip_prefix_Some in E. naive_solver.
  - split; [done|]. intros [r Hr]. apply strip_prefix_Some in Hr. congruence.
Qed.

(** ** Lemmas: split and join are inverse *)

Definition no_byte (c : ascii) (s : string) : Prop := N_of_ascii c ∉ bytes s.

Lemma split_on_nonempty c s : split_on c s ≠ [].
Proof. destruct s; simpl; repeat case_match; done. Qed.

Lemma split_on_join c s : join (String c "") (split_on c s) = s.
Proof.
  induction s as [|a s IH]; [done|]. simpl.
  pose proof (split_on_nonempty c s) as Hne.
  case_bool_decide as Hac.
  - subst. unfold join in *. destruct (split_on c s) as [|w ws]; [done|].
    simpl in *. change ("" +:+ String c "" +:+ ?x) with (String c x). by f_equal.
  - unfold join in *. destruct (split_on c s) as [|w ws]; [done|].
    destruct ws; simpl in *; change (String a w +:+ ?x) with (String a (w +:+ x)); congruence.
Qed.

Lemma split_on_no_byte c s : Forall (no_byte c) (split_on c s).
Proof.
  unfold no_byte. induction s as [|a s IH]; simpl.
  - constructor; [set_solver|done].
  - case_bool_decide as Hac; [constructor; [set_solver|done]|].
    destruct (split_on c s) as [|w ws]; simpl in *.
    + constructor; [|done]. simpl. intros [Hc|]%elem_of_cons; [|set_solver].
      apply Hac. rewrite <-(ascii_N_embedding a), <-(ascii_N_embedding c). by f_equal.
    + apply Forall_cons in IH as [Hw Hws]. constructor; [|done]. simpl.
      intros [Hc|]%elem_of_cons; [|done].
      apply Hac. rewrite <-(ascii_N_embedding a), <-(ascii_N_embedding c). by f_equal.
Qed.

Lemma split_on_no_byte_id c s : no_byte c s → split_on c s = [s].
Proof.
  unfold no_byte. induction s as [|a s IH]; intros H; [done|]. simpl in *.
  case_bool_decide; [set_solver|]. rewrite IH by set_solver. done.
Qed.

Lemma split_on_app c w s :
  no_byte c w → split_on c (w +:+ String c s) = w :: split_on c s.
Proof.
  unfold no_byte. induction w as [|a w IH]; intros H; simpl.
  - change ("" +:+ String c s) with (String c s). simpl. by case_bool_decide.
  - change (String a w +:+ String c s) with (String a (w +:+ String c s)). simpl in *.
    case_bool_decide; [set_solver|]. rewrite IH by set_solver. done.
Qed.

Lemma split_join c l :
  l ≠ [] → Forall (no_byte c) l → split_on c (join (String c "") l) = l.
Proof.
  induction l as [|w l IH]; [done|]. intros _ [Hw Hl]%Forall_cons.
  destruct l as [|w' l']; [by apply split_on_no_byte_id|].
  change (join (String c "") (w :: w' :: l'))
    with (w +:+ String c (join (String c "") (w' :: l'))).
  rewrite split_on_app by done. by rewrite IH.
Qed.

(** ** Lemmas: sorted, duplicate-free lists of names *)

Definition str_lt (x y : string) : Prop := (x ≤ y)%string ∧ x ≠ y.

#[global] Instance str_lt_strict : StrictOrder str_lt.
Proof.
  split.
  - intros x [_ ?]. done.
  - intros x y z [Hxy ?] [Hyz ?]. split; [by trans y|]. intros ->.
    assert (y = z); [|done]. by apply (anti_symm (≤)%string).
Qed.

Lemma elem_of_dedup x l : x ∈ dedup l ↔ x ∈ l.
Proof.
  induction l as [|y l IH]; [done|]. destruct l as [|z l]; [done|].
  cbn [dedup]. case_bool_decide; subst; [set_solver|]. set_solver.
Qed.

Lemma elem_of_sort_strings x l : x ∈ sort_strings l ↔ x ∈ l.
Proof. unfold sort_strings. by rewrite merge_sort_Permutation. Qed.

Lemma elem_of_sort_dedup x l : x ∈ sort_dedup l ↔ x ∈ l.
Proof. unfold sort_dedup. by rewrite elem_of_dedup, elem_of_sort_strings. Qed.

Lemma dedup_StronglySorted l :
  StronglySorted String.le l → StronglySorted str_lt (dedup l).
Proof.
  induction 1 as [|x l Hl IH Hx]; [constructor|].
  destruct l as [|y l]; [repeat constructor|].
  cbn [dedup]. case_bool_decide as Hxy; [done|].
  constructor; [done|]. apply Forall_forall. intros z Hz. rewrite (elem_of_dedup z (y :: l)) in Hz.
  rewrite Forall_forall in Hx. split; [exact (Hx _ Hz)|]. intros <-.
  apply Hxy, (anti_symm String.le); [apply Hx; set_solver|].
  apply StronglySorted_inv in Hl as [_ Hy]. rewrite Forall_forall in Hy.
  apply elem_of_cons in Hz as [->|Hz]; [done|auto].
Qed.

Lemma sort_dedup_StronglySorted l : StronglySorted str_lt (sort_dedup l).
Proof. apply dedup_StronglySorted, StronglySorted_merge_sort; apply _. Qed.

Lemma str_lt_sorted_ext l1 l2 :
  StronglySorted str_lt l1 → StronglySorted str_lt l2 → (∀ x, x ∈ l1 ↔ x ∈ l2) → l1 = l2.
Proof.
  intros H1. revert l2. induction H1 as [|x l1 Hl1 IH Hx]; intros l2 H2 Hext.
  - destruct l2 as [|y l2]; [done|]. specialize (Hext y). set_solver.
  - destruct H2 as [|y l2 Hl2 Hy]; [specialize (Hext x); set_solver|].
    rewrite Forall_forall in Hx, Hy.
    assert (x = y) as <-.
    { destruct (decide (x = y)) as [|Hne]; [done|]. exfalso.
      assert (x ∈ l2) as Hx2 by (specialize (Hext x); set_solver).
      assert (y ∈ l1) as Hy1 by (specialize (Hext y); set_solver).
      apply (irreflexivity str_lt x). trans y; auto. }
    f_equal. apply IH; [done|]. intros z. specialize (Hext z).
    rewrite !elem_of_cons in Hext. split; intros Hz.
    + destruct Hext as [[->|?] _]; auto. exfalso. by apply (irreflexivity str_lt x), Hx.
    + destruct Hext as [_ [->|?]]; auto. exfalso. by apply (irreflexivity str_lt x), Hy.
Qed.

(** Sorting and deduplicating forgets everything but the set of names. *)
Lemma sort_dedup_ext l1 l2 : (∀ x, x ∈ l1 ↔ x ∈ l2) → sort_dedup l1 = sort_dedup l2.
Proof.
  intros H. apply str_lt_sorted_ext; [apply sort_dedup_StronglySorted..|].
  intros x. by rewrite !elem_of_sort_dedup.
Qed.

Lemma sort_dedup_sorted_id l : StronglySorted str_lt l → sort_dedup l = l.
Proof.
  intros Hl. apply str_lt_sorted_ext; [apply sort_dedup_StronglySorted|done|].
  intros x. apply elem_of_sort_dedup.
Qed.

Lemma sort_dedup_idemp l : sort_dedup (sort_dedup l) = sort_dedup l.
Proof. apply sort_dedup_ext. intros x. apply elem_of_sort_dedup. Qed.

Lemma str_lt_sorted_NoDup l : StronglySorted str_lt l → NoDup l.
Proof.
  induction 1 as [|x l Hl IH Hx]; constructor; [|done].
  rewrite Forall_forall in Hx. intros Hin. by apply (irreflexivity str_lt x), Hx.
Qed.

Lemma NoDup_sort_dedup l : NoDup (sort_dedup l).
Proof. apply str_lt_sorted_NoDup, sort_dedup_StronglySorted. Qed.

Lemma sort_dedup_nil l : sort_dedup l = [] ↔ l = [].
Proof.
  split; [|by intros ->]. intros H. destruct l as [|x l]; [done|].
  assert (x ∈ sort_dedup (x :: l)) as Hx by (rewrite elem_of_sort_dedup; set_solver).
  rewrite H in Hx. by apply not_elem_of_nil in Hx.
Qed.

(** The length of the deduplicated list tells whether there were repetitions. *)
Lemma dedup_length_le l : length (dedup l) ≤ length l.
Proof.
  induction l as [|x l IH]; [done|]. destruct l as [|y l]; [done|].
  cbn [dedup]. case_bool_decide; simpl in *; lia.
Qed.

Lemma sort_dedup_length l : length (sort_dedup l) = length l ↔ NoDup l.
Proof.
  assert (length (sort_strings l) = length l) as Hlen
    by (unfold sort_strings; by rewrite merge_sort_Permutation).
  split; intros H.
  - assert (sort_strings l ≡ₚ l) as Hp by apply merge_sort_Permutation.
    rewrite <-Hp. unfold sort_dedup in H. rewrite <-Hlen in H.
    assert (StronglySorted String.le (sort_strings l)) as Hs
      by (apply StronglySorted_merge_sort; apply _).
    assert (dedup (sort_strings l) = sort_strings l) as <-;
      [|apply str_lt_sorted_NoDup, dedup_StronglySorted, Hs].
    clear -H. induction (sort_strings l) as [|x k IH]; [done|].
    destruct k as [|y k]; [done|]. cbn [dedup] in *.
    case_bool_decide as Hxy.
    + pose proof (dedup_length_le (y :: k)). simpl in *. lia.
    + simpl in H. f_equal. apply IH. simpl in *. lia.
  - apply Permutation_length, NoDup_Permutation; [apply NoDup_sort_dedup|done|].
    intros x. apply elem_of_sort_dedup.
Qed.

#[export] Hint Rewrite elem_of_sort_dedup elem_of_sort_strings elem_of_dedup : warden_sets.
#[export] Hint Resolve sort_dedup_StronglySorted NoDup_sort_dedup : warden.
