(* ===== verification/Errors.v ===== *)
(** * Errors: the [WC-*] taxonomy ([crates/wc-core/src/error.rs])

    A [Code] is a validated 16-bit number; the facts about a code live in the sorted
    table [CODES], which [Code_spec] binary-searches.  Every fallible function of the
    development returns [result A], whose error is a [Code]: the human [detail] and
    the [source] of a [WcError] are prose for a log line, are never branched on, and
    are not modelled. *)

From S2P Require Import Prelude Text.
From Stdlib Require Import DecimalString.

Record Code := mkCode { as_u16 : N }.

#[global] Instance Code_eq_dec : EqDecision Code.
Proof. solve_decision. Defined.

Abbreviation result A := (Result A Code).

(** ** The code constants *)

Definition IDENTITY_UNVERIFIABLE : Code := mkCode 1001.
Definition SURFACE_UNOBTAINABLE : Code := mkCode 1002.
Definition CARD_SIGNATURE_INVALID : Code := mkCode 1003.
Definition PROVENANCE_UNVERIFIABLE : Code := mkCode 1004.
Definition SCREENING_BLOCKED : Code := mkCode 1005.
Definition TIER_EXCEEDS_CEILING : Code := mkCode 1006.
Definition PIN_WRITE_FAILED : Code := mkCode 1007.
Definition OWNER_UNRESOLVABLE : Code := mkCode 1008.
Definition SURFACE_LIMITS_EXCEEDED : Code := mkCode 1010.
Definition ENTITY_NOT_FOUND : Code := mkCode 2001.
Definition ENTITY_DUPLICATE : Code := mkCode 2002.
Definition ILLEGAL_TRANSITION : Code := mkCode 2003.
Definition ENTITY_QUARANTINED : Code := mkCode 2004.
Definition MALFORMED_IDENTIFIER : Code := mkCode 2005.
Definition ZONE_PAIR_UNKNOWN : Code := mkCode 2011.
Definition DISCOVERY_THROTTLED : Code := mkCode 2020.
Definition ASKER_NOT_ATTESTED : Code := mkCode 2021.
Definition FEDERATION_ANCHOR_UNKNOWN : Code := mkCode 2030.
Definition FEDERATION_CHAIN_INVALID : Code := mkCode 2031.
Definition FEDERATION_STATEMENT_EXPIRED : Code := mkCode 2032.
Definition FEDERATION_METADATA_WIDENED : Code := mkCode 2033.
Definition FEDERATION_ANCHOR_STALE : Code := mkCode 2034.
Definition SIGNAL_NOT_AUTHORISED : Code := mkCode 2035.
Definition CONTRACT_NOT_FOUND : Code := mkCode 3001.
Definition SURFACE_NOT_SUBSET : Code := mkCode 3010.
Definition POLICY_DENIED : Code := mkCode 3011.
Definition MINT_PRECONDITION_FAILED : Code := mkCode 3012.
Definition TTL_EXCEEDS_ZONE_BAR : Code := mkCode 3013.
Definition TERMS_WOULD_WIDEN : Code := mkCode 3014.
Definition STANDING_CAP_REACHED : Code := mkCode 3015.
Definition APPROVER_ROLE_MISSING : Code := mkCode 3020.
Definition APPROVAL_STALE : Code := mkCode 3021.
Definition DUAL_CONTROL_MISSING : Code := mkCode 3022.
Definition OWNER_APPROVAL_MISSING : Code := mkCode 3024.
Definition APPROVAL_SIGNATURE_INVALID : Code := mkCode 3023.
Definition APPROVER_NOT_DECLARED : Code := mkCode 3025.
Definition APPROVAL_QUORUM_MISSING : Code := mkCode 3026.
Definition APPROVERS_NOT_DISTINCT : Code := mkCode 3027.
Definition RENEWAL_POSTURE_DEGRADED : Code := mkCode 3030.
Definition RENEWAL_REATTEST_FAILED : Code := mkCode 3031.
Definition CONTRACT_ALREADY_ENDED : Code := mkCode 3032.
Definition WITHDRAWAL_DUE : Code := mkCode 3033.
Definition ALG_NOT_ASYMMETRIC : Code := mkCode 3101.
Definition SIGNATURE_INVALID : Code := mkCode 3102.
Definition CONTRACT_EXPIRED : Code := mkCode 3103.
Definition AUDIENCE_MISMATCH : Code := mkCode 3104.
Definition CONTRACT_REVOKED : Code := mkCode 3105.
Definition CALLER_PEER_MISMATCH : Code := mkCode 3106.
Definition CALLEE_PEER_MISMATCH : Code := mkCode 3107.
Definition PIN_MISMATCH : Code := mkCode 3108.
Definition POSTURE_NOT_ATTESTED : Code := mkCode 3109.
Definition ZONE_PAIR_FORBIDDEN : Code := mkCode 3110.
Definition TOKEN_BINDING_MISMATCH : Code := mkCode 3111.
Definition ISSUER_MISMATCH : Code := mkCode 3112.
Definition SCHEMA_UNKNOWN : Code := mkCode 3120.
Definition CONTRACT_OVERSIZE : Code := mkCode 3121.
Definition NO_CONTRACT : Code := mkCode 4001.
Definition TOOL_UNCONTRACTED : Code := mkCode 4002.
Definition RATE_CEILING : Code := mkCode 4003.
Definition SPEND_CEILING : Code := mkCode 4004.
Definition CONCURRENCY_CEILING : Code := mkCode 4005.
Definition EGRESS_TERM_VIOLATED : Code := mkCode 4006.
Definition CATALOG_UNFILTERABLE : Code := mkCode 4007.
Definition FRAME_MALFORMED : Code := mkCode 4008.
Definition PEER_HEADER_UNTRUSTED : Code := mkCode 4020.
Definition REATTEST_FAILED : Code := mkCode 5001.
Definition DRIFT_MATERIAL : Code := mkCode 5002.
Definition CREDENTIAL_EXPIRING : Code := mkCode 5010.
Definition BLAST_DEPTH_TRUNCATED : Code := mkCode 5030.
Definition QUARANTINE_DUAL_CONTROL_MISSING : Code := mkCode 6001.
Definition REVOCATION_FEED_UNWRITABLE : Code := mkCode 6002.
Definition MEDIATOR_ACK_MISSING : Code := mkCode 6003.
Definition BREAKGLASS_OUTSIDE_POLICY : Code := mkCode 6004.
Definition BLOCKING_SINK_UNAVAILABLE : Code := mkCode 7001.
Definition CHAIN_APPEND_FAILED : Code := mkCode 7002.
Definition CHAIN_BROKEN : Code := mkCode 7003.
Definition EXPORT_FAILED : Code := mkCode 7010.
Definition PDP_UNREACHABLE : Code := mkCode 7020.
Definition POLICY_INVALID : Code := mkCode 8001.
Definition TENANT_UNKNOWN : Code := mkCode 8002.
Definition STORE_LOCKED : Code := mkCode 8003.
Definition CONFIG_INVALID : Code := mkCode 8004.
(** ** Categories, fail directions and modes *)

Inductive Category :=
| Admission | Registry | ContractLifecycle | Verification | Mediation | PostureCat
| Containment | Evidence | Platform.

Inductive FailDirection := Closed | ClosedUnlessObserve | Degrade | Report.

Inductive Mode := Enforce | Observe.

#[global] Instance Category_eq_dec : EqDecision Category.
Proof. solve_decision. Defined.
#[global] Instance FailDirection_eq_dec : EqDecision FailDirection.
Proof. solve_decision. Defined.
#[global] Instance Mode_eq_dec : EqDecision Mode.
Proof. solve_decision. Defined.

Record CodeSpec := mkCodeSpec {
  cs_code : N;
  cs_fail : FailDirection;
  cs_http : option N;
  cs_rpc : option Z;
  cs_summary : string
}.

Definition spec_row (code : N) (fail : FailDirection) (http : option N) (rpc : option Z)
    (summary : string) : CodeSpec :=
  mkCodeSpec code fail http rpc summary.

Local Open Scope N_scope.

Definition CODES : list CodeSpec := [
  spec_row 1001 ClosedUnlessObserve (Some 422) None "workload identity unverifiable";
  spec_row 1002 Closed (Some 424) None "surface unobtainable at handshake";
  spec_row 1003 ClosedUnlessObserve (Some 422) None "agent-card signature invalid";
  spec_row 1004 ClosedUnlessObserve (Some 422) None "build provenance unverifiable";
  spec_row 1005 Closed (Some 422) None "screening block-class finding";
  spec_row 1006 Closed (Some 409) None "derived tier exceeds requested ceiling";
  spec_row 1007 Closed (Some 500) None "pin write failed";
  spec_row 1008 Closed (Some 422) None "owner missing or unresolvable";
  spec_row 1010 Closed (Some 413) None "surface exceeds size, count or depth limits";
  spec_row 2001 Report (Some 404) None "entity not found";
  spec_row 2002 Report (Some 409) None "duplicate entity id";
  spec_row 2003 Closed (Some 409) None "illegal lifecycle transition";
  spec_row 2004 Closed (Some 403) None "entity quarantined";
  spec_row 2005 Closed (Some 422) None "malformed identifier";
  spec_row 2011 Closed (Some 403) None "unknown zone pair, treated as most restrictive";
  spec_row 2020 Report (Some 200) None "discovery throttled";
  spec_row 2021 ClosedUnlessObserve (Some 200) None "asker not registered or not attested";
  spec_row 2030 Closed (Some 403) None "federation chain does not reach a trusted anchor";
  spec_row 2031 Closed (Some 403) None "federation trust chain invalid";
  spec_row 2032 Closed (Some 403) None "federation entity statement expired";
  spec_row 2033 Closed (Some 403) None "federation metadata widened by a subordinate";
  spec_row 2034 Degrade (Some 409) None "federation anchor overdue for re-verification";
  spec_row 2035 Closed (Some 403) None "shared-signals transmitter not authorised for this subject";
  spec_row 3001 Report (Some 404) None "contract not found";
  spec_row 3010 Closed (Some 422) None "requested surface not a subset of declared surface";
  spec_row 3011 Closed (Some 403) None "connection policy denied";
  spec_row 3012 Closed (Some 409) None "mint precondition failed";
  spec_row 3013 Report (Some 200) None "ttl exceeds zone bar, narrowed";
  spec_row 3014 Closed (Some 422) None "terms would widen a ceiling";
  spec_row 3015 Closed (Some 202) None "standing-policy cap reached, escalated to human";
  spec_row 3020 Closed (Some 403) None "approver lacks required role";
  spec_row 3021 Closed (Some 409) None "approval stale, policy version moved";
  spec_row 3022 Closed (Some 403) None "dual control not satisfied";
  spec_row 3023 Closed (Some 401) None "approval signature invalid";
  spec_row 3024 Closed (Some 403) None "callee's registered owner did not approve";
  spec_row 3025 Closed (Some 403) None "approver is not declared in the manifest's [approval]";
  spec_row 3026 Closed (Some 403) None "fewer approvers than [approval].min requires";
  spec_row 3027 Closed (Some 403) None "the same human approved both sides";
  spec_row 3030 Closed (Some 409) None "renewal blocked, posture degraded";
  spec_row 3031 Closed (Some 409) None "renewal blocked, re-attestation failed";
  spec_row 3032 Report (Some 410) None "contract already revoked or expired";
  spec_row 3033 Report (Some 200) None "provider withdrawal due, live contracts hold the item";
  spec_row 3101 Closed None (Some (-32001)%Z) "alg not asymmetric";
  spec_row 3102 Closed None (Some (-32001)%Z) "signature or issuer chain invalid";
  spec_row 3103 Closed None (Some (-32001)%Z) "contract expired or not yet valid";
  spec_row 3104 Closed None (Some (-32001)%Z) "audience is not this mediator";
  spec_row 3105 Closed None (Some (-32001)%Z) "contract, connection or party revoked";
  spec_row 3106 Closed None (Some (-32001)%Z) "caller peer identity mismatch";
  spec_row 3107 Closed None (Some (-32001)%Z) "callee peer identity mismatch";
  spec_row 3108 Closed None (Some (-32001)%Z) "surface pin mismatch";
  spec_row 3109 ClosedUnlessObserve None (Some (-32001)%Z) "posture not attested";
  spec_row 3110 Closed None (Some (-32001)%Z) "zone pair not permitted locally";
  spec_row 3111 Closed None (Some (-32001)%Z) "token and contract binding mismatch";
  spec_row 3112 Closed None (Some (-32001)%Z) "issuer is not the configured control plane";
  spec_row 3120 Closed None (Some (-32001)%Z) "unknown contract schema version";
  spec_row 3121 Closed None (Some (-32001)%Z) "contract exceeds size limit";
  spec_row 4001 Closed None (Some (-32001)%Z) "no contract available";
  spec_row 4002 Closed None None "uncontracted tool attempted";
  spec_row 4003 Closed None None "rate ceiling exceeded";
  spec_row 4004 Closed None None "spend ceiling exceeded";
  spec_row 4005 Closed None None "concurrency or fan-out ceiling exceeded";
  spec_row 4006 Closed None None "egress term violated";
  spec_row 4007 Closed (Some 200) None "catalogue unfilterable, empty list returned";
  spec_row 4008 Closed None (Some (-32600)%Z) "malformed or oversized frame";
  spec_row 4020 Closed None (Some (-32001)%Z) "peer identity header from untrusted origin";
  spec_row 5001 Degrade None None "re-attestation failed";
  spec_row 5002 Degrade None None "material drift detected";
  spec_row 5010 Degrade None None "credential expiring or expired";
  spec_row 5030 Report (Some 200) None "blast-radius depth limit reached, truncated";
  spec_row 6001 Closed (Some 403) None "quarantine dual control missing";
  spec_row 6002 Closed (Some 500) None "revocation feed unwritable";
  spec_row 6003 Report (Some 202) None "mediator acknowledgement not received";
  spec_row 6004 Closed (Some 403) None "break-glass request outside policy";
  spec_row 7001 Closed (Some 503) None "blocking evidence sink unavailable";
  spec_row 7002 Closed (Some 500) None "audit chain append failed";
  spec_row 7003 Report (Some 200) None "audit chain break detected";
  spec_row 7010 Report (Some 500) None "export failed";
  spec_row 7020 Closed (Some 503) None "external pdp unreachable";
  spec_row 8001 Report (Some 422) None "invalid policy, last-known-good retained";
  spec_row 8002 Closed (Some 404) None "unknown tenant or cross-tenant reference";
  spec_row 8003 Closed (Some 503) None "store write lock held by another writer";
  spec_row 8004 Closed None None "configuration invalid at startup"
].

Local Close Scope N_scope.

(** ** Lookup: [slice::binary_search_by_key] *)

(** The standard library's loop: [base] and [size] delimit the window, halved until
    one candidate is left.  [fuel] bounds the number of halvings. *)
Fixpoint bsearch_loop (fuel : nat) (keys : list N) (k : N) (base size : nat) : nat :=
  match fuel with
  | 0 => base
  | S fuel =>
    if bool_decide (size ≤ 1) then base
    else
      let half := size `div` 2 in
      let mid := base + half in
      let base := match keys !! mid with
                  | Some x => if (k <? x)%N then base else mid
                  | None => base
                  end in
      bsearch_loop fuel keys k base (size - half)
  end.

Definition binary_search (keys : list N) (k : N) : option nat :=
  if bool_decide (keys = []) then None
  else
    let base := bsearch_loop (length keys) keys k 0 (length keys) in
    match keys !! base with
    | Some x => if bool_decide (x = k) then Some base else None
    | None => None
    end.

Definition Code_spec (c : Code) : option CodeSpec :=
  match binary_search (cs_code <$> CODES) (as_u16 c) with
  | Some i => CODES !! i
  | None => None
  end.

Definition Code_new (raw : N) : option Code :=
  let candidate := mkCode raw in
  match Code_spec candidate with Some _ => Some candidate | None => None end.

(** [Category::of]; [None] is the [unreachable!] branch. *)
Definition Category_of (c : Code) : option Category :=
  let n := as_u16 c in
  if ((1000 <=? n) && (n <=? 1999))%N then Some Admission
  else if ((2000 <=? n) && (n <=? 2999))%N then Some Registry
  else if ((3000 <=? n) && (n <=? 3099))%N then Some ContractLifecycle
  else if ((3100 <=? n) && (n <=? 3999))%N then Some Verification
  else if ((4000 <=? n) && (n <=? 4999))%N then Some Mediation
  else if ((5000 <=? n) && (n <=? 5999))%N then Some PostureCat
  else if ((6000 <=? n) && (n <=? 6999))%N then Some Containment
  else if ((7000 <=? n) && (n <=? 7999))%N then Some Evidence
  else if ((8000 <=? n) && (n <=? 8999))%N then Some Platform
  else None.

Definition Code_category (c : Code) : option Category := Category_of c.

Definition Code_summary (c : Code) : string :=
  match Code_spec c with Some s => cs_summary s | None => "unknown code" end.

Definition fail_direction (c : Code) : FailDirection :=
  match Code_spec c with Some s => cs_fail s | None => Closed end.

Definition denies_in (c : Code) (mode : Mode) : bool :=
  match fail_direction c with
  | Closed => true
  | ClosedUnlessObserve => match mode with Enforce => true | Observe => false end
  | Degrade | Report => false
  end.

(** ** Display and parsing *)

(** [{:04}]: decimal, zero-padded to at least four digits. *)
Definition fmt_04 (n : N) : string :=
  let d := NilZero.string_of_uint (N.to_uint n) in
  String.concat "" (replicate (4 - String.length d) "0") +:+ d.

Definition Code_to_string (c : Code) : string := "WC-" +:+ fmt_04 (as_u16 c).

Definition u16_max : N := 65535.

(** [str::parse::<u16>]: an optional [+], then at least one digit, no overflow. *)
Definition parse_digits (l : list N) : option N :=
  fold_left (λ acc b,
    match acc with
    | None => None
    | Some n => if is_ascii_digit b
                then let m := (n * 10 + (b - 48))%N in
                     if (m <=? u16_max)%N then Some m else None
                else None
    end) l (Some 0%N).

Definition parse_u16 (s : string) : option N :=
  let body := match strip_prefix "+" s with Some r => r | None => s end in
  if bool_decide (body = "") then None else parse_digits (bytes body).

Definition Code_from_str (s : string) : option Code :=
  let digits := match strip_prefix "WC-" s with Some r => r | None => s end in
  match parse_u16 digits with Some n => Code_new n | None => None end.

(** ** The binary search is a lookup *)

Lemma sorted_lookup_lt keys i j x y :
  StronglySorted N.lt keys →
  i < j → keys !! i = Some x → keys !! j = Some y → (x < y)%N.
Proof.
  intros Hs. revert i j. induction Hs as [|z l Hl IH Hz]; intros i j Hij Hi Hj; [done|].
  destruct j as [|j]; [lia|]. simpl in Hj. destruct i as [|i]; simplify_eq/=.
  - rewrite Forall_forall in Hz. by apply Hz, (list_elem_of_lookup_2 _ j).
  - apply (IH i j); [lia|done..].
Qed.

Section BinarySearch.
Context (keys : list N) (k : N).
Hypothesis keys_sorted : StronglySorted N.lt keys.

(** The loop never discards the window holding the key. *)
Lemma bsearch_loop_spec fuel base size i :
  keys !! i = Some k → base ≤ i < base + size → size ≤ S fuel →
  base + size ≤ length keys →
  bsearch_loop fuel keys k base size = i.
Proof.
  intros Hi. revert base size. induction fuel as [|fuel IH]; intros base size Hw Hf Hl.
  { simpl. lia. }
  cbn [bsearch_loop]. case_bool_decide as Hs; [lia|]. cbv zeta.
  assert (1 ≤ size `div` 2 ∧ 2 * (size `div` 2) ≤ size) as [Hh1 Hh2].
  { split; [apply Nat.div_le_lower_bound; lia|]. apply Nat.Div0.mul_div_le. }
  generalize dependent (size `div` 2). intros half Hh1 Hh2.
  destruct (keys !! (base + half)) as [x|] eqn:Hx.
  2:{ apply lookup_ge_None in Hx. lia. }
  destruct (k <? x)%N eqn:Hkx; bool_facts; apply IH; try lia.
  - enough (¬ base + half ≤ i) by lia. intros Hle.
    apply Nat.le_lteq in Hle as [Hlt|Heq].
    + pose proof (sorted_lookup_lt _ _ _ _ _ keys_sorted Hlt Hx Hi). lia.
    + rewrite <-Heq, Hx in Hi. simplify_eq. lia.
  - enough (¬ i < base + half) by lia. intros Hlt.
    pose proof (sorted_lookup_lt _ _ _ _ _ keys_sorted Hlt Hi Hx). lia.
Qed.

Lemma binary_search_Some i : binary_search keys k = Some i ↔ keys !! i = Some k.
Proof.
  unfold binary_search. split.
  - intros H. repeat case_match; simplify_eq; bool_facts. by subst.
  - intros Hi. rewrite bool_decide_eq_false_2 by (by intros ->).
    pose proof (lookup_lt_Some _ _ _ Hi).
    rewrite (bsearch_loop_spec _ 0 (length keys) i) by (done || lia).
    rewrite Hi. by rewrite bool_decide_eq_true_2.
Qed.
End BinarySearch.

(** The table is strictly sorted, so the lookup is exact. *)
Fixpoint strictly_increasing (l : list N) : bool :=
  match l with
  | x :: ((y :: _) as l') => (x <? y)%N && strictly_increasing l'
  | _ => true
  end.

Lemma strictly_increasing_sorted l : strictly_increasing l = true → StronglySorted N.lt l.
Proof.
  intros H. apply Sorted_StronglySorted; [apply _|].
  induction l as [|x [|y l] IH]; [repeat constructor..|].
  simpl in H. bool_facts. constructor; [by apply IH|]. by constructor.
Qed.

Lemma CODES_sorted : StronglySorted N.lt (cs_code <$> CODES).
Proof. apply strictly_increasing_sorted. vm_compute. reflexivity. Qed.

Lemma Code_spec_Some c s : Code_spec c = Some s ↔ s ∈ CODES ∧ cs_code s = as_u16 c.
Proof.
  unfold Code_spec. split.
  - destruct (binary_search _ _) as [i|] eqn:E; [|done]. intros Hs.
    apply binary_search_Some in E; [|apply CODES_sorted].
    rewrite list_lookup_fmap, Hs in E. simplify_eq/=.
    split; [|done]. by apply (list_elem_of_lookup_2 _ i).
  - intros [[i Hi]%list_elem_of_lookup Hc].
    assert ((cs_code <$> CODES) !! i = Some (as_u16 c)) as E
      by (by rewrite list_lookup_fmap, Hi; simpl; rewrite Hc).
    apply (binary_search_Some _ _ CODES_sorted) in E. by rewrite E.
Qed.

Lemma Code_spec_None c : Code_spec c = None ↔ as_u16 c ∉ cs_code <$> CODES.
Proof.
  split.
  - intros H (s & Heq & Hs)%list_elem_of_fmap.
    rewrite (proj2 (Code_spec_Some c s) (conj Hs (eq_sym Heq))) in H. discriminate.
  - intros H. destruct (Code_spec c) as [s|] eqn:E; [|done].
    apply Code_spec_Some in E as [Hs Heq]. exfalso. apply H.
    apply list_elem_of_fmap. eauto.
Qed.

(** Facts about every row are decided by running over the table. *)
Lemma CODES_forall (p : CodeSpec → bool) c s :
  forallb p CODES = true → Code_spec c = Some s → p s = true.
Proof. intros H [Hs _]%Code_spec_Some. by apply (proj1 (forallb_True p CODES) H). Qed.

(** ** Properties *)

(** Looking a code up by binary search over the table is exactly a scan of the
    table: it finds the row of every defined code and no row for any other number. *)
Theorem code_lookup_exact c :
  Code_spec c = find (λ s, (cs_code s =? as_u16 c)%N) CODES.
Proof.
  destruct (Code_spec c) as [s|] eqn:E.
  - apply Code_spec_Some in E as [Hs Hc].
    destruct (find _ CODES) as [s'|] eqn:F.
    + apply find_some in F as [Hs' Hc']. bool_facts. rewrite <-list_elem_of_In in Hs'.
      rewrite <-(proj2 (Code_spec_Some c s') (conj Hs' Hc')).
      symmetry. by apply Code_spec_Some.
    + apply list_elem_of_In, (find_none _ _ F) in Hs. by bool_facts.
  - apply Code_spec_None in E. symmetry. destruct (find _ CODES) as [s|] eqn:F; [|done].
    apply find_some in F as [Hs Hc]. bool_facts. exfalso. apply E, list_elem_of_fmap.
    exists s. by rewrite list_elem_of_In.
Qed.

Definition row_roundtrips (s : CodeSpec) : bool :=
  bool_decide (Code_from_str (Code_to_string (mkCode (cs_code s))) = Some (mkCode (cs_code s))).

Lemma rows_roundtrip : forallb row_roundtrips CODES = true.
Proof. vm_compute. reflexivity. Qed.

(** Parsing the displayed form of a code gives the code back, for every code the
    binary defines, and parsing never yields a code the table does not define. *)
Theorem code_display_roundtrip :
  (∀ c, is_Some (Code_spec c) → Code_from_str (Code_to_string c) = Some c) ∧
  (∀ s c, Code_from_str s = Some c → is_Some (Code_spec c)).
Proof.
  split.
  - intros [n] [s Hs]. pose proof (CODES_forall _ _ _ rows_roundtrip Hs) as H.
    apply Code_spec_Some in Hs as [_ Hn]. simpl in Hn. subst n.
    unfold row_roundtrips in H. by bool_facts.
  - intros s c. unfold Code_from_str, Code_new. intros H.
    destruct (parse_u16 _) as [n|]; [|discriminate].
    destruct (Code_spec (mkCode n)) as [r|] eqn:E; [|discriminate].
    injection H as <-. by exists r.
Qed.

Definition softened : list N := [1001; 1003; 1004; 2021; 3109]%N.

Definition row_softening_listed (s : CodeSpec) : bool :=
  Bool.eqb (bool_decide (cs_fail s = ClosedUnlessObserve)) (bool_decide (cs_code s ∈ softened)).

Lemma rows_softening_listed : forallb row_softening_listed CODES = true.
Proof. vm_compute. reflexivity. Qed.

(** Observe mode softens exactly five codes (unverifiable identity, card
    signature and provenance at admission, an unattested asker, an unattested
    counterparty) and turns no other enforce-mode refusal into an allow; a code this
    binary does not know is refused in both modes. *)
Theorem observe_softens_exactly c :
  (denies_in c Enforce = true ∧ denies_in c Observe = false ↔ as_u16 c ∈ softened) ∧
  (denies_in c Observe = true → denies_in c Enforce = true) ∧
  (Code_spec c = None → denies_in c Observe = true).
Proof.
  unfold denies_in, fail_direction. destruct (Code_spec c) as [s|] eqn:E.
  - pose proof (CODES_forall _ _ _ rows_softening_listed E) as H.
    apply Code_spec_Some in E as [_ Hc]. unfold row_softening_listed in H.
    apply Bool.eqb_prop in H. rewrite Hc in H.
    split; [|split]; [|by destruct (cs_fail s)|discriminate].
    rewrite <-(bool_decide_eq_true (as_u16 c ∈ softened)), <-H, bool_decide_eq_true.
    destruct (cs_fail s); naive_solver.
  - split; [|split; intros; reflexivity]. split; [naive_solver|]. intros Hin.
    apply Code_spec_None in E. destruct E.
    assert (forallb (λ n, bool_decide (n ∈ cs_code <$> CODES)) softened = true) as Hall
      by (vm_compute; reflexivity).
    apply (proj1 (forallb_True _ _) Hall) in Hin. by bool_facts.
Qed.
