(* ===== verification/Model.v ===== *)
(** * Model: identifiers, entities, pins and the lifecycle state machine
    ([crates/wc-core/src/model.rs])

    Every identifier is a newtype over its string whose only constructor validates
    ([EntityId_new], [Cid_new], ...); the [_valid] predicates say what a value that
    went through its constructor satisfies.  SHA-256 comes from the [sha2] crate and is
    the parameter [Sha256]. *)

From S2P Require Import Prelude Text Errors.

(** SHA-256 of a byte string, lowercase hex ([sha2] and [hex] crates). *)
Class Sha256 := sha256_hex : string → string.

(** [hex::encode] prints lowercase hexadecimal digits. *)
Class Sha256Hex `{Sha256} : Prop :=
  sha256_hex_digits : ∀ s b, b ∈ bytes (sha256_hex s) → is_ascii_hexdigit b = true.

(** A digest function with that law: the input itself, in hexadecimal. *)
Module TestSha.
Definition hex_digit (n : N) : ascii := ascii_of_N (if (n <? 10)%N then 48 + n else 87 + n).
Fixpoint hex_encode (s : string) : string :=
  match s with
  | EmptyString => ""
  | String c s => String (hex_digit (N_of_ascii c / 16)) (String (hex_digit (N_of_ascii c mod 16))
                    (hex_encode s))
  end.
#[export] Instance sha : Sha256 := hex_encode.

Lemma hex_digit_ok n : (n < 16)%N → is_ascii_hexdigit (N_of_ascii (hex_digit n)) = true.
Proof.
  intros Hn. unfold hex_digit. destruct (n <? 10)%N eqn:E; bool_facts;
    rewrite N_ascii_embedding by lia; unfold is_ascii_hexdigit, is_ascii_digit;
    rewrite !orb_true_iff, !andb_true_iff, !N.leb_le; lia.
Qed.

#[export] Instance sha_hex : Sha256Hex.
Proof.
  intros s b. unfold sha256_hex, sha. induction s as [|c s IH]; simpl; [set_solver|].
  pose proof (N_ascii_bounded c) as Hc. intros [->|[->|Hin]%elem_of_cons]%elem_of_cons; [| |auto].
  - apply hex_digit_ok. apply N.Div0.div_lt_upper_bound. lia.
  - apply hex_digit_ok. apply N.mod_lt. lia.
Qed.
End TestSha.

(** [format!("sha256:{...}")]. *)
Definition sha256_tagged `{Sha256} (input : string) : string := "sha256:" +:+ sha256_hex input.

(** ** Identifiers *)

Definition base_checks (s : string) (max : N) : result unit :=
  guard_err (bool_decide (s = "")) MALFORMED_IDENTIFIER $
  guard_err (max <? str_len s)%N MALFORMED_IDENTIFIER $
  guard_err (existsb (λ c, is_control c || is_whitespace c) (chars s)) MALFORMED_IDENTIFIER $
  Ok tt.

Definition validate_entity_id (s : string) (max : N) : result unit :=
  let? _ := base_checks s max in
  if starts_with "spiffe://" s || starts_with "urn:" s then Ok tt
  else Err MALFORMED_IDENTIFIER.

Definition validate_cid (s : string) (max : N) : result unit :=
  let? _ := base_checks s max in
  match strip_prefix "conn_" s with
  | None => Err MALFORMED_IDENTIFIER
  | Some rest =>
    if (str_len rest <? 8)%N || negb (forallb is_ascii_hexdigit (chars rest))
    then Err MALFORMED_IDENTIFIER else Ok tt
  end.

Definition is_jti_char (c : N) : bool := is_ascii_alphanumeric c || (c =? 95)%N || (c =? 45)%N.

Definition validate_jti (s : string) (max : N) : result unit :=
  let? _ := base_checks s max in
  guard_err (str_len s <? 8)%N MALFORMED_IDENTIFIER $
  guard_err (negb (forallb is_jti_char (chars s))) MALFORMED_IDENTIFIER $
  Ok tt.

Definition validate_human_ref (s : string) (max : N) : result unit :=
  let? _ := base_checks s max in
  match strip_prefix "human:" s with
  | Some rest => if bool_decide (rest = "") then Err MALFORMED_IDENTIFIER else Ok tt
  | None => Err MALFORMED_IDENTIFIER
  end.

Inductive TrustLevel := Internal | Partner | Public.
#[global] Instance TrustLevel_eq_dec : EqDecision TrustLevel.
Proof. solve_decision. Defined.

Definition from_segment (seg : string) : option TrustLevel :=
  if bool_decide (seg = "internal") then Some Internal
  else if bool_decide (seg = "partner") then Some Partner
  else if bool_decide (seg = "public") then Some Public
  else None.

Definition dot : ascii := "."%char.

Definition is_segment_char (c : N) : bool :=
  is_ascii_lowercase c || is_ascii_digit c || (c =? 45)%N.

Definition segment_ok (seg : string) : bool :=
  negb (bool_decide (seg = "")) && forallb is_segment_char (chars seg).

Definition validate_zone_id (s : string) (max : N) : result unit :=
  let? _ := base_checks s max in
  let segments := split_on dot s in
  guard_err (4 <? len segments)%N MALFORMED_IDENTIFIER $
  guard_err (negb (forallb segment_ok segments)) MALFORMED_IDENTIFIER $
  guard_err (match from_segment (default "" (head segments)) with
             | None => true | Some _ => false end) MALFORMED_IDENTIFIER $
  Ok tt.

Record EntityId := mkEntityId { entity_str : string }.
Record Cid := mkCid { cid_str : string }.
Record Jti := mkJti { jti_str : string }.
Record HumanRef := mkHumanRef { human_str : string }.
Record ZoneId := mkZoneId { zone_str : string }.

#[global] Instance EntityId_eq_dec : EqDecision EntityId.
Proof. solve_decision. Defined.
#[global] Instance Cid_eq_dec : EqDecision Cid.
Proof. solve_decision. Defined.
#[global] Instance Jti_eq_dec : EqDecision Jti.
Proof. solve_decision. Defined.
#[global] Instance HumanRef_eq_dec : EqDecision HumanRef.
Proof. solve_decision. Defined.
#[global] Instance ZoneId_eq_dec : EqDecision ZoneId.
Proof. solve_decision. Defined.
#[global] Program Instance EntityId_countable : Countable EntityId :=
  inj_countable' entity_str mkEntityId _.
Next Obligation. by intros []. Qed.
#[global] Program Instance Cid_countable : Countable Cid := inj_countable' cid_str mkCid _.
Next Obligation. by intros []. Qed.

Definition EntityId_new (raw : string) : result EntityId :=
  let? _ := validate_entity_id raw 512 in Ok (mkEntityId raw).
Definition Cid_new (raw : string) : result Cid :=
  let? _ := validate_cid raw 64 in Ok (mkCid raw).
Definition Jti_new (raw : string) : result Jti :=
  let? _ := validate_jti raw 128 in Ok (mkJti raw).
Definition HumanRef_new (raw : string) : result HumanRef :=
  let? _ := validate_human_ref raw 256 in Ok (mkHumanRef raw).
Definition ZoneId_new (raw : string) : result ZoneId :=
  let? _ := validate_zone_id raw 128 in Ok (mkZoneId raw).

Definition ZoneId_valid (z : ZoneId) : Prop := ZoneId_new (zone_str z) = Ok z.

(** [ZoneId::trust_level]: the fallback is the most restrictive level. *)
Definition trust_level (z : ZoneId) : TrustLevel :=
  default Public (from_segment (default "" (head (split_on dot (zone_str z))))).

(** ** Kind, tier, posture, lifecycle *)

Inductive Kind := Agent | McpServer | A2aAgent.
#[global] Instance Kind_eq_dec : EqDecision Kind.
Proof. solve_decision. Defined.

Definition speaks_mcp (k : Kind) : bool := match k with McpServer => true | _ => false end.

Record Tier := mkTier { tier_u8 : N }.
#[global] Instance Tier_eq_dec : EqDecision Tier.
Proof. solve_decision. Defined.

Definition Tier_ONE : Tier := mkTier 1.
Definition Tier_TWO : Tier := mkTier 2.
Definition Tier_THREE : Tier := mkTier 3.
Definition Tier_FOUR : Tier := mkTier 4.

Definition Tier_new (raw : N) : result Tier :=
  if ((1 <=? raw) && (raw <=? 4))%N then Ok (mkTier raw) else Err TIER_EXCEEDS_CEILING.

Definition is_at_least_as_sensitive_as (a b : Tier) : bool := (tier_u8 a <=? tier_u8 b)%N.
Definition requires_human_approval (t : Tier) : bool := (tier_u8 t <=? 2)%N.
Definition requires_dual_control (t : Tier) : bool := (tier_u8 t =? 1)%N.
Definition reattest_interval_secs (t : Tier) : N :=
  if (tier_u8 t =? 1)%N then 3600
  else if (tier_u8 t =? 2)%N then 6 * 3600
  else if (tier_u8 t =? 3)%N then 24 * 3600
  else 7 * 24 * 3600.

Inductive Posture := Attested | Degraded | Unattested | Quarantined.
#[global] Instance Posture_eq_dec : EqDecision Posture.
Proof. solve_decision. Defined.

Definition may_connect (p : Posture) (mode : Mode) : bool :=
  match p with
  | Attested => true
  | Degraded | Unattested => match mode with Observe => true | Enforce => false end
  | Quarantined => false
  end.

Inductive Lifecycle := Pending | Active | Suspended | Retired.
#[global] Instance Lifecycle_eq_dec : EqDecision Lifecycle.
Proof. solve_decision. Defined.

Definition can_transition_to (from to : Lifecycle) : bool :=
  match from, to with
  | Pending, Active | Pending, Retired
  | Active, Suspended | Active, Retired
  | Suspended, Active | Suspended, Retired => true
  | _, _ => false
  end.

(** ** Pins *)

Record Pin := mkPin {
  pin_alg : string;
  pin_manifest : string;
  pin_items : gmap string string;
  pinned_at : N
}.
#[global] Instance Pin_eq_dec : EqDecision Pin.
Proof. solve_decision. Defined.

Definition PIN_ALG : string := "wcs1".

Definition Pin_empty (now : N) : Pin := mkPin PIN_ALG "" ∅ now.

Definition Pin_is_empty (p : Pin) : bool := bool_decide (pin_manifest p = "").

(** The separator bytes of the digested document. *)
Definition NUL : string := String "000"%char "".
Definition LF : string := String "010"%char "".

(** The bytes fed to the hasher for the (sorted) names, after the algorithm tag. *)
Definition digest_entry (name item : string) : string := name +:+ NUL +:+ item +:+ LF.

Fixpoint digest_entries (items : gmap string string) (names : list string) : result string :=
  match names with
  | [] => Ok ""
  | name :: names =>
    let? item := ok_or (items !! name) SURFACE_NOT_SUBSET in
    let? rest := digest_entries items names in
    Ok (digest_entry name item +:+ rest)
  end.

Definition Pin_surface_digest `{Sha256} (p : Pin) (names : list string) : result string :=
  let sorted := sort_dedup names in
  let? body := digest_entries (pin_items p) sorted in
  Ok (sha256_tagged (pin_alg p +:+ NUL +:+ body)).

Record PinDiff := mkPinDiff { diff_added : list string; diff_removed : list string;
                              diff_changed : list string }.
#[global] Instance PinDiff_eq_dec : EqDecision PinDiff.
Proof. solve_decision. Defined.

(** The keys of a [BTreeMap], in its iteration order. *)
Definition btree_keys {A} (m : gmap string A) : list string := sort_strings ((map_to_list m).*1).

Definition contains_key {A} (m : gmap string A) (k : string) : bool :=
  match m !! k with Some _ => true | None => false end.

Definition Pin_diff (self other : Pin) : PinDiff :=
  mkPinDiff
    (filterb (λ k, negb (contains_key (pin_items self) k)) (btree_keys (pin_items other)))
    (filterb (λ k, negb (contains_key (pin_items other) k)) (btree_keys (pin_items self)))
    (filterb (λ k, match pin_items self !! k, pin_items other !! k with
                   | Some v, Some o => negb (bool_decide (o = v))
                   | _, _ => false
                   end) (btree_keys (pin_items self))).

Definition PinDiff_is_empty (d : PinDiff) : bool :=
  bool_decide (diff_added d = []) && bool_decide (diff_removed d = [])
  && bool_decide (diff_changed d = []).

Record ProvRef := mkProvRef { prov_kind : string; prov_reference : string }.
#[global] Instance ProvRef_eq_dec : EqDecision ProvRef.
Proof. solve_decision. Defined.

(** ** Entities *)

Record Entity := mkEntity {
  ent_id : EntityId;
  ent_kind : Kind;
  ent_owner : HumanRef;
  ent_service : option string;
  ent_tier : Tier;
  ent_zone : ZoneId;
  ent_pin : Pin;
  ent_provenance : list ProvRef;
  ent_posture : Posture;
  ent_posture_score : N;
  ent_lifecycle : Lifecycle;
  ent_data_classes : list string;
  ent_jurisdictions : list string;
  ent_endpoint : option string;
  ent_reattest_every : N;
  ent_reattested_at : N;
  ent_created_at : N;
  ent_updated_at : N;
  ent_quarantined_at : N;
  ent_schema : N
}.
#[global] Instance Entity_eq_dec : EqDecision Entity.
Proof. solve_decision. Defined.

Definition ENTITY_SCHEMA : N := 1.

Definition Entity_pending (id : EntityId) (kind : Kind) (owner : HumanRef) (zone : ZoneId)
    (tier : Tier) (now : N) : Entity :=
  mkEntity id kind owner None tier zone (Pin_empty now) [] Unattested 0 Pending [] [] None
    (reattest_interval_secs tier) 0 now now 0 ENTITY_SCHEMA.

(** Field updates. *)
Definition set_state (e : Entity) (posture : Posture) (score : N) (lc : Lifecycle)
    (updated quarantined : N) : Entity :=
  mkEntity (ent_id e) (ent_kind e) (ent_owner e) (ent_service e) (ent_tier e) (ent_zone e)
    (ent_pin e) (ent_provenance e) posture score lc (ent_data_classes e)
    (ent_jurisdictions e) (ent_endpoint e) (ent_reattest_every e) (ent_reattested_at e)
    (ent_created_at e) updated quarantined (ent_schema e).

Definition set_pin (e : Entity) (pin : Pin) (updated : N) : Entity :=
  mkEntity (ent_id e) (ent_kind e) (ent_owner e) (ent_service e) (ent_tier e) (ent_zone e)
    pin (ent_provenance e) (ent_posture e) (ent_posture_score e) (ent_lifecycle e)
    (ent_data_classes e) (ent_jurisdictions e) (ent_endpoint e) (ent_reattest_every e)
    (ent_reattested_at e) (ent_created_at e) updated (ent_quarantined_at e) (ent_schema e).

Definition set_times (e : Entity) (created updated : N) : Entity :=
  mkEntity (ent_id e) (ent_kind e) (ent_owner e) (ent_service e) (ent_tier e) (ent_zone e)
    (ent_pin e) (ent_provenance e) (ent_posture e) (ent_posture_score e) (ent_lifecycle e)
    (ent_data_classes e) (ent_jurisdictions e) (ent_endpoint e) (ent_reattest_every e)
    (ent_reattested_at e) created updated (ent_quarantined_at e) (ent_schema e).

Definition Entity_assert_connectable (e : Entity) (mode : Mode) : result unit :=
  guard_err (bool_decide (ent_posture e = Quarantined)) ENTITY_QUARANTINED $
  guard_err (negb (bool_decide (ent_lifecycle e = Active))) ILLEGAL_TRANSITION $
  guard_err (negb (may_connect (ent_posture e) mode)) POSTURE_NOT_ATTESTED $
  Ok tt.

Definition Entity_transition_to (e : Entity) (to : Lifecycle) (now : N) : result Entity :=
  guard_err (bool_decide (ent_posture e = Quarantined)) ENTITY_QUARANTINED $
  guard_err (negb (can_transition_to (ent_lifecycle e) to)) ILLEGAL_TRANSITION $
  Ok (set_state e (ent_posture e) (ent_posture_score e) to now (ent_quarantined_at e)).

Definition Entity_quarantine (e : Entity) (now : N) : Entity :=
  set_state e Quarantined 0 Suspended now now.

Definition Entity_clear_quarantine (e : Entity) (now : N) : result (Entity * option N) :=
  guard_err (negb (bool_decide (ent_posture e = Quarantined))) ILLEGAL_TRANSITION $
  let held_for := if (0 <? ent_quarantined_at e)%N
                  then Some (saturating_sub now (ent_quarantined_at e)) else None in
  Ok (set_state e Unattested 0 Pending now 0, held_for).

Definition Entity_repin (e : Entity) (pin : Pin) (now : N) : result (Entity * PinDiff) :=
  guard_err (negb (bool_decide (pin_alg pin = PIN_ALG))) PIN_WRITE_FAILED $
  let diff := Pin_diff (ent_pin e) pin in
  Ok (set_pin e pin now, diff).

Definition reattest_overdue (e : Entity) (now : N) : bool :=
  (ent_reattest_every e <? saturating_sub now (ent_reattested_at e))%N.

(** ** Lemmas: the digested document is unambiguous *)

Lemma EntityId_new_ok raw i : EntityId_new raw = Ok i ↔ is_ok (EntityId_new raw) = true ∧ i = mkEntityId raw.
Proof. unfold EntityId_new. destruct (validate_entity_id raw 512); simpl; naive_solver. Qed.
Lemma EntityId_new_str raw i : EntityId_new raw = Ok i → raw = entity_str i.
Proof. by intros [_ ->]%EntityId_new_ok. Qed.

Lemma sep_inj {A} (c : A) a a' b b' :
  c ∉ a → c ∉ a' → a ++ c :: b = a' ++ c :: b' → a = a' ∧ b = b'.
Proof.
  revert a'. induction a as [|x a IH]; intros [|y a'] Ha Ha' H; simplify_eq/=.
  - done.
  - set_solver.
  - set_solver.
  - destruct (IH a') as [-> ->]; set_solver.
Qed.

Definition nul_byte : N := 0%N.
Definition lf_byte : N := 10%N.

Lemma bytes_digest_entry name item rest :
  bytes (digest_entry name item +:+ rest)
  = bytes name ++ nul_byte :: bytes item ++ lf_byte :: bytes rest.
Proof.
  unfold digest_entry. rewrite !bytes_app. simpl. rewrite <-!app_assoc. simpl.
  rewrite <-app_assoc. done.
Qed.

(** The entries a pin holds for some names, when it holds them all. *)
Definition entries_of (items : gmap string string) (names : list string) : option (list (string * string)) :=
  mapM (λ n, pair n <$> items !! n) names.

Lemma digest_entries_ok items names body :
  digest_entries items names = Ok body ↔
  ∃ es, entries_of items names = Some es ∧
        body = foldr (λ e acc, digest_entry e.1 e.2 +:+ acc) "" es.
Proof.
  unfold entries_of. revert body. induction names as [|n names IH]; intros body; simpl.
  { split; [intros [= <-]; eauto | by intros (es & [= <-] & ->)]. }
  destruct (items !! n) as [v|] eqn:Hn; simpl; [|split; [done|by intros (?&?&?)]].
  rewrite result_bind_ok. setoid_rewrite IH. split.
  - intros (rest & (es & Hes & ->) & [= <-]). rewrite Hes. simpl. eauto.
  - intros (es & Hes & ->). destruct (mapM _ names) as [es'|]; [|done].
    injection Hes as <-. eexists. split; [by eexists|done].
Qed.

Lemma entries_of_Some items names es :
  entries_of items names = Some es →
  es.*1 = names ∧ ∀ n v, (n, v) ∈ es → items !! n = Some v.
Proof.
  unfold entries_of. revert es. induction names as [|n names IH]; intros es; simpl.
  { intros [= <-]. set_solver. }
  destruct (items !! n) as [v|] eqn:Hn; simpl; [|done].
  destruct (mapM _ names) as [es'|] eqn:Hes; simpl; [|done]. intros [= <-].
  destruct (IH es' eq_refl) as [<- Hl]. split; [done|].
  intros m w [[= -> ->]|Hin]%elem_of_cons; [done|eauto].
Qed.

Definition entry_wf (e : string * string) : Prop :=
  nul_byte ∉ bytes e.1 ∧ lf_byte ∉ bytes e.2.

Lemma digest_body_inj es es' :
  Forall entry_wf es → Forall entry_wf es' →
  foldr (λ e acc, digest_entry e.1 e.2 +:+ acc) "" es
  = foldr (λ e acc, digest_entry e.1 e.2 +:+ acc) "" es' → es = es'.
Proof.
  intros H. revert es'. induction H as [|[n v] es [Hn Hv] Hes IH]; intros es' Hes' Heq.
  - destruct es' as [|[n v] es']; [done|]. apply (f_equal bytes) in Heq.
    cbn [foldr fst snd] in Heq. rewrite bytes_digest_entry in Heq. simpl in Heq.
    by destruct (bytes n).
  - destruct Hes' as [|[n' v'] es' [Hn' Hv'] Hes'].
    + apply (f_equal bytes) in Heq. cbn [foldr fst snd] in Heq.
      rewrite bytes_digest_entry in Heq. simpl in Heq. by destruct (bytes n).
    + apply (f_equal bytes) in Heq. cbn [foldr fst snd] in Heq.
      rewrite !bytes_digest_entry in Heq.
      apply sep_inj in Heq as [Heqn Heq]; [|done..].
      apply sep_inj in Heq as [Heqv Heq]; [|done..].
      apply bytes_inj in Heqn, Heqv, Heq. simpl in *. subst. f_equal. by apply IH.
Qed.

(** What the pins of this build satisfy: item names carry no control character
    ([item_name] of canon.rs refuses them) and an item's value is a hex digest. *)
Definition pin_wf (p : Pin) : Prop :=
  nul_byte ∉ bytes (pin_alg p) ∧
  ∀ k v, pin_items p !! k = Some v → entry_wf (k, v).

Lemma pin_wf_entries p names es :
  pin_wf p → entries_of (pin_items p) names = Some es → Forall entry_wf es.
Proof.
  intros [_ Hp] Hes. apply entries_of_Some in Hes as [_ Hes].
  apply Forall_forall. intros [n v] Hin. by apply Hp, Hes.
Qed.

Section Digest.
Context `{Sha256}.

(** Two distinct inputs with one digest. *)
Definition sha256_collision : Prop := ∃ x y, x ≠ y ∧ sha256_hex x = sha256_hex y.

Lemma surface_digest_ok p names d :
  Pin_surface_digest p names = Ok d ↔
  ∃ es, entries_of (pin_items p) (sort_dedup names) = Some es ∧
        d = sha256_tagged (pin_alg p +:+ NUL +:+
              foldr (λ e acc, digest_entry e.1 e.2 +:+ acc) "" es).
Proof.
  unfold Pin_surface_digest. rewrite result_bind_ok. setoid_rewrite digest_entries_ok.
  naive_solver.
Qed.

Lemma surface_digest_missing p names :
  (∃ n, n ∈ names ∧ pin_items p !! n = None) →
  Pin_surface_digest p names = Err SURFACE_NOT_SUBSET.
Proof.
  intros (n & Hn & Hnone). unfold Pin_surface_digest.
  rewrite <-(elem_of_sort_dedup n) in Hn. revert Hn.
  generalize (sort_dedup names). intros l Hn.
  enough (digest_entries (pin_items p) l = Err SURFACE_NOT_SUBSET) as -> by done.
  induction l as [|m l IH]; [set_solver|]. simpl.
  destruct (pin_items p !! m) eqn:Hm; simpl; [|done].
  rewrite IH; [done|]. apply elem_of_cons in Hn as [->|]; [congruence|done].
Qed.

Lemma entries_of_ext items items' names :
  (∀ n, n ∈ names → items !! n = items' !! n) → entries_of items names = entries_of items' names.
Proof.
  intros Hext. unfold entries_of. induction names as [|n names IH]; [done|]. simpl.
  rewrite Hext by set_solver. destruct (items' !! n); simpl; [|done].
  rewrite IH; [done|]. set_solver.
Qed.

Lemma surface_digest_ext p q names names' :
  pin_alg p = pin_alg q →
  (∀ n, n ∈ names ↔ n ∈ names') →
  (∀ n, n ∈ names → pin_items p !! n = pin_items q !! n) →
  Pin_surface_digest p names = Pin_surface_digest q names'.
Proof.
  intros Halg Hset Hitems. unfold Pin_surface_digest.
  rewrite (sort_dedup_ext names names') by done. rewrite Halg.
  assert (∀ l, (∀ n, n ∈ l → pin_items p !! n = pin_items q !! n) →
     digest_entries (pin_items p) l = digest_entries (pin_items q) l) as Hext.
  { induction l as [|n l IH]; intros Hl; [done|]. simpl. rewrite Hl by set_solver.
    destruct (pin_items q !! n); simpl; [|done]. rewrite IH; [done|]. set_solver. }
  rewrite Hext; [done|]. intros n Hn. apply Hitems.
  by apply Hset, (elem_of_sort_dedup n).
Qed.

Lemma surface_digest_agree p q names :
  pin_alg p = pin_alg q → (∀ n, n ∈ names → pin_items p !! n = pin_items q !! n) →
  Pin_surface_digest p names = Pin_surface_digest q names.
Proof. intros. by apply surface_digest_ext. Qed.

Lemma surface_digest_determines p q names names' d :
  pin_wf p → pin_wf q →
  Pin_surface_digest p names = Ok d → Pin_surface_digest q names' = Ok d →
  (pin_alg p = pin_alg q ∧ (∀ n, n ∈ names ↔ n ∈ names') ∧
   ∀ n, n ∈ names → ∃ h, pin_items p !! n = Some h ∧ pin_items q !! n = Some h)
  ∨ sha256_collision.
Proof.
  intros Hp Hq (es & Hes & ->)%surface_digest_ok (es' & Hes' & Hd)%surface_digest_ok.
  unfold sha256_tagged in Hd. apply (inj _) in Hd.
  set (i := pin_alg p +:+ _) in Hd. set (i' := pin_alg q +:+ _) in Hd.
  destruct (decide (i = i')) as [Hi|Hi]; [left|right; by exists i, i'].
  subst i i'. apply (f_equal bytes) in Hi. rewrite !bytes_app in Hi. simpl in Hi.
  apply sep_inj in Hi as [Ha Hb]; [|apply Hp|apply Hq].
  apply bytes_inj in Ha, Hb.
  assert (es = es') as <-.
  { apply digest_body_inj; [exact (pin_wf_entries _ _ _ Hp Hes)
                             |exact (pin_wf_entries _ _ _ Hq Hes')|done]. }
  apply entries_of_Some in Hes as [Hns Hes], Hes' as [Hns' Hes'].
  split; [done|]. split.
  - intros n. rewrite <-(elem_of_sort_dedup n names), <-(elem_of_sort_dedup n names').
    by rewrite <-Hns, <-Hns'.
  - intros n Hn. rewrite <-(elem_of_sort_dedup n), <-Hns in Hn.
    apply list_elem_of_fmap in Hn as ([m h] & -> & Hin). eauto.
Qed.

(** ** Properties *)

(** The digest a contract pins depends only on the *set* of contracted names and on
    the hashes of those names: neither the order in which the names are listed, nor a
    repetition, nor any item of the declared surface outside the contract can move it. *)
Theorem surface_digest_scope p q names names' :
  pin_alg p = pin_alg q →
  (∀ n, n ∈ names ↔ n ∈ names') →
  (∀ n, n ∈ names → pin_items p !! n = pin_items q !! n) →
  Pin_surface_digest p names = Pin_surface_digest q names'.
Proof. apply surface_digest_ext. Qed.

(** Check 8 binds: when two well-formed pins give the same digest, they were asked
    for the same set of names and agree on the hash of every one of them -- or two
    distinct byte strings with one SHA-256 digest exist.  So no change inside a
    contracted surface can keep the contracted digest. *)
Theorem surface_digest_binding p q names names' d :
  pin_wf p → pin_wf q →
  Pin_surface_digest p names = Ok d → Pin_surface_digest q names' = Ok d →
  (pin_alg p = pin_alg q ∧ (∀ n, n ∈ names ↔ n ∈ names') ∧
   ∀ n, n ∈ names → ∃ h, pin_items p !! n = Some h ∧ pin_items q !! n = Some h)
  ∨ sha256_collision.
Proof. apply surface_digest_determines. Qed.
End Digest.

(** ** Pin differences *)

Lemma elem_of_btree_keys {A} (m : gmap string A) k : k ∈ btree_keys m ↔ is_Some (m !! k).
Proof.
  unfold btree_keys. rewrite elem_of_sort_strings, list_elem_of_fmap. split.
  - intros ([k' v] & -> & Hin%elem_of_map_to_list). by eexists.
  - intros [v Hv]. exists (k, v). split; [done|]. by apply elem_of_map_to_list.
Qed.

(** The diff of two pins is exact -- an item is reported added, removed or changed
    precisely when it is -- and it is empty only when the two item maps are equal, so
    drift classification never overlooks a moved item. *)
Theorem pin_diff_exact p q :
  (∀ k, k ∈ diff_added (Pin_diff p q) ↔ pin_items p !! k = None ∧ is_Some (pin_items q !! k)) ∧
  (∀ k, k ∈ diff_removed (Pin_diff p q) ↔ is_Some (pin_items p !! k) ∧ pin_items q !! k = None) ∧
  (∀ k, k ∈ diff_changed (Pin_diff p q) ↔
        ∃ v w, pin_items p !! k = Some v ∧ pin_items q !! k = Some w ∧ v ≠ w) ∧
  (PinDiff_is_empty (Pin_diff p q) = true ↔ pin_items p = pin_items q).
Proof.
  assert (∀ k, k ∈ diff_added (Pin_diff p q) ↔
    pin_items p !! k = None ∧ is_Some (pin_items q !! k)) as Ha.
  { intros k. simpl. rewrite elem_of_filterb, elem_of_btree_keys. unfold contains_key.
    destruct (pin_items p !! k); naive_solver. }
  assert (∀ k, k ∈ diff_removed (Pin_diff p q) ↔
    is_Some (pin_items p !! k) ∧ pin_items q !! k = None) as Hr.
  { intros k. simpl. rewrite elem_of_filterb, elem_of_btree_keys. unfold contains_key.
    destruct (pin_items q !! k); naive_solver. }
  assert (∀ k, k ∈ diff_changed (Pin_diff p q) ↔
    ∃ v w, pin_items p !! k = Some v ∧ pin_items q !! k = Some w ∧ v ≠ w) as Hc.
  { intros k. simpl. rewrite elem_of_filterb, elem_of_btree_keys.
    destruct (pin_items p !! k), (pin_items q !! k); rewrite ?negb_true_iff,
      ?bool_decide_eq_false; naive_solver. }
  split; [done|]. split; [done|]. split; [done|]. unfold PinDiff_is_empty. split.
  - rewrite !andb_true_iff, !bool_decide_eq_true. intros [[Ea Er] Ec].
    apply map_eq. intros k.
    pose proof (not_elem_of_nil k) as Hna. rewrite <-Ea in Hna.
    pose proof (not_elem_of_nil k) as Hnr. rewrite <-Er in Hnr.
    pose proof (not_elem_of_nil k) as Hnc. rewrite <-Ec in Hnc.
    rewrite Ha in Hna. rewrite Hr in Hnr. rewrite Hc in Hnc.
    destruct (pin_items p !! k) as [v|], (pin_items q !! k) as [w|]; [|naive_solver..].
    destruct (decide (v = w)); naive_solver.
  - intros Heq. rewrite !andb_true_iff, !bool_decide_eq_true.
    split; [split|]; apply elem_of_nil_inv; intros k.
    + rewrite Ha, Heq. intros [??]. destruct (pin_items q !! k); naive_solver.
    + rewrite Hr, Heq. intros [??]. destruct (pin_items q !! k); naive_solver.
    + rewrite Hc, Heq. naive_solver.
Qed.

(** ** The digest theorems at a concrete pin *)

Module DigestExamples.
Import TestSha.

Definition pin_a : Pin := mkPin PIN_ALG "sha256:m" (<["read":="sha256:aa"]> (<["write":="sha256:bb"]> ∅)) 1.
(** The same pin after [write] drifted, recorded later. *)
Definition pin_b : Pin := mkPin PIN_ALG "sha256:n" (<["read":="sha256:aa"]> (<["write":="sha256:cc"]> ∅)) 9.

Lemma example_pins_wf p : p = pin_a ∨ p = pin_b → pin_wf p.
Proof.
  intros Hp. split; [destruct Hp as [->| ->]; decide_now|]. intros k v Hk.
  assert (v ∈ (map_to_list (pin_items p)).*2 ∧ k ∈ (map_to_list (pin_items p)).*1) as [Hv Hk'].
  { split; apply list_elem_of_fmap; exists (k, v); by rewrite elem_of_map_to_list. }
  destruct Hp as [->| ->]; revert k v Hk Hv Hk'; 
    match goal with |- ∀ k v, _ → v ∈ ?l → k ∈ ?m → _ =>
      let l' := eval vm_compute in l in let m' := eval vm_compute in m in
      change l with l'; change m with m' end;
    intros k v _ Hv Hk; repeat (apply elem_of_cons in Hv as [->|Hv]); try by apply not_elem_of_nil in Hv.
  all: repeat (apply elem_of_cons in Hk as [->|Hk]); try by apply not_elem_of_nil in Hk.
  all: split; decide_now.
Qed.

Lemma surface_digest_scope_witness :
  Pin_surface_digest pin_a ["read"; "read"] = Pin_surface_digest pin_b ["read"].
Proof.
  apply (surface_digest_scope pin_a pin_b); [reflexivity| |].
  - intros n. rewrite !elem_of_cons, elem_of_nil. tauto.
  - intros n [->|[->|[]%not_elem_of_nil]%elem_of_cons]%elem_of_cons; vm_compute; reflexivity.
Defined.

Lemma surface_digest_binding_witness :
  (∃ d, Pin_surface_digest pin_a ["read"] = Ok d ∧ Pin_surface_digest pin_b ["read"] = Ok d) ∧
  ((pin_alg pin_a = pin_alg pin_b ∧ (∀ n, n ∈ ["read"] ↔ n ∈ ["read"]) ∧
    ∀ n, n ∈ ["read"] → ∃ h, pin_items pin_a !! n = Some h ∧ pin_items pin_b !! n = Some h)
   ∨ sha256_collision).
Proof.
  split; [eexists; split; vm_compute; reflexivity|].
  eapply (surface_digest_binding pin_a pin_b);
    [apply example_pins_wf; by left|apply example_pins_wf; by right|vm_compute; reflexivity|vm_compute; reflexivity].
Defined.
End DigestExamples.

(** ** Lifecycle *)

(** [Retired] is documented as never returning, and the transition table does make it
    terminal; but containment does not consult the table, so a retired party that is
    quarantined and cleared is [Pending] again and may be activated. *)
Theorem retired_returns e now now' :
  ent_lifecycle e = Retired → ent_posture e ≠ Quarantined →
  (∀ to, Entity_transition_to e to now = Err ILLEGAL_TRANSITION) ∧
  ∃ e' held e'', Entity_clear_quarantine (Entity_quarantine e now) now' = Ok (e', held) ∧
    ent_lifecycle e' = Pending ∧
    Entity_transition_to e' Active now' = Ok e'' ∧ ent_lifecycle e'' = Active.
Proof.
  intros Hl Hq. split.
  - intros to. unfold Entity_transition_to. rewrite bool_decide_eq_false_2, Hl by done. by destruct to.
  - do 3 eexists. split; [reflexivity|]. split; [reflexivity|]. split; reflexivity.
Qed.

Lemma retired_returns_witness :
  let e := set_state (Entity_pending (mkEntityId "a") Agent (mkHumanRef "pat") (mkZoneId "internal")
                        Tier_TWO 1) Attested 90 Retired 5 0 in
  Entity_transition_to e Pending 7 = Err ILLEGAL_TRANSITION.
Proof.
  intros e. apply (proj1 (retired_returns e 7 9 eq_refl ltac:(discriminate))).
Defined.
