(* ===== verification/Zone.v ===== *)
(** * Zone: the zone lattice ([crates/wc-core/src/zone.rs])

    Containment along the dots of a zone id, outwardness across the three trust
    levels, the classification of a caller/callee pair as a crossing, and the declared
    lattice that permits or refuses it.  The [reason] of a decision and the text of a
    lint finding are prose in the source; here they are constructors. *)

From S2P Require Import Prelude Text Errors Model.

(** ** Ordering *)

Definition outwardness (level : TrustLevel) : N :=
  match level with Internal => 0 | Partner => 1 | Public => 2 end.

(** One iteration of the loop of [ancestors]: extend the path by a segment and keep
    it when it is itself a zone id. *)
Definition ancestors_step (st : list ZoneId * string) (segment : string) : list ZoneId * string :=
  let '(out, path) := st in
  let path := (if bool_decide (path = "") then path else path +:+ ".") +:+ segment in
  match ZoneId_new path with
  | Ok id => (out ++ [id], path)
  | Err _ => (out, path)
  end.

Definition ancestors (zone : ZoneId) : list ZoneId :=
  (fold_left ancestors_step (split_on dot (zone_str zone)) ([], "")).1.

Definition contains (outer inner : ZoneId) : bool :=
  let o := zone_str outer in
  let i := zone_str inner in
  bool_decide (i = o)
  || (starts_with o i && bool_decide (String.get (String.length o) i = Some dot)).

Fixpoint meet_loop (best : option ZoneId) (av bv : list ZoneId) : option ZoneId :=
  match av, bv with
  | x :: av, y :: bv => if bool_decide (x = y) then meet_loop (Some x) av bv else best
  | _, _ => best
  end.

Definition meet (a b : ZoneId) : option ZoneId := meet_loop None (ancestors a) (ancestors b).

(** ** Crossings *)

Inductive Crossing := CSame | CDescend | CAscend | CLateral | CEgress | CIngress | CPublic.
#[global] Instance Crossing_eq_dec : EqDecision Crossing.
Proof. solve_decision. Defined.

Definition is_internal_to_level (c : Crossing) : bool :=
  match c with CSame | CDescend | CAscend | CLateral => true | _ => false end.

Definition Crossing_as_str (c : Crossing) : string :=
  match c with
  | CSame => "same" | CDescend => "descend" | CAscend => "ascend" | CLateral => "lateral"
  | CEgress => "egress" | CIngress => "ingress" | CPublic => "public"
  end.

Definition Crossing_parse (name : string) : result Crossing :=
  if bool_decide (name = "same") then Ok CSame
  else if bool_decide (name = "descend") then Ok CDescend
  else if bool_decide (name = "ascend") then Ok CAscend
  else if bool_decide (name = "lateral") then Ok CLateral
  else if bool_decide (name = "egress") then Ok CEgress
  else if bool_decide (name = "ingress") then Ok CIngress
  else if bool_decide (name = "public") then Ok CPublic
  else Err CONFIG_INVALID.

Definition classify (caller callee : ZoneId) : Crossing :=
  let ct := trust_level caller in
  let et := trust_level callee in
  if bool_decide (ct = Public) || bool_decide (et = Public) then CPublic
  else match N.compare (outwardness ct) (outwardness et) with
  | Lt => CEgress
  | Gt => CIngress
  | Eq =>
    if bool_decide (caller = callee) then CSame
    else if contains caller callee then CDescend
    else if contains callee caller then CAscend
    else CLateral
  end.

(** ** The lattice *)

Record CrossingRule := mkCrossingRule {
  rule_crossing : Crossing;
  rule_from : option ZoneId;
  rule_to : option ZoneId
}.
#[global] Instance CrossingRule_eq_dec : EqDecision CrossingRule.
Proof. solve_decision. Defined.

Definition CrossingRule_any (c : Crossing) : CrossingRule := mkCrossingRule c None None.
Definition CrossingRule_between (c : Crossing) (from to : ZoneId) : CrossingRule :=
  mkCrossingRule c (Some from) (Some to).

(** [Option::is_none_or]. *)
Definition is_none_or {A} (o : option A) (p : A → bool) : bool :=
  match o with None => true | Some a => p a end.

Definition covers (r : CrossingRule) (crossing : Crossing) (caller callee : ZoneId) : bool :=
  if negb (bool_decide (rule_crossing r = crossing)) then false
  else is_none_or (rule_from r) (λ z, contains z caller)
       && is_none_or (rule_to r) (λ z, contains z callee).

Inductive ZoneReason :=
| CallerNotDeclared | CalleeNotDeclared
| WithinLevel (level : TrustLevel)
| PermittedByRule (r : CrossingRule)
| NeedsExplicitRule.

Record ZoneDecision := mkZoneDecision {
  zd_permitted : bool;
  zd_crossing : Crossing;
  zd_meet : option ZoneId;
  zd_reason : ZoneReason
}.

Record ZoneLattice := mkZoneLattice {
  zl_declared : gmap string TrustLevel;
  zl_rules : list CrossingRule;
  zl_strict_membership : bool
}.

Definition ZoneLattice_new : ZoneLattice := mkZoneLattice ∅ [] false.

Definition declare (l : ZoneLattice) (zone : ZoneId) (trust : TrustLevel) : result ZoneLattice :=
  guard_err (negb (bool_decide (trust_level zone = trust))) CONFIG_INVALID $
  Ok (mkZoneLattice (<[zone_str zone := trust]> (zl_declared l)) (zl_rules l)
        (zl_strict_membership l)).

Definition permit (l : ZoneLattice) (rule : CrossingRule) : ZoneLattice :=
  mkZoneLattice (zl_declared l) (zl_rules l ++ [rule]) (zl_strict_membership l).

Definition set_strict_membership (l : ZoneLattice) (strict : bool) : ZoneLattice :=
  mkZoneLattice (zl_declared l) (zl_rules l) strict.

Definition is_declared (l : ZoneLattice) (zone : ZoneId) : bool :=
  existsb (λ a, contains_key (zl_declared l) (zone_str a)) (ancestors zone).

Definition zones (l : ZoneLattice) : list string := btree_keys (zl_declared l).

Definition resolve (l : ZoneLattice) (caller callee : ZoneId) : ZoneDecision :=
  let crossing := classify caller callee in
  let m := meet caller callee in
  if zl_strict_membership l && negb (is_declared l caller)
  then mkZoneDecision false crossing m CallerNotDeclared
  else if zl_strict_membership l && negb (is_declared l callee)
  then mkZoneDecision false crossing m CalleeNotDeclared
  else if is_internal_to_level crossing
  then mkZoneDecision true crossing m (WithinLevel (trust_level caller))
  else match find (λ r, covers r crossing caller callee) (zl_rules l) with
  | Some rule => mkZoneDecision true crossing m (PermittedByRule rule)
  | None => mkZoneDecision false crossing m NeedsExplicitRule
  end.

Inductive LintFinding :=
| NeverMatches (r : CrossingRule) (actual : Crossing)
| DuplicateRule (c : Crossing)
| BlanketPublic.

Definition lint_never_matches (r : CrossingRule) : list LintFinding :=
  match rule_from r, rule_to r with
  | Some from, Some to =>
    let actual := classify from to in
    if bool_decide (actual = rule_crossing r) then [] else [NeverMatches r actual]
  | _, _ => []
  end.

Fixpoint lint_duplicates (seen rules : list CrossingRule) : list LintFinding :=
  match rules with
  | [] => []
  | r :: rules =>
    (if bool_decide (r ∈ seen) then [DuplicateRule (rule_crossing r)] else [])
    ++ lint_duplicates (r :: seen) rules
  end.

Definition lint (l : ZoneLattice) : list LintFinding :=
  flat_map lint_never_matches (zl_rules l)
  ++ lint_duplicates [] (zl_rules l)
  ++ (if existsb (λ r, bool_decide (rule_crossing r = CPublic)
                       && bool_decide (rule_from r = None)
                       && bool_decide (rule_to r = None)) (zl_rules l)
      then [BlanketPublic] else []).

Definition ZoneLattice_permits (l : ZoneLattice) (caller callee : ZoneId) : bool :=
  zd_permitted (resolve l caller callee).

(** ** Zone ids as paths of segments *)

Definition segs (z : ZoneId) : list string := split_on dot (zone_str z).
Definition path_of (l : list string) : string := join "." l.

Lemma path_of_segs z : path_of (segs z) = zone_str z.
Proof. apply split_on_join. Qed.

Lemma segs_inj z z' : segs z = segs z' → z = z'.
Proof.
  intros H. destruct z as [s], z' as [s']. f_equal.
  rewrite <-(split_on_join dot s), <-(split_on_join dot s'). by f_equal.
Qed.

Lemma split_on_app_sep c a b : split_on c (a +:+ String c b) = split_on c a ++ split_on c b.
Proof.
  induction a as [|x a IH].
  - change ("" +:+ String c b) with (String c b). simpl. by rewrite bool_decide_eq_true_2.
  - change (String x a +:+ String c b) with (String x (a +:+ String c b)). simpl.
    rewrite IH. pose proof (split_on_nonempty c a).
    case_bool_decide; [done|]. by destruct (split_on c a).
Qed.

Lemma path_of_app l k : l ≠ [] → k ≠ [] → path_of (l ++ k) = path_of l +:+ "." +:+ path_of k.
Proof.
  intros Hl Hk. unfold path_of, join. induction l as [|w l IH]; [done|].
  destruct l as [|w' l'].
  - destruct k; [done|]. done.
  - change (String.concat "." ((w :: w' :: l') ++ k))
      with (w +:+ "." +:+ String.concat "." ((w' :: l') ++ k)).
    rewrite IH by done.
    change (String.concat "." (w :: w' :: l')) with (w +:+ "." +:+ String.concat "." (w' :: l')).
    by rewrite !string_app_assoc.
Qed.

Lemma path_of_snoc l s : l ≠ [] → path_of (l ++ [s]) = path_of l +:+ "." +:+ s.
Proof. intros Hl. by rewrite path_of_app. Qed.

(** A segment of a valid id: non-empty, and every byte a lowercase letter, digit or
    hyphen. *)
Lemma is_segment_char_ascii c : is_segment_char c = true → (c < 128)%N.
Proof.
  unfold is_segment_char, is_ascii_lowercase, is_ascii_digit. intros H.
  destruct (c <? 128)%N eqn:E; bool_facts; [done|].
  rewrite !orb_true_iff, !andb_true_iff, !N.leb_le, N.eqb_eq in H. lia.
Qed.

Lemma segment_ok_bytes s :
  segment_ok s = true ↔ s ≠ "" ∧ Forall (λ b, is_segment_char b = true) (bytes s).
Proof.
  unfold segment_ok. rewrite andb_true_iff, negb_true_iff, bool_decide_eq_false.
  rewrite chars_forallb by apply is_segment_char_ascii.
  by rewrite forallb_True, Forall_forall.
Qed.

Lemma segment_ok_no_dot s : segment_ok s = true → no_byte dot s.
Proof.
  intros [_ H]%segment_ok_bytes Hin. rewrite Forall_forall in H. apply H in Hin. done.
Qed.

Lemma path_of_bytes l b : b ∈ bytes (path_of l) → (∃ s, s ∈ l ∧ b ∈ bytes s) ∨ b = 46%N.
Proof.
  unfold path_of, join. induction l as [|w l IH]; simpl; [set_solver|].
  destruct l as [|w' l']; [set_solver|].
  rewrite !bytes_app, !elem_of_app. intros [?|[?|?]]; [set_solver|simpl in *; set_solver|].
  destruct IH as [(s&?&?)|?]; [done|left; exists s; set_solver|by right].
Qed.

(** The structural content of [validate_zone_id]: the character check of
    [base_checks] is implied by the per-segment one. *)
Record zone_path (l : list string) : Prop := {
  zp_nonempty : l ≠ [];
  zp_depth : (len l ≤ 4)%N;
  zp_segments : Forall (λ s, segment_ok s = true) l;
  zp_level : is_Some (from_segment (default "" (head l)))
}.

Lemma zone_path_no_dot l : zone_path l → Forall (no_byte dot) l.
Proof. intros [_ _ H _]. eapply Forall_impl; [exact H|]. intros s. apply segment_ok_no_dot. Qed.

Lemma zone_path_segs l : zone_path l → split_on dot (path_of l) = l.
Proof. intros H. apply split_join; [apply H|by apply zone_path_no_dot]. Qed.

Lemma zone_path_chars l c :
  Forall (λ s, segment_ok s = true) l → c ∈ chars (path_of l) →
  is_control c || is_whitespace c = false.
Proof.
  intros Hl. assert (∀ b, b ∈ bytes (path_of l) → is_segment_char b = true ∨ b = 46%N) as Hb.
  { intros b [(s & Hs & Hb)| ->]%path_of_bytes; [left|by right].
    rewrite Forall_forall in Hl. apply Hl, segment_ok_bytes in Hs as [_ Hs].
    rewrite Forall_forall in Hs. auto. }
  rewrite chars_ascii_bytes.
  2:{ apply Forall_forall. intros b [Hc| ->]%Hb; [by apply is_segment_char_ascii|lia]. }
  intros [Hc| ->]%Hb; [|done].
  apply not_true_iff_false. intros Hbad.
  unfold is_control, is_whitespace, is_segment_char, is_ascii_lowercase, is_ascii_digit in *.
  rewrite !orb_true_iff, !andb_true_iff, !N.leb_le, ?N.ltb_lt, ?N.eqb_eq in *. lia.
Qed.

Lemma path_of_ne l : zone_path l → path_of l ≠ "".
Proof.
  intros Hl He. pose proof (zone_path_segs l Hl) as Hs. rewrite He in Hs. simpl in Hs.
  pose proof (zp_segments _ Hl) as H. rewrite <-Hs in H. by apply Forall_cons in H as [? _].
Qed.

Lemma ZoneId_new_ok s z :
  ZoneId_new s = Ok z ↔ z = mkZoneId s ∧ (str_len s ≤ 128)%N ∧ zone_path (split_on dot s).
Proof.
  unfold ZoneId_new, validate_zone_id, base_checks.
  rewrite !result_bind_ok. split.
  - intros ([] & (u & H & H')%result_bind_ok & [= <-]).
    rewrite !guard_err_ok in H. rewrite !guard_err_ok in H'.
    destruct H as (Hne & Hlen & _ & _), H' as (Hd & Hseg & Hlv & _).
    bool_facts. split; [done|]. split; [done|]. split.
    + apply split_on_nonempty.
    + lia.
    + by apply Forall_forall, forallb_True.
    + destruct (from_segment _); [by eexists|done].
  - intros (-> & Hlen & Hp). exists (). split; [|done].
    pose proof (zp_depth _ Hp). pose proof (zp_level _ Hp) as [lv Hlv].
    apply result_bind_ok. exists (). rewrite !guard_err_ok. split.
    + split; [|split; [apply N.ltb_ge; lia|split; [|done]]].
      * apply bool_decide_eq_false. intros ->. by apply (path_of_ne _ Hp).
      * apply existsb_False. intros c Hc. apply (zone_path_chars (split_on dot s)).
        -- apply Hp.
        -- unfold path_of. by rewrite split_on_join.
    + split; [apply N.ltb_ge; lia|]. split; [|split; [by rewrite Hlv|done]].
      apply negb_false_iff, forallb_True, Forall_forall, Hp.
Qed.

Lemma ZoneId_valid_iff z :
  ZoneId_valid z ↔ (str_len (zone_str z) ≤ 128)%N ∧ zone_path (segs z).
Proof.
  unfold ZoneId_valid. rewrite ZoneId_new_ok. destruct z as [s]. simpl. naive_solver.
Qed.

(** ** Every prefix of a zone id is a zone id *)

Lemma zone_path_prefix l k : zone_path (l ++ k) → l ≠ [] → zone_path l.
Proof.
  intros [_ Hd Hs Hl] Hne. split; [done| | |].
  - unfold len in *. rewrite length_app in Hd. lia.
  - by apply Forall_app in Hs as [? _].
  - destruct l; [done|]. exact Hl.
Qed.

Lemma path_of_prefix_len l k :
  l ≠ [] → (str_len (path_of l) ≤ str_len (path_of (l ++ k)))%N.
Proof.
  intros Hl. destruct k as [|w k]; [by rewrite app_nil_r|].
  unfold str_len. rewrite path_of_app by done. rewrite string_length_app. lia.
Qed.

Lemma prefix_valid l k :
  zone_path (l ++ k) → (str_len (path_of (l ++ k)) ≤ 128)%N → l ≠ [] →
  ZoneId_new (path_of l) = Ok (mkZoneId (path_of l)).
Proof.
  intros Hp Hlen Hne. apply ZoneId_new_ok. split; [done|]. split.
  - etrans; [by apply path_of_prefix_len|done].
  - rewrite zone_path_segs; by eapply zone_path_prefix.
Qed.

(** The chain of ancestors spelled out on segments. *)
Fixpoint anc_from (pre l : list string) : list ZoneId :=
  match l with
  | [] => []
  | s :: l => mkZoneId (path_of (pre ++ [s])) :: anc_from (pre ++ [s]) l
  end.

Lemma ancestors_loop pre l out :
  zone_path (pre ++ l) → (str_len (path_of (pre ++ l)) ≤ 128)%N →
  fold_left ancestors_step l (out, path_of pre)
  = (out ++ anc_from pre l, path_of (pre ++ l)).
Proof.
  revert pre out. induction l as [|s l IH]; intros pre out Hp Hlen.
  { simpl. by rewrite !app_nil_r. }
  assert (pre ++ s :: l = (pre ++ [s]) ++ l) as Heq by by rewrite <-app_assoc.
  rewrite Heq in Hp, Hlen. cbn [fold_left]. unfold ancestors_step at 2.
  assert ((if bool_decide (path_of pre = "") then path_of pre else path_of pre +:+ ".") +:+ s
          = path_of (pre ++ [s])) as ->.
  { destruct pre as [|w pre]; [done|]. rewrite path_of_snoc by done.
    rewrite bool_decide_eq_false_2; [by rewrite string_app_assoc|].
    apply path_of_ne. apply (zone_path_prefix _ [s]); [|done].
    by eapply (zone_path_prefix _ l); [|by destruct pre]. }
  rewrite (prefix_valid _ l) by (done || by destruct pre).
  rewrite IH by done. cbn [anc_from]. by rewrite <-!app_assoc.
Qed.

Lemma ancestors_anc_from z : ZoneId_valid z → ancestors z = anc_from [] (segs z).
Proof.
  intros [Hlen Hp]%ZoneId_valid_iff. unfold ancestors. fold (segs z).
  change "" with (path_of []). rewrite ancestors_loop; [done|done|].
  by rewrite app_nil_l, path_of_segs.
Qed.

Lemma length_anc_from pre l : length (anc_from pre l) = length l.
Proof. revert pre. induction l as [|s l IH]; intros pre; simpl; congruence. Qed.

Lemma elem_of_anc_from z pre l :
  z ∈ anc_from pre l ↔ ∃ a b, a ≠ [] ∧ l = a ++ b ∧ z = mkZoneId (path_of (pre ++ a)).
Proof.
  revert pre. induction l as [|s l IH]; intros pre; simpl.
  { split; [set_solver|]. intros (a & b & Ha & Hab & _). by destruct a. }
  rewrite elem_of_cons, IH. split.
  - intros [->|(a & b & Ha & -> & ->)].
    + by exists [s], l.
    + exists (s :: a), b. rewrite <-app_assoc. done.
  - intros (a & b & Ha & Hab & ->). destruct a as [|s' a]; [done|]. simplify_eq/=.
    destruct a as [|s a]; [by left|right]. exists (s :: a), b. rewrite <-app_assoc. done.
Qed.

(** ** Containment is the prefix order on segments *)

Lemma get_app_length o i r : i = o +:+ r → String.get (String.length o) i = String.get 0 r.
Proof.
  intros ->. induction o as [|c o IH].
  - by change ("" +:+ r) with r.
  - change (String c o +:+ r) with (String c (o +:+ r)). simpl. done.
Qed.

Lemma contains_string o i :
  contains o i = true ↔ zone_str i = zone_str o ∨ ∃ r, zone_str i = zone_str o +:+ String dot r.
Proof.
  unfold contains. rewrite orb_true_iff, andb_true_iff, !bool_decide_eq_true, starts_with_spec.
  split.
  - intros [?|[[r Hr] Hg]]; [by left|right]. rewrite (get_app_length _ _ _ Hr) in Hg.
    destruct r as [|c r]; simplify_eq/=. by exists r.
  - intros [?|[r Hr]]; [by left|right]. split; [by eexists|].
    by rewrite (get_app_length _ _ _ Hr).
Qed.

Lemma contains_prefix o i : contains o i = true ↔ segs o `prefix_of` segs i.
Proof.
  rewrite contains_string. split.
  - intros [H|[r Hr]].
    + exists []. unfold segs. by rewrite H, app_nil_r.
    + exists (split_on dot r). unfold segs. by rewrite Hr, split_on_app_sep.
  - intros [k Hk]. rewrite <-(path_of_segs i), <-(path_of_segs o), Hk.
    destruct k as [|w k]; [left; by rewrite app_nil_r|right].
    exists (path_of (w :: k)). by rewrite path_of_app; [|apply split_on_nonempty|].
Qed.

Lemma contains_refl z : contains z z = true.
Proof. by apply contains_prefix. Qed.

Lemma contains_antisym a b : contains a b = true → contains b a = true → a = b.
Proof. rewrite !contains_prefix. intros ??. by apply segs_inj, (anti_symm prefix). Qed.

Lemma contains_trans a b c : contains a b = true → contains b c = true → contains a c = true.
Proof. rewrite !contains_prefix. intros ??. by trans (segs b). Qed.

Lemma contains_trust_level o i :
  contains o i = true → trust_level o = trust_level i.
Proof.
  rewrite contains_prefix. intros [k Hk]. unfold trust_level. fold (segs o) (segs i).
  rewrite Hk. pose proof (split_on_nonempty dot (zone_str o)) as Hne. fold (segs o) in Hne.
  by destruct (segs o).
Qed.

(** ** The meet is the longest common prefix *)

Fixpoint lcp (a b : list string) : list string :=
  match a, b with
  | x :: a, y :: b => if bool_decide (x = y) then x :: lcp a b else []
  | _, _ => []
  end.

Lemma lcp_prefix_l a b : lcp a b `prefix_of` a.
Proof.
  revert b. induction a as [|x a IH]; intros [|y b]; simpl; try apply prefix_nil.
  case_bool_decide; [|apply prefix_nil]. apply prefix_cons, IH.
Qed.

Lemma lcp_prefix_r a b : lcp a b `prefix_of` b.
Proof.
  revert b. induction a as [|x a IH]; intros [|y b]; simpl; try apply prefix_nil.
  case_bool_decide; [|apply prefix_nil]. subst. apply prefix_cons, IH.
Qed.

Lemma lcp_greatest l a b : l `prefix_of` a → l `prefix_of` b → l `prefix_of` lcp a b.
Proof.
  revert a b. induction l as [|x l IH]; intros a b [k ->] [k' ->]; simpl; [apply prefix_nil|].
  rewrite bool_decide_eq_true_2 by done. apply prefix_cons, IH; by eexists.
Qed.

Lemma meet_loop_lcp best pre a b :
  Forall (no_byte dot) (pre ++ a) → Forall (no_byte dot) (pre ++ b) →
  meet_loop best (anc_from pre a) (anc_from pre b)
  = if bool_decide (lcp a b = []) then best else Some (mkZoneId (path_of (pre ++ lcp a b))).
Proof.
  revert best pre b. induction a as [|x a IH]; intros best pre b Ha Hb.
  { by destruct b. }
  destruct b as [|y b]; [done|]. cbn [anc_from meet_loop].
  assert (Forall (no_byte dot) (pre ++ [x])) as Hx
    by (rewrite !Forall_app in *; destruct Ha as [? [? ?]%Forall_cons]; auto).
  assert (Forall (no_byte dot) (pre ++ [y])) as Hy
    by (rewrite !Forall_app in *; destruct Hb as [? [? ?]%Forall_cons]; auto).
  destruct (decide (x = y)) as [->|Hne].
  - assert (lcp (y :: a) (y :: b) = y :: lcp a b) as ->
      by (simpl; by rewrite bool_decide_eq_true_2).
    rewrite bool_decide_eq_true_2 by done.
    rewrite IH by (by rewrite <-app_assoc).
    rewrite (bool_decide_eq_false_2 (y :: lcp a b = [])) by done.
    case_bool_decide as Hl; [by rewrite Hl|]. by rewrite <-app_assoc.
  - assert (lcp (x :: a) (y :: b) = []) as -> by (simpl; by rewrite bool_decide_eq_false_2).
    rewrite bool_decide_eq_false_2; [done|]. intros [= Heq].
    apply (f_equal (split_on dot)) in Heq. unfold path_of in Heq.
    rewrite !split_join in Heq; [|by destruct pre|done|by destruct pre|done].
    apply app_inj_tail in Heq as [_ ?]. done.
Qed.

Lemma meet_lcp a b :
  ZoneId_valid a → ZoneId_valid b →
  meet a b = if bool_decide (lcp (segs a) (segs b) = []) then None
             else Some (mkZoneId (path_of (lcp (segs a) (segs b)))).
Proof.
  intros Ha Hb. unfold meet. rewrite !ancestors_anc_from by done.
  apply ZoneId_valid_iff in Ha as [_ Ha], Hb as [_ Hb].
  by rewrite meet_loop_lcp by (by apply zone_path_no_dot).
Qed.

Lemma from_segment_inj a b lv :
  from_segment a = Some lv → from_segment b = Some lv → a = b.
Proof. unfold from_segment. intros. repeat case_bool_decide; simplify_eq; done. Qed.

Lemma trust_level_eq_iff a b :
  ZoneId_valid a → ZoneId_valid b →
  trust_level a = trust_level b ↔ lcp (segs a) (segs b) ≠ [].
Proof.
  intros [_ Ha]%ZoneId_valid_iff [_ Hb]%ZoneId_valid_iff.
  unfold trust_level. fold (segs a) (segs b).
  destruct Ha as [Hna _ _ [la Hla]], Hb as [Hnb _ _ [lb Hlb]].
  destruct (segs a) as [|x xs], (segs b) as [|y ys]; try done. simpl in *.
  rewrite Hla, Hlb. simpl. case_bool_decide as Hxy.
  - split; [done|]. congruence.
  - split; [|done]. intros ->. destruct Hxy. by eapply from_segment_inj.
Qed.

Lemma classify_internal a b :
  is_internal_to_level (classify a b) = true ↔
  trust_level a = trust_level b ∧ trust_level a ≠ Public.
Proof.
  unfold classify. destruct (trust_level a), (trust_level b); simpl; try naive_solver;
    repeat case_match; naive_solver.
Qed.

(** Across trust levels, and whenever an end is public, the crossing is a function of
    the two levels alone. *)
Lemma classify_levels a b a' b' :
  trust_level a = trust_level a' → trust_level b = trust_level b' →
  is_internal_to_level (classify a b) = false → classify a' b' = classify a b.
Proof.
  unfold classify. intros <- <-.
  destruct (trust_level a), (trust_level b); simpl; try done; repeat case_match; done.
Qed.

(** The verdict as one boolean formula. *)
Lemma permits_bool l caller callee :
  ZoneLattice_permits l caller callee
  = (negb (zl_strict_membership l) || (is_declared l caller && is_declared l callee))
    && (is_internal_to_level (classify caller callee)
        || existsb (λ r, covers r (classify caller callee) caller callee) (zl_rules l)).
Proof.
  unfold ZoneLattice_permits, resolve.
  assert (∀ p, (match find p (zl_rules l) with Some _ => true | None => false end)
               = existsb p (zl_rules l)) as Hfind.
  { intros p. induction (zl_rules l) as [|r rs IH]; simpl; [done|]. by destruct (p r). }
  rewrite <-Hfind.
  destruct (zl_strict_membership l), (is_declared l caller), (is_declared l callee),
    (is_internal_to_level _), (find _ _); done.
Qed.

Lemma elem_of_ancestors z a :
  ZoneId_valid z → (a ∈ ancestors z ↔ ZoneId_valid a ∧ contains a z = true).
Proof.
  intros Hz. rewrite ancestors_anc_from by done.
  pose proof (proj1 (ZoneId_valid_iff z) Hz) as [Hlen Hp]. rewrite elem_of_anc_from, contains_prefix. split.
  - intros (p & q & Hne & Heq & ->). simpl. rewrite Heq in Hp.
    assert (zone_path p) as Hzp by (by eapply zone_path_prefix).
    unfold segs at 1. simpl. rewrite zone_path_segs by done. split; [|by exists q].
    unfold ZoneId_valid. simpl. apply (prefix_valid p q); [done| |done].
    by rewrite <-Heq, path_of_segs.
  - intros [Ha [q Hq]]. exists (segs a), q. split; [apply split_on_nonempty|]. split; [done|].
    rewrite app_nil_l, path_of_segs. by destruct a.
Qed.

(** ** Properties *)

(** No ancestor is ever skipped: every prefix of a valid zone id is itself a valid
    zone id, so [ancestors] yields one zone per segment, ends with the zone itself, and
    holds exactly the valid zones that contain it. *)
Theorem ancestors_complete z :
  ZoneId_valid z →
  length (ancestors z) = length (split_on dot (zone_str z)) ∧
  last (ancestors z) = Some z ∧
  ∀ a, a ∈ ancestors z ↔ ZoneId_valid a ∧ contains a z = true.
Proof.
  intros Hz. rewrite ancestors_anc_from by done. fold (segs z).
  pose proof (proj1 (ZoneId_valid_iff z) Hz) as [Hlen Hp]. split; [|split].
  - apply length_anc_from.
  - assert (∀ pre l, l ≠ [] → last (anc_from pre l) = Some (mkZoneId (path_of (pre ++ l)))) as Hl.
    { intros pre l. revert pre. induction l as [|s l IH]; intros pre Hl; [done|].
      destruct l as [|s' l]; [done|]. cbn [anc_from] in *. rewrite last_cons_cons.
      rewrite IH by done. by rewrite <-app_assoc. }
    rewrite Hl by apply Hp. rewrite app_nil_l, path_of_segs. by destruct z.
  - intros a. rewrite <-ancestors_anc_from by done. by apply elem_of_ancestors.
Qed.

(** [meet] is the greatest lower bound in the containment order -- the nearest zone
    containing both -- and it is absent exactly when the two zones sit in different
    trust levels. *)
Theorem meet_greatest a b :
  ZoneId_valid a → ZoneId_valid b →
  (∀ m, meet a b = Some m →
     ZoneId_valid m ∧ contains m a = true ∧ contains m b = true ∧
     ∀ z, contains z a = true → contains z b = true → contains z m = true) ∧
  (meet a b = None ↔ trust_level a ≠ trust_level b).
Proof.
  intros Ha Hb. rewrite meet_lcp, trust_level_eq_iff by done.
  pose proof (proj1 (ZoneId_valid_iff a) Ha) as [Hlen Hp].
  destruct (lcp_prefix_l (segs a) (segs b)) as [k Hk].
  case_bool_decide as Hnil; [naive_solver|]. split; [|naive_solver].
  intros m [= <-]. rewrite Hk in Hp.
  assert (zone_path (lcp (segs a) (segs b))) as Hzp by (by eapply zone_path_prefix).
  assert (segs (mkZoneId (path_of (lcp (segs a) (segs b)))) = lcp (segs a) (segs b)) as Hs
    by (by apply zone_path_segs).
  rewrite !contains_prefix, Hs.
  split; [|split; [by exists k|split; [apply lcp_prefix_r|]]].
  - unfold ZoneId_valid. simpl. apply (prefix_valid _ k); [done| |done].
    by rewrite <-Hk, path_of_segs.
  - intros z. rewrite !contains_prefix, Hs. apply lcp_greatest.
Qed.

(** The zone layer is default-deny across trust levels: a pair is permitted only when
    both ends share a non-public trust level or a declared rule covers exactly that
    crossing, and with strict membership only when both ends are declared as well. *)
Theorem resolve_permits_iff l caller callee :
  ZoneLattice_permits l caller callee = true ↔
  (zl_strict_membership l = true → is_declared l caller = true ∧ is_declared l callee = true) ∧
  ((trust_level caller = trust_level callee ∧ trust_level caller ≠ Public) ∨
   ∃ r, r ∈ zl_rules l ∧ covers r (classify caller callee) caller callee = true).
Proof.
  rewrite permits_bool, !andb_true_iff, !orb_true_iff, classify_internal, existsb_True.
  rewrite andb_true_iff, negb_true_iff.
  destruct (zl_strict_membership l); [|naive_solver].
  split; [|naive_solver]. intros [[?|?] ?]; [done|]. tauto.
Qed.

(** The linter's "it can never match" is exact: a rule between two subtrees that
    crosses trust levels is reported precisely when no pair of zones whatsoever is
    covered by it, and a reported rule of any kind never decides a resolution -- removing
    it changes no verdict. *)
Theorem lint_never_matches_exact crossing from to :
  let r := CrossingRule_between crossing from to in
  (is_internal_to_level crossing = false →
     lint_never_matches r ≠ [] ↔
     ∀ caller callee, covers r (classify caller callee) caller callee = false) ∧
  (lint_never_matches r ≠ [] →
     ∀ l1 l2 d s caller callee,
       ZoneLattice_permits (mkZoneLattice d (l1 ++ r :: l2) s) caller callee
       = ZoneLattice_permits (mkZoneLattice d (l1 ++ l2) s) caller callee).
Proof.
  intros r.
  assert (lint_never_matches r ≠ [] ↔ classify from to ≠ crossing) as Hlint.
  { unfold lint_never_matches. simpl. case_bool_decide; naive_solver. }
  assert (∀ caller callee, classify from to ≠ crossing →
    is_internal_to_level (classify caller callee) = false →
    covers r (classify caller callee) caller callee = false) as Hcov.
  { intros caller callee Hne Hcross. apply not_true_iff_false. unfold covers. simpl.
    case_bool_decide as Hc; simpl; [|done]. rewrite andb_true_iff.
    intros [Hf%contains_trust_level Ht%contains_trust_level].
    apply Hne. by rewrite (classify_levels caller callee from to). }
  rewrite Hlint. split.
  - intros Hcross. split.
    + intros Hne caller callee. destruct (is_internal_to_level (classify caller callee)) eqn:Hi;
        [|by apply Hcov]. unfold covers. simpl.
      rewrite bool_decide_eq_false_2; [done|]. congruence.
    + intros Hnone Heq. specialize (Hnone from to). unfold covers in Hnone. simpl in Hnone.
      rewrite Heq, bool_decide_eq_true_2, !contains_refl in Hnone by done. done.
  - intros Hne l1 l2 d s caller callee.
    rewrite !permits_bool. cbn [zl_rules zl_strict_membership].
    change (is_declared (mkZoneLattice d (l1 ++ r :: l2) s))
      with (is_declared (mkZoneLattice d (l1 ++ l2) s)).
    destruct (is_internal_to_level (classify caller callee)) eqn:Hi; [done|].
    rewrite !existsb_app. cbn [existsb]. by rewrite (Hcov caller callee Hne Hi).
Qed.

(** ** The path theorems at concrete zones *)

Lemma ancestors_complete_witness :
  ancestors (mkZoneId "internal.pay.core") = mkZoneId <$> ["internal"; "internal.pay"; "internal.pay.core"] ∧
  last (ancestors (mkZoneId "internal.pay.core")) = Some (mkZoneId "internal.pay.core").
Proof.
  split; [vm_compute; reflexivity|].
  apply (ancestors_complete (mkZoneId "internal.pay.core")). vm_compute. reflexivity.
Defined.

Lemma meet_greatest_witness :
  meet (mkZoneId "internal.pay.core") (mkZoneId "internal.pay.edge") = Some (mkZoneId "internal.pay") ∧
  contains (mkZoneId "internal.pay") (mkZoneId "internal.pay.edge") = true.
Proof.
  assert (meet (mkZoneId "internal.pay.core") (mkZoneId "internal.pay.edge") = Some (mkZoneId "internal.pay"))
    as Hm by (vm_compute; reflexivity).
  split; [exact Hm|].
  refine (proj1 (proj2 (proj2 (proj1 (meet_greatest (mkZoneId "internal.pay.core")
    (mkZoneId "internal.pay.edge") _ _) _ Hm)))); vm_compute; reflexivity.
Defined.
