(* ===== verification/Json.v ===== *)
(** * Json: [serde_json::Value] and canonical JSON ([crates/wc-core/src/util.rs])

    [Value] is the type the sources exchange documents in.  An object is a [BTreeMap]
    (the workspace never enables [serde_json/preserve_order]), here the list of its
    entries in key order; [value_wf] is that invariant.  The [serde_json] printer is
    third-party code and is the parameter [SerdeJson]; what canonicalisation relies on
    of it is [SerdeJsonLaws]. *)

From Stdlib Require Import SpecFloat.
From stdpp Require Import pretty.
From S2P Require Import Prelude Text Errors.

Inductive Number :=
| PosInt (n : N)
| NegInt (z : Z)
| Float (f : spec_float).

Inductive Value :=
| VNull
| VBool (b : bool)
| VNumber (n : Number)
| VString (s : string)
| VArray (l : list Value)
| VObject (m : list (string * Value)).

Abbreviation Map := (list (string * Value)).

(** ** [serde_json::Map] (a [BTreeMap<String, Value>]) *)

Fixpoint obj_get {A} (k : string) (m : list (string * A)) : option A :=
  match m with
  | [] => None
  | (k', v) :: m => if bool_decide (k = k') then Some v else obj_get k m
  end.

Fixpoint obj_insert {A} (k : string) (v : A) (m : list (string * A)) : list (string * A) :=
  match m with
  | [] => [(k, v)]
  | (k', v') :: m' =>
    if bool_decide (k = k') then (k, v) :: m'
    else if String.leb k k' then (k, v) :: m
    else (k', v') :: obj_insert k v m'
  end.

Definition obj_remove {A} (k : string) (m : list (string * A)) : list (string * A) :=
  filterb (λ e, negb (bool_decide (e.1 = k))) m.

Definition obj_keys {A} (m : list (string * A)) : list string := m.*1.

Definition obj_contains_key {A} (k : string) (m : list (string * A)) : bool :=
  match obj_get k m with Some _ => true | None => false end.

(** ** Accessors of [Value] *)

Definition as_object (v : Value) : option Map := match v with VObject m => Some m | _ => None end.
Definition as_array (v : Value) : option (list Value) := match v with VArray l => Some l | _ => None end.
Definition as_str (v : Value) : option string := match v with VString s => Some s | _ => None end.
Definition as_bool (v : Value) : option bool := match v with VBool b => Some b | _ => None end.
Definition as_u64 (v : Value) : option N :=
  match v with VNumber (PosInt n) => Some n | _ => None end.
Definition is_null (v : Value) : bool := match v with VNull => true | _ => false end.
Definition is_array (v : Value) : bool := match v with VArray _ => true | _ => false end.
(** [Value::get(key)]. *)
Definition vget (k : string) (v : Value) : option Value :=
  match v with VObject m => obj_get k m | _ => None end.

(** ** Printing *)

Class SerdeJson := {
  (** [Value::to_string], compact JSON. *)
  to_string : Value → string;
  (** [serde_json::to_string(&String)]. *)
  key_to_string : string → string
}.

Definition wrap (l r : string) (body : string) : string := l +:+ body +:+ r.

Section CanonicalJson.
Context `{SerdeJson}.

Fixpoint canonical_json (value : Value) : string :=
  match value with
  | VObject m =>
    let printed := map (λ e, (e.1, canonical_json e.2)) m in
    let keys := sort_strings (obj_keys m) in
    wrap "{" "}" (join "," (map (λ k, key_to_string k +:+ ":"
                                       +:+ default "null" (obj_get k printed)) keys))
  | VArray l => wrap "[" "]" (join "," (map canonical_json l))
  | other => to_string other
  end.
End CanonicalJson.

(** ** Induction over documents *)

Section ValueInd.
Variable P : Value → Prop.
Hypothesis Hnull : P VNull.
Hypothesis Hbool : ∀ b, P (VBool b).
Hypothesis Hnum : ∀ n, P (VNumber n).
Hypothesis Hstr : ∀ s, P (VString s).
Hypothesis Harr : ∀ l, Forall P l → P (VArray l).
Hypothesis Hobj : ∀ m, Forall (λ e, P e.2) m → P (VObject m).

Fixpoint Value_ind' (v : Value) : P v :=
  match v with
  | VNull => Hnull
  | VBool b => Hbool b
  | VNumber n => Hnum n
  | VString s => Hstr s
  | VArray l => Harr l ((fix go l := match l return Forall P l with
                         | [] => Forall_nil_2 _
                         | v :: l => Forall_cons_2 _ _ _ (Value_ind' v) (go l)
                         end) l)
  | VObject m => Hobj m ((fix go m := match m return Forall (λ e, P e.2) m with
                          | [] => Forall_nil_2 _
                          | (k, v) :: m => Forall_cons_2 (λ e, P e.2) (k, v) m (Value_ind' v) (go m)
                          end) m)
  end.
End ValueInd.

#[global] Instance spec_float_eq_dec : EqDecision spec_float.
Proof. solve_decision. Defined.
#[global] Instance Number_eq_dec : EqDecision Number.
Proof. solve_decision. Defined.

(** Documents are compared through the trees of their leaves. *)
Fixpoint value_to_tree (v : Value) : gen_tree (bool + Number + string) :=
  match v with
  | VNull => GenNode 0 []
  | VBool b => GenLeaf (inl (inl b))
  | VNumber n => GenLeaf (inl (inr n))
  | VString s => GenLeaf (inr s)
  | VArray l => GenNode 1 (map value_to_tree l)
  | VObject m => GenNode 2 (map (λ e, GenNode 3 [GenLeaf (inr e.1); value_to_tree e.2]) m)
  end.
Fixpoint value_of_tree (t : gen_tree (bool + Number + string)) : Value :=
  match t with
  | GenLeaf (inl (inl b)) => VBool b
  | GenLeaf (inl (inr n)) => VNumber n
  | GenLeaf (inr s) => VString s
  | GenNode 1 l => VArray (map value_of_tree l)
  | GenNode 2 m =>
    VObject (map (λ t, match t with GenNode _ [GenLeaf (inr k); v] => (k, value_of_tree v) | _ => ("", VNull) end) m)
  | GenNode _ _ => VNull
  end.
Lemma value_of_to_tree v : value_of_tree (value_to_tree v) = v.
Proof.
  induction v as [| | | |l IH|m IH] using Value_ind'; try done; simpl; rewrite map_map; f_equal.
  - induction IH as [|v l Hv _ IH]; simpl; [done|]. by rewrite Hv, IH.
  - induction IH as [|[k v] m Hv _ IH]; simpl; [done|]. simpl in Hv. by rewrite Hv, IH.
Qed.
#[global] Instance Value_eq_dec : EqDecision Value.
Proof.
  intros v w. destruct (decide (value_to_tree v = value_to_tree w)) as [E|E];
    [left; by rewrite <-(value_of_to_tree v), E, value_of_to_tree|right; congruence].
Defined.


(** ** Well-formed documents

    What a [Value] of the running program satisfies by construction: keys of an object
    are strictly increasing, an integer fits its 64-bit representation and is stored
    under one constructor, and a float is a finite IEEE double. *)

Definition number_wf (n : Number) : bool :=
  match n with
  | PosInt n => (n <=? u64_max)%N
  | NegInt z => (- 2 ^ 63 <=? z)%Z && (z <? 0)%Z
  | Float (S754_zero _) => true
  | Float (S754_finite s m e) => valid_binary 53 1024 (S754_finite s m e)
  | Float _ => false
  end.

Fixpoint keys_increasing (l : list string) : bool :=
  match l with
  | k :: ((k' :: _) as l') => String.leb k k' && negb (bool_decide (k = k')) && keys_increasing l'
  | _ => true
  end.

Fixpoint value_wf (v : Value) : bool :=
  match v with
  | VNumber n => number_wf n
  | VArray l => forallb value_wf l
  | VObject m => keys_increasing (obj_keys m) && forallb (λ e, value_wf e.2) m
  | _ => true
  end.

Lemma leb_le (s t : string) : String.leb s t = true ↔ (s ≤ t)%string.
Proof. unfold String.le. by destruct (String.leb s t). Qed.

Lemma keys_increasing_sorted l : keys_increasing l = true ↔ StronglySorted str_lt l.
Proof.
  split.
  - intros H. apply Sorted_StronglySorted; [apply _|].
    induction l as [|x [|y l] IH]; [repeat constructor..|].
    cbn [keys_increasing] in H. bool_facts. constructor; [by apply IH|]. constructor.
    split; [by apply leb_le|done].
  - induction 1 as [|x l Hl IH Hx]; [done|]. destruct l as [|y l]; [done|].
    apply Forall_cons in Hx as [[Hle Hne] _]. cbn [keys_increasing].
    rewrite !andb_true_iff. split; [split|done]; [by apply leb_le|].
    by rewrite negb_true_iff, bool_decide_eq_false.
Qed.

Lemma sort_strings_sorted_id l : StronglySorted str_lt l → sort_strings l = l.
Proof.
  intros H. apply (StronglySorted_unique String.le); [apply StronglySorted_merge_sort; apply _| |
    apply merge_sort_Permutation].
  induction H as [|x l Hl IH Hx]; constructor; [done|].
  eapply Forall_impl; [exact Hx|]. by intros y [? _].
Qed.

Lemma obj_get_map {A B} (f : A → B) k (m : list (string * A)) :
  obj_get k (map (λ e, (e.1, f e.2)) m) = f <$> obj_get k m.
Proof. induction m as [|[k' v] m IH]; [done|]. simpl. by case_bool_decide. Qed.

Lemma obj_get_elem {A} k (v : A) (m : list (string * A)) :
  NoDup m.*1 → obj_get k m = Some v ↔ (k, v) ∈ m.
Proof.
  induction m as [|[k' v'] m IH]; simpl; [set_solver|].
  intros [Hk Hm]%NoDup_cons. case_bool_decide as Hkk.
  - subst. rewrite elem_of_cons. split; [naive_solver|].
    intros [[= ->]|Hin]; [done|]. destruct Hk. apply list_elem_of_fmap. by exists (k', v).
  - rewrite IH, elem_of_cons by done. naive_solver.
Qed.

(** ** What the printer promises

    [serde_json] prints [null], [true] and [false] as such, quotes a string so that the
    closing quote can be told from the contents, and prints a number as a nonempty word
    over the JSON number alphabet from which the number can be read back (integers in
    decimal, doubles by their shortest round-tripping text). *)

Definition is_number_byte (b : N) : bool :=
  is_ascii_digit b || (b =? 43)%N || (b =? 45)%N || (b =? 46)%N || (b =? 69)%N || (b =? 101)%N.

Class SerdeJsonLaws `{SerdeJson} : Prop := {
  print_null : to_string VNull = "null";
  print_bool b : to_string (VBool b) = if b then "true" else "false";
  print_string s : to_string (VString s) = key_to_string s;
  quote_head s : ∃ t, bytes (key_to_string s) = 34%N :: t;
  quote_prefix_free s s' r r' :
    bytes (key_to_string s) ++ r = bytes (key_to_string s') ++ r' → s = s' ∧ r = r';
  number_nonempty n : number_wf n = true → to_string (VNumber n) ≠ "";
  number_alphabet n b : number_wf n = true → b ∈ bytes (to_string (VNumber n)) →
    is_number_byte b = true;
  number_text_inj n n' : number_wf n = true → number_wf n' = true →
    to_string (VNumber n) = to_string (VNumber n') → n = n'
}.

(** ** Sequences of self-delimiting texts *)

(** The bytes that may follow a document inside an enclosing one: [,], [\]] and [}]. *)
Definition delims : list N := [44; 93; 125]%N.
Definition stops (r : list N) : Prop := match r with [] => True | b :: _ => b ∈ delims end.

Fixpoint comma_join (l : list (list N)) : list N :=
  match l with
  | [] => []
  | [x] => x
  | x :: l => x ++ 44%N :: comma_join l
  end.

Lemma bytes_join l : bytes (join "," l) = comma_join (map bytes l).
Proof.
  induction l as [|x l IH]; [done|]. destruct l as [|y l]; [done|].
  change (join "," (x :: y :: l)) with (x +:+ "," +:+ join "," (y :: l)).
  rewrite !bytes_app, IH. done.
Qed.

Section SeqInj.
Context {A : Type} (P : A → list N) (close : N) (wf : A → Prop).
Hypothesis close_delim : close ∈ delims.
Hypothesis close_comma : close ≠ 44%N.
Hypothesis P_head : ∀ x, wf x → ∃ b t, P x = b :: t ∧ b ∉ delims.

Definition separates (x : A) : Prop := ∀ y s s',
  wf y → stops s → stops s' → P x ++ s = P y ++ s' → x = y ∧ s = s'.

Definition comma_tail (l : list A) : list N := concat (map (λ x, 44%N :: P x) l).

Lemma comma_join_cons x l : comma_join (map P (x :: l)) = P x ++ comma_tail l.
Proof.
  unfold comma_tail. revert x. induction l as [|y l IH]; intros x.
  { simpl. by rewrite app_nil_r. }
  change (comma_join (map P (x :: y :: l))) with (P x ++ 44%N :: comma_join (map P (y :: l))).
  by rewrite IH.
Qed.

Lemma stops_tail l r : stops (comma_tail l ++ close :: r).
Proof. destruct l; simpl; [done|set_solver]. Qed.

Lemma comma_tail_inj l l' r r' :
  Forall separates l → Forall wf l' →
  comma_tail l ++ close :: r = comma_tail l' ++ close :: r' → l = l' ∧ r = r'.
Proof.
  intros Hl. revert l'. induction Hl as [|x l Hx Hl IH]; intros l' Hl' Heq.
  - destruct Hl' as [|y l' Hy Hl']; unfold comma_tail in Heq; simpl in Heq;
      injection Heq; intros; by subst.
  - destruct Hl' as [|y l' Hy Hl']; unfold comma_tail in Heq; simpl in Heq;
      injection Heq; intros; [by subst|]. fold (comma_tail l) (comma_tail l') in *.
    rewrite <-!app_assoc in H.
    destruct (Hx y _ _ Hy (stops_tail l r) (stops_tail l' r') H) as [-> Ht].
    destruct (IH l' Hl' Ht) as [-> ->]. done.
Qed.

Lemma comma_join_inj l l' r r' :
  Forall wf l → Forall separates l → Forall wf l' →
  comma_join (map P l) ++ close :: r = comma_join (map P l') ++ close :: r' → l = l' ∧ r = r'.
Proof.
  intros Hw Hs Hw' Heq.
  destruct l as [|x l], l' as [|y l'].
  - simpl in Heq. by injection Heq.
  - rewrite comma_join_cons in Heq. apply Forall_cons in Hw' as [Hy _].
    destruct (P_head y Hy) as (b & t & Hb & Hn). rewrite Hb in Heq. simpl in Heq.
    injection Heq; intros; subst. done.
  - rewrite comma_join_cons in Heq. apply Forall_cons in Hw as [Hx _].
    destruct (P_head x Hx) as (b & t & Hb & Hn). rewrite Hb in Heq. simpl in Heq.
    injection Heq; intros; subst. done.
  - rewrite !comma_join_cons in Heq. rewrite <-!app_assoc in Heq.
    apply Forall_cons in Hw as [Hx Hw], Hs as [Hsx Hs], Hw' as [Hy Hw'].
    destruct (Hsx y _ _ Hy (stops_tail l r) (stops_tail l' r') Heq) as [-> Ht].
    destruct (comma_tail_inj _ _ _ _ Hs Hw' Ht) as [-> ->]. done.
Qed.
End SeqInj.

(** A word without delimiters ends where a delimiter or the end of input is. *)
Lemma word_inj u u' s s' :
  Forall (λ b, b ∉ delims) u → Forall (λ b, b ∉ delims) u' → stops s → stops s' →
  u ++ s = u' ++ s' → u = u' ∧ s = s'.
Proof.
  intros Hu. revert u'. induction Hu as [|b u Hb Hu IH]; intros u' Hu' Hs Hs' Heq.
  - destruct Hu' as [|b' u' Hb' Hu']; [done|]. simpl in Heq. subst s. done.
  - destruct Hu' as [|b' u' Hb' Hu']; simpl in Heq; [subst s'; done|].
    injection Heq as -> Heq. destruct (IH u' Hu' Hs Hs' Heq) as [-> ->]. done.
Qed.

(** ** Canonical JSON is injective *)

Lemma map_fmap_fst {A B C} (f : A → C) (l : list (A * B)) : map f l.*1 = map (λ e, f e.1) l.
Proof. induction l as [|e l IH]; [done|]. simpl. f_equal. exact IH. Qed.

Section Injective.
Context `{SerdeJsonLaws}.

Definition cj (v : Value) : list N := bytes (canonical_json v).
Definition cj_entry (e : string * Value) : list N := bytes (key_to_string e.1) ++ 58%N :: cj e.2.

Lemma cj_array l : cj (VArray l) = 91%N :: comma_join (map cj l) ++ [93%N].
Proof.
  unfold cj. cbn [canonical_json]. unfold wrap. rewrite !bytes_app, bytes_join, map_map. done.
Qed.

Lemma cj_object m :
  value_wf (VObject m) = true → cj (VObject m) = 123%N :: comma_join (map cj_entry m) ++ [125%N].
Proof.
  intros Hwf. cbn [value_wf] in Hwf. bool_facts.
  assert (StronglySorted str_lt (obj_keys m)) as Hs by (by apply keys_increasing_sorted).
  assert (NoDup m.*1) as Hnd by (by apply str_lt_sorted_NoDup).
  unfold cj. cbn [canonical_json]. cbv zeta. rewrite sort_strings_sorted_id by done.
  unfold wrap. rewrite !bytes_app, bytes_join. cbn [bytes app].
  change (N_of_ascii "{"%char) with 123%N. change (N_of_ascii "}"%char) with 125%N.
  f_equal. f_equal. f_equal. unfold obj_keys. rewrite map_fmap_fst, map_map.
  apply map_ext_in. intros [k v] Hin. rewrite obj_get_map. simpl.
  rewrite (proj2 (obj_get_elem k v m Hnd)) by (by apply list_elem_of_In).
  simpl. rewrite !bytes_app. done.
Qed.

Inductive shape := Word | Quoted | Bracketed | Braced.
Definition value_shape (v : Value) : shape :=
  match v with VString _ => Quoted | VArray _ => Bracketed | VObject _ => Braced | _ => Word end.
Definition byte_shape (b : N) : shape :=
  if (b =? 34)%N then Quoted else if (b =? 91)%N then Bracketed
  else if (b =? 123)%N then Braced else Word.

Lemma number_byte_word b : is_number_byte b = true → byte_shape b = Word ∧ b ∉ delims.
Proof.
  unfold is_number_byte, is_ascii_digit, byte_shape, delims. intros Hb.
  rewrite !not_elem_of_cons. rewrite !orb_true_iff, andb_true_iff in Hb.
  rewrite !N.eqb_eq, !N.leb_le in Hb.
  repeat case_match; bool_facts; subst; (split; [try done; lia|]);
    (repeat split; [lia..|by apply not_elem_of_nil]).
Qed.

Lemma cj_head v : value_wf v = true →
  ∃ b t, cj v = b :: t ∧ byte_shape b = value_shape v ∧ b ∉ delims.
Proof.
  intros Hwf. destruct v as [|b|n|s|l|m].
  - unfold cj. cbn [canonical_json]. rewrite print_null. eexists _, _. split; [reflexivity|].
    split; [done|]. decide_now.
  - unfold cj. cbn [canonical_json]. rewrite print_bool. destruct b; eexists _, _;
      (split; [reflexivity|]); (split; [done|]); decide_now.
  - unfold cj. cbn [canonical_json]. pose proof (number_nonempty n Hwf) as Hne.
    destruct (to_string (VNumber n)) as [|c t] eqn:E; [done|].
    eexists _, _. split; [reflexivity|]. apply number_byte_word, (number_alphabet n); [done|].
    rewrite E. simpl. set_solver.
  - unfold cj. cbn [canonical_json]. rewrite print_string.
    destruct (quote_head s) as [t Ht]. rewrite Ht. eexists _, _. split; [reflexivity|].
    split; [done|]. decide_now.
  - rewrite cj_array. eexists _, _. split; [reflexivity|].
    split; [done|]. decide_now.
  - rewrite cj_object by done. eexists _, _. split; [reflexivity|].
    split; [done|]. decide_now.
Qed.

Lemma cj_word v : value_wf v = true → value_shape v = Word → Forall (λ b, b ∉ delims) (cj v).
Proof.
  intros Hwf Hs. destruct v as [|b|n|s|l|m]; try done; unfold cj; cbn [canonical_json].
  - rewrite print_null. decide_now.
  - rewrite print_bool. destruct b; decide_now.
  - apply Forall_forall. intros b Hb. by eapply number_byte_word, number_alphabet.
Qed.

Lemma word_values_inj v w :
  value_wf v = true → value_wf w = true → value_shape v = Word → value_shape w = Word →
  canonical_json v = canonical_json w → v = w.
Proof.
  assert (∀ n, number_wf n = true → to_string (VNumber n) ≠ "null" ∧
    to_string (VNumber n) ≠ "true" ∧ to_string (VNumber n) ≠ "false") as Hn.
  { intros n Hn. pose proof (λ b, number_alphabet n b Hn) as Ha.
    repeat split; intros E; rewrite E in Ha; cbn in Ha.
    - by specialize (Ha 110%N ltac:(set_solver)).
    - by specialize (Ha 116%N ltac:(set_solver)).
    - by specialize (Ha 102%N ltac:(set_solver)). }
  intros Hv Hw Hsv Hsw.
  destruct v as [|b|n|s|l|m], w as [|b'|n'|s'|l'|m']; try done; cbn [canonical_json value_wf] in *;
    rewrite ?print_null, ?print_bool; try (destruct b); try (destruct b'); intros E; try done;
    try (by destruct (Hn n Hv) as (?&?&?)); try (by destruct (Hn n' Hw) as (?&?&?)).
  f_equal. by apply number_text_inj.
Qed.

Lemma cj_separates v : value_wf v = true →
  separates cj (λ w, value_wf w = true) v.
Proof.
  induction v as [|b|n|s|l IH|m IH] using Value_ind'; intros Hwf w r r' Hw Hr Hr' Heq;
    destruct (cj_head _ Hwf) as (c & t & Hc & Hs & _);
    destruct (cj_head w Hw) as (c' & t' & Hc' & Hs' & _);
    (assert (c = c') as <- by (rewrite Hc, Hc' in Heq; by injection Heq));
    rewrite Hs in Hs'; clear Hc Hc' Hs c t t'.
  1-3: apply word_inj in Heq as [Hcj ->]; [|by apply cj_word|by apply cj_word|done..];
    (split; [|done]); apply word_values_inj; [done..|by apply bytes_inj].
  - destruct w as [| | |s'| |]; try done. unfold cj in Heq. cbn [canonical_json] in Heq.
    rewrite !print_string in Heq. by destruct (quote_prefix_free _ _ _ _ Heq) as [-> ->].
  - destruct w as [| | | |l'|]; try done. rewrite !cj_array in Heq. simpl in Heq.
    injection Heq as Heq. rewrite <-!app_assoc in Heq. simpl in Heq, Hwf, Hw.
    rewrite forallb_True in Hwf, Hw. rewrite Forall_forall in IH.
    apply (comma_join_inj cj 93%N (λ v, value_wf v = true)) in Heq as [-> ->]; try done.
    + decide_now.
    + intros x Hx. destruct (cj_head x Hx) as (?&?&?&_&?). eauto.
    + by apply Forall_forall.
    + apply Forall_forall. auto.
    + by apply Forall_forall.
  - destruct w as [| | | | |m']; try done. rewrite !cj_object in Heq by done. simpl in Heq.
    injection Heq as Heq. rewrite <-!app_assoc in Heq. simpl in Heq.
    cbn [value_wf] in Hwf, Hw. apply andb_true_iff in Hwf as [_ Hwf], Hw as [_ Hw].
    rewrite forallb_True in Hwf, Hw. rewrite Forall_forall in IH.
    apply (comma_join_inj cj_entry 125%N (λ e, value_wf e.2 = true)) in Heq as [-> ->]; try done.
    + decide_now.
    + intros [k x] _. unfold cj_entry. destruct (quote_head k) as [t Ht]. simpl. rewrite Ht.
      eexists _, _. split; [reflexivity|]. decide_now.
    + by apply Forall_forall.
    + apply Forall_forall. intros [k x] Hin [k' x'] s s' Hx' Hst Hst' E.
      unfold cj_entry in E. simpl in *. rewrite <-!app_assoc in E.
      apply quote_prefix_free in E as [-> E]. simpl in E. injection E as E.
      destruct (IH _ Hin (Hwf _ Hin) x' s s' Hx' Hst Hst' E) as [Hx Hss]. simpl in Hx.
      by subst.
    + by apply Forall_forall.
Qed.

Lemma canonical_json_inj v w :
  value_wf v = true → value_wf w = true → canonical_json v = canonical_json w → v = w.
Proof.
  intros Hv Hw Heq. destruct (cj_separates v Hv w [] []) as [-> _]; try done.
  unfold cj. by rewrite Heq.
Qed.
End Injective.

(** ** A printer with these laws

    A small printer that shows the laws can hold together: strings are quoted with
    backslash escapes, a number is printed through its code in [Countable]. *)

Module TestPrinter.
#[export] Program Instance spec_float_countable : Countable spec_float :=
  inj_countable'
    (λ f, match f with
          | S754_zero s => inl (inl s) | S754_infinity s => inl (inr s)
          | S754_nan => inr (inl tt) | S754_finite s m e => inr (inr (s, m, e)) end)
    (λ x, match x with
          | inl (inl s) => S754_zero s | inl (inr s) => S754_infinity s
          | inr (inl _) => S754_nan | inr (inr (s, m, e)) => S754_finite s m e end) _.
Next Obligation. by intros []. Qed.

#[export] Program Instance Number_countable : Countable Number :=
  inj_countable'
    (λ n, match n with PosInt n => inl (inl n) | NegInt z => inl (inr z) | Float f => inr f end)
    (λ x, match x with inl (inl n) => PosInt n | inl (inr z) => NegInt z | inr f => Float f end) _.
Next Obligation. by intros []. Qed.

Definition number_text (n : Number) : string := pretty (Npos (encode n)).

Definition escape_byte (c : ascii) (r : string) : string :=
  if bool_decide (c = "\"%char ∨ N_of_ascii c = 34%N) then String "\" (String c r) else String c r.
Fixpoint escape (s : string) : string :=
  match s with EmptyString => "" | String c s => escape_byte c (escape s) end.
Definition quote_char : ascii := ascii_of_N 34.
Definition quote (s : string) : string := String quote_char (escape s +:+ String quote_char "").

#[export] Instance printer : SerdeJson := {|
  to_string v := match v with
    | VNull => "null"
    | VBool b => if b then "true" else "false"
    | VNumber n => number_text n
    | VString s => quote s
    | _ => ""
    end;
  key_to_string := quote
|}.

Lemma escape_prefix_free s s' r r' :
  bytes (escape s) ++ 34%N :: r = bytes (escape s') ++ 34%N :: r' → s = s' ∧ r = r'.
Proof.
  revert s'. induction s as [|c s IH]; intros [|c' s'] Heq; simpl in Heq.
  - by injection Heq.
  - exfalso. unfold escape_byte in Heq. case_bool_decide as Hc; simpl in Heq; [done|].
    injection Heq as Heq _. naive_solver.
  - exfalso. unfold escape_byte in Heq. case_bool_decide as Hc; simpl in Heq; [done|].
    injection Heq as Heq _. naive_solver.
  - assert (c = c' ∧ bytes (escape s) ++ 34%N :: r = bytes (escape s') ++ 34%N :: r')
      as [<- Hrest].
    { unfold escape_byte in Heq. repeat case_bool_decide; simpl in Heq;
        injection Heq as Hb Hr; simplify_eq.
      - split; [|done]. rewrite <-(ascii_N_embedding c), <-(ascii_N_embedding c'). by f_equal.
      - exfalso. assert (c' = "\"%char); [|naive_solver].
        rewrite <-(ascii_N_embedding c'), <-Hb. done.
      - exfalso. assert (c = "\"%char); [|naive_solver].
        rewrite <-(ascii_N_embedding c), Hb. done.
      - split; [|done]. rewrite <-(ascii_N_embedding c), <-(ascii_N_embedding c'). by f_equal. }
    by destruct (IH s' Hrest) as [-> ->].
Qed.

Lemma pretty_digits (n : N) b : b ∈ bytes (pretty n) → is_ascii_digit b = true.
Proof.
  unfold pretty, pretty_N. case_decide as Hn; [cbn; set_solver|].
  assert (∀ s, (∀ b, b ∈ bytes s → is_ascii_digit b = true) →
     b ∈ bytes (pretty_N_go n s) → is_ascii_digit b = true) as H;
    [|apply H; set_solver].
  clear Hn. induction (N.lt_wf_0 n) as [n _ IH]. intros s Hs.
  destruct (decide (0 < n)%N) as [Hn|Hn].
  2:{ replace n with 0%N by lia. rewrite pretty_N_go_0. apply Hs. }
  rewrite pretty_N_go_step by done. apply IH; [apply N.div_lt; lia|].
  intros b'. simpl. intros [->|?]%elem_of_cons; [|by apply Hs].
  pose proof (N.mod_lt n 10 ltac:(lia)). unfold pretty_N_char.
  repeat case_match; done.
Qed.

#[export] Instance printer_laws : SerdeJsonLaws.
Proof.
  split; try done.
  - intros s. cbn. eexists. reflexivity.
  - intros s s' r r'. unfold key_to_string, printer, quote.
    change (bytes (String quote_char ?x)) with (34%N :: bytes x).
    rewrite !bytes_app. simpl. intros E. injection E as E. rewrite <-!app_assoc in E.
    by apply escape_prefix_free.
  - intros n _. unfold to_string, printer, number_text, pretty, pretty_N.
    case_decide; [done|]. rewrite pretty_N_go_step by lia.
    intros E. apply (f_equal String.length) in E. revert E.
    set (q := (N.pos (encode n) / 10)%N). set (c := pretty_N_char _).
    assert (∀ q s, String.length s ≤ String.length (pretty_N_go q s)) as Hlen.
    { clear. intros q. induction (N.lt_wf_0 q) as [q _ IH]. intros s.
      destruct (decide (0 < q)%N) as [Hq|Hq].
      2:{ replace q with 0%N by lia. by rewrite pretty_N_go_0. }
      rewrite pretty_N_go_step by done. etrans; [|apply IH; apply N.div_lt; lia]. simpl. lia. }
    specialize (Hlen q (String c "")). simpl in Hlen. simpl. lia.
  - intros n b _ Hb. unfold is_number_byte. by rewrite (pretty_digits _ _ Hb).
  - intros n n' _ _ E. unfold to_string, printer, number_text in E.
    apply (inj pretty) in E. injection E as E. by apply (inj encode).
Qed.
End TestPrinter.

(** ** Properties *)

Lemma obj_get_perm {A} k (m m' : list (string * A)) :
  NoDup m.*1 → m ≡ₚ m' → obj_get k m = obj_get k m'.
Proof.
  intros Hnd Hp. assert (NoDup m'.*1) as Hnd' by (by rewrite <-Hp).
  destruct (obj_get k m) as [v|] eqn:E.
  - symmetry. apply obj_get_elem; [done|]. rewrite <-Hp. by apply obj_get_elem.
  - destruct (obj_get k m') as [v|] eqn:E'; [|done].
    apply obj_get_elem in E'; [|done]. rewrite <-Hp in E'.
    apply obj_get_elem in E'; [|done]. congruence.
Qed.

Lemma sort_strings_perm l l' : l ≡ₚ l' → sort_strings l = sort_strings l'.
Proof.
  intros Hp. unfold sort_strings.
  apply (StronglySorted_unique String.le); [apply StronglySorted_merge_sort; apply _..|].
  by rewrite !merge_sort_Permutation.
Qed.

(** Canonical JSON identifies documents and nothing else: two well-formed documents
    with one canonical text are equal, so a digest of the text binds the document; and
    the text of an object does not depend on the order its entries are stored in, so it
    stays put if a dependency makes objects insertion-ordered. *)
Theorem canonical_json_faithful `{SerdeJsonLaws} :
  (∀ v w, value_wf v = true → value_wf w = true →
     canonical_json v = canonical_json w → v = w) ∧
  (∀ m m', NoDup (obj_keys m) → m ≡ₚ m' →
     canonical_json (VObject m) = canonical_json (VObject m')).
Proof.
  split; [apply canonical_json_inj|]. intros m m' Hnd Hp.
  cbn [canonical_json]. cbv zeta. unfold obj_keys in *.
  rewrite (sort_strings_perm m.*1 m'.*1) by (by rewrite Hp).
  f_equal. f_equal. apply map_ext. intros k. do 3 f_equal.
  rewrite !obj_get_map. by rewrite (obj_get_perm k m m').
Qed.

Lemma canonical_json_faithful_witness :
  let m := [("a", VNumber (PosInt 1)); ("b", VArray [VNull; VString "x"])] in
  @canonical_json TestPrinter.printer (VObject m)
  = @canonical_json TestPrinter.printer (VObject (rev m)).
Proof.
  intros m. apply (@canonical_json_faithful TestPrinter.printer TestPrinter.printer_laws).
  - decide_now.
  - apply Permutation_rev.
Defined.
