(* ===== verification/Canon.v ===== *)
(** * Canon: the [wcs1] canonical surface and its pin ([crates/wc-core/src/canon.rs])

    A declared surface (an MCP [tools/list] result or an A2A agent card) is projected to
    the allowlisted fields, its text normalised, and printed canonically; hashing the
    whole document gives the manifest hash, hashing each item the item hashes of a
    [Pin].  Unicode composition ([unicode-normalization]) and the JSON parser are
    third-party code: the parameters [Nfc] and [SerdeParse].

    Text is normalised over code points; [from_chars] is UTF-8 encoding. *)

From S2P Require Import Prelude Text Errors Model Json.

(** [UnicodeNormalization::nfc]: an iterator of code points to an iterator of code points. *)
Class Nfc := nfc : list N → list N.

(** [serde_json::from_slice::<Value>]. *)
Class SerdeParse := from_slice : string → option Value.

(** ** UTF-8 encoding: [String::push] and [collect::<String>] *)

Definition utf8_char (c : N) : list N :=
  if (c <? 128)%N then [c]
  else if (c <? 2048)%N then [192 + c / 64; 128 + c mod 64]%N
  else if (c <? 65536)%N then [224 + c / 4096; 128 + (c / 64) mod 64; 128 + c mod 64]%N
  else [240 + c / 262144; 128 + (c / 4096) mod 64; 128 + (c / 64) mod 64; 128 + c mod 64]%N.

Definition of_bytes (l : list N) : string := foldr (λ b s, String (ascii_of_N b) s) "" l.

Definition from_chars (l : list N) : string := of_bytes (concat (map utf8_char l)).

(** ** Limits and surface kinds *)

Definition WCS1_VERSION : N := 1.

Record Limits := mkLimits {
  max_bytes : N;
  max_items : N;
  max_depth : N;
  max_string_bytes : N;
  max_name_bytes : N
}.

Definition Limits_default : Limits := mkLimits (4 * 1024 * 1024) 512 32 (64 * 1024) 128.

Inductive SurfaceKind := McpTools | A2aCard.
#[global] Instance SurfaceKind_eq_dec : EqDecision SurfaceKind.
Proof. solve_decision. Defined.

Definition SurfaceKind_as_str (k : SurfaceKind) : string :=
  match k with McpTools => "mcp_tools" | A2aCard => "a2a_card" end.

Definition MCP_TOOL_FIELDS : list string :=
  ["name"; "title"; "description"; "inputSchema"; "outputSchema"].
Definition MCP_ANNOTATION_FIELDS : list string :=
  ["title"; "readOnlyHint"; "destructiveHint"; "idempotentHint"; "openWorldHint"].
Definition A2A_CARD_FIELDS : list string :=
  ["name"; "version"; "description"; "url"; "securitySchemes"].
Definition A2A_SKILL_FIELDS : list string :=
  ["id"; "name"; "description"; "examples"; "inputModes"; "outputModes"; "tags"].
Definition ORDER_FREE_ARRAYS : list string := ["required"; "enum"].

(** ** Text normalisation *)

Definition CR : N := 13.
Definition LFc : N := 10.
Definition SP : N := 32.

(** [replace(CRLF, LF)], then [replace(CR, LF)]. *)
Fixpoint replace_crlf (l : list N) : list N :=
  match l with
  | [] => []
  | c :: r => match r with
              | d :: r' => if (c =? CR)%N && (d =? LFc)%N then LFc :: replace_crlf r'
                           else c :: replace_crlf r
              | [] => [c]
              end
  end.
Definition replace_cr (l : list N) : list N := map (λ c, if (c =? CR)%N then LFc else c) l.

(** [str::lines]: every line ends at a line feed, and the text after the last one is a
    line unless it is empty.  (The carriage return [lines] would also strip is gone.) *)
Fixpoint text_lines (l : list N) : list (list N) :=
  match l with
  | [] => []
  | c :: r => if (c =? LFc)%N then [] :: text_lines r
              else match text_lines r with
                   | [] => [[c]]
                   | w :: ws => (c :: w) :: ws
                   end
  end.

Definition is_horizontal_space (c : N) : bool := (c =? 32)%N || (c =? 9)%N || (c =? 160)%N.

(** The loop of [collapse_spaces]: the text so far, and whether a run is pending. *)
Definition collapse_step (st : list N * bool) (c : N) : list N * bool :=
  let '(out, in_run) := st in
  if is_horizontal_space c then (out, true)
  else ((if in_run && negb (bool_decide (out = [])) then out ++ [SP] else out) ++ [c], false).

Definition collapse_spaces (line : list N) : list N := (foldl collapse_step ([], false) line).1.

Fixpoint drop_leading_empty (l : list (list N)) : list (list N) :=
  match l with [] :: l => drop_leading_empty l | _ => l end.
Definition drop_trailing_empty (l : list (list N)) : list (list N) :=
  reverse (drop_leading_empty (reverse l)).

Fixpoint join_lines (l : list (list N)) : list N :=
  match l with
  | [] => []
  | [x] => x
  | x :: l => x ++ LFc :: join_lines l
  end.

(** Everything [normalise_text] does after composing. *)
Definition normalise_chars (l : list N) : list N :=
  let unified := replace_cr (replace_crlf l) in
  let lines := map collapse_spaces (text_lines unified) in
  join_lines (drop_trailing_empty (drop_leading_empty lines)).

Definition normalise_text `{Nfc} (s : string) : string :=
  from_chars (normalise_chars (nfc (chars s))).

(** ** Extraction *)

Definition limit_err : Code := SURFACE_LIMITS_EXCEEDED.
Definition shape_err : Code := SURFACE_UNOBTAINABLE.

Definition item_name (obj : Map) (field : string) (limits : Limits) : result string :=
  let? raw := ok_or (match obj_get field obj with Some v => as_str v | None => None end)
                shape_err in
  guard_err (bool_decide (raw = "")) shape_err $
  guard_err (max_name_bytes limits <? str_len raw)%N limit_err $
  guard_err (existsb (λ c, is_control c || is_whitespace c) (chars raw)) shape_err $
  Ok raw.

Definition project (obj : Map) (fields : list string) : Map :=
  foldl (λ out field, match obj_get field obj with
                      | Some value => if is_null value then out else obj_insert field value out
                      | None => out
                      end) [] fields.

(** ** Recursive canonicalisation *)

Section CanonValue.
Context `{SerdeJson, Nfc}.
Variable limits : Limits.

(** [sort_by_cached_key(canonical_json)]. *)
Definition sort_by_canonical (l : list Value) : list Value :=
  (merge_sort (λ a b : string * Value, String.le a.1 b.1)
     (map (λ v, (canonical_json v, v)) l)).*2.

Fixpoint canon_value (v : Value) (key : option string) (depth : N) : result Value :=
  guard_err (max_depth limits <? depth)%N limit_err $
  match v with
  | VString s =>
    guard_err (max_string_bytes limits <? str_len s)%N limit_err $
    Ok (VString (normalise_text s))
  | VArray items =>
    let? out := mapR (λ item, canon_value item None (depth + 1)) items in
    Ok (VArray (if match key with Some k => str_in k ORDER_FREE_ARRAYS | None => false end
                then sort_by_canonical out else out))
  | VObject m =>
    let members := map (λ e, (e.1, (is_null e.2, canon_value e.2 (Some e.1) (depth + 1)))) m in
    let? out := foldR (λ out k,
                  match obj_get k members with
                  | Some (true, _) | None => Ok out
                  | Some (false, value) => let? value := value in Ok (obj_insert k value out)
                  end) [] (sort_strings (obj_keys m)) in
    Ok (VObject out)
  | other => Ok other
  end.

(** ** The two surface shapes *)

(** A tool reduced to its pinned fields. *)
Definition mcp_projected (obj : Map) : Map :=
  let projected := project obj MCP_TOOL_FIELDS in
  match obj_get "annotations" obj with
  | Some v => match as_object v with
              | Some annotations =>
                let kept := project annotations MCP_ANNOTATION_FIELDS in
                if bool_decide (obj_keys kept = []) then projected
                else obj_insert "annotations" (VObject kept) projected
              | None => projected
              end
  | None => projected
  end.

(** The body of [mcp_items]'s loop; the accumulator holds [out] and the names seen. *)
Definition mcp_item (acc : list (string * Value) * list string) (tool : Value)
    : result (list (string * Value) * list string) :=
  let '(out, seen) := acc in
  let? obj := ok_or (as_object tool) shape_err in
  let? name := item_name obj "name" limits in
  guard_err (str_in name seen) shape_err $
  let? v := canon_value (VObject (mcp_projected obj)) None 0 in
  Ok (out ++ [(name, v)], name :: seen).

Definition mcp_tools_of (raw : Value) : result (list Value) :=
  match raw with
  | VObject m => ok_or (match obj_get "tools" m with Some v => as_array v | None => None end)
                   shape_err
  | VArray items => Ok items
  | _ => Err shape_err
  end.

Definition mcp_items (raw : Value) : result (list (string * Value)) :=
  let? tools := mcp_tools_of raw in
  let? (out, _) := foldR mcp_item ([], []) tools in
  Ok out.

Definition a2a_skill (acc : list (string * Value) * list string) (skill : Value)
    : result (list (string * Value) * list string) :=
  let '(out, seen) := acc in
  let? skill_obj := ok_or (as_object skill) shape_err in
  let? key := if obj_contains_key "id" skill_obj then item_name skill_obj "id" limits
              else item_name skill_obj "name" limits in
  guard_err (str_in key seen) shape_err $
  let? v := canon_value (VObject (project skill_obj A2A_SKILL_FIELDS)) None 0 in
  Ok (out ++ [(key, v)], key :: seen).

Definition a2a_card (raw : Value) : result (Value * list (string * Value)) :=
  let? obj := ok_or (as_object raw) shape_err in
  let? meta := canon_value (VObject (project obj A2A_CARD_FIELDS)) None 0 in
  let? skills := match obj_get "skills" obj with
                 | Some (VArray items) => Ok items
                 | None => Ok []
                 | Some _ => Err shape_err
                 end in
  let? (out, _) := foldR a2a_skill ([], []) skills in
  Ok (meta, out).
End CanonValue.

(** ** The canonical surface and its pin *)

Record CanonicalSurface := mkCanonicalSurface {
  cs_document : string;
  cs_items : list (string * string)
}.

Section Surface.
Context `{SerdeJson, Nfc, Sha256, SerdeParse}.

Definition manifest_hash (cs : CanonicalSurface) : string := sha256_tagged (cs_document cs).

Definition item_hashes (cs : CanonicalSurface) : gmap string string :=
  list_to_map (map (λ e, (e.1, sha256_tagged e.2)) (cs_items cs)).

Definition to_pin (cs : CanonicalSurface) (now : N) : Pin :=
  mkPin PIN_ALG (manifest_hash cs) (item_hashes cs) now.

(** The [wcs1] document of a kind, an entity, its meta and its items. *)
Definition surface_document (kind : SurfaceKind) (entity : EntityId) (meta : Value)
    (ordered : list (string * Value)) : Value :=
  VObject (obj_insert "items" (VArray ordered.*2)
          (obj_insert "meta" meta
          (obj_insert "entity" (VString (entity_str entity))
          (obj_insert "kind" (VString (SurfaceKind_as_str kind))
          (obj_insert "v" (VNumber (PosInt WCS1_VERSION)) []))))).

Definition extract (kind : SurfaceKind) (raw : Value) (limits : Limits)
    : result (Value * list (string * Value)) :=
  match kind with
  | McpTools => let? items := mcp_items limits raw in Ok (VObject [], items)
  | A2aCard => a2a_card limits raw
  end.

(** [collect] into a [BTreeMap]. *)
Definition collect_btree {A} (items : list (string * A)) : list (string * A) :=
  foldl (λ m e, obj_insert e.1 e.2 m) [] items.

Definition canonicalise (kind : SurfaceKind) (entity : EntityId) (raw : Value) (limits : Limits)
    : result CanonicalSurface :=
  guard_err (max_bytes limits <? str_len (to_string raw))%N limit_err $
  let? (meta, items) := extract kind raw limits in
  guard_err (max_items limits <? len items)%N limit_err $
  let ordered := collect_btree items in
  Ok (mkCanonicalSurface
        (canonical_json (surface_document kind entity meta ordered))
        (map (λ e, (e.1, canonical_json e.2)) ordered)).

Definition canonicalise_slice (kind : SurfaceKind) (entity : EntityId) (raw : string)
    (limits : Limits) : result CanonicalSurface :=
  guard_err (max_bytes limits <? str_len raw)%N limit_err $
  let? value := ok_or (from_slice raw) SURFACE_UNOBTAINABLE in
  canonicalise kind entity value limits.

Definition pin (kind : SurfaceKind) (entity : EntityId) (raw : Value) (limits : Limits) (now : N)
    : result Pin :=
  let? cs := canonicalise kind entity raw limits in Ok (to_pin cs now).
End Surface.

(** ** Normalisation: idempotence and preservation of content *)

(** The layout characters normalisation may touch; everything else is content. *)
Definition is_layout (c : N) : bool := is_horizontal_space c || (c =? LFc)%N || (c =? CR)%N.
Definition content (l : list N) : list N := filterb (λ c, negb (is_layout c)) l.

Lemma content_app l k : content (l ++ k) = content l ++ content k.
Proof. apply List.filter_app. Qed.

(** [collapse_spaces] without its accumulator. *)
Fixpoint collapse_go (started in_run : bool) (l : list N) : list N :=
  match l with
  | [] => []
  | c :: r => if is_horizontal_space c then collapse_go started true r
              else (if in_run && started then [SP] else []) ++ c :: collapse_go true false r
  end.

Lemma collapse_loop out in_run l :
  (foldl collapse_step (out, in_run) l).1
  = out ++ collapse_go (negb (bool_decide (out = []))) in_run l.
Proof.
  revert out in_run. induction l as [|c l IH]; intros out in_run; simpl.
  { by rewrite app_nil_r. }
  destruct (is_horizontal_space c); [apply IH|].
  rewrite IH. rewrite (bool_decide_eq_false_2 (_ ++ [c] = [])) by (by intros [_ ?]%app_nil).
  destruct in_run, (bool_decide (out = [])); simpl; by rewrite <-!app_assoc.
Qed.

Lemma collapse_spaces_go l : collapse_spaces l = collapse_go false false l.
Proof. unfold collapse_spaces. by rewrite collapse_loop. Qed.

Lemma collapse_go_started b l : collapse_go true false (collapse_go true b l) = collapse_go true b l.
Proof.
  revert b. induction l as [|c l IH]; intros b; simpl; [done|].
  destruct (is_horizontal_space c) eqn:Hc; [apply IH|].
  destruct b; simpl; rewrite Hc; simpl; by rewrite IH.
Qed.

Lemma collapse_spaces_idemp l : collapse_spaces (collapse_spaces l) = collapse_spaces l.
Proof.
  rewrite !collapse_spaces_go.
  enough (∀ b, collapse_go false false (collapse_go false b l) = collapse_go false b l) as H
    by apply H.
  induction l as [|c l IH]; intros b; simpl; [done|].
  destruct (is_horizontal_space c) eqn:Hc; [apply IH|].
  rewrite andb_false_r. simpl. rewrite Hc. simpl. by rewrite collapse_go_started.
Qed.

Lemma collapse_spaces_content l : content (collapse_spaces l) = content l.
Proof.
  rewrite collapse_spaces_go.
  enough (∀ s b, content (collapse_go s b l) = content l) as H by apply H.
  induction l as [|c l IH]; intros s b; [done|]. cbn [collapse_go].
  destruct (is_horizontal_space c) eqn:Hc.
  - rewrite IH. unfold content, is_layout. simpl. by rewrite Hc.
  - rewrite content_app. simpl. rewrite IH. by destruct (b && s).
Qed.

Lemma elem_of_collapse c l : c ∈ collapse_spaces l → c ∈ l ∨ c = SP.
Proof.
  rewrite collapse_spaces_go.
  enough (∀ s b, c ∈ collapse_go s b l → c ∈ l ∨ c = SP) as H by apply H.
  induction l as [|d l IH]; intros s b; simpl; [set_solver|].
  destruct (is_horizontal_space d); [intros ?%IH; set_solver|].
  intros [Hc|[->|Hc%IH]%elem_of_cons]%elem_of_app; [|set_solver..].
  destruct (b && s); set_solver.
Qed.

(** Line endings. *)
Lemma replace_crlf_cons2 c d l :
  replace_crlf (c :: d :: l)
  = if ((c =? CR) && (d =? LFc))%N then LFc :: replace_crlf l else c :: replace_crlf (d :: l).
Proof. done. Qed.

Lemma replace_crlf_content l : content (replace_crlf l) = content l.
Proof.
  remember (length l) as n eqn:Hn. assert (length l ≤ n) as Hl by lia. clear Hn.
  revert l Hl. induction n as [|n IH]; intros l Hl.
  { destruct l; [done|simpl in Hl; lia]. }
  destruct l as [|c [|d l]]; [done..|]. rewrite replace_crlf_cons2.
  destruct ((c =? CR) && (d =? LFc))%N eqn:E.
  - bool_facts. subst. unfold content in *. simpl. apply IH. simpl in Hl. lia.
  - change (content (c :: ?x)) with (content ([c] ++ x)). rewrite !content_app.
    f_equal. apply IH. simpl in Hl. simpl. lia.
Qed.

Lemma replace_cr_content l : content (replace_cr l) = content l.
Proof.
  unfold content, replace_cr. induction l as [|c l IH]; [done|]. simpl.
  destruct (c =? CR)%N eqn:E; simpl; [|by rewrite IH].
  apply N.eqb_eq in E as ->. done.
Qed.

Lemma replace_cr_none l : CR ∉ replace_cr l.
Proof.
  unfold replace_cr. intros (c & Hc & _)%list_elem_of_fmap.
  destruct (c =? CR)%N eqn:E; bool_facts; [by vm_compute in Hc|congruence].
Qed.

Lemma replace_id l : CR ∉ l → replace_cr (replace_crlf l) = l.
Proof.
  intros Hl. assert (replace_crlf l = l) as ->.
  { induction l as [|c [|d l] IH]; [done..|]. rewrite replace_crlf_cons2.
    rewrite (proj2 (N.eqb_neq c CR)) by set_solver. simpl. f_equal. apply IH. set_solver. }
  unfold replace_cr. induction l as [|c l IH]; [done|]. simpl.
  rewrite (proj2 (N.eqb_neq c CR)) by set_solver. f_equal. apply IH. set_solver.
Qed.

(** Lines. *)
Lemma text_lines_content l : concat (map content (text_lines l)) = content l.
Proof.
  induction l as [|c l IH]; [done|]. cbn [text_lines].
  destruct (c =? LFc)%N eqn:Hc.
  - apply N.eqb_eq in Hc as ->. simpl. done.
  - destruct (text_lines l) as [|w ws]; simpl in *;
      unfold content in *; simpl; destruct (is_layout c); simpl; by rewrite <-IH.
Qed.

Lemma text_lines_chars l w c : w ∈ text_lines l → c ∈ w → c ∈ l ∧ c ≠ LFc.
Proof.
  revert w. induction l as [|d l IH]; intros w; [set_solver|]. cbn [text_lines].
  destruct (d =? LFc)%N eqn:Hd; bool_facts.
  - intros [->|Hw]%elem_of_cons Hc; [set_solver|]. destruct (IH w Hw Hc). set_solver.
  - destruct (text_lines l) as [|x xs].
    + intros ->%list_elem_of_singleton ->%list_elem_of_singleton. set_solver.
    + intros [->|Hw]%elem_of_cons Hc.
      * apply elem_of_cons in Hc as [->|Hc]; [set_solver|].
        destruct (IH x ltac:(set_solver) Hc). set_solver.
      * destruct (IH w ltac:(set_solver) Hc). set_solver.
Qed.

Lemma text_lines_app w r : LFc ∉ w → text_lines (w ++ LFc :: r) = w :: text_lines r.
Proof.
  induction w as [|c w IH]; intros Hw; [done|]. simpl.
  rewrite (proj2 (N.eqb_neq c LFc)) by set_solver. rewrite IH by set_solver. done.
Qed.

Lemma text_lines_single w : LFc ∉ w → w ≠ [] → text_lines w = [w].
Proof.
  induction w as [|c w IH]; intros Hw Hne; [done|]. simpl.
  rewrite (proj2 (N.eqb_neq c LFc)) by set_solver. destruct w as [|d w]; [done|].
  rewrite IH by set_solver. done.
Qed.

Lemma text_lines_join ls :
  Forall (λ w, LFc ∉ w) ls → last ls ≠ Some [] → text_lines (join_lines ls) = ls.
Proof.
  induction 1 as [|w ls Hw Hls IH]; intros Hlast; [done|].
  destruct ls as [|w' ls]; [apply text_lines_single; naive_solver|].
  change (join_lines (w :: w' :: ls)) with (w ++ LFc :: join_lines (w' :: ls)).
  rewrite text_lines_app by done. f_equal. by apply IH.
Qed.

Lemma join_lines_content ls : content (join_lines ls) = concat (map content ls).
Proof.
  induction ls as [|w [|w' ls] IH]; [done|simpl; by rewrite app_nil_r|].
  change (join_lines (w :: w' :: ls)) with (w ++ LFc :: join_lines (w' :: ls)).
  rewrite content_app. change (content (LFc :: ?x)) with (content x). by rewrite IH.
Qed.

Lemma elem_of_join_lines c ls : c ∈ join_lines ls → c = LFc ∨ ∃ w, w ∈ ls ∧ c ∈ w.
Proof.
  induction ls as [|w [|w' ls] IH]; [set_solver..|].
  change (join_lines (w :: w' :: ls)) with (w ++ LFc :: join_lines (w' :: ls)).
  intros [?|[->|?%IH]%elem_of_cons]%elem_of_app; [set_solver..|].
  set_solver.
Qed.

(** Blank lines at both ends. *)
Definition trimmed (ls : list (list N)) : Prop := head ls ≠ Some [] ∧ last ls ≠ Some [].

Lemma drop_leading_app ls : ∃ n, ls = replicate n [] ++ drop_leading_empty ls.
Proof.
  induction ls as [|[|c w] ls [n IH]]; [by exists 0| |by exists 0].
  exists (S n). simpl. by f_equal.
Qed.

Lemma drop_leading_head ls : head (drop_leading_empty ls) ≠ Some [].
Proof. by induction ls as [|[|c w] ls IH]. Qed.

Lemma drop_leading_id ls : head ls ≠ Some [] → drop_leading_empty ls = ls.
Proof. by destruct ls as [|[|c w] ls]. Qed.

Lemma drop_trailing_app ls : ∃ n, ls = drop_trailing_empty ls ++ replicate n [].
Proof.
  unfold drop_trailing_empty. destruct (drop_leading_app (reverse ls)) as [n Hn]. exists n.
  apply (inj reverse). by rewrite reverse_app, reverse_involutive, reverse_replicate.
Qed.

Lemma drop_trailing_trimmed ls : head ls ≠ Some [] → trimmed (drop_trailing_empty ls).
Proof.
  intros Hh. split.
  - destruct (drop_trailing_app ls) as [n Hn]. rewrite Hn in Hh.
    by destruct (drop_trailing_empty ls).
  - unfold drop_trailing_empty. rewrite last_reverse. apply drop_leading_head.
Qed.

Lemma drop_trailing_id ls : last ls ≠ Some [] → drop_trailing_empty ls = ls.
Proof.
  intros Hl. unfold drop_trailing_empty.
  rewrite drop_leading_id, reverse_involutive; [done|]. by rewrite head_reverse.
Qed.

Definition trim (ls : list (list N)) := drop_trailing_empty (drop_leading_empty ls).

Lemma trim_trimmed ls : trimmed (trim ls).
Proof. apply drop_trailing_trimmed, drop_leading_head. Qed.

Lemma trim_id ls : trimmed ls → trim ls = ls.
Proof. intros [Hh Hl]. unfold trim. by rewrite drop_leading_id, drop_trailing_id. Qed.

Lemma elem_of_trim w ls : w ∈ trim ls → w ∈ ls.
Proof.
  unfold trim. intros Hw.
  destruct (drop_leading_app ls) as [n ->], (drop_trailing_app (drop_leading_empty ls)) as [m Hm].
  rewrite Hm. set_solver.
Qed.

Lemma trim_content ls : concat (map content (trim ls)) = concat (map content ls).
Proof.
  assert (∀ n, concat (map content (replicate n [])) = []) as Hr by (by intros n; induction n).
  unfold trim. destruct (drop_leading_app ls) as [n Hn].
  destruct (drop_trailing_app (drop_leading_empty ls)) as [m Hm].
  rewrite Hn at 2. rewrite Hm at 2. rewrite !map_app, !concat_app, !Hr. by rewrite app_nil_r.
Qed.

(** The lines [normalise_chars] joins. *)
Definition normal_lines (l : list N) : list (list N) :=
  trim (map collapse_spaces (text_lines (replace_cr (replace_crlf l)))).

Lemma normal_lines_chars l w c : w ∈ normal_lines l → c ∈ w → c ≠ LFc ∧ c ≠ CR.
Proof.
  intros Hw%elem_of_trim Hc. apply list_elem_of_fmap in Hw as (w' & -> & Hw').
  apply elem_of_collapse in Hc as [Hc| ->]; [|done].
  destruct (text_lines_chars _ _ _ Hw' Hc) as [Hin Hlf]. split; [done|].
  intros ->. by apply replace_cr_none in Hin.
Qed.

Lemma normal_lines_collapsed l : map collapse_spaces (normal_lines l) = normal_lines l.
Proof.
  rewrite <-(map_id (normal_lines l)) at 2. apply map_ext_in. intros w Hw.
  rewrite <-list_elem_of_In in Hw. apply elem_of_trim in Hw.
  apply list_elem_of_fmap in Hw as (w' & -> & _). apply collapse_spaces_idemp.
Qed.

(** ** Properties of normalisation *)

(** Text normalisation never launders: it removes and inserts layout characters
    only (space, tab, no-break space, carriage return, line feed), so the sequence of all
    other code points -- zero-width and bidi characters among them -- is what the
    composed text had; its output holds no carriage return and no blank first or last
    line; and normalising a normalised text changes nothing. *)
Theorem normalise_preserves_content l :
  content (normalise_chars l) = content l ∧
  CR ∉ normalise_chars l ∧
  trimmed (text_lines (normalise_chars l)) ∧
  normalise_chars (normalise_chars l) = normalise_chars l.
Proof.
  change (normalise_chars l) with (join_lines (normal_lines l)).
  assert (CR ∉ join_lines (normal_lines l)) as Hcr.
  { intros [?|(w & Hw & Hc)]%elem_of_join_lines; [done|].
    by destruct (normal_lines_chars _ _ _ Hw Hc). }
  assert (text_lines (join_lines (normal_lines l)) = normal_lines l) as Hlines.
  { apply text_lines_join; [|apply trim_trimmed]. apply Forall_forall. intros w Hw Hc.
    by destruct (normal_lines_chars _ _ _ Hw Hc). }
  split; [|split; [done|split]].
  - rewrite join_lines_content. unfold normal_lines. rewrite trim_content, map_map.
    erewrite map_ext; [|apply collapse_spaces_content].
    by rewrite text_lines_content, replace_cr_content, replace_crlf_content.
  - rewrite Hlines. apply trim_trimmed.
  - change (normalise_chars ?x) with
      (join_lines (trim (map collapse_spaces (text_lines (replace_cr (replace_crlf x)))))).
    rewrite replace_id, Hlines, normal_lines_collapsed, trim_id by (done || apply trim_trimmed).
    done.
Qed.

(** ** Object maps stay sorted *)

Lemma obj_insert_elem {A} k (v : A) m e :
  e ∈ obj_insert k v m → e = (k, v) ∨ (e ∈ m ∧ e.1 ≠ k) ∨ e ∈ m.
Proof.
  induction m as [|[k' v'] m IH]; cbn [obj_insert]; [set_solver|].
  case_bool_decide; [set_solver|]. destruct (String.leb k k'); [set_solver|].
  intros [->|?%IH]%elem_of_cons; set_solver.
Qed.

Lemma obj_insert_keys {A} k (v : A) m x :
  x ∈ obj_keys (obj_insert k v m) ↔ x = k ∨ x ∈ obj_keys m.
Proof.
  unfold obj_keys. induction m as [|[k' v'] m IH]; cbn [obj_insert]; [set_solver|].
  case_bool_decide; [set_solver|]. destruct (String.leb k k'); [set_solver|].
  rewrite !fmap_cons, !elem_of_cons, IH. simpl. tauto.
Qed.

Lemma obj_insert_sorted {A} k (v : A) m :
  StronglySorted str_lt (obj_keys m) → StronglySorted str_lt (obj_keys (obj_insert k v m)).
Proof.
  induction m as [|[k' v'] m IH]; cbn [obj_insert]; intros Hs; [repeat constructor|].
  pose proof Hs as Hs'. apply StronglySorted_inv in Hs as [Hs Hk'].
  case_bool_decide as Hkk.
  - subst. by constructor.
  - destruct (String.leb k k') eqn:Hle.
    + apply leb_le in Hle. constructor; [done|]. apply Forall_cons. split; [done|].
      eapply Forall_impl; [exact Hk'|]. intros x Hx. trans k'; done.
    + constructor; [by apply IH|]. apply Forall_forall. intros x Hx.
      change (x ∈ obj_keys (obj_insert k v m)) in Hx.
      apply obj_insert_keys in Hx as [->|Hx].
      * split; [|done]. destruct (total String.le k k') as [Hlt|]; [|done].
        apply leb_le in Hlt. congruence.
      * rewrite Forall_forall in Hk'. by apply Hk'.
Qed.

Lemma obj_get_insert {A} k (v : A) m k' :
  obj_get k' (obj_insert k v m) = if bool_decide (k' = k) then Some v else obj_get k' m.
Proof.
  induction m as [|[j w] m IH]; cbn [obj_insert]; [done|].
  destruct (decide (k = j)) as [->|Hkj].
  { rewrite (bool_decide_eq_true_2 (j = j)) by done. cbn [obj_get]. by case_bool_decide. }
  rewrite (bool_decide_eq_false_2 (k = j)) by done.
  destruct (String.leb k j); [done|]. cbn [obj_get]. rewrite IH.
  repeat case_bool_decide; congruence.
Qed.

Lemma collect_btree_sorted {A} (l : list (string * A)) :
  StronglySorted str_lt (obj_keys (collect_btree l)).
Proof.
  unfold collect_btree.
  enough (∀ m, StronglySorted str_lt (obj_keys m) →
    StronglySorted str_lt (obj_keys (foldl (λ m e, obj_insert e.1 e.2 m) m l))) as H
    by (apply H; constructor).
  induction l as [|e l IH]; intros m Hm; [done|]. simpl. by apply IH, obj_insert_sorted.
Qed.

Lemma collect_btree_elem {A} (l : list (string * A)) e : e ∈ collect_btree l → e ∈ l.
Proof.
  unfold collect_btree.
  enough (∀ m, e ∈ foldl (λ m e, obj_insert e.1 e.2 m) m l → e ∈ m ∨ e ∈ l) as H
    by (intros [?|?]%H; set_solver).
  induction l as [|[k v] l IH]; intros m; simpl; [set_solver|].
  intros [Hin|?]%IH; [|set_solver].
  apply obj_insert_elem in Hin. set_solver.
Qed.

Lemma collect_btree_get {A} (l : list (string * A)) k :
  NoDup l.*1 → obj_get k (collect_btree l) = obj_get k l.
Proof.
  unfold collect_btree.
  enough (∀ m, NoDup l.*1 → (∀ x, x ∈ l.*1 → obj_get x m = None) →
    obj_get k (foldl (λ m e, obj_insert e.1 e.2 m) m l)
    = match obj_get k l with Some v => Some v | None => obj_get k m end) as H.
  { intros Hnd. rewrite H; [|done|done]. by destruct (obj_get k l). }
  induction l as [|[j v] l IH]; intros m Hnd Hm; [done|]. simpl in *.
  apply NoDup_cons in Hnd as [Hj Hnd]. rewrite IH; [|done|].
  - rewrite obj_get_insert. case_bool_decide as Hkj; [|done]. subst.
    destruct (obj_get j l) as [w|] eqn:E; [|done].
    apply obj_get_elem in E; [|done]. destruct Hj. apply list_elem_of_fmap. by exists (j, w).
  - intros x Hx. rewrite obj_get_insert. case_bool_decide; [subst; done|].
    apply Hm. set_solver.
Qed.

Lemma obj_get_map_kv {A B} (f : string → A → B) k (m : list (string * A)) :
  obj_get k (map (λ e, (e.1, f e.1 e.2)) m) = f k <$> obj_get k m.
Proof.
  induction m as [|[k' v] m IH]; [done|]. simpl. case_bool_decide; [by subst|done].
Qed.

Lemma obj_get_in {A} k (v : A) m : obj_get k m = Some v → (k, v) ∈ m.
Proof.
  induction m as [|[k' v'] m IH]; simpl; [done|].
  case_bool_decide; [intros [= ->]; subst; set_solver|]. intros ?%IH. set_solver.
Qed.

(** ** What [canon_value] produces *)

(** JSON nesting depth: a scalar is 0, a container one more than its deepest member. *)
Fixpoint vdepth (v : Value) : N :=
  match v with
  | VArray l => foldr (λ x d, N.max (1 + vdepth x) d) 0%N l
  | VObject m => foldr (λ e d, N.max (1 + vdepth e.2) d) 0%N m
  | _ => 0%N
  end.

Fixpoint no_null_members (v : Value) : bool :=
  match v with
  | VArray l => forallb no_null_members l
  | VObject m => forallb (λ e, negb (is_null e.2) && no_null_members e.2) m
  | _ => true
  end.

Section CanonLemmas.
Context `{SerdeJson, Nfc}.
Variable limits : Limits.

(** The shape of a canonicalised value at a depth. *)
Definition canonical_at (d : N) (w : Value) : Prop :=
  value_wf w = true ∧ no_null_members w = true ∧ (d + vdepth w ≤ max_depth limits)%N.

Lemma elem_of_sort_by_canonical x l : x ∈ sort_by_canonical l ↔ x ∈ l.
Proof.
  unfold sort_by_canonical. rewrite merge_sort_Permutation.
  induction l as [|y l IH]; [done|]. cbn [map]. rewrite fmap_cons, !elem_of_cons, IH. done.
Qed.

Lemma canonical_array d l :
  (d ≤ max_depth limits)%N → Forall (canonical_at (d + 1)) l → canonical_at d (VArray l).
Proof.
  unfold canonical_at. intros Hd Hl. cbn [value_wf no_null_members vdepth].
  induction Hl as [|x l (Hw & Hn & Hx) Hl (IHw & IHn & IHd)]; simpl.
  - repeat split; lia.
  - rewrite Hw, Hn, IHw, IHn. repeat split. lia.
Qed.

Lemma canonical_object d m :
  (d ≤ max_depth limits)%N → StronglySorted str_lt (obj_keys m) →
  Forall (λ e, canonical_at (d + 1) e.2 ∧ is_null e.2 = false) m → canonical_at d (VObject m).
Proof.
  unfold canonical_at. intros Hd Hs%keys_increasing_sorted Hm.
  cbn [value_wf no_null_members vdepth]. rewrite Hs. clear Hs.
  induction Hm as [|x m [(Hw & Hn & Hx) Hx0] Hm (IHw & IHn & IHd)]; simpl.
  - repeat split; lia.
  - simpl in IHw. rewrite Hw, Hn, Hx0, IHw, IHn. repeat split. lia.
Qed.

Lemma canon_value_null v key d : canon_value limits v key d = Ok VNull → v = VNull.
Proof.
  destruct v; simpl; intros [_ E]%guard_err_ok; try done.
  - apply guard_err_ok in E as [_ E]. done.
  - apply result_bind_ok in E as (? & _ & E). done.
  - apply result_bind_ok in E as (? & _ & E). done.
Qed.

Lemma canon_value_canonical v key d w :
  value_wf v = true → canon_value limits v key d = Ok w → canonical_at d w.
Proof.
  revert key d w. induction v as [|b|n|s|l IH|m IH] using Value_ind'; intros key d w Hwf Hc.
  1-4: cbn [canon_value] in Hc; apply guard_err_ok in Hc as [Hd Hc]; bool_facts.
  1-3: injection Hc as <-; split; [done|split; [done|simpl; lia]].
  - apply guard_err_ok in Hc as [_ Hc]. injection Hc as <-. split; [done|split; [done|simpl; lia]].
  - cbn [canon_value] in Hc. apply guard_err_ok in Hc as [Hd Hc]; bool_facts.
    apply result_bind_ok in Hc as (out & Hout & [= <-]).
    cbn [value_wf] in Hwf. rewrite forallb_True in Hwf. rewrite Forall_forall in IH.
    assert (Forall (canonical_at (d + 1)) out) as Hcan.
    { apply Forall_forall. intros x Hx.
      destruct (mapR_elem _ _ _ _ Hout Hx) as (y & Hy & Hxy). eauto. }
    apply canonical_array; [done|].
    destruct (match key with Some k => _ | None => _ end); [|done].
    rewrite Forall_forall in Hcan |- *. intros x. rewrite elem_of_sort_by_canonical. auto.
  - cbn [canon_value] in Hc. apply guard_err_ok in Hc as [Hd Hc]; bool_facts.
    apply result_bind_ok in Hc as (out & Hout & [= <-]).
    cbn [value_wf] in Hwf. bool_facts. rewrite forallb_True in H2. rewrite Forall_forall in IH.
    enough (StronglySorted str_lt (obj_keys out) ∧
      Forall (λ e, canonical_at (d + 1) e.2 ∧ is_null e.2 = false) out) as [? ?]
      by (by apply canonical_object).
    revert Hout. apply (foldR_inv _ (λ out, StronglySorted str_lt (obj_keys out) ∧
      Forall (λ e, canonical_at (d + 1) e.2 ∧ is_null e.2 = false) out)).
    2:{ split; constructor. }
    intros acc k acc' _ [Hs Hall] Hstep.
    rewrite (obj_get_map_kv (λ k x, (is_null x, canon_value limits x (Some k) (d + 1)))) in Hstep.
    destruct (obj_get k m) as [x|] eqn:Hx; simpl in Hstep; [|by injection Hstep as <-].
    apply obj_get_in in Hx. destruct (is_null x) eqn:Hnull; [by injection Hstep as <-|].
    apply result_bind_ok in Hstep as (y & Hy & [= <-]).
    split; [by apply obj_insert_sorted|]. apply Forall_forall. intros e He.
    rewrite Forall_forall in Hall. apply obj_insert_elem in He as [->|[[? _]|?]]; [|by auto..].
    split; [exact (IH _ Hx _ _ _ (H2 _ Hx) Hy)|].
    destruct y; try done. apply canon_value_null in Hy. by subst.
Qed.
End CanonLemmas.

(** ** What extraction produces *)

Definition name_ok (name : string) : Prop :=
  name ≠ "" ∧ existsb (λ c, is_control c || is_whitespace c) (chars name) = false.

Lemma name_ok_no_nul name : name_ok name → nul_byte ∉ bytes name.
Proof.
  intros [_ Hc] Hin. rewrite existsb_False in Hc.
  by specialize (Hc 0%N (utf8_decode_keeps_ascii _ 0%N eq_refl Hin)).
Qed.

Lemma item_name_ok obj field limits name :
  item_name obj field limits = Ok name →
  name_ok name ∧ (str_len name ≤ max_name_bytes limits)%N ∧ obj_get field obj = Some (VString name).
Proof.
  unfold item_name. intros (raw & Hraw & H)%result_bind_ok.
  apply guard_err_ok in H as [Hne H]. apply guard_err_ok in H as [Hlen H].
  apply guard_err_ok in H as [Hc H]. injection H as <-. bool_facts.
  apply ok_or_ok in Hraw. destruct (obj_get field obj) as [v|]; [|done].
  destruct v; simplify_eq/=. done.
Qed.

Lemma project_ext o o' fields :
  (∀ f, f ∈ fields → obj_get f o = obj_get f o') → project o fields = project o' fields.
Proof.
  intros Hf. unfold project. generalize (@nil (string * Value)) as out.
  induction fields as [|f fields IH]; intros out; [done|]. simpl.
  rewrite (Hf f) by set_solver. apply IH. set_solver.
Qed.

Lemma project_wf o fields :
  value_wf (VObject o) = true → value_wf (VObject (project o fields)) = true.
Proof.
  cbn [value_wf]. intros [_ Ho]%andb_true_iff. rewrite forallb_True in Ho.
  enough (∀ out, StronglySorted str_lt (obj_keys out) → (∀ e, e ∈ out → value_wf e.2 = true) →
    let r := foldl (λ out field, match obj_get field o with
                      | Some value => if is_null value then out else obj_insert field value out
                      | None => out end) out fields in
    StronglySorted str_lt (obj_keys r) ∧ (∀ e, e ∈ r → value_wf e.2 = true)) as H.
  { destruct (H []) as [Hs Hw]; [constructor|set_solver|].
    apply andb_true_iff. split; [by apply keys_increasing_sorted|by apply forallb_True]. }
  induction fields as [|f fields IH]; intros out Hs Hw; [done|]. simpl.
  destruct (obj_get f o) as [v|] eqn:Hv; [|by apply IH].
  destruct (is_null v); [by apply IH|]. apply IH; [by apply obj_insert_sorted|].
  intros e He. apply obj_insert_elem in He as [->|[[? _]|?]]; [|by apply Hw..].
  apply obj_get_in in Hv. exact (Ho _ Hv).
Qed.

Lemma value_wf_member k v m : value_wf (VObject m) = true → obj_get k m = Some v → value_wf v = true.
Proof.
  cbn [value_wf]. intros [_ Hm]%andb_true_iff Hv%obj_get_in. rewrite forallb_True in Hm.
  exact (Hm _ Hv).
Qed.

Lemma obj_insert_wf k v m :
  value_wf (VObject m) = true → value_wf v = true → value_wf (VObject (obj_insert k v m)) = true.
Proof.
  cbn [value_wf]. intros [Hs Hm]%andb_true_iff Hv. apply andb_true_iff. split.
  - by apply keys_increasing_sorted, obj_insert_sorted, keys_increasing_sorted.
  - rewrite forallb_True in Hm |- *. intros e He.
    apply obj_insert_elem in He as [->|[[? _]|?]]; auto.
Qed.

Section Extraction.
Context `{SerdeJson, Nfc}.
Variable limits : Limits.

Definition item_ok (wf : bool) (e : string * Value) : Prop :=
  name_ok e.1 ∧ (wf = true → canonical_at limits 0 e.2).

(** The loop invariant of both extractors. *)
Definition items_inv (wf : bool) (st : list (string * Value) * list string) : Prop :=
  NoDup st.1.*1 ∧ (∀ n, n ∈ st.2 ↔ n ∈ st.1.*1) ∧ Forall (item_ok wf) st.1.

Lemma items_inv_step wf out seen name v :
  items_inv wf (out, seen) → str_in name seen = false → item_ok wf (name, v) →
  items_inv wf (out ++ [(name, v)], name :: seen).
Proof.
  intros (Hnd & Hseen & Hall) Hnew Hok. unfold str_in in Hnew. bool_facts. simpl in *.
  split; [|split]; simpl.
  - rewrite fmap_app. apply NoDup_app. split; [done|]. split; [|apply NoDup_singleton].
    intros x Hx ->%list_elem_of_singleton. by apply Hnew, Hseen.
  - intros n. rewrite fmap_app. rewrite elem_of_cons, elem_of_app, Hseen. simpl.
    rewrite list_elem_of_singleton. tauto.
  - apply Forall_app. by split; [|constructor].
Qed.

Lemma mcp_projected_wf obj :
  value_wf (VObject obj) = true → value_wf (VObject (mcp_projected obj)) = true.
Proof.
  intros Hwf. unfold mcp_projected. cbv zeta.
  destruct (obj_get "annotations" obj) as [a|] eqn:Ha; [|by apply project_wf].
  destruct (as_object a) as [am|] eqn:Ham; [|by apply project_wf].
  case_bool_decide; [by apply project_wf|]. destruct a; try discriminate. injection Ham as ->.
  apply obj_insert_wf; [by apply project_wf|]. apply project_wf. by eapply value_wf_member.
Qed.

Lemma mcp_item_inv wf acc tool acc' :
  (wf = true → value_wf tool = true) →
  items_inv wf acc → mcp_item limits acc tool = Ok acc' → items_inv wf acc'.
Proof.
  intros Hwf Hinv. destruct acc as [out seen]. unfold mcp_item.
  intros (obj & Hobj%ok_or_ok & H1)%result_bind_ok.
  apply result_bind_ok in H1 as (name & Hname & H1). apply guard_err_ok in H1 as [Hnew H1].
  apply result_bind_ok in H1 as (v & Hv & [= <-]).
  destruct tool as [| | | | |m]; try discriminate. injection Hobj as <-.
  apply item_name_ok in Hname as (Hn & _ & _).
  apply items_inv_step; [done|done|]. split; [done|]. intros Hw. specialize (Hwf Hw).
  eapply canon_value_canonical; [by apply mcp_projected_wf|exact Hv].
Qed.

Lemma a2a_skill_inv wf acc skill acc' :
  (wf = true → value_wf skill = true) →
  items_inv wf acc → a2a_skill limits acc skill = Ok acc' → items_inv wf acc'.
Proof.
  intros Hwf Hinv. destruct acc as [out seen]. unfold a2a_skill.
  intros (obj & Hobj%ok_or_ok & H1)%result_bind_ok.
  apply result_bind_ok in H1 as (name & Hname & H1). apply guard_err_ok in H1 as [Hnew H1].
  apply result_bind_ok in H1 as (v & Hv & [= <-]).
  destruct skill as [| | | | |m]; try discriminate. injection Hobj as <-.
  assert (name_ok name) as Hn
    by (destruct (obj_contains_key "id" m); by apply item_name_ok in Hname as (? & _)).
  apply items_inv_step; [done|done|]. split; [done|]. intros Hw. specialize (Hwf Hw).
  eapply canon_value_canonical; [|exact Hv]. by apply project_wf.
Qed.

Lemma items_inv_nil wf : items_inv wf ([], []).
Proof. split; [constructor|]. split; [done|constructor]. Qed.

(** Names are distinct and legal; on a well-formed surface every item and the meta
    object are canonical. *)
Lemma extract_ok wf kind raw meta items :
  (wf = true → value_wf raw = true) →
  extract kind raw limits = Ok (meta, items) →
  NoDup items.*1 ∧ Forall (item_ok wf) items ∧ (wf = true → value_wf meta = true).
Proof.
  intros Hwf. unfold extract. destruct kind.
  - unfold mcp_items. intros (its & H1 & [= <- <-])%result_bind_ok.
    apply result_bind_ok in H1 as (tools & Ht & H1).
    apply result_bind_ok in H1 as ([out seen] & Hf & [= <-]).
    assert (items_inv wf (out, seen)) as (Hnd & _ & Hall); [|done].
    revert Hf. apply foldR_inv; [|apply items_inv_nil]. intros acc t acc' Hin.
    apply mcp_item_inv. intros Hw. specialize (Hwf Hw). unfold mcp_tools_of in Ht.
    destruct raw as [| | | |l|m]; try discriminate.
    + injection Ht as <-. cbn [value_wf] in Hwf. rewrite forallb_True in Hwf. auto.
    + apply ok_or_ok in Ht. destruct (obj_get "tools" m) as [v|] eqn:Hv; [|done].
      destruct v as [| | | |l|]; try discriminate. injection Ht as <-.
      apply (value_wf_member _ _ _ Hwf) in Hv.
      simpl in Hv. rewrite forallb_True in Hv. auto.
  - unfold a2a_card. intros (obj & Hobj%ok_or_ok & H1)%result_bind_ok.
    apply result_bind_ok in H1 as (mt & Hmt & H1).
    apply result_bind_ok in H1 as (skills & Hs & H1).
    apply result_bind_ok in H1 as ([out seen] & Hf & [= <- <-]).
    destruct raw as [| | | | |m]; try discriminate. injection Hobj as <-.
    assert (items_inv wf (out, seen)) as (Hnd & _ & Hall).
    { revert Hf. apply foldR_inv; [|apply items_inv_nil]. intros acc t acc' Hin.
      apply a2a_skill_inv. intros Hw. specialize (Hwf Hw).
      destruct (obj_get "skills" m) as [v|] eqn:Hv;
        [|injection Hs as <-; by apply not_elem_of_nil in Hin].
      destruct v as [| | | |l|]; try discriminate. injection Hs as <-. apply (value_wf_member _ _ _ Hwf) in Hv.
      simpl in Hv. rewrite forallb_True in Hv. auto. }
    split; [done|]. split; [done|]. intros Hw. eapply canon_value_canonical; [|exact Hmt].
    by apply project_wf, Hwf.
Qed.
End Extraction.

(** ** What a pin records *)

Section PinLemmas.
Context `{SerdeJson, Nfc, Sha256}.

(** The canonical item a surface declares under a name. *)
Definition item_of (kind : SurfaceKind) (raw : Value) (limits : Limits) (name : string)
    : option Value :=
  match extract kind raw limits with Ok (_, items) => obj_get name items | Err _ => None end.

(** The part of a surface its manifest hash covers: the meta object and the canonical
    items in the order of their names. *)
Definition manifest_of (kind : SurfaceKind) (raw : Value) (limits : Limits)
    : option (Value * list Value) :=
  match extract kind raw limits with
  | Ok (meta, items) => Some (meta, (collect_btree items).*2)
  | Err _ => None
  end.

Lemma canonicalise_ok kind e raw limits cs :
  canonicalise kind e raw limits = Ok cs →
  ∃ meta items, extract kind raw limits = Ok (meta, items) ∧ (len items ≤ max_items limits)%N ∧
    cs = mkCanonicalSurface
      (canonical_json (surface_document kind e meta (collect_btree items)))
      (map (λ e, (e.1, canonical_json e.2)) (collect_btree items)).
Proof.
  unfold canonicalise. intros [_ H2]%guard_err_ok.
  apply result_bind_ok in H2 as ([meta items] & Hx & H2). apply guard_err_ok in H2 as [Hl H2].
  bool_facts. injection H2 as <-. eauto 10.
Qed.

Lemma pin_ok kind e raw limits now p :
  pin kind e raw limits now = Ok p →
  ∃ meta items, extract kind raw limits = Ok (meta, items) ∧ (len items ≤ max_items limits)%N ∧
    pin_alg p = PIN_ALG ∧
    pin_manifest p = sha256_tagged (canonical_json (surface_document kind e meta (collect_btree items))) ∧
    ∀ n, pin_items p !! n = (λ v, sha256_tagged (canonical_json v)) <$> item_of kind raw limits n.
Proof.
  unfold pin. intros (cs & Hcs & [= <-])%result_bind_ok.
  apply canonicalise_ok in Hcs as (meta & items & Hx & Hlen & ->).
  exists meta, items. repeat (split; [done|]). intros n. simpl. unfold item_hashes. simpl.
  assert (∀ (l : list (string * Value)),
     (list_to_map (map (λ e, (e.1, sha256_tagged e.2))
       (map (λ e, (e.1, canonical_json e.2)) l)) : gmap string string) !! n
     = (λ v, sha256_tagged (canonical_json v)) <$> obj_get n l) as Hmap.
  { induction l as [|[k v] l IH]; [done|]. cbn [map list_to_map obj_get]. simpl.
    case_bool_decide as Hk; [subst; by rewrite lookup_insert_eq|].
    rewrite lookup_insert_ne by done. exact IH. }
  rewrite Hmap. unfold item_of. rewrite Hx. f_equal. apply collect_btree_get.
  by destruct (extract_ok limits false _ _ _ _ ltac:(done) Hx).
Qed.

Lemma surface_document_wf limits kind e meta items :
  value_wf meta = true → Forall (item_ok limits true) items →
  value_wf (surface_document kind e meta (collect_btree items)) = true.
Proof.
  intros Hm Hi. unfold surface_document. repeat apply obj_insert_wf; try done.
  cbn [value_wf]. apply forallb_True. intros v Hv.
  apply list_elem_of_fmap in Hv as ([k w] & -> & Hin%collect_btree_elem).
  rewrite Forall_forall in Hi. by apply (Hi _ Hin).
Qed.

Lemma surface_document_inj kind kind' e e' meta meta' l l' :
  surface_document kind e meta l = surface_document kind' e' meta' l' →
  kind = kind' ∧ e = e' ∧ meta = meta' ∧ l.*2 = l'.*2.
Proof.
  destruct e, e', kind, kind'; cbn; intros [=]; subst; done.
Qed.

Lemma sha256_tagged_inj x y : sha256_tagged x = sha256_tagged y → x = y ∨ sha256_collision.
Proof.
  unfold sha256_tagged. intros E. apply (inj _) in E.
  destruct (decide (x = y)); [by left|right; by exists x, y].
Qed.
End PinLemmas.

(** ** Properties of pins *)

(** C39: every pin this module produces satisfies what the contracted-surface digest
    relies on: it carries the [wcs1] algorithm tag, its names hold no separator byte and
    its hashes no line feed, it names exactly the declared items, at most the configured
    number of them, and each hash is the digest of that item's canonical projection. *)
Theorem pin_well_formed `{SerdeJson, Nfc, Sha256, !Sha256Hex} kind e raw limits now p :
  pin kind e raw limits now = Ok p →
  pin_alg p = PIN_ALG ∧ pin_wf p ∧
  (N.of_nat (size (pin_items p)) ≤ max_items limits)%N ∧
  ∀ n, pin_items p !! n = (λ v, sha256_tagged (canonical_json v)) <$> item_of kind raw limits n.
Proof.
  intros (meta & items & Hx & Hlen & Halg & _ & Hitems)%pin_ok.
  destruct (extract_ok limits false _ _ _ _ ltac:(done) Hx) as (Hnd & Hok & _).
  split; [done|]. split; [|split; [|done]].
  - split; [rewrite Halg; decide_now|]. intros k h Hk. rewrite Hitems in Hk.
    apply fmap_Some in Hk as (v & Hv & ->). unfold item_of in Hv. rewrite Hx in Hv.
    apply obj_get_in in Hv. rewrite Forall_forall in Hok. split.
    + apply name_ok_no_nul, (Hok _ Hv).
    + unfold sha256_tagged. cbn [snd]. rewrite bytes_app. intros [Hin|Hin]%elem_of_app.
      * revert Hin. decide_now.
      * apply sha256_hex_digits in Hin. done.
  - etrans; [|exact Hlen]. unfold len. enough (size (pin_items p) ≤ length items) by lia.
    rewrite <-(length_fmap fst items), <-(size_list_to_set (C:=gset string) items.*1) by done.
    rewrite <-size_dom. apply subseteq_size. intros n [h Hn]%elem_of_dom.
    rewrite Hitems in Hn. apply fmap_Some in Hn as (v & Hv & _). unfold item_of in Hv.
    rewrite Hx in Hv. apply obj_get_in in Hv. apply elem_of_list_to_set, list_elem_of_fmap.
    by exists (n, v).
Qed.

(** C32: a pin binds the surface: two pins with one manifest hash come from the same
    kind and the same entity and declare the same meta object and the same canonical
    items, and an item hash they share stands for one canonical item -- or a SHA-256
    collision is at hand. *)
Theorem pin_binds_surface `{SerdeJson, !SerdeJsonLaws, Nfc, Sha256}
    kind kind' e e' raw raw' limits limits' now now' p p' :
  value_wf raw = true → value_wf raw' = true →
  pin kind e raw limits now = Ok p → pin kind' e' raw' limits' now' = Ok p' →
  (pin_manifest p = pin_manifest p' →
     (kind = kind' ∧ e = e' ∧ is_Some (manifest_of kind raw limits) ∧
      manifest_of kind raw limits = manifest_of kind' raw' limits') ∨ sha256_collision) ∧
  (∀ n n' h, pin_items p !! n = Some h → pin_items p' !! n' = Some h →
     (is_Some (item_of kind raw limits n) ∧
      item_of kind raw limits n = item_of kind' raw' limits' n') ∨ sha256_collision).
Proof.
  intros Hwf Hwf' (meta & items & Hx & _ & _ & Hman & Hits)%pin_ok
    (meta' & items' & Hx' & _ & _ & Hman' & Hits')%pin_ok.
  destruct (extract_ok limits true _ _ _ _ (λ _, Hwf) Hx) as (_ & Hok & Hm).
  destruct (extract_ok limits' true _ _ _ _ (λ _, Hwf') Hx') as (_ & Hok' & Hm').
  split.
  - rewrite Hman, Hman'. intros [Hd|?]%sha256_tagged_inj; [left|by right].
    apply canonical_json_inj in Hd; [|by eapply surface_document_wf; [apply Hm|]
                                     |by eapply surface_document_wf; [apply Hm'|]].
    apply surface_document_inj in Hd as (-> & -> & -> & Hl).
    unfold manifest_of. rewrite Hx, Hx'. repeat split; [by eexists|]. by rewrite Hl.
  - intros n n' h. rewrite Hits, Hits'. intros (v & Hv & ->)%fmap_Some (v' & Hv' & Hd)%fmap_Some.
    apply sha256_tagged_inj in Hd as [Hd|?]; [left|by right].
    rewrite Hv, Hv'. split; [by eexists|]. f_equal.
    unfold item_of in Hv, Hv'. rewrite Hx in Hv. rewrite Hx' in Hv'.
    apply obj_get_in in Hv, Hv'. rewrite Forall_forall in Hok, Hok'.
    apply canonical_json_inj; [by apply (Hok _ Hv)|by apply (Hok' _ Hv')|done].
Qed.

(** ** Fields outside the allowlists *)

(** What the pin reads of a tool's annotations. *)
Definition annotations_view (obj : Map) : option (list (option Value)) :=
  match obj_get "annotations" obj with
  | Some v => match as_object v with
              | Some a => Some (map (λ f, obj_get f a) MCP_ANNOTATION_FIELDS)
              | None => None
              end
  | None => None
  end.

Definition same_reading (t t' : Value) : Prop :=
  ∃ o o', t = VObject o ∧ t' = VObject o' ∧
    map (λ f, obj_get f o) MCP_TOOL_FIELDS = map (λ f, obj_get f o') MCP_TOOL_FIELDS ∧
    annotations_view o = annotations_view o'.

Lemma map_eq_fields (g h : string → option Value) fields :
  map g fields = map h fields → ∀ f, f ∈ fields → g f = h f.
Proof.
  induction fields as [|x fields IH]; simpl; [set_solver|]. intros [= Hx Hr] f Hf.
  apply elem_of_cons in Hf as [->|Hf]; [done|by apply IH].
Qed.

Lemma mcp_projected_same o o' :
  map (λ f, obj_get f o) MCP_TOOL_FIELDS = map (λ f, obj_get f o') MCP_TOOL_FIELDS →
  annotations_view o = annotations_view o' → mcp_projected o = mcp_projected o'.
Proof.
  intros Hf Ha. unfold mcp_projected, annotations_view in *. cbv zeta.
  rewrite (project_ext o o') by (by apply map_eq_fields).
  generalize (project o' MCP_TOOL_FIELDS) as pr. intros pr. clear Hf.
  destruct (obj_get "annotations" o) as [v|], (obj_get "annotations" o') as [v'|].
  - destruct (as_object v) as [a|], (as_object v') as [a'|];
      [|discriminate|discriminate|reflexivity].
    injection Ha as Ha. rewrite (project_ext a a'); [reflexivity|].
    apply map_eq_fields. simpl. congruence.
  - destruct (as_object v) as [a|]; [discriminate|reflexivity].
  - destruct (as_object v') as [a|]; [discriminate|reflexivity].
  - reflexivity.
Qed.

Lemma mcp_item_same `{SerdeJson, Nfc} limits acc t t' :
  same_reading t t' → mcp_item limits acc t = mcp_item limits acc t'.
Proof.
  intros (o & o' & -> & -> & Hf & Ha). unfold mcp_item. destruct acc as [out seen].
  cbn [as_object ok_or result_bind]. unfold item_name.
  rewrite (map_eq_fields _ _ _ Hf "name") by decide_now.
  by rewrite (mcp_projected_same o o').
Qed.

(** Fields outside the allowlists cannot move a pin: two tool lists that agree, tool
    by tool, on the pinned fields and on the pinned annotations get the same pin (or the
    same refusal), whatever else they carry, as long as both are within the size limit. *)
Theorem pin_ignores_vendor_fields `{SerdeJson, Nfc, Sha256} e raw raw' tools tools' limits now :
  mcp_tools_of raw = Ok tools → mcp_tools_of raw' = Ok tools' →
  Forall2 same_reading tools tools' →
  (str_len (to_string raw) ≤ max_bytes limits)%N →
  (str_len (to_string raw') ≤ max_bytes limits)%N →
  pin McpTools e raw limits now = pin McpTools e raw' limits now.
Proof.
  intros Ht Ht' Hall Hl Hl'. unfold pin, canonicalise.
  rewrite (proj2 (N.ltb_ge _ _) Hl), (proj2 (N.ltb_ge _ _) Hl').
  enough (mcp_items limits raw = mcp_items limits raw') as Heq
    by (unfold extract; by rewrite Heq).
  unfold mcp_items. rewrite Ht, Ht'. cbn [result_bind]. f_equal.
  generalize (@nil (string * Value), @nil string) as acc. clear -Hall.
  induction Hall as [|t t' ts ts' Hxy _ IH]; intros acc; [done|]. simpl.
  rewrite (mcp_item_same _ _ t t' Hxy). destruct (mcp_item _ _ _); simpl; [apply IH|done].
Qed.

(** ** The form of a name *)

Definition named_tool (name : string) : Value := VArray [VObject [("name", VString name)]].

Lemma mcp_items_named `{SerdeJson, Nfc} limits name :
  mcp_items limits (named_tool name) =
  (let? _ := item_name [("name", VString name)] "name" limits in
   let? v := canon_value limits (VObject [("name", VString name)]) None 0 in
   Ok [(name, v)]).
Proof.
  unfold mcp_items, named_tool. cbn [mcp_tools_of result_bind foldR mcp_item as_object ok_or].
  destruct (item_name [("name", VString name)] "name" limits) as [n|c] eqn:Hn; [|done].
  apply item_name_ok in Hn as (_ & _ & [= ->]). cbn [result_bind guard_err str_in].
  change (mcp_projected [("name", VString n)]) with [("name", VString n)].
  by destruct (canon_value limits _ None 0).
Qed.

(** The manifest hash does not see the byte form of a name: a tool renamed to a
    canonically equivalent Unicode spelling keeps the manifest hash (the name inside the
    document is text-normalised like any other string), although the pinned item map,
    which is keyed by the raw name, does change. *)
Theorem manifest_blind_to_name_form `{SerdeJson, Nfc, Sha256} e limits now a b p q :
  a ≠ b → nfc (chars a) = nfc (chars b) →
  pin McpTools e (named_tool a) limits now = Ok p →
  pin McpTools e (named_tool b) limits now = Ok q →
  pin_manifest p = pin_manifest q ∧ pin_items p ≠ pin_items q.
Proof.
  intros Hab Hnfc Hp Hq.
  apply pin_ok in Hp as (m & its & Hx & _ & _ & Hm & Hi).
  apply pin_ok in Hq as (m' & its' & Hx' & _ & _ & Hm' & Hi').
  assert (∀ n m its, extract McpTools (named_tool n) limits = Ok (m, its) →
    m = VObject [] ∧ its = [(n, VObject [("name", VString (normalise_text n))])]) as Hshape.
  { clear. intros n m its. unfold extract. rewrite mcp_items_named.
    intros (x & (? & _ & (v & Hv & [= <-])%result_bind_ok)%result_bind_ok & [= <- <-])%result_bind_ok.
    split; [done|]. do 2 f_equal. cbn in Hv. apply guard_err_ok in Hv as [_ Hv].
    apply result_bind_ok in Hv as (y & Hy & [= <-]).
    apply result_bind_ok in Hy as (z & Hz & [= <-]).
    apply result_bind_ok in Hz as (w & Hw & [= <-]).
    apply guard_err_ok in Hw as [_ Hw]. apply guard_err_ok in Hw as [_ [= <-]]. done. }
  assert (normalise_text a = normalise_text b) as Hnt by (unfold normalise_text; by rewrite Hnfc).
  unfold item_of in Hi, Hi'. rewrite Hx in Hi. rewrite Hx' in Hi'.
  apply Hshape in Hx as [-> ->], Hx' as [-> ->]. split.
  - rewrite Hm, Hm'. unfold collect_btree. simpl. by rewrite Hnt.
  - intros E. specialize (Hi a). specialize (Hi' a). rewrite E, Hi' in Hi. cbn in Hi.
    rewrite (bool_decide_eq_true_2 (a = a)), (bool_decide_eq_false_2 (a = b)) in Hi by done. done.
Qed.

(** ** Concrete surfaces *)

(** A fragment of NFC: [e] followed by U+0301 composes to U+00E9. *)
Module TestNfc.
Fixpoint compose (l : list N) : list N :=
  match l with
  | [] => []
  | c :: r => match r with
              | d :: r' => if ((c =? 101) && (d =? 769))%N then 233%N :: compose r' else c :: compose r
              | [] => [c]
              end
  end.
#[export] Instance composer : Nfc := compose.
End TestNfc.

Module SurfaceExamples.
Import TestPrinter TestSha TestNfc.

Definition server : EntityId := mkEntityId "spiffe://bank/mcp".
Definition tool (extra : string) : Value :=
  VObject [("_meta", VString extra); ("description", VString "reads  a file"); ("name", VString "read")].
Definition surface (extra : string) : Value := VObject [("tools", VArray [tool extra])].

Definition get_ok {A E} (d : A) (r : Result A E) : A := match r with Ok a => a | Err _ => d end.
Definition surface_pin (extra : string) : Pin :=
  get_ok (Pin_empty 0) (pin McpTools server (surface extra) Limits_default 5).

Lemma surface_pin_ok extra :
  pin McpTools server (surface extra) Limits_default 5 = Ok (surface_pin extra).
Proof. vm_compute. reflexivity. Qed.

Lemma pin_well_formed_witness : pin_wf (surface_pin "x").
Proof.
  apply (pin_well_formed McpTools server (surface "x") Limits_default 5). apply surface_pin_ok.
Defined.

Lemma pin_binds_surface_witness :
  manifest_of McpTools (surface "x") Limits_default
  = manifest_of McpTools (surface "y") Limits_default ∨ sha256_collision.
Proof.
  destruct (pin_binds_surface McpTools McpTools server server (surface "x") (surface "y")
    Limits_default Limits_default 5 5 (surface_pin "x") (surface_pin "y")
    ltac:(vm_compute; reflexivity) ltac:(vm_compute; reflexivity)
    (surface_pin_ok "x") (surface_pin_ok "y")) as [Hm _].
  destruct Hm as [(_ & _ & _ & Hm)|Hc]; [vm_compute; reflexivity|left; exact Hm|right; exact Hc].
Defined.

Lemma pin_ignores_vendor_fields_witness :
  pin McpTools server (surface "x") Limits_default 5
  = pin McpTools server (surface "y") Limits_default 5.
Proof.
  apply (pin_ignores_vendor_fields server (surface "x") (surface "y") [tool "x"] [tool "y"]).
  - reflexivity.
  - reflexivity.
  - constructor; [|constructor]. do 2 eexists. split; [reflexivity|]. split; [reflexivity|].
    split; reflexivity.
  - vm_compute. discriminate.
  - vm_compute. discriminate.
Defined.

(** The two spellings of "é": U+00E9, and "e" with a combining acute. *)
Definition composed : string := of_bytes [99; 195; 169]%N.
Definition decomposed : string := of_bytes [99; 101; 204; 129]%N.

Lemma manifest_blind_to_name_form_witness :
  ∃ p q, pin McpTools server (named_tool composed) Limits_default 5 = Ok p ∧
    pin McpTools server (named_tool decomposed) Limits_default 5 = Ok q ∧
    pin_manifest p = pin_manifest q ∧ pin_items p ≠ pin_items q.
Proof.
  exists (get_ok (Pin_empty 0) (pin McpTools server (named_tool composed) Limits_default 5)),
    (get_ok (Pin_empty 0) (pin McpTools server (named_tool decomposed) Limits_default 5)).
  split; [vm_compute; reflexivity|]. split; [vm_compute; reflexivity|].
  apply (manifest_blind_to_name_form server Limits_default 5 composed decomposed);
    [discriminate|vm_compute; reflexivity..].
Defined.
End SurfaceExamples.
