(* ===== verification/Contract.v ===== *)
(** * Contract: surface, terms and approvals of a connection contract
    ([crates/wc-core/src/contract.rs], the data half)

    [Terms_intersect] is the narrowing algebra every issuance folds its sources with.
    Lists are Rust [Vec<String>]s; the spend ceiling is an IEEE double, kept as Stdlib's
    [spec_float] with [f64::min] written out over [SFcompare].  [DateTime]s do not occur:
    all times are epoch seconds. *)

From Stdlib Require Import SpecFloat Btauto.
From S2P Require Import Prelude Text Errors Model Json.

(** ** Surface *)

Record Surface := mkSurface {
  surf_tools : list string;
  surf_skills : list string;
  surf_resources : list string
}.
#[global] Instance Surface_eq_dec : EqDecision Surface.
Proof. solve_decision. Defined.

Definition Surface_default : Surface := mkSurface [] [] [].

Definition Surface_items (s : Surface) : list string :=
  sort_dedup (surf_tools s ++ surf_skills s).

Definition Surface_is_empty (s : Surface) : bool :=
  bool_decide (surf_tools s = []) && bool_decide (surf_skills s = [])
  && bool_decide (surf_resources s = []).

Definition is_subset_of (s other : Surface) : bool :=
  forallb (λ t, str_in t (surf_tools other)) (surf_tools s)
  && forallb (λ t, str_in t (surf_skills other)) (surf_skills s)
  && forallb (λ t, str_in t (surf_resources other)) (surf_resources s).

(** ** Terms *)

Record Delegation := mkDelegation { deleg_max_depth : N; deleg_attenuation : string }.
#[global] Instance Delegation_eq_dec : EqDecision Delegation.
Proof. solve_decision. Defined.
Definition Delegation_default : Delegation := mkDelegation 1 "monotonic".

Record EvidenceTerms := mkEvidenceTerms { ev_sink : string; ev_delivery : string }.
#[global] Instance EvidenceTerms_eq_dec : EqDecision EvidenceTerms.
Proof. solve_decision. Defined.
Definition EvidenceTerms_default : EvidenceTerms := mkEvidenceTerms "" "fail-safe".

Record Terms := mkTerms {
  data_classes : list string;
  jurisdictions : list string;
  max_calls_per_hour : option N;
  max_concurrent : option N;
  max_spend_usd_per_day : option spec_float;
  human_oversight : option string;
  delegation : Delegation;
  evidence : EvidenceTerms;
  classes_closed : bool;
  jurisdictions_closed : bool
}.
#[global] Instance Terms_eq_dec : EqDecision Terms.
Proof. solve_decision. Defined.

Definition Terms_default : Terms :=
  mkTerms [] [] None None None None Delegation_default EvidenceTerms_default false false.

Definition Terms_is_closed (t : Terms) : bool := classes_closed t || jurisdictions_closed t.

Definition meet_allowlist (a b : list string) (already_closed : bool) : list string * bool :=
  if already_closed then ([], true)
  else
    let out := if bool_decide (a = []) then b
               else if bool_decide (b = []) then a
               else filterb (λ x, str_in x b) a in
    let out := sort_dedup out in
    let closed := bool_decide (out = []) && negb (bool_decide (a = []))
                  && negb (bool_decide (b = [])) in
    (out, closed).

Definition min_opt (a b : option N) : option N :=
  match a, b with
  | Some x, Some y => Some (N.min x y)
  | Some x, None | None, Some x => Some x
  | None, None => None
  end.

(** [f64::min]: the smaller operand, or the one that is not a NaN.  (Of two zeros of
    opposite sign Rust may return either; here it is the first.) *)
Definition f64_min (a b : spec_float) : spec_float :=
  match SFcompare a b with
  | Some Gt => b
  | Some _ => a
  | None => match a with S754_nan => b | _ => a end
  end.

Definition min_spend (a b : option spec_float) : option spec_float :=
  match a, b with
  | Some x, Some y => Some (f64_min x y)
  | Some x, None | None, Some x => Some x
  | None, None => None
  end.

Definition or_else {A} (a b : option A) : option A := match a with Some _ => a | None => b end.

Definition is_blocking (e : EvidenceTerms) : bool := bool_decide (ev_delivery e = "blocking").

Definition Terms_intersect (self other : Terms) : Terms :=
  let '(dc, cc) := meet_allowlist (data_classes self) (data_classes other)
                     (classes_closed self || classes_closed other) in
  let '(js, jc) := meet_allowlist (jurisdictions self) (jurisdictions other)
                     (jurisdictions_closed self || jurisdictions_closed other) in
  mkTerms dc js
    (min_opt (max_calls_per_hour self) (max_calls_per_hour other))
    (min_opt (max_concurrent self) (max_concurrent other))
    (min_spend (max_spend_usd_per_day self) (max_spend_usd_per_day other))
    (or_else (human_oversight self) (human_oversight other))
    (mkDelegation (N.min (deleg_max_depth (delegation self)) (deleg_max_depth (delegation other)))
       "monotonic")
    (mkEvidenceTerms
       (if bool_decide (ev_sink (evidence self) = "") then ev_sink (evidence other)
        else ev_sink (evidence self))
       (if is_blocking (evidence self) || is_blocking (evidence other)
        then "blocking" else "fail-safe"))
    cc jc.

(** ** Approvals *)

Inductive ApprovalMode := Human | StandingPolicy | BreakGlass | ReviewedMerge.
#[global] Instance ApprovalMode_eq_dec : EqDecision ApprovalMode.
Proof. solve_decision. Defined.

Inductive Side := Source | Target.
#[global] Instance Side_eq_dec : EqDecision Side.
Proof. solve_decision. Defined.

Record MergeApproval := mkMergeApproval {
  merge_side : Side;
  merge_repo : string;
  merge_sha : string;
  merge_request_id : string;
  merge_author : string;
  merge_approvers : list string;
  merge_via : string;
  merge_bootstrap : bool
}.
#[global] Instance MergeApproval_eq_dec : EqDecision MergeApproval.
Proof. solve_decision. Defined.

Record ApprovalRef := mkApprovalRef {
  appr_by : option HumanRef;
  appr_jti : option Jti;
  appr_ticket : option string;
  appr_mode : ApprovalMode;
  appr_second : option HumanRef;
  appr_merges : list MergeApproval
}.
#[global] Instance ApprovalRef_eq_dec : EqDecision ApprovalRef.
Proof. solve_decision. Defined.

Definition is_renewable (a : ApprovalRef) : bool := negb (bool_decide (appr_mode a = BreakGlass)).

Definition has_distinct_approver (m : MergeApproval) : bool :=
  existsb (λ a, negb (bool_decide (a = "")) && negb (bool_decide (a = merge_author m)))
    (merge_approvers m).

Definition reviewed_merge (merges : list MergeApproval) : result ApprovalRef :=
  let has side := existsb (λ m, bool_decide (merge_side m = side)) merges in
  guard_err (negb (has Source) || negb (has Target)) APPROVAL_SIGNATURE_INVALID $
  guard_err (existsb (λ m, negb (has_distinct_approver m)) merges) APPROVAL_SIGNATURE_INVALID $
  Ok (mkApprovalRef None None None ReviewedMerge None merges).

Definition consent_from (a : ApprovalRef) (side : Side) : option MergeApproval :=
  find (λ m, bool_decide (merge_side m = side)) (appr_merges a).

Definition human_by_merge (by_ : HumanRef) (consent : MergeApproval) (ticket : option string)
    : ApprovalRef :=
  mkApprovalRef (Some by_) None ticket Human None [consent].

Definition standing : ApprovalRef := mkApprovalRef None None None StandingPolicy None [].

Definition satisfies_dual_control (a : ApprovalRef) : bool :=
  match appr_by a, appr_second a with
  | Some x, Some y => negb (bool_decide (x = y))
  | _, _ => false
  end.

(** ** The registry's record of a minted contract *)

Inductive ContractStatus := CActive | CSuspended | CRevoked.
#[global] Instance ContractStatus_eq_dec : EqDecision ContractStatus.
Proof. solve_decision. Defined.

Record ContractRecord := mkContractRecord {
  rec_cid : Cid;
  rec_jti : Jti;
  rec_caller : EntityId;
  rec_callee : EntityId;
  rec_caller_zone : ZoneId;
  rec_callee_zone : ZoneId;
  rec_callee_tier : Tier;
  rec_callee_manifest : string;
  rec_surface_digest : string;
  rec_surface : Surface;
  rec_terms : Terms;
  rec_aud : list string;
  rec_jws_sha256 : string;
  rec_status : ContractStatus;
  rec_approval : ApprovalRef;
  rec_policy_version : string;
  rec_iat : N;
  rec_exp : N;
  rec_offer_version : option N;
  rec_schema : N
}.
#[global] Instance ContractRecord_eq_dec : EqDecision ContractRecord.
Proof. solve_decision. Defined.

Definition CONTRACT_SCHEMA : N := 1.

Definition set_status (c : ContractRecord) (s : ContractStatus) : ContractRecord :=
  mkContractRecord (rec_cid c) (rec_jti c) (rec_caller c) (rec_callee c) (rec_caller_zone c)
    (rec_callee_zone c) (rec_callee_tier c) (rec_callee_manifest c) (rec_surface_digest c)
    (rec_surface c) (rec_terms c) (rec_aud c) (rec_jws_sha256 c) s (rec_approval c)
    (rec_policy_version c) (rec_iat c) (rec_exp c) (rec_offer_version c) (rec_schema c).

Definition ContractRecord_is_live (c : ContractRecord) (now : N) : bool :=
  bool_decide (rec_status c = CActive) && (now <? rec_exp c)%N.

Definition remaining_secs (c : ContractRecord) (now : N) : N := saturating_sub (rec_exp c) now.

Definition involves (c : ContractRecord) (id : EntityId) : bool :=
  bool_decide (rec_caller c = id) || bool_decide (rec_callee c = id).

Definition assert_digest_matches `{Sha256} (c : ContractRecord) (pin : Pin) : result unit :=
  let? expected := Pin_surface_digest pin (Surface_items (rec_surface c)) in
  guard_err (negb (bool_decide (expected = rec_surface_digest c))) PIN_MISMATCH $ Ok tt.

(** ** The order of doubles

    [SFcompare] is the lexicographic order of a key of three integers (class, exponent,
    mantissa); a NaN has no key. *)

Definition float_key (f : spec_float) : option (Z * Z * Z) :=
  match f with
  | S754_nan => None
  | S754_infinity true => Some (-2, 0, 0)%Z
  | S754_finite true m e => Some (-1, -e, -(Z.pos m))%Z
  | S754_zero _ => Some (0, 0, 0)%Z
  | S754_finite false m e => Some (1, e, Z.pos m)%Z
  | S754_infinity false => Some (2, 0, 0)%Z
  end.

Definition key_compare (a b : Z * Z * Z) : comparison :=
  let '(a1, a2, a3) := a in let '(b1, b2, b3) := b in
  match Z.compare a1 b1 with
  | Eq => match Z.compare a2 b2 with Eq => Z.compare a3 b3 | c => c end
  | c => c
  end.

Definition key_le (a b : Z * Z * Z) : Prop := key_compare a b ≠ Gt.

Lemma SFcompare_key a b :
  SFcompare a b = match float_key a, float_key b with
                  | Some x, Some y => Some (key_compare x y)
                  | _, _ => None
                  end.
Proof.
  destruct a as [sa|sa| |sa ma ea], b as [sb|sb| |sb mb eb]; try (destruct sa); try (destruct sb);
    try reflexivity.
  cbn. rewrite (Z.compare_opp ea eb), (Z.compare_opp (Z.pos ma) (Z.pos mb)), (Z.compare_antisym ea eb).
  destruct (Z.compare ea eb); simpl; try reflexivity.
  by rewrite (Pos.compare_antisym ma mb).
Qed.

Lemma key_compare_eq a b : key_compare a b = Eq ↔ a = b.
Proof.
  destruct a as [[a1 a2] a3], b as [[b1 b2] b3]. unfold key_compare.
  destruct (Z.compare_spec a1 b1), (Z.compare_spec a2 b2), (Z.compare_spec a3 b3);
    subst; split; intros; simplify_eq; try done; lia.
Qed.

Lemma key_le_total a b : key_compare a b = Gt → key_compare b a = Lt.
Proof.
  destruct a as [[a1 a2] a3], b as [[b1 b2] b3]. unfold key_compare.
  rewrite (Z.compare_antisym a1 b1), (Z.compare_antisym a2 b2), (Z.compare_antisym a3 b3).
  by destruct (Z.compare a1 b1), (Z.compare a2 b2), (Z.compare a3 b3).
Qed.

Lemma key_le_trans a b c : key_le a b → key_le b c → key_le a c.
Proof.
  destruct a as [[a1 a2] a3], b as [[b1 b2] b3], c as [[c1 c2] c3]. unfold key_le, key_compare.
  destruct (Z.compare_spec a1 b1), (Z.compare_spec b1 c1), (Z.compare_spec a1 c1); subst;
    try done; try lia;
  destruct (Z.compare_spec a2 b2), (Z.compare_spec b2 c2), (Z.compare_spec a2 c2); subst;
    try done; try lia;
  destruct (Z.compare_spec a3 b3), (Z.compare_spec b3 c3), (Z.compare_spec a3 c3); subst;
    try done; try lia.
Qed.

(** [x <= y] on doubles, false on a NaN. *)
Definition f64_le (x y : spec_float) : bool :=
  match SFcompare x y with Some Gt | None => false | Some _ => true end.

Definition is_nan (f : spec_float) : bool := match f with S754_nan => true | _ => false end.

Lemma float_key_Some f : is_nan f = false → ∃ k, float_key f = Some k.
Proof. destruct f as [s|s| |s m e]; try destruct s; simpl; eauto; done. Qed.

Lemma f64_le_key x y kx ky :
  float_key x = Some kx → float_key y = Some ky → f64_le x y = true ↔ key_le kx ky.
Proof.
  intros Hx Hy. unfold f64_le, key_le. rewrite SFcompare_key, Hx, Hy.
  by destruct (key_compare kx ky).
Qed.

Lemma f64_min_spec a b x :
  is_nan a = false → is_nan b = false → is_nan x = false →
  f64_le x (f64_min a b) = f64_le x a && f64_le x b.
Proof.
  intros [ka Ha]%float_key_Some [kb Hb]%float_key_Some [kx Hx]%float_key_Some.
  unfold f64_min. rewrite SFcompare_key, Ha, Hb.
  apply Bool.eq_iff_eq_true. rewrite andb_true_iff.
  rewrite (f64_le_key x a kx ka), (f64_le_key x b kx kb) by done.
  destruct (key_compare ka kb) eqn:E.
  - apply key_compare_eq in E as <-. rewrite (f64_le_key x a kx ka) by done. tauto.
  - rewrite (f64_le_key x a kx ka) by done. split; [|tauto]. intros Hl. split; [done|].
    eapply key_le_trans; [exact Hl|]. unfold key_le. by rewrite E.
  - rewrite (f64_le_key x b kx kb) by done. split; [|tauto]. intros Hl. split; [|done].
    eapply key_le_trans; [exact Hl|]. unfold key_le. by rewrite (key_le_total _ _ E).
Qed.

Lemma f64_min_nan_l b : f64_min S754_nan b = b.
Proof. done. Qed.
Lemma f64_min_nan_r a : f64_min a S754_nan = a.
Proof. by destruct a as [[]|[]| |[] ? ?]. Qed.

#[global] Instance key_le_dec a b : Decision (key_le a b).
Proof. unfold key_le. apply _. Defined.

Lemma f64_min_key a b ka kb :
  float_key a = Some ka → float_key b = Some kb →
  f64_min a b = if decide (key_le ka kb) then a else b.
Proof.
  intros Ha Hb. unfold f64_min. rewrite SFcompare_key, Ha, Hb.
  unfold key_le. case_decide as H; destruct (key_compare ka kb); try done; by destruct H.
Qed.

(** [f64::min] picks the leftmost of the smallest operands, so it is associative. *)
Lemma f64_min_assoc a b c : f64_min (f64_min a b) c = f64_min a (f64_min b c).
Proof.
  destruct (is_nan a) eqn:Na; [destruct a; try done; by rewrite !f64_min_nan_l|].
  destruct (is_nan b) eqn:Nb; [destruct b; try done; by rewrite f64_min_nan_l, f64_min_nan_r|].
  destruct (is_nan c) eqn:Nc; [destruct c; try done; by rewrite !f64_min_nan_r|].
  apply float_key_Some in Na as [ka Ha], Nb as [kb Hb], Nc as [kc Hc].
  rewrite (f64_min_key a b ka kb), (f64_min_key b c kb kc) by done.
  destruct (decide (key_le ka kb)) as [Hab|Hab], (decide (key_le kb kc)) as [Hbc|Hbc].
  - rewrite (f64_min_key a c ka kc), (f64_min_key a b ka kb) by done.
    rewrite !decide_True; [done|done|by eapply key_le_trans].
  - rewrite (f64_min_key a c ka kc) by done. done.
  - rewrite (f64_min_key b c kb kc), (f64_min_key a b ka kb) by done.
    by rewrite decide_True, decide_False.
  - rewrite (f64_min_key b c kb kc), (f64_min_key a c ka kc) by done.
    rewrite decide_False by done. rewrite decide_False; [done|]. intros Hac.
    apply Hab, (key_le_trans _ kc); [done|].
    destruct (key_compare kb kc) eqn:E; [destruct Hbc; unfold key_le; by rewrite E..|].
    unfold key_le. by rewrite (key_le_total _ _ E).
Qed.

Lemma f64_min_idemp a : f64_min a a = a.
Proof.
  destruct (is_nan a) eqn:Na; [by destruct a|]. apply float_key_Some in Na as [ka Ha].
  rewrite (f64_min_key a a ka ka) by done. by case_decide.
Qed.

(** ** Terms as a set of permitted uses *)

(** What an allowlist with its closed flag lets through: empty means unconstrained,
    closed means nothing. *)
Definition allows (l : list string) (closed : bool) (x : string) : bool :=
  negb closed && (bool_decide (l = []) || str_in x l).

Definition within (ceiling : option N) (n : N) : bool :=
  match ceiling with None => true | Some m => (n <=? m)%N end.

Definition within_spend (ceiling : option spec_float) (x : spec_float) : bool :=
  match ceiling with None => true | Some m => f64_le x m end.

(** One way of using a connection: what crosses, where, how often and how deep. *)
Record Use := mkUse {
  use_class : string;
  use_jurisdiction : string;
  use_calls : N;
  use_concurrent : N;
  use_spend : spec_float;
  use_depth : N
}.

Definition terms_permit (t : Terms) (u : Use) : bool :=
  allows (data_classes t) (classes_closed t) (use_class u)
  && allows (jurisdictions t) (jurisdictions_closed t) (use_jurisdiction u)
  && within (max_calls_per_hour t) (use_calls u)
  && within (max_concurrent t) (use_concurrent u)
  && within_spend (max_spend_usd_per_day t) (use_spend u)
  && (use_depth u <=? deleg_max_depth (delegation t))%N.

Lemma str_in_sort_dedup x l : str_in x (sort_dedup l) = str_in x l.
Proof. apply bool_decide_ext, elem_of_sort_dedup. Qed.

Lemma sort_dedup_nil_bool l : bool_decide (sort_dedup l = []) = bool_decide (l = []).
Proof. apply bool_decide_ext, sort_dedup_nil. Qed.

Lemma str_in_filter x a b : str_in x (filterb (λ y, str_in y b) a) = str_in x a && str_in x b.
Proof.
  unfold str_in. apply Bool.eq_iff_eq_true.
  rewrite andb_true_iff, !bool_decide_eq_true, elem_of_filterb, bool_decide_eq_true. done.
Qed.

Lemma meet_allowlist_allows a b ca cb x :
  allows (meet_allowlist a b (ca || cb)).1 (meet_allowlist a b (ca || cb)).2 x
  = allows a ca x && allows b cb x.
Proof.
  unfold meet_allowlist, allows. destruct ca; [done|]. destruct cb; [by rewrite andb_false_r|].
  cbn [orb negb andb]. cbv zeta. cbn [fst snd]. rewrite str_in_sort_dedup, sort_dedup_nil_bool.
  destruct (decide (a = [])) as [->|Ha].
  { rewrite (bool_decide_eq_true_2 ([] = [])) by done. cbn [negb]. by rewrite andb_false_r. }
  rewrite (bool_decide_eq_false_2 (a = [])) by done.
  destruct (decide (b = [])) as [->|Hb].
  { rewrite (bool_decide_eq_true_2 ([] = [])), (bool_decide_eq_false_2 (a = [])) by done.
    simpl. by rewrite andb_true_r. }
  rewrite (bool_decide_eq_false_2 (b = [])) by done. cbn [negb orb]. rewrite !andb_true_r.
  rewrite str_in_filter. destruct (bool_decide (filterb _ a = [])) eqn:Hf; [|done].
  simpl. bool_facts. rewrite filterb_nil in Hf. unfold str_in.
  destruct (bool_decide (x ∈ a)) eqn:Hx; [|done]. bool_facts.
  by rewrite (Hf x Hx : bool_decide (x ∈ b) = false).
Qed.

Lemma within_min a b n : within (min_opt a b) n = within a n && within b n.
Proof.
  destruct a, b; simpl; rewrite ?andb_true_r; try done.
  apply Bool.eq_iff_eq_true. rewrite andb_true_iff, !N.leb_le. lia.
Qed.

Definition spend_ok (t : Terms) : Prop :=
  match max_spend_usd_per_day t with Some f => is_nan f = false | None => True end.

Lemma within_min_spend a b x :
  match a with Some f => is_nan f = false | None => True end →
  match b with Some f => is_nan f = false | None => True end → is_nan x = false →
  within_spend (min_spend a b) x = within_spend a x && within_spend b x.
Proof.
  destruct a, b; simpl; intros Ha Hb Hx; rewrite ?andb_true_r; try done. by apply f64_min_spec.
Qed.

Lemma Terms_intersect_fields a b :
  Terms_intersect a b =
  let dc := meet_allowlist (data_classes a) (data_classes b) (classes_closed a || classes_closed b) in
  let js := meet_allowlist (jurisdictions a) (jurisdictions b)
              (jurisdictions_closed a || jurisdictions_closed b) in
  mkTerms dc.1 js.1
    (min_opt (max_calls_per_hour a) (max_calls_per_hour b))
    (min_opt (max_concurrent a) (max_concurrent b))
    (min_spend (max_spend_usd_per_day a) (max_spend_usd_per_day b))
    (or_else (human_oversight a) (human_oversight b))
    (mkDelegation (N.min (deleg_max_depth (delegation a)) (deleg_max_depth (delegation b))) "monotonic")
    (mkEvidenceTerms
       (if bool_decide (ev_sink (evidence a) = "") then ev_sink (evidence b) else ev_sink (evidence a))
       (if is_blocking (evidence a) || is_blocking (evidence b) then "blocking" else "fail-safe"))
    dc.2 js.2.
Proof.
  unfold Terms_intersect. by destruct (meet_allowlist _ _ _), (meet_allowlist _ _ _).
Qed.

Lemma terms_intersect_permits a b u :
  spend_ok a → spend_ok b → is_nan (use_spend u) = false →
  terms_permit (Terms_intersect a b) u = terms_permit a u && terms_permit b u.
Proof.
  intros Ha Hb Hu. rewrite Terms_intersect_fields. cbv zeta. unfold terms_permit.
  cbn [data_classes classes_closed jurisdictions
    jurisdictions_closed max_calls_per_hour max_concurrent max_spend_usd_per_day delegation
    deleg_max_depth].
  rewrite !meet_allowlist_allows, !within_min, within_min_spend by done.
  assert (∀ n x y, (n <=? N.min x y)%N = (n <=? x)%N && (n <=? y)%N) as ->.
  { intros. apply Bool.eq_iff_eq_true. rewrite andb_true_iff, !N.leb_le. lia. }
  btauto.
Qed.

Lemma terms_intersect_closed a b :
  Terms_is_closed a = true ∨ Terms_is_closed b = true → Terms_is_closed (Terms_intersect a b) = true.
Proof.
  rewrite Terms_intersect_fields. unfold Terms_is_closed, meet_allowlist. cbn [classes_closed jurisdictions_closed].
  destruct (classes_closed a), (classes_closed b), (jurisdictions_closed a),
    (jurisdictions_closed b); simpl; rewrite ?orb_true_r; naive_solver.
Qed.

Lemma terms_intersect_oversight a b :
  is_Some (human_oversight (Terms_intersect a b)) ↔ is_Some (human_oversight a) ∨ is_Some (human_oversight b).
Proof.
  rewrite Terms_intersect_fields. cbn [human_oversight].
  destruct (human_oversight a), (human_oversight b); simpl; rewrite ?is_Some_alt; naive_solver.
Qed.

(** ** Properties of the narrowing algebra *)

(** The intersection of two sets of terms permits exactly what both permit -- a
    class, a jurisdiction, a rate, a concurrency, a spend and a depth are within it
    precisely when they are within each -- so no source can widen another; a blocking
    evidence obligation or an oversight requirement of either survives, and terms that
    closed stay closed.  (Spend ceilings are numbers, not NaNs.) *)
Theorem terms_intersect_exact a b :
  spend_ok a → spend_ok b →
  (∀ u, is_nan (use_spend u) = false →
     terms_permit (Terms_intersect a b) u = terms_permit a u && terms_permit b u) ∧
  is_blocking (evidence (Terms_intersect a b))
    = is_blocking (evidence a) || is_blocking (evidence b) ∧
  (is_Some (human_oversight (Terms_intersect a b)) ↔
     is_Some (human_oversight a) ∨ is_Some (human_oversight b)) ∧
  (Terms_is_closed a = true ∨ Terms_is_closed b = true →
     Terms_is_closed (Terms_intersect a b) = true).
Proof.
  intros Ha Hb. split; [|split; [|split]].
  - intros u. by apply terms_intersect_permits.
  - rewrite Terms_intersect_fields. cbv zeta. cbn [evidence]. unfold is_blocking at 1. cbn [ev_delivery].
    by destruct (is_blocking (evidence a)), (is_blocking (evidence b)).
  - apply terms_intersect_oversight.
  - apply terms_intersect_closed.
Qed.

(** A met allowlist is in normal form, and normal forms that let the same names through
    are equal. *)
Definition allowlist_nf (p : list string * bool) : Prop :=
  StronglySorted str_lt p.1 ∧ (p.2 = true → p.1 = []).

Lemma meet_allowlist_nf a b c : allowlist_nf (meet_allowlist a b c).
Proof.
  unfold meet_allowlist. destruct c; [split; [constructor|done]|]. cbv zeta. split.
  - apply sort_dedup_StronglySorted.
  - cbn [fst snd]. intros H. by bool_facts.
Qed.

Lemma allowlist_nf_ext p q :
  allowlist_nf p → allowlist_nf q → (∀ x, allows p.1 p.2 x = allows q.1 q.2 x) → p = q.
Proof.
  destruct p as [l c], q as [k d]. intros [Hl Hc] [Hk Hd] Hext. simpl in *.
  assert (∀ (l k : list string) d, (∀ x, allows l true x = allows k d x) → d = true) as Hclosed.
  { clear. intros l k [|] H; [done|]. exfalso. destruct k as [|y k]; [by specialize (H "")|].
    specialize (H y). unfold allows in H. simpl in H. symmetry in H. unfold str_in in H.
    bool_facts. set_solver. }
  assert (c = d) as ->.
  { destruct c; [by rewrite (Hclosed l k d)|]. destruct d; [|done].
    by apply (Hclosed k l). }
  f_equal. destruct d; [by rewrite Hc, Hd|].
  unfold allows in Hext. cbn [negb andb] in Hext.
  assert (∀ l k : list string, l = [] →
    (∀ x, bool_decide (l = []) || str_in x l = bool_decide (k = []) || str_in x k) → k = []) as Hnil.
  { clear. intros l k -> H. pose proof (infinite_is_fresh k) as Hf. specialize (H (fresh k)).
    rewrite (bool_decide_eq_true_2 ([] = [])) in H by done. symmetry in H.
    apply orb_true_iff in H as [H|H]; unfold str_in in *; bool_facts; done. }
  destruct (decide (l = [])) as [->|Hl0]; [symmetry; by eapply Hnil|].
  destruct (decide (k = [])) as [->|Hk0]; [exfalso; by apply Hl0, (Hnil [] l)|].
  apply str_lt_sorted_ext; [done..|]. intros x. specialize (Hext x).
  rewrite (bool_decide_eq_false_2 (l = [])), (bool_decide_eq_false_2 (k = [])) in Hext by done.
  unfold str_in in Hext. simpl in Hext.
  rewrite <-(bool_decide_eq_true (x ∈ l)), <-(bool_decide_eq_true (x ∈ k)). by rewrite Hext.
Qed.

Definition meet2 (p q : list string * bool) := meet_allowlist p.1 q.1 (p.2 || q.2).

Lemma meet2_allows p q x :
  allows (meet2 p q).1 (meet2 p q).2 x = allows p.1 p.2 x && allows q.1 q.2 x.
Proof. apply meet_allowlist_allows. Qed.

Lemma meet2_assoc p q r : meet2 (meet2 p q) r = meet2 p (meet2 q r).
Proof.
  apply allowlist_nf_ext; [apply meet_allowlist_nf..|]. intros x.
  rewrite !meet2_allows. by rewrite andb_assoc.
Qed.
Lemma meet2_comm p q : meet2 p q = meet2 q p.
Proof.
  apply allowlist_nf_ext; [apply meet_allowlist_nf..|]. intros x.
  rewrite !meet2_allows. apply andb_comm.
Qed.
Lemma meet2_idemp p : allowlist_nf p → meet2 p p = p.
Proof.
  intros Hp. apply allowlist_nf_ext; [apply meet_allowlist_nf|done|]. intros x.
  rewrite !meet2_allows. apply andb_diag.
Qed.

Lemma min_opt_assoc a b c : min_opt (min_opt a b) c = min_opt a (min_opt b c).
Proof. destruct a, b, c; simpl; try done. by rewrite N.min_assoc. Qed.
Lemma min_opt_comm a b : min_opt a b = min_opt b a.
Proof. destruct a, b; simpl; try done. by rewrite N.min_comm. Qed.
Lemma min_opt_idemp a : min_opt a a = a.
Proof. destruct a; simpl; try done. by rewrite N.min_id. Qed.
Lemma min_spend_assoc a b c : min_spend (min_spend a b) c = min_spend a (min_spend b c).
Proof. destruct a, b, c; simpl; try done. by rewrite f64_min_assoc. Qed.
Lemma min_spend_idemp a : min_spend a a = a.
Proof. destruct a; simpl; try done. by rewrite f64_min_idemp. Qed.

Lemma is_blocking_text (e : string) (b : bool) :
  is_blocking (mkEvidenceTerms e (if b then "blocking" else "fail-safe")) = b.
Proof. by destruct b. Qed.

(** The two allowlists of some terms with their closed flags. *)
Definition classes_of (t : Terms) := (data_classes t, classes_closed t).
Definition jurisdictions_of (t : Terms) := (jurisdictions t, jurisdictions_closed t).

Lemma terms_ext t u :
  classes_of t = classes_of u → jurisdictions_of t = jurisdictions_of u →
  max_calls_per_hour t = max_calls_per_hour u → max_concurrent t = max_concurrent u →
  max_spend_usd_per_day t = max_spend_usd_per_day u → human_oversight t = human_oversight u →
  delegation t = delegation u → evidence t = evidence u → t = u.
Proof. destruct t, u; unfold classes_of, jurisdictions_of; simpl; intros; congruence. Qed.

Lemma classes_of_intersect a b : classes_of (Terms_intersect a b) = meet2 (classes_of a) (classes_of b).
Proof. rewrite Terms_intersect_fields. unfold classes_of, meet2. simpl. by destruct (meet_allowlist _ _ _). Qed.
Lemma jurisdictions_of_intersect a b :
  jurisdictions_of (Terms_intersect a b) = meet2 (jurisdictions_of a) (jurisdictions_of b).
Proof. rewrite Terms_intersect_fields. unfold jurisdictions_of, meet2. simpl. by destruct (meet_allowlist _ _ _). Qed.

(** The order in which sources are folded is immaterial in the grouping sense:
    intersection is associative, field for field and closed flags included, and
    intersecting a result with itself gives it back; swapping the two sides changes
    nothing in the allowlists, the closed flags, the integer ceilings, the delegation
    envelope and the delivery obligation. *)
Theorem terms_intersect_laws a b c :
  Terms_intersect (Terms_intersect a b) c = Terms_intersect a (Terms_intersect b c) ∧
  (let t := Terms_intersect a b in Terms_intersect t t = t) ∧
  (let t := Terms_intersect a b in let u := Terms_intersect b a in
   classes_of t = classes_of u ∧ jurisdictions_of t = jurisdictions_of u ∧
   max_calls_per_hour t = max_calls_per_hour u ∧ max_concurrent t = max_concurrent u ∧
   delegation t = delegation u ∧ ev_delivery (evidence t) = ev_delivery (evidence u)).
Proof.
  split; [|split].
  - apply terms_ext; rewrite ?classes_of_intersect, ?jurisdictions_of_intersect, ?meet2_assoc;
      rewrite ?Terms_intersect_fields; cbn; rewrite ?min_opt_assoc, ?min_spend_assoc,
      ?N.min_assoc, ?is_blocking_text; try done.
    + by destruct (human_oversight a), (human_oversight b).
    + f_equal; [|by rewrite orb_assoc].
      destruct (bool_decide (ev_sink (evidence a) = "")) eqn:Ha; [done|]. by rewrite Ha.
  - cbv zeta. apply terms_ext.
    + rewrite !classes_of_intersect. by rewrite meet2_idemp by apply meet_allowlist_nf.
    + rewrite !jurisdictions_of_intersect. by rewrite meet2_idemp by apply meet_allowlist_nf.
    + rewrite !Terms_intersect_fields. apply min_opt_idemp.
    + rewrite !Terms_intersect_fields. apply min_opt_idemp.
    + rewrite !Terms_intersect_fields. apply min_spend_idemp.
    + rewrite !Terms_intersect_fields. cbn.
      by destruct (human_oversight a), (human_oversight b).
    + rewrite !Terms_intersect_fields. simpl. by rewrite N.min_id.
    + rewrite !Terms_intersect_fields. cbn. rewrite !is_blocking_text, orb_diag. f_equal.
      by case_bool_decide.
  - cbv zeta. rewrite !classes_of_intersect, !jurisdictions_of_intersect.
    rewrite !Terms_intersect_fields. cbn.
    rewrite (meet2_comm (classes_of a)), (meet2_comm (jurisdictions_of a)).
    rewrite (min_opt_comm (max_calls_per_hour a)), (min_opt_comm (max_concurrent a)), N.min_comm.
    by rewrite orb_comm.
Qed.

Definition oversight_terms (threshold : string) : Terms :=
  mkTerms [] [] None None None (Some threshold) Delegation_default EvidenceTerms_default false false.

(** Intersection is not commutative: of two oversight thresholds (and of two evidence
    sinks) the first operand's is kept whatever the second says, so a laxer threshold
    listed first displaces a stricter one. *)
Theorem terms_intersect_order_matters :
  (∀ a b h, human_oversight a = Some h → human_oversight (Terms_intersect a b) = Some h) ∧
  (∀ a b, ev_sink (evidence a) ≠ "" →
     ev_sink (evidence (Terms_intersect a b)) = ev_sink (evidence a)) ∧
  (let lax := oversight_terms "required_above:10000_usd" in
   let strict := oversight_terms "required_above:100_usd" in
   Terms_intersect lax strict ≠ Terms_intersect strict lax ∧
   human_oversight (Terms_intersect lax strict) = Some "required_above:10000_usd").
Proof.
  split; [|split].
  - intros a b h Ha. rewrite Terms_intersect_fields. simpl. by rewrite Ha.
  - intros a b Ha. rewrite Terms_intersect_fields. simpl. by rewrite bool_decide_eq_false_2.
  - split; [|done]. vm_compute. discriminate.
Qed.

(** A reviewed-merge approval exists precisely when both sides consented and every
    consent has an approver who is not its author; then it records exactly those
    consents, names a consent for each side, and -- carrying no named humans -- never
    passes for dual control. *)
Theorem reviewed_merge_iff merges :
  (is_ok (reviewed_merge merges) = true ↔
     (∃ m, m ∈ merges ∧ merge_side m = Source) ∧ (∃ m, m ∈ merges ∧ merge_side m = Target) ∧
     ∀ m, m ∈ merges → ∃ a, a ∈ merge_approvers m ∧ a ≠ "" ∧ a ≠ merge_author m) ∧
  (∀ r, reviewed_merge merges = Ok r →
     appr_merges r = merges ∧ appr_mode r = ReviewedMerge ∧ is_renewable r = true ∧
     satisfies_dual_control r = false ∧
     ∀ side, ∃ m, consent_from r side = Some m ∧ m ∈ merges ∧ merge_side m = side).
Proof.
  assert (∀ side, existsb (λ m, bool_decide (merge_side m = side)) merges = true ↔
    ∃ m, m ∈ merges ∧ merge_side m = side) as Hside.
  { intros side. rewrite existsb_True. by setoid_rewrite bool_decide_eq_true. }
  assert (existsb (λ m, negb (has_distinct_approver m)) merges = false ↔
    ∀ m, m ∈ merges → ∃ a, a ∈ merge_approvers m ∧ a ≠ "" ∧ a ≠ merge_author m) as Happr.
  { rewrite existsb_False. unfold has_distinct_approver. setoid_rewrite negb_false_iff.
    setoid_rewrite existsb_True. setoid_rewrite andb_true_iff. setoid_rewrite negb_true_iff.
    by setoid_rewrite bool_decide_eq_false. }
  unfold reviewed_merge. cbv zeta. rewrite <-(Hside Source), <-(Hside Target), <-Happr.
  set (s := existsb _ merges). set (t := existsb _ merges). set (d := existsb _ merges).
  split; [destruct s, t, d; simpl; naive_solver|].
  intros r [Hst [_ [= <-]]%guard_err_ok]%guard_err_ok. bool_facts.
  repeat (split; [done|]). intros side. unfold consent_from. simpl.
  destruct (find _ merges) as [m|] eqn:Hf.
  - apply find_some in Hf as [Hin Hm]. bool_facts. exists m.
    by rewrite list_elem_of_In.
  - exfalso. assert (∃ m, m ∈ merges ∧ merge_side m = side) as (m & Hin & Hm)
      by (destruct side; by apply Hside).
    apply list_elem_of_In in Hin. apply (find_none _ _ Hf) in Hin. by bool_facts.
Qed.

(** ** Concrete terms *)

Definition capped_terms : Terms :=
  mkTerms ["public"; "internal"] ["SG"] (Some 100%N) None (Some (S754_finite false 5 0)) None
    (mkDelegation 3 "monotonic") (mkEvidenceTerms "ocsf://siem" "blocking") false false.

Lemma terms_intersect_exact_witness :
  is_blocking (evidence (Terms_intersect capped_terms Terms_default)) = true ∧
  terms_permit (Terms_intersect capped_terms Terms_default)
    (mkUse "public" "SG" 7 1 (S754_finite false 3 0) 1) = true.
Proof.
  destruct (terms_intersect_exact capped_terms Terms_default) as (Hp & Hb & _); [reflexivity|exact I|].
  split; [rewrite Hb; reflexivity|]. rewrite Hp; reflexivity.
Defined.
