(* ===== verification/Artifact.v ===== *)
(** * Artifact: minting and verifying the signed contract
    ([crates/wc-core/src/contract.rs], from the payload to admission)

    The JOSE library ([jsonwebtoken]), base64 and serde's derived (de)serialisers are
    third-party code: the parameter [Jose].  What the round trip relies on of them is
    [JoseLaws], stated about one call of [jsonwebtoken::decode] at a time. *)

From S2P Require Import Prelude Text Errors Model Zone Json Canon Contract.

(** ** Algorithms *)

(** [jsonwebtoken::Algorithm]. *)
Inductive Algorithm :=
| HS256 | HS384 | HS512 | ES256 | ES384 | RS256 | RS384 | RS512 | PS256 | PS384 | PS512 | EdDSA.
#[global] Instance Algorithm_eq_dec : EqDecision Algorithm.
Proof. solve_decision. Defined.

(** The JOSE header name of an algorithm. *)
Definition alg_name (a : Algorithm) : string :=
  match a with
  | HS256 => "HS256" | HS384 => "HS384" | HS512 => "HS512" | ES256 => "ES256" | ES384 => "ES384"
  | RS256 => "RS256" | RS384 => "RS384" | RS512 => "RS512" | PS256 => "PS256" | PS384 => "PS384"
  | PS512 => "PS512" | EdDSA => "EdDSA"
  end.

Definition ACCEPTED_ALG_NAMES : list string := ["ES256"; "ES384"; "EdDSA"; "PS256"; "RS256"].
Definition CONTRACT_ALG_NAMES : list string := ["ES256"; "ES384"; "EdDSA"].
Definition ASYMMETRIC_ALGS : list Algorithm := [ES256; ES384; EdDSA].

Definition CONTRACT_TYP : string := "warden-connection+jws".
Definition PAYLOAD_SCHEMA : N := 1.
Definition MAX_CONTRACT_BYTES : N := 64 * 1024.

(** ** The payload *)

Record Party := mkParty {
  party_id : EntityId;
  party_zone : ZoneId;
  party_tier : Tier;
  party_card : option string;
  party_manifest : option string;
  party_surface_digest : option string
}.
#[global] Instance Party_eq_dec : EqDecision Party.
Proof. solve_decision. Defined.

Record Assurance := mkAssurance {
  attestation : list string;
  reattest_every : string;
  posture : Posture
}.
#[global] Instance Assurance_eq_dec : EqDecision Assurance.
Proof. solve_decision. Defined.
Definition Assurance_default : Assurance := mkAssurance [] "24h" Attested.

Record ContractPayload := mkPayload {
  pl_typ : string;
  pl_cid : Cid;
  pl_iss : string;
  pl_aud : string;
  pl_jti : Jti;
  pl_iat : N;
  pl_nbf : N;
  pl_exp : N;
  pl_caller : Party;
  pl_callee : Party;
  pl_surface : Surface;
  pl_terms : Terms;
  pl_assurance : Assurance;
  pl_approval : ApprovalRef;
  pl_policy_version : string;
  pl_schema : N
}.
#[global] Instance ContractPayload_eq_dec : EqDecision ContractPayload.
Proof. solve_decision. Defined.

Definition ContractPayload_new (cid : Cid) (jti : Jti) (iss aud : string) (caller callee : Party)
    : ContractPayload :=
  mkPayload CONTRACT_TYP cid iss aud jti 0 0 0 caller callee Surface_default Terms_default
    Assurance_default standing "" PAYLOAD_SCHEMA.

Definition assert_coherent (p : ContractPayload) : result unit :=
  guard_err (negb (bool_decide (pl_typ p = CONTRACT_TYP))) SCHEMA_UNKNOWN $
  guard_err (pl_exp p <=? pl_nbf p)%N MINT_PRECONDITION_FAILED $
  guard_err (Surface_is_empty (pl_surface p)) MINT_PRECONDITION_FAILED $
  guard_err (bool_decide (party_surface_digest (pl_callee p) = None)) MINT_PRECONDITION_FAILED $
  let items := surf_tools (pl_surface p) ++ surf_skills (pl_surface p) in
  guard_err (negb (bool_decide (length (sort_dedup items) = length items))) SURFACE_NOT_SUBSET $
  Ok tt.

(** ** The JOSE library *)

(** The fields of [jsonwebtoken::Header] this code sets or reads. *)
Record Header := mkHeader { hdr_alg : Algorithm; hdr_kid : option string; hdr_typ : option string }.

(** The parts of [jsonwebtoken::jwk::Jwk] that [add_jwks] reads; [jwk_material] stands for
    the key parameters, which only [DecodingKey::from_jwk] looks into. *)
Inductive EllipticCurve := P256 | P384 | P521 | Ed25519.
Inductive AlgorithmParameters :=
| EllipticCurveKey (curve : EllipticCurve)
| RSA
| OctetKey
| OctetKeyPair (curve : EllipticCurve).
Inductive PublicKeyUse := Signature | Encryption | OtherUse.

Record Jwk := mkJwk {
  jwk_algorithm : AlgorithmParameters;
  jwk_use : option PublicKeyUse;
  jwk_kid : option string;
  jwk_key_algorithm : option string;
  jwk_material : string
}.

Class Jose := {
  EncodingKey : Type;
  DecodingKey : Type;
  (** [EncodingKey::from_ec_pem], [from_ed_pem]; [DecodingKey::from_ec_pem],
      [from_ed_pem], [from_jwk]. *)
  encoding_from_ec_pem : string → option EncodingKey;
  encoding_from_ed_pem : string → option EncodingKey;
  decoding_from_ec_pem : string → option DecodingKey;
  decoding_from_ed_pem : string → option DecodingKey;
  decoding_from_jwk : Jwk → option DecodingKey;
  (** [serde_json::from_str::<JwkSet>]. *)
  jwkset_from_str : string → option (list Jwk);
  (** [jsonwebtoken::crypto::sign], base64url text. *)
  crypto_sign : string → EncodingKey → Algorithm → option string;
  (** [URL_SAFE_NO_PAD]. *)
  b64url_encode : string → string;
  b64url_decode : string → option string;
  (** [serde_json::to_vec(&Header)] and [jsonwebtoken::decode_header]. *)
  header_to_vec : Header → string;
  decode_header : string → option Header;
  (** [serde_json::to_vec(&ContractPayload)] and [from_value::<ContractPayload>]. *)
  payload_to_vec : ContractPayload → string;
  payload_from_value : Value → option ContractPayload;
  (** [jsonwebtoken::decode::<Value>] with every claim check turned off. *)
  jwt_decode : string → DecodingKey → Algorithm → option Value
}.

(** [Header::new(alg)]: typ defaults to "JWT". *)
Definition Header_new (alg : Algorithm) : Header := mkHeader alg None (Some "JWT").

(** ** Keys *)

Inductive Custody := Local | Delegated.

Definition Custody_as_str (c : Custody) : string :=
  match c with Local => "local" | Delegated => "delegated" end.

(** [Box<dyn Signer>]: bytes to sign to raw signature bytes. *)
Definition Signer := string → result string.

Record IssuerKey := mkIssuerKey {
  ik_kid : string;
  ik_alg : Algorithm;
  ik_custody : Custody;
  ik_signer : Signer
}.

Definition jws_signature_len (alg : Algorithm) : option N :=
  match alg with
  | ES256 | EdDSA => Some 64%N
  | ES384 => Some 96%N
  | _ => None
  end.

Definition external (kid : string) (alg : Algorithm) (signer : Signer) : result IssuerKey :=
  guard_err (negb (bool_decide (alg ∈ ASYMMETRIC_ALGS))) ALG_NOT_ASYMMETRIC $
  Ok (mkIssuerKey kid alg Delegated signer).

Definition sign_input (k : IssuerKey) (signing_input : string) : result string :=
  let? sig := ik_signer k signing_input in
  match jws_signature_len (ik_alg k) with
  | Some expected =>
    guard_err (negb (bool_decide (str_len sig = expected))) SIGNATURE_INVALID $ Ok sig
  | None => guard_err (bool_decide (sig = "")) SIGNATURE_INVALID $ Ok sig
  end.

Section WithJose.
Context `{Jose, SerdeParse}.

Definition LocalSigner (alg : Algorithm) (key : EncodingKey) : Signer := λ signing_input,
  let? b64 := ok_or (crypto_sign signing_input key alg) SIGNATURE_INVALID in
  ok_or (b64url_decode b64) SIGNATURE_INVALID.

Definition ec_pem (kid pem : string) (alg : Algorithm) : result IssuerKey :=
  guard_err (negb (bool_decide (alg ∈ ASYMMETRIC_ALGS))) ALG_NOT_ASYMMETRIC $
  let? key := ok_or (encoding_from_ec_pem pem) SIGNATURE_INVALID in
  Ok (mkIssuerKey kid alg Local (LocalSigner alg key)).

Definition ed_pem (kid pem : string) : result IssuerKey :=
  let? key := ok_or (encoding_from_ed_pem pem) SIGNATURE_INVALID in
  Ok (mkIssuerKey kid EdDSA Local (LocalSigner EdDSA key)).

(** The payload arrives as the bytes [serde_json::to_vec] made of it. *)
Definition encode_jws (k : IssuerKey) (header : Header) (payload : string) : result string :=
  let head := b64url_encode (header_to_vec header) in
  let body := b64url_encode payload in
  let signing_input := head +:+ "." +:+ body in
  let? sig := sign_input k signing_input in
  Ok (signing_input +:+ "." +:+ b64url_encode sig).

(** ** Trusted keys *)

(** [BTreeMap<String, (Algorithm, DecodingKey)>]. *)
Definition IssuerKeys := gmap string (Algorithm * DecodingKey).

Definition IssuerKeys_new : IssuerKeys := ∅.

Definition add_ec_pem (keys : IssuerKeys) (kid pem : string) (alg : Algorithm) : result IssuerKeys :=
  let? key := ok_or (decoding_from_ec_pem pem) SIGNATURE_INVALID in
  Ok (<[kid := (alg, key)]> keys).

Definition add_ed_pem (keys : IssuerKeys) (kid pem : string) : result IssuerKeys :=
  let? key := ok_or (decoding_from_ed_pem pem) SIGNATURE_INVALID in
  Ok (<[kid := (EdDSA, key)]> keys).

(** Why a key of a JWKS was passed over (prose in the source). *)
Inductive SkipReason :=
| UseEnc | NoKid | UnsupportedCurve (kid : string) | UnsupportedOkpCurve (kid : string)
| RsaWithoutAlg (kid : string) | RsaAlgNotAccepted (kid : string) | AlgDisagrees (kid : string).

Record JwksReport := mkJwksReport { jr_added : list string; jr_skipped : list SkipReason }.

Definition JwksReport_is_complete (r : JwksReport) : bool :=
  match jr_skipped r with [] => true | _ => false end.

(** [str::eq_ignore_ascii_case]. *)
Definition ascii_lower (b : N) : N := if is_ascii_uppercase b then (b + 32)%N else b.
Definition eq_ignore_ascii_case (s t : string) : bool :=
  bool_decide (map ascii_lower (bytes s) = map ascii_lower (bytes t)).

(** The algorithm a key's material stands for, or why it is skipped. *)
Definition jwk_alg (jwk : Jwk) (kid : string) : Algorithm + SkipReason :=
  match jwk_algorithm jwk with
  | EllipticCurveKey P256 => inl ES256
  | EllipticCurveKey P384 => inl ES384
  | EllipticCurveKey _ => inr (UnsupportedCurve kid)
  | OctetKeyPair Ed25519 => inl EdDSA
  | OctetKeyPair _ => inr (UnsupportedOkpCurve kid)
  | RSA =>
    match jwk_key_algorithm jwk with
    | None => inr (RsaWithoutAlg kid)
    | Some name =>
      if eq_ignore_ascii_case name "RS256" then inl RS256
      else if eq_ignore_ascii_case name "PS256" then inl PS256
      else inr (RsaAlgNotAccepted kid)
    end
  | OctetKey => inr NoKid (* unreachable: refused before *)
  end.

(** One turn of the loop: the report so far and the staged keys. *)
Definition add_jwk (acc : JwksReport * list (string * (Algorithm * DecodingKey))) (jwk : Jwk)
    : result (JwksReport * list (string * (Algorithm * DecodingKey))) :=
  let '(report, staged) := acc in
  let skip r := Ok (mkJwksReport (jr_added report) (jr_skipped report ++ [r]), staged) in
  match jwk_algorithm jwk with
  | OctetKey => Err ALG_NOT_ASYMMETRIC
  | _ =>
    match jwk_use jwk with
    | Some Encryption => skip UseEnc
    | _ =>
      match jwk_kid jwk with
      | None => skip NoKid
      | Some kid =>
        match jwk_alg jwk kid with
        | inr r => skip r
        | inl alg =>
          if match jwk_key_algorithm jwk with
             | Some name => negb (eq_ignore_ascii_case name (alg_name alg))
             | None => false
             end then skip (AlgDisagrees kid)
          else
            let? key := ok_or (decoding_from_jwk jwk) SIGNATURE_INVALID in
            Ok (mkJwksReport (jr_added report ++ [kid]) (jr_skipped report),
                staged ++ [(kid, (alg, key))])
        end
      end
    end
  end.

(** Returns the new key set with the report; on an error the set is the one before. *)
Definition add_jwks (keys : IssuerKeys) (document : string) : result (IssuerKeys * JwksReport) :=
  let? set := ok_or (jwkset_from_str document) CONFIG_INVALID in
  let? (report, staged) := foldR add_jwk (mkJwksReport [] [], []) set in
  guard_err (bool_decide (jr_added report = [])) CONFIG_INVALID $
  Ok (foldl (λ ks e, <[e.1 := e.2]> ks) keys staged, report).

(** [IssuerKeys::kids]. *)
Definition kids (keys : IssuerKeys) : list string := btree_keys keys.

(** ** Minting *)

Definition mint (payload : ContractPayload) (signer : IssuerKey) : result string :=
  let? _ := assert_coherent payload in
  let header := mkHeader (ik_alg signer) (Some (ik_kid signer)) (Some CONTRACT_TYP) in
  let? jws := encode_jws signer header (payload_to_vec payload) in
  guard_err (MAX_CONTRACT_BYTES <? str_len jws)%N CONTRACT_OVERSIZE $
  Ok jws.

(** ** Verifying the artifact *)

Class RevocationView (R : Type) := {
  jti_revoked : R → string → bool;
  cid_revoked : R → string → bool;
  party_revoked : R → string → bool
}.

Inductive NoRevocations := no_revocations.
#[global] Instance NoRevocations_view : RevocationView NoRevocations := {|
  jti_revoked _ _ := false;
  cid_revoked _ _ := false;
  party_revoked _ _ := false
|}.

Record VerifyOpts (R : Type) := mkVerifyOpts {
  vo_keys : IssuerKeys;
  vo_mediator_id : string;
  vo_expected_iss : option string;
  vo_now : N;
  vo_leeway : N;
  vo_revoked : R
}.

Record Trust := mkTrust { tr_keys : IssuerKeys; tr_mediator_id : string; tr_issuer : string }.

Definition VerifyOpts_new (keys : IssuerKeys) (mediator_id : string) (now : N)
    : VerifyOpts NoRevocations :=
  mkVerifyOpts _ keys mediator_id None now 0 no_revocations.

Definition VerifyOpts_issued_by {R} (o : VerifyOpts R) (iss : string) : VerifyOpts R :=
  mkVerifyOpts R (vo_keys R o) (vo_mediator_id R o) (Some iss) (vo_now R o) (vo_leeway R o)
    (vo_revoked R o).

Definition VerifyOpts_trusting (trust : Trust) (now : N) : VerifyOpts NoRevocations :=
  VerifyOpts_issued_by (VerifyOpts_new (tr_keys trust) (tr_mediator_id trust) now) (tr_issuer trust).

Record VerifiedContract := mkVerifiedContract {
  vc_payload : ContractPayload;
  vc_items : list string;
  vc_verified_at : N
}.

Definition header_alg (jws : string) : result string :=
  let segment := default "" (head (split_on dot jws)) in
  let? raw := ok_or (b64url_decode segment) SIGNATURE_INVALID in
  let? header := ok_or (from_slice raw) SIGNATURE_INVALID in
  ok_or (match vget "alg" header with Some v => as_str v | None => None end) ALG_NOT_ASYMMETRIC.

(** ** Detached signatures *)

(** The claims arrive as their serialised bytes. *)
Definition sign_detached (claims : string) (signer : IssuerKey) : result string :=
  let header := mkHeader (ik_alg signer) (Some (ik_kid signer)) (hdr_typ (Header_new (ik_alg signer))) in
  map_err (λ _, APPROVAL_SIGNATURE_INVALID) (encode_jws signer header claims).

(** [parse] is the deserialiser of the claims' type. *)
Definition verify_detached {T} (parse : Value → option T) (jws kid : string) (keys : IssuerKeys)
    : result T :=
  let? alg := header_alg jws in
  guard_err (negb (str_in alg ACCEPTED_ALG_NAMES)) ALG_NOT_ASYMMETRIC $
  let? (expected_alg, key) := ok_or (keys !! kid) APPROVAL_SIGNATURE_INVALID in
  ok_or (match jwt_decode jws key expected_alg with Some v => parse v | None => None end)
    APPROVAL_SIGNATURE_INVALID.

Context {R : Type} `{!RevocationView R}.

Definition is_revoked (r : R) (p : ContractPayload) : bool :=
  jti_revoked r (jti_str (pl_jti p)) || cid_revoked r (cid_str (pl_cid p))
  || party_revoked r (entity_str (party_id (pl_caller p)))
  || party_revoked r (entity_str (party_id (pl_callee p))).

Definition verify_artifact (jws : string) (opts : VerifyOpts R) : result VerifiedContract :=
  guard_err (MAX_CONTRACT_BYTES <? str_len jws)%N CONTRACT_OVERSIZE $
  (* 1: algorithm, by name *)
  let? alg := header_alg jws in
  guard_err (negb (str_in alg CONTRACT_ALG_NAMES)) ALG_NOT_ASYMMETRIC $
  let? header := ok_or (decode_header jws) SIGNATURE_INVALID in
  (* 2: signature, against the key named by kid *)
  let? kid := ok_or (hdr_kid header) SIGNATURE_INVALID in
  let? (expected_alg, key) := ok_or (vo_keys R opts !! kid) SIGNATURE_INVALID in
  guard_err (negb (bool_decide (expected_alg = hdr_alg header))) ALG_NOT_ASYMMETRIC $
  let? claims := ok_or (jwt_decode jws key (hdr_alg header)) SIGNATURE_INVALID in
  (* schema, before typed deserialisation *)
  let schema := default 0%N (match vget "schema" claims with Some v => as_u64 v | None => None end) in
  guard_err (negb (schema =? PAYLOAD_SCHEMA)%N) SCHEMA_UNKNOWN $
  let? payload := ok_or (payload_from_value claims) SCHEMA_UNKNOWN in
  guard_err (negb (bool_decide (pl_typ payload = CONTRACT_TYP))) SCHEMA_UNKNOWN $
  (* 3: validity window *)
  guard_err (u64_add (vo_now R opts) (vo_leeway R opts) <? pl_nbf payload)%N CONTRACT_EXPIRED $
  guard_err (u64_add (pl_exp payload) (vo_leeway R opts) <=? vo_now R opts)%N CONTRACT_EXPIRED $
  (* 4: audience *)
  guard_err (negb (bool_decide (pl_aud payload = vo_mediator_id R opts))) AUDIENCE_MISMATCH $
  (* 4b: issuer *)
  guard_err (match vo_expected_iss R opts with
             | Some expected => negb (bool_decide (pl_iss payload = expected))
             | None => false
             end) ISSUER_MISMATCH $
  (* 5: revocation *)
  guard_err (is_revoked (vo_revoked R opts) payload) CONTRACT_REVOKED $
  Ok (mkVerifiedContract payload (Surface_items (pl_surface payload)) (vo_now R opts)).
End WithJose.

(** ** Context checks *)

Class ZoneRule (Z : Type) := zone_permits : Z → ZoneId → ZoneId → bool.

Inductive SameTrustLevel := same_trust_level.
#[global] Instance SameTrustLevel_rule : ZoneRule SameTrustLevel :=
  λ _ caller callee, bool_decide (trust_level caller = trust_level callee).

Inductive AnyZone := any_zone.
#[global] Instance AnyZone_rule : ZoneRule AnyZone := λ _ _ _, true.

#[global] Instance ZoneLattice_rule : ZoneRule ZoneLattice := ZoneLattice_permits.

Record PeerIdentity := mkPeerIdentity { peer_caller : EntityId; peer_callee : EntityId }.
#[global] Instance PeerIdentity_eq_dec : EqDecision PeerIdentity.
Proof. solve_decision. Defined.

Record AdmitCtx (Z : Type) := mkAdmitCtx {
  ac_peer : PeerIdentity;
  ac_presented : Pin;
  ac_token_wcid : option string;
  ac_zones : Z;
  ac_mode : Mode
}.
Arguments mkAdmitCtx {Z}.
Arguments ac_peer {Z}.
Arguments ac_presented {Z}.
Arguments ac_token_wcid {Z}.
Arguments ac_zones {Z}.
Arguments ac_mode {Z}.

Record AdmittedConn := mkAdmittedConn {
  adm_cid : Cid;
  adm_jti : Jti;
  adm_items : list string;
  adm_resources : list string;
  adm_terms : Terms;
  adm_exp : N;
  adm_findings : list Code
}.

Definition check_pin `{Sha256} (vc : VerifiedContract) (presented : Pin) : result unit :=
  let? expected := ok_or (party_surface_digest (pl_callee (vc_payload vc))) PIN_MISMATCH in
  let? actual := map_err (λ e, if bool_decide (e = SURFACE_NOT_SUBSET) then PIN_MISMATCH else e)
                   (Pin_surface_digest presented (Surface_items (pl_surface (vc_payload vc)))) in
  guard_err (negb (bool_decide (actual = expected))) PIN_MISMATCH $
  Ok tt.

Definition admit_context {Z} `{ZoneRule Z} (vc : VerifiedContract) (ctx : AdmitCtx Z)
    : result AdmittedConn :=
  let p := vc_payload vc in
  (* 6, 7: peer identities *)
  guard_err (negb (bool_decide (peer_caller (ac_peer ctx) = party_id (pl_caller p))))
    CALLER_PEER_MISMATCH $
  guard_err (negb (bool_decide (peer_callee (ac_peer ctx) = party_id (pl_callee p))))
    CALLEE_PEER_MISMATCH $
  (* 9: posture *)
  let attested := bool_decide (posture (pl_assurance p) = Attested) in
  guard_err (negb attested && denies_in POSTURE_NOT_ATTESTED (ac_mode ctx)) POSTURE_NOT_ATTESTED $
  let findings := if attested then [] else [POSTURE_NOT_ATTESTED] in
  (* 10: zone pair *)
  guard_err (negb (zone_permits (ac_zones ctx) (party_zone (pl_caller p)) (party_zone (pl_callee p))))
    ZONE_PAIR_FORBIDDEN $
  (* 11: token binding *)
  guard_err (match ac_token_wcid ctx with
             | Some wcid => negb (bool_decide (wcid = cid_str (pl_cid p)))
             | None => false
             end) TOKEN_BINDING_MISMATCH $
  Ok (mkAdmittedConn (pl_cid p) (pl_jti p) (vc_items vc) (surf_resources (pl_surface p)) (pl_terms p)
        (pl_exp p) findings).

Definition VerifiedContract_admit `{Sha256} {Z} `{ZoneRule Z} (vc : VerifiedContract) (ctx : AdmitCtx Z)
    : result AdmittedConn :=
  let? _ := check_pin vc (ac_presented ctx) in
  admit_context vc ctx.

Definition permits_item (a : AdmittedConn) (name : string) : bool := str_in name (adm_items a).

Definition AdmittedConn_is_live (a : AdmittedConn) (now : N) : bool := (now <? adm_exp a)%N.

(** ** What verification relies on of the JOSE library *)

(** The bytes a JWS signature covers. *)
Definition signing_input (head body : string) : string := head +:+ "." +:+ body.
Definition compact (head body sig : string) : string := signing_input head body +:+ "." +:+ sig.

(** [valid key alg input sig] is the signature check itself; [jsonwebtoken::decode] splits
    the compact form, runs it over the first two segments and parses the second. *)
Class JoseLaws `{Jose, SerdeParse}
    (valid : DecodingKey → Algorithm → string → string → bool) : Prop := {
  b64_roundtrip s : b64url_decode (b64url_encode s) = Some s;
  b64_no_dot s : no_byte dot (b64url_encode s);
  decode_header_alg jws h a :
    decode_header jws = Some h → header_alg jws = Ok a → a = alg_name (hdr_alg h);
  jwt_decode_complete head body sg h sig raw key v :
    no_byte dot head → no_byte dot body → no_byte dot sg →
    decode_header (compact head body sg) = Some h →
    b64url_decode sg = Some sig → valid key (hdr_alg h) (signing_input head body) sig = true →
    b64url_decode body = Some raw → from_slice raw = Some v →
    jwt_decode (compact head body sg) key (hdr_alg h) = Some v;
  jwt_decode_sound jws key alg v :
    jwt_decode jws key alg = Some v →
    ∃ head body sg sig raw,
      jws = compact head body sg ∧ b64url_decode sg = Some sig ∧
      valid key alg (signing_input head body) sig = true ∧
      b64url_decode body = Some raw ∧ from_slice raw = Some v
}.

(** serde round trips, at one header and one payload.  The two closed flags are
    [serde(skip)]: they come back [false]. *)
Definition reopened (t : Terms) : Terms :=
  mkTerms (data_classes t) (jurisdictions t) (max_calls_per_hour t) (max_concurrent t)
    (max_spend_usd_per_day t) (human_oversight t) (delegation t) (evidence t) false false.

Definition wire (p : ContractPayload) : ContractPayload :=
  mkPayload (pl_typ p) (pl_cid p) (pl_iss p) (pl_aud p) (pl_jti p) (pl_iat p) (pl_nbf p) (pl_exp p)
    (pl_caller p) (pl_callee p) (pl_surface p) (reopened (pl_terms p)) (pl_assurance p)
    (pl_approval p) (pl_policy_version p) (pl_schema p).

Definition header_roundtrips `{Jose, SerdeParse} (h : Header) : Prop :=
  (∃ v, from_slice (header_to_vec h) = Some v ∧
        vget "alg" v = Some (VString (alg_name (hdr_alg h)))) ∧
  ∀ body sg, decode_header (compact (b64url_encode (header_to_vec h)) body sg) = Some h.

Definition payload_roundtrips `{Jose, SerdeParse} (p : ContractPayload) : Prop :=
  ∃ v, from_slice (payload_to_vec p) = Some v ∧
       vget "schema" v = Some (VNumber (PosInt (pl_schema p))) ∧
       payload_from_value v = Some (wire p).

(** ** Lemmas *)

Lemma assert_coherent_ok p :
  assert_coherent p = Ok tt ↔
  pl_typ p = CONTRACT_TYP ∧ (pl_nbf p < pl_exp p)%N ∧ Surface_is_empty (pl_surface p) = false ∧
  is_Some (party_surface_digest (pl_callee p)) ∧
  NoDup (surf_tools (pl_surface p) ++ surf_skills (pl_surface p)).
Proof.
  unfold assert_coherent. cbv zeta. rewrite !guard_err_ok, !negb_false_iff, !bool_decide_eq_true,
    bool_decide_eq_false, N.leb_gt, sort_dedup_length, <-not_eq_None_Some. tauto.
Qed.

Lemma alg_name_contract a : str_in (alg_name a) CONTRACT_ALG_NAMES = bool_decide (a ∈ ASYMMETRIC_ALGS).
Proof. by destruct a. Qed.

Lemma split_compact head body sg :
  no_byte dot head → no_byte dot body → no_byte dot sg →
  split_on dot (compact head body sg) = [head; body; sg].
Proof.
  intros Hh Hb Hs.
  assert (compact head body sg = head +:+ String dot (body +:+ String dot sg)) as ->.
  { apply bytes_inj. unfold compact, signing_input. rewrite !bytes_app.
    cbn [bytes]. rewrite !bytes_app. cbn [bytes]. by rewrite <-!app_assoc. }
  rewrite split_on_app by done.
  rewrite split_on_app by done. by rewrite split_on_no_byte_id.
Qed.

Lemma u64_add_small a b : is_u64 (a + b) → u64_add a b = (a + b)%N.
Proof. unfold is_u64, u64_add. intros. apply N.mod_small. lia. Qed.

Section Verification.
Context `{Jose, SerdeParse} {R : Type} `{!RevocationView R}.

Lemma verify_artifact_ok jws (opts : VerifyOpts R) vc :
  verify_artifact jws opts = Ok vc ↔
  (str_len jws ≤ MAX_CONTRACT_BYTES)%N ∧
  ∃ alg h kid key claims p,
    header_alg jws = Ok alg ∧ str_in alg CONTRACT_ALG_NAMES = true ∧
    decode_header jws = Some h ∧ hdr_kid h = Some kid ∧ vo_keys R opts !! kid = Some (hdr_alg h, key) ∧
    jwt_decode jws key (hdr_alg h) = Some claims ∧
    default 0%N (match vget "schema" claims with Some v => as_u64 v | None => None end)
      = PAYLOAD_SCHEMA ∧
    payload_from_value claims = Some p ∧ pl_typ p = CONTRACT_TYP ∧
    (pl_nbf p ≤ u64_add (vo_now R opts) (vo_leeway R opts))%N ∧
    (vo_now R opts < u64_add (pl_exp p) (vo_leeway R opts))%N ∧
    pl_aud p = vo_mediator_id R opts ∧
    (∀ iss, vo_expected_iss R opts = Some iss → pl_iss p = iss) ∧
    is_revoked (vo_revoked R opts) p = false ∧
    vc = mkVerifiedContract p (Surface_items (pl_surface p)) (vo_now R opts).
Proof.
  unfold verify_artifact. rewrite guard_err_ok, N.ltb_ge. apply and_iff_compat_l. split.
  - intros (alg & Ha & Hr)%result_bind_ok. apply guard_err_ok in Hr as [Hc Hr].
    apply result_bind_ok in Hr as (h & Hh%ok_or_ok & Hr).
    apply result_bind_ok in Hr as (kid & Hk%ok_or_ok & Hr).
    apply result_bind_ok in Hr as ([ea key] & Hkey%ok_or_ok & Hr).
    apply guard_err_ok in Hr as [He Hr].
    apply result_bind_ok in Hr as (claims & Hd%ok_or_ok & Hr). cbv zeta in Hr.
    apply guard_err_ok in Hr as [Hs Hr]. apply result_bind_ok in Hr as (p & Hp%ok_or_ok & Hr).
    rewrite !guard_err_ok in Hr. destruct Hr as (Ht & Hn & Hx & Hau & Hi & Hv & [= <-]).
    bool_facts. subst ea. exists alg, h, kid, key, claims, p.
    repeat (split; [done|]). split; [|done]. intros iss Hiss. rewrite Hiss in Hi. by bool_facts.
  - intros (alg & h & kid & key & claims & p & Ha & Hc & Hh & Hk & Hkey & Hd & Hs & Hp & Ht & Hn &
      Hx & Hau & Hi & Hv & ->).
    rewrite Ha. cbn [result_bind]. rewrite Hc, Hh. cbn [negb guard_err ok_or result_bind].
    rewrite Hk. cbn [ok_or result_bind]. rewrite Hkey. cbn [ok_or result_bind].
    rewrite bool_decide_eq_true_2 by done. cbn [negb guard_err]. rewrite Hd.
    cbn [ok_or result_bind]. cbv zeta. rewrite Hs. cbn [negb guard_err].
    rewrite N.eqb_refl. cbn [negb guard_err]. rewrite Hp. cbn [ok_or result_bind].
    rewrite !guard_err_ok, !negb_false_iff, !bool_decide_eq_true, N.ltb_ge, N.leb_gt.
    repeat (split; [done|]). split; [|done].
    destruct (vo_expected_iss R opts) as [iss|]; [|done].
    rewrite negb_false_iff, bool_decide_eq_true. by apply Hi.
Qed.
End Verification.

(** ** Lemmas: context checks *)

Lemma check_pin_ok `{Sha256} vc presented :
  check_pin vc presented = Ok tt ↔
  ∃ d, party_surface_digest (pl_callee (vc_payload vc)) = Some d ∧
       Pin_surface_digest presented (Surface_items (pl_surface (vc_payload vc))) = Ok d.
Proof.
  unfold check_pin. rewrite result_bind_ok. setoid_rewrite ok_or_ok. split.
  - intros (d & Hd & (e & He & [Hb _]%guard_err_ok)%result_bind_ok). exists d. split; [done|].
    bool_facts. subst e. by destruct (Pin_surface_digest _ _); simpl in He; simplify_eq.
  - intros (d & Hd & He). exists d. split; [done|]. rewrite He. simpl.
    by rewrite bool_decide_eq_true_2.
Qed.

Lemma digest_entries_err items names e : digest_entries items names = Err e → e = SURFACE_NOT_SUBSET.
Proof.
  induction names as [|n names IH]; simpl; [done|].
  destruct (items !! n); simpl; [|by intros [= <-]].
  destruct (digest_entries items names); simpl; [done|]. intros [= <-]. by apply IH.
Qed.

(** Whatever goes wrong with the pin, the code is [PIN_MISMATCH]. *)
Lemma check_pin_err `{Sha256} vc presented e : check_pin vc presented = Err e → e = PIN_MISMATCH.
Proof.
  unfold check_pin. destruct (party_surface_digest _); simpl; [|by intros [= <-]].
  unfold Pin_surface_digest. destruct (digest_entries _ _) as [b|c] eqn:E; simpl.
  - unfold guard_err. by destruct (negb _); [intros [= <-]|].
  - apply digest_entries_err in E as ->. by intros [= <-].
Qed.

Lemma admit_context_ok {Z} `{ZoneRule Z} vc (ctx : AdmitCtx Z) a :
  admit_context vc ctx = Ok a ↔
  ac_peer ctx = mkPeerIdentity (party_id (pl_caller (vc_payload vc)))
                  (party_id (pl_callee (vc_payload vc))) ∧
  (posture (pl_assurance (vc_payload vc)) = Attested ∨ ac_mode ctx = Observe) ∧
  zone_permits (ac_zones ctx) (party_zone (pl_caller (vc_payload vc)))
    (party_zone (pl_callee (vc_payload vc))) = true ∧
  (∀ wcid, ac_token_wcid ctx = Some wcid → wcid = cid_str (pl_cid (vc_payload vc))) ∧
  a = mkAdmittedConn (pl_cid (vc_payload vc)) (pl_jti (vc_payload vc)) (vc_items vc)
        (surf_resources (pl_surface (vc_payload vc))) (pl_terms (vc_payload vc))
        (pl_exp (vc_payload vc))
        (if bool_decide (posture (pl_assurance (vc_payload vc)) = Attested) then []
         else [POSTURE_NOT_ATTESTED]).
Proof.
  unfold admit_context. cbv zeta. rewrite !guard_err_ok, !negb_false_iff, !bool_decide_eq_true.
  assert (denies_in POSTURE_NOT_ATTESTED (ac_mode ctx) = bool_decide (ac_mode ctx = Enforce)) as ->
    by (destruct (ac_mode ctx); vm_compute; reflexivity).
  destruct (ac_peer ctx) as [pc pe]. destruct (ac_mode ctx), (ac_token_wcid ctx) as [w|]; simpl;
    rewrite ?negb_false_iff, ?bool_decide_eq_true;
    destruct (bool_decide (posture (pl_assurance (vc_payload vc)) = Attested)) eqn:Hatt;
    bool_facts; simpl; naive_solver.
Qed.

(** ** Properties of verification *)

(** C24: a contract that verifies was signed by a trusted key: the artifact splits into
    three segments whose signature checks under the key registered for the header's
    [kid], with that key's own algorithm, an asymmetric one; its second segment is the
    payload; the payload is inside its validity window, addressed to this mediator,
    issued by the expected plane, and neither it, nor its connection, nor either party is
    revoked; and the allowlist holds exactly the contracted tools and skills. *)
Theorem verify_artifact_sound `{Jose, SerdeParse} valid `{!JoseLaws valid} {R} `{!RevocationView R}
    jws (opts : VerifyOpts R) vc :
  verify_artifact jws opts = Ok vc →
  let p := vc_payload vc in
  is_u64 (vo_now R opts + vo_leeway R opts) → is_u64 (pl_exp p + vo_leeway R opts) →
  (∃ head body sg sig raw v kid key alg,
     jws = compact head body sg ∧ vo_keys R opts !! kid = Some (alg, key) ∧ alg ∈ ASYMMETRIC_ALGS ∧
     b64url_decode sg = Some sig ∧ valid key alg (signing_input head body) sig = true ∧
     b64url_decode body = Some raw ∧ from_slice raw = Some v ∧ payload_from_value v = Some p) ∧
  (pl_nbf p ≤ vo_now R opts + vo_leeway R opts)%N ∧ (vo_now R opts < pl_exp p + vo_leeway R opts)%N ∧
  pl_aud p = vo_mediator_id R opts ∧
  (∀ iss, vo_expected_iss R opts = Some iss → pl_iss p = iss) ∧
  jti_revoked (vo_revoked R opts) (jti_str (pl_jti p)) = false ∧
  cid_revoked (vo_revoked R opts) (cid_str (pl_cid p)) = false ∧
  party_revoked (vo_revoked R opts) (entity_str (party_id (pl_caller p))) = false ∧
  party_revoked (vo_revoked R opts) (entity_str (party_id (pl_callee p))) = false ∧
  ∀ n, n ∈ vc_items vc ↔ n ∈ surf_tools (pl_surface p) ∨ n ∈ surf_skills (pl_surface p).
Proof.
  intros (_ & alg & h & kid & key & claims & p & Ha & Hc & Hh & Hk & Hkey & Hd & _ & Hp & _ & Hn &
    Hx & Hau & Hi & Hv & ->)%verify_artifact_ok. simpl. intros Hu1 Hu2.
  rewrite u64_add_small in Hn, Hx by done. split.
  - rewrite (decode_header_alg _ _ _ Hh Ha), alg_name_contract in Hc. bool_facts.
    destruct (jwt_decode_sound _ _ _ _ Hd) as (head & body & sg & sig & raw & -> & ? & ? & ? & ?).
    exists head, body, sg, sig, raw, claims, kid, key, (hdr_alg h). eauto 20.
  - unfold is_revoked in Hv. bool_facts. repeat (split; [done|]).
    intros n. unfold Surface_items. by rewrite elem_of_sort_dedup, elem_of_app.
Qed.

(** What is minted verifies: an artifact minted by a key the verifier trusts, read by
    the mediator it is addressed to inside its window and not revoked, verifies to the
    payload that was signed (its closed flags, which never travel, aside) -- so every
    coherent contract the issuer can sign is usable. *)
Theorem mint_verify_roundtrip `{Jose, SerdeParse} valid `{!JoseLaws valid} {R} `{!RevocationView R}
    p signer key jws (opts : VerifyOpts R) :
  mint p signer = Ok jws →
  header_roundtrips (mkHeader (ik_alg signer) (Some (ik_kid signer)) (Some CONTRACT_TYP)) →
  payload_roundtrips p → pl_schema p = PAYLOAD_SCHEMA →
  ik_alg signer ∈ ASYMMETRIC_ALGS →
  vo_keys R opts !! ik_kid signer = Some (ik_alg signer, key) →
  (∀ input sig, ik_signer signer input = Ok sig → valid key (ik_alg signer) input sig = true) →
  is_u64 (vo_now R opts + vo_leeway R opts) → is_u64 (pl_exp p + vo_leeway R opts) →
  (pl_nbf p ≤ vo_now R opts + vo_leeway R opts)%N → (vo_now R opts < pl_exp p + vo_leeway R opts)%N →
  pl_aud p = vo_mediator_id R opts →
  (∀ iss, vo_expected_iss R opts = Some iss → pl_iss p = iss) →
  is_revoked (vo_revoked R opts) p = false →
  verify_artifact jws opts
  = Ok (mkVerifiedContract (wire p) (Surface_items (pl_surface p)) (vo_now R opts)).
Proof.
  intros Hm [Hv Hh] (v & Hv1 & Hv2 & Hv3) Hs Halg Hkey Hsig Hu1 Hu2 Hn Hx Hau Hi Hr.
  unfold mint in Hm. apply result_bind_ok in Hm as ([] & Hcoh & Hm).
  apply result_bind_ok in Hm as (jws' & Henc & Hm). apply guard_err_ok in Hm as [Hlen [= ->]].
  unfold encode_jws in Henc. apply result_bind_ok in Henc as (sig & Hsign & [= <-]).
  set (hd := b64url_encode (header_to_vec _)) in *. set (body := b64url_encode (payload_to_vec p)) in *.
  set (sg := b64url_encode sig) in *.
  change ((hd +:+ "." +:+ body) +:+ "." +:+ sg) with (compact hd body sg) in *.
  assert (ik_signer signer (signing_input hd body) = Ok sig) as Hsigned.
  { unfold sign_input in Hsign. apply result_bind_ok in Hsign as (s & Hs1 & Hs2).
    destruct (jws_signature_len _); apply guard_err_ok in Hs2 as [_ [= ->]]; done. }
  assert (header_alg (compact hd body sg) = Ok (alg_name (ik_alg signer))) as Hha.
  { unfold header_alg. rewrite split_compact by apply b64_no_dot.
    change (default "" (head [hd; body; sg])) with hd. cbv zeta. unfold hd. rewrite b64_roundtrip. cbn [ok_or result_bind].
    destruct Hv as (w & -> & Hw). cbn [ok_or result_bind]. rewrite Hw. done. }
  apply verify_artifact_ok. bool_facts. split; [done|].
  eexists _, _, (ik_kid signer), key, v, (wire p).
  split; [exact Hha|]. split; [rewrite alg_name_contract; by apply bool_decide_eq_true|].
  split; [apply Hh|]. split; [done|]. split; [exact Hkey|].
  split.
  { eapply (jwt_decode_complete hd body sg _ sig (payload_to_vec p) key v);
      [apply b64_no_dot..|apply Hh|apply b64_roundtrip|by apply Hsig|apply b64_roundtrip|done]. }
  apply assert_coherent_ok in Hcoh as (Htyp & _).
  split; [rewrite Hv2; simpl; exact Hs|]. split; [done|]. split; [exact Htyp|].
  rewrite !u64_add_small by done. simpl. repeat (split; [done|]). done.
Qed.

(** Admission is exactly the conjunction of the context checks: it succeeds when the
    presented surface hashes to the contracted digest, both authenticated peers are the
    contracted ones, the posture is attested (or the mode observes, leaving a finding),
    local policy permits the zone pair and the token, if it names a connection, names
    this one; and then what is installed is what the contract says. *)
Theorem admit_iff `{Sha256} {Z} `{ZoneRule Z} vc (ctx : AdmitCtx Z) a :
  VerifiedContract_admit vc ctx = Ok a ↔
  let p := vc_payload vc in
  (∃ d, party_surface_digest (pl_callee p) = Some d ∧
        Pin_surface_digest (ac_presented ctx) (Surface_items (pl_surface p)) = Ok d) ∧
  ac_peer ctx = mkPeerIdentity (party_id (pl_caller p)) (party_id (pl_callee p)) ∧
  (posture (pl_assurance p) = Attested ∨ ac_mode ctx = Observe) ∧
  zone_permits (ac_zones ctx) (party_zone (pl_caller p)) (party_zone (pl_callee p)) = true ∧
  (∀ wcid, ac_token_wcid ctx = Some wcid → wcid = cid_str (pl_cid p)) ∧
  a = mkAdmittedConn (pl_cid p) (pl_jti p) (vc_items vc) (surf_resources (pl_surface p)) (pl_terms p)
        (pl_exp p) (if bool_decide (posture (pl_assurance p) = Attested) then []
                    else [POSTURE_NOT_ATTESTED]).
Proof.
  cbv zeta. unfold VerifiedContract_admit. rewrite result_bind_ok, <-admit_context_ok.
  setoid_rewrite <-check_pin_ok. split.
  - by intros ([] & ? & ?).
  - intros [? ?]. by exists tt.
Qed.

(** Check 8 does what it is for.  When the contracted digest was taken from the
    callee's declared pin, a presented pin passes precisely if every contracted item is
    still presented with the hash it had -- items outside the contract may come, change
    and go -- up to a SHA-256 collision in the one direction; and any failure is reported
    as a pin mismatch. *)
Theorem check_pin_binds `{Sha256} vc declared presented d :
  pin_wf declared → pin_wf presented → pin_alg presented = pin_alg declared →
  party_surface_digest (pl_callee (vc_payload vc)) = Some d →
  Pin_surface_digest declared (Surface_items (pl_surface (vc_payload vc))) = Ok d →
  let contracted := surf_tools (pl_surface (vc_payload vc)) ++ surf_skills (pl_surface (vc_payload vc)) in
  let unchanged := ∀ n, n ∈ contracted →
    ∃ h, pin_items declared !! n = Some h ∧ pin_items presented !! n = Some h in
  (unchanged → check_pin vc presented = Ok tt) ∧
  (check_pin vc presented = Ok tt → unchanged ∨ sha256_collision) ∧
  (∀ e, check_pin vc presented = Err e → e = PIN_MISMATCH).
Proof.
  intros Hwd Hwp Halg Hd Hdig contracted unchanged. split; [|split].
  - intros Hun. apply check_pin_ok. exists d. split; [done|]. rewrite <-Hdig.
    apply surface_digest_agree; [done|]. intros n Hn.
    destruct (Hun n) as (h & -> & ->); [|done]. unfold Surface_items in Hn.
    by rewrite elem_of_sort_dedup in Hn.
  - intros (d' & Hd' & Hdig')%check_pin_ok. rewrite Hd in Hd'. injection Hd' as <-.
    destruct (surface_digest_determines _ _ _ _ _ Hwd Hwp Hdig Hdig') as [(_ & _ & Hn)|Hc];
      [left|by right].
    intros n Hin. apply Hn. unfold Surface_items. by rewrite elem_of_sort_dedup.
  - intros e. apply check_pin_err.
Qed.

(** ** Properties of key ingestion *)

Section Jwks.
Context `{Jose, SerdeParse}.

(** What a key must be for [add_jwks] to trust it under [kid] with [alg]. *)
Definition jwk_trusted (jwk : Jwk) (kid : string) (alg : Algorithm) (key : DecodingKey) : Prop :=
  jwk_kid jwk = Some kid ∧ jwk_use jwk ≠ Some Encryption ∧ jwk_alg jwk kid = inl alg ∧
  (∀ name, jwk_key_algorithm jwk = Some name → eq_ignore_ascii_case name (alg_name alg) = true) ∧
  decoding_from_jwk jwk = Some key.

Definition staged_ok (seen : list Jwk)
    (st : JwksReport * list (string * (Algorithm * DecodingKey))) : Prop :=
  Forall (λ jwk, jwk_algorithm jwk ≠ OctetKey) seen ∧ jr_added st.1 = st.2.*1 ∧
  Forall (λ e, ∃ jwk, jwk ∈ seen ∧ jwk_trusted jwk e.1 e.2.1 e.2.2) st.2 ∧
  length seen = length (jr_added st.1) + length (jr_skipped st.1).

Lemma add_jwk_ok seen acc jwk acc' :
  staged_ok seen acc → add_jwk acc jwk = Ok acc' → staged_ok (seen ++ [jwk]) acc'.
Proof.
  destruct acc as [report staged]. intros (Hoct & Hadd & Hst & Hlen) Hstep. simpl in *.
  assert (jwk_algorithm jwk ≠ OctetKey) as Hk by (intros E; unfold add_jwk in Hstep; by rewrite E in Hstep).
  assert (Forall (λ e, ∃ j, j ∈ seen ++ [jwk] ∧ jwk_trusted j e.1 e.2.1 e.2.2) staged) as Hst'.
  { eapply Forall_impl; [exact Hst|]. intros e (j & Hj & Ht). exists j. set_solver. }
  assert (∀ r, staged_ok (seen ++ [jwk])
    (mkJwksReport (jr_added report) (jr_skipped report ++ [r]), staged)) as Hskip.
  { intros r. split; [by apply Forall_app; split; [|constructor]|]. split; [done|].
    split; [done|]. simpl. rewrite !length_app. simpl. lia. }
  unfold add_jwk in Hstep.
  destruct (jwk_algorithm jwk) eqn:Ha; [..|done| ];
    (destruct (jwk_use jwk) as [[]|] eqn:Hu; try (injection Hstep as <-; apply Hskip));
    (destruct (jwk_kid jwk) as [kid|] eqn:Hkid; [|injection Hstep as <-; apply Hskip]);
    (destruct (jwk_alg jwk kid) as [alg|r] eqn:Halg; [|injection Hstep as <-; apply Hskip]);
    (destruct (match jwk_key_algorithm jwk with Some _ => _ | None => _ end) eqn:Hd;
       [injection Hstep as <-; apply Hskip|]);
    apply result_bind_ok in Hstep as (key & Hkey%ok_or_ok & [= <-]);
    (split; [by apply Forall_app; split; [|constructor; [by rewrite Ha|]]|]; simpl;
     split; [rewrite fmap_app; by rewrite Hadd|]; split; [|rewrite !length_app; simpl; lia];
     apply Forall_app; split; [done|]; constructor; [|constructor]; exists jwk;
     split; [set_solver|]; repeat (split; [done || by rewrite Hu|]); split; [|done];
     intros name Hn; rewrite Hn in Hd; by bool_facts).
Qed.

Lemma add_jwks_loop set seen acc out :
  staged_ok seen acc → foldR add_jwk acc set = Ok out → staged_ok (seen ++ set) out.
Proof.
  revert seen acc. induction set as [|jwk set IH]; intros seen acc Hok; simpl.
  - intros [= <-]. by rewrite app_nil_r.
  - intros (acc' & Hs & Hf)%result_bind_ok. apply (add_jwk_ok _ _ _ _ Hok) in Hs.
    apply (IH _ _ Hs) in Hf. by rewrite <-app_assoc in Hf.
Qed.

Lemma staged_commit_lookup (staged : list (string * (Algorithm * DecodingKey))) (keys : IssuerKeys) kid :
  (∃ v, (kid, v) ∈ staged ∧ foldl (λ ks e, <[e.1 := e.2]> ks) keys staged !! kid = Some v) ∨
  (kid ∉ staged.*1 ∧ foldl (λ ks e, <[e.1 := e.2]> ks) keys staged !! kid = keys !! kid).
Proof.
  unfold IssuerKeys in *.
  revert keys. induction staged as [|[k v] staged IH]; intros keys; simpl; [right; set_solver|].
  destruct (IH (<[k := v]> keys)) as [(w & Hin & Hl)|[Hn Hl]]; [left; exists w; set_solver|].
  destruct (decide (k = kid)) as [->|Hne].
  - left. exists v. rewrite Hl, lookup_insert_eq. set_solver.
  - right. rewrite Hl, lookup_insert_ne by done. set_solver.
Qed.

Lemma jwk_alg_accepted jwk kid alg :
  jwk_alg jwk kid = inl alg → alg ∈ [ES256; ES384; EdDSA; RS256; PS256].
Proof.
  unfold jwk_alg. intros Hj. repeat case_match; simplify_eq; decide_now.
Qed.
End Jwks.

(** Ingesting a key document is all or nothing and never trusts a symmetric key: a
    document that holds one, wherever it stands, or that yields no usable key, is
    refused; otherwise every key of the set is either added or reported skipped, the keys
    now trusted under an added id are signing keys of the document whose declared
    algorithm agrees with their material, all asymmetric, and every other id keeps the
    key it had. *)
Theorem add_jwks_sound `{Jose, SerdeParse} (keys : IssuerKeys) document set :
  jwkset_from_str document = Some set →
  ((∃ jwk, jwk ∈ set ∧ jwk_algorithm jwk = OctetKey) → is_ok (add_jwks keys document) = false) ∧
  (∀ keys' report, add_jwks keys document = Ok (keys', report) →
     jr_added report ≠ [] ∧ length set = length (jr_added report) + length (jr_skipped report) ∧
     (∀ kid, kid ∉ jr_added report → keys' !! kid = keys !! kid) ∧
     (∀ kid, kid ∈ jr_added report → ∃ jwk alg key, jwk ∈ set ∧ jwk_trusted jwk kid alg key ∧
        alg ∈ [ES256; ES384; EdDSA; RS256; PS256] ∧ keys' !! kid = Some (alg, key))).
Proof.
  intros Hset.
  assert (∀ keys' report, add_jwks keys document = Ok (keys', report) → ∃ staged,
    staged_ok set (report, staged) ∧ jr_added report ≠ [] ∧
    keys' = foldl (λ ks e, <[e.1 := e.2]> ks) keys staged) as Hmain.
  { intros keys' report. unfold add_jwks. rewrite Hset. cbn [ok_or result_bind].
    intros ([r staged] & Hf & [Hne [= <- <-]]%guard_err_ok)%result_bind_ok. bool_facts.
    exists staged. split; [|done]. apply (add_jwks_loop set [] _ _) in Hf; [done|].
    by repeat split; try constructor. }
  split.
  - intros (jwk & Hin & Hoct). destruct (add_jwks keys document) as [[keys' report]|] eqn:E; [|done].
    destruct (Hmain _ _ eq_refl) as (staged & (Hno & _) & _). rewrite Forall_forall in Hno.
    by destruct (Hno jwk Hin).
  - intros keys' report E. destruct (Hmain _ _ E) as (staged & (_ & Hadd & Hst & Hlen) & Hne & ->).
    simpl in *. split; [done|]. split; [done|]. rewrite Hadd. split.
    + intros kid Hk. destruct (staged_commit_lookup staged keys kid) as [(v & Hin & _)|[_ ?]]; [|done].
      destruct Hk. apply list_elem_of_fmap. by exists (kid, v).
    + intros kid Hk. destruct (staged_commit_lookup staged keys kid) as [([alg key] & Hin & Hl)|[? _]];
        [|done].
      rewrite Forall_forall in Hst. destruct (Hst _ Hin) as (jwk & Hj & Ht).
      exists jwk, alg, key. split; [done|]. split; [done|]. split; [|done].
      destruct Ht as (_ & _ & Ha & _). exact (jwk_alg_accepted _ _ _ Ha).
Qed.

(** ** A small JOSE library with the laws

    Segments are hexadecimal, the only known header and payload are those of one example
    contract, and a signature is valid when it is a fixed 64-byte string. *)

Module TestJose.
Import TestSha.

Definition unhex (c : ascii) : N :=
  let n := N_of_ascii c in if (n <? 58)%N then (n - 48)%N else (n - 87)%N.
Fixpoint hex_decode (s : string) : option string :=
  match s with
  | EmptyString => Some ""
  | String a (String b r) => String (ascii_of_N (unhex a * 16 + unhex b)) <$> hex_decode r
  | String _ EmptyString => None
  end.

Lemma hex_roundtrip s : hex_decode (hex_encode s) = Some s.
Proof.
  induction s as [|c s IH]; [done|]. cbn [hex_encode hex_decode]. rewrite IH.
  simpl. do 2 f_equal. destruct c as [[] [] [] [] [] [] [] []]; vm_compute; reflexivity.
Qed.

Lemma hex_no_dot s : no_byte dot (hex_encode s).
Proof.
  intros Hin. change (hex_encode s) with (sha256_hex s) in Hin. by apply sha256_hex_digits in Hin.
Qed.

Definition agent : EntityId := mkEntityId "spiffe://bank/agent".
Definition server : EntityId := mkEntityId "spiffe://bank/mcp".
Definition zone : ZoneId := mkZoneId "internal.pay".
Definition callee_pin : Pin := mkPin PIN_ALG "sha256:m" {[ "read" := "sha256:aa"; "write" := "sha256:bb" ]} 5.
Definition surface : Surface := mkSurface ["read"] [] [].
Definition digest : string :=
  match Pin_surface_digest callee_pin (Surface_items surface) with Ok d => d | Err _ => "" end.
Definition contract : ContractPayload :=
  mkPayload CONTRACT_TYP (mkCid "conn_0123abcd") "plane" "mediator-1" (mkJti "jti-0001") 10 10 100
    (mkParty agent zone Tier_TWO None None None)
    (mkParty server zone Tier_TWO None (Some "sha256:m") (Some digest))
    surface Terms_default Assurance_default standing "v1" PAYLOAD_SCHEMA.
Definition header : Header := mkHeader ES256 (Some "k1") (Some CONTRACT_TYP).

Definition header_text : string := "H".
Definition payload_text : string := "P".
Definition sig : string := String.concat "" (replicate 64 "s").

#[export] Instance parse : SerdeParse := λ s,
  if bool_decide (s = header_text) then Some (VObject [("alg", VString "ES256")])
  else if bool_decide (s = payload_text) then Some (VObject [("schema", VNumber (PosInt 1))])
  else None.

Definition read_header (jws : string) : option Header :=
  match head (split_on dot jws) with
  | Some seg => if bool_decide (hex_decode seg = Some header_text) then Some header else None
  | None => None
  end.

Definition valid (_ : unit) (_ : Algorithm) (_ s : string) : bool := bool_decide (s = sig).

Definition decode (jws : string) (key : unit) (alg : Algorithm) : option Value :=
  match split_on dot jws with
  | [head; body; sg] =>
    match hex_decode sg, hex_decode body with
    | Some s, Some raw => if valid key alg (signing_input head body) s then parse raw else None
    | _, _ => None
    end
  | _ => None
  end.

Definition jwk_set : list Jwk :=
  [mkJwk (EllipticCurveKey P256) None (Some "k1") (Some "es256") "";
   mkJwk RSA None (Some "k2") None ""].
Definition no_keys (_ : string) : option unit := None.

#[export] Instance jose : Jose := {|
  EncodingKey := unit;
  DecodingKey := unit;
  encoding_from_ec_pem := no_keys;
  encoding_from_ed_pem := no_keys;
  decoding_from_ec_pem := no_keys;
  decoding_from_ed_pem := no_keys;
  decoding_from_jwk _ := Some tt;
  jwkset_from_str s := if bool_decide (s = "jwks") then Some jwk_set else None;
  crypto_sign _ _ _ := None;
  b64url_encode := hex_encode;
  b64url_decode := hex_decode;
  header_to_vec _ := header_text;
  decode_header := read_header;
  payload_to_vec _ := payload_text;
  payload_from_value _ := Some contract;
  jwt_decode := decode
|}.

Lemma split_compact_inv jws head body sg :
  split_on dot jws = [head; body; sg] → jws = compact head body sg.
Proof.
  intros E. rewrite <-(split_on_join dot jws), E. apply bytes_inj.
  unfold compact, signing_input, Text.join. simpl. rewrite !bytes_app. by rewrite <-!app_assoc.
Qed.

Definition validity : @DecodingKey jose → Algorithm → string → string → bool := valid.

#[export] Instance laws : JoseLaws validity.
Proof.
  split.
  - apply hex_roundtrip.
  - apply hex_no_dot.
  - intros jws h a. unfold decode_header, jose, read_header, header_alg.
    destruct (head (split_on dot jws)) as [seg|]; [|done].
    case_bool_decide as Hseg; [|done]. intros [= <-]. cbn [default from_option id b64url_decode].
    cbv zeta. change (default "" (Some seg)) with seg. rewrite Hseg. cbn. by intros [= <-].
  - intros head body sg h s raw key v Hh Hb Hs _ Hsg Hv Hraw Hp.
    cbn. unfold decode. rewrite split_compact by done. cbn in Hsg, Hraw. rewrite Hsg, Hraw.
    unfold validity in Hv. by rewrite Hv.
  - intros jws key alg v. cbn. unfold decode.
    destruct (split_on dot jws) as [|head [|body [|sg [|]]]] eqn:E; try done.
    destruct (hex_decode sg) as [s|] eqn:Hs; [|done].
    destruct (hex_decode body) as [raw|] eqn:Hr; [|done].
    destruct (valid _ _ _ s) eqn:Hv; [|done]. intros Hp.
    exists head, body, sg, s, raw. split; [by apply split_compact_inv|]. done.
Qed.

Definition signer : IssuerKey := mkIssuerKey "k1" ES256 Local (λ _, Ok sig).
Definition keys : IssuerKeys := {[ "k1" := (ES256, tt) ]}.
Definition opts : VerifyOpts NoRevocations :=
  VerifyOpts_trusting (mkTrust keys "mediator-1" "plane") 50.
Definition jws : string := match mint contract signer with Ok j => j | Err _ => "" end.

Lemma minted : mint contract signer = Ok jws.
Proof. vm_compute. reflexivity. Qed.

Definition verified : VerifiedContract := mkVerifiedContract contract ["read"] 50.

Lemma mint_verify_roundtrip_witness : verify_artifact jws opts = Ok verified.
Proof.
  apply (mint_verify_roundtrip validity contract signer tt jws opts); try (vm_compute; reflexivity).
  - split; [by eexists|]. intros body sg. cbn. unfold read_header, compact, signing_input.
    assert (∀ r, split_on dot ((hex_encode header_text +:+ "." +:+ body) +:+ "." +:+ r)
      = hex_encode header_text :: split_on dot (body +:+ "." +:+ r)) as E.
    { intros r. rewrite string_app_assoc, string_app_assoc. change ("." +:+ ?x) with (String dot x).
      apply (split_on_app dot (hex_encode header_text)). apply hex_no_dot. }
    rewrite E. cbn [head]. by rewrite hex_roundtrip.
  - exists (VObject [("schema", VNumber (PosInt 1))]). split; [reflexivity|]. split; reflexivity.
  - decide_now.
  - intros input s [= <-]. reflexivity.
  - vm_compute. discriminate.
  - vm_compute. discriminate.
  - vm_compute. discriminate.
  - intros iss [= <-]. reflexivity.
Defined.

Lemma verify_artifact_sound_witness :
  pl_aud (vc_payload verified) = "mediator-1" ∧ (50 < pl_exp (vc_payload verified) + 0)%N.
Proof.
  destruct (verify_artifact_sound validity jws opts verified) as (_ & _ & Hx & Ha & _).
  - vm_compute. reflexivity.
  - vm_compute. discriminate.
  - vm_compute. discriminate.
  - split; [exact Ha|exact Hx].
Defined.

Lemma pins_wf p : (∀ k v, pin_items p !! k = Some v → k = "read" ∧ v = "sha256:aa" ∨
    k = "write" ∧ (v = "sha256:bb" ∨ v = "sha256:cc")) → pin_alg p = PIN_ALG → pin_wf p.
Proof.
  intros H0 Ha. split; [rewrite Ha; decide_now|]. intros k v Hk.
  destruct (H0 k v Hk) as [[-> ->]|[-> [->| ->]]]; split; decide_now.
Qed.

Lemma callee_pin_wf : pin_wf callee_pin.
Proof.
  apply pins_wf; [|done]. intros k v Hk. cbn in Hk.
  apply lookup_insert_Some in Hk as [[<- <-]|[_ Hk]]; [naive_solver|].
  apply lookup_singleton_Some in Hk as [<- <-]. naive_solver.
Qed.

(** The same server after [write], which is not contracted, changed. *)
Definition moved_pin : Pin := mkPin PIN_ALG "sha256:n" {[ "read" := "sha256:aa"; "write" := "sha256:cc" ]} 6.
Lemma moved_pin_wf : pin_wf moved_pin.
Proof.
  apply pins_wf; [|done]. intros k v Hk. cbn in Hk.
  apply lookup_insert_Some in Hk as [[<- <-]|[_ Hk]]; [naive_solver|].
  apply lookup_singleton_Some in Hk as [<- <-]. naive_solver.
Qed.

Lemma check_pin_binds_witness : check_pin verified moved_pin = Ok tt.
Proof.
  apply (check_pin_binds verified callee_pin moved_pin digest callee_pin_wf moved_pin_wf);
    [reflexivity|reflexivity|vm_compute; reflexivity|].
  intros n Hn. apply list_elem_of_singleton in Hn as ->. exists "sha256:aa". split; reflexivity.
Defined.

Lemma add_jwks_sound_witness : ∃ keys' report,
  add_jwks ∅ "jwks" = Ok (keys', report) ∧ keys' !! "k2" = None.
Proof.
  destruct (add_jwks_sound ∅ "jwks" jwk_set) as [_ Hok]; [vm_compute; reflexivity|].
  exists {[ "k1" := (ES256, tt) ]}, (mkJwksReport ["k1"] [RsaWithoutAlg "k2"]).
  split; [vm_compute; reflexivity|].
  destruct (Hok {[ "k1" := (ES256, tt) ]} (mkJwksReport ["k1"] [RsaWithoutAlg "k2"]))
    as (_ & _ & Hout & _); [vm_compute; reflexivity|].
  apply (Hout "k2"). decide_now.
Defined.
End TestJose.
