(* ===== verification/Log.v ===== *)
(** * Log: the segmented append-only log ([crates/wc-control/src/store.rs], [Log])

    A log is a sequence of segment files, each a text of one JSON record per line.  The
    files are modelled by their bytes, so that a torn write leaves what it leaves on
    disk.  What the operating system answers to a write, a sync and a rotation is the
    argument [Io]; the single-writer lock is the flag [log_locked].  serde's record
    (de)serialiser is the parameter [FramedJson]. *)

From S2P Require Import Prelude Text Errors.

Record Framed (T : Type) := mkFramed { fr_seq : N; fr_ts : N; fr_rec : T }.
Arguments mkFramed {T}.
Arguments fr_seq {T}.
Arguments fr_ts {T}.
Arguments fr_rec {T}.

Inductive Durability := Durable | Batched.

Definition SYNC_EVERY : N := 64.
Definition DEFAULT_SEGMENT_BYTES : N := 256 * 1024 * 1024.

(** [serde_json] on [Framed<T>], and on [Framed<SeqOnly>], which reads the number alone. *)
Class FramedJson (T : Type) := {
  print_framed : Framed T → string;
  parse_framed : string → option (Framed T);
  parse_seq : string → option N
}.

(** What a write, a sync and the opening of the next segment come to.  A failed write may
    have put a prefix of its bytes on disk. *)
Inductive WriteIo := Written | Torn (prefix : string).
Record Io := mkIo { io_write : WriteIo; io_sync : bool; io_rotate : bool }.
Definition io_ok : Io := mkIo Written true true.

Record Log := mkLog {
  log_closed : list string;      (* full segments, oldest first *)
  log_current : string;          (* the segment being appended to *)
  log_last_seq : N;
  log_since_sync : N;
  log_segment_bytes : N;
  log_locked : bool
}.

Definition LFs : string := String "010"%char "".

(** ** Reading *)

(** [BufRead::lines]: text up to each line feed (a carriage return before it dropped), and
    the rest if there is any. *)
Fixpoint file_lines (s : string) : list string :=
  match s with
  | EmptyString => []
  | String c r =>
    if bool_decide (c = "010"%char) then "" :: file_lines r
    else match r with
         | EmptyString => [String c ""]
         | String d r' =>
           if bool_decide (c = "013"%char) && bool_decide (d = "010"%char) then "" :: file_lines r'
           else match file_lines r with
                | [] => [String c ""]
                | w :: ws => String c w :: ws
                end
         end
  end.

(** [line.trim().is_empty()]. *)
Definition is_blank (s : string) : bool := forallb is_whitespace (chars s).

Record Replay (T : Type) := mkReplay { rp_records : list T; rp_truncated_tail : bool }.
Arguments mkReplay {T}.
Arguments rp_records {T}.
Arguments rp_truncated_tail {T}.

(** The loop of [read_segment] over the lines of one file; only the last line may fail to
    parse. *)
Fixpoint read_lines {A} (parse : string → option A) (lines : list string) (out : Replay A)
    : result (Replay A) :=
  match lines with
  | [] => Ok out
  | line :: rest =>
    if is_blank line then read_lines parse rest out
    else match parse line with
         | Some r => read_lines parse rest (mkReplay (rp_records out ++ [r]) (rp_truncated_tail out))
         | None => match rest with
                   | [] => Ok (mkReplay (rp_records out) true)
                   | _ => Err CHAIN_BROKEN
                   end
         end
  end.

Definition read_segment {A} (parse : string → option A) (content : string) (out : Replay A)
    : result (Replay A) :=
  read_lines parse (file_lines content) out.

Section Log.
Context {T : Type} `{FramedJson T}.

Definition log_segments (l : Log) : list string := log_closed l ++ [log_current l].

(** [Log::replay]: every record of every segment, oldest first. *)
Definition replay (segments : list string) : result (Replay (Framed T)) :=
  foldR (λ out content, read_segment parse_framed content out) (mkReplay [] false) segments.

Definition replay_until (segments : list string) (ts : N) : result (Replay (Framed T)) :=
  let? all := replay segments in
  Ok (mkReplay (filterb (λ f, fr_ts f <=? ts)%N (rp_records all)) (rp_truncated_tail all)).

(** ** Opening *)

Definition last_seq_in (content : string) : result (option N) :=
  let? out := read_segment parse_seq content (mkReplay [] false) in
  Ok (last (rp_records out)).

(** Walk back from the newest segment to one that holds a record. *)
Fixpoint newest_seq (newest_first : list string) : result N :=
  match newest_first with
  | [] => Ok 0%N
  | seg :: older =>
    let? s := last_seq_in seg in
    match s with Some seq => Ok seq | None => newest_seq older end
  end.

(** [Log::assemble] over the segments found on disk (none: an empty first one). *)
Definition assemble (segments : list string) (locked : bool) : result Log :=
  let? last_seq := newest_seq (reverse segments) in
  Ok (mkLog (removelast segments) (default "" (last segments)) last_seq 0 DEFAULT_SEGMENT_BYTES locked).

Definition open_read_only (segments : list string) : result Log := assemble segments false.
Definition with_lock (segments : list string) : result Log := assemble segments true.

Definition with_segment_bytes (l : Log) (bytes : N) : Log :=
  mkLog (log_closed l) (log_current l) (log_last_seq l) (log_since_sync l) bytes (log_locked l).

(** ** Appending

    Each step returns the log as the step left it with its outcome. *)

Definition sync (l : Log) (io : Io) : Log * result unit :=
  if io_sync io
  then (mkLog (log_closed l) (log_current l) (log_last_seq l) 0 (log_segment_bytes l) (log_locked l),
        Ok tt)
  else (l, Err CHAIN_APPEND_FAILED).

Definition maybe_rotate (l : Log) (io : Io) : Log * result unit :=
  if (str_len (log_current l) <? log_segment_bytes l)%N then (l, Ok tt)
  else
    let '(l, r) := sync l io in
    match r with
    | Err e => (l, Err e)
    | Ok _ =>
      if io_rotate io
      then (mkLog (log_closed l ++ [log_current l]) "" (log_last_seq l) 0 (log_segment_bytes l)
              (log_locked l), Ok tt)
      else (l, Err CHAIN_APPEND_FAILED)
    end.

Definition write_all (l : Log) (buf : string) (io : Io) : Log * result unit :=
  let put text := mkLog (log_closed l) (log_current l +:+ text) (log_last_seq l) (log_since_sync l)
                    (log_segment_bytes l) (log_locked l) in
  match io_write io with
  | Written => (put buf, Ok tt)
  | Torn prefix => (put prefix, Err CHAIN_APPEND_FAILED)
  end.

Definition append (l : Log) (rec : T) (now : N) (durability : Durability) (io : Io)
    : Log * result N :=
  if negb (log_locked l) then (l, Err STORE_LOCKED)
  else
    let framed := mkFramed (u64_add (log_last_seq l) 1) now rec in
    let '(l, r) := write_all l (print_framed framed +:+ LFs) io in
    match r with
    | Err e => (l, Err e)
    | Ok _ =>
      let l := mkLog (log_closed l) (log_current l) (u64_add (log_last_seq l) 1)
                 (log_since_sync l + 1) (log_segment_bytes l) (log_locked l) in
      let must_sync := match durability with
                       | Durable => true
                       | Batched => (SYNC_EVERY <=? log_since_sync l)%N
                       end in
      let '(l, r) := if must_sync then sync l io else (l, Ok tt) in
      match r with
      | Err e => (l, Err e)
      | Ok _ =>
        let '(l, r) := maybe_rotate l io in
        match r with
        | Err e => (l, Err e)
        | Ok _ => (l, Ok (log_last_seq l))
        end
      end
    end.
End Log.

(** ** What the log relies on of the record format

    A record prints as one JSON object on one line, and reads back. *)
Class FramedJsonLaws (T : Type) `{FramedJson T} : Prop := {
  framed_roundtrip f : parse_framed (print_framed f) = Some f;
  framed_seq f : parse_seq (print_framed f) = Some (fr_seq f);
  framed_object f : ∃ body, print_framed f = "{" +:+ body +:+ "}";
  framed_one_line f : no_byte "010"%char (print_framed f) ∧ no_byte "013"%char (print_framed f)
}.

(** ** Lines of a file *)

(** Free of line breaks. *)
Definition one_line (w : string) : Prop := no_byte "010"%char w ∧ no_byte "013"%char w.

Lemma one_line_nil : one_line "".
Proof. split; apply not_elem_of_nil. Qed.

Lemma one_line_cons c w : one_line (String c w) → c ≠ "010"%char ∧ c ≠ "013"%char ∧ one_line w.
Proof.
  unfold one_line, no_byte. cbn [bytes]. intros [H1 H2].
  rewrite not_elem_of_cons in H1, H2. naive_solver.
Qed.

Lemma file_lines_cons c s : c ≠ "010"%char → c ≠ "013"%char →
  file_lines (String c s) = match file_lines s with [] => [String c ""] | w :: ws => String c w :: ws end.
Proof.
  intros H1 H2. destruct s as [|d s]; cbn [file_lines];
    rewrite (bool_decide_eq_false_2 (c = "010"%char)) by done; [done|].
  by rewrite (bool_decide_eq_false_2 (c = "013"%char)).
Qed.

Lemma file_lines_terminated w r : one_line w → file_lines (w +:+ LFs +:+ r) = w :: file_lines r.
Proof.
  induction w as [|c w IH]; intros Hw; [done|].
  apply one_line_cons in Hw as (H1 & H2 & Hw).
  change (String c w +:+ LFs +:+ r) with (String c (w +:+ LFs +:+ r)).
  by rewrite file_lines_cons, IH.
Qed.

Lemma file_lines_tail w : one_line w → file_lines w = if bool_decide (w = "") then [] else [w].
Proof.
  induction w as [|c w IH]; intros Hw; [done|].
  apply one_line_cons in Hw as (H1 & H2 & Hw). rewrite file_lines_cons, IH by done.
  destruct w; done.
Qed.

Lemma one_line_app v w : one_line v → one_line w → one_line (v +:+ w).
Proof. unfold one_line, no_byte. rewrite bytes_app, !not_elem_of_app. tauto. Qed.

Section LogLemmas.
Context {T : Type} `{FramedJsonLaws T}.

(** The text of some records, one per line. *)
Definition text_of (recs : list (Framed T)) : string :=
  foldr (λ f acc, print_framed f +:+ LFs +:+ acc) "" recs.

Lemma text_of_app recs recs' : text_of (recs ++ recs') = text_of recs +:+ text_of recs'.
Proof.
  induction recs as [|f recs IH]; [done|]. simpl. rewrite IH. by rewrite !string_app_assoc.
Qed.

Lemma file_lines_text_app recs r :
  file_lines (text_of recs +:+ r) = map print_framed recs ++ file_lines r.
Proof.
  induction recs as [|f recs IH]; [done|].
  simpl. rewrite !string_app_assoc, file_lines_terminated by apply framed_one_line. by rewrite IH.
Qed.

Lemma file_lines_text recs tail :
  one_line tail →
  file_lines (text_of recs +:+ tail)
  = map print_framed recs ++ (if bool_decide (tail = "") then [] else [tail]).
Proof. intros Ht. by rewrite file_lines_text_app, file_lines_tail. Qed.

Lemma print_framed_not_blank f r : is_blank (print_framed f +:+ r) = false.
Proof. destruct (framed_object f) as [body ->]. done. Qed.

Lemma read_lines_printed recs rest out :
  read_lines parse_framed (map print_framed recs ++ rest) out
  = read_lines parse_framed rest (mkReplay (rp_records out ++ recs) (rp_truncated_tail out)).
Proof.
  revert out. induction recs as [|f recs IH]; intros out; simpl.
  - rewrite app_nil_r. by destruct out.
  - rewrite <-(string_app_nil_r (print_framed f)) at 1. rewrite print_framed_not_blank.
    rewrite framed_roundtrip, IH. simpl. by rewrite <-app_assoc.
Qed.

Lemma read_lines_seqs recs rest out :
  read_lines parse_seq (map print_framed recs ++ rest) out
  = read_lines parse_seq rest (mkReplay (rp_records out ++ map fr_seq recs) (rp_truncated_tail out)).
Proof.
  revert out. induction recs as [|f recs IH]; intros out; simpl.
  - rewrite app_nil_r. by destruct out.
  - rewrite <-(string_app_nil_r (print_framed f)) at 1. rewrite print_framed_not_blank.
    rewrite framed_seq, IH. simpl. by rewrite <-app_assoc.
Qed.

Lemma read_segment_text recs out :
  read_segment parse_framed (text_of recs) out
  = Ok (mkReplay (rp_records out ++ recs) (rp_truncated_tail out)).
Proof.
  unfold read_segment. rewrite <-(string_app_nil_r (text_of recs)), file_lines_text by apply one_line_nil.
  by rewrite read_lines_printed.
Qed.

(** What a log holds: its segments are whole records, and the counter is the last one's. *)
Definition log_holds (l : Log) (recs : list (Framed T)) : Prop :=
  ∃ closed cur, log_closed l = map text_of closed ∧ log_current l = text_of cur ∧
    recs = concat closed ++ cur ∧ log_last_seq l = default 0%N (fr_seq <$> last recs).

Lemma replay_texts parts out :
  foldR (λ out content, read_segment parse_framed content out) out (map text_of parts)
  = Ok (mkReplay (rp_records out ++ concat parts) (rp_truncated_tail out)).
Proof.
  revert out. induction parts as [|p parts IH]; intros out; simpl.
  - rewrite app_nil_r. by destruct out.
  - rewrite read_segment_text. simpl. rewrite IH. simpl. by rewrite <-app_assoc.
Qed.

Lemma replay_holds l recs : log_holds l recs → replay (log_segments l) = Ok (mkReplay recs false).
Proof.
  intros (closed & cur & Hc & Hcur & -> & _). unfold replay, log_segments. rewrite Hc, Hcur.
  change [text_of cur] with (map text_of [cur]). rewrite <-map_app, replay_texts. simpl.
  rewrite concat_app. simpl. by rewrite app_nil_r.
Qed.

Lemma last_seq_in_text recs : last_seq_in (text_of recs) = Ok (last (map fr_seq recs)).
Proof.
  unfold last_seq_in, read_segment.
  rewrite <-(string_app_nil_r (text_of recs)), file_lines_text by apply one_line_nil.
  simpl. rewrite read_lines_seqs. done.
Qed.

Lemma last_fmap_seq (recs : list (Framed T)) : last (map fr_seq recs) = fr_seq <$> last recs.
Proof. change (map fr_seq recs) with (fr_seq <$> recs). apply fmap_last. Qed.

Lemma newest_seq_texts parts :
  newest_seq (reverse (map text_of parts)) = Ok (default 0%N (fr_seq <$> last (concat parts))).
Proof.
  induction parts as [|p parts IH] using rev_ind; [done|].
  rewrite map_app, reverse_app. cbn [map reverse]. simpl. rewrite last_seq_in_text. simpl.
  rewrite last_fmap_seq, concat_app, last_app. simpl. rewrite app_nil_r.
  destruct (last p); simpl; [done|exact IH].
Qed.

Lemma assemble_holds l recs locked :
  log_holds l recs → ∃ l', assemble (log_segments l) locked = Ok l' ∧ log_holds l' recs ∧
    log_last_seq l' = log_last_seq l ∧ log_locked l' = locked ∧ log_segments l' = log_segments l.
Proof.
  intros (closed & cur & Hc & Hcur & Hrecs & Hseq). unfold assemble, log_segments.
  rewrite Hc, Hcur. change [text_of cur] with (map text_of [cur]). rewrite <-map_app.
  rewrite newest_seq_texts. cbn [result_bind]. eexists. split; [done|].
  rewrite map_app. cbn [map]. rewrite removelast_last, last_snoc. cbn [default from_option].
  rewrite concat_app. simpl. rewrite app_nil_r, <-Hrecs. split; [|done].
  exists closed, cur. done.
Qed.

Lemma append_holds l recs rec now d io :
  log_holds l recs → log_locked l = true → is_u64 (log_last_seq l + 1) →
  io_write io = Written → io_sync io = true → io_rotate io = true →
  ∃ l', append l rec now d io = (l', Ok (log_last_seq l + 1)%N) ∧
    log_holds l' (recs ++ [mkFramed (log_last_seq l + 1) now rec]) ∧
    log_last_seq l' = (log_last_seq l + 1)%N ∧ log_locked l' = true.
Proof.
  intros (closed & cur & Hc & Hcur & Hrecs & Hseq) Hlock Hu Hw Hs Hr.
  assert (u64_add (log_last_seq l) 1 = (log_last_seq l + 1)%N) as Hadd.
  { unfold u64_add. apply N.mod_small. unfold is_u64 in Hu. lia. }
  set (f := mkFramed (log_last_seq l + 1) now rec).
  assert (log_current l +:+ print_framed f +:+ LFs = text_of (cur ++ [f])) as Htext.
  { rewrite text_of_app, <-Hcur. simpl. by rewrite string_app_nil_r. }
  unfold append, write_all. rewrite Hlock, Hw, Hadd. cbn [negb].
  fold f. cbn [log_closed log_current log_last_seq log_since_sync log_segment_bytes log_locked].
  rewrite Htext, Hadd.
  assert (last (recs ++ [f]) = Some f) as Hlast by apply last_snoc.
  destruct (match d with Durable => true | Batched => _ end);
    unfold sync, maybe_rotate; rewrite ?Hs;
    cbn [log_closed log_current log_last_seq log_since_sync log_segment_bytes log_locked];
    (destruct (str_len _ <? _)%N; [|unfold sync; rewrite ?Hs, ?Hr];
     cbn [log_closed log_current log_last_seq log_since_sync log_segment_bytes log_locked];
     eexists; (split; [done|]); (split; [|done])).
  1,3: exists closed, (cur ++ [f]); simpl; rewrite Hlast, Hrecs, app_assoc; done.
  all: exists (closed ++ [cur ++ [f]]), []; simpl; rewrite Hlast, Hrecs, Hc, map_app, concat_app;
    simpl; rewrite !app_nil_r, app_assoc; done.
Qed.
End LogLemmas.

(** ** Properties *)

Section LogProperties.
Context {T : Type} `{FramedJsonLaws T}.

(** A run of appends, with a disk that answers. *)
Fixpoint append_run (l : Log) (ops : list (T * N * Durability)) : result Log :=
  match ops with
  | [] => Ok l
  | (rec, now, d) :: ops =>
    let '(l, r) := append l rec now d io_ok in
    let? _ := r in append_run l ops
  end.

(** The records such a run writes, numbered from [n]. *)
Fixpoint frames (n : N) (ops : list (T * N * Durability)) : list (Framed T) :=
  match ops with
  | [] => []
  | (rec, now, _) :: ops => mkFramed n now rec :: frames (n + 1) ops
  end.

Definition fresh_log (segment_bytes : N) : Log := mkLog [] "" 0 0 segment_bytes true.

(** On a disk that answers, a writer's append goes through and leaves it a writer. *)
Lemma append_io_ok l rec now d :
  log_locked l = true → ∃ l' n, append l rec now d io_ok = (l', Ok n) ∧ log_locked l' = true.
Proof.
  intros Hl. unfold append. rewrite Hl. cbn [negb]. cbv zeta. unfold write_all, io_ok. cbn [io_write].
  set (ms := match d with Durable => _ | Batched => _ end). unfold sync. cbn [io_sync].
  destruct ms; unfold maybe_rotate, sync; cbn [io_sync io_rotate log_current log_segment_bytes];
    destruct (_ <? _)%N; eexists _, _; (split; [reflexivity|exact Hl]).
Qed.

Lemma append_run_holds ops l recs :
  log_holds l recs → log_locked l = true → is_u64 (log_last_seq l + len ops) →
  ∃ l', append_run l ops = Ok l' ∧ log_holds l' (recs ++ frames (log_last_seq l + 1) ops) ∧
    log_last_seq l' = (log_last_seq l + len ops)%N.
Proof.
  revert l recs. induction ops as [|[[rec now] d] ops IH]; intros l recs Hl Hlock Hu.
  - exists l. simpl. rewrite app_nil_r. unfold len. simpl. rewrite N.add_0_r. done.
  - assert (len ((rec, now, d) :: ops) = len ops + 1)%N as Hlen by (unfold len; simpl; lia).
    rewrite Hlen in Hu. unfold is_u64 in *.
    destruct (append_holds l recs rec now d io_ok) as (l1 & Happ & Hl1 & Hseq & Hlock1);
      try done; [unfold is_u64; lia|].
    destruct (IH l1 _ Hl1 Hlock1) as (l' & Hrun & Hl' & Hseq'); [unfold is_u64; lia|].
    exists l'. cbn [append_run]. rewrite Happ. cbn [result_bind]. split; [done|].
    cbn [frames]. rewrite <-app_assoc in Hl'. rewrite Hseq in Hl', Hseq'.
    split; [exact Hl'|]. rewrite Hlen. lia.
Qed.
End LogProperties.

(** C38: what is appended is what is read back: after any run of appends to a fresh log,
    however it was split into segments, every append succeeded, replaying the segments
    gives exactly the appended records in order, numbered 1, 2, 3 and so on, with no torn
    tail; a point-in-time replay gives exactly those stamped at or before it; and
    reopening the log continues at the next number. *)
Theorem log_roundtrip {T} `{FramedJsonLaws T} segment_bytes (ops : list (T * N * Durability)) :
  is_u64 (len ops) →
  ∃ l, append_run (fresh_log segment_bytes) ops = Ok l ∧
    replay (log_segments l) = Ok (mkReplay (frames 1 ops) false) ∧
    (∀ ts, replay_until (log_segments l) ts
           = Ok (mkReplay (filterb (λ f, fr_ts f <=? ts)%N (frames 1 ops)) false)) ∧
    ∃ l', with_lock (log_segments l) = Ok l' ∧ log_last_seq l' = len ops ∧
          log_segments l' = log_segments l.
Proof.
  intros Hu. destruct (append_run_holds ops (fresh_log segment_bytes) []) as (l & Hrun & Hl & Hseq).
  - exists [], []. done.
  - done.
  - simpl. by rewrite N.add_0_l.
  - exists l. split; [done|]. pose proof (replay_holds _ _ Hl) as Hrep.
    split; [exact Hrep|]. split.
    + intros ts. unfold replay_until. rewrite Hrep. done.
    + destruct (assemble_holds l _ true Hl) as (l' & Ha & _ & Hs & _ & Hseg).
      exists l'. split; [exact Ha|]. split; [|done]. rewrite Hs, Hseq. simpl. by rewrite N.add_0_l.
Qed.

(** A torn tail swallows the next record.  A log whose last line a crash left
    unfinished opens (the torn line is tolerated and reported), but nothing ends that
    line: the next append, which reports success, is written onto it, so its record is
    missing from every later replay -- and one more append makes the glued line an
    interior one, after which the log no longer replays at all. *)
Theorem log_torn_tail_swallows {T} `{FramedJsonLaws T} (recs : list (Framed T)) tail rec rec' now :
  one_line tail → is_blank tail = false → parse_framed tail = None → parse_seq tail = None →
  (∀ f, is_blank (tail +:+ print_framed f) = false ∧ parse_framed (tail +:+ print_framed f) = None) →
  let n := default 0%N (fr_seq <$> last recs) in
  let torn := text_of recs +:+ tail in
  is_u64 (n + 2) →
  (str_len (torn +:+ print_framed (mkFramed (n + 1) now rec) +:+ LFs
            +:+ print_framed (mkFramed (n + 2) now rec') +:+ LFs) < DEFAULT_SEGMENT_BYTES)%N →
  replay [torn] = Ok (mkReplay recs true) ∧
  ∃ l l1 l2, with_lock [torn] = Ok l ∧
    append l rec now Durable io_ok = (l1, Ok (n + 1)%N) ∧
    replay (log_segments l1) = Ok (mkReplay recs true) ∧
    append l1 rec' now Durable io_ok = (l2, Ok (n + 2)%N) ∧
    replay (T := T) (log_segments l2) = Err CHAIN_BROKEN.
Proof.
  intros Hline Hblank Hparse Hseq Hglue n torn Hu Hlen.
  assert (u64_add n 1 = n + 1 ∧ u64_add (n + 1) 1 = n + 2)%N as [Hn1 Hn2].
  { unfold u64_add, is_u64 in *. split; rewrite N.mod_small; lia. }
  set (f := mkFramed (n + 1) now rec) in *. set (g := mkFramed (n + 2) now rec') in *.
  destruct (Hglue f) as [Hgb Hgp].
  assert (one_line (tail +:+ print_framed f)) as Hgl
    by (apply one_line_app; [done|apply framed_one_line]).
  assert (tail ≠ "") as Hne by (by intros ->).
  split.
  { unfold replay, torn. simpl. unfold read_segment. rewrite file_lines_text, read_lines_printed by done.
    rewrite bool_decide_eq_false_2 by done. simpl. by rewrite Hblank, Hparse. }
  exists (mkLog [] torn n 0 DEFAULT_SEGMENT_BYTES true),
    (mkLog [] (torn +:+ print_framed f +:+ LFs) (n + 1) 0 DEFAULT_SEGMENT_BYTES true),
    (mkLog [] ((torn +:+ print_framed f +:+ LFs) +:+ print_framed g +:+ LFs) (n + 2) 0
       DEFAULT_SEGMENT_BYTES true).
  assert (str_len (torn +:+ print_framed f +:+ LFs) < DEFAULT_SEGMENT_BYTES)%N as Hlen1.
  { unfold str_len in *. rewrite !string_length_app in *. lia. }
  split; [|split; [|split; [|split]]].
  - unfold with_lock, assemble. simpl. unfold last_seq_in, read_segment. unfold torn.
    rewrite file_lines_text by done. rewrite bool_decide_eq_false_2 by done.
    rewrite read_lines_seqs. simpl. rewrite Hblank, Hseq. simpl. rewrite last_fmap_seq.
    unfold n. by destruct (last recs).
  - unfold append, write_all. simpl. rewrite Hn1. fold f.
    unfold maybe_rotate. cbn [log_current log_segment_bytes]. by rewrite (proj2 (N.ltb_lt _ _) Hlen1).
  - unfold replay, log_segments, torn. simpl. unfold read_segment.
    rewrite !string_app_assoc, file_lines_text_app, read_lines_printed.
    rewrite <-string_app_assoc, <-(string_app_nil_r LFs), file_lines_terminated by done.
    simpl. by rewrite Hgb, Hgp.
  - unfold append, write_all. simpl. rewrite Hn2. fold g.
    unfold maybe_rotate. cbn [log_current log_segment_bytes].
    rewrite (proj2 (N.ltb_lt _ _)); [done|]. by rewrite !string_app_assoc in *.
  - unfold replay, log_segments, torn. simpl. unfold read_segment.
    rewrite !string_app_assoc, file_lines_text_app, read_lines_printed.
    rewrite <-(string_app_assoc tail), file_lines_terminated by done.
    rewrite <-(string_app_nil_r LFs) at 1.
    rewrite file_lines_terminated by apply framed_one_line.
    simpl. by rewrite Hgb, Hgp.
Qed.

(** A failed append may still have been written: when the record reached the file but
    the sync did not, [append] reports an error with the record in the log and its number
    used, so a retry appends the event a second time under the next number. *)
Theorem append_error_keeps_record {T} `{FramedJsonLaws T} l (recs : list (Framed T)) rec now :
  log_holds l recs → log_locked l = true → is_u64 (log_last_seq l + 1) →
  let f := mkFramed (log_last_seq l + 1) now rec in
  ∃ l', append l rec now Durable (mkIo Written false true) = (l', Err CHAIN_APPEND_FAILED) ∧
    log_holds l' (recs ++ [f]) ∧ replay (log_segments l') = Ok (mkReplay (recs ++ [f]) false).
Proof.
  intros (closed & cur & Hc & Hcur & Hrecs & Hseq) Hlock Hu f.
  assert (u64_add (log_last_seq l) 1 = (log_last_seq l + 1)%N) as Hadd.
  { unfold u64_add. apply N.mod_small. unfold is_u64 in Hu. lia. }
  unfold append, write_all. rewrite Hlock. simpl. rewrite Hadd. fold f.
  eexists. split; [reflexivity|].
  match goal with |- ?A ∧ _ => assert A as Hh; [|by split; [|apply replay_holds]] end.
  exists closed, (cur ++ [f]). simpl. split; [done|]. split.
  - rewrite Hcur, text_of_app. simpl. by rewrite string_app_nil_r.
  - rewrite Hrecs, app_assoc, last_snoc. done.
Qed.

(** ** A record format with the laws *)

Module TestFramed.
Fixpoint bits (p : positive) : string :=
  match p with xH => "}" | xO p => "0" +:+ bits p | xI p => "1" +:+ bits p end.
Fixpoint unbits (s : string) : option positive :=
  match s with
  | EmptyString => None
  | String c r => if bool_decide (c = "0"%char) then xO <$> unbits r
                  else if bool_decide (c = "1"%char) then xI <$> unbits r
                  else if bool_decide (c = "}"%char ∧ r = "") then Some xH else None
  end.

Lemma unbits_bits p : unbits (bits p) = Some p.
Proof.
  induction p as [p IH|p IH|]; [| |done];
    [change (bits (xI p)) with (String "1" (bits p))|change (bits (xO p)) with (String "0" (bits p))];
    simpl; by rewrite IH.
Qed.

Lemma bits_object p : ∃ body, bits p = body +:+ "}".
Proof.
  induction p as [p [b IH]|p [b IH]|]; [exists ("1" +:+ b)|exists ("0" +:+ b)|by exists ""];
    simpl; by rewrite IH, string_app_assoc.
Qed.

Lemma bits_bytes p b : b ∈ bytes (bits p) → b ∈ [48; 49; 125]%N.
Proof.
  induction p as [p IH|p IH|]; cbn [bits]; [| |cbn; set_solver];
    rewrite bytes_app, elem_of_app; cbn; set_solver.
Qed.

Section Format.
Context {T : Type} `{Countable T}.

Definition code (f : Framed T) : positive := encode (fr_seq f, fr_ts f, fr_rec f).
Definition uncode (p : positive) : option (Framed T) :=
  '(s, t, r) ← decode p; Some (mkFramed s t r).

#[local] Instance format : FramedJson T := {|
  print_framed f := "{" +:+ bits (code f);
  parse_framed s := match strip_prefix "{" s with
                    | Some r => match unbits r with Some p => uncode p | None => None end
                    | None => None
                    end;
  parse_seq s := match strip_prefix "{" s with
                 | Some r => match unbits r with Some p => fr_seq <$> uncode p | None => None end
                 | None => None
                 end
|}.

Lemma uncode_code f : uncode (code f) = Some f.
Proof. unfold uncode, code. rewrite decode_encode. by destruct f. Qed.

Lemma format_strip f : strip_prefix "{" ("{" +:+ bits (code f)) = Some (bits (code f)).
Proof. by apply strip_prefix_Some. Qed.

#[local] Instance format_laws : FramedJsonLaws T.
Proof.
  split.
  - intros f. unfold parse_framed, print_framed, format.
    by rewrite format_strip, unbits_bits, uncode_code.
  - intros f. unfold parse_seq, print_framed, format.
    by rewrite format_strip, unbits_bits, uncode_code.
  - intros f. destruct (bits_object (code f)) as [b Hb]. exists b. cbn. by rewrite Hb.
  - intros f. split; unfold no_byte, print_framed, format; rewrite bytes_app, elem_of_app;
      intros [Hin|Hin%bits_bytes]; revert Hin; decide_now.
Qed.

End Format.
#[export] Existing Instances format format_laws.

Lemma log_roundtrip_witness : ∃ l, append_run (fresh_log 20) [(7, 1, Durable); (8, 2, Batched)]%N = Ok l ∧
  replay (log_segments l) = Ok (mkReplay [mkFramed 1 1 7; mkFramed 2 2 8]%N false).
Proof.
  destruct (log_roundtrip 20 [(7, 1, Durable); (8, 2, Batched)]%N) as (l & Hl & Hr & _);
    [vm_compute; discriminate|]. exists l. split; [exact Hl|exact Hr].
Defined.

Lemma unbits_torn r : unbits ("0{" +:+ r) = None.
Proof. reflexivity. Qed.

Lemma log_torn_tail_swallows_witness :
  let torn := text_of [mkFramed 1 1 7]%N +:+ "{0" in
  ∃ l l1, with_lock (T:=N) [torn] = Ok l ∧ append l 9%N 3 Durable io_ok = (l1, Ok 2%N) ∧
    replay (log_segments l1) = Ok (mkReplay [mkFramed 1 1 7]%N true).
Proof.
  destruct (log_torn_tail_swallows [mkFramed 1 1 7]%N "{0" 9%N 10%N 3%N) as (_ & l & l1 & _ & H1 & H2 & H3 & _).
  - split; decide_now.
  - reflexivity.
  - reflexivity.
  - reflexivity.
  - intros f. split; reflexivity.
  - vm_compute. discriminate.
  - vm_compute. reflexivity.
  - exists l, l1. split; [exact H1|]. split; [exact H2|exact H3].
Defined.

Lemma append_error_keeps_record_witness : ∃ l',
  append (fresh_log 100) 5%N 2 Durable (mkIo Written false true) = (l', Err CHAIN_APPEND_FAILED) ∧
  replay (log_segments l') = Ok (mkReplay [mkFramed 1 2 5]%N false).
Proof.
  destruct (append_error_keeps_record (fresh_log 100) [] 5%N 2%N) as (l' & H1 & _ & H3).
  - exists [], []. repeat split.
  - reflexivity.
  - vm_compute. discriminate.
  - exists l'. split; [exact H1|exact H3].
Defined.
End TestFramed.
