(* ===== verification/Store.v ===== *)
(** * Store: events and the projection ([crates/wc-control/src/store.rs])

    The registry's state is a fold of [apply] over the event log.  [HashMap]s are [gmap]s,
    [HashSet]s [gset]s; the expiry heap is the list of what was pushed.  Anomaly texts are
    constructors that keep what the text names.  The records the events carry from other
    modules ([PendingRequest], [Offer], [ApprovalBlock]) are here as data. *)

From S2P Require Import Prelude Text Errors Model Canon Contract Log.

(** ** Records the events carry *)

Inductive RequestStatus := ReqPending | ReqMinted | ReqDenied | ReqLapsed.
#[global] Instance RequestStatus_eq_dec : EqDecision RequestStatus.
Proof. solve_decision. Defined.

Record PendingRequest := mkPendingRequest {
  req_id : string;
  req_caller : EntityId;
  req_callee : EntityId;
  req_surface : Surface;
  req_terms : Terms;
  req_ttl_secs : N;
  req_justification : string;
  req_requester : HumanRef;
  req_mediators : list string;
  req_approver_role : option string;
  req_dual_control : bool;
  req_require_distinct_approvers : bool;
  req_owner_merge_approves : bool;
  req_owner_must_approve : bool;
  req_policy_version : string;
  req_policy_reason : string;
  req_policy_trace : string;
  req_created_at : N;
  req_expires_at : N;
  req_status : RequestStatus
}.
#[global] Instance PendingRequest_eq_dec : EqDecision PendingRequest.
Proof. solve_decision. Defined.

Definition set_req_status (r : PendingRequest) (s : RequestStatus) : PendingRequest :=
  mkPendingRequest (req_id r) (req_caller r) (req_callee r) (req_surface r) (req_terms r)
    (req_ttl_secs r) (req_justification r) (req_requester r) (req_mediators r)
    (req_approver_role r) (req_dual_control r) (req_require_distinct_approvers r)
    (req_owner_merge_approves r) (req_owner_must_approve r) (req_policy_version r)
    (req_policy_reason r) (req_policy_trace r) (req_created_at r) (req_expires_at r) s.

Record ApprovalBlock := mkApprovalBlock { ab_approvers : list string; ab_min : N }.
#[global] Instance ApprovalBlock_eq_dec : EqDecision ApprovalBlock.
Proof. solve_decision. Defined.

Inductive TermApproval := PreGranted | NamedConsumer.
#[global] Instance TermApproval_eq_dec : EqDecision TermApproval.
Proof. solve_decision. Defined.

Inductive TierOp := OpGt | OpLt | OpEq | OpContains.
#[global] Instance TierOp_eq_dec : EqDecision TierOp.
Proof. solve_decision. Defined.
Record TierMatch := mkTierMatch { tm_op : TierOp; tm_value : N }.
#[global] Instance TierMatch_eq_dec : EqDecision TierMatch.
Proof. solve_decision. Defined.

Record Audience := mkAudience { aud_zone : option string; aud_tier : option TierMatch }.
#[global] Instance Audience_eq_dec : EqDecision Audience.
Proof. solve_decision. Defined.

Record Deprecation := mkDeprecation { dep_item : string; dep_after : N }.
#[global] Instance Deprecation_eq_dec : EqDecision Deprecation.
Proof. solve_decision. Defined.

Record Term := mkTerm {
  term_items : list string;
  term_to : Audience;
  term_approval : TermApproval;
  term_ttl_max : N;
  term_deprecates : list Deprecation
}.
#[global] Instance Term_eq_dec : EqDecision Term.
Proof. solve_decision. Defined.

Record OfferSource := mkOfferSource { os_repo : string; os_sha : string; os_manifest_digest : string }.
#[global] Instance OfferSource_eq_dec : EqDecision OfferSource.
Proof. solve_decision. Defined.

Record Offer := mkOffer {
  offer_asset : EntityId;
  offer_version : N;
  offer_surface_kind : SurfaceKind;
  offer_surface_digest : string;
  offer_terms : list Term;
  offer_source : OfferSource;
  offer_consent : option MergeApproval;
  offer_approval : option ApprovalBlock
}.
#[global] Instance Offer_eq_dec : EqDecision Offer.
Proof. solve_decision. Defined.

(** ** Events *)

Inductive Actor := ActorHuman (id : HumanRef) | ActorService (id : string) | ActorAssurance.
#[global] Instance Actor_eq_dec : EqDecision Actor.
Proof. solve_decision. Defined.

Inductive RepinCause := RepinAdmission | RepinBenign | RepinMaterial | RepinAlgUpgrade.
Inductive SuspendCause := SuspendDrift | SuspendReattest | SuspendOwner | SuspendPolicy.

Record NeedRecord := mkNeedRecord {
  need_asset : EntityId;
  need_approval : option ApprovalBlock;
  need_repo : string;
  need_sha : string
}.
#[global] Instance NeedRecord_eq_dec : EqDecision NeedRecord.
Proof. solve_decision. Defined.

Inductive Event :=
| EntityPut (entity : Entity) (actor : Actor)
| EntityTransition (id : EntityId) (to : Lifecycle) (why : string) (actor : Actor)
| EntityRepin (id : EntityId) (pin : Pin) (cause : RepinCause) (diff : PinDiff)
| EntityPosture (id : EntityId) (posture : Posture) (score : N)
| ContractRequest (request : PendingRequest) (actor : Actor)
| ContractApprove (request : string) (approvers : list HumanRef) (policy_version : string) (actor : Actor)
| ContractDeny (request reason : string) (actor : Actor)
| ContractLapse (request : string)
| ContractIssued (request : string) (cid : Cid)
| ContractMint (record : ContractRecord)
| ContractRevoke (cid : Cid) (reason : string) (actor : Actor)
| ContractSuspend (cid : Cid) (cause : SuspendCause)
| ContractReinstate (cid : Cid)
| QuarantineOrder (party : EntityId) (reason : string) (actor : Actor) (dual_control : list HumanRef)
| QuarantineCleared (party : EntityId) (actor : Actor) (dual_control : list HumanRef)
| OfferPublished (offer : Offer) (actor : Actor)
| NeedDeclared (need : NeedRecord) (actor : Actor)
| UnknownEvent.

(** ** The projection *)

Record Projection := mkProjection {
  pr_entities : gmap EntityId Entity;
  pr_contracts : gmap Cid ContractRecord;
  pr_by_caller : gmap EntityId (gset Cid);
  pr_by_callee : gmap EntityId (gset Cid);
  pr_by_pin : gmap string (gset Cid);
  pr_requests : gmap string PendingRequest;
  pr_expiring : list (N * Cid);
  pr_offers : gmap EntityId Offer;
  pr_needs : gmap EntityId NeedRecord;
  pr_seq : N
}.

Definition Projection_default : Projection := mkProjection ∅ ∅ ∅ ∅ ∅ ∅ [] ∅ ∅ 0.

(** Field updates. *)
Definition with_entities (p : Projection) m := mkProjection m (pr_contracts p) (pr_by_caller p)
  (pr_by_callee p) (pr_by_pin p) (pr_requests p) (pr_expiring p) (pr_offers p) (pr_needs p) (pr_seq p).
Definition with_contracts (p : Projection) m := mkProjection (pr_entities p) m (pr_by_caller p)
  (pr_by_callee p) (pr_by_pin p) (pr_requests p) (pr_expiring p) (pr_offers p) (pr_needs p) (pr_seq p).
Definition with_requests (p : Projection) m := mkProjection (pr_entities p) (pr_contracts p)
  (pr_by_caller p) (pr_by_callee p) (pr_by_pin p) m (pr_expiring p) (pr_offers p) (pr_needs p) (pr_seq p).
Definition with_offers (p : Projection) m := mkProjection (pr_entities p) (pr_contracts p)
  (pr_by_caller p) (pr_by_callee p) (pr_by_pin p) (pr_requests p) (pr_expiring p) m (pr_needs p) (pr_seq p).
Definition with_needs (p : Projection) m := mkProjection (pr_entities p) (pr_contracts p)
  (pr_by_caller p) (pr_by_callee p) (pr_by_pin p) (pr_requests p) (pr_expiring p) (pr_offers p) m (pr_seq p).
Definition with_seq (p : Projection) s := mkProjection (pr_entities p) (pr_contracts p)
  (pr_by_caller p) (pr_by_callee p) (pr_by_pin p) (pr_requests p) (pr_expiring p) (pr_offers p)
  (pr_needs p) s.

(** What an inconsistent event reports (the text of [RebuildReport::inconsistent]). *)
Inductive Anomaly :=
| StaleOffer (seq : N) (asset : EntityId) (version held : N)
| UnknownEntity (seq : N) (id : EntityId)
| UnknownRequest (seq : N) (id : string)
| UnknownContract (seq : N) (cid : Cid)
| ClearRefused (seq : N) (party : EntityId) (e : Code).

Record RebuildReport := mkReport {
  rr_applied : N;
  rr_unknown : N;
  rr_inconsistent : list Anomaly;
  rr_truncated_tail : bool
}.
Definition RebuildReport_default : RebuildReport := mkReport 0 0 [] false.
Definition report_is_clean (r : RebuildReport) : bool :=
  (rr_unknown r =? 0)%N && match rr_inconsistent r with [] => true | _ => false end
  && negb (rr_truncated_tail r).

Definition applied (r : RebuildReport) : RebuildReport :=
  mkReport (u64_add (rr_applied r) 1) (rr_unknown r) (rr_inconsistent r) (rr_truncated_tail r).
Definition inconsistent (r : RebuildReport) (a : Anomaly) : RebuildReport :=
  mkReport (rr_applied r) (rr_unknown r) (rr_inconsistent r ++ [a]) (rr_truncated_tail r).
Definition unknown_kind (r : RebuildReport) : RebuildReport :=
  mkReport (rr_applied r) (u64_add (rr_unknown r) 1) (rr_inconsistent r) (rr_truncated_tail r).

(** [entry(k).or_default().insert(cid)]. *)
Definition index_insert {K} `{Countable K} (m : gmap K (gset Cid)) (k : K) (cid : Cid) :=
  <[k := {[cid]} ∪ default ∅ (m !! k)]> m.

Definition index_contract (p : Projection) (r : ContractRecord) : Projection :=
  mkProjection (pr_entities p) (pr_contracts p)
    (index_insert (pr_by_caller p) (rec_caller r) (rec_cid r))
    (index_insert (pr_by_callee p) (rec_callee r) (rec_cid r))
    (index_insert (pr_by_pin p) (rec_callee_manifest r) (rec_cid r))
    (pr_requests p) ((rec_exp r, rec_cid r) :: pr_expiring p) (pr_offers p) (pr_needs p) (pr_seq p).

(** Sorting ids by their text. *)
Definition sort_cids (l : list Cid) : list Cid := mkCid <$> sort_strings (cid_str <$> l).
Definition sort_entity_ids (l : list EntityId) : list EntityId :=
  mkEntityId <$> sort_strings (entity_str <$> l).

Definition contracts_for_set (p : Projection) (id : EntityId) : gset Cid :=
  default ∅ (pr_by_caller p !! id) ∪ default ∅ (pr_by_callee p !! id).
Definition contracts_for (p : Projection) (id : EntityId) : list Cid :=
  sort_cids (elements (contracts_for_set p id)).
Definition contracts_for_pin (p : Projection) (manifest : string) : list Cid :=
  sort_cids (elements (default ∅ (pr_by_pin p !! manifest))).

Definition settle_request (p : Projection) (r : RebuildReport) (id : string) (s : RequestStatus) (seq : N) :=
  match pr_requests p !! id with
  | Some pending => (with_requests p (<[id := set_req_status pending s]> (pr_requests p)), applied r)
  | None => (p, inconsistent r (UnknownRequest seq id))
  end.

Definition proj_set_status (p : Projection) (r : RebuildReport) (cid : Cid) (s : ContractStatus) (seq : N) :=
  match pr_contracts p !! cid with
  | Some c => (with_contracts p (<[cid := set_status c s]> (pr_contracts p)), applied r)
  | None => (p, inconsistent r (UnknownContract seq cid))
  end.

(** Change one entity in place, or report it missing. *)
Definition update_entity (p : Projection) (r : RebuildReport) (id : EntityId) (f : Entity → Entity)
    (seq : N) :=
  match pr_entities p !! id with
  | Some e => (with_entities p (<[id := f e]> (pr_entities p)), applied r)
  | None => (p, inconsistent r (UnknownEntity seq id))
  end.

(** Revoke the contracts of a list of ids that are there. *)
Definition revoke_all (cids : list Cid) (m : gmap Cid ContractRecord) : gmap Cid ContractRecord :=
  foldl (λ m cid, match m !! cid with
                  | Some c => <[cid := set_status c CRevoked]> m
                  | None => m
                  end) m cids.

Definition apply (p : Projection) (framed : Framed Event) (report : RebuildReport)
    : Projection * RebuildReport :=
  let seq := fr_seq framed in
  let ts := fr_ts framed in
  let p := with_seq p (N.max (pr_seq p) seq) in
  match fr_rec framed with
  | EntityPut entity _ =>
    (with_entities p (<[ent_id entity := entity]> (pr_entities p)), applied report)
  | NeedDeclared need _ =>
    (with_needs p (<[need_asset need := need]> (pr_needs p)), applied report)
  | OfferPublished offer _ =>
    let put := (with_offers p (<[offer_asset offer := offer]> (pr_offers p)), applied report) in
    match pr_offers p !! offer_asset offer with
    | Some held =>
      if (offer_version offer <=? offer_version held)%N
      then (p, inconsistent report
                 (StaleOffer seq (offer_asset offer) (offer_version offer) (offer_version held)))
      else put
    | None => put
    end
  | EntityTransition id to _ _ =>
    update_entity p report id
      (λ e, set_state e (ent_posture e) (ent_posture_score e) to ts (ent_quarantined_at e)) seq
  | EntityRepin id pin _ _ => update_entity p report id (λ e, set_pin e pin ts) seq
  | EntityPosture id posture score =>
    update_entity p report id
      (λ e, set_state e posture score (ent_lifecycle e) ts (ent_quarantined_at e)) seq
  | ContractRequest request _ =>
    (with_requests p (<[req_id request := request]> (pr_requests p)), applied report)
  | ContractApprove request _ _ _ | ContractIssued request _ =>
    settle_request p report request ReqMinted seq
  | ContractDeny request _ _ => settle_request p report request ReqDenied seq
  | ContractLapse request => settle_request p report request ReqLapsed seq
  | ContractMint record =>
    let p := index_contract p record in
    (with_contracts p (<[rec_cid record := record]> (pr_contracts p)), applied report)
  | ContractRevoke cid _ _ => proj_set_status p report cid CRevoked seq
  | ContractSuspend cid _ => proj_set_status p report cid CSuspended seq
  | ContractReinstate cid => proj_set_status p report cid CActive seq
  | QuarantineOrder party _ _ _ =>
    let '(p, report) :=
      match pr_entities p !! party with
      | Some e => (with_entities p (<[party := Entity_quarantine e ts]> (pr_entities p)), report)
      | None => (p, inconsistent report (UnknownEntity seq party))
      end in
    (with_contracts p (revoke_all (contracts_for p party) (pr_contracts p)), applied report)
  | QuarantineCleared party _ _ =>
    match pr_entities p !! party with
    | Some e =>
      match Entity_clear_quarantine e ts with
      | Ok (e', _) => (with_entities p (<[party := e']> (pr_entities p)), applied report)
      | Err c => (p, inconsistent report (ClearRefused seq party c))
      end
    | None => (p, inconsistent report (UnknownEntity seq party))
    end
  | UnknownEvent => (p, unknown_kind report)
  end.

Definition apply_all (p : Projection) (records : list (Framed Event)) (report : RebuildReport)
    : Projection * RebuildReport :=
  foldl (λ st f, apply st.1 f st.2) (p, report) records.

(** ** Reads *)

Definition expiring_before (p : Projection) (deadline : N) : list Cid :=
  sort_cids (rec_cid <$>
    filterb (λ c, bool_decide (rec_status c = CActive) && (rec_exp c <=? deadline)%N)
      ((map_to_list (pr_contracts p)).*2)).

Record ContractSetView := mkContractSetView {
  csv_set_hash : string;
  csv_active : list Cid;
  csv_removed : list Cid;
  csv_seq : N
}.

(** [sort_unstable_by(cid)] on records whose cids are pairwise distinct. *)
Definition cid_le (a b : ContractRecord) : Prop := (cid_str (rec_cid a) ≤ cid_str (rec_cid b))%string.
#[global] Instance cid_le_dec a b : Decision (cid_le a b).
Proof. unfold cid_le. apply _. Defined.

Definition NLs : string := String "010"%char "".
Definition digest_input (active : list Cid) : string :=
  foldr (λ c acc, cid_str c +:+ NLs +:+ acc) "" active.

Definition contract_set_for `{Sha256} (p : Projection) (mediator : string) (now : N) : ContractSetView :=
  let live := merge_sort cid_le
    (filterb (λ c, str_in mediator (rec_aud c)) ((map_to_list (pr_contracts p)).*2)) in
  let is_active c := bool_decide (rec_status c = CActive) && (now <? rec_exp c)%N in
  let active := rec_cid <$> filterb is_active live in
  let removed := rec_cid <$> filterb (λ c, negb (is_active c)) live in
  mkContractSetView (sha256_tagged (digest_input active)) active removed (pr_seq p).

Definition proj_entity (p : Projection) (id : EntityId) : option Entity := pr_entities p !! id.
Definition require_entity (p : Projection) (id : EntityId) : result Entity :=
  ok_or (proj_entity p id) ENTITY_NOT_FOUND.

Definition entity_le (a b : Entity) : Prop := (entity_str (ent_id a) ≤ entity_str (ent_id b))%string.
#[global] Instance entity_le_dec a b : Decision (entity_le a b).
Proof. unfold entity_le. apply _. Defined.
Definition enumerate_for_operator (p : Projection) : list Entity :=
  merge_sort entity_le ((map_to_list (pr_entities p)).*2).

Definition reattest_due (p : Projection) (now : N) : list EntityId :=
  sort_entity_ids (ent_id <$>
    filterb (λ e, bool_decide (ent_lifecycle e = Active) && reattest_overdue e now)
      ((map_to_list (pr_entities p)).*2)).

Definition sorted_entity_ids (p : Projection) : list EntityId :=
  sort_entity_ids ((map_to_list (pr_entities p)).*1).

(** ** Snapshots and rebuild *)

Record Snapshot := mkSnapshot {
  sn_seq : N;
  sn_entities : list Entity;
  sn_contracts : list ContractRecord;
  sn_requests : list PendingRequest
}.

(** What [save_snapshot] writes. *)
Definition take_snapshot (p : Projection) : Snapshot :=
  mkSnapshot (pr_seq p) ((map_to_list (pr_entities p)).*2) ((map_to_list (pr_contracts p)).*2)
    ((map_to_list (pr_requests p)).*2).

Definition into_projection (s : Snapshot) : Projection :=
  let p := with_seq Projection_default (sn_seq s) in
  let p := with_entities p (foldl (λ m e, <[ent_id e := e]> m) ∅ (sn_entities s)) in
  let p := foldl (λ p c, let p := index_contract p c in
                         with_contracts p (<[rec_cid c := c]> (pr_contracts p))) p (sn_contracts s) in
  with_requests p (foldl (λ m r, <[req_id r := r]> m) (pr_requests p) (sn_requests s)).

(** Where [rebuild] starts from: the newest snapshot that loads. *)
Definition rebuild_base (snapshot : option Snapshot) : Projection :=
  match snapshot with Some s => into_projection s | None => Projection_default end.

Section StoreOps.
Context `{FramedJson Event}.

Definition rebuild (snapshot : option Snapshot) (segments : list string)
    : result (Projection * RebuildReport) :=
  let p := rebuild_base snapshot in
  let from_seq := pr_seq p in
  let? rp := replay segments in
  Ok (apply_all p (filterb (λ f, from_seq <? fr_seq f)%N (rp_records rp))
        (mkReport 0 0 [] (rp_truncated_tail rp))).

Definition as_of (segments : list string) (ts : N) : result (Projection * RebuildReport) :=
  let? rp := replay_until segments ts in
  Ok (apply_all Projection_default (rp_records rp) (mkReport 0 0 [] (rp_truncated_tail rp))).

(** ** The store *)

Record Store := mkStore {
  st_projection : Projection;
  st_log : Log;
  st_anomalies : list Anomaly;
  st_artifacts : gmap string string     (* the artifacts directory: file name to contents *)
}.

(** [Store::assemble], the writer lock being held, and [open_read_only]. *)
Definition Store_open (snapshot : option Snapshot) (segments : list string) (artifacts : gmap string string)
    : result (Store * RebuildReport) :=
  let? (p, report) := rebuild snapshot segments in
  let? log := with_lock segments in
  Ok (mkStore p log [] artifacts, report).

Definition Store_open_read_only (snapshot : option Snapshot) (segments : list string)
    (artifacts : gmap string string) : result (Store * RebuildReport) :=
  let? (p, report) := rebuild snapshot segments in
  let? log := Log.open_read_only segments in
  Ok (mkStore p log [] artifacts, report).

Definition refresh (s : Store) (snapshot : option Snapshot) (segments : list string)
    : result (Store * RebuildReport) :=
  let? (p, report) := rebuild snapshot segments in
  Ok (mkStore p (st_log s) (st_anomalies s) (st_artifacts s), report).

Definition commit (s : Store) (event : Event) (now : N) (durability : Durability) (io : Io)
    : Store * result N :=
  let '(log, r) := append (st_log s) event now durability io in
  match r with
  | Err e => (mkStore (st_projection s) log (st_anomalies s) (st_artifacts s), Err e)
  | Ok seq =>
    let '(p, report) := apply (st_projection s) (mkFramed seq now event) RebuildReport_default in
    (mkStore p log (st_anomalies s ++ rr_inconsistent report) (st_artifacts s), Ok seq)
  end.
End StoreOps.

(** ** Artifacts *)

Definition safe_char (c : N) : N :=
  if is_ascii_alphanumeric c || (c =? 45)%N then c else 95%N.
Definition artifact_name (cid audience : string) : string :=
  cid +:+ "." +:+ from_chars (map safe_char (chars audience)) +:+ ".jws".

Definition write_artifact (s : Store) (cid audience jws : string) : Store :=
  mkStore (st_projection s) (st_log s) (st_anomalies s)
    (<[artifact_name cid audience := jws +:+ NLs]> (st_artifacts s)).

(** [str::trim]. *)
Fixpoint drop_whitespace (l : list N) : list N :=
  match l with c :: r => if is_whitespace c then drop_whitespace r else l | [] => [] end.
Definition trim_text (s : string) : string :=
  from_chars (reverse (drop_whitespace (reverse (drop_whitespace (chars s))))).

Definition read_artifact (s : Store) (cid audience : string) : option string :=
  trim_text <$> st_artifacts s !! artifact_name cid audience.

(** ** Lemmas: the indexes *)

Lemma elem_of_sort_cids c l : c ∈ sort_cids l ↔ c ∈ l.
Proof.
  unfold sort_cids. rewrite list_elem_of_fmap. setoid_rewrite elem_of_sort_strings.
  setoid_rewrite list_elem_of_fmap. split.
  - intros (? & -> & [[x] [-> ?]]). done.
  - intros Hc. exists (cid_str c). destruct c as [x]. split; [done|]. by exists (mkCid x).
Qed.

Lemma elem_of_contracts_for p id c : c ∈ contracts_for p id ↔ c ∈ contracts_for_set p id.
Proof. unfold contracts_for. by rewrite elem_of_sort_cids, elem_of_elements. Qed.

Lemma elem_of_contracts_for_pin p m c :
  c ∈ contracts_for_pin p m ↔ c ∈ default (∅ : gset Cid) (pr_by_pin p !! m).
Proof. unfold contracts_for_pin. by rewrite elem_of_sort_cids, elem_of_elements. Qed.

Lemma index_insert_elem {K} `{Countable K} (m : gmap K (gset Cid)) k k' cid c :
  c ∈ default (∅ : gset Cid) (index_insert m k cid !! k')
  ↔ (k = k' ∧ c = cid) ∨ c ∈ default (∅ : gset Cid) (m !! k').
Proof.
  unfold index_insert. destruct (decide (k = k')) as [->|Hne].
  - rewrite lookup_insert_eq. cbn [default from_option id]. set_solver.
  - rewrite lookup_insert_ne by done. naive_solver.
Qed.

Lemma lookup_revoke_all cids m k :
  revoke_all cids m !! k = if bool_decide (k ∈ cids) then (λ c, set_status c CRevoked) <$> m !! k
                           else m !! k.
Proof.
  unfold revoke_all. revert m. induction cids as [|c cids IH]; intros m; [done|].
  cbn [foldl]. rewrite IH. destruct (decide (k = c)) as [->|Hne].
  - rewrite (bool_decide_eq_true_2 (c ∈ c :: cids)) by set_solver.
    destruct (m !! c) as [r|] eqn:E; [rewrite lookup_insert_eq|rewrite E];
      by case_bool_decide.
  - assert ((match m !! c with Some r => <[c:=set_status r CRevoked]> m | None => m end) !! k = m !! k)
      as -> by (destruct (m !! c); [by rewrite lookup_insert_ne|done]).
    erewrite bool_decide_ext; [done|]. set_solver.
Qed.

(** Contracts are filed under their own id, and every index names them. *)
Definition index_complete (p : Projection) : Prop :=
  ∀ cid c, pr_contracts p !! cid = Some c →
    rec_cid c = cid ∧ cid ∈ default (∅ : gset Cid) (pr_by_caller p !! rec_caller c) ∧
    cid ∈ default (∅ : gset Cid) (pr_by_callee p !! rec_callee c) ∧
    cid ∈ default (∅ : gset Cid) (pr_by_pin p !! rec_callee_manifest c).

Definition index_sound (p : Projection) : Prop :=
  ∀ cid, (∃ id, cid ∈ contracts_for_set p id) ∨
         (∃ m, cid ∈ default (∅ : gset Cid) (pr_by_pin p !! m)) →
    is_Some (pr_contracts p !! cid).

Definition index_inv (p : Projection) : Prop := index_complete p ∧ index_sound p.

(** A change of the contract map that only touches statuses. *)
Definition status_only (m m' : gmap Cid ContractRecord) : Prop :=
  ∀ cid, match m !! cid, m' !! cid with
         | Some c, Some c' => ∃ s, c' = set_status c s
         | None, None => True
         | _, _ => False
         end.

Lemma set_status_id c : set_status c (rec_status c) = c.
Proof. by destruct c. Qed.

Lemma status_only_refl m : status_only m m.
Proof. intros cid. destruct (m !! cid) as [c|]; [|done]. exists (rec_status c). by rewrite set_status_id. Qed.

Lemma status_only_insert m cid c s :
  m !! cid = Some c → status_only m (<[cid := set_status c s]> m).
Proof.
  intros Hc k. destruct (decide (k = cid)) as [->|Hne].
  - rewrite lookup_insert_eq, Hc. by exists s.
  - rewrite lookup_insert_ne by done. apply status_only_refl.
Qed.

Lemma status_only_revoke cids m : status_only m (revoke_all cids m).
Proof.
  intros k. rewrite lookup_revoke_all. destruct (m !! k) as [c|] eqn:E; case_bool_decide; simpl;
    [by exists CRevoked|exists (rec_status c); by rewrite set_status_id|done..].
Qed.

Lemma index_inv_status p m :
  index_inv p → status_only (pr_contracts p) m → index_inv (with_contracts p m).
Proof.
  intros [Hc Hs] Hm. split.
  - intros cid c' Hl. specialize (Hm cid). cbn [with_contracts pr_contracts] in Hl.
    rewrite Hl in Hm. destruct (pr_contracts p !! cid) as [c|] eqn:E; [|done].
    destruct Hm as [s ->]. exact (Hc cid c E).
  - intros cid Hin. specialize (Hm cid). destruct (Hs cid Hin) as [c E]. rewrite E in Hm.
    cbn [with_contracts pr_contracts]. by destruct (m !! cid).
Qed.

(** A projection with the same contracts and indexes. *)
Definition same_index (p q : Projection) : Prop :=
  pr_contracts p = pr_contracts q ∧ pr_by_caller p = pr_by_caller q ∧
  pr_by_callee p = pr_by_callee q ∧ pr_by_pin p = pr_by_pin q.

Lemma index_inv_same p q : same_index p q → index_inv p → index_inv q.
Proof.
  intros (H1 & H2 & H3 & H4). unfold index_inv, index_complete, index_sound, contracts_for_set.
  by rewrite H1, H2, H3, H4.
Qed.

Lemma index_inv_mint p r :
  index_inv p →
  index_inv (with_contracts (index_contract p r) (<[rec_cid r := r]> (pr_contracts p))).
Proof.
  intros [Hc Hs]. split.
  - intros cid c Hl. cbn [with_contracts index_contract pr_contracts pr_by_caller pr_by_callee pr_by_pin] in *.
    rewrite !index_insert_elem. destruct (decide (cid = rec_cid r)) as [->|Hne].
    + rewrite lookup_insert_eq in Hl. injection Hl as <-. repeat split; by left.
    + rewrite lookup_insert_ne in Hl by done. destruct (Hc cid c Hl) as (? & ? & ? & ?).
      repeat split; [done|by right..].
  - intros cid Hin. cbn [with_contracts index_contract pr_contracts].
    destruct (decide (cid = rec_cid r)) as [->|Hne]; [rewrite lookup_insert_eq; by eexists|].
    rewrite lookup_insert_ne by done. apply Hs.
    destruct Hin as [[id Hin]|[m Hin]]; [left; exists id|right; exists m].
    + unfold contracts_for_set in *. cbn [with_contracts index_contract pr_by_caller pr_by_callee] in Hin.
      rewrite elem_of_union, !index_insert_elem in Hin. rewrite elem_of_union. naive_solver.
    + cbn [with_contracts index_contract pr_by_pin] in Hin. rewrite index_insert_elem in Hin.
      naive_solver.
Qed.

(** [apply] up to the sequence number: what it does to contracts and indexes. *)
Lemma apply_index_inv p f r : index_inv p → index_inv (apply p f r).1.
Proof.
  intros Hp. unfold apply. cbv zeta.
  set (p0 := with_seq p (N.max (pr_seq p) (fr_seq f))).
  assert (index_inv p0) as H0 by (by apply (index_inv_same p)).
  clearbody p0. clear Hp p.
  assert (∀ q, same_index p0 q → index_inv q) as Hsame by (intros q ?; by apply (index_inv_same p0)).
  assert (∀ q m, same_index p0 q → status_only (pr_contracts q) m → index_inv (with_contracts q m))
    as Hst by (intros q m ??; apply index_inv_status; auto).
  destruct (fr_rec f); unfold update_entity, settle_request, proj_set_status;
    try (destruct (_ !! _) eqn:?); try (by apply Hsame);
    try (apply Hst; [done|by apply status_only_insert]).
  - exact (index_inv_mint p0 record H0).
  - apply Hst; [done|apply status_only_revoke].
  - apply Hst; [done|apply status_only_revoke].
  - destruct (Entity_clear_quarantine _ _) as [[]|]; by apply Hsame.
  - destruct (_ <=? _)%N; by apply Hsame.
Qed.

(** The report is write-only. *)
Lemma apply_report p f r r' : (apply p f r).1 = (apply p f r').1.
Proof.
  unfold apply. cbv zeta. destruct (fr_rec f);
    unfold update_entity, settle_request, proj_set_status; try (destruct (_ !! _)); try done.
  - by destruct (Entity_clear_quarantine _ _) as [[]|].
  - by destruct (_ <=? _)%N.
Qed.

Lemma apply_all_report p l r r' : (apply_all p l r).1 = (apply_all p l r').1.
Proof.
  unfold apply_all. revert p r r'. induction l as [|f l IH]; intros p r r'; [done|].
  cbn [foldl fst snd]. pose proof (apply_report p f r r') as E.
  destruct (apply p f r) as [q s], (apply p f r') as [q' s']. simpl in E. subst. apply IH.
Qed.

Lemma apply_all_app p l l' r :
  apply_all p (l ++ l') r = apply_all (apply_all p l r).1 l' (apply_all p l r).2.
Proof. unfold apply_all. rewrite foldl_app. by destruct (foldl _ _ l). Qed.

Lemma apply_all_inv (I : Projection → Prop) p l r :
  (∀ p f r, I p → I (apply p f r).1) → I p → I (apply_all p l r).1.
Proof.
  intros Hstep. unfold apply_all. revert p r. induction l as [|f l IH]; intros p r Hp; [done|].
  cbn [foldl fst snd]. specialize (Hstep p f r Hp).
  destruct (apply p f r) as [p' r']. by apply IH.
Qed.

Lemma index_inv_default : index_inv Projection_default.
Proof.
  split.
  - intros cid c. simpl. by rewrite lookup_empty.
  - intros cid [[id Hin]|[m Hin]].
    + unfold contracts_for_set in Hin. simpl in Hin. rewrite !lookup_empty in Hin. set_solver.
    + simpl in Hin. rewrite lookup_empty in Hin. set_solver.
Qed.

(** The projection of a history. *)
Definition project (history : list (Framed Event)) : Projection :=
  (apply_all Projection_default history RebuildReport_default).1.

Lemma project_index_inv history : index_inv (project history).
Proof.
  unfold project. apply (apply_all_inv index_inv); [|apply index_inv_default].
  intros. by apply apply_index_inv.
Qed.

(** ** Properties of the projection *)

(** The blast-radius indexes are exact enough to act on: whatever the history, every
    contract is filed under its own id and is among those returned for its caller, for
    its callee and for the manifest it pins, and nothing is returned that is not a
    contract.  So containment and drift reach every contract they must. *)
Theorem indexes_complete history cid c :
  let p := project history in
  pr_contracts p !! cid = Some c →
  rec_cid c = cid ∧
  (∀ id, involves c id = true → cid ∈ contracts_for p id) ∧
  cid ∈ contracts_for_pin p (rec_callee_manifest c) ∧
  (∀ id cid', cid' ∈ contracts_for p id → is_Some (pr_contracts p !! cid')) ∧
  (∀ m cid', cid' ∈ contracts_for_pin p m → is_Some (pr_contracts p !! cid')).
Proof.
  intros p Hc. destruct (project_index_inv history) as [Hcomp Hsound]. fold p in Hcomp, Hsound.
  destruct (Hcomp cid c Hc) as (Hid & H1 & H2 & H3).
  split; [done|]. split; [|split; [|split]].
  - intros id Hinv. rewrite elem_of_contracts_for. unfold contracts_for_set. rewrite elem_of_union.
    unfold involves in Hinv. apply orb_true_iff in Hinv as [?|?]; bool_facts; subst; auto.
  - by rewrite elem_of_contracts_for_pin.
  - intros id cid'. rewrite elem_of_contracts_for. intros Hin. apply Hsound. left. by exists id.
  - intros m cid'. rewrite elem_of_contracts_for_pin. intros Hin. apply Hsound. right. by exists m.
Qed.

Lemma involves_set_status c s id : involves (set_status c s) id = involves c id.
Proof. done. Qed.

Lemma quarantine_contracts p f r party reason actor dual :
  fr_rec f = QuarantineOrder party reason actor dual →
  pr_contracts (apply p f r).1 = revoke_all (contracts_for p party) (pr_contracts p) ∧
  pr_entities (apply p f r).1 =
    match pr_entities p !! party with
    | Some e => <[party := Entity_quarantine e (fr_ts f)]> (pr_entities p)
    | None => pr_entities p
    end.
Proof.
  intros Hf. unfold apply. rewrite Hf. cbv zeta. cbn [with_seq pr_entities].
  by destruct (pr_entities p !! party).
Qed.

(** Containment cuts everything: after a quarantine order every contract with the
    party at either end is revoked, the party (if registered) is quarantined and
    suspended and may not be one end of a connection in any mode, and no contract that
    does not involve it, and no other entity, has changed -- provided no contract id was
    ever minted again for other parties, which is what keeps the indexes free of
    leftovers. *)
Theorem quarantine_cuts_all history f r party reason actor dual :
  fr_rec f = QuarantineOrder party reason actor dual →
  let p := project history in
  let q := (apply p f r).1 in
  (∀ cid c, pr_contracts q !! cid = Some c → involves c party = true → rec_status c = CRevoked) ∧
  (∀ e, pr_entities p !! party = Some e → ∃ e', pr_entities q !! party = Some e' ∧
     ent_posture e' = Quarantined ∧ ent_lifecycle e' = Suspended ∧
     ∀ mode, Entity_assert_connectable e' mode = Err ENTITY_QUARANTINED) ∧
  (∀ id, id ≠ party → pr_entities q !! id = pr_entities p !! id) ∧
  ((∀ cid c, cid ∈ contracts_for p party → pr_contracts p !! cid = Some c → involves c party = true) →
   ∀ cid c, pr_contracts p !! cid = Some c → involves c party = false →
     pr_contracts q !! cid = Some c).
Proof.
  intros Hf p q. destruct (quarantine_contracts p f r party reason actor dual Hf) as [Hc He].
  fold q in Hc, He. split; [|split; [|split]].
  - intros cid c. rewrite Hc, lookup_revoke_all. intros Hl Hinv.
    destruct (pr_contracts p !! cid) as [c0|] eqn:E; [|by case_bool_decide].
    assert (involves c0 party = true → cid ∈ contracts_for p party) as Hin.
    { intros Hi. destruct (project_index_inv history) as [Hcomp _].
      destruct (Hcomp cid c0 E) as (_ & H1 & H2 & _).
      rewrite elem_of_contracts_for. unfold contracts_for_set. rewrite elem_of_union.
      unfold involves in Hi. apply orb_true_iff in Hi as [?|?]; bool_facts; subst; auto. }
    case_bool_decide as Hb; simplify_eq/=; [done|]. by destruct Hb; apply Hin.
  - intros e Hl. rewrite He, Hl. exists (Entity_quarantine e (fr_ts f)).
    rewrite lookup_insert_eq. done.
  - intros id Hne. rewrite He. destruct (pr_entities p !! party); [|done].
    by rewrite lookup_insert_ne.
  - intros Hall cid c Hl Hi. rewrite Hc, lookup_revoke_all. case_bool_decide as Hb; [|done].
    by rewrite (Hall cid c Hb Hl) in Hi.
Qed.

(** The events that can change the status of a contract away from revoked. *)
Definition may_revive (e : Event) (cid : Cid) : bool :=
  match e with
  | ContractMint r => bool_decide (rec_cid r = cid)
  | ContractReinstate c | ContractSuspend c _ => bool_decide (c = cid)
  | _ => false
  end.

Definition is_revoked_in (p : Projection) (cid : Cid) : Prop :=
  ∃ c, pr_contracts p !! cid = Some c ∧ rec_status c = CRevoked.

Lemma revoked_insert p cid c0 cid' :
  is_revoked_in p cid → pr_contracts p !! cid' = Some c0 →
  is_revoked_in (with_contracts p (<[cid' := set_status c0 CRevoked]> (pr_contracts p))) cid.
Proof.
  intros (c & Hc & Hs) H0. unfold is_revoked_in. cbn [with_contracts pr_contracts].
  destruct (decide (cid = cid')) as [->|Hne].
  - rewrite lookup_insert_eq. eexists. by split.
  - rewrite lookup_insert_ne by done. eauto.
Qed.

Lemma apply_revoked p f r cid :
  is_revoked_in p cid → may_revive (fr_rec f) cid = false → is_revoked_in (apply p f r).1 cid.
Proof.
  intros Hp Hr. unfold apply. cbv zeta.
  set (p0 := with_seq p (N.max (pr_seq p) (fr_seq f))).
  assert (is_revoked_in p0 cid) as H0 by done. clearbody p0. clear Hp p.
  assert (∀ s c cid', c ≠ cid → pr_contracts p0 !! c = Some cid' →
    is_revoked_in (with_contracts p0 (<[c := set_status cid' s]> (pr_contracts p0))) cid) as Hother.
  { intros s c cid' Hne _. destruct H0 as (c0 & Hc & Hs). exists c0.
    cbn [with_contracts pr_contracts]. by rewrite lookup_insert_ne. }
  destruct (fr_rec f); unfold update_entity, settle_request, proj_set_status; cbn [may_revive] in Hr;
    bool_facts; try (destruct (_ !! _) eqn:?); try done;
    try (by apply revoked_insert); try (by apply Hother).
  - destruct H0 as (c & Hc & Hs). exists c. cbn. by rewrite lookup_insert_ne.
  - destruct H0 as (c & Hc & Hs). unfold is_revoked_in. cbn [fst with_contracts pr_contracts with_entities].
    rewrite lookup_revoke_all, Hc. case_bool_decide; eexists; by split.
  - destruct H0 as (c & Hc & Hs). unfold is_revoked_in. cbn [fst with_contracts pr_contracts].
    rewrite lookup_revoke_all, Hc. case_bool_decide; eexists; by split.
  - destruct (Entity_clear_quarantine _ _) as [[]|]; done.
  - by destruct (_ <=? _)%N.
Qed.

(** A revoked contract stays revoked through every event but a mint, a suspension or
    a reinstatement of that very id -- clearing a quarantine in particular restores no
    authority -- while the projection itself obeys a reinstatement even then: the event,
    which nothing in the code emits, brings a dead contract back. *)
Theorem revoked_until_revived p f r cid :
  is_revoked_in p cid →
  (may_revive (fr_rec f) cid = false → is_revoked_in (apply p f r).1 cid) ∧
  (fr_rec f = ContractReinstate cid →
     ∃ c, pr_contracts (apply p f r).1 !! cid = Some c ∧ rec_status c = CActive).
Proof.
  intros Hp. split; [by apply apply_revoked|]. intros Hf.
  destruct Hp as (c & Hc & _). unfold apply. rewrite Hf. cbv zeta. unfold proj_set_status.
  cbn [with_seq pr_contracts]. rewrite Hc. exists (set_status c CActive). cbn.
  by rewrite lookup_insert_eq.
Qed.

(** C29: the store is a projection of its log.  On a log of whole records, with the state in
    memory the fold of them, a commit whose append reaches the disk makes the event the log's
    next record and the state again the fold of the whole log -- the state a process that
    rebuilds from the log alone would reach; and when the append is refused for want of the
    writer lock nothing at all has changed.  (A log opened over a torn tail holds no such
    history, and [log_torn_tail_swallows] shows that the conclusion fails there.) *)
Theorem commit_refines_log `{FramedJsonLaws Event} s history event now d io :
  log_holds (st_log s) history → st_projection s = project history →
  is_u64 (log_last_seq (st_log s) + 1) →
  (log_locked (st_log s) = false → commit s event now d io = (s, Err STORE_LOCKED)) ∧
  (log_locked (st_log s) = true →
   io_write io = Written → io_sync io = true → io_rotate io = true →
   let seq := (log_last_seq (st_log s) + 1)%N in
   let history' := history ++ [mkFramed seq now event] in
   ∃ s', commit s event now d io = (s', Ok seq) ∧ log_holds (st_log s') history' ∧
     st_projection s' = project history' ∧
     ((∀ f, f ∈ history' → (0 < fr_seq f)%N) →
      ∃ report, rebuild None (log_segments (st_log s')) = Ok (st_projection s', report))).
Proof.
  intros Hl Hp Hu. split.
  - intros Hlock. unfold commit, append. rewrite Hlock. simpl. by destruct s.
  - intros Hlock Hw Hs Hr seq history'.
    destruct (append_holds _ _ event now d io Hl Hlock Hu Hw Hs Hr) as (l' & Happ & Hl' & _ & _).
    unfold commit. rewrite Happ. fold seq. fold seq history' in Hl'.
    destruct (apply (st_projection s) (mkFramed seq now event) RebuildReport_default)
      as [p' r'] eqn:E.
    assert (p' = project history') as Hp'.
    { unfold project, history'. rewrite apply_all_app. fold (project history). rewrite <-Hp.
      unfold apply_all. cbn [foldl fst snd]. rewrite (apply_report _ _ _ RebuildReport_default).
      by rewrite E. }
    eexists. split; [reflexivity|]. cbn [st_log st_projection]. split; [done|]. split; [done|].
    intros Hpos. unfold rebuild. rewrite (replay_holds _ _ Hl'). cbn [result_bind rp_records].
    rewrite filterb_all by (intros x Hx; apply N.ltb_lt; by apply Hpos).
    rewrite Hp'. unfold project. exists (apply_all Projection_default history' RebuildReport_default).2.
    exact (f_equal Ok (surjective_pairing (apply_all Projection_default history' RebuildReport_default))).
Qed.

(** ** Offers *)

Definition published_offer (a : EntityId) (f : Framed Event) : option Offer :=
  match fr_rec f with
  | OfferPublished o _ => if bool_decide (offer_asset o = a) then Some o else None
  | _ => None
  end.
Definition published (a : EntityId) (history : list (Framed Event)) : list Offer :=
  omap (published_offer a) history.

Lemma project_snoc history f : project (history ++ [f]) = (apply (project history) f RebuildReport_default).1.
Proof.
  unfold project. rewrite apply_all_app. unfold apply_all at 1. cbn [foldl fst snd].
  apply apply_report.
Qed.

Lemma apply_offers p f r a :
  pr_offers (apply p f r).1 !! a =
  match published_offer a f with
  | Some o => match pr_offers p !! a with
              | Some held => if (offer_version o <=? offer_version held)%N then Some held else Some o
              | None => Some o
              end
  | None => pr_offers p !! a
  end.
Proof.
  unfold apply, published_offer. cbv zeta. destruct (fr_rec f);
    unfold update_entity, settle_request, proj_set_status; cbn [with_seq pr_entities pr_requests
      pr_contracts pr_offers];
    try (destruct (_ !! _); done); try done.
  - by destruct (pr_entities p !! id).
  - by destruct (pr_entities p !! id).
  - by destruct (pr_entities p !! id).
  - by destruct (pr_requests p !! request).
  - by destruct (pr_requests p !! request).
  - by destruct (pr_requests p !! request).
  - by destruct (pr_requests p !! request).
  - by destruct (pr_contracts p !! cid).
  - by destruct (pr_contracts p !! cid).
  - by destruct (pr_contracts p !! cid).
  - by destruct (pr_entities p !! party).
  - destruct (pr_entities p !! party) as [e|]; [|done].
    by destruct (Entity_clear_quarantine _ _) as [[]|].
  - case_bool_decide as Ha.
    + subst. destruct (pr_offers p !! offer_asset offer) as [held|] eqn:E; cbn.
      * destruct (_ <=? _)%N; cbn; [done|by rewrite lookup_insert_eq].
      * by rewrite lookup_insert_eq.
    + destruct (pr_offers p !! offer_asset offer) as [held|]; cbn;
        [destruct (_ <=? _)%N; cbn; [done|]|]; by rewrite lookup_insert_ne.
Qed.

Lemma offers_spec history a :
  match pr_offers (project history) !! a with
  | Some o => o ∈ published a history ∧
              ∀ o', o' ∈ published a history → (offer_version o' ≤ offer_version o)%N
  | None => published a history = []
  end.
Proof.
  induction history as [|f history IH] using rev_ind.
  { unfold project. simpl. by rewrite lookup_empty. }
  rewrite project_snoc, apply_offers. unfold published in *. rewrite omap_app. simpl.
  destruct (published_offer a f) as [o|]; [|by rewrite app_nil_r].
  destruct (pr_offers (project history) !! a) as [held|].
  - destruct IH as [Hin Hmax]. destruct (offer_version o <=? offer_version held)%N eqn:E; bool_facts.
    + split; [apply elem_of_app; by left|]. intros o' [?| ->%list_elem_of_singleton]%elem_of_app; auto.
    + split; [apply elem_of_app; right; set_solver|].
      intros o' [Ho'| ->%list_elem_of_singleton]%elem_of_app; [|done]. specialize (Hmax o' Ho'). lia.
  - rewrite IH. simpl. split; [set_solver|]. intros o' ->%list_elem_of_singleton. done.
Qed.

(** The offer held for a party is one of the highest version ever published for it, so
    a stale republish never rolls it back; and when no two different offers of a party
    carry one version number the fold does not depend on the order of the log at all. *)
Theorem offers_highest_version history :
  (∀ a, match pr_offers (project history) !! a with
        | Some o => o ∈ published a history ∧
                    ∀ o', o' ∈ published a history → (offer_version o' ≤ offer_version o)%N
        | None => published a history = []
        end) ∧
  ((∀ a o o', o ∈ published a history → o' ∈ published a history →
      offer_version o = offer_version o' → o = o') →
   ∀ history', history ≡ₚ history' → pr_offers (project history') = pr_offers (project history)).
Proof.
  split; [intros a; apply offers_spec|]. intros Hdist history' Hperm. apply map_eq. intros a.
  pose proof (offers_spec history a) as H1. pose proof (offers_spec history' a) as H2.
  assert (published a history ≡ₚ published a history') as Hp
    by (unfold published; by rewrite Hperm).
  destruct (pr_offers (project history') !! a) as [o'|], (pr_offers (project history) !! a) as [o|].
  - destruct H1 as [Hin Hmax], H2 as [Hin' Hmax']. rewrite <-Hp in Hin'.
    f_equal. apply (Hdist a); [done..|].
    apply N.le_antisymm; [by apply Hmax|]. apply Hmax'. by rewrite <-Hp.
  - destruct H2 as [Hin' _]. rewrite <-Hp, H1 in Hin'. by apply not_elem_of_nil in Hin'.
  - destruct H1 as [Hin _]. rewrite Hp, H2 in Hin. by apply not_elem_of_nil in Hin.
  - done.
Qed.

(** ** Snapshots *)

Section FoldInsert.
Context {K A : Type} `{Countable K} (key : A → K).

Definition insert_all (acc : gmap K A) (l : list A) : gmap K A := foldl (λ m v, <[key v := v]> m) acc l.

Lemma insert_all_lookup acc l (m : gmap K A) k :
  (∀ v, v ∈ l → m !! key v = Some v) →
  insert_all acc l !! k = if bool_decide (k ∈ key <$> l) then m !! k else acc !! k.
Proof.
  unfold insert_all. revert acc. induction l as [|v l IH]; intros acc Hl; [done|].
  cbn [foldl]. rewrite IH by set_solver. rewrite fmap_cons.
  destruct (decide (k ∈ key <$> l)) as [Hin|Hout].
  - rewrite !bool_decide_eq_true_2 by set_solver. done.
  - rewrite (bool_decide_eq_false_2 _ Hout). destruct (decide (k = key v)) as [->|Hne].
    + rewrite bool_decide_eq_true_2 by set_solver. rewrite lookup_insert_eq. symmetry. apply Hl. set_solver.
    + rewrite bool_decide_eq_false_2 by set_solver. by rewrite lookup_insert_ne.
Qed.

Lemma elem_of_values (m : gmap K A) v : v ∈ (map_to_list m).*2 ↔ ∃ k, m !! k = Some v.
Proof.
  rewrite list_elem_of_fmap. split.
  - intros ([k w] & -> & Hin%elem_of_map_to_list). by exists k.
  - intros [k Hk]. exists (k, v). split; [done|]. by apply elem_of_map_to_list.
Qed.

Lemma insert_all_values (m : gmap K A) :
  (∀ k v, m !! k = Some v → key v = k) → insert_all ∅ (map_to_list m).*2 = m.
Proof.
  intros Hkey. apply map_eq. intros k. rewrite (insert_all_lookup _ _ m).
  - case_bool_decide as Hin; [done|]. rewrite lookup_empty. destruct (m !! k) as [v|] eqn:E; [|done].
    destruct Hin. apply list_elem_of_fmap. exists v. rewrite (Hkey k v E). split; [done|].
    apply elem_of_values. by exists k.
  - intros v [k' Hk']%elem_of_values. by rewrite (Hkey k' v Hk').
Qed.
End FoldInsert.

(** Records are filed under their own ids. *)
Definition filed (p : Projection) : Prop :=
  (∀ id e, pr_entities p !! id = Some e → ent_id e = id) ∧
  (∀ cid c, pr_contracts p !! cid = Some c → rec_cid c = cid) ∧
  (∀ id r, pr_requests p !! id = Some r → req_id r = id).

Lemma filed_insert {K A} `{Countable K} (key : A → K) (m : gmap K A) k v :
  (∀ i x, m !! i = Some x → key x = i) → key v = k → ∀ i x, <[k := v]> m !! i = Some x → key x = i.
Proof.
  intros Hm Hk i x. destruct (decide (i = k)) as [->|Hne].
  - rewrite lookup_insert_eq. by intros [= <-].
  - rewrite lookup_insert_ne by done. apply Hm.
Qed.

Lemma apply_filed p f r : filed p → filed (apply p f r).1.
Proof.
  intros (He & Hc & Hr). unfold apply. cbv zeta.
  set (p0 := with_seq p (N.max (pr_seq p) (fr_seq f))).
  assert (filed p0) as H0 by done.
  assert (∀ id e, ent_id e = id → filed (with_entities p0 (<[id := e]> (pr_entities p0)))) as HE.
  { intros id e Hid. split; [|done]. by apply filed_insert. }
  assert (∀ q cid c s, pr_entities q = pr_entities p0 → pr_requests q = pr_requests p0 →
    pr_contracts q = pr_contracts p0 → pr_contracts p0 !! cid = Some c →
    filed (with_contracts q (<[cid := set_status c s]> (pr_contracts q)))) as HC.
  { intros q cid c s E1 E2 E3 Hl. split; [cbn; by rewrite E1|]. split; [|cbn; by rewrite E2].
    cbn. rewrite E3. apply (filed_insert rec_cid); [done|]. exact (Hc cid c Hl). }
  assert (∀ cids q, filed q → filed (with_contracts q (revoke_all cids (pr_contracts q)))) as HV.
  { intros cids q (Q1 & Q2 & Q3). split; [done|]. split; [|done].
    intros cid c. cbn. rewrite lookup_revoke_all.
    destruct (pr_contracts q !! cid) as [c0|] eqn:E; case_bool_decide; simpl; try done;
      intros [= <-]; exact (Q2 _ _ E). }
  assert (∀ id x, req_id x = id → filed (with_requests p0 (<[id := x]> (pr_requests p0)))) as HR.
  { intros id x Hid. split; [done|]. split; [done|]. by apply filed_insert. }
  destruct (fr_rec f); unfold update_entity, settle_request, proj_set_status;
    try (destruct (_ !! _) eqn:?); try done; try (by apply HE); try (by apply HC);
    try (by apply HV); try (by apply HR);
    try (apply HE; cbn; by apply He); try (apply HR; cbn; by apply Hr).
  - split; [done|]. split; [|done]. by apply (filed_insert rec_cid).
  - apply HV. apply HE. cbn. by apply He.
  - destruct (Entity_clear_quarantine _ _) as [[e' h]|] eqn:E; [|done]. apply HE.
    unfold Entity_clear_quarantine in E. apply guard_err_ok in E as [_ [= <- _]]. cbn. by apply He.
  - by destruct (_ <=? _)%N.
Qed.

Lemma project_filed history : filed (project history).
Proof.
  unfold project. apply (apply_all_inv filed); [intros; by apply apply_filed|].
  repeat split; intros ??; simpl; by rewrite lookup_empty.
Qed.

(** The indexes hold exactly the contracts a party is an end of. *)
Definition index_exact (p : Projection) : Prop :=
  ∀ id cid, cid ∈ contracts_for_set p id ↔
    ∃ c, pr_contracts p !! cid = Some c ∧ involves c id = true.

(** Installing a record: what a mint does, and what loading a snapshot does. *)
Definition install (p : Projection) (c : ContractRecord) : Projection :=
  let p := index_contract p c in with_contracts p (<[rec_cid c := c]> (pr_contracts p)).

(** An id already known is minted again only for the same two parties. *)
Definition same_parties (p : Projection) (c : ContractRecord) : Prop :=
  ∀ c', pr_contracts p !! rec_cid c = Some c' → rec_caller c' = rec_caller c ∧ rec_callee c' = rec_callee c.

Lemma involves_true c id : involves c id = true ↔ rec_caller c = id ∨ rec_callee c = id.
Proof. unfold involves. by rewrite orb_true_iff, !bool_decide_eq_true. Qed.

Lemma index_exact_install p c : index_exact p → same_parties p c → index_exact (install p c).
Proof.
  intros Hp Hs id cid. unfold index_exact, contracts_for_set in *.
  cbn [install with_contracts index_contract pr_by_caller pr_by_callee pr_contracts].
  rewrite elem_of_union, !index_insert_elem. specialize (Hp id cid). rewrite elem_of_union in Hp.
  destruct (decide (cid = rec_cid c)) as [->|Hne].
  - rewrite lookup_insert_eq. split.
    + intros Hin. exists c. split; [done|]. apply involves_true.
      assert (rec_cid c ∈ default (∅ : gset Cid) (pr_by_caller p !! id) ∨
              rec_cid c ∈ default (∅ : gset Cid) (pr_by_callee p !! id) →
              rec_caller c = id ∨ rec_callee c = id) as Hold.
      { intros (c' & Hc' & Hi%involves_true)%Hp. destruct (Hs c' Hc') as [<- <-]. done. }
      naive_solver.
    + intros (c' & [= <-] & [<-|<-]%involves_true); naive_solver.
  - rewrite lookup_insert_ne by done. naive_solver.
Qed.

Lemma index_exact_status p q m :
  pr_by_caller q = pr_by_caller p → pr_by_callee q = pr_by_callee p →
  status_only (pr_contracts p) m → index_exact p → index_exact (with_contracts q m).
Proof.
  intros E1 E2 Hm Hp id cid. unfold index_exact, contracts_for_set in *.
  cbn [with_contracts pr_by_caller pr_by_callee pr_contracts]. rewrite E1, E2, (Hp id cid).
  specialize (Hm cid). destruct (pr_contracts p !! cid) as [c|], (m !! cid) as [c'|]; try done.
  destruct Hm as [s ->]. split; intros (? & [= <-] & ?); eexists; by split.
Qed.

Definition stable_event (p : Projection) (e : Event) : Prop :=
  match e with ContractMint r => same_parties p r | _ => True end.

Lemma index_exact_same p q :
  pr_contracts q = pr_contracts p → pr_by_caller q = pr_by_caller p →
  pr_by_callee q = pr_by_callee p → index_exact p → index_exact q.
Proof. intros E1 E2 E3. unfold index_exact, contracts_for_set. by rewrite E1, E2, E3. Qed.

Lemma apply_index_exact p f r :
  index_exact p → stable_event p (fr_rec f) → index_exact (apply p f r).1.
Proof.
  intros Hp Hst. unfold apply. cbv zeta.
  set (p0 := with_seq p (N.max (pr_seq p) (fr_seq f))).
  assert (index_exact p0) as H0 by done.
  assert (stable_event p0 (fr_rec f)) as Hst0 by (by destruct (fr_rec f)).
  clearbody p0. clear Hp Hst p.
  destruct (fr_rec f); unfold update_entity, settle_request, proj_set_status;
    try (destruct (_ !! _) eqn:?); try (by apply (index_exact_same p0));
    try (apply (index_exact_status p0); [done|done|by apply status_only_insert|done]);
    try (apply (index_exact_status p0); [done|done|apply status_only_revoke|done]).
  - exact (index_exact_install p0 record H0 Hst0).
  - destruct (Entity_clear_quarantine _ _) as [[]|]; by apply (index_exact_same p0).
  - destruct (_ <=? _)%N; by apply (index_exact_same p0).
Qed.

(** Every mint of the history keeps the parties of an id it re-mints. *)
Fixpoint stable (p : Projection) (history : list (Framed Event)) : Prop :=
  match history with
  | [] => True
  | f :: history => stable_event p (fr_rec f) ∧ stable (apply p f RebuildReport_default).1 history
  end.

Lemma stable_app p h h' :
  stable p (h ++ h') ↔ stable p h ∧ stable (apply_all p h RebuildReport_default).1 h'.
Proof.
  revert p. induction h as [|f h IH]; intros p; [simpl; tauto|]. cbn [app stable]. rewrite IH.
  unfold apply_all. cbn [foldl fst snd]. fold (apply_all (apply p f RebuildReport_default).1 h
    RebuildReport_default).
  assert ((apply_all (apply p f RebuildReport_default).1 h RebuildReport_default).1
    = (foldl (λ st f0, apply st.1 f0 st.2) (apply p f RebuildReport_default) h).1) as ->; [|tauto].
  rewrite (apply_all_report _ _ _ (apply p f RebuildReport_default).2). unfold apply_all.
  by destruct (apply p f RebuildReport_default).
Qed.

Lemma apply_all_index_exact p h r : index_exact p → stable p h → index_exact (apply_all p h r).1.
Proof.
  revert p r. induction h as [|f h IH]; intros p r Hp Hs; [done|]. destruct Hs as [Hf Hs].
  unfold apply_all. cbn [foldl fst snd]. pose proof (apply_index_exact p f r Hp Hf) as Hp'.
  rewrite (apply_report p f RebuildReport_default r) in Hs.
  destruct (apply p f r) as [q s]. apply IH; done.
Qed.

(** Agreement on the state a rebuild must recover. *)
Record agree (p q : Projection) : Prop := {
  agree_entities : pr_entities p = pr_entities q;
  agree_contracts : pr_contracts p = pr_contracts q;
  agree_requests : pr_requests p = pr_requests q;
  agree_seq : pr_seq p = pr_seq q
}.

Lemma revoke_all_ext l l' m : (∀ c, c ∈ l ↔ c ∈ l') → revoke_all l m = revoke_all l' m.
Proof.
  intros Hl. apply map_eq. intros k. rewrite !lookup_revoke_all.
  by rewrite (bool_decide_ext (k ∈ l) (k ∈ l') (Hl k)).
Qed.

Lemma index_exact_agree p q id :
  index_exact p → index_exact q → pr_contracts p = pr_contracts q →
  ∀ c, c ∈ contracts_for p id ↔ c ∈ contracts_for q id.
Proof. intros Hp Hq E c. rewrite !elem_of_contracts_for, (Hp id c), (Hq id c), E. done. Qed.

Lemma apply_agree p q f r r' :
  agree p q → index_exact p → index_exact q → agree (apply p f r).1 (apply q f r').1.
Proof.
  intros [E1 E2 E3 E4] Hp Hq. unfold apply. cbv zeta.
  destruct (fr_rec f); unfold update_entity, settle_request, proj_set_status;
    cbn [with_seq pr_entities pr_contracts pr_requests pr_offers]; rewrite ?E1, ?E2, ?E3;
    try (destruct (pr_entities q !! _)); try (destruct (pr_requests q !! _));
    try (destruct (pr_contracts q !! _));
    try (split; cbn; congruence).
  - split; cbn; [congruence|..|congruence|congruence].
    erewrite revoke_all_ext; [by rewrite E2|].
    apply (index_exact_agree (with_entities _ _) (with_entities _ _)); [by apply (index_exact_same p)|
      by apply (index_exact_same q)|done].
  - split; cbn; [congruence|..|congruence|congruence].
    erewrite revoke_all_ext; [by rewrite E2|].
    apply (index_exact_agree (with_seq _ _) (with_seq _ _)); [by apply (index_exact_same p)|
      by apply (index_exact_same q)|done].
  - destruct (Entity_clear_quarantine _ _) as [[]|]; split; cbn; congruence.
  - repeat (case_match; simplify_eq/=); split; cbn; congruence.
Qed.

Lemma apply_all_agree p q h r r' :
  agree p q → index_exact p → index_exact q → stable p h →
  agree (apply_all p h r).1 (apply_all q h r').1.
Proof.
  revert p q r r'. induction h as [|f h IH]; intros p q r r' Ha Hp Hq Hs; [done|].
  destruct Hs as [Hf Hs]. unfold apply_all. cbn [foldl fst snd].
  pose proof (apply_agree p q f r r' Ha Hp Hq) as Ha'.
  pose proof (apply_index_exact p f r Hp Hf) as Hp'.
  assert (index_exact (apply q f r').1) as Hq'.
  { apply apply_index_exact; [done|]. destruct (fr_rec f); try done.
    unfold stable_event, same_parties in *. by rewrite <-(agree_contracts _ _ Ha). }
  rewrite (apply_report p f RebuildReport_default r) in Hs.
  destruct (apply p f r) as [p' s], (apply q f r') as [q' s']. by apply IH.
Qed.

Lemma install_all l p0 (m : gmap Cid ContractRecord) :
  index_exact p0 → (∀ cid c, pr_contracts p0 !! cid = Some c → m !! cid = Some c) →
  (∀ c, c ∈ l → m !! rec_cid c = Some c) →
  let q := foldl install p0 l in
  index_exact q ∧ pr_contracts q = insert_all rec_cid (pr_contracts p0) l ∧
  pr_entities q = pr_entities p0 ∧ pr_requests q = pr_requests p0 ∧ pr_seq q = pr_seq p0 ∧
  pr_offers q = pr_offers p0 ∧ pr_needs q = pr_needs p0.
Proof.
  revert p0. induction l as [|c l IH]; intros p0 Hex H0 Hl; [done|]. cbn [foldl].
  destruct (IH (install p0 c)) as (Q1 & Q2 & Q3).
  - apply index_exact_install; [done|]. intros c' Hc'. apply H0 in Hc'.
    rewrite (Hl c) in Hc' by set_solver. by injection Hc' as <-.
  - intros cid c'. cbn [install with_contracts pr_contracts].
    destruct (decide (cid = rec_cid c)) as [->|Hne].
    + rewrite lookup_insert_eq. intros [= <-]. apply Hl. set_solver.
    + rewrite lookup_insert_ne by done. apply H0.
  - set_solver.
  - split; [done|]. split; [exact Q2|]. exact Q3.
Qed.

Lemma restore_agree p :
  filed p →
  let q := into_projection (take_snapshot p) in
  agree q p ∧ index_exact q ∧ pr_offers q = ∅ ∧ pr_needs q = ∅.
Proof.
  intros (He & Hc & Hr) q. unfold q, into_projection, take_snapshot.
  cbn [sn_seq sn_entities sn_contracts sn_requests].
  set (p0 := with_entities _ _).
  change (foldl (λ p c, _) p0 ?l) with (foldl install p0 l).
  destruct (install_all (map_to_list (pr_contracts p)).*2 p0 (pr_contracts p))
    as (Hex & Q1 & Q2 & Q3 & Q4 & Q5 & Q6).
  - intros id cid. unfold contracts_for_set. cbn. rewrite !lookup_empty. set_solver.
  - intros cid c. cbn. by rewrite lookup_empty.
  - intros c [cid Hcid]%elem_of_values. by rewrite (Hc cid c Hcid).
  - split; [split; cbn|split; [|done]].
    + rewrite Q2. apply (insert_all_values ent_id _ He).
    + rewrite Q1. apply (insert_all_values rec_cid _ Hc).
    + rewrite Q3. apply (insert_all_values req_id _ Hr).
    + by rewrite Q4.
    + by apply (index_exact_same (foldl install p0 (map_to_list (pr_contracts p)).*2)).
Qed.

Lemma index_exact_default : index_exact Projection_default.
Proof.
  intros id cid. unfold contracts_for_set. cbn. rewrite !lookup_empty. set_solver.
Qed.

(** A snapshot is as good as the log for entities, contracts, requests and the
    blast-radius answers: rebuilding from a snapshot and the records after it reaches the
    state a full replay reaches (contract ids being minted again only for the same two
    parties). *)
Theorem snapshot_rebuild `{FramedJsonLaws Event} l before after :
  log_holds l (before ++ after) → stable Projection_default (before ++ after) →
  (∀ f, f ∈ before → (fr_seq f ≤ pr_seq (project before))%N) →
  (∀ f, f ∈ after → (pr_seq (project before) < fr_seq f)%N) →
  ∃ q report, rebuild (Some (take_snapshot (project before))) (log_segments l) = Ok (q, report) ∧
    let full := project (before ++ after) in
    agree q full ∧ ∀ id cid, cid ∈ contracts_for q id ↔ cid ∈ contracts_for full id.
Proof.
  intros Hl Hst Hb Ha. unfold rebuild. rewrite (replay_holds _ _ Hl). cbn [result_bind rp_records].
  destruct (restore_agree (project before) (project_filed before)) as (Hag & Hex & _).
  cbn [rebuild_base]. set (q0 := into_projection _) in *.
  rewrite (agree_seq _ _ Hag), List.filter_app.
  assert (filterb (λ f, pr_seq (project before) <? fr_seq f)%N before = []) as ->.
  { apply filterb_nil. intros f Hf. apply N.ltb_ge. by apply Hb. }
  rewrite filterb_all by (intros f Hf; apply N.ltb_lt; by apply Ha). simpl.
  set (r0 := mkReport 0 0 [] false). apply stable_app in Hst as [Hs1 Hs2].
  pose proof (apply_all_index_exact _ before RebuildReport_default index_exact_default Hs1) as Hexp.
  fold (project before) in Hexp, Hs2.
  assert (stable q0 after) as Hsq.
  { clear -Hag Hex Hexp Hs2. revert Hs2 Hag Hex Hexp. generalize (project before) as p, q0 as q.
    induction after as [|f h IH]; intros p q Hs Hag Hex Hexp; [done|]. destruct Hs as [Hf Hs].
    assert (stable_event q (fr_rec f)) as Hfq.
    { destruct (fr_rec f); try done. unfold stable_event, same_parties in *.
      by rewrite (agree_contracts _ _ Hag). }
    split; [done|]. apply (IH (apply p f RebuildReport_default).1); [done|by apply apply_agree|
      by apply apply_index_exact|by apply apply_index_exact]. }
  exists (apply_all q0 after r0).1, (apply_all q0 after r0).2. split; [by destruct (apply_all q0 after r0)|].
  assert (project (before ++ after) = (apply_all (project before) after r0).1) as Hfull.
  { unfold project. rewrite apply_all_app. apply apply_all_report. }
  rewrite Hfull. cbv zeta.
  assert (agree (apply_all q0 after r0).1 (apply_all (project before) after r0).1) as Hagf
    by (by apply apply_all_agree).
  split; [done|]. intros id. apply index_exact_agree; [by apply apply_all_index_exact..|].
  apply Hagf.
Qed.

(** But a snapshot forgets offers and needs: whatever had been published, the state
    restored from a snapshot holds none, so after a restart from one a consumer finds no
    offer, and a version the provider has already replaced is accepted again. *)
Theorem snapshot_forgets_offers history :
  let restored := into_projection (take_snapshot (project history)) in
  pr_offers restored = ∅ ∧ pr_needs restored = ∅ ∧
  ∀ old actor seq ts r,
    pr_offers (apply restored (mkFramed seq ts (OfferPublished old actor)) r).1 !! offer_asset old
    = Some old.
Proof.
  intros restored. destruct (restore_agree (project history) (project_filed history)) as (_ & _ & Ho & Hn).
  split; [done|]. split; [done|]. intros old actor seq ts r.
  rewrite apply_offers. unfold published_offer. cbn [fr_rec].
  rewrite bool_decide_eq_true_2 by done. fold restored in Ho. by rewrite Ho, lookup_empty.
Qed.

(** ** Contract sets *)

#[global] Instance cid_str_inj : Inj (=) (=) cid_str.
Proof. by intros [] [] [= ->]. Qed.

#[global] Instance cid_le_total : Total cid_le.
Proof. intros a b. unfold cid_le. apply (total String.le). Qed.
#[global] Instance cid_le_trans : Transitive cid_le.
Proof. intros a b c. unfold cid_le. intros H1 H2. exact (transitivity H1 H2). Qed.

Lemma StronglySorted_filterb {A} (R : relation A) (f : A → bool) l :
  StronglySorted R l → StronglySorted R (filterb f l).
Proof.
  induction 1 as [|x l Hl IH Hx]; simpl; [constructor|]. destruct (f x); [|done].
  constructor; [done|]. apply Forall_forall. intros y [Hy _]%elem_of_filterb.
  rewrite Forall_forall in Hx. auto.
Qed.

(** The records addressed to a mediator, in cid order. *)
Definition addressed (p : Projection) (mediator : string) : list ContractRecord :=
  merge_sort cid_le (filterb (λ c, str_in mediator (rec_aud c)) ((map_to_list (pr_contracts p)).*2)).

Lemma elem_of_addressed p mediator c :
  c ∈ addressed p mediator ↔ (∃ cid, pr_contracts p !! cid = Some c) ∧ mediator ∈ rec_aud c.
Proof.
  unfold addressed. rewrite merge_sort_Permutation, elem_of_filterb, elem_of_values.
  unfold str_in. by rewrite bool_decide_eq_true.
Qed.

Lemma values_cids_NoDup p : filed p → NoDup (rec_cid <$> (map_to_list (pr_contracts p)).*2).
Proof.
  intros (_ & Hc & _). rewrite <-list_fmap_compose.
  assert (rec_cid ∘ snd <$> map_to_list (pr_contracts p) = (map_to_list (pr_contracts p)).*1) as ->.
  { apply list_fmap_ext. intros i [k c] Hin. simpl. apply Hc, elem_of_map_to_list.
    by apply (list_elem_of_lookup_2 _ i). }
  apply NoDup_fst_map_to_list.
Qed.

Lemma addressed_sorted p mediator :
  filed p → StronglySorted str_lt (cid_str ∘ rec_cid <$> addressed p mediator).
Proof.
  intros Hf. pose proof (values_cids_NoDup p Hf) as Hnd.
  assert (NoDup (rec_cid <$> addressed p mediator)) as Hnd'.
  { unfold addressed. rewrite merge_sort_Permutation.
    eapply sublist_NoDup; [exact Hnd|]. apply fmap_sublist, sublist_filterb. }
  assert (StronglySorted cid_le (addressed p mediator)) as Hs
    by (apply StronglySorted_merge_sort; apply _).
  clear Hnd Hf. revert Hnd' Hs. generalize (addressed p mediator) as k. intros k Hnd' Hs.
  induction Hs as [|c l Hl IH Hx]; [constructor|]. rewrite fmap_cons in Hnd'. rewrite fmap_cons.
  apply NoDup_cons in Hnd' as [Hc Hnd']. constructor; [by apply IH|].
  apply Forall_forall. intros s (d & -> & Hd)%list_elem_of_fmap. rewrite Forall_forall in Hx.
  split; [exact (Hx d Hd)|]. simpl. intros E. apply Hc, list_elem_of_fmap. exists d.
  split; [|done]. destruct (rec_cid c), (rec_cid d). simpl in E. by subst.
Qed.

Lemma active_sorted p mediator f :
  filed p → StronglySorted str_lt (cid_str <$> (rec_cid <$> filterb f (addressed p mediator))).
Proof.
  intros Hf. rewrite <-list_fmap_compose. pose proof (addressed_sorted p mediator Hf) as Hs.
  induction (addressed p mediator) as [|c l IH]; [constructor|]. simpl.
  rewrite fmap_cons in Hs. apply StronglySorted_inv in Hs as [Hs Hx].
  destruct (f c); [|by apply IH]. rewrite fmap_cons. constructor; [by apply IH|].
  apply Forall_forall. intros s (d & -> & [Hd _]%elem_of_filterb)%list_elem_of_fmap.
  rewrite Forall_forall in Hx. apply Hx, list_elem_of_fmap. eauto.
Qed.

Lemma digest_input_inj l l' :
  Forall (λ c, no_byte "010"%char (cid_str c)) l → Forall (λ c, no_byte "010"%char (cid_str c)) l' →
  digest_input l = digest_input l' → l = l'.
Proof.
  intros Hl. revert l'. induction Hl as [|[c] l Hc Hl IH]; intros l' Hl' E.
  - destruct Hl' as [|[c'] l' Hc' Hl']; [done|]. apply (f_equal bytes) in E. simpl in E.
    rewrite !bytes_app in E. simpl in E. by destruct (bytes c').
  - destruct Hl' as [|[c'] l' Hc' Hl'].
    + apply (f_equal bytes) in E. simpl in E. rewrite !bytes_app in E. simpl in E.
      by destruct (bytes c).
    + apply (f_equal bytes) in E. simpl in E. rewrite !bytes_app in E. simpl in E.
      apply sep_inj in E as [Ec E]; [|exact Hc|exact Hc']. apply bytes_inj in Ec, E. subst.
      f_equal. by apply IH.
Qed.

(** The contract set a mediator is told to hold is exactly right: a contract is active
    in it when it is addressed to that mediator, in force and unexpired, and listed as
    removed when it is addressed to it and is not; both lists are in strict id order, so
    two states with the same live contracts agree on the set hash; and one hash stands for
    one list of contracts, up to a SHA-256 collision. *)
Theorem contract_set_exact `{Sha256} history mediator now :
  let p := project history in
  let v := contract_set_for p mediator now in
  (∀ cid, cid ∈ csv_active v ↔ ∃ c, pr_contracts p !! cid = Some c ∧ mediator ∈ rec_aud c ∧
                                    ContractRecord_is_live c now = true) ∧
  (∀ cid, cid ∈ csv_removed v ↔ ∃ c, pr_contracts p !! cid = Some c ∧ mediator ∈ rec_aud c ∧
                                     ContractRecord_is_live c now = false) ∧
  StronglySorted str_lt (cid_str <$> csv_active v) ∧ StronglySorted str_lt (cid_str <$> csv_removed v) ∧
  ∀ history' now', let v' := contract_set_for (project history') mediator now' in
    ((∀ cid, cid ∈ csv_active v ↔ cid ∈ csv_active v') → csv_set_hash v = csv_set_hash v') ∧
    (Forall (λ c, no_byte "010"%char (cid_str c)) (csv_active v) →
     Forall (λ c, no_byte "010"%char (cid_str c)) (csv_active v') →
     csv_set_hash v = csv_set_hash v' → csv_active v = csv_active v' ∨ sha256_collision).
Proof.
  intros p v.
  assert (∀ h (f : ContractRecord → bool) cid, cid ∈ rec_cid <$> filterb f (addressed (project h) mediator) ↔
    ∃ c, pr_contracts (project h) !! cid = Some c ∧ mediator ∈ rec_aud c ∧ f c = true) as Hmem.
  { clear v. intros h f cid. destruct (project_filed h) as (_ & Hc & _). rewrite list_elem_of_fmap.
    setoid_rewrite elem_of_filterb. setoid_rewrite elem_of_addressed. split.
    - intros (c & -> & ((cid' & Hl) & Hm) & Hf). exists c. by rewrite (Hc cid' c Hl).
    - intros (c & Hl & Hm & Hf). exists c. rewrite (Hc cid c Hl). eauto. }
  split; [exact (Hmem history (λ c, ContractRecord_is_live c now))|]. split.
  { intros cid.
    etransitivity; [exact (Hmem history (λ c, negb (ContractRecord_is_live c now)) cid)|].
    by setoid_rewrite negb_true_iff. }
  split; [apply active_sorted, project_filed|]. split; [apply active_sorted, project_filed|].
  intros history' now' v'.
  assert (StronglySorted str_lt (cid_str <$> csv_active v)) as Hs by apply active_sorted, project_filed.
  assert (StronglySorted str_lt (cid_str <$> csv_active v')) as Hs' by apply active_sorted, project_filed.
  change (csv_set_hash v) with (sha256_tagged (digest_input (csv_active v))).
  change (csv_set_hash v') with (sha256_tagged (digest_input (csv_active v'))).
  split.
  - intros Hext. do 2 f_equal. apply (inj (fmap (M:=list) cid_str)).
    apply str_lt_sorted_ext; [done|done|]. intros s. rewrite !list_elem_of_fmap.
    by setoid_rewrite Hext.
  - intros Hn Hn' [E|?]%sha256_tagged_inj; [left|by right]. by apply digest_input_inj.
Qed.

(** Artifact file names collide: the file name keeps letters, digits and hyphens of the
    audience and folds every other character to one underscore, so two mediators whose ids
    differ in such a character only share a file, and writing the second artifact loses
    the first. *)
Theorem artifact_name_collides s cid jws jws' :
  artifact_name cid "warden:mediator_x" = artifact_name cid "warden:mediator:x" ∧
  st_artifacts (write_artifact (write_artifact s cid "warden:mediator:x" jws) cid "warden:mediator_x" jws')
    !! artifact_name cid "warden:mediator:x" = Some (jws' +:+ NLs).
Proof.
  assert (artifact_name cid "warden:mediator_x" = artifact_name cid "warden:mediator:x") as E.
  { unfold artifact_name.
    assert (from_chars (map safe_char (chars "warden:mediator_x"))
      = from_chars (map safe_char (chars "warden:mediator:x"))) as E0 by (vm_compute; reflexivity).
    by rewrite E0. }
  split; [exact E|]. unfold write_artifact. cbn [st_artifacts]. rewrite E. by rewrite lookup_insert_eq.
Qed.
