(* ===== verification/Registry.v ===== *)
(** * Registry: the validated write path ([crates/wc-control/src/registry.rs])

    A [Registry] borrows the store with an actor and a time for one operation.  Each
    operation validates against the projection, commits one event and answers; here it
    takes the store, what the file system did to the append ([Io]), and returns the store
    it leaves and the answer. *)

From S2P Require Import Prelude Text Errors Model Contract Log Store.

Record Registry := mkRegistry { rg_store : Store; rg_now : N; rg_actor : Actor }.

Definition registry (s : Store) (actor : Actor) (now : N) : Registry := mkRegistry s now actor.

Record QuarantineOutcome := mkQuarantineOutcome {
  qo_party : EntityId;
  qo_revoked : list Cid;
  qo_impacted_services : list string
}.

(** [Tier::requires_dual_control] and two distinct humans. *)
Definition distinct_approvers (approvers : list HumanRef) : list string :=
  sort_dedup (human_str <$> approvers).

Definition require_dual_control (tier : Tier) (approvers : list HumanRef) : result unit :=
  if negb (requires_dual_control tier) then Ok tt
  else if (2 <=? len (distinct_approvers approvers))%N then Ok tt
  else Err QUARANTINE_DUAL_CONTROL_MISSING.

Section Operations.
Context `{FramedJson Event}.
Implicit Types (rg : Registry) (io : Io).

(** ** Reads *)

Definition get rg (id : EntityId) : option Entity := proj_entity (st_projection (rg_store rg)) id.
Definition require rg (id : EntityId) : result Entity := require_entity (st_projection (rg_store rg)) id.
Definition rg_contract rg (cid : Cid) : option ContractRecord :=
  pr_contracts (st_projection (rg_store rg)) !! cid.

Definition assert_connectable rg (id : EntityId) (mode : Mode) : result unit :=
  let? e := require rg id in Entity_assert_connectable e mode.

Definition impacted_services rg (cids : list Cid) : list string :=
  let contracts := omap (rg_contract rg) cids in
  let parties := c ← contracts; [rec_caller c; rec_callee c] in
  sort_dedup (omap ent_service (omap (get rg) parties)).

(** ** Writes

    [log_fact] is the tail every write shares: [self.store.commit(event, self.now, d)?]. *)

Definition log_fact {A} rg (event : Event) (d : Durability) io (answer : Store → result A)
    : Store * result A :=
  let '(s, r) := commit (rg_store rg) event (rg_now rg) d io in
  (s, let? _ := r in answer s).

(** A validation that failed before anything was written. *)
Definition validated {A B} rg (v : result A) (k : A → Store * result B) : Store * result B :=
  match v with Ok a => k a | Err e => (rg_store rg, Err e) end.

Definition put rg (entity : Entity) io : Store * result Entity :=
  validated rg
    (match get rg (ent_id entity) with
     | Some existing =>
       guard_err (negb (bool_decide (ent_lifecycle existing = Pending))) ENTITY_DUPLICATE $
       Ok (set_times entity (ent_created_at existing) (rg_now rg))
     | None => Ok (set_times entity (ent_created_at entity) (rg_now rg))
     end)
    (λ entity,
      log_fact rg (EntityPut entity (rg_actor rg)) Durable io
        (λ s, require_entity (st_projection s) (ent_id entity))).

Definition transition rg (id : EntityId) (to : Lifecycle) (why : string) io : Store * result unit :=
  validated rg (let? e := require rg id in Entity_transition_to e to (rg_now rg))
    (λ _, log_fact rg (EntityTransition id to why (rg_actor rg)) Durable io (λ _, Ok tt)).

Definition set_posture rg (id : EntityId) (posture : Posture) (score : N) io : Store * result unit :=
  validated rg
    (let? existing := require rg id in
     guard_err (bool_decide (posture = Quarantined)) ILLEGAL_TRANSITION $
     guard_err (bool_decide (ent_posture existing = Quarantined)) ENTITY_QUARANTINED $ Ok tt)
    (λ _, log_fact rg (EntityPosture id posture score) Batched io (λ _, Ok tt)).

Definition repin rg (id : EntityId) (pin : Pin) (cause : RepinCause) io : Store * result (list Cid) :=
  validated rg
    (let? probe := require rg id in
     let old_manifest := pin_manifest (ent_pin probe) in
     let? (_, diff) := Entity_repin probe pin (rg_now rg) in
     Ok (diff, if bool_decide (old_manifest = "") then []
               else contracts_for_pin (st_projection (rg_store rg)) old_manifest))
    (λ out, log_fact rg (EntityRepin id pin cause out.1) Durable io (λ _, Ok out.2)).

Definition suspend_contract rg (cid : Cid) (cause : SuspendCause) io : Store * result unit :=
  validated rg
    (let? contract := ok_or (rg_contract rg cid) CONTRACT_NOT_FOUND in
     guard_err (bool_decide (rec_status contract = CRevoked)) CONTRACT_ALREADY_ENDED $ Ok tt)
    (λ _, log_fact rg (ContractSuspend cid cause) Durable io (λ _, Ok tt)).

Definition revoke_contract rg (cid : Cid) (reason : string) io : Store * result unit :=
  validated rg (ok_or (rg_contract rg cid) CONTRACT_NOT_FOUND)
    (λ _, log_fact rg (ContractRevoke cid reason (rg_actor rg)) Durable io (λ _, Ok tt)).

(** ** Containment *)

Definition quarantine rg (party : EntityId) (reason : string) (approvers : list HumanRef) io
    : Store * result QuarantineOutcome :=
  validated rg
    (let? entity := require rg party in require_dual_control (ent_tier entity) approvers)
    (λ _,
      let revoked := contracts_for (st_projection (rg_store rg)) party in
      let impacted := impacted_services rg revoked in
      log_fact rg (QuarantineOrder party reason (rg_actor rg) approvers) Durable io
        (λ _, Ok (mkQuarantineOutcome party revoked impacted))).

Definition clear_quarantine rg (party : EntityId) (approvers : list HumanRef) io
    : Store * result (option N) :=
  validated rg
    (let? entity := require rg party in
     guard_err (negb (bool_decide (ent_posture entity = Quarantined))) ILLEGAL_TRANSITION $
     let held_for := if (0 <? ent_quarantined_at entity)%N
                     then Some (saturating_sub (rg_now rg) (ent_quarantined_at entity)) else None in
     let? _ := require_dual_control Tier_ONE approvers in
     Ok held_for)
    (λ held_for,
      log_fact rg (QuarantineCleared party (rg_actor rg) approvers) Durable io (λ _, Ok held_for)).

(** ** Any operation *)

Inductive Op :=
| OpPut (entity : Entity)
| OpTransition (id : EntityId) (to : Lifecycle) (why : string)
| OpSetPosture (id : EntityId) (posture : Posture) (score : N)
| OpRepin (id : EntityId) (pin : Pin) (cause : RepinCause)
| OpSuspend (cid : Cid) (cause : SuspendCause)
| OpRevoke (cid : Cid) (reason : string)
| OpQuarantine (party : EntityId) (reason : string) (approvers : list HumanRef)
| OpClear (party : EntityId) (approvers : list HumanRef).

(** The operation's effect, its answer reduced to success or an error. *)
Definition run_op rg (op : Op) io : Store * result unit :=
  let unit_of {A} (out : Store * result A) : Store * result unit := (out.1, let? _ := out.2 in Ok tt) in
  match op with
  | OpPut entity => unit_of (put rg entity io)
  | OpTransition id to why => unit_of (transition rg id to why io)
  | OpSetPosture id posture score => unit_of (set_posture rg id posture score io)
  | OpRepin id pin cause => unit_of (repin rg id pin cause io)
  | OpSuspend cid cause => unit_of (suspend_contract rg cid cause io)
  | OpRevoke cid reason => unit_of (revoke_contract rg cid reason io)
  | OpQuarantine party reason approvers => unit_of (quarantine rg party reason approvers io)
  | OpClear party approvers => unit_of (clear_quarantine rg party approvers io)
  end.

(** A session: operations by several actors at several times, whatever the disk does. *)
Definition run_ops (s : Store) (ops : list (Actor * N * Op * Io)) : Store :=
  foldl (λ s '(actor, now, op, io), (run_op (registry s actor now) op io).1) s ops.
End Operations.

(** ** Lemmas: what an operation does to the store *)

Section Effects.
Context `{FramedJson Event}.
Implicit Types (rg : Registry) (io : Io).

Definition rg_projection rg : Projection := st_projection (rg_store rg).

(** What validation establishes of the event it lets through. *)
Definition admissible (p : Projection) (ev : Event) : Prop :=
  match ev with
  | EntityPut entity _ =>
    ∀ e, pr_entities p !! ent_id entity = Some e → ent_lifecycle e = Pending
  | EntityTransition id to _ _ =>
    ∃ e, pr_entities p !! id = Some e ∧ ent_posture e ≠ Quarantined ∧
         can_transition_to (ent_lifecycle e) to = true
  | EntityPosture id posture _ =>
    posture ≠ Quarantined ∧ ∃ e, pr_entities p !! id = Some e ∧ ent_posture e ≠ Quarantined
  | EntityRepin id pin _ diff =>
    pin_alg pin = PIN_ALG ∧ ∃ e, pr_entities p !! id = Some e ∧ diff = Pin_diff (ent_pin e) pin
  | ContractSuspend cid _ => ∃ c, pr_contracts p !! cid = Some c ∧ rec_status c ≠ CRevoked
  | ContractRevoke cid _ _ => is_Some (pr_contracts p !! cid)
  | QuarantineOrder party _ _ approvers =>
    ∃ e, pr_entities p !! party = Some e ∧ require_dual_control (ent_tier e) approvers = Ok tt
  | QuarantineCleared party _ approvers =>
    require_dual_control Tier_ONE approvers = Ok tt ∧
    ∃ e, pr_entities p !! party = Some e ∧ ent_posture e = Quarantined
  | _ => False
  end.

(** Two outcomes of an operation: refused or failed with the projection as it was, or one
    admissible event applied. *)
Definition applied_event rg (s' : Store) (ev : Event) : Prop :=
  admissible (rg_projection rg) ev ∧
  ∃ seq, apply (rg_projection rg) (mkFramed seq (rg_now rg) ev) RebuildReport_default
         = (st_projection s', applied RebuildReport_default) ∧
         st_anomalies s' = st_anomalies (rg_store rg).

Lemma lookup_require p id e : require_entity p id = Ok e ↔ pr_entities p !! id = Some e.
Proof. apply ok_or_ok. Qed.

Lemma apply_admissible p ev seq now :
  admissible p ev →
  (apply p (mkFramed seq now ev) RebuildReport_default).2 = applied RebuildReport_default.
Proof.
  unfold apply. cbn [fr_rec fr_seq fr_ts]. cbv zeta. unfold update_entity, proj_set_status.
  cbn [with_seq pr_entities pr_contracts].
  destruct ev; cbn [admissible]; try done.
  - intros (e & -> & _). done.
  - intros (_ & e & -> & _). done.
  - intros (_ & e & -> & _). done.
  - intros [c ->]. done.
  - intros (c & -> & _). done.
  - intros (e & -> & _). done.
  - intros (_ & e & -> & Hq). unfold Entity_clear_quarantine. rewrite Hq. done.
Qed.

Lemma log_fact_cases {A} rg ev d io (answer : Store → result A) s' r :
  admissible (rg_projection rg) ev → log_fact rg ev d io answer = (s', r) →
  (st_projection s' = rg_projection rg ∧ st_anomalies s' = st_anomalies (rg_store rg) ∧
   ∃ e, r = Err e) ∨
  (applied_event rg s' ev ∧ r = answer s').
Proof.
  intros Ha. unfold log_fact, commit, applied_event, rg_projection in *.
  destruct (append (st_log (rg_store rg)) ev (rg_now rg) d io) as [l [seq|e]]; cbn.
  - destruct (apply _ _ _) as [p rep] eqn:E. intros [= <- <-]. right. split; [|done]. split; [done|].
    exists seq. rewrite E. pose proof (apply_admissible _ ev seq (rg_now rg) Ha) as Hr.
    rewrite E in Hr. cbn in Hr. subst rep. cbn. by rewrite app_nil_r.
  - intros [= <- <-]. left. eauto.
Qed.

Lemma validated_cases {A B} rg (v : result A) (k : A → Store * result B) s' r :
  validated rg v k = (s', r) →
  (s' = rg_store rg ∧ ∃ e, v = Err e ∧ r = Err e) ∨ (∃ a, v = Ok a ∧ k a = (s', r)).
Proof. destruct v; naive_solver. Qed.

(** Which event an operation writes. *)
Definition event_for rg (op : Op) (ev : Event) : Prop :=
  match op with
  | OpPut entity => ∃ created, ev = EntityPut (set_times entity created (rg_now rg)) (rg_actor rg) ∧
      created = match get rg (ent_id entity) with
                | Some existing => ent_created_at existing
                | None => ent_created_at entity
                end
  | OpTransition id to why => ev = EntityTransition id to why (rg_actor rg)
  | OpSetPosture id posture score => ev = EntityPosture id posture score
  | OpRepin id pin cause => ∃ diff, ev = EntityRepin id pin cause diff
  | OpSuspend cid cause => ev = ContractSuspend cid cause
  | OpRevoke cid reason => ev = ContractRevoke cid reason (rg_actor rg)
  | OpQuarantine party reason approvers => ev = QuarantineOrder party reason (rg_actor rg) approvers
  | OpClear party approvers => ev = QuarantineCleared party (rg_actor rg) approvers
  end.

Definition outcome rg (op : Op) (s' : Store) (r : result unit) : Prop :=
  (st_projection s' = rg_projection rg ∧ st_anomalies s' = st_anomalies (rg_store rg) ∧
   ∃ e, r = Err e) ∨
  (r = Ok tt ∧ ∃ ev, event_for rg op ev ∧ applied_event rg s' ev).

(** Every write has the same shape: a validation that yields an admissible event. *)
Lemma write_outcome {A B} rg op (v : result A) ev d io (answer : A → Store → result B) out :
  (∀ a, v = Ok a → admissible (rg_projection rg) (ev a) ∧ event_for rg op (ev a)) →
  (∀ a s', v = Ok a → applied_event rg s' (ev a) → ∃ b, answer a s' = Ok b) →
  out = validated rg v (λ a, log_fact rg (ev a) d io (answer a)) →
  outcome rg op out.1 (let? _ := out.2 in Ok tt).
Proof.
  intros Hv Hans ->. destruct (validated _ _ _) as [s' r] eqn:E.
  apply validated_cases in E as [(-> & e & _ & ->)|(a & Ha & E)]; [left; cbn; eauto|].
  destruct (Hv a Ha) as [Hadm Hev].
  destruct (log_fact_cases _ _ _ _ _ _ _ Hadm E) as [(H1 & H2 & e & ->)|[Happ ->]]; [left; cbn; eauto|].
  right. destruct (Hans a s' Ha Happ) as [b Hb]. cbn. rewrite Hb. eauto.
Qed.

Lemma run_op_outcome rg op io : outcome rg op (run_op rg op io).1 (run_op rg op io).2.
Proof.
  destruct op; cbn [run_op fst snd]; unfold put, transition, set_posture, repin, suspend_contract,
    revoke_contract, quarantine, clear_quarantine;
    (eapply write_outcome; [..|reflexivity]); cbn [event_for admissible]; try (by eauto).
  - intros a. unfold get, proj_entity, rg_projection.
    destruct (pr_entities (st_projection (rg_store rg)) !! ent_id entity) as [x|] eqn:E; cbn.
    + intros [Hl [= <-]]%guard_err_ok. apply negb_false_iff, bool_decide_eq_true in Hl.
      split; [|by eauto]. cbn. rewrite E. by intros e [= <-].
    + intros [= <-]. split; [|by eauto]. cbn. by rewrite E.
  - intros a s' _ (_ & seq & Happ & _). unfold apply in Happ. cbn in Happ.
    injection Happ as <-. exists a. apply lookup_require. cbn. by rewrite lookup_insert_eq.
  - intros a (e & He%lookup_require & [Hq [Ht _]%guard_err_ok]%guard_err_ok)%result_bind_ok.
    bool_facts. split; [|done]. by exists e.
  - intros [] (e & He%lookup_require & [Hp [Hq _]%guard_err_ok]%guard_err_ok)%result_bind_ok.
    bool_facts. split; [|done]. split; [done|]. by exists e.
  - intros [diff aff] (e & He%lookup_require & ([e' d] & [Hp [= <- <-]]%guard_err_ok & [= <- <-])%result_bind_ok)%result_bind_ok.
    bool_facts. split; [|by eexists]. split; [done|]. by exists e.
  - intros [] (c & Hc%ok_or_ok & [Hs _]%guard_err_ok)%result_bind_ok. bool_facts. split; [|done]. by exists c.
  - intros c Hc%ok_or_ok. split; [|done]. by exists c.
  - intros [] (e & He%lookup_require & Hd)%result_bind_ok. split; [|done]. by exists e.
  - intros held (e & He%lookup_require & [Hq ([] & Hd & _)%result_bind_ok]%guard_err_ok)%result_bind_ok.
    bool_facts. split; [|done]. split; [done|]. by exists e.
Qed.
End Effects.

(** ** Properties *)

Section Properties.
Context `{FramedJson Event}.
Implicit Types (rg : Registry) (io : Io).

(** A logged event is an already-validated fact: whatever the operation and whatever
    the disk does, either the answer is an error and the registry's state is what it was,
    or the operation's one event -- which its validation admitted in that state -- has
    been applied, and applying it reported nothing inconsistent.  So no use of the write
    path ever leaves an anomaly behind, which is what lets replay be total without
    re-checking anything. *)
Theorem registry_writes_validated rg op io :
  let '(s', r) := run_op rg op io in
  st_anomalies s' = st_anomalies (rg_store rg) ∧
  match r with
  | Err _ => st_projection s' = st_projection (rg_store rg)
  | Ok _ => ∃ ev seq, event_for rg op ev ∧ admissible (st_projection (rg_store rg)) ev ∧
      apply (st_projection (rg_store rg)) (mkFramed seq (rg_now rg) ev) RebuildReport_default
      = (st_projection s', applied RebuildReport_default)
  end.
Proof.
  pose proof (run_op_outcome rg op io) as Ho. destruct (run_op rg op io) as [s' r].
  destruct Ho as [(H1 & H2 & e & Hr)|(Hr & ev & Hev & Hadm & seq & Happ & Han)]; cbn in *; subst r.
  - done.
  - split; [done|]. by exists ev, seq.
Qed.

Lemma len_distinct_approvers approvers :
  (2 ≤ len (distinct_approvers approvers))%N ↔ ∃ a b, a ∈ approvers ∧ b ∈ approvers ∧ a ≠ b.
Proof.
  unfold distinct_approvers, len. pose proof (NoDup_sort_dedup (human_str <$> approvers)) as Hnd.
  assert (∀ x, x ∈ sort_dedup (human_str <$> approvers) ↔ ∃ a, x = human_str a ∧ a ∈ approvers) as Hin.
  { intros x. by rewrite elem_of_sort_dedup, list_elem_of_fmap. }
  split.
  - destruct (sort_dedup _) as [|x [|y l]]; [simpl; lia..|]. intros _.
    destruct (proj1 (Hin x)) as (a & -> & Ha); [set_solver|].
    destruct (proj1 (Hin y)) as (b & -> & Hb); [set_solver|].
    exists a, b. split; [done|]. split; [done|]. intros ->. apply NoDup_cons in Hnd as [Hn _]. set_solver.
  - intros (a & b & Ha & Hb & Hne).
    assert (human_str a ∈ sort_dedup (human_str <$> approvers)) as H1 by (apply Hin; eauto).
    assert (human_str b ∈ sort_dedup (human_str <$> approvers)) as H2 by (apply Hin; eauto).
    destruct (sort_dedup _) as [|x [|y l]]; [by apply not_elem_of_nil in H1| |simpl; lia].
    apply list_elem_of_singleton in H1, H2. destruct a, b. cbn in *. congruence.
Qed.

Lemma require_dual_control_ok tier approvers :
  require_dual_control tier approvers = Ok tt ↔
  (requires_dual_control tier = true → ∃ a b, a ∈ approvers ∧ b ∈ approvers ∧ a ≠ b).
Proof.
  rewrite <-len_distinct_approvers. unfold require_dual_control.
  destruct (requires_dual_control tier); simpl; [|naive_solver].
  destruct (2 <=? _)%N eqn:E; bool_facts; split; try done.
  intros Hd. specialize (Hd eq_refl). lia.
Qed.

Lemma elem_of_impacted rg cids svc :
  svc ∈ impacted_services rg cids ↔
  ∃ cid c id e, cid ∈ cids ∧ rg_contract rg cid = Some c ∧ involves c id = true ∧
                get rg id = Some e ∧ ent_service e = Some svc.
Proof.
  unfold impacted_services. rewrite elem_of_sort_dedup, list_elem_of_omap.
  setoid_rewrite list_elem_of_omap. setoid_rewrite list_elem_of_bind. setoid_rewrite list_elem_of_omap.
  setoid_rewrite involves_true. split.
  - intros (e & (id & (c & Hid & cid & Hcid & Hc) & He) & Hs). exists cid, c, id, e.
    split; [done|]. split; [done|]. split; [|done]. set_solver.
  - intros (cid & c & id & e & Hcid & Hc & Hid & He & Hs). exists e. split; [|done].
    exists id. split; [|done]. exists c. split; [|by eauto]. destruct Hid; subst; set_solver.
Qed.

(** A quarantine order is dual-controlled and reports its blast radius exactly: on a
    tier-1 party it is refused, with nothing written, unless two different humans approved;
    and when it is accepted the outcome names precisely the contracts the party's indexes
    hold, all of them revoked by then, and precisely the services of the parties those
    contracts join, while the party itself is suspended in quarantine. *)
Theorem quarantine_exact rg party reason approvers io :
  let p := st_projection (rg_store rg) in
  let '(s', r) := quarantine rg party reason approvers io in
  (∀ e, get rg party = Some e → requires_dual_control (ent_tier e) = true →
     (¬ ∃ a b, a ∈ approvers ∧ b ∈ approvers ∧ a ≠ b) →
     s' = rg_store rg ∧ r = Err QUARANTINE_DUAL_CONTROL_MISSING) ∧
  (get rg party = None → s' = rg_store rg ∧ r = Err ENTITY_NOT_FOUND) ∧
  ∀ o, r = Ok o →
    qo_party o = party ∧ qo_revoked o = contracts_for p party ∧
    (∀ cid c, cid ∈ qo_revoked o → pr_contracts (st_projection s') !! cid = Some c →
       rec_status c = CRevoked) ∧
    (∀ svc, svc ∈ qo_impacted_services o ↔
       ∃ cid c id e, cid ∈ qo_revoked o ∧ pr_contracts p !! cid = Some c ∧ involves c id = true ∧
         pr_entities p !! id = Some e ∧ ent_service e = Some svc) ∧
    ∃ e', pr_entities (st_projection s') !! party = Some e' ∧
      ent_posture e' = Quarantined ∧ ent_lifecycle e' = Suspended.
Proof.
  intros p. destruct (quarantine rg party reason approvers io) as [s' r] eqn:E.
  unfold quarantine in E. apply validated_cases in E as [(-> & c & Hv & ->)|([] & Hv & E)].
  - unfold require, require_entity in Hv. fold (get rg party) in Hv.
    destruct (get rg party) as [e|]; cbn in Hv.
    + split; [|by split]. intros e' [= <-] Ht Hne. split; [done|]. f_equal.
      unfold require_dual_control in Hv. rewrite Ht in Hv. cbn in Hv.
      destruct (2 <=? _)%N; [done|]. by injection Hv as <-.
    + injection Hv as <-. by repeat split.
  - apply result_bind_ok in Hv as (e & He & Hd). apply lookup_require in He. split; [|split].
    + unfold get, proj_entity. rewrite He. intros e' [= <-] Ht Hne.
      destruct Hne. by apply require_dual_control_ok in Hd; [apply Hd|].
    + unfold get, proj_entity. by rewrite He.
    + intros o ->. apply log_fact_cases in E as [(_ & _ & e' & [=])|[Happ [= ->]]]; [|by exists e].
      destruct Happ as (_ & seq & Happ & _). cbn [qo_party qo_revoked qo_impacted_services].
      set (f := mkFramed seq _ _) in Happ.
      pose proof (quarantine_contracts p f RebuildReport_default party reason (rg_actor rg) approvers eq_refl)
        as [Hc Hent].
      unfold rg_projection in Happ. fold p in Happ. rewrite Happ in Hc, Hent. cbn [fst] in Hc, Hent.
      split; [done|]. split; [done|]. split; [|split].
      * intros cid c Hcid. rewrite Hc, lookup_revoke_all, bool_decide_eq_true_2 by done.
        destruct (pr_contracts p !! cid); naive_solver.
      * apply elem_of_impacted.
      * rewrite Hent. unfold p. rewrite He. rewrite lookup_insert_eq. by eexists.
Qed.

(** A party held in quarantine. *)
Definition contained_in (p : Projection) (party : EntityId) : Prop :=
  ∃ e, pr_entities p !! party = Some e ∧ ent_posture e = Quarantined ∧ ent_lifecycle e = Suspended.

(** An operation that does not lift the quarantine of [party]: anything but a clearance
    that two different humans approved. *)
Definition keeps_quarantine (party : EntityId) (op : Op) : Prop :=
  match op with
  | OpClear party' approvers => party' = party → ¬ ∃ a b, a ∈ approvers ∧ b ∈ approvers ∧ a ≠ b
  | _ => True
  end.

Lemma run_op_keeps_revoked rg op io cid :
  is_revoked_in (rg_projection rg) cid → is_revoked_in (st_projection (run_op rg op io).1) cid.
Proof.
  intros Hr. destruct (run_op_outcome rg op io) as [(-> & _)|(_ & ev & Hev & Hadm & seq & Happ & _)]; [done|].
  assert (st_projection (run_op rg op io).1
    = (apply (rg_projection rg) (mkFramed seq (rg_now rg) ev) RebuildReport_default).1) as ->
    by (by rewrite Happ).
  destruct ev; try (by apply apply_revoked).
  apply apply_revoked; [done|]. cbn. apply bool_decide_eq_false. intros ->.
  destruct Hr as (c & Hc & Hs), Hadm as (c' & Hc' & Hs'). congruence.
Qed.

(** An event other than a clearance of [party] keeps it contained. *)
Lemma apply_contained p party ev seq now :
  contained_in p party → admissible p ev →
  (∀ actor approvers, ev ≠ QuarantineCleared party actor approvers) →
  contained_in (apply p (mkFramed seq now ev) RebuildReport_default).1 party.
Proof.
  intros (e & He & Hq & Hl) Hadm Hne. unfold contained_in, apply.
  cbn [fr_rec fr_seq fr_ts]. cbv zeta. unfold update_entity, proj_set_status.
  assert (∀ id m, id ≠ party → ∃ e', <[id := m]> (pr_entities p) !! party = Some e' ∧
    ent_posture e' = Quarantined ∧ ent_lifecycle e' = Suspended) as Hother.
  { intros id m Hid. exists e. by rewrite lookup_insert_ne. }
  destruct ev as [entity a|id to why a|id pin cause diff|id posture score| | | | | | |cid reason a|cid cause|
    |id reason a dual|id a dual| | |]; cbn [admissible with_seq pr_entities pr_contracts] in *; try done.
  - apply Hother. intros <-. rewrite (Hadm e He) in Hl. done.
  - destruct Hadm as (x & Hx & Hxq & _). rewrite Hx. apply Hother. intros ->. congruence.
  - destruct Hadm as (_ & x & Hx & _). rewrite Hx. destruct (decide (id = party)) as [->|]; [|by apply Hother].
    exists (set_pin x pin now). cbn. rewrite lookup_insert_eq. split; [done|]. by simplify_eq.
  - destruct Hadm as (_ & x & Hx & Hxq). rewrite Hx. apply Hother. intros ->. congruence.
  - destruct Hadm as [c ->]. by exists e.
  - destruct Hadm as (c & -> & _). by exists e.
  - destruct Hadm as (x & Hx & _). rewrite Hx. destruct (decide (id = party)) as [->|]; [|by apply Hother].
    exists (Entity_quarantine x now). cbn. by rewrite lookup_insert_eq.
  - destruct Hadm as (_ & x & Hx & Hxq). rewrite Hx. unfold Entity_clear_quarantine. rewrite Hxq. cbn.
    apply Hother. intros ->. by apply (Hne a dual).
Qed.

Lemma run_op_keeps_contained rg op io party :
  contained_in (rg_projection rg) party → keeps_quarantine party op →
  contained_in (st_projection (run_op rg op io).1) party.
Proof.
  intros Hc Hk.
  destruct (run_op_outcome rg op io) as [(-> & _)|(_ & ev & Hev & Hadm & seq & Happ & _)]; [done|].
  assert (st_projection (run_op rg op io).1
    = (apply (rg_projection rg) (mkFramed seq (rg_now rg) ev) RebuildReport_default).1) as ->
    by (by rewrite Happ).
  apply apply_contained; [done|done|]. intros actor approvers ->.
  destruct op; cbn [event_for] in Hev; try (by destruct Hev as (? & ? & _)); try (by destruct Hev); try done.
  injection Hev as -> -> ->. destruct Hadm as [Hd _]. apply require_dual_control_ok in Hd; [|done].
  by apply (Hk eq_refl).
Qed.

(** Containment holds: through any session of registry operations -- by any actors, at
    any times, whatever the disk does -- a revoked contract stays revoked, and a
    quarantined party stays suspended in quarantine until a clearance that two different
    humans approved. *)
Theorem containment_holds s ops party :
  (∀ cid, is_revoked_in (st_projection s) cid →
     is_revoked_in (st_projection (run_ops s ops)) cid) ∧
  (contained_in (st_projection s) party → Forall (λ o, keeps_quarantine party o.1.2) ops →
   contained_in (st_projection (run_ops s ops)) party).
Proof.
  unfold run_ops. revert s. induction ops as [|[[[actor now] op] io] ops IH]; intros s; [done|].
  cbn [foldl]. destruct (IH (run_op (registry s actor now) op io).1) as [IH1 IH2]. split.
  - intros cid Hr. by apply IH1, run_op_keeps_revoked.
  - intros Hc [Hk Hks]%Forall_cons. apply IH2; [|done]. by apply run_op_keeps_contained.
Qed.
End Properties.
