(* ===== verification/Std.v ===== *)
(** * Std: more of Rust's standard library, as the policy and its neighbours use it

    [str] search, trimming and splitting; [u64] parsing and printing; IEEE doubles
    ([f64]): conversion from an integer, division, comparison, [str::parse::<f64>] and
    [Display].  Doubles are Stdlib's [spec_float]s of precision 53 and exponent bound 1024. *)

From Stdlib Require Import SpecFloat ZArith.
From stdpp Require Import pretty.
From S2P Require Import Prelude Text Errors Model Json Canon Contract Artifact Log Store.

(** ** Text *)

(** The Unicode tables behind [char::is_alphanumeric] and [str::to_lowercase]. *)
Class CharTables := {
  is_alphanumeric : N → bool;
  to_lowercase : string → string
}.

(** [str::to_ascii_lowercase] and [str::contains]. *)
Definition to_ascii_lowercase (s : string) : string := of_bytes (map ascii_lower (bytes s)).
Fixpoint str_contains (needle s : string) : bool :=
  starts_with needle s ||
  match s with EmptyString => false | String _ s => str_contains needle s end.

(** [str::split_once(c)] for a one-byte separator. *)
Fixpoint split_once (c : ascii) (s : string) : option (string * string) :=
  match s with
  | EmptyString => None
  | String a s =>
    if bool_decide (a = c) then Some ("", s)
    else match split_once c s with Some (l, r) => Some (String a l, r) | None => None end
  end.

(** What stands before and after the first occurrence of a text. *)
Fixpoint split_at_first (needle s : string) : option (string * string) :=
  match strip_prefix needle s with
  | Some r => Some ("", r)
  | None => match s with
            | EmptyString => None
            | String c s => match split_at_first needle s with Some (l, r) => Some (String c l, r) | None => None end
            end
  end.

(** The double quote, and a text between two. *)
Definition quote_byte : ascii := ascii_of_N 34.
Definition in_quotes (v : string) : string := String quote_byte (v +:+ String quote_byte "").

(** The last byte of a string and what precedes it. *)
Fixpoint unsnoc (s : string) : option (string * ascii) :=
  match s with
  | EmptyString => None
  | String a s => match unsnoc s with Some (l, b) => Some (String a l, b) | None => Some ("", a) end
  end.

(** [str::strip_suffix(c)] for a one-byte character. *)
Definition strip_suffix_char (c : ascii) (s : string) : option string :=
  match unsnoc s with Some (l, b) => if bool_decide (b = c) then Some l else None | None => None end.

(** [str::trim_start_matches(prefix)]; each round removes at least one byte, so the length of
    the text is fuel enough when the prefix is not empty. *)
Fixpoint trim_rounds (fuel : nat) (prefix s : string) : string :=
  match fuel with
  | O => s
  | S fuel => match strip_prefix prefix s with Some r => trim_rounds fuel prefix r | None => s end
  end.
Definition trim_start_matches (prefix s : string) : string := trim_rounds (String.length s) prefix s.

(** ** Integers *)

(** [str::parse] for an unsigned type: an optional [+], then at least one digit, no overflow. *)
Definition parse_uint (max : N) (s : string) : option N :=
  let body := match strip_prefix "+" s with Some r => r | None => s end in
  if bool_decide (body = "") then None else
  fold_left (λ acc b,
    n ← acc;
    if is_ascii_digit b then
      let m := (n * 10 + (b - 48))%N in if (m <=? max)%N then Some m else None
    else None) (bytes body) (Some 0%N).
Definition parse_u64 : string → option N := parse_uint u64_max.

Definition checked_mul (a b : N) : option N :=
  if (a * b <=? u64_max)%N then Some (a * b)%N else None.

(** ** Doubles *)

Definition f64_of_Z (z : Z) : spec_float := binary_normalize 53 1024 z 0 false.
(** [n as f64], [f64::from(n)]: rounded to nearest. *)
Definition f64_of_N (n : N) : spec_float := f64_of_Z (Z.of_N n).
Definition f64_div (a b : spec_float) : spec_float := SFdiv 53 1024 a b.
Definition f64_sub (a b : spec_float) : spec_float := SFsub 53 1024 a b.
Definition f64_lt (a b : spec_float) : bool := SFltb a b.
(** [f64::EPSILON], 2^-52. *)
Definition f64_epsilon : spec_float := binary_normalize 53 1024 1 (-52) false.

(** ** Parsing a double *)

Fixpoint span_digits (l : list N) : list N * list N :=
  match l with
  | c :: r => if is_ascii_digit c then let '(ds, rest) := span_digits r in (c :: ds, rest) else ([], l)
  | [] => ([], [])
  end.
Definition digits_value (l : list N) : N := foldl (λ acc c, acc * 10 + (c - 48))%N 0%N l.

(** A sign, and what follows it. *)
Definition take_sign (l : list N) : bool * list N :=
  match l with 45%N :: l => (true, l) | 43%N :: l => (false, l) | l => (false, l) end.

(** [(-1)^neg * m * 10^e], rounded to the nearest double. *)
Definition f64_of_decimal (neg : bool) (m : N) (e : Z) : spec_float :=
  match m with
  | 0%N => S754_zero neg
  | Npos p =>
    if (0 <=? e)%Z
    then binary_normalize 53 1024 (if neg then - (Zpos p * 10 ^ e) else Zpos p * 10 ^ e)%Z 0 neg
    else SFdiv 53 1024 (S754_finite neg p 0) (S754_finite false (Z.to_pos (10 ^ (- e))) 0)
  end.

(** The exponent part: absent, or [e] with a signed decimal. *)
Definition parse_exponent (l : list N) : option Z :=
  match l with
  | [] => Some 0%Z
  | c :: l =>
    if (c =? 101)%N || (c =? 69)%N then
      let '(neg, l) := take_sign l in
      let '(ds, rest) := span_digits l in
      match ds, rest with
      | _ :: _, [] => Some (if neg then - Z.of_N (digits_value ds) else Z.of_N (digits_value ds))%Z
      | _, _ => None
      end
    else None
  end.

(** [str::parse::<f64>]. *)
Definition parse_f64 (s : string) : option spec_float :=
  let '(neg, l) := take_sign (bytes s) in
  let word := of_bytes (map ascii_lower l) in
  if bool_decide (word = "inf") || bool_decide (word = "infinity") then Some (S754_infinity neg)
  else if bool_decide (word = "nan") then Some S754_nan
  else
    let '(int, rest) := span_digits l in
    let '(frac, rest) := match rest with 46%N :: r => span_digits r | _ => ([], rest) end in
    match int ++ frac with
    | [] => None
    | ds => e ← parse_exponent rest; Some (f64_of_decimal neg (digits_value ds) (e - Z.of_nat (length frac)))
    end.

(** ** Printing a double: the shortest decimal that reads back as it, without an exponent *)

Definition pow10 (k : Z) : Z := (10 ^ k)%Z.

(** [m * 2^e] as a fraction of integers, scaled by [10^k]. *)
Definition scaled (m : positive) (e k : Z) : Z * Z :=
  ((Zpos m * (if 0 <=? e then 2 ^ e else 1) * (if 0 <=? k then pow10 k else 1))%Z,
   ((if 0 <=? e then 1 else 2 ^ (- e)) * (if 0 <=? k then 1 else pow10 (- k)))%Z).

(** Moves [k] until [10^(k-1) <= m * 2^e < 10^k]. *)
Fixpoint decimal_point (fuel : nat) (m : positive) (e k : Z) : Z :=
  match fuel with
  | 0 => k
  | S fuel =>
    let '(n, d) := scaled m e (- k) in
    if (d <=? n)%Z then decimal_point fuel m e (k + 1)
    else if (n * 10 <? d)%Z then decimal_point fuel m e (k - 1) else k
  end.

(** The shortest decimal that reads back: its digits as an integer, and how many of them
    were asked for.  Seventeen always do. *)
Fixpoint shortest (fuel : nat) (m : positive) (e k : Z) : Z * Z :=
  let len := (17 - Z.of_nat fuel)%Z in
  let '(n, d) := scaled m e (len - k) in
  let q := (n / d)%Z in
  let reads z := bool_decide (f64_of_decimal false (Z.to_N z) (k - len) = S754_finite false m e) in
  let up := (d <=? (n mod d) * 2)%Z in
  match fuel, reads q, reads (q + 1)%Z with
  | _, true, true => (if up then (q + 1)%Z else q, len)
  | _, true, false => (q, len)
  | _, false, true => ((q + 1)%Z, len)
  | S fuel, false, false => shortest fuel m e k
  | O, false, false => (q, len)
  end.

(** The digits with the point after the [k]th, or zeros to fill. *)
Definition place_point (digits : string) (k : Z) : string :=
  let n := Z.of_nat (String.length digits) in
  let zeros z := String.concat "" (replicate (Z.to_nat z) "0") in
  if (k <=? 0)%Z then "0." +:+ zeros (- k)%Z +:+ digits
  else if (n <=? k)%Z then digits +:+ zeros (k - n)%Z
  else String.substring 0 (Z.to_nat k) digits +:+ "." +:+
       String.substring (Z.to_nat k) (Z.to_nat (n - k)%Z) digits.

Definition strip_zeros (s : string) : string :=
  of_bytes (reverse ((fix drop l := match l with 48%N :: l => drop l | l => l end) (reverse (bytes s)))).

Definition f64_to_string (f : spec_float) : string :=
  match f with
  | S754_nan => "NaN"
  | S754_infinity s => if s then "-inf" else "inf"
  | S754_zero s => if s then "-0" else "0"
  | S754_finite s m e =>
    let k := decimal_point 700 m e ((Z.log2 (Zpos m) + e) * 30103 / 100000 + 1) in
    let '(z, len) := shortest 16 m e k in
    let digits := pretty z in
    (* one digit more than asked for when rounding up carried *)
    (if s then "-" else "") +:+
    place_point (strip_zeros digits) (k + (Z.of_nat (String.length digits) - len))
  end.

(** ** Lemmas *)

Definition parse_step (max : N) (acc : option N) (b : N) : option N :=
  n ← acc;
  if is_ascii_digit b then
    let m := (n * 10 + (b - 48))%N in if (m <=? max)%N then Some m else None
  else None.

Lemma pretty_N_char_digit x : (x < 10)%N →
  N_of_ascii (pretty_N_char x) = (48 + x)%N.
Proof.
  intros Hx. unfold pretty_N_char.
  assert (x = 0 ∨ x = 1 ∨ x = 2 ∨ x = 3 ∨ x = 4 ∨ x = 5 ∨ x = 6 ∨ x = 7 ∨ x = 8 ∨ x = 9)%N as Hc by lia.
  repeat destruct Hc as [->|Hc]; try subst x; reflexivity.
Qed.

Lemma parse_step_digit max n d : (d < 10)%N → (n * 10 + d ≤ max)%N →
  parse_step max (Some n) (48 + d) = Some (n * 10 + d)%N.
Proof.
  intros Hd Hn. unfold parse_step. simpl. unfold is_ascii_digit.
  replace (48 <=? 48 + d)%N with true by (symmetry; apply N.leb_le; lia).
  replace (48 + d <=? 57)%N with true by (symmetry; apply N.leb_le; lia). simpl.
  replace (48 + d - 48)%N with d by lia.
  by replace (n * 10 + d <=? max)%N with true by (symmetry; apply N.leb_le; lia).
Qed.

Lemma parse_pretty_go max n s : (n ≤ max)%N →
  fold_left (parse_step max) (bytes (pretty_N_go n s)) (Some 0%N)
  = fold_left (parse_step max) (bytes s) (Some n).
Proof.
  revert s. induction (N.lt_wf_0 n) as [n _ IH]. intros s Hn.
  destruct (decide (n = 0)%N) as [->|Hne]; [by rewrite pretty_N_go_0|].
  rewrite pretty_N_go_step by lia. pose proof (N.div_mod' n 10). pose proof (N.mod_lt n 10 ltac:(lia)).
  pose proof (N.div_lt n 10 ltac:(lia) ltac:(lia)). rewrite IH by lia. cbn [bytes fold_left].
  rewrite pretty_N_char_digit by done. rewrite parse_step_digit by lia. by replace (n / 10 * 10 + n mod 10)%N with n by lia.
Qed.

Lemma pretty_N_bytes n b : b ∈ bytes (pretty (n : N)) → is_ascii_digit b = true.
Proof. apply TestPrinter.pretty_digits. Qed.

Lemma pretty_N_nonempty (n : N) : pretty n ≠ "".
Proof.
  unfold pretty, pretty_N. case_decide; [done|]. rewrite pretty_N_go_step by lia.
  assert (∀ s m, s ≠ "" → pretty_N_go m s ≠ "") as Hgo; [|by apply Hgo].
  intros s m. revert s. induction (N.lt_wf_0 m) as [m _ IH]. intros s Hs.
  destruct (decide (m = 0)%N) as [->|]; [by rewrite pretty_N_go_0|].
  rewrite pretty_N_go_step by lia. apply IH; [apply N.div_lt; lia|done].
Qed.

Lemma parse_uint_pretty max (n : N) : (n ≤ max)%N → parse_uint max (pretty n) = Some n.
Proof.
  intros Hn. unfold parse_uint.
  destruct (strip_prefix "+" (pretty n)) as [r|] eqn:E.
  { apply strip_prefix_Some in E.
    assert (is_ascii_digit 43 = true) as Hd; [|vm_compute in Hd; done].
    apply (pretty_N_bytes n). rewrite E. by left. }
  rewrite bool_decide_eq_false_2 by apply pretty_N_nonempty.
  change (fold_left (parse_step max) (bytes (pretty n)) (Some 0%N) = Some n).
  unfold pretty, pretty_N. case_decide as Hz; [subst n|by rewrite parse_pretty_go].
  exact (parse_step_digit max 0 0 ltac:(lia) Hn).
Qed.

Lemma from_chars_ascii s : Forall (λ b, (b < 128)%N) (bytes s) → from_chars (chars s) = s.
Proof.
  intros Ha. rewrite chars_ascii_bytes by done. unfold from_chars.
  assert (concat (map utf8_char (bytes s)) = bytes s) as ->.
  { induction Ha as [|b l Hb _ IH]; simpl; [done|]. unfold utf8_char at 1.
    rewrite (proj2 (N.ltb_lt _ _) Hb). simpl. by f_equal. }
  induction s as [|c s IH]; simpl; [done|]. rewrite ascii_N_embedding. f_equal. apply IH.
  by apply Forall_cons in Ha as [_ ?].
Qed.

Lemma unsnoc_app s c : unsnoc (s +:+ String c "") = Some (s, c).
Proof. induction s as [|a s IH]; simpl; [done|]. by rewrite IH. Qed.

(** Nothing is trimmed from a text whose first and last characters are not blank. *)
Lemma trim_text_id s c l d k :
  Forall (λ b, (b < 128)%N) (bytes s) → bytes s = c :: l → bytes s = k ++ [d] →
  is_whitespace c = false → is_whitespace d = false → trim_text s = s.
Proof.
  intros Ha Hc Hd Hcw Hdw. unfold trim_text. rewrite chars_ascii_bytes by done. rewrite Hc. simpl.
  rewrite Hcw, <-Hc, Hd, reverse_app. simpl. rewrite Hdw, reverse_cons, reverse_involutive, <-Hd.
  rewrite <-chars_ascii_bytes by done. by apply from_chars_ascii.
Qed.

(** A text without blanks has nothing to trim. *)
Lemma split_once_plain c k v : N_of_ascii c ∉ bytes k → split_once c (k +:+ String c v) = Some (k, v).
Proof.
  induction k as [|a k IH]; intros Hk.
  - change (split_once c (String c v) = Some ("", v)). cbn [split_once]. by rewrite bool_decide_eq_true_2.
  - change (split_once c (String a (k +:+ String c v)) = Some (String a k, v)). cbn [split_once].
    change (N_of_ascii c ∉ N_of_ascii a :: bytes k) in Hk.
    rewrite bool_decide_eq_false_2; [|intros ->; apply Hk; left]. rewrite IH; [done|]. intros Hin. apply Hk. by right.
Qed.

Definition plain_byte (b : N) : Prop := (b < 128)%N ∧ is_whitespace b = false.
Lemma trim_text_plain s : (∀ b, b ∈ bytes s → plain_byte b) → trim_text s = s.
Proof.
  intros Hp. destruct (bytes s) as [|c l] eqn:E.
  { unfold trim_text. rewrite chars_ascii_bytes by (rewrite E; constructor). rewrite E. symmetry. by apply bytes_inj. }
  destruct (exists_last (l := c :: l)) as (k & d & Hk); [done|].
  eapply (trim_text_id _ c l d k); rewrite ?E; try done.
  - apply Forall_forall. intros b Hb. by apply Hp.
  - apply Hp. by left.
  - apply Hp. rewrite Hk. apply elem_of_app. right. by left.
Qed.

(** ** [serde_json::json!] *)

(** An object literal: its entries, inserted in the order they are written. *)
Definition json_object (entries : list (string * Value)) : Value :=
  VObject (foldl (λ m e, obj_insert e.1 e.2 m) [] entries).
Definition opt_value (o : option string) : Value := match o with Some s => VString s | None => VNull end.
Definition strings_value (l : list string) : Value := VArray (map VString l).

Lemma opt_value_inj o o' : opt_value o = opt_value o' → o = o'.
Proof. destruct o, o'; simpl; congruence. Qed.
Lemma strings_value_inj l l' : strings_value l = strings_value l' → l = l'.
Proof.
  intros [= Heq]. revert l' Heq. induction l as [|s l IH]; intros [|s' l'] Heq; simplify_eq/=; [done|].
  f_equal. by apply IH.
Qed.
Lemma map_VString_inj l l' : map VString l = map VString l' → l = l'.
Proof. intros E. apply strings_value_inj. unfold strings_value. by f_equal. Qed.
Lemma opt_value_wf o : value_wf (opt_value o) = true.
Proof. by destruct o. Qed.
Lemma strings_value_wf l : value_wf (strings_value l) = true.
Proof. apply forallb_True. intros v Hv. apply list_elem_of_In, in_map_iff in Hv as (s & <- & _). done. Qed.

(** No prefix is left. *)
Lemma trim_start_matches_done c p s :
  strip_prefix (String c p) (trim_start_matches (String c p) s) = None.
Proof.
  unfold trim_start_matches.
  enough (∀ n s, String.length s ≤ n → strip_prefix (String c p) (trim_rounds n (String c p) s) = None) as H by by apply H.
  clear s. induction n as [|n IH]; intros s Hn; cbn [trim_rounds].
  - by destruct s; simpl in Hn; [|lia].
  - destruct (strip_prefix (String c p) s) as [r|] eqn:E; [|by rewrite E].
    apply IH. apply strip_prefix_Some in E. subst s. simpl in Hn.
    assert (String.length (p +:+ r) = String.length p + String.length r) as Hl.
    { clear. induction p as [|a p IHp]; [done|]. change (S (String.length (p +:+ r)) = S (String.length p + String.length r)). by rewrite IHp. }
    lia.
Qed.

Lemma json_object_wf entries :
  (∀ e, e ∈ entries → value_wf e.2 = true) → value_wf (json_object entries) = true.
Proof.
  unfold json_object. assert (value_wf (VObject []) = true) as Hnil by done. revert Hnil.
  generalize (@nil (string * Value)). induction entries as [|[k v] entries IH]; intros m Hm Hwf; simpl; [done|].
  apply IH; [|intros e He; apply Hwf; by right]. apply obj_insert_wf; [done|]. apply (Hwf (k, v)). by left.
Qed.
