(* ===== verification/Chain.v ===== *)
(** * Chain: the tamper-evident evidence chain, its anchors and its retirement
    ([crates/wc-control/src/chain.rs])

    Files are a map from paths to contents; a missing key is [ErrorKind::NotFound], and a
    read of a file that exists succeeds.  What a write, a flush or an open may do is given
    by the [Io] argument of the operation that performs it.  serde's derived printers and
    parsers of the three record types are the parameter [ChainSerde]. *)

From stdpp Require Import pretty.
From S2P Require Import Prelude Text Errors Model Zone Json Canon Contract Artifact Log Store Std.

Definition ENTRY_SCHEMA : N := 1.
Definition CHAIN_FILE : string := "chain.jsonl".
Definition ANCHOR_FILE : string := "anchor.jsonl".
Definition RETIRED_FILE : string := "retired.json".
Definition RETIRED_DIR : string := "retired".
Definition ANCHOR_KID : string := "wc-anchor".

(** ** Entries *)

Record EntryDraft := mkEntryDraft {
  ed_kind : string;
  ed_cid : option string;
  ed_contract_jti : option string;
  ed_entities : list string;
  ed_actor : string;
  ed_decision : string;
  ed_reason : string;
  ed_policy_version : string;
  ed_detail : Value
}.

Record Entry := mkEntry {
  en_seq : N;
  en_ts : N;
  en_kind : string;
  en_cid : option string;
  en_contract_jti : option string;
  en_entities : list string;
  en_actor : string;
  en_decision : string;
  en_reason : string;
  en_policy_version : string;
  en_detail : Value;
  en_prev_hash : string;
  en_row_hash : string;
  en_schema : N
}.

Definition entry_document (e : Entry) : Value :=
  json_object
    [("seq", VNumber (PosInt (en_seq e)));
     ("ts", VNumber (PosInt (en_ts e)));
     ("kind", VString (en_kind e));
     ("cid", opt_value (en_cid e));
     ("contract_jti", opt_value (en_contract_jti e));
     ("entities", strings_value (en_entities e));
     ("actor", VString (en_actor e));
     ("decision", VString (en_decision e));
     ("reason", VString (en_reason e));
     ("policy_version", VString (en_policy_version e));
     ("detail", en_detail e);
     ("prev_hash", VString (en_prev_hash e));
     ("schema", VNumber (PosInt (en_schema e)))].

Section Hashing.
Context `{SerdeJson, Sha256}.

Definition hash_input (e : Entry) : string := canonical_json (entry_document e).
Definition compute_row_hash (e : Entry) : string := sha256_hex (hash_input e).
Definition entry_is_intact (e : Entry) : bool := bool_decide (compute_row_hash e = en_row_hash e).
End Hashing.

(** ** Checkpoints, tombstones and files *)

Record Checkpoint := mkCheckpoint { cp_seq : N; cp_row_hash : string; cp_ts : N }.

Record Retirement := mkRetirement {
  rt_from : N;
  rt_to : N;
  rt_count : N;
  rt_last_row_hash : string;
  rt_anchor_seq : N;
  rt_anchor_row_hash : string;
  rt_segment_file : string;
  rt_segment_digest : string;
  rt_retired_at : N;
  rt_newest_retired_ts : N
}.

Class ChainSerde := {
  (** [serde_json::to_string(&Entry)] and [from_str]. *)
  entry_to_string : Entry → string;
  entry_from_str : string → option Entry;
  (** [to_vec(&Checkpoint)], [from_value], [from_slice]. *)
  checkpoint_to_vec : Checkpoint → string;
  checkpoint_from_value : Value → option Checkpoint;
  checkpoint_from_slice : string → option Checkpoint;
  (** [to_string_pretty(&Retirement)] and [from_str]. *)
  retirement_to_string : Retirement → string;
  retirement_from_str : string → option Retirement
}.

Abbreviation Disk := (gmap string string).
(** [Path::join]. *)
Definition path_join (dir name : string) : string := dir +:+ "/" +:+ name.
Definition file_append (d : Disk) (path text : string) : Disk := <[path := default "" (d !! path) +:+ text]> d.

(** What [write_all] and [sync_data] do to a file opened for appending. *)
Record AppendIo := mkAppendIo { ap_open : bool; ap_write : WriteIo; ap_sync : bool }.
Definition append_line (d : Disk) (path text : string) (io : AppendIo) : Disk * result unit :=
  if negb (ap_open io) then (d, Err CHAIN_APPEND_FAILED)
  else match ap_write io with
       | Torn prefix => (file_append d path prefix, Err CHAIN_APPEND_FAILED)
       | Written =>
         let d := file_append d path (text +:+ LFs) in
         if ap_sync io then (d, Ok tt) else (d, Err CHAIN_APPEND_FAILED)
       end.

(** [std::fs::write]: it may fail before the file is touched, or after truncating it. *)
Inductive WriteOutcome := Stored | Untouched | Cut (prefix : string).
Definition file_write (d : Disk) (path text : string) (w : WriteOutcome) : Disk * result unit :=
  match w with
  | Stored => (<[path := text]> d, Ok tt)
  | Untouched => (d, Err CHAIN_APPEND_FAILED)
  | Cut prefix => (<[path := prefix]> d, Err CHAIN_APPEND_FAILED)
  end.

(** [text.lines().filter(|l| !l.trim().is_empty())]. *)
Definition filled_lines (text : string) : list string := filterb (λ l, negb (is_blank l)) (file_lines text).

Record Anchor := mkAnchor { an_key : IssuerKey; an_path : string; an_interval : N }.

Definition with_signer (key : IssuerKey) (path : string) (interval : N) : Anchor :=
  mkAnchor key path (N.max interval 1).

Definition is_due (a : Anchor) (seq : N) : bool := (0 <? seq)%N && (seq mod an_interval a =? 0)%N.

Record Chain := mkChain {
  ch_dir : string;
  ch_disk : Disk;
  ch_last_seq : N;
  ch_last_hash : string;
  ch_anchor : option Anchor
}.
Definition chain_path (c : Chain) : string := path_join (ch_dir c) CHAIN_FILE.
Definition with_disk (c : Chain) (d : Disk) : Chain := mkChain (ch_dir c) d (ch_last_seq c) (ch_last_hash c) (ch_anchor c).
Definition with_anchor (c : Chain) (a : Anchor) : Chain :=
  mkChain (ch_dir c) (ch_disk c) (ch_last_seq c) (ch_last_hash c) (Some a).
Definition chain_head (c : Chain) : N * string := (ch_last_seq c, ch_last_hash c).

(** ** Reports *)

Inductive Problem :=
| BreaksNumbering (seq expected : N)
| DoesNotLink (seq : N)
| ContentAltered (seq : N)
| NotARange (from to : N)
| TombstoneHash (to : N)
| TombstoneSeq (to first : N)
| RowsRemoved (head checkpoint : N)
| AnchorMismatch (seq : N)
| NoExternalProof.
#[global] Instance Problem_eq_dec : EqDecision Problem.
Proof. solve_decision. Defined.

Record ChainReport := mkChainReport {
  crp_entries : N;
  crp_head_seq : N;
  crp_head_hash : string;
  crp_broken_at : option N;
  crp_anchors_verified : N;
  crp_anchor_mismatches : list N;
  crp_anchors_retired : N;
  crp_retired_through : N;
  crp_highest_checkpoint_seq : N;
  crp_problems : list Problem
}.

Definition report_is_intact (r : ChainReport) : bool :=
  bool_decide (crp_broken_at r = None) && bool_decide (crp_anchor_mismatches r = []).
Definition truncation_was_checked (r : ChainReport) : bool := (0 <? crp_highest_checkpoint_seq r)%N.

Record AnchorTally := mkAnchorTally { at_verified : N; at_mismatches : list N; at_retired : N }.

(** [Option::get_or_insert]. *)
Definition or_insert {A} (o : option A) (a : A) : option A := match o with Some _ => o | None => Some a end.

Section ChainOps.
Context `{ChainSerde, SerdeJson, Sha256, Jose, SerdeParse}.

Definition parse_entries (text : string) : result (list Entry) :=
  mapR (λ l, ok_or (entry_from_str l) CHAIN_BROKEN) (filled_lines text).
Definition read_entries (d : Disk) (path : string) : result (list Entry) :=
  match d !! path with None => Ok [] | Some text => parse_entries text end.
Definition read_retirement (d : Disk) (dir : string) : result (option Retirement) :=
  match d !! path_join dir RETIRED_FILE with
  | None => Ok None
  | Some text => let? r := ok_or (retirement_from_str text) CHAIN_BROKEN in Ok (Some r)
  end.

(** [Anchor::write]. *)
Definition anchor_write (d : Disk) (a : Anchor) (seq : N) (row_hash : string) (ts : N) (io : AppendIo)
    : Disk * result string :=
  match sign_detached (checkpoint_to_vec (mkCheckpoint seq row_hash ts)) (an_key a) with
  | Err _ => (d, Err CHAIN_APPEND_FAILED)
  | Ok jwt =>
    let '(d, r) := append_line d (an_path a) jwt io in
    (d, let? _ := r in Ok jwt)
  end.

(** [Anchor::from_ec_pem]. *)
Definition anchor_from_ec_pem (key_pem path : string) (interval : N) : result Anchor :=
  let? key := map_err (λ _, CHAIN_APPEND_FAILED) (ec_pem ANCHOR_KID key_pem ES256) in
  Ok (with_signer key path interval).

(** [Chain::open], the writer lock being held. *)
Definition Chain_open (d : Disk) (dir : string) : result Chain :=
  let path := path_join dir CHAIN_FILE in
  let? entries := read_entries d path in
  let? retired := read_retirement d dir in
  let '(last_seq, last_hash) :=
    match last entries with
    | Some e => (en_seq e, en_row_hash e)
    | None => match retired with Some r => (rt_to r, rt_last_row_hash r) | None => (0%N, "") end
    end in
  Ok (mkChain dir (file_append d path "") last_seq last_hash None).

(** The entry [Chain::append] writes for a draft. *)
Definition next_entry (c : Chain) (draft : EntryDraft) (now : N) : Entry :=
  let entry row_hash :=
    mkEntry (u64_add (ch_last_seq c) 1) now (ed_kind draft) (ed_cid draft) (ed_contract_jti draft)
      (ed_entities draft) (ed_actor draft) (ed_decision draft) (ed_reason draft)
      (ed_policy_version draft) (ed_detail draft) (ch_last_hash c) row_hash ENTRY_SCHEMA in
  entry (compute_row_hash (entry "")).

Record ChainIo := mkChainIo { ci_chain : AppendIo; ci_anchor : AppendIo }.

(** The chain file is already open, so [ap_open] of its answers is not consulted. *)
Definition append (c : Chain) (draft : EntryDraft) (now : N) (io : ChainIo) : Chain * result Entry :=
  let entry := next_entry c draft now in
  let '(d, r) := append_line (ch_disk c) (chain_path c) (entry_to_string entry)
                   (mkAppendIo true (ap_write (ci_chain io)) (ap_sync (ci_chain io))) in
  match r with
  | Err e => (with_disk c d, Err e)
  | Ok _ =>
    let c := mkChain (ch_dir c) d (en_seq entry) (en_row_hash entry) (ch_anchor c) in
    match ch_anchor c with
    | Some a =>
      if is_due a (en_seq entry) then
        let '(d, r) := anchor_write (ch_disk c) a (en_seq entry) (en_row_hash entry) now (ci_anchor io) in
        (with_disk c d, let? _ := r in Ok entry)
      else (c, Ok entry)
    | None => (c, Ok entry)
    end
  end.

Definition checkpoint (c : Chain) (now : N) (io : AppendIo) : Chain * result (option string) :=
  if (ch_last_seq c =? 0)%N then (c, Ok None)
  else match ch_anchor c with
       | Some a =>
         let '(d, r) := anchor_write (ch_disk c) a (ch_last_seq c) (ch_last_hash c) now io in
         (with_disk c d, let? jwt := r in Ok (Some jwt))
       | None => (c, Ok None)
       end.

(** *** Verification *)

(** The checkpoint a line claims, its signature not checked. *)
Definition claimed_checkpoint (line : string) : option Checkpoint :=
  payload ← split_on dot line !! 1;
  raw ← b64url_decode payload;
  checkpoint_from_slice raw.

Definition newest_checkpoint (d : Disk) (path : string) : option Checkpoint :=
  text ← d !! path;
  line ← last (filled_lines text);
  claimed_checkpoint line.

Definition highest_checkpoint_seq (d : Disk) (path : string) : N :=
  match d !! path with
  | None => 0
  | Some text =>
    foldl (λ highest line,
      match claimed_checkpoint line with Some cp => N.max highest (cp_seq cp) | None => highest end)
      0%N (filled_lines text)
  end.

(** The checkpoint of a line whose signature verifies. *)
Definition signed_checkpoint (key : DecodingKey) (line : string) : option Checkpoint :=
  jwt_decode line key ES256 ≫= checkpoint_from_value.

Definition tally_checkpoint (entries : list Entry) (retired : option Retirement) (t : AnchorTally)
    (cp : Checkpoint) : AnchorTally :=
  let verified := mkAnchorTally (at_verified t + 1) (at_mismatches t) (at_retired t) in
  let mismatch := mkAnchorTally (at_verified t) (at_mismatches t ++ [cp_seq cp]) (at_retired t) in
  let boundary := match retired with Some r => rt_to r | None => 0%N end in
  if (cp_seq cp <? boundary)%N
  then mkAnchorTally (at_verified t) (at_mismatches t) (at_retired t + 1)
  else if (cp_seq cp =? boundary)%N
  then match retired with
       | Some r => if bool_decide (rt_last_row_hash r = cp_row_hash cp) then verified else mismatch
       | None => mismatch
       end
  else match find (λ e, en_seq e =? cp_seq cp)%N entries with
       | Some e => if bool_decide (en_row_hash e = cp_row_hash cp) then verified else mismatch
       | None => mismatch
       end.

Definition verify_anchors (d : Disk) (path pub_pem : string) (entries : list Entry)
    (retired : option Retirement) : result AnchorTally :=
  let? key := ok_or (decoding_from_ec_pem pub_pem) CHAIN_BROKEN in
  match d !! path with
  | None => Ok (mkAnchorTally 0 [] 0)
  | Some text =>
    foldR (λ t line,
      let? cp := ok_or (signed_checkpoint key line) CHAIN_BROKEN in
      Ok (tally_checkpoint entries retired t cp))
      (mkAnchorTally 0 [] 0) (filled_lines text)
  end.

(** [first.prev_hash] is compared before [first.seq]. *)
Definition retirement_problems (r : Retirement) (entries : list Entry) : list Problem :=
  (if (rt_to r <? rt_from r)%N then [NotARange (rt_from r) (rt_to r)] else []) ++
  match entries with
  | first :: _ =>
    if negb (bool_decide (en_prev_hash first = rt_last_row_hash r)) then [TombstoneHash (rt_to r)]
    else if negb (en_seq first =? u64_add (rt_to r) 1)%N then [TombstoneSeq (rt_to r) (en_seq first)]
    else []
  | [] => []
  end.

(** What one row adds, given the sequence and hash it must continue. *)
Definition row_problems (expected_seq : N) (expected_prev : string) (e : Entry) : list Problem :=
  (if (en_seq e =? expected_seq)%N then [] else [BreaksNumbering (en_seq e) expected_seq]) ++
  (if bool_decide (en_prev_hash e = expected_prev) then [] else [DoesNotLink (en_seq e)]) ++
  (if entry_is_intact e then [] else [ContentAltered (en_seq e)]).

Fixpoint check_rows (expected_seq : N) (expected_prev : string) (entries : list Entry)
    (broken : option N) (problems : list Problem) : option N * list Problem :=
  match entries with
  | [] => (broken, problems)
  | e :: rest =>
    let found := row_problems expected_seq expected_prev e in
    check_rows (u64_add (en_seq e) 1) (en_row_hash e) rest
      (match found with [] => broken | _ => or_insert broken (en_seq e) end) (problems ++ found)
  end.

(** Where a live chain starts. *)
Definition chain_start (retired : option Retirement) : N * string :=
  match retired with Some r => (u64_add (rt_to r) 1, rt_last_row_hash r) | None => (1%N, "") end.

Definition Chain_verify (d : Disk) (dir : string) (anchor_pub_pem : option string) : result ChainReport :=
  let? entries := read_entries d (path_join dir CHAIN_FILE) in
  let? retired := read_retirement d dir in
  let '(expected_seq, expected_prev) := chain_start retired in
  let retired_through := match retired with Some r => rt_to r | None => 0%N end in
  let problems := match retired with Some r => retirement_problems r entries | None => [] end in
  let '(broken, problems) := check_rows expected_seq expected_prev entries None problems in
  let '(head_seq, head_hash) :=
    match last entries with Some e => (en_seq e, en_row_hash e) | None => (0%N, "") end in
  (* truncation *)
  let highest := highest_checkpoint_seq d (path_join dir ANCHOR_FILE) in
  let '(broken, problems) :=
    if (head_seq <? highest)%N
    then (or_insert broken (u64_add head_seq 1), problems ++ [RowsRemoved head_seq highest])
    else (broken, problems) in
  match anchor_pub_pem with
  | None =>
    Ok (mkChainReport (len entries) head_seq head_hash broken 0 [] 0 retired_through highest problems)
  | Some pem =>
    let? tally := verify_anchors d (path_join dir ANCHOR_FILE) pem entries retired in
    Ok (mkChainReport (len entries) head_seq head_hash broken (at_verified tally) (at_mismatches tally)
          (at_retired tally) retired_through highest
          (problems ++ map AnchorMismatch (at_mismatches tally) ++
           (if (at_verified tally =? 0)%N && negb (bool_decide (len entries = 0%N))
            then [NoExternalProof] else [])))
  end.

(** *** Segment retirement *)

Record RetirementOutcome := mkRetirementOutcome {
  ro_retirement : Retirement;
  ro_remaining : N;
  ro_segment_path : string
}.

(** The lowest checkpoint at or after [upto] that verifies and matches a live row. *)
Definition covering_checkpoint (d : Disk) (path pub_pem : string) (upto : N) (entries : list Entry)
    : result (option Checkpoint) :=
  let? key := ok_or (decoding_from_ec_pem pub_pem) CHAIN_BROKEN in
  match d !! path with
  | None => Ok None
  | Some text =>
    Ok (foldl (λ best line,
      match signed_checkpoint key line with
      | None => best
      | Some cp =>
        if (cp_seq cp <? upto)%N then best
        else if negb (existsb (λ e, (en_seq e =? cp_seq cp)%N && bool_decide (en_row_hash e = cp_row_hash cp)) entries)
        then best
        else match best with
             | None => Some cp
             | Some b => if (cp_seq cp <? cp_seq b)%N then Some cp else best
             end
      end) None (filled_lines text))
  end.

Definition pad_zeros (width : nat) (s : string) : string :=
  String.concat "" (replicate (width - String.length s) "0") +:+ s.
(** [format!("segment-{from:06}-{upto:06}.jsonl")]. *)
Definition segment_name (from upto : N) : string :=
  "segment-" +:+ pad_zeros 6 (pretty from) +:+ "-" +:+ pad_zeros 6 (pretty upto) +:+ ".jsonl".

(** One serialised row per line. *)
Definition rows_text (rows : list Entry) : string := foldr (λ e acc, entry_to_string e +:+ LFs +:+ acc) "" rows.

(** The answers to the three writes, in order: the segment, the tombstone, the survivors. *)
Record RetireIo := mkRetireIo { ri_segment : WriteOutcome; ri_tombstone : WriteOutcome; ri_survivors : WriteOutcome }.

(** What the refusals leave to be written: the rows, and the checkpoint that covers them. *)
Definition retirement_plan (d : Disk) (dir : string) (upto horizon : N) (anchor_pub_pem : string)
    : result (N * list Entry * list Entry * Entry * Checkpoint) :=
  let? report := Chain_verify d dir (Some anchor_pub_pem) in
  guard_err (negb (report_is_intact report)) CHAIN_BROKEN $
  let? entries := read_entries d (path_join dir CHAIN_FILE) in
  let? previous := read_retirement d dir in
  let from := match previous with Some r => u64_add (rt_to r) 1 | None => 1%N end in
  guard_err (upto <? from)%N CONFIG_INVALID $
  let retiring := filterb (λ e, en_seq e <=? upto)%N entries in
  let surviving := filterb (λ e, negb (en_seq e <=? upto)%N) entries in
  let? newest := ok_or (last retiring) CONFIG_INVALID in
  guard_err (bool_decide (len surviving = 0%N)) CONFIG_INVALID $
  guard_err (existsb (λ e, horizon <=? en_ts e)%N retiring) CONFIG_INVALID $
  let? tally := verify_anchors d (path_join dir ANCHOR_FILE) anchor_pub_pem entries previous in
  guard_err (negb (bool_decide (at_mismatches tally = []))) CHAIN_BROKEN $
  let? covering := covering_checkpoint d (path_join dir ANCHOR_FILE) anchor_pub_pem upto entries in
  let? covering := ok_or covering CHAIN_BROKEN in
  Ok (from, retiring, surviving, newest, covering).

Definition tombstone (from upto : N) (retiring : list Entry) (newest : Entry) (covering : Checkpoint) (now : N)
    : Retirement :=
  mkRetirement from upto (len retiring) (en_row_hash newest) (cp_seq covering) (cp_row_hash covering)
    (path_join RETIRED_DIR (segment_name from upto)) ("sha256:" +:+ sha256_hex (rows_text retiring)) now
    (foldr N.max 0%N (map en_ts retiring)).

Definition retire_segment (d : Disk) (dir : string) (upto horizon : N) (anchor_pub_pem : string) (now : N)
    (io : RetireIo) : Disk * result RetirementOutcome :=
  match retirement_plan d dir upto horizon anchor_pub_pem with
  | Err e => (d, Err e)
  | Ok (from, retiring, surviving, newest, covering) =>
    let segment_path := path_join (path_join dir RETIRED_DIR) (segment_name from upto) in
    let '(d, r) := file_write d segment_path (rows_text retiring) (ri_segment io) in
    match r with
    | Err e => (d, Err e)
    | Ok _ =>
      let retirement := tombstone from upto retiring newest covering now in
      let '(d, r) := file_write d (path_join dir RETIRED_FILE) (retirement_to_string retirement +:+ LFs)
                       (ri_tombstone io) in
      match r with
      | Err e => (d, Err e)
      | Ok _ =>
        let '(d, r) := file_write d (path_join dir CHAIN_FILE) (rows_text surviving) (ri_survivors io) in
        (d, let? _ := r in Ok (mkRetirementOutcome retirement (len surviving) segment_path))
      end
    end
  end.

Inductive SegmentProblem :=
| NothingRetired | SegmentAbsent | DigestDiffers | SegmentNumbering (seq : N) | SegmentLink (seq : N)
| SegmentAltered (seq : N) | SegmentEnd.

Fixpoint check_segment (from expected_seq : N) (expected_prev : string) (rows : list Entry) : list SegmentProblem :=
  match rows with
  | [] => []
  | row :: rest =>
    (if (en_seq row =? expected_seq)%N then [] else [SegmentNumbering (en_seq row)]) ++
    (if negb (bool_decide (en_prev_hash row = expected_prev)) && negb (expected_seq =? from)%N
     then [SegmentLink (en_seq row)] else []) ++
    (if entry_is_intact row then [] else [SegmentAltered (en_seq row)]) ++
    check_segment from (u64_add (en_seq row) 1) (en_row_hash row) rest
  end.

Definition verify_retired_segment (d : Disk) (dir : string) : result (list SegmentProblem) :=
  let? retirement := read_retirement d dir in
  match retirement with
  | None => Ok [NothingRetired]
  | Some r =>
    match d !! path_join dir (rt_segment_file r) with
    | None => Ok [SegmentAbsent]
    | Some body =>
      let? rows := parse_entries body in
      Ok ((if bool_decide ("sha256:" +:+ sha256_hex body = rt_segment_digest r) then [] else [DigestDiffers]) ++
          check_segment (rt_from r) (rt_from r) "" rows ++
          (if bool_decide (en_row_hash <$> last rows = Some (rt_last_row_hash r)) then [] else [SegmentEnd]))
    end
  end.
End ChainOps.

(** ** Laws

    What the parsers and printers of serde's derives promise: an entry read from text holds
    machine integers and a well-formed document, a record is printed on one line, beginning
    with a brace, and read back unchanged. *)

Definition entry_wf (e : Entry) : Prop :=
  is_u64 (en_seq e) ∧ is_u64 (en_ts e) ∧ is_u64 (en_schema e) ∧ value_wf (en_detail e) = true.

Class ChainSerdeLaws `{ChainSerde} : Prop := {
  entry_from_str_wf s e : entry_from_str s = Some e → entry_wf e;
  entry_roundtrip e : entry_wf e → entry_from_str (entry_to_string e) = Some e;
  entry_one_line e : no_byte "010"%char (entry_to_string e) ∧ no_byte "013"%char (entry_to_string e);
  entry_object e : ∃ body, entry_to_string e = "{" +:+ body;
  retirement_roundtrip r : retirement_from_str (retirement_to_string r +:+ LFs) = Some r
}.

(** ** Lemmas: files of lines *)

Definition text_lines (ws : list string) : string := foldr (λ w acc, w +:+ LFs +:+ acc) "" ws.
Definition plain_line (w : string) : Prop := one_line w ∧ is_blank w = false.

Lemma chain_text_app ws ws' : text_lines (ws ++ ws') = text_lines ws +:+ text_lines ws'.
Proof. induction ws as [|w ws IH]; [done|]. simpl. by rewrite IH, !string_app_assoc. Qed.

Lemma text_lines_snoc ws w : text_lines ws +:+ (w +:+ LFs) = text_lines (ws ++ [w]).
Proof. rewrite chain_text_app. simpl. by rewrite string_app_nil_r. Qed.

Lemma file_lines_text_lines ws : Forall plain_line ws → file_lines (text_lines ws) = ws.
Proof.
  induction 1 as [|w ws [Hw _] _ IH]; simpl; [done|]. by rewrite file_lines_terminated, IH.
Qed.

Lemma filled_text_lines ws : Forall plain_line ws → filled_lines (text_lines ws) = ws.
Proof.
  intros Hws. unfold filled_lines. rewrite file_lines_text_lines by done. apply filterb_all.
  intros w Hw. rewrite Forall_forall in Hws. by rewrite (proj2 (Hws w Hw)).
Qed.

Section Rows.
Context `{ChainSerdeLaws}.

Lemma rows_text_lines rows : rows_text rows = text_lines (map entry_to_string rows).
Proof. induction rows as [|e rows IH]; simpl; [done|]. by rewrite IH. Qed.

Lemma rows_text_snoc rows e : rows_text rows +:+ (entry_to_string e +:+ LFs) = rows_text (rows ++ [e]).
Proof. by rewrite !rows_text_lines, map_app, text_lines_snoc. Qed.

Lemma entry_plain e : plain_line (entry_to_string e).
Proof. split; [apply entry_one_line|]. destruct (entry_object e) as [body ->]. done. Qed.

Lemma parse_rows_text rows : Forall entry_wf rows → parse_entries (rows_text rows) = Ok rows.
Proof.
  intros Hwf. unfold parse_entries. rewrite rows_text_lines, filled_text_lines.
  - induction Hwf as [|e rows He _ IH]; simpl; [done|]. by rewrite entry_roundtrip, IH.
  - apply Forall_forall. intros w (e & -> & _)%list_elem_of_fmap. apply entry_plain.
Qed.

Lemma parse_entries_wf text rows : parse_entries text = Ok rows → Forall entry_wf rows.
Proof.
  intros Hp. apply Forall_forall. intros e He. unfold parse_entries in Hp.
  destruct (mapR_elem _ _ _ _ Hp He) as (l & _ & Hl%ok_or_ok). by eapply entry_from_str_wf.
Qed.

Lemma read_entries_wf d path rows : read_entries d path = Ok rows → Forall entry_wf rows.
Proof.
  unfold read_entries. destruct (d !! path); [apply parse_entries_wf|]. intros [= <-]. constructor.
Qed.
End Rows.

(** ** Lemmas: what a hash binds *)

Section Binding.
Context `{SerdeJsonLaws, Sha256}.

Lemma entry_document_wf e : entry_wf e → value_wf (entry_document e) = true.
Proof.
  intros (Hs & Ht & Hc & Hd). unfold is_u64 in *. apply N.leb_le in Hs, Ht, Hc.
  change (value_wf (entry_document e)) with
    (true && (true && (value_wf (opt_value (en_cid e)) && (value_wf (opt_value (en_contract_jti e)) && (true &&
     (value_wf (en_detail e) && (value_wf (strings_value (en_entities e)) && (true && (true && (true && (true &&
     (number_wf (PosInt (en_schema e)) && (number_wf (PosInt (en_seq e)) && (number_wf (PosInt (en_ts e)) && true)))))))))))))).
  rewrite !opt_value_wf, strings_value_wf, Hd. cbn [number_wf]. by rewrite Hs, Ht, Hc.
Qed.

(** The hash input determines everything but the stored hash. *)
Lemma hash_input_inj e e' :
  entry_wf e → entry_wf e' → hash_input e = hash_input e' → en_row_hash e = en_row_hash e' → e = e'.
Proof.
  intros He He' Hin Hrow. apply canonical_json_inj in Hin; [|by apply entry_document_wf..].
  destruct e, e'; cbn in Hrow. subst.
  vm_compute in Hin. injection Hin as -> Hcid Hjti -> -> Hent -> -> -> -> -> -> ->.
  apply (opt_value_inj en_cid0 en_cid1) in Hcid as ->.
  apply (opt_value_inj en_contract_jti0 en_contract_jti1) in Hjti as ->.
  assert (strings_value en_entities0 = strings_value en_entities1) as ->%strings_value_inj by (unfold strings_value; by f_equal).
  done.
Qed.

Lemma intact_inj e e' :
  entry_wf e → entry_wf e' → entry_is_intact e = true → entry_is_intact e' = true →
  en_row_hash e = en_row_hash e' → e = e' ∨ sha256_collision.
Proof.
  unfold entry_is_intact. intros He He' Hi%bool_decide_eq_true Hi'%bool_decide_eq_true Hrow.
  destruct (decide (hash_input e = hash_input e')) as [Hin|Hin]; [left; by apply hash_input_inj|].
  right. exists (hash_input e), (hash_input e'). split; [done|]. unfold compute_row_hash in *. congruence.
Qed.

(** Rows that continue a sequence and a hash. *)
Fixpoint linked (seq : N) (prev : string) (rows : list Entry) : Prop :=
  match rows with
  | [] => True
  | e :: rest => en_seq e = seq ∧ en_prev_hash e = prev ∧ entry_is_intact e = true ∧
                 linked (u64_add (en_seq e) 1) (en_row_hash e) rest
  end.

Lemma linked_app seq prev l l' :
  linked seq prev (l ++ l') ↔
  linked seq prev l ∧ linked (match last l with Some e => u64_add (en_seq e) 1 | None => seq end)
                             (match last l with Some e => en_row_hash e | None => prev end) l'.
Proof.
  revert seq prev. induction l as [|e l IH]; intros seq prev; simpl; [tauto|].
  rewrite IH. destruct l as [|e' l]; [simpl; tauto|]. rewrite last_cons_cons.
  destruct (last (e' :: l)) eqn:E; [tauto|]. by apply last_None in E.
Qed.

Lemma linked_intact seq prev l i e : linked seq prev l → l !! i = Some e → entry_is_intact e = true.
Proof.
  revert seq prev i. induction l as [|x l IH]; intros seq prev [|i] Hl Hi; simplify_eq/=; [tauto|].
  destruct Hl as (_ & _ & _ & Hl). by eapply IH.
Qed.

Lemma linked_step seq prev l i d e :
  linked seq prev l → l !! i = Some d → l !! S i = Some e →
  en_prev_hash e = en_row_hash d ∧ en_seq e = u64_add (en_seq d) 1.
Proof.
  revert seq prev i. induction l as [|x l IH]; intros seq prev i Hl Hi He; [done|].
  destruct Hl as (_ & _ & _ & Hl). destruct i as [|i].
  - simplify_eq/=. destruct l as [|y l]; simplify_eq/=. tauto.
  - eapply IH; [exact Hl|done|done].
Qed.

(** Two rows with one hash, going back together through two chains that link. *)
Lemma linked_agree s p s' p' l l' n n' e e' :
  linked s p l → linked s' p' l' → Forall entry_wf l → Forall entry_wf l' →
  l !! n = Some e → l' !! n' = Some e' → en_row_hash e = en_row_hash e' →
  (∀ k x x', k ≤ n → k ≤ n' → l !! (n - k) = Some x → l' !! (n' - k) = Some x' → x = x') ∨ sha256_collision.
Proof.
  intros Hl Hl' Hw Hw' Hn Hn' Hrow. rewrite Forall_lookup in Hw, Hw'.
  assert (∀ m m' x x', l !! m = Some x → l' !! m' = Some x' → en_row_hash x = en_row_hash x' →
    x = x' ∨ sha256_collision) as Hone.
  { intros m m' x x' Hx Hx' Hxx. apply intact_inj;
      [exact (Hw _ _ Hx)|exact (Hw' _ _ Hx')|exact (linked_intact _ _ _ _ _ Hl Hx)|
       exact (linked_intact _ _ _ _ _ Hl' Hx')|done]. }
  revert n' e e' Hn Hn' Hrow. induction n as [|n IH]; intros n' e e' Hn Hn' Hrow.
  - destruct (Hone _ _ _ _ Hn Hn' Hrow) as [->|]; [|by right]. left. intros k x x' Hk Hk' Hx Hx'.
    replace k with 0 in * by lia. rewrite !Nat.sub_0_r in *. congruence.
  - destruct (Hone _ _ _ _ Hn Hn' Hrow) as [->|]; [|by right].
    destruct n' as [|n'].
    { left. intros k x x' Hk Hk' Hx Hx'. replace k with 0 in * by lia. rewrite !Nat.sub_0_r in *. congruence. }
    destruct (lookup_lt_is_Some_2 l n) as [d Hd]; [apply lookup_lt_Some in Hn; lia|].
    destruct (lookup_lt_is_Some_2 l' n') as [d' Hd']; [apply lookup_lt_Some in Hn'; lia|].
    assert (en_row_hash d = en_row_hash d') as Hdd.
    { apply linked_step with (2 := Hd) (3 := Hn) in Hl as [<- _].
      apply linked_step with (2 := Hd') (3 := Hn') in Hl' as [<- _]. done. }
    destruct (IH n' d d' Hd Hd' Hdd) as [Hall|]; [|by right].
    left. intros [|k] x x' Hk Hk' Hx Hx'; [rewrite !Nat.sub_0_r in *; congruence|].
    apply (Hall k); [lia|lia|done|done].
Qed.
End Binding.

(** ** Lemmas: verification *)

Section Verification.
Context `{ChainSerdeLaws, SerdeJson, Sha256, Jose, SerdeParse}.

Definition anchor_lines (d : Disk) (dir : string) : list string :=
  match d !! path_join dir ANCHOR_FILE with Some text => filled_lines text | None => [] end.

Definition boundary (retired : option Retirement) : N :=
  match retired with Some r => rt_to r | None => 0%N end.

(** What a checkpoint may attest: a retired row, the last of them, or a live one. *)
Definition attested (rows : list Entry) (retired : option Retirement) (cp : Checkpoint) : Prop :=
  (cp_seq cp < boundary retired)%N ∨
  (∃ r, retired = Some r ∧ cp_seq cp = rt_to r ∧ rt_last_row_hash r = cp_row_hash cp) ∨
  ((boundary retired < cp_seq cp)%N ∧
   ∃ e, find (λ e, en_seq e =? cp_seq cp)%N rows = Some e ∧ en_row_hash e = cp_row_hash cp).

Lemma row_problems_nil seq prev e :
  row_problems seq prev e = [] ↔ en_seq e = seq ∧ en_prev_hash e = prev ∧ entry_is_intact e = true.
Proof.
  unfold row_problems. destruct (N.eqb_spec (en_seq e) seq), (bool_decide_reflect (en_prev_hash e = prev)),
    (entry_is_intact e); simpl; split; (try done); intros (? & ? & ?); done.
Qed.

Lemma check_rows_broken seq prev rows broken problems :
  (check_rows seq prev rows broken problems).1 = None ↔ broken = None ∧ linked seq prev rows.
Proof.
  revert seq prev broken problems. induction rows as [|e rows IH]; intros seq prev broken problems; simpl; [tauto|].
  rewrite IH. pose proof (row_problems_nil seq prev e) as Hnil. destruct (row_problems seq prev e) as [|p ps].
  - destruct (proj1 Hnil eq_refl) as (? & ? & ?). tauto.
  - split.
    + intros [Hb _]. by destruct broken.
    + intros (_ & Hs & Hp & Hi & _). by specialize (proj2 Hnil (conj Hs (conj Hp Hi))).
Qed.

Lemma tally_mismatches rows retired t cp :
  at_mismatches (tally_checkpoint rows retired t cp) = [] ↔
  at_mismatches t = [] ∧ attested rows retired cp.
Proof.
  assert (∀ l : list N, ¬ l ++ [cp_seq cp] = []) as Hne by (by intros []).
  unfold tally_checkpoint, attested. fold (boundary retired).
  destruct (N.ltb_spec (cp_seq cp) (boundary retired)) as [Hlt|Hge]; cbn [at_mismatches]; [tauto|].
  destruct (N.eqb_spec (cp_seq cp) (boundary retired)) as [Heq|Hneq].
  - destruct retired as [r|]; cbn [boundary] in *.
    + case_bool_decide as Hh; cbn [at_mismatches].
      * split; [|tauto]. intros Ht. split; [done|]. right; left. eauto.
      * split; [by intros ?%Hne|]. intros [_ [?|[(r' & [= <-] & _ & ?)|[? _]]]]; [lia|done|lia].
    + cbn [at_mismatches]. split; [by intros ?%Hne|]. intros [_ [?|[(? & ? & _)|[? _]]]]; [lia|done|lia].
  - destruct (find _ rows) as [e|] eqn:Hf.
    + case_bool_decide as Hh; cbn [at_mismatches].
      * split; [|tauto]. intros Ht. split; [done|]. right; right. split; [lia|eauto].
      * split; [by intros ?%Hne|].
        intros [_ [?|[(r & -> & ? & _)|[_ (e' & [= <-] & ?)]]]]; [lia|cbn in *; lia|done].
    + cbn [at_mismatches]. split; [by intros ?%Hne|].
      intros [_ [?|[(r & -> & ? & _)|[_ (e' & ? & _)]]]]; [lia|cbn in *; lia|done].
Qed.

Lemma tally_lines key rows retired lines t0 t :
  foldR (λ t line, let? cp := ok_or (signed_checkpoint key line) CHAIN_BROKEN in
                   Ok (tally_checkpoint rows retired t cp)) t0 lines = Ok t →
  (∀ line, line ∈ lines → is_Some (signed_checkpoint key line)) ∧
  (at_mismatches t = [] ↔ at_mismatches t0 = [] ∧
     ∀ line cp, line ∈ lines → signed_checkpoint key line = Some cp → attested rows retired cp).
Proof.
  revert t0. induction lines as [|line lines IH]; intros t0; simpl.
  { intros [= <-]. set_solver. }
  intros (t1 & (cp & Hcp%ok_or_ok & [= <-])%result_bind_ok & [Hall Hiff]%IH)%result_bind_ok.
  split; [intros l [->|Hl]%elem_of_cons; eauto|]. rewrite Hiff, tally_mismatches. split.
  - intros [[Ht Ha] Hr]. split; [done|]. intros l cp' [->|Hl]%elem_of_cons Hs; [congruence|eauto].
  - intros [Ht Hr]. split; [split; [done|]|]; [apply (Hr line); [left|done]|].
    intros l cp' Hl. apply Hr. by right.
Qed.

Lemma verify_anchors_ok d dir pem rows retired t :
  verify_anchors d (path_join dir ANCHOR_FILE) pem rows retired = Ok t →
  ∃ key, decoding_from_ec_pem pem = Some key ∧
    (∀ line, line ∈ anchor_lines d dir → is_Some (signed_checkpoint key line)) ∧
    (at_mismatches t = [] ↔ ∀ line cp, line ∈ anchor_lines d dir → signed_checkpoint key line = Some cp →
       attested rows retired cp).
Proof.
  unfold verify_anchors, anchor_lines. intros (key & Hk%ok_or_ok & Ht)%result_bind_ok.
  exists key. split; [done|]. destruct (d !! _) as [text|].
  - apply tally_lines in Ht as [Hall Hiff]. split; [done|]. rewrite Hiff. cbn [at_mismatches]. tauto.
  - injection Ht as <-. cbn [at_mismatches]. set_solver.
Qed.

Lemma highest_fold lines n :
  ∀ m, (foldl (λ highest line, match claimed_checkpoint line with
                               | Some cp => N.max highest (cp_seq cp) | None => highest end) n lines ≤ m ↔
       n ≤ m ∧ ∀ line cp, line ∈ lines → claimed_checkpoint line = Some cp → cp_seq cp ≤ m)%N.
Proof.
  revert n. induction lines as [|line lines IH]; intros n m; simpl; [set_solver|].
  rewrite IH. destruct (claimed_checkpoint line) as [cp|] eqn:Hc.
  - rewrite N.max_lub_iff. split.
    + intros [[Hn Hcp] Hr]. split; [done|]. intros l cp' [->|Hl]%elem_of_cons Hs; [congruence|eauto].
    + intros [Hn Hr]. split; [split; [done|]|]; [apply (Hr line); [left|done]|]. intros l cp' Hl. apply Hr. by right.
  - split; intros [Hn Hr]; (split; [done|]).
    + intros l cp' [->|Hl]%elem_of_cons Hs; [congruence|eauto].
    + intros l cp' Hl. apply Hr. by right.
Qed.

Lemma highest_le d dir m :
  (highest_checkpoint_seq d (path_join dir ANCHOR_FILE) ≤ m)%N ↔
  ∀ line cp, line ∈ anchor_lines d dir → claimed_checkpoint line = Some cp → (cp_seq cp ≤ m)%N.
Proof.
  unfold highest_checkpoint_seq, anchor_lines. destruct (d !! _) as [text|]; [|set_solver by lia].
  rewrite highest_fold. split; [tauto|]. intros Hr. split; [lia|done].
Qed.

Definition head_seq (rows : list Entry) : N := match last rows with Some e => en_seq e | None => 0%N end.

(** What an intact verdict means. *)
Definition verified_chain (d : Disk) (dir : string) (pem : option string) (rows : list Entry)
    (retired : option Retirement) : Prop :=
  linked (chain_start retired).1 (chain_start retired).2 rows ∧
  (∀ line cp, line ∈ anchor_lines d dir → claimed_checkpoint line = Some cp → (cp_seq cp ≤ head_seq rows)%N) ∧
  match pem with
  | None => True
  | Some pem => ∃ key, decoding_from_ec_pem pem = Some key ∧
      ∀ line cp, line ∈ anchor_lines d dir → signed_checkpoint key line = Some cp → attested rows retired cp
  end.

Lemma verify_spec d dir pem r :
  Chain_verify d dir pem = Ok r →
  ∃ rows retired, read_entries d (path_join dir CHAIN_FILE) = Ok rows ∧ read_retirement d dir = Ok retired ∧
    crp_head_seq r = head_seq rows ∧ crp_retired_through r = boundary retired ∧ crp_entries r = len rows ∧
    (report_is_intact r = true ↔ verified_chain d dir pem rows retired).
Proof.
  unfold Chain_verify. intros (rows & Hrows & (retired & Hret & Hv)%result_bind_ok)%result_bind_ok.
  exists rows, retired. split; [done|]. split; [done|].
  destruct (chain_start retired) as [eseq eprev] eqn:Hstart.
  destruct (check_rows _ _ _ _ _) as [broken problems] eqn:Hcheck.
  pose proof (check_rows_broken eseq eprev rows None
    (match retired with Some r => retirement_problems r rows | None => [] end)) as Hbroken.
  rewrite Hcheck in Hbroken. cbn [fst] in Hbroken.
  pose proof (highest_le d dir (head_seq rows)) as Hhigh.
  unfold verified_chain. rewrite Hstart. cbn [fst snd].
  assert (match last rows with Some e => (en_seq e, en_row_hash e) | None => (0%N, "") end
    = (head_seq rows, default "" (en_row_hash <$> last rows))) as Hhd
    by (unfold head_seq; by destruct (last rows)).
  rewrite Hhd in Hv. clear Hhd Hcheck. cbn zeta beta iota in Hv.
  set (highest := highest_checkpoint_seq _ _) in *.
  set (broken' := if (head_seq rows <? highest)%N then or_insert broken (u64_add (head_seq rows) 1) else broken).
  assert (broken' = None ↔ linked eseq eprev rows ∧
    ∀ line cp, line ∈ anchor_lines d dir → claimed_checkpoint line = Some cp → (cp_seq cp ≤ head_seq rows)%N) as Hb'.
  { unfold broken'. rewrite <-Hhigh. destruct (N.ltb_spec (head_seq rows) highest) as [Hlt|Hge].
    - split; [by destruct broken|lia].
    - rewrite Hbroken. tauto. }
  destruct pem as [pem|].
  - destruct (head_seq rows <? highest)%N; cbn iota in Hv;
      apply result_bind_ok in Hv as (t & (key & Hk & Hall & Ht)%verify_anchors_ok & [= <-]);
      (split; [done|]; split; [done|]; split; [done|]);
      unfold report_is_intact; cbn [crp_broken_at crp_anchor_mismatches];
      rewrite andb_true_iff, !bool_decide_eq_true; fold broken';
      rewrite Hb', Ht;
      (split; [intros [[? ?] ?]; eauto|intros (? & ? & key' & Hk' & ?); replace key' with key in * by congruence; eauto]).
  - destruct (head_seq rows <? highest)%N; cbn iota in Hv; injection Hv as <-;
      (split; [done|]; split; [done|]; split; [done|]);
      unfold report_is_intact; cbn [crp_broken_at crp_anchor_mismatches];
      rewrite andb_true_iff, !bool_decide_eq_true; fold broken'; rewrite Hb'; tauto.
Qed.

Lemma mapR_err {A B} (f : A → result B) l e : mapR f l = Err e → ∃ x, x ∈ l ∧ f x = Err e.
Proof.
  induction l as [|x l IH]; simpl; [done|]. destruct (f x) as [y|c] eqn:Hf; simpl.
  - destruct (mapR f l); simpl; [done|]. intros [= <-]. destruct (IH eq_refl) as (z & ? & ?). exists z. set_solver.
  - intros [= <-]. exists x. set_solver.
Qed.

Lemma read_entries_err d path c : read_entries d path = Err c → c = CHAIN_BROKEN.
Proof.
  unfold read_entries, parse_entries. destruct (d !! path); [|done].
  intros (l & _ & Hl)%mapR_err. by destruct (entry_from_str l); simplify_eq/=.
Qed.

Lemma verify_anchors_err d path pem rows retired c :
  verify_anchors d path pem rows retired = Err c → c = CHAIN_BROKEN.
Proof.
  unfold verify_anchors. destruct (decoding_from_ec_pem pem) as [key|]; simpl; [|congruence].
  destruct (d !! path) as [text|]; [|done]. generalize (mkAnchorTally 0 [] 0).
  induction (filled_lines text) as [|line lines IH]; intros t; simpl; [done|].
  destruct (signed_checkpoint key line); simpl; [apply IH|congruence].
Qed.

Lemma verify_err d dir pem c : Chain_verify d dir pem = Err c → c = CHAIN_BROKEN.
Proof.
  unfold Chain_verify. destruct (read_entries _ _) as [rows|e] eqn:Hr; simpl.
  2:{ intros [= <-]. by eapply read_entries_err. }
  unfold read_retirement. destruct (d !! path_join dir RETIRED_FILE) as [text|]; simpl.
  - destruct (retirement_from_str text) as [ret|]; simpl; [|congruence].
    intros Hv. repeat (case_match; try done).
    all: destruct (verify_anchors _ _ _ _ _) eqn:Ha; simplify_eq/=; by eapply verify_anchors_err.
  - intros Hv. repeat (case_match; try done).
    all: destruct (verify_anchors _ _ _ _ _) eqn:Ha; simplify_eq/=; by eapply verify_anchors_err.
Qed.
End Verification.

(** ** Properties of verification *)

Section VerificationProperties.
Context `{ChainSerdeLaws, SerdeJsonLaws, Sha256, Jose, SerdeParse}.

(** What verification establishes.  It fails only as a broken chain, when a row, the
    tombstone, the anchor key or a checkpoint's signature cannot be read; otherwise it calls
    the chain intact exactly when the rows continue -- in number, link and content -- the
    root or the tombstone, no checkpoint, signed or not, claims a row past the head, and,
    where a public key is given, every checkpoint signed by it names a retired row, the
    tombstone's own hash, or the live row of its number with that row's hash. *)
Theorem chain_verify_exact d dir pem :
  match Chain_verify d dir pem with
  | Err e => e = CHAIN_BROKEN
  | Ok r => ∃ rows retired,
      read_entries d (path_join dir CHAIN_FILE) = Ok rows ∧ read_retirement d dir = Ok retired ∧
      crp_head_seq r = head_seq rows ∧ crp_retired_through r = boundary retired ∧ crp_entries r = len rows ∧
      (report_is_intact r = true ↔ verified_chain d dir pem rows retired)
  end.
Proof.
  destruct (Chain_verify d dir pem) as [r|e] eqn:Hv; [by apply verify_spec|by apply verify_err in Hv].
Qed.

(** C21: evidence cannot be rewritten under a hash somebody kept.  If two evidence
    directories both verify and a row of one has the hash of a row of the other, then going
    back from there the rows are the same, field by field, as far as both reach -- through
    any retirement -- or two texts with one SHA-256 digest exist. *)
Theorem chain_tamper_evident d dir pem r d' dir' pem' r' rows rows' n n' e e' :
  Chain_verify d dir pem = Ok r → report_is_intact r = true →
  Chain_verify d' dir' pem' = Ok r' → report_is_intact r' = true →
  read_entries d (path_join dir CHAIN_FILE) = Ok rows → read_entries d' (path_join dir' CHAIN_FILE) = Ok rows' →
  rows !! n = Some e → rows' !! n' = Some e' → en_row_hash e = en_row_hash e' →
  (∀ k x x', k ≤ n → k ≤ n' → rows !! (n - k) = Some x → rows' !! (n' - k) = Some x' → x = x')
  ∨ sha256_collision.
Proof.
  intros (l & ret & Hl & _ & _ & _ & _ & Hiff)%verify_spec Hi (l' & ret' & Hl' & _ & _ & _ & _ & Hiff')%verify_spec Hi' Hr Hr'.
  apply Hiff in Hi as [Hlink _]. apply Hiff' in Hi' as [Hlink' _].
  replace l with rows in * by congruence. replace l' with rows' in * by congruence.
  eapply linked_agree; [exact Hlink|exact Hlink'|by eapply read_entries_wf..].
Qed.
End VerificationProperties.

(** ** Lemmas: appending *)

Definition append_ok : AppendIo := mkAppendIo true Written true.
Definition chain_ok : ChainIo := mkChainIo append_ok append_ok.

Lemma path_join_inj dir a b : path_join dir a = path_join dir b → a = b.
Proof.
  unfold path_join. intros Heq%(f_equal bytes). rewrite !bytes_app in Heq.
  apply app_inv_head, app_inv_head, bytes_inj in Heq. done.
Qed.

Lemma file_append_same d path text : file_append d path text !! path = Some (default "" (d !! path) +:+ text).
Proof. unfold file_append. by rewrite lookup_insert_eq. Qed.
Lemma file_append_other d path path' text : path ≠ path' → file_append d path text !! path' = d !! path'.
Proof. intros. unfold file_append. by rewrite lookup_insert_ne. Qed.

Section Appending.
Context `{ChainSerdeLaws, SerdeJson, Sha256, Jose, SerdeParse}.

(** The sequence and hash a live chain with no row continues. *)
Definition origin (retired : option Retirement) : N * string :=
  match retired with Some r => (rt_to r, rt_last_row_hash r) | None => (0%N, "") end.
Definition head_of (retired : option Retirement) (rows : list Entry) : N * string :=
  match last rows with Some e => (en_seq e, en_row_hash e) | None => origin retired end.

(** What an open chain holds: its file is whole rows that continue the root or the
    tombstone, and its head is the last of them. *)
Definition chain_holds (c : Chain) (rows : list Entry) : Prop :=
  ch_disk c !! chain_path c = Some (rows_text rows) ∧ Forall entry_wf rows ∧
  ∃ retired, read_retirement (ch_disk c) (ch_dir c) = Ok retired ∧
    linked (chain_start retired).1 (chain_start retired).2 rows ∧
    chain_head c = head_of retired rows.

Lemma chain_start_origin retired :
  chain_start retired = (u64_add (origin retired).1 1, (origin retired).2).
Proof. by destruct retired. Qed.

Lemma open_holds d dir rows retired :
  read_entries d (path_join dir CHAIN_FILE) = Ok rows → read_retirement d dir = Ok retired →
  default "" (d !! path_join dir CHAIN_FILE) = rows_text rows →
  linked (chain_start retired).1 (chain_start retired).2 rows →
  ∃ c, Chain_open d dir = Ok c ∧ chain_holds c rows ∧ ch_dir c = dir ∧ ch_anchor c = None ∧
    (∀ path, path ≠ path_join dir CHAIN_FILE → ch_disk c !! path = d !! path).
Proof.
  intros Hr Hret Htext Hl. unfold Chain_open. rewrite Hr, Hret. cbn [result_bind].
  assert (match last rows with
          | Some e => (en_seq e, en_row_hash e)
          | None => match retired with Some r => (rt_to r, rt_last_row_hash r) | None => (0%N, "") end
          end = head_of retired rows) as -> by done.
  destruct (head_of retired rows) as [seq hash] eqn:Hh. eexists. split; [done|].
  split; [|split; [done|split; [done|]]].
  - split; [|split; [by eapply read_entries_wf|]].
    + cbn [ch_disk]. unfold chain_path. cbn [ch_dir]. by rewrite file_append_same, Htext, string_app_nil_r.
    + exists retired. split; [|done]. cbn [ch_disk ch_dir]. unfold read_retirement in *.
      rewrite file_append_other; [done|]. by intros ?%path_join_inj.
  - intros path Hne. cbn [ch_disk]. by apply file_append_other.
Qed.

Lemma next_entry_intact c draft now : entry_is_intact (next_entry c draft now) = true.
Proof. unfold entry_is_intact, next_entry. cbv zeta. apply bool_decide_eq_true. reflexivity. Qed.

Lemma next_entry_seq c draft now : en_seq (next_entry c draft now) = u64_add (ch_last_seq c) 1.
Proof. reflexivity. Qed.
Lemma next_entry_prev c draft now : en_prev_hash (next_entry c draft now) = ch_last_hash c.
Proof. reflexivity. Qed.

Lemma next_entry_wf c draft now : is_u64 now → value_wf (ed_detail draft) = true → entry_wf (next_entry c draft now).
Proof.
  intros Hn Hd. unfold entry_wf, next_entry. cbv zeta. cbn [en_seq en_ts en_schema en_detail].
  split; [|split; [done|split; [by vm_compute|done]]]. unfold is_u64, u64_add.
  pose proof (N.mod_upper_bound (ch_last_seq c + 1) (u64_max + 1) ltac:(done)). lia.
Qed.

Lemma linked_snoc retired rows e :
  linked (chain_start retired).1 (chain_start retired).2 rows →
  en_seq e = u64_add (head_of retired rows).1 1 → en_prev_hash e = (head_of retired rows).2 →
  entry_is_intact e = true → linked (chain_start retired).1 (chain_start retired).2 (rows ++ [e]).
Proof.
  intros Hl Hs Hp Hi. apply linked_app. split; [done|]. unfold head_of in *.
  destruct (last rows); cbn [linked fst snd] in *; [done|]. rewrite chain_start_origin. done.
Qed.

(** A row that reached the file is on the chain, whatever became of its checkpoint. *)
Lemma append_row c rows draft now d :
  chain_holds c rows → is_u64 now → value_wf (ed_detail draft) = true →
  d !! chain_path c = Some (rows_text (rows ++ [next_entry c draft now])) →
  d !! path_join (ch_dir c) RETIRED_FILE = ch_disk c !! path_join (ch_dir c) RETIRED_FILE →
  chain_holds (mkChain (ch_dir c) d (en_seq (next_entry c draft now)) (en_row_hash (next_entry c draft now))
                 (ch_anchor c)) (rows ++ [next_entry c draft now]).
Proof.
  intros (Htext & Hwf & retired & Hret & Hl & Hhead) Hnow Hdet Hd Hd'.
  split; [done|]. split; [apply Forall_app; split; [done|]; constructor; [by apply next_entry_wf|constructor]|].
  exists retired. cbn [ch_disk ch_dir]. split; [unfold read_retirement in *; by rewrite Hd'|].
  split.
  - apply linked_snoc; [done| | |apply next_entry_intact]; rewrite <-Hhead; done.
  - unfold head_of. by rewrite last_snoc.
Qed.

(** *** Anchored chains *)

(** A signing key and the public key that verifies it: whatever is signed is one line of the
    anchor file, names its checkpoint and verifies to it. *)
Definition signs (key : IssuerKey) (pub : DecodingKey) : Prop :=
  ∀ cp, ∃ jws, sign_detached (checkpoint_to_vec cp) key = Ok jws ∧ plain_line jws ∧
    claimed_checkpoint jws = Some cp ∧ signed_checkpoint pub jws = Some cp.

Definition line_of (key : IssuerKey) (cp : Checkpoint) : string :=
  match sign_detached (checkpoint_to_vec cp) key with Ok jws => jws | Err _ => "" end.
Definition cp_of (e : Entry) : Checkpoint := mkCheckpoint (en_seq e) (en_row_hash e) (en_ts e).
Definition due_rows (a : Anchor) (rows : list Entry) : list Entry := filterb (λ e, is_due a (en_seq e)) rows.
Definition checkpoint_lines (a : Anchor) (rows : list Entry) : list string :=
  map (λ e, line_of (an_key a) (cp_of e)) (due_rows a rows).

(** The anchor file holds one signed line per due row, and nothing else. *)
Definition anchored (c : Chain) (rows : list Entry) : Prop :=
  ∃ a, ch_anchor c = Some a ∧ an_path a = path_join (ch_dir c) ANCHOR_FILE ∧
    default "" (ch_disk c !! an_path a) = text_lines (checkpoint_lines a rows).

Lemma line_of_signs key pub cp : signs key pub →
  sign_detached (checkpoint_to_vec cp) key = Ok (line_of key cp) ∧ plain_line (line_of key cp) ∧
  claimed_checkpoint (line_of key cp) = Some cp ∧ signed_checkpoint pub (line_of key cp) = Some cp.
Proof. intros Hs. destruct (Hs cp) as (jws & Hj & Hrest). unfold line_of. by rewrite Hj. Qed.

Lemma due_rows_snoc a rows e :
  due_rows a (rows ++ [e]) = due_rows a rows ++ (if is_due a (en_seq e) then [e] else []).
Proof. unfold due_rows. rewrite List.filter_app. simpl. by destruct (is_due a (en_seq e)). Qed.

Lemma file_names_apart dir :
  path_join dir ANCHOR_FILE ≠ path_join dir CHAIN_FILE ∧ path_join dir ANCHOR_FILE ≠ path_join dir RETIRED_FILE ∧
  path_join dir CHAIN_FILE ≠ path_join dir RETIRED_FILE.
Proof. repeat split; intros Heq%path_join_inj; discriminate Heq. Qed.

Lemma append_anchored c rows draft now pub :
  chain_holds c rows → anchored c rows → (∀ a, ch_anchor c = Some a → signs (an_key a) pub) →
  is_u64 now → value_wf (ed_detail draft) = true →
  ∃ c', append c draft now chain_ok = (c', Ok (next_entry c draft now)) ∧
    chain_holds c' (rows ++ [next_entry c draft now]) ∧ anchored c' (rows ++ [next_entry c draft now]) ∧
    ch_dir c' = ch_dir c ∧ ch_anchor c' = ch_anchor c ∧
    read_retirement (ch_disk c') (ch_dir c) = read_retirement (ch_disk c) (ch_dir c).
Proof.
  intros Hc (a & Ha & Hpath & Htext) Hsigns Hnow Hdet. specialize (Hsigns a Ha).
  destruct (file_names_apart (ch_dir c)) as (Hac & Har & Hcr).
  unfold append. set (e := next_entry c draft now) in *. cbn [append_line chain_ok append_ok ci_chain ci_anchor ap_open ap_write ap_sync negb].
  unfold append_line. cbn [ap_open ap_write ap_sync negb]. cbv zeta.
  set (d1 := file_append (ch_disk c) (chain_path c) (entry_to_string e +:+ LFs)).
  assert (d1 !! chain_path c = Some (rows_text (rows ++ [e]))) as Hd1.
  { unfold d1. rewrite file_append_same. destruct Hc as (-> & _). cbn [default from_option]. by rewrite <-rows_text_snoc. }
  assert (∀ path, path ≠ chain_path c → d1 !! path = ch_disk c !! path) as Hother
    by (intros path Hne; by apply file_append_other).
  assert (Hrow : ∀ d, d !! chain_path c = d1 !! chain_path c →
    d !! path_join (ch_dir c) RETIRED_FILE = d1 !! path_join (ch_dir c) RETIRED_FILE →
    chain_holds (mkChain (ch_dir c) d (en_seq e) (en_row_hash e) (ch_anchor c)) (rows ++ [e])).
  { intros d Hd Hd'. apply append_row; [done..| |].
    - by rewrite Hd.
    - rewrite Hd'. by apply Hother, not_eq_sym. }
  rewrite Ha. cbn [ch_anchor ch_disk ch_dir]. destruct (is_due a (en_seq e)) eqn:Hdue.
  - destruct (line_of_signs (an_key a) pub (cp_of e) Hsigns) as (Hline & _).
    unfold anchor_write. change (mkCheckpoint (en_seq e) (en_row_hash e) now) with (cp_of e). rewrite Hline.
    unfold append_line. cbn [ap_open ap_write ap_sync negb result_bind]. cbv zeta.
    eexists. split; [reflexivity|]. cbn [with_disk ch_dir ch_anchor ch_last_seq ch_last_hash]. rewrite <-Ha.
    split; [|split; [|split; [done|split; [done|]]]].
    3:{ unfold read_retirement. cbn [with_disk ch_disk]. rewrite file_append_other by (by rewrite Hpath).
        by rewrite Hother by (by apply not_eq_sym). }
    + apply Hrow; apply file_append_other; rewrite Hpath; done.
    + exists a. cbn [with_disk ch_anchor ch_disk ch_dir]. split; [done|]. split; [done|].
      rewrite file_append_same. cbn [default from_option]. rewrite Hother by (by rewrite Hpath).
      rewrite Htext. unfold checkpoint_lines. rewrite due_rows_snoc, Hdue, map_app. by rewrite text_lines_snoc.
  - eexists. split; [reflexivity|]. cbn [ch_dir ch_anchor]. rewrite <-Ha. split; [by apply Hrow|].
    split; [|split; [done|split; [done|unfold read_retirement; cbn [ch_disk]; by rewrite Hother by (by apply not_eq_sym)]]].
    exists a. cbn [ch_anchor ch_disk ch_dir]. split; [done|]. split; [done|].
    rewrite Hother by (by rewrite Hpath). rewrite Htext. unfold checkpoint_lines.
    by rewrite due_rows_snoc, Hdue, app_nil_r.
Qed.

(** A run of appends that all succeed. *)
Fixpoint append_run (c : Chain) (drafts : list (EntryDraft * N)) : result (Chain * list Entry) :=
  match drafts with
  | [] => Ok (c, [])
  | (draft, now) :: drafts =>
    let '(c, r) := append c draft now chain_ok in
    let? e := r in
    let? (c, rows) := append_run c drafts in
    Ok (c, e :: rows)
  end.

(** What a row was written from. *)
Definition drafted (e : Entry) : EntryDraft * N :=
  (mkEntryDraft (en_kind e) (en_cid e) (en_contract_jti e) (en_entities e) (en_actor e) (en_decision e)
     (en_reason e) (en_policy_version e) (en_detail e), en_ts e).

Lemma append_run_anchored c rows drafts pub :
  chain_holds c rows → anchored c rows → (∀ a, ch_anchor c = Some a → signs (an_key a) pub) →
  (∀ draft now, (draft, now) ∈ drafts → is_u64 now ∧ value_wf (ed_detail draft) = true) →
  ∃ c' new, append_run c drafts = Ok (c', new) ∧ chain_holds c' (rows ++ new) ∧ anchored c' (rows ++ new) ∧
    map drafted new = drafts ∧ ch_dir c' = ch_dir c ∧ ch_anchor c' = ch_anchor c ∧
    read_retirement (ch_disk c') (ch_dir c) = read_retirement (ch_disk c) (ch_dir c).
Proof.
  revert c rows. induction drafts as [|[draft now] drafts IH]; intros c rows Hc Ha Hs Hd; simpl.
  { exists c, []. rewrite app_nil_r. done. }
  destruct (Hd draft now) as [Hnow Hdet]; [left|].
  destruct (append_anchored c rows draft now pub Hc Ha Hs Hnow Hdet) as (c1 & -> & Hc1 & Ha1 & Hdir & Hanc & Hret).
  cbn [result_bind]. destruct (IH c1 (rows ++ [next_entry c draft now])) as (c' & new & -> & Hc' & Ha' & Hnew & Hdir' & Hanc' & Hret');
    [done|done|by rewrite Hanc|intros ???; apply Hd; by right|].
  exists c', (next_entry c draft now :: new). cbn [result_bind].
  rewrite <-app_assoc in Hc', Ha'. split; [done|]. split; [done|]. split; [done|].
  rewrite Hdir in Hret'. split; [|by rewrite Hdir', Hanc', Hret'].
  simpl. rewrite Hnew. f_equal. unfold drafted, next_entry. cbv zeta. by destruct draft.
Qed.

(** *** Numbers *)

Lemma linked_seq seq prev rows i e :
  linked seq prev rows → is_u64 (seq + len rows) → rows !! i = Some e → en_seq e = (seq + N.of_nat i)%N.
Proof.
  unfold len. revert seq prev i. induction rows as [|x rows IH]; intros seq prev [|i] Hl Hu Hi; simplify_eq/=;
    destruct Hl as (Hs & _ & _ & Hl); [lia|].
  assert (u64_add (en_seq x) 1 = (seq + 1)%N) as Heq by (rewrite Hs; apply u64_add_small; unfold is_u64 in *; lia).
  rewrite Heq in Hl. rewrite (IH _ _ _ Hl ltac:(unfold is_u64 in *; lia) Hi). lia.
Qed.

Lemma find_seq seq prev rows e :
  linked seq prev rows → is_u64 (seq + len rows) → e ∈ rows → find (λ x, en_seq x =? en_seq e)%N rows = Some e.
Proof.
  intros Hl Hu He. destruct (find _ rows) as [x|] eqn:Hf.
  - apply find_some in Hf as [Hx Hs%N.eqb_eq]. apply list_elem_of_In in Hx.
    apply list_elem_of_lookup in He as [i Hi]. apply list_elem_of_lookup in Hx as [j Hj].
    rewrite (linked_seq _ _ _ _ _ Hl Hu Hi), (linked_seq _ _ _ _ _ Hl Hu Hj) in Hs.
    replace j with i in * by lia. congruence.
  - apply list_elem_of_In in He. apply (find_none _ _ Hf) in He. by rewrite N.eqb_refl in He.
Qed.

Lemma head_seq_last seq prev rows :
  linked seq prev rows → is_u64 (seq + len rows) → rows ≠ [] → (head_seq rows + 1 = seq + len rows)%N.
Proof.
  intros Hl Hu Hne. destruct rows as [|e rows _] using rev_ind; [done|]. unfold head_seq, len in *.
  rewrite last_snoc. rewrite length_app in *. simpl in *.
  rewrite (linked_seq _ _ _ (length rows) e Hl); [lia|unfold len; by rewrite length_app|].
  by rewrite lookup_app_r, Nat.sub_diag by lia.
Qed.

(** *** What an anchored chain verifies to *)

Lemma anchored_lines c rows pub a :
  anchored c rows → ch_anchor c = Some a → signs (an_key a) pub →
  anchor_lines (ch_disk c) (ch_dir c) = checkpoint_lines a rows.
Proof.
  intros (a' & Ha & Hpath & Htext) Ha' Hs. replace a' with a in * by congruence.
  unfold anchor_lines. rewrite <-Hpath.
  assert (Forall plain_line (checkpoint_lines a rows)) as Hplain.
  { apply Forall_forall. intros w (e & -> & _)%list_elem_of_fmap. by eapply line_of_signs. }
  destruct (ch_disk c !! an_path a) as [text|]; cbn [default from_option id] in Htext.
  - rewrite Htext. by apply filled_text_lines.
  - destruct (checkpoint_lines a rows) as [|w ws]; [done|]. by destruct w.
Qed.

Lemma tally_returns key rows retired lines t0 :
  (∀ line, line ∈ lines → is_Some (signed_checkpoint key line)) →
  ∃ t, foldR (λ t line, let? cp := ok_or (signed_checkpoint key line) CHAIN_BROKEN in
                        Ok (tally_checkpoint rows retired t cp)) t0 lines = Ok t.
Proof.
  revert t0. induction lines as [|line lines IH]; intros t0 Hall; simpl; [eauto|].
  destruct (Hall line) as [cp ->]; [left|]. cbn [ok_or result_bind]. apply IH. intros l Hl. apply Hall. by right.
Qed.

Lemma verify_returns d dir pem key rows retired :
  read_entries d (path_join dir CHAIN_FILE) = Ok rows → read_retirement d dir = Ok retired →
  decoding_from_ec_pem pem = Some key →
  (∀ line, line ∈ anchor_lines d dir → is_Some (signed_checkpoint key line)) →
  ∃ r, Chain_verify d dir (Some pem) = Ok r ∧
    crp_highest_checkpoint_seq r = highest_checkpoint_seq d (path_join dir ANCHOR_FILE).
Proof.
  intros Hr Hret Hk Hall. unfold Chain_verify. rewrite Hr, Hret. cbn [result_bind].
  assert (∃ t, verify_anchors d (path_join dir ANCHOR_FILE) pem rows retired = Ok t) as [t Ht].
  { unfold verify_anchors, anchor_lines in *. rewrite Hk. cbn [ok_or result_bind].
    destruct (d !! _); [by apply tally_returns|eauto]. }
  rewrite Ht. cbn [result_bind]. destruct (chain_start retired), (check_rows _ _ _ _ _).
  destruct (last rows); cbn zeta beta iota; case_match; eauto.
Qed.

Lemma chain_holds_read c rows :
  chain_holds c rows → read_entries (ch_disk c) (path_join (ch_dir c) CHAIN_FILE) = Ok rows.
Proof.
  intros (Htext & Hwf & _). unfold read_entries. unfold chain_path in Htext. rewrite Htext. by apply parse_rows_text.
Qed.

Lemma elem_of_checkpoint_lines a rows line :
  line ∈ checkpoint_lines a rows ↔ ∃ e, line = line_of (an_key a) (cp_of e) ∧ e ∈ rows ∧ is_due a (en_seq e) = true.
Proof.
  unfold checkpoint_lines, due_rows. rewrite list_elem_of_fmap. by setoid_rewrite elem_of_filterb.
Qed.

Lemma anchored_verifies c rows pub a pem :
  chain_holds c rows → anchored c rows → ch_anchor c = Some a → signs (an_key a) pub →
  decoding_from_ec_pem pem = Some pub → read_retirement (ch_disk c) (ch_dir c) = Ok None →
  is_u64 (1 + len rows) →
  ∃ r, Chain_verify (ch_disk c) (ch_dir c) (Some pem) = Ok r ∧ report_is_intact r = true ∧
    crp_head_seq r = head_seq rows ∧
    crp_highest_checkpoint_seq r = highest_checkpoint_seq (ch_disk c) (path_join (ch_dir c) ANCHOR_FILE).
Proof.
  intros Hc Hanc Ha Hs Hk Hret Hu. pose proof (chain_holds_read _ _ Hc) as Hread.
  pose proof (anchored_lines _ _ _ _ Hanc Ha Hs) as Hlines.
  assert (∀ line, line ∈ anchor_lines (ch_disk c) (ch_dir c) → ∃ e, e ∈ rows ∧
    claimed_checkpoint line = Some (cp_of e) ∧ signed_checkpoint pub line = Some (cp_of e)) as Hall.
  { rewrite Hlines. intros line (e & -> & He & _)%elem_of_checkpoint_lines. exists e.
    destruct (line_of_signs (an_key a) pub (cp_of e) Hs) as (_ & _ & ? & ?). done. }
  destruct (verify_returns _ _ pem pub rows None Hread Hret Hk) as (r & Hr & Hhigh).
  { intros line (e & _ & _ & ?)%Hall. by eexists. }
  exists r. split; [done|].
  destruct (verify_spec _ _ _ _ Hr) as (rows' & ret' & Hread' & Hret' & Hhead & _ & _ & Hiff).
  replace rows' with rows in * by congruence. replace ret' with (@None Retirement) in * by congruence.
  split; [|done]. apply Hiff. destruct Hc as (_ & _ & ret & Hret'' & Hlink & _).
  replace ret with (@None Retirement) in * by congruence. clear Hiff Hret' Hret''.
  cbn [chain_start fst snd] in Hlink. split; [exact Hlink|].
  assert (∀ e, e ∈ rows → (1 ≤ en_seq e ≤ head_seq rows)%N) as Hrange.
  { intros e [i Hi]%list_elem_of_lookup. pose proof (lookup_lt_Some _ _ _ Hi) as Hlt.
    assert (rows ≠ []) as Hne by (by intros ->).
    pose proof (head_seq_last _ _ _ Hlink Hu Hne). rewrite (linked_seq _ _ _ _ _ Hlink Hu Hi). unfold len in *. lia. }
  split.
  - intros line cp Hl Hcp. destruct (Hall _ Hl) as (e & He & Hc' & _).
    replace cp with (cp_of e) by congruence. cbn [cp_seq cp_of]. by apply Hrange.
  - exists pub. split; [done|]. intros line cp Hl Hcp. destruct (Hall _ Hl) as (e & He & _ & Hs').
    replace cp with (cp_of e) by congruence. right; right. cbn [boundary cp_of cp_seq cp_row_hash].
    split; [apply Hrange in He; lia|]. exists e. split; [|done]. by eapply find_seq.
Qed.

(** The newest checkpoint is less than one interval behind the head. *)
Lemma anchored_recent c rows pub a :
  chain_holds c rows → anchored c rows → ch_anchor c = Some a → signs (an_key a) pub →
  read_retirement (ch_disk c) (ch_dir c) = Ok None → (1 ≤ an_interval a)%N → is_u64 (1 + len rows) →
  (head_seq rows < highest_checkpoint_seq (ch_disk c) (path_join (ch_dir c) ANCHOR_FILE) + an_interval a)%N.
Proof.
  intros Hc Hanc Ha Hs Hret Hint Hu. destruct (decide (rows = [])) as [->|Hne]; [cbn; lia|].
  destruct Hc as (_ & _ & ret & Hret' & Hlink & _). replace ret with (@None Retirement) in * by congruence.
  cbn [chain_start fst snd] in Hlink. pose proof (head_seq_last _ _ _ Hlink Hu Hne) as Hh.
  set (h := head_seq rows) in *. set (i := an_interval a) in *.
  pose proof (N.mod_upper_bound h i ltac:(lia)) as Hm. pose proof (N.div_mod h i ltac:(lia)) as Hdm.
  destruct (decide (h < i)%N) as [|Hge]; [lia|]. remember (h / i)%N as q eqn:Eq. remember (h mod i)%N as m eqn:Em.
  set (s := (i * q)%N) in *.
  assert (1 ≤ q)%N as Hq by (rewrite Eq; apply N.div_le_lower_bound; lia).
  assert (s ≤ h)%N as Hs1 by lia. assert (1 ≤ s)%N as Hs2 by (unfold s; nia).
  destruct (lookup_lt_is_Some_2 rows (N.to_nat (s - 1))) as [e He]; [unfold len in *; lia|].
  pose proof (linked_seq _ _ _ _ _ Hlink Hu He) as Hseq.
  assert (en_seq e = s) as Hes by lia.
  enough (s ≤ highest_checkpoint_seq (ch_disk c) (path_join (ch_dir c) ANCHOR_FILE))%N by lia.
  destruct (line_of_signs (an_key a) pub (cp_of e) Hs) as (_ & _ & Hclaim & _).
  rewrite <-Hes. change (en_seq e) with (cp_seq (cp_of e)).
  eapply (proj1 (highest_le _ _ _) (N.le_refl _)); [|exact Hclaim].
  rewrite (anchored_lines _ _ _ _ Hanc Ha Hs). apply elem_of_checkpoint_lines. exists e. split; [done|].
  split; [by eapply list_elem_of_lookup_2|]. unfold is_due. rewrite Hes. fold i.
  apply andb_true_iff. split; [apply N.ltb_lt; lia|]. apply N.eqb_eq. unfold s. rewrite N.mul_comm. by apply N.mod_mul; lia.
Qed.
End Appending.

(** ** Properties of appending *)

Section AppendingProperties.
Context `{ChainSerdeLaws, SerdeJson, Sha256, Jose, SerdeParse}.

(** A run of appends in a new evidence directory. *)
Definition fresh_run (d : Disk) (dir : string) (key : IssuerKey) (interval : N) (drafts : list (EntryDraft * N))
    : result (Chain * list Entry) :=
  let? c := Chain_open d dir in
  append_run (with_anchor c (with_signer key (path_join dir ANCHOR_FILE) interval)) drafts.

(** What a run needs: an empty directory, clocks and payloads that can be written. *)
Definition fresh_start (d : Disk) (dir : string) (drafts : list (EntryDraft * N)) : Prop :=
  d !! path_join dir CHAIN_FILE = None ∧ d !! path_join dir RETIRED_FILE = None ∧
  d !! path_join dir ANCHOR_FILE = None ∧ is_u64 (1 + len drafts) ∧
  ∀ draft now, (draft, now) ∈ drafts → is_u64 now ∧ value_wf (ed_detail draft) = true.

Lemma fresh_run_anchored d dir key pub interval drafts :
  signs key pub → fresh_start d dir drafts →
  ∃ c rows, fresh_run d dir key interval drafts = Ok (c, rows) ∧ chain_holds c rows ∧ anchored c rows ∧
    map drafted rows = drafts ∧ ch_dir c = dir ∧
    ch_anchor c = Some (with_signer key (path_join dir ANCHOR_FILE) interval) ∧
    read_retirement (ch_disk c) dir = Ok None.
Proof.
  intros Hs (Hchain & Hret & Hanc & Hu & Hd).
  assert (read_retirement d dir = Ok None) as Hret' by (unfold read_retirement; by rewrite Hret).
  destruct (open_holds d dir [] None) as (c0 & Hopen & Hc0 & Hdir & _ & Hother);
    [unfold read_entries; by rewrite Hchain|done|by rewrite Hchain|done|].
  set (a := with_signer key (path_join dir ANCHOR_FILE) interval).
  destruct (append_run_anchored (with_anchor c0 a) [] drafts pub)
    as (c & rows & Hrun & Hc & Ha & Hdr & Hdir' & Hanc' & Hr); [exact Hc0| |by intros ? [= <-]|done|].
  { exists a. cbn [with_anchor ch_anchor ch_dir ch_disk]. rewrite Hdir. split; [done|]. split; [done|].
    cbn [a with_signer an_path]. rewrite Hother by apply file_names_apart. by rewrite Hanc. }
  cbn [app with_anchor ch_dir ch_anchor ch_disk] in *. rewrite Hdir in Hdir', Hr.
  exists c, rows. unfold fresh_run. rewrite Hopen. cbn [result_bind]. fold a.
  do 6 (split; [done|]). rewrite Hr. unfold read_retirement.
  rewrite Hother; [by rewrite Hret|]. apply not_eq_sym, file_names_apart.
Qed.

(** C31: an anchored chain holds what was appended to it and proves it.  Appending any run of
    events to a new evidence directory succeeds; the file then reads back as one row per
    event, numbered from one, with the event's content and time; verification under the
    anchor's public key calls it intact; and reopening it continues from the same head. *)
Theorem chain_run_verifies d dir key pub pem interval drafts :
  signs key pub → decoding_from_ec_pem pem = Some pub → fresh_start d dir drafts →
  ∃ c rows, fresh_run d dir key interval drafts = Ok (c, rows) ∧
    map drafted rows = drafts ∧ (∀ i e, rows !! i = Some e → en_seq e = (1 + N.of_nat i)%N) ∧
    read_entries (ch_disk c) (path_join dir CHAIN_FILE) = Ok rows ∧
    (∃ r, Chain_verify (ch_disk c) dir (Some pem) = Ok r ∧ report_is_intact r = true) ∧
    ∃ c', Chain_open (ch_disk c) dir = Ok c' ∧ chain_head c' = chain_head c.
Proof.
  intros Hs Hk Hfresh. destruct (fresh_run_anchored d dir key pub interval drafts Hs Hfresh)
    as (c & rows & Hrun & Hc & Ha & Hdr & <- & Hanc & Hret).
  assert (len rows = len drafts) as Hlen by (unfold len; by rewrite <-Hdr, length_map).
  assert (is_u64 (1 + len rows)) as Hu by (rewrite Hlen; apply Hfresh).
  exists c, rows. split; [done|]. split; [done|]. pose proof Hc as (_ & _ & ret & Hret' & Hlink & Hhead).
  replace ret with (@None Retirement) in * by congruence. split; [intros i e; by eapply linked_seq|].
  pose proof (chain_holds_read _ _ Hc) as Hread. split; [done|]. split.
  - destruct (anchored_verifies c rows pub _ pem Hc Ha Hanc Hs Hk Hret Hu) as (r & ? & ? & _). eauto.
  - unfold Chain_open. rewrite Hread, Hret. cbn [result_bind].
    rewrite Hhead. unfold head_of. destruct (last rows); eexists; done.
Qed.

(** Checkpoints keep coming.  However a run of appends ends, the newest checkpoint the
    anchor file claims is less than one interval behind the head, so fewer than that many
    rows could ever be dropped from the end without verification noticing. *)
Theorem checkpoints_keep_coming d dir key pub interval drafts :
  signs key pub → fresh_start d dir drafts →
  ∃ c rows, fresh_run d dir key interval drafts = Ok (c, rows) ∧ map drafted rows = drafts ∧
    (head_seq rows < highest_checkpoint_seq (ch_disk c) (path_join dir ANCHOR_FILE) + N.max interval 1)%N.
Proof.
  intros Hs Hfresh. destruct (fresh_run_anchored d dir key pub interval drafts Hs Hfresh)
    as (c & rows & Hrun & Hc & Ha & Hdr & <- & Hanc & Hret).
  exists c, rows. split; [done|]. split; [done|].
  refine (anchored_recent c rows pub _ Hc Ha Hanc Hs Hret _ _); [cbn; lia|].
  replace (len rows) with (len drafts); [apply Hfresh|]. unfold len. by rewrite <-Hdr, length_map.
Qed.
End AppendingProperties.

(** ** Lemmas: retirement *)

Definition retire_ok : RetireIo := mkRetireIo Stored Stored Stored.

Section Retiring.
Context `{ChainSerdeLaws, SerdeJson, Sha256, Jose, SerdeParse}.

Lemma filter_split (f : Entry → bool) l l' :
  (∀ e, e ∈ l → f e = true) → (∀ e, e ∈ l' → f e = false) →
  filterb f (l ++ l') = l ∧ filterb (λ e, negb (f e)) (l ++ l') = l'.
Proof.
  intros Hl Hl'. rewrite !List.filter_app. split.
  - rewrite filterb_all by done. rewrite (proj2 (filterb_nil f l')) by done. by rewrite app_nil_r.
  - rewrite (proj2 (filterb_nil _ l)) by (intros e He; by rewrite Hl).
    apply filterb_all. intros e He. by rewrite Hl'.
Qed.

(** The rows of consecutive numbers up to one of them are a prefix. *)
Lemma linked_cut s p rows upto :
  linked s p rows → is_u64 (s + len rows) → (s ≤ upto)%N →
  ∃ old live, rows = old ++ live ∧ (∀ e, e ∈ old → (en_seq e ≤ upto)%N) ∧ (∀ e, e ∈ live → (upto < en_seq e)%N) ∧
    filterb (λ e, en_seq e <=? upto)%N rows = old ∧ filterb (λ e, negb (en_seq e <=? upto)%N) rows = live ∧
    (live ≠ [] → ∃ newest, last old = Some newest ∧ en_seq newest = upto).
Proof.
  intros Hl Hu Hs. set (k := N.to_nat (upto - s + 1)).
  assert (∀ e, e ∈ take k rows → (en_seq e ≤ upto)%N) as Hold.
  { intros e [i Hi]%list_elem_of_lookup. apply lookup_take_Some in Hi as [Hi Hik].
    rewrite (linked_seq _ _ _ _ _ Hl Hu Hi). unfold k in Hik. lia. }
  assert (∀ e, e ∈ drop k rows → (upto < en_seq e)%N) as Hlive.
  { intros e [i Hi]%list_elem_of_lookup. rewrite lookup_drop in Hi.
    rewrite (linked_seq _ _ _ _ _ Hl Hu Hi). unfold k. lia. }
  exists (take k rows), (drop k rows). split; [by rewrite take_drop|]. split; [done|]. split; [done|].
  destruct (filter_split (λ e, en_seq e <=? upto)%N (take k rows) (drop k rows)) as [HA HB].
  { intros e He. by apply N.leb_le, Hold. } { intros e He. by apply N.leb_gt, Hlive. }
  rewrite take_drop in HA, HB. split; [done|]. split; [done|]. intros Hne.
  assert (k < length rows) as Hk.
  { destruct (le_lt_dec (length rows) k); [|lia]. by rewrite drop_ge in Hne. }
  destruct (lookup_lt_is_Some_2 rows (k - 1)) as [e He]; [lia|]. exists e.
  assert (0 < k) as Hk0 by (unfold k; lia). split.
  - rewrite last_lookup, length_take_le by lia. replace (pred k) with (k - 1) by lia.
    by rewrite lookup_take_lt by lia.
  - rewrite (linked_seq _ _ _ _ _ Hl Hu He). unfold k. lia.
Qed.

(** What the refusals guarantee when none applies. *)
Lemma plan_ok d dir upto horizon pem from old live newest cp rows retired :
  retirement_plan d dir upto horizon pem = Ok (from, old, live, newest, cp) →
  read_entries d (path_join dir CHAIN_FILE) = Ok rows → read_retirement d dir = Ok retired →
  is_u64 (boundary retired + 1 + len rows) →
  verified_chain d dir (Some pem) rows retired ∧ from = (boundary retired + 1)%N ∧ (from ≤ upto)%N ∧
  rows = old ++ live ∧ live ≠ [] ∧ (∀ e, e ∈ old → (en_seq e ≤ upto)%N ∧ (en_ts e < horizon)%N) ∧
  (∀ e, e ∈ live → (upto < en_seq e)%N) ∧ last old = Some newest ∧ en_seq newest = upto ∧
  covering_checkpoint d (path_join dir ANCHOR_FILE) pem upto rows = Ok (Some cp) ∧
  (∀ key, decoding_from_ec_pem pem = Some key →
     ∀ line, line ∈ anchor_lines d dir → is_Some (signed_checkpoint key line)).
Proof.
  unfold retirement_plan. intros Hplan Hrows Hret Hu.
  apply result_bind_ok in Hplan as (r & Hv & Hplan). apply guard_err_ok in Hplan as [Hi%negb_false_iff Hplan].
  destruct (verify_spec _ _ _ _ Hv) as (rows' & ret' & Hrows' & Hret' & _ & _ & _ & Hiff).
  replace rows' with rows in * by congruence. replace ret' with retired in * by congruence.
  apply Hiff in Hi. rewrite Hrows, Hret in Hplan. cbn [result_bind] in Hplan.
  assert (match retired with Some r => u64_add (rt_to r) 1 | None => 1%N end = (boundary retired + 1)%N) as Hfrom.
  { destruct retired as [ret|]; [|done]. apply u64_add_small. cbn [boundary] in *. unfold is_u64 in *. lia. }
  rewrite Hfrom in Hplan. apply guard_err_ok in Hplan as [Hge%N.ltb_ge Hplan].
  pose proof Hi as (Hlink & _ & _). rewrite chain_start_origin in Hlink. cbn [fst snd] in Hlink.
  assert (u64_add (origin retired).1 1 = (boundary retired + 1)%N) as Hstart.
  { transitivity (match retired with Some r => u64_add (rt_to r) 1 | None => 1%N end); [by destruct retired|done]. }
  rewrite Hstart in Hlink.
  destruct (linked_cut _ _ _ upto Hlink Hu Hge) as (o & l & Happ & Ho & Hl & Hfo & Hfl & Hlast).
  rewrite Hfo, Hfl in Hplan.
  apply result_bind_ok in Hplan as (n & Hn%ok_or_ok & Hplan).
  apply guard_err_ok in Hplan as [Hne%bool_decide_eq_false Hplan].
  apply guard_err_ok in Hplan as [Hold Hplan]. rewrite existsb_False in Hold.
  apply result_bind_ok in Hplan as (t & Ht & Hplan). apply guard_err_ok in Hplan as [_ Hplan].
  apply result_bind_ok in Hplan as (co & Hco & (c & Hc%ok_or_ok & Hplan)%result_bind_ok).
  injection Hplan as <- <- <- <- <-. subst co.
  assert (l ≠ []) as Hlne by (intros ->; done).
  destruct (Hlast Hlne) as (newest & Hnew & Hseq). replace n with newest in * by congruence.
  destruct (verify_anchors_ok _ _ _ _ _ _ Ht) as (key & Hk & Hall & _).
  do 5 (split; [done|]). split; [|split; [done|split; [done|split; [done|split; [done|]]]]].
  - intros e He. split; [by apply Ho|]. specialize (Hold e He). by apply N.leb_gt in Hold.
  - intros key' Hk'. by replace key' with key by congruence.
Qed.

Lemma check_segment_linked from seq prev prev' rows :
  linked seq prev rows → (seq = from ∨ prev' = prev) → check_segment from seq prev' rows = [].
Proof.
  revert seq prev prev'. induction rows as [|e rows IH]; intros seq prev prev'; cbn [check_segment linked]; [done|].
  intros (-> & Hp & Hi & Hl) Hor. rewrite N.eqb_refl, Hi.
  assert (negb (bool_decide (en_prev_hash e = prev')) && negb (seq =? from)%N = false) as ->.
  { destruct Hor as [-> | ->]; [by rewrite N.eqb_refl, andb_false_r|]. by rewrite bool_decide_eq_true_2. }
  cbn [app]. apply (IH _ _ _ Hl). by right.
Qed.

Lemma segment_path_eq dir name :
  path_join (path_join dir RETIRED_DIR) name = path_join dir (path_join RETIRED_DIR name).
Proof. unfold path_join. by rewrite !string_app_assoc. Qed.

Lemma segment_path_apart dir name :
  path_join dir (path_join RETIRED_DIR name) ≠ path_join dir CHAIN_FILE ∧
  path_join dir (path_join RETIRED_DIR name) ≠ path_join dir RETIRED_FILE ∧
  path_join dir (path_join RETIRED_DIR name) ≠ path_join dir ANCHOR_FILE.
Proof. repeat split; intros Heq%path_join_inj; discriminate Heq. Qed.

(** A checkpoint stays attested when the rows up to [upto] leave. *)
Lemma attested_retired rows retired old live newest ret cp p :
  linked (boundary retired + 1) p rows → is_u64 (boundary retired + 1 + len rows) → rows = old ++ live →
  last old = Some newest → (boundary retired + 1 ≤ en_seq newest)%N →
  (∀ e, e ∈ old → (en_seq e ≤ en_seq newest)%N) →
  rt_to ret = en_seq newest → rt_last_row_hash ret = en_row_hash newest →
  attested rows retired cp → attested live (Some ret) cp.
Proof.
  intros Hl Hu -> Hlast Hge Hold Hto Hhash Ha. unfold attested. cbn [boundary]. rewrite Hto.
  assert (∀ e, find (λ e, en_seq e =? cp_seq cp)%N (old ++ live) = Some e → en_row_hash e = cp_row_hash cp →
    (cp_seq cp < en_seq newest)%N ∨
    (∃ r, Some ret = Some r ∧ cp_seq cp = rt_to r ∧ rt_last_row_hash r = cp_row_hash cp) ∨
    ((en_seq newest < cp_seq cp)%N ∧ ∃ e, find (λ e, en_seq e =? cp_seq cp)%N live = Some e ∧ en_row_hash e = cp_row_hash cp)) as Hfind.
  { intros e Hf He. pose proof (find_some _ _ Hf) as [_ Hs%N.eqb_eq].
    destruct (N.lt_trichotomy (cp_seq cp) (en_seq newest)) as [|[Heq|Hgt]]; [by left| |].
    - right; left. exists ret. split; [done|]. split; [by rewrite Hto|]. rewrite Hhash.
      rewrite <-He. f_equal. assert (newest ∈ old ++ live) as Hin.
      { apply elem_of_app. left. by apply last_Some_elem_of. }
      pose proof (find_seq _ _ _ _ Hl Hu Hin) as Hf'. rewrite <-Heq in Hf'. congruence.
    - right; right. split; [done|]. exists e. split; [|done].
      clear -Hf Hold Hgt. induction old as [|x old IH]; [done|]. simpl in Hf.
      destruct (N.eqb_spec (en_seq x) (cp_seq cp)) as [Hx|Hx].
      + assert (en_seq x ≤ en_seq newest)%N by (apply Hold; set_solver). lia.
      + apply IH; [|done]. intros y Hy. apply Hold. set_solver. }
  destruct Ha as [Ha|[(r & -> & Ha & Hr)|[_ (e & Hf & He)]]].
  - left. lia.
  - left. cbn [boundary] in *. lia.
  - by apply (Hfind e).
Qed.

(** The disk after the segment and the tombstone are written. *)
Lemma retire_disk d dir upto horizon pem now w from old live newest cp :
  retirement_plan d dir upto horizon pem = Ok (from, old, live, newest, cp) →
  let ret := tombstone from upto old newest cp now in
  let d' := (retire_segment d dir upto horizon pem now (mkRetireIo Stored Stored w)).1 in
  let res := (retire_segment d dir upto horizon pem now (mkRetireIo Stored Stored w)).2 in
  read_retirement d' dir = Ok (Some ret) ∧
  d' !! path_join dir (rt_segment_file ret) = Some (rows_text old) ∧
  anchor_lines d' dir = anchor_lines d dir ∧
  (w = Stored → d' !! path_join dir CHAIN_FILE = Some (rows_text live) ∧
     ∃ path, res = Ok (mkRetirementOutcome ret (len live) path)) ∧
  (w = Untouched → d' !! path_join dir CHAIN_FILE = d !! path_join dir CHAIN_FILE ∧ res = Err CHAIN_APPEND_FAILED).
Proof.
  intros Hplan ret. unfold retire_segment. rewrite Hplan. cbn [file_write ri_segment ri_tombstone ri_survivors].
  cbv zeta. fold ret. rewrite segment_path_eq.
  change (path_join RETIRED_DIR (segment_name from upto)) with (rt_segment_file ret).
  destruct (segment_path_apart dir (segment_name from upto)) as (Hsc & Hsr & Hsa).
  change (path_join RETIRED_DIR (segment_name from upto)) with (rt_segment_file ret) in Hsc, Hsr, Hsa.
  destruct (file_names_apart dir) as (Hac & Har & Hcr).
  set (d2 := <[path_join dir RETIRED_FILE := retirement_to_string ret +:+ LFs]>
               (<[path_join dir (rt_segment_file ret) := rows_text old]> d)).
  assert (Hdone : ∀ d', (∀ path, path ≠ path_join dir CHAIN_FILE → d' !! path = d2 !! path) →
    read_retirement d' dir = Ok (Some ret) ∧ d' !! path_join dir (rt_segment_file ret) = Some (rows_text old) ∧
    anchor_lines d' dir = anchor_lines d dir).
  { intros d' Hd. unfold read_retirement, anchor_lines. rewrite !Hd by (done || by apply not_eq_sym).
    unfold d2. rewrite lookup_insert_eq, retirement_roundtrip.
    rewrite (lookup_insert_ne _ (path_join dir RETIRED_FILE) (path_join dir (rt_segment_file ret))) by (by apply not_eq_sym).
    rewrite lookup_insert_eq.
    rewrite (lookup_insert_ne _ (path_join dir RETIRED_FILE) (path_join dir ANCHOR_FILE)) by (by apply not_eq_sym).
    by rewrite (lookup_insert_ne _ (path_join dir (rt_segment_file ret)) (path_join dir ANCHOR_FILE)) by done. }
  destruct w as [| |prefix]; cbn [file_write fst snd].
  - destruct (Hdone (<[path_join dir CHAIN_FILE := rows_text live]> d2)) as (? & ? & ?);
      [intros path Hne; by rewrite lookup_insert_ne by (by apply not_eq_sym)|].
    do 3 (split; [done|]). split; [|done]. intros _. rewrite lookup_insert_eq. split; [done|]. eexists. done.
  - destruct (Hdone d2) as (? & ? & ?); [done|]. do 3 (split; [done|]). split; [done|].
    intros _. split; [|done]. unfold d2. rewrite lookup_insert_ne by (by apply not_eq_sym). by rewrite lookup_insert_ne.
  - destruct (Hdone (<[path_join dir CHAIN_FILE := prefix]> d2)) as (? & ? & ?);
      [intros path Hne; by rewrite lookup_insert_ne by (by apply not_eq_sym)|]. done.
Qed.

Lemma retired_segment_verifies d dir r rows :
  read_retirement d dir = Ok (Some r) → d !! path_join dir (rt_segment_file r) = Some (rows_text rows) →
  Forall entry_wf rows → rt_segment_digest r = "sha256:" +:+ sha256_hex (rows_text rows) →
  (∃ prev, linked (rt_from r) prev rows) → en_row_hash <$> last rows = Some (rt_last_row_hash r) →
  verify_retired_segment d dir = Ok [].
Proof.
  intros Hr Hseg Hwf Hdig [prev Hl] Hlast. unfold verify_retired_segment. rewrite Hr. cbn [result_bind].
  rewrite Hseg, parse_rows_text by done. cbn [result_bind].
  rewrite bool_decide_eq_true_2 by done. rewrite (check_segment_linked _ _ prev) by (done || by left).
  by rewrite bool_decide_eq_true_2.
Qed.
End Retiring.

(** ** Properties of retirement *)

Section RetirementProperties.
Context `{ChainSerdeLaws, SerdeJson, Sha256, Jose, SerdeParse}.

(** Retirement loses nothing and proves what it moved.  When it succeeds, the rows were
    split at the sequence asked for; every row that left is older than the horizon and the
    head stayed; the archive holds exactly the rows that left and verifies against the
    tombstone; and the live chain, under the same anchor key, still verifies as intact. *)
Theorem retirement_keeps_evidence d dir upto horizon pem now d' out rows retired :
  retire_segment d dir upto horizon pem now retire_ok = (d', Ok out) →
  read_entries d (path_join dir CHAIN_FILE) = Ok rows → read_retirement d dir = Ok retired →
  is_u64 (boundary retired + 1 + len rows) →
  ∃ old live, rows = old ++ live ∧ live ≠ [] ∧
    (∀ e, e ∈ old → (en_seq e ≤ upto)%N ∧ (en_ts e < horizon)%N) ∧ (∀ e, e ∈ live → (upto < en_seq e)%N) ∧
    read_entries d' (path_join dir CHAIN_FILE) = Ok live ∧
    read_entries d' (path_join dir (rt_segment_file (ro_retirement out))) = Ok old ∧
    verify_retired_segment d' dir = Ok [] ∧
    ∃ r, Chain_verify d' dir (Some pem) = Ok r ∧ report_is_intact r = true ∧ crp_retired_through r = upto ∧
      crp_head_seq r = head_seq rows.
Proof.
  intros Hrun Hrows Hret Hu.
  destruct (retirement_plan d dir upto horizon pem) as [[[[[from old] live] newest] cp]|] eqn:Hplan;
    [|unfold retire_segment in Hrun; by rewrite Hplan in Hrun].
  destruct (plan_ok _ _ _ _ _ _ _ _ _ _ _ _ Hplan Hrows Hret Hu)
    as ((Hlink & Hclaims & key & Hk & Hatt) & -> & Hfrom & Happ & Hne & Hold & Hlive & Hlast & Hnew & _ & Hsigned).
  destruct (retire_disk _ _ _ _ _ now Stored _ _ _ _ _ Hplan) as (Hret' & Hseg & Hanc & Hst & _).
  set (ret := tombstone _ _ _ _ _ _) in *. fold retire_ok in *. rewrite Hrun in *. cbn [fst snd] in *.
  destruct (Hst eq_refl) as (Hchain & path & [= ->]). clear Hst.
  pose proof (read_entries_wf _ _ _ Hrows) as Hwf. rewrite Happ, Forall_app in Hwf. destruct Hwf as [Hwfo Hwfl].
  assert (Hstart : linked (boundary retired + 1) (chain_start retired).2 rows).
  { rewrite chain_start_origin in Hlink |- *. cbn [fst snd] in *.
    assert (u64_add (origin retired).1 1 = (boundary retired + 1)%N) as <-; [|done].
    destruct retired as [r|]; [|done]. apply u64_add_small. cbn [boundary origin fst] in *. unfold is_u64 in *. lia. }
  pose proof Hstart as Hparts. rewrite Happ in Hparts. apply linked_app in Hparts as [Hlo Hll]. rewrite Hlast in Hll.
  exists old, live. do 4 (split; [done|]).
  assert (read_entries d' (path_join dir CHAIN_FILE) = Ok live) as Hlive'
    by (unfold read_entries; rewrite Hchain; by apply parse_rows_text).
  split; [done|]. split; [unfold read_entries; cbn [ro_retirement]; rewrite Hseg; by apply parse_rows_text|].
  split.
  { eapply (retired_segment_verifies _ _ ret old); [done|done|done|done|by eexists|].
    rewrite Hlast. done. }
  destruct (verify_returns d' dir pem key live (Some ret) Hlive' Hret' Hk) as (r & Hr & _).
  { rewrite Hanc. by apply Hsigned. }
  exists r. split; [done|].
  destruct (verify_spec _ _ _ _ Hr) as (live' & ret' & Hl' & Hr' & Hhead & Hthrough & _ & Hiff).
  replace live' with live in * by congruence. replace ret' with (Some ret) in * by congruence.
  assert (head_seq live = head_seq rows) as Hheads.
  { unfold head_seq. rewrite Happ, last_app. destruct (last live) eqn:E; [done|]. by apply last_None in E. }
  split; [|by rewrite Hthrough, Hhead]. apply Hiff. split; [|split].
  - cbn [chain_start fst snd]. cbn [ret tombstone rt_to rt_last_row_hash]. by rewrite <-Hnew.
  - rewrite Hanc, Hheads. done.
  - exists key. split; [done|]. rewrite Hanc. intros line cp' Hl Hs.
    eapply attested_retired; [exact Hstart|done|exact Happ|exact Hlast|by rewrite Hnew| | | |by eapply Hatt].
    + intros e He. rewrite Hnew. by apply Hold.
    + by rewrite Hnew.
    + done.
Qed.

(** A retirement interrupted between the tombstone and the survivors breaks the chain.
    The tombstone then says the rows up to [upto] are gone while the file still begins with
    them, so the directory stops verifying and no later retirement is accepted. *)
Theorem retirement_crash_breaks_chain d dir upto horizon pem now out rows retired :
  retirement_plan d dir upto horizon pem = Ok out →
  read_entries d (path_join dir CHAIN_FILE) = Ok rows → read_retirement d dir = Ok retired →
  is_u64 (boundary retired + 1 + len rows) →
  let '(d', res) := retire_segment d dir upto horizon pem now (mkRetireIo Stored Stored Untouched) in
  res = Err CHAIN_APPEND_FAILED ∧
  (∃ r, Chain_verify d' dir (Some pem) = Ok r ∧ report_is_intact r = false) ∧
  ∀ upto' horizon' now' io, (retire_segment d' dir upto' horizon' pem now' io).2 = Err CHAIN_BROKEN.
Proof.
  destruct out as [[[[from old] live] newest] cp]. intros Hplan Hrows Hret Hu.
  destruct (plan_ok _ _ _ _ _ _ _ _ _ _ _ _ Hplan Hrows Hret Hu)
    as ((Hlink & Hclaims & key & Hk & Hatt) & -> & Hfrom & Happ & Hne & Hold & Hlive & Hlast & Hnew & _ & Hsigned).
  destruct (retire_disk _ _ _ _ _ now Untouched _ _ _ _ _ Hplan) as (Hret' & Hseg & Hanc & _ & Hun).
  set (ret := tombstone _ _ _ _ _ _) in *.
  destruct (retire_segment _ _ _ _ _ _ _) as [d' res]. cbn [fst snd] in *.
  destruct (Hun eq_refl) as [Hchain ->]. split; [done|].
  assert (read_entries d' (path_join dir CHAIN_FILE) = Ok rows) as Hrows' by (unfold read_entries in *; by rewrite Hchain).
  destruct (verify_returns d' dir pem key rows (Some ret) Hrows' Hret' Hk) as (r & Hr & _).
  { rewrite Hanc. by apply Hsigned. }
  assert (report_is_intact r = false) as Hbad.
  { destruct (verify_spec _ _ _ _ Hr) as (rows' & ret' & Hl' & Hr' & _ & _ & _ & Hiff).
    replace rows' with rows in * by congruence. replace ret' with (Some ret) in * by congruence.
    destruct (report_is_intact r); [|done]. destruct (proj1 Hiff eq_refl) as [Hbad _].
    destruct old as [|e old]; [done|]. subst rows. cbn [app linked] in Hbad.
    destruct Hbad as (Hseq & _). cbn [chain_start fst ret tombstone rt_to] in Hseq.
    assert (en_seq e ≤ upto)%N by (apply Hold; by left).
    assert (is_u64 upto) as Hup.
    { rewrite <-Hnew. pose proof (read_entries_wf _ _ _ Hrows) as Hwf. rewrite Forall_forall in Hwf.
      apply Hwf, elem_of_app. left. by apply last_Some_elem_of. }
    destruct (decide (upto = u64_max)) as [->|Hmax].
    - assert (en_seq e = 0)%N as He by (rewrite Hseq; by vm_compute).
      destruct Hlink as (He' & _). rewrite chain_start_origin in He'. cbn [fst] in He'.
      assert (u64_add (origin retired).1 1 = (boundary retired + 1)%N) as Hs.
      { destruct retired as [x|]; [|done]. apply u64_add_small. cbn [boundary origin fst] in *. unfold is_u64 in *. lia. }
      lia.
    - rewrite u64_add_small in Hseq by (unfold is_u64 in *; lia). lia. }
  split; [eauto|]. intros upto' horizon' now' io. unfold retire_segment.
  assert (retirement_plan d' dir upto' horizon' pem = Err CHAIN_BROKEN) as ->; [|done].
  unfold retirement_plan. rewrite Hr. cbn [result_bind]. by rewrite Hbad.
Qed.
End RetirementProperties.

(** ** A flush that fails *)

Section SyncFailure.
Context `{ChainSerdeLaws, SerdeJson, Sha256, Jose, SerdeParse}.

Definition unsynced : ChainIo := mkChainIo (mkAppendIo true Written false) append_ok.

Lemma verify_returns_keyless d dir rows retired :
  read_entries d (path_join dir CHAIN_FILE) = Ok rows → read_retirement d dir = Ok retired →
  ∃ r, Chain_verify d dir None = Ok r.
Proof.
  intros Hr Hret. unfold Chain_verify. rewrite Hr, Hret. cbn [result_bind].
  destruct (chain_start retired), (check_rows _ _ _ _ _). destruct (last rows); cbn zeta beta iota; case_match; eauto.
Qed.

Lemma u64_add_1_ne n : u64_add n 1 ≠ n.
Proof.
  unfold u64_add. destruct (decide (n + 1 < u64_max + 1)%N) as [Hlt|Hge]; [rewrite N.mod_small by lia; lia|].
  pose proof (N.mod_upper_bound (n + 1) (u64_max + 1) ltac:(done)).
  destruct (decide (n = u64_max)) as [->|]; [by vm_compute|lia].
Qed.

(** A failed flush forks the chain.  The row is in the file when [sync_data] fails, but
    the append reports failure and keeps the old head, so the next append writes a second row
    with the same number and the same predecessor, and verification calls the chain broken
    from then on, though nobody tampered with it. *)
Theorem failed_sync_forks_chain c rows draft now draft' now' :
  chain_holds c rows → ch_anchor c = None →
  is_u64 now → value_wf (ed_detail draft) = true → is_u64 now' → value_wf (ed_detail draft') = true →
  let '(c1, res) := append c draft now unsynced in
  let '(c2, res') := append c1 draft' now' chain_ok in
  res = Err CHAIN_APPEND_FAILED ∧ is_ok res' = true ∧
  (∃ e e', read_entries (ch_disk c2) (path_join (ch_dir c) CHAIN_FILE) = Ok (rows ++ [e; e']) ∧
     drafted e = (draft, now) ∧ drafted e' = (draft', now') ∧ en_seq e' = en_seq e ∧ en_prev_hash e' = en_prev_hash e) ∧
  ∃ r, Chain_verify (ch_disk c2) (ch_dir c) None = Ok r ∧ report_is_intact r = false.
Proof.
  intros Hc Hanc Hn Hd Hn' Hd'. unfold append. cbn [ci_chain unsynced chain_ok append_ok ap_write ap_sync].
  unfold append_line at 1. cbn [ap_open ap_write ap_sync negb]. cbv zeta.
  set (e := next_entry c draft now). set (d1 := file_append _ _ _).
  change (ch_anchor (with_disk c d1)) with (ch_anchor c).
  assert (next_entry (with_disk c d1) draft' now' = next_entry c draft' now') as Hnext by done.
  rewrite Hnext. set (e' := next_entry c draft' now').
  unfold append_line. cbn [ap_open ap_write ap_sync negb ch_anchor]. cbv zeta. rewrite Hanc.
  set (d2 := file_append _ _ _). cbn [ch_disk]. split; [done|]. split; [done|].
  destruct Hc as (Htext & Hwf & ret & Hret & Hlink & Hhead).
  assert (entry_wf e ∧ entry_wf e') as [He He'] by (split; by apply next_entry_wf).
  assert (drafted e = (draft, now) ∧ drafted e' = (draft', now')) as [Hdr Hdr'] by (by destruct draft, draft').
  assert (en_seq e' = en_seq e ∧ en_prev_hash e' = en_prev_hash e) as [Hsame Hprev]
    by (unfold e, e'; rewrite !next_entry_seq, !next_entry_prev; done).
  clearbody e e'.
  assert (d2 !! chain_path c = Some (rows_text (rows ++ [e; e']))) as Hd2.
  { unfold d2. change (chain_path (with_disk c d1)) with (chain_path c). rewrite file_append_same.
    cbn [with_disk ch_disk]. unfold d1. rewrite file_append_same, Htext. cbn [default from_option id].
    rewrite rows_text_snoc. cbn [default from_option id]. rewrite rows_text_snoc. by rewrite <-app_assoc. }
  assert (read_entries d2 (path_join (ch_dir c) CHAIN_FILE) = Ok (rows ++ [e; e'])) as Hread.
  { unfold read_entries. unfold chain_path in Hd2. rewrite Hd2. apply parse_rows_text.
    apply Forall_app. split; [done|]. constructor; [done|]. by constructor. }
  split.
  { by exists e, e'. }
  assert (read_retirement d2 (ch_dir c) = Ok ret) as Hret2.
  { unfold read_retirement in *. destruct (file_names_apart (ch_dir c)) as (_ & _ & Hcr).
    unfold d2, d1. rewrite file_append_other by done. cbn [with_disk ch_disk].
    by rewrite file_append_other. }
  destruct (verify_returns_keyless _ _ _ _ Hread Hret2) as [r Hr]. exists r. split; [done|].
  destruct (verify_spec _ _ _ _ Hr) as (rows' & ret' & Hread' & Hret' & _ & _ & _ & Hiff).
  replace rows' with (rows ++ [e; e']) in * by congruence. destruct (report_is_intact r); [|done].
  destruct (proj1 Hiff eq_refl) as [Hbad _]. apply linked_app in Hbad as [_ Hbad].
  cbn [linked] in Hbad. destruct Hbad as (_ & _ & _ & Hseq & _).
  rewrite Hsame in Hseq. symmetry in Hseq. by apply u64_add_1_ne in Hseq.
Qed.
End SyncFailure.

(** ** A concrete chain

    Rows and tombstones printed through their code in [Countable], signatures of a constant
    signer over hexadecimal segments. *)

Module ChainExamples.
Import TestPrinter TestFramed.

(** A short digest keeps the example small: the length of the text. *)
#[export] Instance sha : Sha256 := λ s, pretty (str_len s).

#[export] Instance Value_countable : Countable Value := inj_countable' value_to_tree value_of_tree value_of_to_tree.

Definition entry_fields (e : Entry) :=
  ((en_seq e, en_ts e, en_kind e, en_cid e, en_contract_jti e, en_entities e, en_actor e),
   (en_decision e, en_reason e, en_policy_version e, en_detail e, en_prev_hash e, en_row_hash e, en_schema e)).
Definition print {A} `{Countable A} (a : A) : string := "{" +:+ bits (encode a).
Definition scan {A} `{Countable A} (s : string) : option A :=
  body ← strip_prefix "{" s; p ← unbits body; decode p.
Lemma scan_print {A} `{Countable A} (a : A) : scan (print a) = Some a.
Proof.
  unfold scan, print. assert (strip_prefix "{" ("{" +:+ bits (encode a)) = Some (bits (encode a))) as -> by done.
  simpl. rewrite unbits_bits. simpl. apply decode_encode.
Qed.

Definition wf_entry (e : Entry) : bool :=
  (en_seq e <=? u64_max)%N && (en_ts e <=? u64_max)%N && (en_schema e <=? u64_max)%N && value_wf (en_detail e).
Definition scan_entry (s : string) : option Entry :=
  match scan s with
  | Some ((a, b, c, d, e, f, g), (h, i, j, k, l, m, n)) =>
    let r := mkEntry a b c d e f g h i j k l m n in if wf_entry r then Some r else None
  | None => None
  end.
Definition scan_checkpoint (s : string) : option Checkpoint :=
  match scan s with Some (a, b, c) => Some (mkCheckpoint a b c) | None => None end.
Definition retirement_fields (r : Retirement) :=
  (rt_from r, rt_to r, rt_count r, rt_last_row_hash r, rt_anchor_seq r, rt_anchor_row_hash r, rt_segment_file r,
   rt_segment_digest r, rt_retired_at r, rt_newest_retired_ts r).
Definition scan_retirement (s : string) : option Retirement :=
  match file_lines s with
  | [l] => match scan l with
           | Some (a, b, c, d, e, f, g, h, i, j) => Some (mkRetirement a b c d e f g h i j)
           | None => None
           end
  | _ => None
  end.

#[export] Instance serde : ChainSerde := {|
  entry_to_string e := print (entry_fields e);
  entry_from_str := scan_entry;
  checkpoint_to_vec cp := print (cp_seq cp, cp_row_hash cp, cp_ts cp);
  checkpoint_from_value v := match v with VString s => scan_checkpoint s | _ => None end;
  checkpoint_from_slice := scan_checkpoint;
  retirement_to_string r := print (retirement_fields r);
  retirement_from_str := scan_retirement
|}.

Lemma print_one_line {A} `{Countable A} (a : A) : one_line (print a).
Proof.
  split; unfold no_byte, print; change (bytes ("{" +:+ ?x)) with (123%N :: bytes x);
    intros [Heq|Hin%bits_bytes]%elem_of_cons; [done|set_solver|done|set_solver].
Qed.

Lemma wf_entry_spec e : wf_entry e = true ↔ entry_wf e.
Proof. unfold wf_entry, entry_wf, is_u64. rewrite !andb_true_iff, !N.leb_le. tauto. Qed.

#[export] Instance serde_laws : ChainSerdeLaws.
Proof.
  split.
  - intros s e. unfold entry_from_str, serde, scan_entry. intros Hs. apply wf_entry_spec.
    repeat case_match; simplify_eq; done.
  - intros e He%wf_entry_spec. unfold entry_from_str, entry_to_string, serde, scan_entry.
    rewrite scan_print. unfold entry_fields. destruct e. cbn -[wf_entry]. by rewrite He.
  - intros e. apply print_one_line.
  - intros e. eexists. reflexivity.
  - intros r. unfold retirement_from_str, retirement_to_string, serde, scan_retirement.
    rewrite <-(string_app_nil_r (_ +:+ LFs)), string_app_assoc, file_lines_terminated by apply print_one_line.
    cbn [file_lines]. rewrite scan_print. by destruct r.
Qed.

#[export] Instance parse : SerdeParse := λ s, Some (VString s).
Definition sig : string := String.concat "" (replicate 64 "s").
Definition decode_jws (jws : string) : option Value := body ← split_on dot jws !! 1; raw ← TestJose.hex_decode body; Some (VString raw).
#[export] Instance jose : Jose := {|
  EncodingKey := unit;
  DecodingKey := unit;
  encoding_from_ec_pem _ := None;
  encoding_from_ed_pem _ := None;
  decoding_from_ec_pem pem := if bool_decide (pem = "pub") then Some tt else None;
  decoding_from_ed_pem _ := None;
  decoding_from_jwk _ := None;
  jwkset_from_str _ := None;
  crypto_sign _ _ _ := None;
  b64url_encode := TestSha.hex_encode;
  b64url_decode := TestJose.hex_decode;
  header_to_vec _ := "H";
  decode_header _ := None;
  payload_to_vec _ := "";
  payload_from_value _ := None;
  jwt_decode jws _ _ := decode_jws jws
|}.
Definition key : IssuerKey := mkIssuerKey ANCHOR_KID ES256 Local (λ _, Ok sig).

Definition pub : @DecodingKey jose := tt.

Lemma hex_one_line s : one_line (TestSha.hex_encode s).
Proof.
  split; intros Hin; apply (TestSha.sha_hex s) in Hin; done.
Qed.

Lemma key_signs : signs key pub.
Proof.
  intros cp. exists (compact (TestSha.hex_encode "H") (TestSha.hex_encode (checkpoint_to_vec cp)) (TestSha.hex_encode sig)).
  assert (split_on dot (compact (TestSha.hex_encode "H") (TestSha.hex_encode (checkpoint_to_vec cp)) (TestSha.hex_encode sig))
    = [TestSha.hex_encode "H"; TestSha.hex_encode (checkpoint_to_vec cp); TestSha.hex_encode sig]) as Hsplit.
  { apply split_compact; apply TestJose.hex_no_dot. }
  split; [done|]. split; [split; [|done]|split].
  - unfold compact, signing_input. assert (one_line ".") as Hdot by (split; intros Hin%list_elem_of_singleton; done).
    repeat apply one_line_app; first [exact Hdot|apply hex_one_line].
  - unfold claimed_checkpoint. rewrite Hsplit. cbn [lookup list_lookup mbind option_bind].
    cbn [b64url_decode jose]. rewrite TestJose.hex_roundtrip. cbn [mbind option_bind].
    cbn [checkpoint_from_slice checkpoint_to_vec serde]. unfold scan_checkpoint. rewrite scan_print. by destruct cp.
  - unfold signed_checkpoint. cbn [jwt_decode jose]. unfold decode_jws. rewrite Hsplit. cbn [lookup list_lookup mbind option_bind].
    rewrite TestJose.hex_roundtrip. cbn [mbind option_bind checkpoint_from_value checkpoint_to_vec serde].
    unfold scan_checkpoint. rewrite scan_print. by destruct cp.
Qed.

(** A run of three events, a checkpoint after the second. *)
Definition draft (kind : string) : EntryDraft := mkEntryDraft kind None None [] "pat" "record" "" "v1" VNull.
Definition drafts : list (EntryDraft * N) := [(draft "a", 10%N); (draft "b", 20%N); (draft "c", 30%N)].
Definition run : result (Chain * list Entry) := fresh_run ∅ "e" key 2 drafts.

Lemma fresh : fresh_start ∅ "e" drafts.
Proof.
  split; [done|]. split; [done|]. split; [done|]. split; [by vm_compute|].
  intros d now Hin. repeat (apply elem_of_cons in Hin as [[= -> ->]|Hin]; [by vm_compute|]). by apply not_elem_of_nil in Hin.
Qed.

Lemma chain_run_verifies_witness :
  ∃ c rows, run = Ok (c, rows) ∧ map drafted rows = drafts ∧
    ∃ r, Chain_verify (ch_disk c) "e" (Some "pub") = Ok r ∧ report_is_intact r = true.
Proof.
  destruct (chain_run_verifies ∅ "e" key pub "pub" 2 drafts key_signs eq_refl fresh)
    as (c & rows & Hrun & Hd & _ & _ & Hv & _).
  exists c, rows. split; [exact Hrun|]. split; [exact Hd|exact Hv].
Defined.

Lemma checkpoints_keep_coming_witness :
  ∃ c rows, run = Ok (c, rows) ∧
    (head_seq rows < highest_checkpoint_seq (ch_disk c) (path_join "e" ANCHOR_FILE) + 2)%N.
Proof.
  destruct (checkpoints_keep_coming ∅ "e" key pub 2 drafts key_signs fresh) as (c & rows & Hrun & _ & Hlt).
  exists c, rows. split; [exact Hrun|exact Hlt].
Defined.

Lemma run_holds : ∃ c rows r, run = Ok (c, rows) ∧ len rows = 3%N ∧ ch_dir c = "e" ∧
  read_retirement (ch_disk c) "e" = Ok None ∧ read_entries (ch_disk c) (path_join "e" CHAIN_FILE) = Ok rows ∧
  Chain_verify (ch_disk c) "e" (Some "pub") = Ok r ∧ report_is_intact r = true.
Proof.
  destruct (fresh_run_anchored ∅ "e" key pub 2 drafts key_signs fresh) as (c & rows & Hrun & Hc & Ha & Hd & He & Hanc & Hr).
  assert (len rows = 3%N) as Hlen by (unfold len; by rewrite <-(length_map drafted), Hd).
  pose proof (chain_holds_read _ _ Hc) as Hread. rewrite He in Hread.
  assert (is_u64 (1 + len rows)) as Hu by (rewrite Hlen; by vm_compute).
  assert (read_retirement (ch_disk c) (ch_dir c) = Ok None) as Hr' by (by rewrite He).
  destruct (anchored_verifies c rows pub _ "pub" Hc Ha Hanc key_signs eq_refl Hr' Hu) as (r & Hv & Hi & _).
  rewrite He in Hv. by exists c, rows, r.
Qed.

Lemma chain_tamper_evident_witness : ∃ d rows, read_entries d (path_join "e" CHAIN_FILE) = Ok rows ∧
  ((∀ k x x', k ≤ 2 → k ≤ 2 → rows !! (2 - k) = Some x → rows !! (2 - k) = Some x' → x = x') ∨ sha256_collision).
Proof.
  destruct run_holds as (c & rows & r & _ & Hlen & _ & _ & Hread & Hv & Hi).
  exists (ch_disk c), rows. split; [exact Hread|].
  destruct (rows !! 2) as [e|] eqn:E; [|destruct rows as [|? [|? [|]]]; simpl in E; discriminate].
  exact (chain_tamper_evident (ch_disk c) "e" (Some "pub") r (ch_disk c) "e" (Some "pub") r rows rows 2 2 e e
    Hv Hi Hv Hi Hread Hread E E eq_refl).
Defined.

Definition disk : Disk := match run with Ok (c, _) => ch_disk c | Err _ => ∅ end.
Definition retired_disk : Disk * result RetirementOutcome := retire_segment disk "e" 2 25 "pub" 40 retire_ok.

Lemma disk_read : ∃ rows, read_entries disk (path_join "e" CHAIN_FILE) = Ok rows ∧
  read_retirement disk "e" = Ok None ∧ is_u64 (0 + 1 + len rows).
Proof.
  destruct run_holds as (c & rows & _ & Hrun & Hlen & _ & Hr & Hread & _).
  exists rows. unfold disk. rewrite Hrun, Hlen. split; [done|]. split; [done|by vm_compute].
Qed.

Lemma retire_runs : is_ok retired_disk.2 = true.
Proof. vm_compute. reflexivity. Qed.

Lemma retirement_keeps_evidence_witness : ∃ d' out r, retired_disk = (d', Ok out) ∧
  verify_retired_segment d' "e" = Ok [] ∧
  Chain_verify d' "e" (Some "pub") = Ok r ∧ report_is_intact r = true ∧ crp_retired_through r = 2%N.
Proof.
  pose proof retire_runs as Hok. destruct retired_disk as [d' [out|c]] eqn:E; [|discriminate Hok].
  destruct disk_read as (rows & Hrows & Hret & Hu).
  destruct (retirement_keeps_evidence disk "e" 2 25 "pub" 40 d' out rows None E Hrows Hret Hu)
    as (old & live & _ & _ & _ & _ & _ & _ & Hseg & r & Hv & Hi & Hr & _).
  exists d', out, r. split; [reflexivity|]. split; [exact Hseg|]. split; [exact Hv|]. split; [exact Hi|exact Hr].
Defined.

Lemma plan_runs : is_ok (retirement_plan disk "e" 2 25 "pub") = true.
Proof. vm_compute. reflexivity. Qed.

Lemma retirement_crash_breaks_chain_witness : ∃ d',
  retire_segment disk "e" 2 25 "pub" 40 (mkRetireIo Stored Stored Untouched) = (d', Err CHAIN_APPEND_FAILED) ∧
  ∃ r, Chain_verify d' "e" (Some "pub") = Ok r ∧ report_is_intact r = false.
Proof.
  pose proof plan_runs as Hok.
  destruct (retirement_plan disk "e" 2 25 "pub") as [out|c] eqn:E; [|discriminate Hok].
  destruct disk_read as (rows & Hrows & Hret & Hu).
  pose proof (retirement_crash_breaks_chain disk "e" 2 25 "pub" 40 out rows None E Hrows Hret Hu) as Hthm.
  destruct (retire_segment disk "e" 2 25 "pub" 40 (mkRetireIo Stored Stored Untouched)) as [d' res].
  destruct Hthm as (-> & Hv & _). exists d'. split; [reflexivity|exact Hv].
Defined.

Lemma new_chain : ∃ c, Chain_open ∅ "e" = Ok c ∧ chain_holds c [] ∧ ch_anchor c = None.
Proof.
  destruct (open_holds ∅ "e" [] None) as (c & ? & ? & _ & ? & _); [done..|]. by exists c.
Qed.

Lemma failed_sync_forks_chain_witness : ∃ c0, Chain_open ∅ "e" = Ok c0 ∧
  let c1 := (append c0 (draft "a") 10 unsynced).1 in
  let c2 := (append c1 (draft "b") 20 chain_ok).1 in
  ∃ r, Chain_verify (ch_disk c2) (ch_dir c0) None = Ok r ∧ report_is_intact r = false.
Proof.
  destruct new_chain as (c0 & Hopen & Hc & Hanc). exists c0. split; [exact Hopen|].
  assert (is_u64 10 ∧ is_u64 20) as [Hten Htwenty] by (split; vm_compute; discriminate).
  pose proof (failed_sync_forks_chain c0 [] (draft "a") 10 (draft "b") 20 Hc Hanc Hten eq_refl Htwenty eq_refl) as Hthm.
  destruct (append c0 (draft "a") 10 unsynced) as [c1 res]. cbn [fst].
  destruct (append c1 (draft "b") 20 chain_ok) as [c2 res']. cbn [fst].
  destruct Hthm as (_ & _ & _ & Hv). exact Hv.
Defined.
Lemma chain_verify_exact_witness :
  ∃ d rows retired, len rows = 3%N ∧ verified_chain d "e" (Some "pub") rows retired.
Proof.
  destruct run_holds as (c & rows & r & _ & Hlen & Hd & _ & Hread & Hv & Hi).
  pose proof (chain_verify_exact (ch_disk c) "e" (Some "pub")) as Hx. rewrite Hv in Hx.
  destruct Hx as (rows' & retired & Hr & _ & _ & _ & _ & Hiff). rewrite Hread in Hr. injection Hr as <-.
  exists (ch_disk c), rows, retired. split; [exact Hlen|]. by apply Hiff.
Defined.

End ChainExamples.
