(* ===== verification/Evidence.v ===== *)
(** * Evidence: lifecycle events, their sinks and the order they are recorded in
    ([crates/wc-control/src/evidence.rs], the filter of [sink.rs])

    A sink is a destination outside the program: whether a delivery succeeds is an answer in
    the [EvidenceIo] of the call, by the sink's position.  What the rest of the control plane
    relies on of this component is the interface [EvidenceLog], implemented at the end. *)

From stdpp Require Import pretty.
From S2P Require Import Prelude Text Errors Model Zone Json Canon Contract Artifact Log Store Std Chain.

(** ** Event kinds *)

Inductive EventKind :=
| EkRegister | EkAdmit | EkAdmissionDenied | EkDiscover | EkRequest | EkApprove | EkContractDenied
| EkMint | EkRenew | EkRevoke | EkSuspend | EkDriftBenign | EkDriftMaterial | EkRepin | EkReattest
| EkQuarantine | EkQuarantineCleared | EkMediatorAck | EkMediatorUnconfirmed | EkExport | EkBreakGlass
| EkBreakGlassKeyUsed.
#[global] Instance EventKind_eq_dec : EqDecision EventKind.
Proof. solve_decision. Defined.

Definition kind_as_str (k : EventKind) : string :=
  match k with
  | EkRegister => "entity.register"
  | EkAdmit => "entity.admit"
  | EkAdmissionDenied => "entity.admission_denied"
  | EkDiscover => "discovery.query"
  | EkRequest => "contract.request"
  | EkApprove => "contract.approve"
  | EkContractDenied => "contract.deny"
  | EkMint => "contract.mint"
  | EkRenew => "contract.renew"
  | EkRevoke => "contract.revoke"
  | EkSuspend => "contract.suspend"
  | EkDriftBenign => "posture.drift_benign"
  | EkDriftMaterial => "posture.drift_material"
  | EkRepin => "entity.repin"
  | EkReattest => "posture.reattest"
  | EkQuarantine => "quarantine.order"
  | EkQuarantineCleared => "quarantine.cleared"
  | EkMediatorAck => "mediator.ack"
  | EkMediatorUnconfirmed => "mediator.unconfirmed"
  | EkExport => "evidence.export"
  | EkBreakGlass => "contract.breakglass"
  | EkBreakGlassKeyUsed => "containment.breakglass_key"
  end.

Definition ocsf_class (k : EventKind) : N :=
  match k with
  | EkRegister | EkAdmit | EkMint | EkRenew | EkRepin | EkReattest => 3004
  | EkAdmissionDenied | EkDriftBenign | EkDriftMaterial | EkQuarantine | EkRevoke | EkSuspend => 2004
  | EkApprove | EkContractDenied | EkQuarantineCleared => 3001
  | EkDiscover | EkRequest | EkExport => 6003
  | EkMediatorAck | EkMediatorUnconfirmed | EkBreakGlass => 6002
  | EkBreakGlassKeyUsed => 3001
  end.

(** The order of the derived [Ord] is the order of the constructors. *)
Inductive EventSeverity := SevInformational | SevLow | SevMedium | SevHigh | SevCritical.
Definition ocsf_id (s : EventSeverity) : N :=
  match s with SevInformational => 1 | SevLow => 2 | SevMedium => 3 | SevHigh => 4 | SevCritical => 5 end.

Definition kind_severity (k : EventKind) : EventSeverity :=
  match k with
  | EkQuarantine | EkBreakGlassKeyUsed => SevCritical
  | EkDriftMaterial | EkMediatorUnconfirmed | EkBreakGlass | EkRevoke => SevHigh
  | EkAdmissionDenied | EkContractDenied | EkSuspend => SevMedium
  | EkApprove | EkQuarantineCleared | EkDriftBenign | EkMediatorAck => SevLow
  | _ => SevInformational
  end.

Definition kind_is_denial (k : EventKind) : bool :=
  match k with EkAdmissionDenied | EkContractDenied => true | _ => false end.

Definition kind_is_containment (k : EventKind) : bool :=
  match k with EkRevoke | EkQuarantine | EkQuarantineCleared | EkBreakGlassKeyUsed => true | _ => false end.

Definition caep_event_uri (k : EventKind) : option string :=
  match k with
  | EkQuarantine | EkRevoke => Some "https://schemas.openid.net/secevent/caep/event-type/session-revoked"
  | EkDriftMaterial => Some "https://schemas.openid.net/secevent/caep/event-type/credential-change"
  | _ => None
  end.

(** ** Events *)

Record LifecycleEvent := mkLifecycleEvent {
  le_kind : EventKind;
  le_cid : option string;
  le_contract_jti : option string;
  le_entities : list string;
  le_actor : string;
  le_decision : string;
  le_reason : string;
  le_policy_version : string;
  le_detail : Value;
  le_severity : option EventSeverity
}.

Definition LifecycleEvent_new (kind : EventKind) (actor : string) : LifecycleEvent :=
  mkLifecycleEvent kind None None [] actor (if kind_is_denial kind then "deny" else "record") "" "" VNull None.
Definition with_cid (e : LifecycleEvent) (cid : string) : LifecycleEvent :=
  mkLifecycleEvent (le_kind e) (Some cid) (le_contract_jti e) (le_entities e) (le_actor e) (le_decision e)
    (le_reason e) (le_policy_version e) (le_detail e) (le_severity e).
Definition with_contract_jti (e : LifecycleEvent) (jti : string) : LifecycleEvent :=
  mkLifecycleEvent (le_kind e) (le_cid e) (Some jti) (le_entities e) (le_actor e) (le_decision e)
    (le_reason e) (le_policy_version e) (le_detail e) (le_severity e).
Definition naming_entities (e : LifecycleEvent) (entities : list string) : LifecycleEvent :=
  mkLifecycleEvent (le_kind e) (le_cid e) (le_contract_jti e) entities (le_actor e) (le_decision e)
    (le_reason e) (le_policy_version e) (le_detail e) (le_severity e).
Definition with_reason (e : LifecycleEvent) (reason : string) : LifecycleEvent :=
  mkLifecycleEvent (le_kind e) (le_cid e) (le_contract_jti e) (le_entities e) (le_actor e) (le_decision e)
    reason (le_policy_version e) (le_detail e) (le_severity e).
Definition with_policy_version (e : LifecycleEvent) (version : string) : LifecycleEvent :=
  mkLifecycleEvent (le_kind e) (le_cid e) (le_contract_jti e) (le_entities e) (le_actor e) (le_decision e)
    (le_reason e) version (le_detail e) (le_severity e).
Definition with_detail (e : LifecycleEvent) (detail : Value) : LifecycleEvent :=
  mkLifecycleEvent (le_kind e) (le_cid e) (le_contract_jti e) (le_entities e) (le_actor e) (le_decision e)
    (le_reason e) (le_policy_version e) detail (le_severity e).
Definition with_severity (e : LifecycleEvent) (severity : EventSeverity) : LifecycleEvent :=
  mkLifecycleEvent (le_kind e) (le_cid e) (le_contract_jti e) (le_entities e) (le_actor e) (le_decision e)
    (le_reason e) (le_policy_version e) (le_detail e) (Some severity).

Definition event_severity (e : LifecycleEvent) : EventSeverity := default (kind_severity (le_kind e)) (le_severity e).
Definition event_is_denial (e : LifecycleEvent) : bool :=
  kind_is_denial (le_kind e) || bool_decide (le_decision e = "deny").
Definition event_is_containment (e : LifecycleEvent) : bool := kind_is_containment (le_kind e).

Definition to_draft (e : LifecycleEvent) : EntryDraft :=
  mkEntryDraft (kind_as_str (le_kind e)) (le_cid e) (le_contract_jti e) (le_entities e) (le_actor e)
    (le_decision e) (le_reason e) (le_policy_version e) (le_detail e).

Definition num (n : N) : Value := VNumber (PosInt n).

Definition to_ocsf (e : LifecycleEvent) (now : N) : Value :=
  json_object
    [("class_uid", num (ocsf_class (le_kind e)));
     ("category_uid", num 3);
     ("activity_id", num 1);
     ("type_uid", num (ocsf_class (le_kind e) * 100 + 1));
     ("time", num now);
     ("severity_id", num (ocsf_id (event_severity e)));
     ("message", VString (if bool_decide (le_reason e = "") then kind_as_str (le_kind e) else le_reason e));
     ("metadata", json_object
        [("product", json_object [("name", VString "warden-connect"); ("vendor_name", VString "warden")]);
         ("version", VString "1.1.0"); ("event_code", VString (kind_as_str (le_kind e)))]);
     ("actor", json_object [("user", json_object [("uid", VString (le_actor e))])]);
     ("status", VString (if event_is_denial e then "Failure" else "Success"));
     ("unmapped", json_object
        [("cid", opt_value (le_cid e)); ("contract_jti", opt_value (le_contract_jti e));
         ("entities", strings_value (le_entities e)); ("decision", VString (le_decision e));
         ("policy_version", VString (le_policy_version e)); ("detail", le_detail e)])].

Definition to_caep `{Sha256} (e : LifecycleEvent) (now : N) : Value :=
  let uri := default "https://warden.dev/secevent/connect/lifecycle" (caep_event_uri (le_kind e)) in
  let subject := default (le_actor e) (head (le_entities e)) in
  json_object
    [("iss", VString "https://connect.internal");
     ("iat", num now);
     ("jti", VString ("set_" +:+ String.substring 0 16 (sha256_hex (kind_as_str (le_kind e) +:+ subject +:+ pretty now))));
     ("aud", VString "shared-signals");
     ("sub_id", json_object [("format", VString "uri"); ("uri", VString subject)]);
     ("events", json_object
        [(uri, json_object
           [("event_timestamp", num now);
            ("reason_admin", json_object [("en", VString (le_reason e))]);
            ("initiating_entity", VString "policy");
            ("warden_connect", json_object
               [("kind", VString (kind_as_str (le_kind e))); ("cid", opt_value (le_cid e));
                ("entities", strings_value (le_entities e))])])])].

(** ** Sinks *)

Inductive Filter := FilterAll | FilterDeny | FilterHighRisk | FilterRevocation.
Inductive Delivery := FailSafe | Blocking.
#[global] Instance Delivery_eq_dec : EqDecision Delivery.
Proof. solve_decision. Defined.

(** [Sink::accepts]. *)
Definition filter_accepts (f : Filter) (event : LifecycleEvent) : bool :=
  match f with
  | FilterAll => true
  | FilterDeny => event_is_denial event
  | FilterHighRisk => (ocsf_id SevHigh <=? ocsf_id (event_severity event))%N
  | FilterRevocation => event_is_containment event
  end.

(** [dyn EventSink]: everything but [ship], whose outcome is an answer. *)
Record EventSink := mkEventSink {
  sk_name : string;
  sk_accepts : LifecycleEvent → bool;
  sk_delivery : Delivery
}.
Definition sink (name : string) (filter : Filter) (delivery : Delivery) : EventSink :=
  mkEventSink name (filter_accepts filter) delivery.

(** ** Recording *)

Record Recorded := mkRecorded {
  rd_seq : N;
  rd_row_hash : string;
  rd_shipped : list string;
  rd_warnings : list string          (* the names of the fail-safe sinks that failed *)
}.

(** What recording did outside its own memory, in order. *)
Inductive Effect := Shipped (name : string) | Refused (name : string) | Appended (draft : EntryDraft) (ok : bool).

Record Evidence := mkEvidence {
  ev_chain : Chain;
  ev_sinks : list EventSink;
  ev_effects : list Effect
}.

Record EvidenceIo := mkEvidenceIo { eio_ship : nat → bool; eio_chain : ChainIo }.

Definition has_blocking_sinks (ev : Evidence) : bool :=
  existsb (λ s, bool_decide (sk_delivery s = Blocking)) (ev_sinks ev).

(** The sinks of one delivery that want the event, with their positions. *)
Definition wanting (ev : Evidence) (d : Delivery) (event : LifecycleEvent) : list (nat * EventSink) :=
  filterb (λ s, sk_accepts s.2 event)
    (filterb (λ s, bool_decide (sk_delivery s.2 = d)) (imap pair (ev_sinks ev))).

(** The first loop: it stops at the first sink that refuses. *)
Fixpoint ship_blocking (ship : nat → bool) (sinks : list (nat * EventSink)) (shipped : list string)
    : list Effect * result (list string) :=
  match sinks with
  | [] => ([], Ok shipped)
  | (i, s) :: rest =>
    if ship i then
      let '(effects, r) := ship_blocking ship rest (shipped ++ [sk_name s]) in
      (Shipped (sk_name s) :: effects, r)
    else ([Refused (sk_name s)], Err BLOCKING_SINK_UNAVAILABLE)
  end.

(** The second loop: a refusal is a warning. *)
Definition ship_fail_safe (ship : nat → bool) (sinks : list (nat * EventSink)) (shipped : list string)
    : list Effect * list string * list string :=
  foldl (λ acc s,
    let '(effects, shipped, warnings) := acc in
    if ship s.1
    then (effects ++ [Shipped (sk_name s.2)], shipped ++ [sk_name s.2], warnings)
    else (effects ++ [Refused (sk_name s.2)], shipped, warnings ++ [sk_name s.2]))
    ([], shipped, []) sinks.

Section Recording.
Context `{ChainSerde, SerdeJson, Sha256, Jose, SerdeParse}.

Definition evidence_record (ev : Evidence) (event : LifecycleEvent) (now : N) (io : EvidenceIo)
    : Evidence * result Recorded :=
  (* 1: blocking sinks, before anything is committed *)
  let '(effects, r) := ship_blocking (eio_ship io) (wanting ev Blocking event) [] in
  match r with
  | Err e => (mkEvidence (ev_chain ev) (ev_sinks ev) (ev_effects ev ++ effects), Err e)
  | Ok shipped =>
    (* 2: the authoritative record *)
    let '(chain, r) := append (ev_chain ev) (to_draft event) now (eio_chain io) in
    let effects := effects ++ [Appended (to_draft event) (is_ok r)] in
    match r with
    | Err e => (mkEvidence chain (ev_sinks ev) (ev_effects ev ++ effects), Err e)
    | Ok entry =>
      (* 3: fail-safe sinks *)
      let '(late, shipped, warnings) := ship_fail_safe (eio_ship io) (wanting ev FailSafe event) shipped in
      (mkEvidence chain (ev_sinks ev) (ev_effects ev ++ effects ++ late),
       Ok (mkRecorded (en_seq entry) (en_row_hash entry) shipped warnings))
    end
  end.

Definition Evidence_open (d : Disk) (dir : string) : result Evidence :=
  let? chain := Chain_open d dir in Ok (mkEvidence chain [] []).
Definition with_event_sinks (ev : Evidence) (sinks : list EventSink) : Evidence :=
  mkEvidence (ev_chain ev) sinks (ev_effects ev).
Definition with_anchor_signer (ev : Evidence) (key : IssuerKey) (path : string) (interval : N) : Evidence :=
  mkEvidence (with_anchor (ev_chain ev) (with_signer key path interval)) (ev_sinks ev) (ev_effects ev).
Definition evidence_checkpoint (ev : Evidence) (now : N) (io : AppendIo) : Evidence * result (option string) :=
  let '(chain, r) := checkpoint (ev_chain ev) now io in
  (mkEvidence chain (ev_sinks ev) (ev_effects ev), r).
End Recording.

(** ** The interface

    What the rest of the control plane relies on: an event that is recorded is on the
    chain, after everything recorded before it. *)

Class EvidenceLog (E Answers : Type) := {
  ev_record : E → LifecycleEvent → N → Answers → E * result N;
  ev_holds : E → list (EntryDraft * N) → Prop
}.

Definition recordable (event : LifecycleEvent) (now : N) : Prop :=
  value_wf (le_detail event) = true ∧ is_u64 now.

Class EvidenceLogLaws (E Answers : Type) `{EvidenceLog E Answers} : Prop := {
  record_appends e log event now io e' seq :
    ev_holds e log → recordable event now → ev_record e event now io = (e', Ok seq) →
    ev_holds e' (log ++ [(to_draft event, now)])
}.

(** ** Lemmas *)

Lemma ship_blocking_spec ship sinks shipped :
  match find (λ s, negb (ship s.1)) sinks with
  | Some _ => (ship_blocking ship sinks shipped).2 = Err BLOCKING_SINK_UNAVAILABLE ∧
      ∀ f, f ∈ (ship_blocking ship sinks shipped).1 → ∀ d ok, f ≠ Appended d ok
  | None => ship_blocking ship sinks shipped
      = (map (λ s, Shipped (sk_name s.2)) sinks, Ok (shipped ++ map (λ s, sk_name s.2) sinks))
  end.
Proof.
  revert shipped. induction sinks as [|[i s] sinks IH]; intros shipped; simpl; [by rewrite app_nil_r|].
  destruct (ship i) eqn:Hs; simpl.
  - specialize (IH (shipped ++ [sk_name s])). destruct (find _ sinks).
    + destruct (ship_blocking _ _ _) as [effects r]. simpl in *. destruct IH as [-> Hf]. split; [done|].
      intros f [->|Hin]%elem_of_cons; [done|by apply Hf].
    + rewrite IH. by rewrite <-app_assoc.
  - split; [done|]. by intros f ->%list_elem_of_singleton.
Qed.

Lemma ship_fail_safe_spec ship sinks shipped :
  ship_fail_safe ship sinks shipped
  = (map (λ s, if ship s.1 then Shipped (sk_name s.2) else Refused (sk_name s.2)) sinks,
     shipped ++ map (λ s, sk_name s.2) (filterb (λ s, ship s.1) sinks),
     map (λ s, sk_name s.2) (filterb (λ s, negb (ship s.1)) sinks)).
Proof.
  unfold ship_fail_safe.
  enough (∀ effects warnings, foldl (λ acc s,
    let '(effects, shipped, warnings) := acc in
    if ship s.1
    then (effects ++ [Shipped (sk_name s.2)], shipped ++ [sk_name s.2], warnings)
    else (effects ++ [Refused (sk_name s.2)], shipped, warnings ++ [sk_name s.2]))
    (effects, shipped, warnings) sinks
    = (effects ++ map (λ s, if ship s.1 then Shipped (sk_name s.2) else Refused (sk_name s.2)) sinks,
       shipped ++ map (λ s, sk_name s.2) (filterb (λ s, ship s.1) sinks),
       warnings ++ map (λ s, sk_name s.2) (filterb (λ s, negb (ship s.1)) sinks))) as Hgen by apply (Hgen [] []).
  revert shipped. induction sinks as [|[i s] sinks IH]; intros shipped effects warnings; simpl; [by rewrite !app_nil_r|].
  destruct (ship i) eqn:Hs; rewrite IH; simpl; by rewrite <-!app_assoc.
Qed.

(** ** Properties *)

Section Properties.
Context `{ChainSerde, SerdeJson, Sha256, Jose, SerdeParse}.

(** Evidence is a precondition where the estate says so and a copy elsewhere.  If any
    blocking sink that wants an event refuses it, recording fails with that code and nothing
    is appended; otherwise the outcome is the chain's, whatever the fail-safe sinks do: they
    are offered the event after the append, never before it, and their refusals are exactly
    the warnings. *)
Theorem evidence_record_exact ev event now io :
  let out := evidence_record ev event now io in
  let blocking := wanting ev Blocking event in
  let late := wanting ev FailSafe event in
  match find (λ s, negb (eio_ship io s.1)) blocking with
  | Some _ => out.2 = Err BLOCKING_SINK_UNAVAILABLE ∧ ev_chain out.1 = ev_chain ev ∧
      ∃ tried, ev_effects out.1 = ev_effects ev ++ tried ∧ ∀ f, f ∈ tried → ∀ d ok, f ≠ Appended d ok
  | None =>
    let appended := append (ev_chain ev) (to_draft event) now (eio_chain io) in
    ev_chain out.1 = appended.1 ∧
    match appended.2 with
    | Err e => out.2 = Err e ∧
        ev_effects out.1 = ev_effects ev ++ map (λ s, Shipped (sk_name s.2)) blocking ++ [Appended (to_draft event) false]
    | Ok entry =>
        out.2 = Ok (mkRecorded (en_seq entry) (en_row_hash entry)
          (map (λ s, sk_name s.2) blocking ++ map (λ s, sk_name s.2) (filterb (λ s, eio_ship io s.1) late))
          (map (λ s, sk_name s.2) (filterb (λ s, negb (eio_ship io s.1)) late))) ∧
        ev_effects out.1 = ev_effects ev ++ map (λ s, Shipped (sk_name s.2)) blocking ++
          [Appended (to_draft event) true] ++
          map (λ s, if eio_ship io s.1 then Shipped (sk_name s.2) else Refused (sk_name s.2)) late
    end
  end.
Proof.
  cbv zeta. unfold evidence_record. pose proof (ship_blocking_spec (eio_ship io) (wanting ev Blocking event) []) as Hspec.
  destruct (find _ _) as [s|].
  - destruct (ship_blocking _ _ _) as [effects r]. destruct Hspec as [Hr Hf]. cbn [fst snd] in *. subst r. eauto.
  - rewrite Hspec. destruct (append _ _ _ _) as [chain [entry|e]]; cbn [fst snd is_ok].
    + rewrite ship_fail_safe_spec. cbn [fst snd ev_chain ev_effects]. by rewrite <-!app_assoc.
    + cbn [ev_chain ev_effects]. done.
Qed.
End Properties.

(** ** The implementation *)

Section Implementation.
Context `{ChainSerdeLaws, SerdeJson, Sha256, Jose, SerdeParse}.

(** The rows of the chain file are the events recorded; an anchor, where there is one, writes
    to the directory's own anchor file. *)
Definition evidence_holds (ev : Evidence) (log : list (EntryDraft * N)) : Prop :=
  (∃ rows, chain_holds (ev_chain ev) rows ∧ map drafted rows = log) ∧
  ∀ a, ch_anchor (ev_chain ev) = Some a → an_path a = path_join (ch_dir (ev_chain ev)) ANCHOR_FILE.

#[export] Instance evidence_log : EvidenceLog Evidence EvidenceIo := {|
  ev_record ev event now io :=
    let '(ev, r) := evidence_record ev event now io in (ev, let? rec := r in Ok (rd_seq rec));
  ev_holds := evidence_holds
|}.

Lemma append_Ok_holds c rows draft now io c' e :
  chain_holds c rows → (∀ a, ch_anchor c = Some a → an_path a = path_join (ch_dir c) ANCHOR_FILE) →
  is_u64 now → value_wf (ed_detail draft) = true → append c draft now io = (c', Ok e) →
  chain_holds c' (rows ++ [next_entry c draft now]) ∧ ch_dir c' = ch_dir c ∧ ch_anchor c' = ch_anchor c.
Proof.
  intros Hc Hpath Hnow Hdet. unfold append, append_line at 1. cbn [ap_open ap_write ap_sync negb]. cbv zeta.
  set (n := next_entry c draft now).
  destruct (ap_write (ci_chain io)); [|done]. destruct (ap_sync (ci_chain io)); [|done].
  destruct (file_names_apart (ch_dir c)) as (Hac & Har & Hcr).
  set (d1 := file_append _ _ _). cbn [ch_anchor ch_disk ch_dir].
  assert (Hrow : ∀ d, d !! chain_path c = d1 !! chain_path c →
    d !! path_join (ch_dir c) RETIRED_FILE = d1 !! path_join (ch_dir c) RETIRED_FILE →
    chain_holds (mkChain (ch_dir c) d (en_seq n) (en_row_hash n) (ch_anchor c)) (rows ++ [n])).
  { intros d Hd Hd'. apply append_row; [done..| |].
    - rewrite Hd. unfold d1. rewrite file_append_same. destruct Hc as (-> & _). cbn [default from_option id].
      by rewrite rows_text_snoc.
    - rewrite Hd'. unfold d1. by rewrite file_append_other. }
  destruct (ch_anchor c) as [a|] eqn:Ha; [|by intros [= <- <-]; split; [rewrite <-Ha in *; by apply Hrow|]].
  specialize (Hpath a eq_refl). destruct (is_due a (en_seq n)).
  - unfold anchor_write. destruct (sign_detached _ _); [|done]. unfold append_line. cbv zeta.
    destruct (ap_open (ci_anchor io)); [|done]. destruct (ap_write (ci_anchor io)); [|done].
    destruct (ap_sync (ci_anchor io)); [|done]. cbn [negb with_disk result_bind ch_dir ch_anchor ch_last_seq ch_last_hash].
    intros [= <- <-]. split; [|done]. apply Hrow; apply file_append_other; by rewrite Hpath.
  - intros [= <- <-]. split; [by apply Hrow|done].
Qed.

#[export] Instance evidence_log_laws : EvidenceLogLaws Evidence EvidenceIo.
Proof.
  split. intros ev log event now io ev' seq [(rows & Hc & Hlog) Hpath] [Hwf Hnow].
  unfold ev_record, evidence_log, evidence_record.
  destruct (ship_blocking _ _ _) as [effects [shipped|c]]; [|done].
  destruct (append _ _ _ _) as [chain [entry|c]] eqn:Happ; [|done].
  destruct (ship_fail_safe _ _ _) as [[late sh] w]. cbn [result_bind]. intros [= <- _].
  destruct (append_Ok_holds _ _ (to_draft event) _ _ _ _ Hc Hpath Hnow Hwf Happ) as (Hc' & Hdir & Hanc).
  split; cbn [ev_chain].
  - exists (rows ++ [next_entry (ev_chain ev) (to_draft event) now]). split; [done|].
    rewrite map_app, Hlog. simpl. reflexivity.
  - intros a Ha. rewrite Hdir. apply Hpath. by rewrite <-Hanc.
Qed.
End Implementation.
