(* ===== verification/Rekor.v ===== *)
(** * Rekor: transparency-log inclusion, verified offline ([crates/wc-control/src/rekor.rs])

    An inclusion proof is replayed leaf to root; the root's own standing comes from a signed
    checkpoint.  SHA-256 over bytes, the hex and base64 codecs and the ECDSA check are
    third-party code: the parameters [RawDigest], [HexCodec] and [NoteCrypto].  The reference
    the replay is compared with is the Merkle tree hash and audit path of RFC 6962 section
    2.1, written over lists. *)

From Stdlib Require Import ZArith.
From stdpp Require Import pretty.
From S2P Require Import Prelude Text Errors Model Json Canon Contract Artifact Log Store Std.

(** [sha2::Sha256::digest] on bytes. *)
Class RawDigest := sha256_bytes : string → string.
(** [hex::encode] and [hex::decode]. *)
Class HexCodec := { hex_encode : string → string; hex_crate_decode : string → option string }.
(** base64's [STANDARD] decoder and [URL_SAFE_NO_PAD] encoder, and [jsonwebtoken::crypto::verify]
    under ES256 with [DecodingKey::from_ec_der]: the signature text, the message, the point. *)
Class NoteCrypto := {
  std_decode : string → option string;
  url_encode : string → string;
  es256_verify : string → string → string → option bool
}.

(** ** Proofs and checkpoints *)

Record InclusionProof := mkInclusionProof {
  pf_log_index : N;
  pf_tree_size : N;
  pf_root_hash : string;
  pf_hashes : list string;
  pf_checkpoint : option string
}.

Record NoteSignature := mkNoteSignature { ns_name : string; ns_key_hash : string; ns_signature : string }.

Record Checkpoint := mkCheckpoint {
  ck_origin : string;
  ck_tree_size : N;
  ck_root_hash : string;
  ck_signed_body : string;
  ck_signatures : list NoteSignature
}.

(** What [root_trust] says of the root: the three statements of [verify]. *)
Inductive RootTrust := Unattested | Claimed | LogSigned.

Record Inclusion := mkInclusion {
  inc_leaf_hash : string;
  inc_computed_root : string;
  inc_tree_size : N;
  inc_checkpoint_agrees : bool;
  inc_origin : option string;
  inc_root_trust : RootTrust
}.

Record LogKey := mkLogKey { lk_name : string; lk_spki_der : string }.

(** [line.trim_end()]. *)
Definition trim_end (s : string) : string := from_chars (reverse (drop_whitespace (reverse (chars s)))).

Definition EM_DASH_SPACE : string := of_bytes [226; 128; 148; 32]%N.

(** [raw[..n]] and [raw[n..]]. *)
Definition bytes_take (n : nat) (s : string) : string := String.substring 0 n s.
Definition bytes_drop (n : nat) (s : string) : string := String.substring n (String.length s - n) s.

Section Rekor.
Context `{RawDigest, HexCodec, NoteCrypto}.

(** [util::hex_decode]. *)
Definition hex_decode (s : string) : option string := hex_crate_decode (trim_text s).

(** *** Notes *)

Definition signature_line (line : string) : result NoteSignature :=
  let? rest := ok_or (strip_prefix EM_DASH_SPACE line) PROVENANCE_UNVERIFIABLE in
  let? (name, b64) := ok_or (split_once " "%char rest) PROVENANCE_UNVERIFIABLE in
  let? raw := ok_or (std_decode (trim_text b64)) PROVENANCE_UNVERIFIABLE in
  guard_err (str_len raw <? 5)%N PROVENANCE_UNVERIFIABLE $
  Ok (mkNoteSignature name (bytes_take 4 raw) (bytes_drop 4 raw)).

Definition note_body (origin : string) (tree_size : N) (root_b64 : string) : string :=
  origin +:+ LFs +:+ pretty tree_size +:+ LFs +:+ root_b64 +:+ LFs.

Definition Checkpoint_parse (note : string) : result Checkpoint :=
  let lines := file_lines note in
  let? origin := ok_or (lines !! 0) PROVENANCE_UNVERIFIABLE in
  let? size_line := ok_or (lines !! 1) PROVENANCE_UNVERIFIABLE in
  let? tree_size := ok_or (parse_u64 (trim_text size_line)) PROVENANCE_UNVERIFIABLE in
  let? root_b64 := ok_or (trim_text <$> lines !! 2) PROVENANCE_UNVERIFIABLE in
  let? root := ok_or (std_decode root_b64) PROVENANCE_UNVERIFIABLE in
  guard_err (negb (str_len root =? 32)%N) PROVENANCE_UNVERIFIABLE $
  let? signatures := mapR signature_line
    (filterb (λ l, negb (bool_decide (l = ""))) (map trim_end (drop 3 lines))) in
  Ok (mkCheckpoint origin tree_size (hex_encode root) (note_body origin tree_size root_b64) signatures).

(** *** The log's key *)

Definition LogKey_from_pem (name pem : string) : result LogKey :=
  let dashed (prefix l : string) := starts_with prefix l in
  let fix from_begin (ls : list string) :=
    match ls with [] => [] | l :: r => if dashed "-----BEGIN" l then r else from_begin r end in
  let fix to_end (ls : list string) :=
    match ls with [] => [] | l :: r => if dashed "-----END" l then [] else l :: to_end r end in
  let body := join "" (to_end (from_begin (file_lines pem))) in
  guard_err (bool_decide (body = "")) PROVENANCE_UNVERIFIABLE $
  let? spki := ok_or (std_decode (trim_text body)) PROVENANCE_UNVERIFIABLE in
  Ok (mkLogKey name spki).

Definition key_hash (k : LogKey) : string := bytes_take 4 (sha256_bytes (lk_spki_der k)).

(** [spki_ec_point]: the last 65 bytes, which must start with [0x04]. *)
Definition spki_ec_point (spki : string) : result string :=
  let tail := bytes_drop (String.length spki - 65) spki in
  guard_err (negb ((65 <=? str_len spki)%N && starts_with (String "004" "") tail)) PROVENANCE_UNVERIFIABLE $
  Ok tail.

(** [attest::der_ecdsa_to_raw]. *)
Fixpoint drop_zeros (l : list N) : list N := match l with 0%N :: r => drop_zeros r | _ => l end.
Definition der_int (der : list N) (coord_len pos : nat) : option (list N * nat) :=
  tag ← der !! pos;
  if negb (tag =? 2)%N then None else
  n ← der !! S pos;
  let n := N.to_nat n in
  let start := (pos + 2)%nat in
  if bool_decide (start + n ≤ length der)%nat then
    let trimmed := drop_zeros (take n (drop start der)) in
    if bool_decide (coord_len < length trimmed)%nat then None
    else Some (replicate (coord_len - length trimmed) 0%N ++ trimmed, (start + n)%nat)
  else None.
Definition der_ecdsa_to_raw (der : list N) (coord_len : nat) : option (list N) :=
  if negb (bool_decide (der !! 0%nat = Some 48%N)) then None else
  b ← der !! 1%nat;
  let i := if (128 <=? b)%N then (2 + N.to_nat (N.land b 127))%nat else 2%nat in
  r ← der_int der coord_len i;
  s ← der_int der coord_len r.2;
  Some (r.1 ++ s.1).

Fixpoint check_signatures (cp : Checkpoint) (key : LogKey) (sigs : list NoteSignature) : result unit :=
  match sigs with
  | [] => Err PROVENANCE_UNVERIFIABLE
  | sg :: rest =>
    if negb (bool_decide (ns_name sg = lk_name key)) then check_signatures cp key rest
    else if negb (bool_decide (ns_key_hash sg = key_hash key)) then check_signatures cp key rest
    else
      let? point := spki_ec_point (lk_spki_der key) in
      let raw := from_option of_bytes (ns_signature sg) (der_ecdsa_to_raw (bytes (ns_signature sg)) 32) in
      match es256_verify (url_encode raw) (ck_signed_body cp) point with
      | None => Err PROVENANCE_UNVERIFIABLE
      | Some true => Ok tt
      | Some false => check_signatures cp key rest
      end
  end.
Definition verify_checkpoint (cp : Checkpoint) (key : LogKey) : result unit :=
  guard_err (bool_decide (ck_signatures cp = [])) PROVENANCE_UNVERIFIABLE $
  check_signatures cp key (ck_signatures cp).

(** *** The tree *)

Definition leaf_bytes (body : string) : string := sha256_bytes (String "000" body).
Definition leaf_hash (body : string) : string := hex_encode (leaf_bytes body).
Definition node (left right : string) : string := sha256_bytes (String "001" (left +:+ right)).

Definition decode32 (s : string) : result string :=
  let? raw := ok_or (hex_decode s) PROVENANCE_UNVERIFIABLE in
  guard_err (negb (str_len raw =? 32)%N) PROVENANCE_UNVERIFIABLE $ Ok raw.

(** The inner loop: while the index is even and not zero, halve both. *)
Fixpoint climb (index : positive) (last : N) : N * N :=
  match index with xO p => climb p (last / 2)%N | _ => (Npos index, last) end.
Definition rise (index last : N) : N * N :=
  match index with 0%N => (0%N, last) | Npos p => climb p last end.

(** The loop over the audit path. *)
Fixpoint replay_path (hash : string) (index last : N) (path : list string) : result (string * N * N) :=
  match path with
  | [] => Ok (hash, index, last)
  | sibling_hex :: path =>
    let? sibling := decode32 sibling_hex in
    if N.odd index || (index =? last)%N
    then let '(index, last) := rise index last in
         replay_path (node sibling hash) (index / 2) (last / 2) path
    else replay_path (node hash sibling) (index / 2) (last / 2) path
  end.

Definition attested_root (computed_root : string) (proof : InclusionProof) (log_key : option LogKey)
    : result (bool * option string * RootTrust) :=
  match pf_checkpoint proof with
  | None => Ok (false, None, Unattested)
  | Some note =>
    let? cp := Checkpoint_parse note in
    guard_err (negb (bool_decide (ck_root_hash cp = computed_root)) ||
               negb (ck_tree_size cp =? pf_tree_size proof)%N) PROVENANCE_UNVERIFIABLE $
    match log_key with
    | None => Ok (true, Some (ck_origin cp), Claimed)
    | Some key => let? _ := verify_checkpoint cp key in Ok (true, Some (ck_origin cp), LogSigned)
    end
  end.

Definition verify (leaf : string) (proof : InclusionProof) (log_key : option LogKey) : result Inclusion :=
  guard_err (pf_tree_size proof =? 0)%N PROVENANCE_UNVERIFIABLE $
  guard_err (pf_tree_size proof <=? pf_log_index proof)%N PROVENANCE_UNVERIFIABLE $
  let? hash := decode32 leaf in
  let? (hash, index, _) := replay_path hash (pf_log_index proof) (pf_tree_size proof - 1) (pf_hashes proof) in
  guard_err (negb (index =? 0)%N) PROVENANCE_UNVERIFIABLE $
  let computed_root := hex_encode hash in
  guard_err (negb (bool_decide (computed_root = to_ascii_lowercase (pf_root_hash proof)))) PROVENANCE_UNVERIFIABLE $
  let? (agrees, origin, trust) := attested_root computed_root proof log_key in
  Ok (mkInclusion (to_ascii_lowercase leaf) computed_root (pf_tree_size proof) agrees origin trust).
End Rekor.

(** ** What the proofs rely on *)

(** A digest is 32 bytes; [hex::encode] prints lowercase hexadecimal digits, which
    [hex::decode] reads back. *)
Class RawDigestLaws `{RawDigest} : Prop := digest_len s : String.length (sha256_bytes s) = 32%nat.
Class HexLaws `{HexCodec} : Prop := {
  hex_roundtrip s : hex_crate_decode (hex_encode s) = Some s;
  hex_digits s b : b ∈ bytes (hex_encode s) → (48 ≤ b ≤ 57 ∨ 97 ≤ b ≤ 102)%N
}.
(** Two different byte strings with one digest. *)
Definition digest_collision `{RawDigest} : Prop := ∃ x y, x ≠ y ∧ sha256_bytes x = sha256_bytes y.

(** ** The Merkle tree hash and audit path of RFC 6962, section 2.1

    [mth k] and [audit k] are for at most [2 ^ k] leaves; the split is at the largest power
    of two smaller than their number. *)

Section Reference.
Context `{RawDigest}.

Fixpoint mth (k : nat) (leaves : list string) : string :=
  match k with
  | O => default "" (head leaves)
  | S k =>
    if bool_decide (length leaves ≤ 2 ^ k)%nat then mth k leaves
    else node (mth k (take (2 ^ k) leaves)) (mth k (drop (2 ^ k) leaves))
  end.

Fixpoint audit (k i : nat) (leaves : list string) : list string :=
  match k with
  | O => []
  | S k =>
    if bool_decide (length leaves ≤ 2 ^ k)%nat then audit k i leaves
    else if bool_decide (i < 2 ^ k)%nat
    then audit k i (take (2 ^ k) leaves) ++ [mth k (drop (2 ^ k) leaves)]
    else audit k (i - 2 ^ k) (drop (2 ^ k) leaves) ++ [mth k (take (2 ^ k) leaves)]
  end.

Definition tree_root (bodies : list string) : string :=
  mth (Nat.log2_up (length bodies)) (map leaf_bytes bodies).
Definition audit_path (i : nat) (bodies : list string) : list string :=
  audit (Nat.log2_up (length bodies)) i (map leaf_bytes bodies).
End Reference.

(** ** Lemmas: codecs *)

Section Codecs.
Context `{RawDigestLaws, HexLaws}.

Definition digest_sized (s : string) : Prop := String.length s = 32%nat.

Lemma hex_plain s b : b ∈ bytes (hex_encode s) → plain_byte b ∧ ascii_lower b = b.
Proof.
  intros Hb%hex_digits. unfold plain_byte, ascii_lower, is_ascii_uppercase, is_whitespace. split; [split; [lia|]|].
  - rewrite !orb_false_iff, !andb_false_iff, !N.eqb_neq, !N.leb_gt. lia.
  - destruct ((65 <=? b) && (b <=? 90))%N eqn:E; [|done]. apply andb_true_iff in E as [?%N.leb_le ?%N.leb_le]. lia.
Qed.

Lemma of_bytes_bytes s : of_bytes (bytes s) = s.
Proof. induction s as [|c s IH]; [done|]. simpl. by rewrite ascii_N_embedding, IH. Qed.

Lemma hex_trim s : trim_text (hex_encode s) = hex_encode s.
Proof. apply trim_text_plain. intros b Hb. by apply (hex_plain s). Qed.
Lemma hex_lower s : to_ascii_lowercase (hex_encode s) = hex_encode s.
Proof.
  unfold to_ascii_lowercase. rewrite <-(of_bytes_bytes (hex_encode s)) at 2. f_equal.
  rewrite <-(map_id (bytes (hex_encode s))) at 2. apply map_ext_in. intros b Hb. by apply (hex_plain s), list_elem_of_In.
Qed.
Lemma hex_inj s t : hex_encode s = hex_encode t → s = t.
Proof. intros E. apply (f_equal hex_crate_decode) in E. rewrite !hex_roundtrip in E. congruence. Qed.

Lemma decode32_hex s : digest_sized s → decode32 (hex_encode s) = Ok s.
Proof.
  intros Hs. unfold decode32, hex_decode. rewrite hex_trim, hex_roundtrip. cbn. unfold str_len. by rewrite Hs.
Qed.
Lemma decode32_sized h s : decode32 h = Ok s → digest_sized s.
Proof.
  unfold decode32. intros (raw & _ & Hg)%result_bind_ok. rewrite guard_err_ok, negb_false_iff, N.eqb_eq in Hg.
  destruct Hg as [Hl [= <-]]. unfold digest_sized, str_len in *. lia.
Qed.

Lemma node_sized l r : digest_sized (node l r).
Proof. apply digest_len. Qed.
Lemma leaf_sized body : digest_sized (leaf_bytes body).
Proof. apply digest_len. Qed.
#[local] Hint Resolve node_sized leaf_sized : core.

Lemma mth_sized k l : l ≠ [] → Forall digest_sized l → digest_sized (mth k l).
Proof.
  revert l. induction k as [|k IH]; intros l Hne Hl; simpl.
  - destruct l as [|x l]; [done|]. by apply Forall_cons in Hl as [Hx _].
  - case_bool_decide; [by apply IH|apply node_sized].
Qed.
(** *** Replaying an honest path *)

Definition pow (k : nat) : N := N.of_nat (2 ^ k).
Lemma pow_S k : pow (S k) = (2 * pow k)%N.
Proof. unfold pow. simpl. lia. Qed.
Lemma pow_pos k : (0 < pow k)%N.
Proof. unfold pow. pose proof (Nat.pow_nonzero 2 k). lia. Qed.
Lemma len_pow {T} (l : list T) k : (length l ≤ 2 ^ k)%nat ↔ (len l ≤ pow k)%N.
Proof. unfold len, pow. lia. Qed.

Lemma replay_path_app p q hash index last :
  replay_path hash index last (p ++ q)
  = let? r := replay_path hash index last p in replay_path r.1.1 r.1.2 r.2 q.
Proof.
  revert hash index last. induction p as [|x p IH]; intros hash index last; [done|]. cbn [replay_path app].
  destruct (decode32 x) as [s|]; [|done]. cbn [result_bind]. destruct (N.odd index || _); [|apply IH].
  destruct (rise index last) as [i' l']. apply IH.
Qed.

Lemma replay_path_one hash index last s :
  digest_sized s →
  replay_path hash index last [hex_encode s]
  = if N.odd index || (index =? last)%N
    then let '(i, l) := rise index last in Ok (node s hash, (i / 2)%N, (l / 2)%N)
    else Ok (node hash s, (index / 2)%N, (last / 2)%N).
Proof.
  intros Hs. cbn [replay_path]. rewrite decode32_hex by done. cbn [result_bind].
  destruct (N.odd index || _); [|done]. by destruct (rise index last).
Qed.

Lemma odd_left q : N.odd (2 * q) = false.
Proof. by destruct q. Qed.
Lemma odd_right q : N.odd (2 * q + 1) = true.
Proof. by destruct q. Qed.
Lemma half_even q : (2 * q / 2 = q)%N.
Proof. rewrite N.mul_comm. by apply N.div_mul. Qed.
Lemma half_odd q : ((2 * q + 1) / 2 = q)%N.
Proof. symmetry. apply (N.div_unique _ 2 q 1); lia. Qed.

Lemma rise_odd q last : rise (2 * q + 1) last = (2 * q + 1, last)%N.
Proof. by destruct q. Qed.

Lemma rise_pow q m : rise ((2 * q + 1) * pow m) ((2 * q + 1) * pow m) = (2 * q + 1, 2 * q + 1)%N.
Proof.
  induction m as [|m IH]; [change (pow 0) with 1%N; rewrite N.mul_1_r; apply rise_odd|].
  rewrite pow_S. replace ((2 * q + 1) * (2 * pow m))%N with (2 * ((2 * q + 1) * pow m))%N by lia.
  rewrite <-IH. pose proof (pow_pos m). destruct ((2 * q + 1) * pow m)%N as [|p] eqn:E; [lia|].
  change (2 * N.pos p)%N with (N.pos p~0). cbn [rise climb]. f_equal.
  change (N.pos p~0) with (2 * N.pos p)%N. rewrite N.mul_comm. by rewrite N.div_mul.
Qed.

(** A complete subtree inside a tree: the path leads to its root and index. *)
Lemma replay_complete k : ∀ leaves i leaf q last,
  length leaves = (2 ^ k)%nat → Forall digest_sized leaves → leaves !! i = Some leaf →
  (q * pow k + pow k ≤ last + 1)%N →
  replay_path leaf (q * pow k + N.of_nat i) last (map hex_encode (audit k i leaves))
  = Ok (mth k leaves, q, (last / pow k)%N).
Proof.
  induction k as [|k IH]; intros leaves i leaf q last Hlen Hsz Hi Hlast.
  - destruct leaves as [|x [|? ?]]; try done. destruct i; [|done]. injection Hi as ->. cbn [audit mth map replay_path head default].
    change (pow 0) with 1%N. rewrite N.div_1_r. do 3 f_equal. simpl. lia.
  - rewrite pow_S in *. simpl in Hlen. cbn [audit mth]. rewrite !bool_decide_eq_false_2 by (pose proof (Nat.pow_nonzero 2 k); lia).
    pose proof (pow_pos k). assert (length (take (2 ^ k) leaves) = 2 ^ k)%nat as Ht by (rewrite length_take; lia).
    assert (length (drop (2 ^ k) leaves) = 2 ^ k)%nat as Hd by (rewrite length_drop; lia).
    assert (Forall digest_sized (take (2 ^ k) leaves) ∧ Forall digest_sized (drop (2 ^ k) leaves)) as [Hst Hsd]
      by (split; [by apply Forall_take|by apply Forall_drop]).
    assert (∀ l, length l = (2 ^ k)%nat → l ≠ @nil string) as Hne
      by (intros [] Hl; [simpl in Hl; pose proof (Nat.pow_nonzero 2 k); lia|done]).
    assert (last / (2 * pow k) = last / pow k / 2)%N as Hdiv by (rewrite N.Div0.div_div; f_equal; lia).
    case_bool_decide as Hlt; rewrite map_app, replay_path_app.
    + replace (q * (2 * pow k) + N.of_nat i)%N with (2 * q * pow k + N.of_nat i)%N by lia.
      rewrite (IH _ i leaf (2 * q)%N last Ht Hst) by (first [by rewrite lookup_take_lt by lia|lia]). cbn [result_bind fst snd map].
      rewrite replay_path_one by (apply mth_sized; [by apply Hne|done]).
      assert (2 * q < last / pow k)%N by (apply N.lt_le_trans with (2 * q + 1)%N; [lia|]; apply N.div_le_lower_bound; lia).
      rewrite odd_left, (proj2 (N.eqb_neq _ _)) by lia. cbn [orb]. by rewrite Hdiv, half_even.
    + assert ((i - 2 ^ k) < 2 ^ k)%nat by (apply lookup_lt_Some in Hi; lia).
      assert (N.of_nat i = pow k + N.of_nat (i - 2 ^ k))%N as Hi' by (unfold pow; lia).
      replace (q * (2 * pow k) + N.of_nat i)%N with ((2 * q + 1) * pow k + N.of_nat (i - 2 ^ k))%N by (rewrite Hi'; clear; lia).
      rewrite (IH _ (i - 2 ^ k)%nat leaf (2 * q + 1)%N last Hd Hsd)
        by (first [rewrite lookup_drop; rewrite <-Hi; f_equal; lia|lia]). cbn [result_bind fst snd map].
      rewrite replay_path_one by (apply mth_sized; [by apply Hne|done]).
      rewrite odd_right. cbn [orb]. by rewrite rise_odd, Hdiv, half_odd.
Qed.

(** The last subtree of a tree, whose size need not be a power of two: the path leads to its
    root, and to an index that is the last one of its level. *)
Lemma replay_edge k : ∀ leaves i leaf q,
  length leaves ≠ 0%nat → (length leaves ≤ 2 ^ k)%nat → Forall digest_sized leaves → leaves !! i = Some leaf →
  ∃ m, (m ≤ k)%nat ∧
    replay_path leaf (q * pow k + N.of_nat i) (q * pow k + len leaves - 1) (map hex_encode (audit k i leaves))
    = Ok (mth k leaves, q * pow m, q * pow m)%N.
Proof.
  induction k as [|k IH]; intros leaves i leaf q Hn0 Hlen Hsz Hi.
  - destruct leaves as [|x [|? ?]]; try done; [|simpl in Hlen; lia]. destruct i; [|done]. injection Hi as ->.
    exists 0%nat. split; [done|]. cbn [audit mth map replay_path head default]. unfold len. change (pow 0) with 1%N. simpl.
    do 3 f_equal; lia.
  - pose proof (pow_pos k).
    cbn [audit mth]. case_bool_decide as Hsmall.
    { destruct (IH leaves i leaf (2 * q)%N Hn0 Hsmall Hsz Hi) as (m & Hm & Hrun). exists (S m). split; [lia|].
      rewrite !pow_S. replace (q * (2 * pow k))%N with (2 * q * pow k)%N by lia.
      replace (q * (2 * pow m))%N with (2 * q * pow m)%N by lia. exact Hrun. }
    assert (length (take (2 ^ k) leaves) = 2 ^ k)%nat as Ht by (rewrite length_take; lia).
    assert (length (drop (2 ^ k) leaves) = length leaves - 2 ^ k)%nat as Hd by (rewrite length_drop; lia).
    assert (Forall digest_sized (take (2 ^ k) leaves) ∧ Forall digest_sized (drop (2 ^ k) leaves)) as [Hst Hsd]
      by (split; [by apply Forall_take|by apply Forall_drop]).
    assert (take (2 ^ k) leaves ≠ []) as Hnt by (intros E; rewrite E in Ht; simpl in Ht; pose proof (Nat.pow_nonzero 2 k); lia).
    assert (drop (2 ^ k) leaves ≠ []) as Hnd by (intros E; rewrite E in Hd; simpl in Hd; lia).
    assert (pow k < len leaves ≤ 2 * pow k)%N as Hb by (unfold pow, len; simpl in Hlen; lia).
    rewrite pow_S.
    case_bool_decide as Hlt; rewrite map_app, replay_path_app.
    + replace (q * (2 * pow k) + N.of_nat i)%N with (2 * q * pow k + N.of_nat i)%N by lia.
      rewrite (replay_complete k _ i leaf (2 * q)%N _ Ht Hst) by (first [by rewrite lookup_take_lt by lia|lia]).
      cbn [result_bind fst snd map]. rewrite replay_path_one by (by apply mth_sized).
      assert ((q * (2 * pow k) + len leaves - 1) / pow k = 2 * q + 1)%N as ->.
      { symmetry. apply (N.div_unique _ _ _ (len leaves - 1 - pow k)); lia. }
      rewrite odd_left, (proj2 (N.eqb_neq _ _)) by lia. cbn [orb]. rewrite half_even, half_odd.
      exists 0%nat. change (pow 0) with 1%N. rewrite N.mul_1_r. split; [lia|done].
    + assert (N.of_nat i = pow k + N.of_nat (i - 2 ^ k))%N as Hi' by (unfold pow; lia).
      assert (len leaves = pow k + len (drop (2 ^ k) leaves))%N as Hl' by (unfold len, pow in *; lia).
      destruct (IH (drop (2 ^ k) leaves) (i - 2 ^ k)%nat leaf (2 * q + 1)%N) as (m & Hm & Hrun);
        [by rewrite length_zero_iff_nil|simpl in Hlen; lia|done|rewrite lookup_drop; rewrite <-Hi; f_equal; lia|].
      replace (q * (2 * pow k) + N.of_nat i)%N with ((2 * q + 1) * pow k + N.of_nat (i - 2 ^ k))%N by (rewrite Hi'; clear; lia).
      replace (q * (2 * pow k) + len leaves - 1)%N with ((2 * q + 1) * pow k + len (drop (2 ^ k) leaves) - 1)%N
        by (rewrite Hl'; clear; lia).
      rewrite Hrun. cbn [result_bind fst snd map]. rewrite replay_path_one by (by apply mth_sized).
      rewrite N.eqb_refl, orb_true_r, rise_pow, half_odd.
      exists 0%nat. change (pow 0) with 1%N. rewrite N.mul_1_r. split; [lia|done].
Qed.
(** *** What a replay that reaches a root shows *)

Fixpoint fold_up (hash : string) (steps : list (bool * string)) : string :=
  match steps with
  | [] => hash
  | (left_sibling, s) :: steps => fold_up (if left_sibling then node s hash else node hash s) steps
  end.
Lemma fold_up_snoc hash steps b s :
  fold_up hash (steps ++ [(b, s)]) = if b then node s (fold_up hash steps) else node (fold_up hash steps) s.
Proof. revert hash. induction steps as [|[b' s'] steps IH]; intros hash; [by destruct b|apply IH]. Qed.
Lemma fold_up_sized hash steps : digest_sized hash → digest_sized (fold_up hash steps).
Proof. revert hash. induction steps as [|[[] s] steps IH]; intros hash Hh; simpl; auto. Qed.

Lemma replay_path_folds path : ∀ hash index last hash' index' last',
  replay_path hash index last path = Ok (hash', index', last') →
  ∃ steps, hash' = fold_up hash steps ∧ Forall (λ s, digest_sized s.2) steps.
Proof.
  induction path as [|x path IH]; intros hash index last hash' index' last'; cbn [replay_path].
  - intros [= <- _ _]. by exists [].
  - intros (s & Hs%decode32_sized & Hr)%result_bind_ok. destruct (N.odd index || _).
    + destruct (rise index last) as [i l]. apply IH in Hr as (steps & -> & Hsz). exists ((true, s) :: steps). by split; [|constructor].
    + apply IH in Hr as (steps & -> & Hsz). exists ((false, s) :: steps). by split; [|constructor].
Qed.

(** Equal digests come from equal inputs, or there is a collision. *)
Lemma digest_inj x y : sha256_bytes x = sha256_bytes y → x = y ∨ digest_collision.
Proof. intros E. destruct (decide (x = y)); [by left|right; by exists x, y]. Qed.

Lemma leaf_is_leaf a b : leaf_bytes a = leaf_bytes b → a = b ∨ digest_collision.
Proof. intros [[= E]|?]%digest_inj; [by left|by right]. Qed.
(** The prefixes keep leaves and nodes apart. *)
Lemma leaf_is_no_node a x y : leaf_bytes a = node x y → digest_collision.
Proof. intros [[=]|?]%digest_inj; done. Qed.
Lemma append_same_length a : ∀ b x y, String.length a = String.length b → a +:+ x = b +:+ y → a = b ∧ x = y.
Proof.
  induction a as [|c a IH]; intros [|d b] x y Hlen; try done. cbn in Hlen.
  change (String c a +:+ x) with (String c (a +:+ x)). change (String d b +:+ y) with (String d (b +:+ y)).
  intros [= -> E]. apply IH in E as [-> ->]; [done|congruence].
Qed.
Lemma node_children a b x y :
  digest_sized a → digest_sized x → node a b = node x y → (a = x ∧ b = y) ∨ digest_collision.
Proof.
  intros Ha Hx [[= E]|?]%digest_inj; [left|by right]. apply append_same_length in E; [done|].
  unfold digest_sized in *. congruence.
Qed.

Lemma root_leaf_in_tree k : ∀ bodies steps body,
  bodies ≠ [] → (length bodies ≤ 2 ^ k)%nat → Forall (λ s, digest_sized s.2) steps →
  fold_up (leaf_bytes body) steps = mth k (map leaf_bytes bodies) → body ∈ bodies ∨ digest_collision.
Proof.
  assert (∀ l, Forall digest_sized (map leaf_bytes l)) as Hsz.
  { intros l. apply Forall_forall. intros x Hx. apply list_elem_of_In, in_map_iff in Hx as (b & <- & _). apply leaf_sized. }
  induction k as [|k IH]; intros bodies steps body Hne Hlen Hsteps Hroot.
  - destruct bodies as [|b [|? ?]]; try done; [|simpl in Hlen; lia]. cbn [mth map head default] in Hroot.
    destruct steps as [|[d s] steps _] using rev_ind.
    + apply leaf_is_leaf in Hroot as [->|?]; [left; by left|by right].
    + rewrite fold_up_snoc in Hroot. right. destruct d; symmetry in Hroot; by apply leaf_is_no_node in Hroot.
  - cbn [mth] in Hroot. rewrite length_map in Hroot. case_bool_decide as Hsmall; [by eapply IH|].
    rewrite firstn_map, skipn_map in Hroot.
    assert (take (2 ^ k) bodies ≠ [] ∧ drop (2 ^ k) bodies ≠ []) as [Hnt Hnd].
    { pose proof (Nat.pow_nonzero 2 k). rewrite <-!length_zero_iff_nil, length_take, length_drop. lia. }
    assert (digest_sized (mth k (map leaf_bytes (take (2 ^ k) bodies)))) as Hms
      by (apply mth_sized; [by destruct (take (2 ^ k) bodies)|apply Hsz]).
    assert (length (take (2 ^ k) bodies) ≤ 2 ^ k ∧ length (drop (2 ^ k) bodies) ≤ 2 ^ k)%nat as [Hlt Hld]
      by (rewrite length_take, length_drop; simpl in Hlen; lia).
    destruct steps as [|[d s] steps _] using rev_ind; [right; by apply leaf_is_no_node in Hroot|].
    rewrite fold_up_snoc in Hroot. apply Forall_app in Hsteps as [Hsteps Hs]. apply Forall_cons in Hs as [Hs _].
    assert (digest_sized (fold_up (leaf_bytes body) steps)) as Hfs by (apply fold_up_sized, leaf_sized).
    destruct d; apply node_children in Hroot; try done; (destruct Hroot as [[Hl Hr]|?]; [|by right]).
    + destruct (IH _ _ _ Hnd Hld Hsteps Hr) as [Hin|?]; [left|by right].
      rewrite <-(take_drop (2 ^ k) bodies), elem_of_app. by right.
    + destruct (IH _ _ _ Hnt Hlt Hsteps Hl) as [Hin|?]; [left|by right].
      rewrite <-(take_drop (2 ^ k) bodies), elem_of_app. by left.
Qed.

Lemma log2_up_bound n : (0 < n)%nat → (n ≤ 2 ^ Nat.log2_up n)%nat.
Proof.
  intros Hn. destruct (decide (n = 1)%nat) as [->|?]; [done|]. destruct (Nat.log2_up_spec n) as [_ Hle]; [lia|done].
Qed.
End Codecs.

(** ** Properties *)

Section Inclusion.
Context `{RawDigestLaws, HexLaws, NoteCrypto}.

Lemma verify_ok leaf proof key inc :
  verify leaf proof key = Ok inc ↔
  (pf_log_index proof < pf_tree_size proof)%N ∧
  ∃ start hash last, decode32 leaf = Ok start ∧
    replay_path start (pf_log_index proof) (pf_tree_size proof - 1) (pf_hashes proof) = Ok (hash, 0%N, last) ∧
    to_ascii_lowercase (pf_root_hash proof) = hex_encode hash ∧
    ∃ agrees origin trust, attested_root (hex_encode hash) proof key = Ok (agrees, origin, trust) ∧
      inc = mkInclusion (to_ascii_lowercase leaf) (hex_encode hash) (pf_tree_size proof) agrees origin trust.
Proof.
  unfold verify. rewrite !guard_err_ok, N.eqb_neq, N.leb_gt. split.
  - intros (_ & Hlt & (start & Hs & ([[hash index] last] & Hr & Hg)%result_bind_ok)%result_bind_ok).
    cbv zeta in Hg. rewrite !guard_err_ok, !negb_false_iff, N.eqb_eq, bool_decide_eq_true in Hg.
    destruct Hg as (-> & Hroot & ([[a o] t] & Ha & [= <-])%result_bind_ok). split; [done|].
    exists start, hash, last. split; [done|]. split; [done|]. split; [done|]. by exists a, o, t.
  - intros (Hlt & start & hash & last & Hs & Hr & Hroot & a & o & t & Ha & ->). split; [lia|]. split; [done|].
    rewrite Hs. cbn [result_bind]. rewrite Hr. cbn [result_bind]. cbv zeta.
    rewrite !guard_err_ok, !negb_false_iff, bool_decide_eq_true. split; [done|]. split; [done|]. by rewrite Ha.
Qed.

Lemma check_signatures_ok cp key sigs :
  check_signatures cp key sigs = Ok tt →
  ∃ sg point raw, sg ∈ sigs ∧ ns_name sg = lk_name key ∧ ns_key_hash sg = key_hash key ∧
    spki_ec_point (lk_spki_der key) = Ok point ∧
    raw = from_option of_bytes (ns_signature sg) (der_ecdsa_to_raw (bytes (ns_signature sg)) 32) ∧
    es256_verify (url_encode raw) (ck_signed_body cp) point = Some true.
Proof.
  induction sigs as [|sg sigs IH]; [done|]. cbn [check_signatures].
  assert (∀ P : NoteSignature → Prop, (∃ sg', sg' ∈ sigs ∧ P sg') → ∃ sg', sg' ∈ sg :: sigs ∧ P sg') as Hmore
    by (intros P (x & ? & ?); exists x; split; [by right|done]).
  assert (check_signatures cp key sigs = Ok tt → ∃ sg' point raw, sg' ∈ sg :: sigs ∧ ns_name sg' = lk_name key ∧
     ns_key_hash sg' = key_hash key ∧ spki_ec_point (lk_spki_der key) = Ok point ∧
     raw = from_option of_bytes (ns_signature sg') (der_ecdsa_to_raw (bytes (ns_signature sg')) 32) ∧
     es256_verify (url_encode raw) (ck_signed_body cp) point = Some true) as Hrest.
  { intros (x & point & raw & Hx & ?)%IH. exists x, point, raw. split; [by right|done]. }
  case_bool_decide as Hn; cbn [negb]; [|done]. case_bool_decide as Hk; cbn [negb]; [|done].
  intros (point & Hp & Hv)%result_bind_ok. cbv zeta in Hv.
  destruct (es256_verify _ _ _) as [[]|] eqn:Hes; [|by apply Hrest|done].
  eexists sg, point, _. split; [by left|]. done.
Qed.

(** C36: an honest inclusion proof verifies.  For every non-empty log and every entry of it,
    the audit path of RFC 6962 for that entry, its index and the size of the log verify
    against the log's Merkle root, whatever the size of the log; what is then said of the
    root is what its checkpoint and the configured key support. *)
Theorem inclusion_complete bodies i body note key agrees origin trust :
  bodies !! i = Some body →
  let root := hex_encode (tree_root bodies) in
  let proof := mkInclusionProof (N.of_nat i) (len bodies) root (map hex_encode (audit_path i bodies)) note in
  attested_root root proof key = Ok (agrees, origin, trust) →
  verify (leaf_hash body) proof key = Ok (mkInclusion (leaf_hash body) root (len bodies) agrees origin trust).
Proof.
  intros Hi root proof Ha. apply verify_ok. pose proof (lookup_lt_Some _ _ _ Hi) as Hlt. cbn [pf_log_index pf_tree_size pf_hashes pf_root_hash proof].
  split; [unfold len; lia|]. unfold root, leaf_hash. rewrite !hex_lower.
  destruct (replay_edge (Nat.log2_up (length bodies)) (map leaf_bytes bodies) i (leaf_bytes body) 0) as (m & _ & Hrun).
  - rewrite length_map. lia.
  - rewrite length_map. apply log2_up_bound. lia.
  - apply Forall_forall. intros x Hx. apply list_elem_of_In, in_map_iff in Hx as (b & <- & _). apply leaf_sized.
  - change (map leaf_bytes bodies) with (leaf_bytes <$> bodies). rewrite list_lookup_fmap. by rewrite Hi.
  - rewrite !N.mul_0_l, !N.add_0_l in Hrun.
    replace (len (map leaf_bytes bodies)) with (len bodies) in Hrun by (unfold len; by rewrite length_map).
    exists (leaf_bytes body), (tree_root bodies), 0%N. split; [apply decode32_hex, leaf_sized|]. split; [exact Hrun|].
    split; [done|]. by exists agrees, origin, trust.
Qed.

(** An accepted proof shows inclusion, as far as the root is the log's.  If a proof for an
    entry is accepted and the root it reproduced is the Merkle root of some log, then the
    entry is in that log, or two texts with one SHA-256 digest exist; and when the result
    says the log signed the root, the checkpoint names this root and this size and one of
    its signatures, under the configured key's name and hash, verifies over the origin, the
    size and the root. *)
Theorem inclusion_sound body proof key inc :
  verify (leaf_hash body) proof key = Ok inc →
  (∀ bodies, bodies ≠ [] → inc_computed_root inc = hex_encode (tree_root bodies) → body ∈ bodies ∨ digest_collision) ∧
  (inc_root_trust inc = LogSigned → ∃ k note cp sg point raw, key = Some k ∧ pf_checkpoint proof = Some note ∧
     Checkpoint_parse note = Ok cp ∧ ck_root_hash cp = inc_computed_root inc ∧ ck_tree_size cp = inc_tree_size inc ∧
     sg ∈ ck_signatures cp ∧ ns_name sg = lk_name k ∧ ns_key_hash sg = key_hash k ∧
     spki_ec_point (lk_spki_der k) = Ok point ∧
     raw = from_option of_bytes (ns_signature sg) (der_ecdsa_to_raw (bytes (ns_signature sg)) 32) ∧
     es256_verify (url_encode raw) (ck_signed_body cp) point = Some true).
Proof.
  intros (_ & start & hash & last & Hs & Hr & _ & a & o & t & Ha & ->)%verify_ok. cbn [inc_computed_root inc_root_trust inc_tree_size].
  unfold leaf_hash in Hs. rewrite decode32_hex in Hs by apply leaf_sized. injection Hs as <-. split.
  - intros bodies Hne Hroot%hex_inj. apply replay_path_folds in Hr as (steps & -> & Hsz).
    eapply root_leaf_in_tree; [done| |done|exact Hroot]. apply log2_up_bound. destruct bodies; [done|simpl; lia].
  - intros ->. unfold attested_root in Ha. destruct (pf_checkpoint proof) as [note|]; [|done].
    apply result_bind_ok in Ha as (cp & Hcp & Hg).
    rewrite guard_err_ok, orb_false_iff, !negb_false_iff, N.eqb_eq, bool_decide_eq_true in Hg. destruct Hg as [[Hr1 Hr2] Hg].
    destruct key as [k|]; [|done]. apply result_bind_ok in Hg as ([] & Hv & _).
    unfold verify_checkpoint in Hv. rewrite guard_err_ok in Hv. destruct Hv as [_ Hv].
    apply check_signatures_ok in Hv as (sg & point & raw & ?). by exists k, note, cp, sg, point, raw.
Qed.

(** An accepted proof does not show where in the tree the entry is.  For the first index
    the length of the path is not checked: no path at all, and a path past the root, are
    accepted for a tree of any size, with the hash they end at as the root -- and a proof
    that carries no checkpoint is accepted with a log key configured, its root unattested. *)
Theorem path_length_unchecked body n siblings key :
  (0 < n)%N → Forall digest_sized siblings →
  (∃ inc, verify (leaf_hash body) (mkInclusionProof 0 n (leaf_hash body) [] None) key = Ok inc ∧
     inc_tree_size inc = n ∧ inc_computed_root inc = leaf_hash body ∧ inc_root_trust inc = Unattested) ∧
  (∃ inc, verify (leaf_hash body) (mkInclusionProof 0 1 (hex_encode (fold_up (leaf_bytes body) (map (pair true) siblings)))
            (map hex_encode siblings) None) key = Ok inc ∧ inc_tree_size inc = 1%N).
Proof.
  intros Hn Hs. split; eexists; split.
  - apply verify_ok. cbn [pf_log_index pf_tree_size pf_hashes pf_root_hash]. split; [done|]. unfold leaf_hash. rewrite hex_lower.
    eexists _, _, _. split; [apply decode32_hex, leaf_sized|]. split; [reflexivity|]. split; [done|]. eexists _, _, _. by split.
  - done.
  - apply verify_ok. cbn [pf_log_index pf_tree_size pf_hashes pf_root_hash]. split; [done|]. rewrite hex_lower.
    eexists _, _, _. split; [apply decode32_hex, leaf_sized|]. split; [|split; [reflexivity|eexists _, _, _; by split]].
    clear Hn. generalize (leaf_bytes body). induction Hs as [|s siblings Hs _ IH]; intros hash; [done|].
    cbn [map replay_path]. rewrite decode32_hex by done. cbn. apply IH.
  - done.
Qed.
End Inclusion.

(** ** Concrete logs *)

Module RekorExamples.
(** A digest for examples: the text padded to 32 bytes after its length. *)
Definition pad32 (s : string) : string :=
  bytes_take 32 (String (ascii_of_nat (String.length s)) s +:+ of_bytes (replicate 32 0%N)).
#[export] Instance digest : RawDigest := pad32.
#[export] Instance hex : HexCodec := { hex_encode := TestSha.hex_encode; hex_crate_decode := TestJose.hex_decode }.
(** Base64 stands for itself; a signature is the message after the point's last byte. *)
#[export] Instance crypto : NoteCrypto := {
  std_decode := TestJose.hex_decode;
  url_encode s := s;
  es256_verify sig msg point := Some (bool_decide (sig = bytes_take 8 msg))
}.

Lemma string_length_append a b : String.length (a +:+ b) = (String.length a + String.length b)%nat.
Proof. induction a as [|c a IH]; [done|]. simpl. by rewrite IH. Qed.
Lemma substring_length n : ∀ s, (n ≤ String.length s)%nat → String.length (String.substring 0 n s) = n.
Proof. induction n as [|n IH]; intros [|c s] Hs; simpl in *; try lia; [done..|]. rewrite IH; lia. Qed.
#[export] Instance digest_laws : RawDigestLaws.
Proof.
  intros s. unfold sha256_bytes, digest, pad32, bytes_take. apply substring_length. rewrite string_length_append.
  change (String.length (of_bytes (replicate 32 0%N))) with 32%nat. lia.
Qed.
#[export] Instance hex_laws : HexLaws.
Proof.
  split; [exact TestJose.hex_roundtrip|]. intros s b Hb. cbn [hex_encode hex] in Hb.
  induction s as [|c s IH]; simpl in Hb; [set_solver|].
  assert (∀ n, (n < 16)%N → N_of_ascii (TestSha.hex_digit n) = b → (48 ≤ b ≤ 57 ∨ 97 ≤ b ≤ 102)%N) as Hd.
  { intros n Hn <-. unfold TestSha.hex_digit. destruct (n <? 10)%N eqn:E; bool_facts; rewrite N_ascii_embedding by lia; lia. }
  pose proof (N_ascii_bounded c) as Hc.
  apply elem_of_cons in Hb as [Hb|[Hb|Hb]%elem_of_cons]; [..|by apply IH].
  - eapply (Hd (N_of_ascii c / 16)%N); [|done]. apply N.Div0.div_lt_upper_bound. lia.
  - eapply (Hd (N_of_ascii c mod 16)%N); [|done]. by apply N.mod_lt.
Qed.

Definition bodies : list string := ["a"; "b"; "c"].
Definition root : string := hex_encode (tree_root bodies).
Definition spki : string := of_bytes (4 :: replicate 64 7)%N.
Definition key : LogKey := mkLogKey "log" spki.
Definition checkpoint : string :=
  let body := note_body "origin" 3 root in
  body +:+ LFs +:+ EM_DASH_SPACE +:+ "log " +:+ hex_encode (key_hash key +:+ bytes_take 8 body) +:+ LFs.

Lemma inclusion_complete_witness :
  ∃ inc, verify (leaf_hash "c") (mkInclusionProof 2 3 root (map hex_encode (audit_path 2 bodies)) (Some checkpoint)) (Some key) = Ok inc ∧
    inc_root_trust inc = LogSigned ∧ inc_computed_root inc = root.
Proof.
  eexists. split; [|split].
  - apply (inclusion_complete bodies 2 "c" (Some checkpoint) (Some key) true (Some "origin") LogSigned).
    + reflexivity.
    + vm_compute. reflexivity.
  - reflexivity.
  - reflexivity.
Defined.

Definition included : Inclusion := mkInclusion (leaf_hash "b") root 3 true (Some "origin") LogSigned.
Lemma inclusion_sound_witness :
  "b" ∈ bodies ∨ digest_collision.
Proof.
  refine (proj1 (inclusion_sound "b" (mkInclusionProof 1 3 root (map hex_encode (audit_path 1 bodies)) (Some checkpoint)) (Some key) included _) bodies _ _).
  - vm_compute. reflexivity.
  - done.
  - reflexivity.
Defined.

Lemma path_length_unchecked_witness :
  ∃ inc, verify (leaf_hash "a") (mkInclusionProof 0 1000 (leaf_hash "a") [] None) (Some key) = Ok inc ∧ inc_tree_size inc = 1000%N.
Proof.
  destruct (path_length_unchecked "a" 1000 [leaf_bytes "b"] (Some key)) as [(inc & Hv & Hn & _) _].
  - reflexivity.
  - constructor; [reflexivity|constructor].
  - by exists inc.
Defined.
End RekorExamples.
