(* ===== verification/Admission.v ===== *)
(** * Admission: the pipeline that decides a registration, and the risk tier
    ([crates/wc-control/src/admission.rs])

    Seven stages in a fixed order.  The verifiers are trait objects in the source and here
    the functions of an [AdmissionCtx]: the pipeline's theorems hold for any of them.  What
    a stage says for a reader (its [method], the tier's rationale) is prose and is not
    modelled; the verdicts, the findings with their codes and the entity written are.
    [McpHttpSurface] fetches over HTTP and is one more verifier. *)

From S2P Require Import Prelude Text Errors Model Json Canon Contract Artifact Std.

#[local] Open Scope N_scope.

(** ** Requests, stages and outcomes *)

Record Declared := mkDeclared {
  dec_data_classes : list string;
  dec_jurisdictions : list string;
  dec_requested_tier : option Tier;
  dec_service : option string
}.

Record AdmissionRequest := mkAdmissionRequest {
  ar_kind : Kind;
  ar_id : option EntityId;
  ar_card : option Value;
  ar_endpoint : option string;
  ar_attestation : list ProvRef;
  ar_owner : HumanRef;
  ar_zone : ZoneId;
  ar_declared : Declared;
  ar_mode : Mode
}.

Inductive Stage := SIdentity | SSurface | SCardSignature | SProvenance | SScreening | STier | SPin.
#[global] Instance Stage_eq_dec : EqDecision Stage.
Proof. solve_decision. Defined.

Definition failure_code (s : Stage) : Code :=
  match s with
  | SIdentity => IDENTITY_UNVERIFIABLE
  | SSurface => SURFACE_UNOBTAINABLE
  | SCardSignature => CARD_SIGNATURE_INVALID
  | SProvenance => PROVENANCE_UNVERIFIABLE
  | SScreening => SCREENING_BLOCKED
  | STier => TIER_EXCEEDS_CEILING
  | SPin => PIN_WRITE_FAILED
  end.

Inductive StageVerdict := Passed | Skipped | Degraded.
#[global] Instance StageVerdict_eq_dec : EqDecision StageVerdict.
Proof. solve_decision. Defined.
Record StageResult := mkStageResult { sr_stage : Stage; sr_verdict : StageVerdict }.

Inductive Severity := Low | Medium | High | Critical.
Record Finding := mkFinding { fi_code : Code; fi_severity : Severity }.

Record AdmissionOutcome := mkAdmissionOutcome {
  ao_entity : Entity;
  ao_findings : list Finding;
  ao_stages : list StageResult
}.

Definition fully_attested (o : AdmissionOutcome) : bool :=
  forallb (λ s, bool_decide (sr_verdict s = Passed)) (ao_stages o).
Definition skipped (o : AdmissionOutcome) : list Stage :=
  map sr_stage (filterb (λ s, bool_decide (sr_verdict s = Skipped)) (ao_stages o)).

(** ** The stage interfaces *)

Record IdentityProof := mkIdentityProof { ip_id : EntityId; ip_verified : bool }.
Record FetchedSurface := mkFetchedSurface { fs_kind : SurfaceKind; fs_raw : Value }.
Record CardProof := mkCardProof { cp_verified : bool }.
Record ProvenanceProof := mkProvenanceProof { pp_verified : bool; pp_refs : list ProvRef }.
Record ScreenReport := mkScreenReport { sc_ran : bool; sc_blocked : bool; sc_findings : list Finding }.

(** The verifiers shipped with the first phase. *)
Definition AssertedIdentity (req : AdmissionRequest) : result IdentityProof :=
  let? id := ok_or (ar_id req) IDENTITY_UNVERIFIABLE in Ok (mkIdentityProof id false).
Definition InlineSurface (kind : SurfaceKind) (raw : Value) (req : AdmissionRequest) : result FetchedSurface :=
  Ok (mkFetchedSurface kind raw).
Definition UnverifiedCard (req : AdmissionRequest) (f : FetchedSurface) : result CardProof :=
  Ok (mkCardProof false).
Definition UnverifiedProvenance (req : AdmissionRequest) : result ProvenanceProof :=
  Ok (mkProvenanceProof false (ar_attestation req)).
Definition NoScreening (f : FetchedSurface) : result ScreenReport := Ok (mkScreenReport false false []).

(** ** Tier derivation *)

Definition CLASS_1_KEYWORDS : list string :=
  ["transfer"; "wire"; "payment"; "pay"; "refund"; "withdraw"; "settle"; "delete"; "drop"; "destroy";
   "terminate"; "truncate"; "revoke"; "grant"; "iam"; "role"; "permission"; "policy"; "exec"; "eval";
   "shell"; "command"; "deploy"; "provision"; "rotate_key"; "credential"].
Definition CLASS_2_KEYWORDS : list string :=
  ["send"; "email"; "sms"; "post"; "publish"; "upload"; "export"; "share"; "write"; "create"; "update";
   "insert"; "patch"; "put"; "notify"; "webhook"; "invite"; "comment"; "message"].
Definition CLASS_3_KEYWORDS : list string :=
  ["read"; "get"; "list"; "fetch"; "query"; "search"; "describe"; "lookup"; "balance"; "history"].

Definition DEFAULT_RESIDENCY_GROUPS : list (list string) :=
  [["AT"; "BE"; "BG"; "HR"; "CY"; "CZ"; "DK"; "EE"; "FI"; "FR"; "DE"; "GR"; "HU"; "IE"; "IT"; "LV"; "LT";
    "LU"; "MT"; "NL"; "PL"; "PT"; "RO"; "SK"; "SI"; "ES"; "SE"; "IS"; "LI"; "NO"];
   ["GB"]; ["US"; "CA"]; ["AU"; "NZ"]; ["SG"; "MY"; "HK"; "JP"; "KR"; "TW"]; ["IN"]; ["CN"];
   ["AE"; "SA"; "QA"]; ["BR"; "MX"; "AR"]; ["ZA"; "NG"; "KE"]].

(** [TierRules] has the one field. *)
Definition TierRules := list (list string).
Definition TierRules_default : TierRules := DEFAULT_RESIDENCY_GROUPS.

Definition mentions (keywords : list string) (text : string) : bool :=
  existsb (λ k, str_contains k text) keywords.

Definition hint (name : string) (item : Value) : bool :=
  default false ((vget "annotations" item ≫= vget name) ≫= as_bool).

Definition capability_class (name : string) (item : Value) : N :=
  let description := default "" (vget "description" item ≫= as_str) in
  let haystack := to_ascii_lowercase name +:+ " " +:+ to_ascii_lowercase description in
  let destructive := hint "destructiveHint" item in
  let read_only := hint "readOnlyHint" item in
  let name_lower := to_ascii_lowercase name in
  let class := if mentions CLASS_1_KEYWORDS name_lower then 1
               else if mentions CLASS_2_KEYWORDS name_lower then 2
               else if mentions CLASS_3_KEYWORDS name_lower then 3
               else if mentions CLASS_1_KEYWORDS haystack then 1
               else 2 in
  let class := if destructive then N.min class 1 else class in
  if read_only && (3 <=? class) then 3 else class.

Definition data_class_tier (class : string) : N :=
  let class := to_ascii_lowercase class in
  if str_in class ["restricted"; "pii"; "phi"; "pci"; "secret"] then 1
  else if bool_decide (class = "confidential") then 2
  else if bool_decide (class = "internal") then 3
  else if bool_decide (class = "public") then 4
  else 2.

(** [name.contains('*')] and [name.contains('?')]. *)
Definition is_unbounded (name : string) (item : Value) : bool :=
  if str_contains "*" name || str_contains "?" name then true else
  let schema := vget "inputSchema" item in
  let additional := default false ((schema ≫= vget "additionalProperties") ≫= as_bool) in
  let has_properties := match (schema ≫= vget "properties") ≫= as_object with
                        | Some p => negb (bool_decide (length p = 0%nat))
                        | None => false
                        end in
  additional && negb has_properties.

Definition surface_items (fetched : FetchedSurface) : list (string * Value) :=
  let array := match fs_kind fetched with
               | McpTools => match vget "tools" (fs_raw fetched) ≫= as_array with
                             | Some a => Some a
                             | None => as_array (fs_raw fetched)
                             end
               | A2aCard => vget "skills" (fs_raw fetched) ≫= as_array
               end in
  omap (λ item,
    name ← (match vget "name" item with Some v => Some v | None => vget "id" item end) ≫= as_str;
    Some (name, item)) (default [] array).

Definition ascii_upper (b : N) : N := if is_ascii_lowercase b then b - 32 else b.
Definition to_ascii_uppercase (s : string) : string := of_bytes (map ascii_upper (bytes s)).

Fixpoint position {A} (p : A → bool) (l : list A) : option nat :=
  match l with
  | [] => None
  | x :: l => if p x then Some 0%nat else S <$> position p l
  end.

(** [sort_unstable], [dedup] and [len] count the distinct groups. *)
Definition spans_residency_groups (jurisdictions : list string) (rules : TierRules) : bool :=
  let groups := omap (λ j, position (str_in (to_ascii_uppercase j)) rules) jurisdictions in
  bool_decide (1 < size (list_to_set groups : gset nat))%nat.

(** One step more sensitive, and never past tier 1. *)
Definition escalate (b : bool) (tier : N) : N := if b then N.max (saturating_sub tier 1) 1 else tier.

Definition min_list (d : N) (l : list N) : N := foldl N.min d l.

Definition derive_tier (declared : Declared) (fetched : FetchedSurface) (zone : ZoneId) (rules : TierRules)
    : Tier :=
  let base := match map data_class_tier (dec_data_classes declared) with
              | [] => 2
              | t :: ts => min_list t ts
              end in
  let items := surface_items fetched in
  let cap := foldl (λ cap it, let class := capability_class it.1 it.2 in if class <? cap then class else cap)
               4 items in
  let unbounded := existsb (λ it, is_unbounded it.1 it.2) items in
  let cap := if bool_decide (length items = 0%nat) then 4 else cap in
  let tier := N.min base cap in
  let tier := escalate (negb (bool_decide (trust_level zone = Internal))) tier in
  let tier := escalate unbounded tier in
  let tier := escalate (spans_residency_groups (dec_jurisdictions declared) rules) tier in
  let tier := N.min (N.max tier 1) 4 in
  match Tier_new tier with Ok t => t | Err _ => Tier_ONE end.

(** ** The pipeline *)

Record AdmissionCtx := mkAdmissionCtx {
  ax_identity : AdmissionRequest → result IdentityProof;
  ax_surface : AdmissionRequest → result FetchedSurface;
  ax_card : AdmissionRequest → FetchedSurface → result CardProof;
  ax_provenance : AdmissionRequest → result ProvenanceProof;
  ax_screener : FetchedSurface → result ScreenReport;
  ax_limits : Limits;
  ax_tier_rules : TierRules;
  ax_now : N
}.

Abbreviation Trail := (list StageResult * list Finding)%type.

Definition passed (stage : Stage) (t : Trail) : Trail := (t.1 ++ [mkStageResult stage Passed], t.2).

Definition record (stage : Stage) (verified : bool) (mode : Mode) (severity : Severity) (t : Trail)
    : result Trail :=
  if verified then Ok (passed stage t) else
  let code := failure_code stage in
  guard_err (denies_in code mode) code $
  Ok (t.1 ++ [mkStageResult stage Skipped], t.2 ++ [mkFinding code severity]).

Section Pipeline.
Context `{SerdeJson, Nfc, Sha256}.

Definition admitted_entity (req : AdmissionRequest) (ctx : AdmissionCtx) (id : EntityId) (tier : Tier)
    (refs : list ProvRef) (pin : Pin) (posture : Posture) : Entity :=
  let d := ar_declared req in
  let e := Entity_pending id (ar_kind req) (ar_owner req) (ar_zone req) tier (ax_now ctx) in
  mkEntity (ent_id e) (ent_kind e) (ent_owner e) (dec_service d) (ent_tier e) (ent_zone e) pin refs posture
    (ent_posture_score e) (ent_lifecycle e) (dec_data_classes d) (dec_jurisdictions d) (ar_endpoint req)
    (ent_reattest_every e) (if bool_decide (posture = Attested) then ax_now ctx else 0) (ent_created_at e)
    (ent_updated_at e) (ent_quarantined_at e) (ent_schema e).

Definition Admission_admit (req : AdmissionRequest) (ctx : AdmissionCtx) : result AdmissionOutcome :=
  (* 1: identity *)
  let? identity := ax_identity ctx req in
  let? t := record SIdentity (ip_verified identity) (ar_mode req) High ([], []) in
  (* 2: surface acquisition *)
  let? fetched := ax_surface ctx req in
  let t := passed SSurface t in
  (* 3: card signature *)
  let? card := ax_card ctx req fetched in
  let? t := record SCardSignature (cp_verified card) (ar_mode req) Medium t in
  (* 4: provenance *)
  let? provenance := ax_provenance ctx req in
  let? t := record SProvenance (pp_verified provenance) (ar_mode req) High t in
  (* 5: screening *)
  let? screen := ax_screener ctx fetched in
  let t := (t.1, t.2 ++ sc_findings screen) in
  guard_err (sc_blocked screen) SCREENING_BLOCKED $
  let t := (t.1 ++ [mkStageResult SScreening (if sc_ran screen then Passed else Skipped)], t.2) in
  (* 6: tier *)
  let tier := derive_tier (ar_declared req) fetched (ar_zone req) (ax_tier_rules ctx) in
  guard_err (match dec_requested_tier (ar_declared req) with
             | Some ceiling => is_at_least_as_sensitive_as tier ceiling && negb (bool_decide (tier = ceiling))
             | None => false
             end) TIER_EXCEEDS_CEILING $
  let t := passed STier t in
  (* 7: canonicalise and pin *)
  let? pin := Canon.pin (fs_kind fetched) (ip_id identity) (fs_raw fetched) (ax_limits ctx) (ax_now ctx) in
  let t := passed SPin t in
  let posture := if ip_verified identity && cp_verified card && pp_verified provenance
                 then Attested else Unattested in
  Ok (mkAdmissionOutcome
        (admitted_entity req ctx (ip_id identity) tier (pp_refs provenance) pin posture) t.2 t.1).
End Pipeline.

Definition observe_ctx (surface : AdmissionRequest → result FetchedSurface) (now : N) : AdmissionCtx :=
  mkAdmissionCtx AssertedIdentity surface UnverifiedCard UnverifiedProvenance NoScreening Limits_default
    TierRules_default now.

(** ** Lemmas *)

Lemma record_ok stage verified mode severity t t' :
  record stage verified mode severity t = Ok t' ↔
  (verified = true ∨ denies_in (failure_code stage) mode = false) ∧
  t' = (t.1 ++ [mkStageResult stage (if verified then Passed else Skipped)],
        t.2 ++ (if verified then [] else [mkFinding (failure_code stage) severity])).
Proof.
  unfold record, passed. destruct verified.
  - rewrite app_nil_r. split; [intros [= <-]; split; [by left|done]|by intros [_ ->]].
  - rewrite guard_err_ok. split.
    + intros [Hd [= <-]]. split; [by right|done].
    + intros [[[=]|Hd] ->]. split; [exact Hd|reflexivity].
Qed.

(** The three stages observe mode softens. *)
Lemma softened_stages stage : stage = SIdentity ∨ stage = SCardSignature ∨ stage = SProvenance →
  ∀ mode, denies_in (failure_code stage) mode = bool_decide (mode = Enforce).
Proof. by intros [->|[->| ->]] []; vm_compute. Qed.

Lemma class_range name item : (1 ≤ capability_class name item ≤ 3)%N.
Proof. unfold capability_class. repeat case_match; lia. Qed.

(** The class from the name and the description alone. *)
Definition named_class (name description : string) : N :=
  let haystack := to_ascii_lowercase name +:+ " " +:+ to_ascii_lowercase description in
  let name_lower := to_ascii_lowercase name in
  if mentions CLASS_1_KEYWORDS name_lower then 1
  else if mentions CLASS_2_KEYWORDS name_lower then 2
  else if mentions CLASS_3_KEYWORDS name_lower then 3
  else if mentions CLASS_1_KEYWORDS haystack then 1
  else 2.

Lemma capability_class_eq name item :
  capability_class name item =
  if hint "destructiveHint" item then 1
  else named_class name (default "" (vget "description" item ≫= as_str)).
Proof.
  unfold capability_class. cbv zeta. fold (named_class name (default "" (vget "description" item ≫= as_str))).
  set (c := named_class _ _). assert (1 ≤ c ≤ 3) as Hc by (unfold c, named_class; repeat case_match; lia).
  destruct (hint "destructiveHint" item); [rewrite N.min_r by lia|].
  - rewrite andb_false_r. done.
  - destruct (hint "readOnlyHint" item); simpl; [|done]. destruct (3 <=? c) eqn:E; [|done].
    apply N.leb_le in E. lia.
Qed.

Lemma min_list_spec d l n : (n ≤ min_list d l ↔ n ≤ d ∧ ∀ x, x ∈ l → n ≤ x)%N.
Proof.
  unfold min_list. revert d. induction l as [|x l IH]; intros d; simpl; [set_solver|].
  rewrite IH, N.min_glb_iff. set_solver.
Qed.

Lemma min_list_le d l : (min_list d l ≤ d)%N.
Proof. by destruct (proj1 (min_list_spec d l _) (N.le_refl _)). Qed.

Lemma cap_fold cap (items : list (string * Value)) :
  foldl (λ cap it, let class := capability_class it.1 it.2 in if class <? cap then class else cap) cap items
  = min_list cap ((λ it, capability_class it.1 it.2) <$> items).
Proof.
  unfold min_list. revert cap. induction items as [|it items IH]; intros cap; simpl; [done|]. rewrite IH.
  f_equal. destruct (_ <? _) eqn:E; [apply N.ltb_lt in E|apply N.ltb_ge in E]; lia.
Qed.

(** The tier in its parts. *)
Definition base_tier (classes : list string) : N :=
  match map data_class_tier classes with [] => 2 | t :: ts => min_list t ts end.
Definition cap_tier (items : list (string * Value)) : N :=
  min_list 4 ((λ it, capability_class it.1 it.2) <$> items).
Definition any_unbounded (items : list (string * Value)) : bool := existsb (λ it, is_unbounded it.1 it.2) items.

Lemma data_class_tier_range c : (1 ≤ data_class_tier c ≤ 4)%N.
Proof. unfold data_class_tier. repeat case_match; lia. Qed.

Lemma base_tier_range classes : (1 ≤ base_tier classes ≤ 4)%N.
Proof.
  unfold base_tier. destruct classes as [|c cs]; simpl; [lia|]. pose proof (data_class_tier_range c). split.
  - apply min_list_spec. split; [lia|]. intros x (c' & -> & _)%list_elem_of_fmap. apply data_class_tier_range.
  - pose proof (min_list_le (data_class_tier c) (map data_class_tier cs)). lia.
Qed.

Lemma base_tier_spec classes n : classes ≠ [] →
  (n ≤ base_tier classes ↔ ∀ c, c ∈ classes → n ≤ data_class_tier c).
Proof.
  unfold base_tier. destruct classes as [|d ds]; [done|]. intros _. simpl. rewrite min_list_spec.
  setoid_rewrite elem_of_cons. split.
  - intros [Hd Hds] c [->|Hc]; [done|]. apply Hds. by apply list_elem_of_fmap_2.
  - intros Hc. split; [by apply Hc; left|]. intros x (c & -> & Hin)%list_elem_of_fmap. by apply Hc; right.
Qed.

Lemma cap_tier_range items : (1 ≤ cap_tier items ≤ 4)%N.
Proof.
  unfold cap_tier. split; [|apply min_list_le]. apply min_list_spec. split; [lia|].
  intros x ([n v] & -> & _)%list_elem_of_fmap. apply class_range.
Qed.

Lemma escalate_range b t : (1 ≤ t ≤ 4 → 1 ≤ escalate b t ≤ 4)%N.
Proof. unfold escalate, saturating_sub. destruct b; lia. Qed.
Lemma escalate_mono b b' t t' : (b = true → b' = true) → (1 ≤ t' ≤ t → escalate b' t' ≤ escalate b t)%N.
Proof. unfold escalate, saturating_sub. destruct b, b'; intros Hb; try lia. Qed.

Lemma derive_tier_eq d f zone rules :
  tier_u8 (derive_tier d f zone rules)
  = escalate (spans_residency_groups (dec_jurisdictions d) rules)
      (escalate (any_unbounded (surface_items f))
        (escalate (negb (bool_decide (trust_level zone = Internal)))
          (N.min (base_tier (dec_data_classes d)) (cap_tier (surface_items f))))).
Proof.
  unfold derive_tier. cbv zeta. rewrite cap_fold. fold (base_tier (dec_data_classes d)).
  assert ((if bool_decide (length (surface_items f) = 0%nat) then 4
           else min_list 4 ((λ it, capability_class it.1 it.2) <$> surface_items f)) = cap_tier (surface_items f)) as ->.
  { unfold cap_tier. case_bool_decide as Hn; [|done]. by apply nil_length_inv in Hn as ->. }
  fold (any_unbounded (surface_items f)).
  pose proof (base_tier_range (dec_data_classes d)). pose proof (cap_tier_range (surface_items f)).
  set (t := escalate (spans_residency_groups _ _) _).
  assert (1 ≤ t ≤ 4)%N as Ht by (unfold t; do 3 apply escalate_range; lia).
  replace (N.min (N.max t 1) 4) with t by lia. unfold Tier_new.
  destruct (_ && _) eqn:E; [done|]. apply andb_false_iff in E. rewrite !N.leb_gt in E. lia.
Qed.

(** ** Properties *)

Section AdmissionTheorems.
Context `{SerdeJson, Nfc, Sha256}.

Lemma ceiling_ok tier (requested : option Tier) :
  match requested with
  | Some ceiling => is_at_least_as_sensitive_as tier ceiling && negb (bool_decide (tier = ceiling))
  | None => false
  end = false ↔ ∀ ceiling, requested = Some ceiling → (tier_u8 ceiling ≤ tier_u8 tier)%N.
Proof.
  destruct requested as [[c]|]; [|by split]. unfold is_at_least_as_sensitive_as. destruct tier as [t]. simpl.
  rewrite andb_false_iff, negb_false_iff, bool_decide_eq_true, N.leb_gt. split.
  - intros Hc ? [= <-]. simpl. destruct Hc as [?|[= ->]]; lia.
  - intros Hc. specialize (Hc _ eq_refl). simpl in Hc. destruct (decide (t = c)) as [->|]; [by right|left; lia].
Qed.

Lemma verified_or_observe (a b c : bool) (m : Mode) :
  (a && b && c = true ∨ m = Observe) ↔
  (a = true ∨ m ≠ Enforce) ∧ (b = true ∨ m ≠ Enforce) ∧ (c = true ∨ m ≠ Enforce).
Proof. rewrite !andb_true_iff. destruct m; intuition congruence. Qed.

(** What an admission amounts to: a party is admitted exactly when its identity could be
    established, its surface fetched, its card and provenance examined and the screener
    run, each without error; nothing in the surface is blocked, in either mode; identity,
    card and provenance are all verified, unless the mode is observe; the derived tier is
    no more sensitive than the one asked for; and the surface canonicalises, under the
    established identity, to a pin.  The entity written is then pending, carries that pin
    and that tier, and is attested exactly when all three were verified; what was not
    checked is on the record as skipped. *)
Theorem admission_exact req ctx o :
  Admission_admit req ctx = Ok o ↔
  ∃ identity fetched card provenance screen pin,
    ax_identity ctx req = Ok identity ∧ ax_surface ctx req = Ok fetched ∧ ax_card ctx req fetched = Ok card ∧
    ax_provenance ctx req = Ok provenance ∧ ax_screener ctx fetched = Ok screen ∧
    let verified := ip_verified identity && cp_verified card && pp_verified provenance in
    let tier := derive_tier (ar_declared req) fetched (ar_zone req) (ax_tier_rules ctx) in
    let mark (b : bool) := if b then Passed else Skipped in
    let found (b : bool) code severity := if b then [] else [mkFinding code severity] in
    (verified = true ∨ ar_mode req = Observe) ∧ sc_blocked screen = false ∧
    (∀ ceiling, dec_requested_tier (ar_declared req) = Some ceiling → (tier_u8 ceiling ≤ tier_u8 tier)%N) ∧
    Canon.pin (fs_kind fetched) (ip_id identity) (fs_raw fetched) (ax_limits ctx) (ax_now ctx) = Ok pin ∧
    ao_entity o = admitted_entity req ctx (ip_id identity) tier (pp_refs provenance) pin
                    (if verified then Attested else Unattested) ∧
    ent_lifecycle (ao_entity o) = Pending ∧
    ao_stages o = [mkStageResult SIdentity (mark (ip_verified identity)); mkStageResult SSurface Passed;
                   mkStageResult SCardSignature (mark (cp_verified card));
                   mkStageResult SProvenance (mark (pp_verified provenance));
                   mkStageResult SScreening (mark (sc_ran screen)); mkStageResult STier Passed;
                   mkStageResult SPin Passed] ∧
    ao_findings o = found (ip_verified identity) IDENTITY_UNVERIFIABLE High
                    ++ found (cp_verified card) CARD_SIGNATURE_INVALID Medium
                    ++ found (pp_verified provenance) PROVENANCE_UNVERIFIABLE High ++ sc_findings screen.
Proof.
  unfold Admission_admit. split.
  - intros (i & Ei & (t1 & [E1 ->]%record_ok & (f & Ef & (c & Ec & (t2 & [E2 ->]%record_ok &
      (p & Ep & (t3 & [E3 ->]%record_ok & (s & Es & [Eb [Et (pin & Epin & [= <-])%result_bind_ok]%guard_err_ok]%guard_err_ok)
      %result_bind_ok)%result_bind_ok)%result_bind_ok)%result_bind_ok)%result_bind_ok)%result_bind_ok)
      %result_bind_ok)%result_bind_ok.
    rewrite !softened_stages, bool_decide_eq_false in * by tauto. pose proof (proj1 (ceiling_ok _ _) Et) as Et'. clear Et.
    exists i, f, c, p, s, pin. cbv zeta. cbn [ao_entity ao_stages ao_findings fst snd app passed].
    repeat (split; [done || apply verified_or_observe; tauto|]). rewrite <-?app_assoc. done.
  - intros (i & f & c & p & s & pin & Ei & Ef & Ec & Ep & Es & Hv & Eb & Et & Epin & He & _ & Hs & Hf).
    apply verified_or_observe in Hv as (V1 & V2 & V3).
    apply result_bind_ok. exists i. split; [done|].
    apply result_bind_ok. eexists. split; [apply record_ok; split; [by rewrite softened_stages, bool_decide_eq_false by tauto|done]|].
    apply result_bind_ok. exists f. split; [done|]. apply result_bind_ok. exists c. split; [done|].
    apply result_bind_ok. eexists. split; [apply record_ok; split; [by rewrite softened_stages, bool_decide_eq_false by tauto|done]|].
    apply result_bind_ok. exists p. split; [done|].
    apply result_bind_ok. eexists. split; [apply record_ok; split; [by rewrite softened_stages, bool_decide_eq_false by tauto|done]|].
    apply result_bind_ok. exists s. split; [done|]. apply guard_err_ok. split; [done|].
    apply guard_err_ok. split; [by apply ceiling_ok|]. apply result_bind_ok. exists pin. split; [done|].
    f_equal. destruct o as [e fs st]. simpl in *. subst. rewrite <-?app_assoc. done.
Qed.

(** What one declaration and surface say at least as much as another. *)
Definition declares_more (d d' : Declared) : Prop :=
  (∀ c, c ∈ dec_data_classes d → c ∈ dec_data_classes d') ∧
  (∀ j, j ∈ dec_jurisdictions d → j ∈ dec_jurisdictions d').

Lemma any_unbounded_mono items items' :
  (∀ it, it ∈ items → it ∈ items') → any_unbounded items = true → any_unbounded items' = true.
Proof. unfold any_unbounded. rewrite !existsb_True. naive_solver. Qed.

Lemma spans_mono js js' rules :
  (∀ j, j ∈ js → j ∈ js') → spans_residency_groups js rules = true → spans_residency_groups js' rules = true.
Proof.
  unfold spans_residency_groups. cbv zeta. rewrite !bool_decide_eq_true. intros Hj Hs.
  eapply Nat.lt_le_trans; [exact Hs|]. apply subseteq_size. intros g.
  rewrite !elem_of_list_to_set, !list_elem_of_omap. naive_solver.
Qed.

(** The derived tier is a floor nobody can talk down.  It is between 1 and 4, at most the
    tier of each declared data class and the class of each declared item; it only becomes more sensitive as more items, jurisdictions and
    (past the first) data classes are declared; and a callee's own [readOnlyHint] does not
    enter it: the class of an item is decided by its name, its description and its
    [destructiveHint], which can only raise it. *)
Theorem tier_is_a_floor declared fetched zone rules :
  let tier := tier_u8 (derive_tier declared fetched zone rules) in
  (1 ≤ tier ≤ 4) ∧
  (∀ c, c ∈ dec_data_classes declared → tier ≤ data_class_tier c) ∧
  (∀ it, it ∈ surface_items fetched → tier ≤ capability_class it.1 it.2) ∧
  (∀ declared' fetched', dec_data_classes declared ≠ [] → declares_more declared declared' →
     (∀ it, it ∈ surface_items fetched → it ∈ surface_items fetched') →
     tier_u8 (derive_tier declared' fetched' zone rules) ≤ tier) ∧
  (∀ name item item', vget "description" item = vget "description" item' →
     (hint "destructiveHint" item = true → hint "destructiveHint" item' = true) →
     capability_class name item' ≤ capability_class name item).
Proof.
  cbv zeta. rewrite derive_tier_eq.
  pose proof (base_tier_range (dec_data_classes declared)). pose proof (cap_tier_range (surface_items fetched)).
  set (t0 := N.min _ _). assert (1 ≤ t0 ≤ 4) as Ht0 by (unfold t0; lia).
  assert (∀ b t, 1 ≤ t ≤ 4 → escalate b t ≤ t) as Hle by (intros [] t; unfold escalate, saturating_sub; lia).
  set (b1 := negb _). set (b2 := any_unbounded _). set (b3 := spans_residency_groups _ _).
  assert (escalate b3 (escalate b2 (escalate b1 t0)) ≤ t0) as Hall.
  { etransitivity; [apply Hle; by do 2 apply escalate_range|].
    etransitivity; [apply Hle; by apply escalate_range|]. by apply Hle. }
  split; [by do 3 apply escalate_range|]. split; [|split; [|split]].
  - intros c Hc. etransitivity; [exact Hall|]. unfold t0.
    assert (base_tier (dec_data_classes declared) ≤ data_class_tier c); [|lia].
    eapply base_tier_spec; [|done|exact Hc]. intros Hnil. by rewrite Hnil in Hc; apply elem_of_nil in Hc.
  - intros it Hit. etransitivity; [exact Hall|]. unfold t0.
    assert (cap_tier (surface_items fetched) ≤ capability_class it.1 it.2); [|lia].
    apply (proj1 (min_list_spec _ _ _) (N.le_refl _)).
    apply (list_elem_of_fmap_2 (λ it, capability_class it.1 it.2) _ _ Hit).
  - intros declared' fetched' Hne [Hdc Hj] Hit. rewrite derive_tier_eq.
    assert (base_tier (dec_data_classes declared') ≤ base_tier (dec_data_classes declared)) as Hb.
    { apply base_tier_spec; [done|]. intros c Hc%Hdc. eapply base_tier_spec; [|done|exact Hc].
      intros Hnil. by rewrite Hnil in Hc; apply elem_of_nil in Hc. }
    assert (cap_tier (surface_items fetched') ≤ cap_tier (surface_items fetched)) as Hc.
    { apply min_list_spec. split; [apply min_list_le|]. intros x (it & -> & Hin)%list_elem_of_fmap.
      apply (proj1 (min_list_spec _ _ _) (N.le_refl _)).
      apply (list_elem_of_fmap_2 (λ it, capability_class it.1 it.2)). by apply Hit. }
    pose proof (base_tier_range (dec_data_classes declared')). pose proof (cap_tier_range (surface_items fetched')).
    apply escalate_mono; [by apply spans_mono|]. split; [do 2 apply escalate_range; lia|].
    apply escalate_mono; [by apply any_unbounded_mono|]. split; [apply escalate_range; lia|].
    apply escalate_mono; [done|]. unfold t0. lia.
  - intros name item item' Hd Hh. rewrite !capability_class_eq, Hd.
    assert (1 ≤ named_class name (default "" (vget "description" item' ≫= as_str))) by
      (unfold named_class; repeat case_match; lia).
    destruct (hint "destructiveHint" item); [by rewrite Hh|]. case_match; lia.
Qed.
End AdmissionTheorems.
