(* ===== verification/Policy.v ===== *)
(** * Policy: who may be connected to whom, and on what terms
    ([crates/wc-control/src/cpolicy.rs])

    [evaluate] decides a request from the structural preconditions, the zone lattice, the
    zone bar, the first matching rule or the default, the approval floor, the posture of
    both parties, the closedness of the terms and the standing caps, in that order.  Reading
    TOML is third-party code: a policy is the parsed [ConnectPolicy].  The [reason] of a
    decision and the texts of lint findings are prose; the [trace], which is evidence, is
    modelled as the text it is. *)

From Stdlib Require Import SpecFloat ZArith.
From stdpp Require Import pretty.
From S2P Require Import Prelude Text Errors Model Zone Json Canon Contract Artifact Log Store Std Admission.

(** ** Decisions *)

Inductive ConnDecision := Allow | Deny | RequireApproval.
#[global] Instance ConnDecision_eq_dec : EqDecision ConnDecision.
Proof. solve_decision. Defined.

Definition ConnDecision_as_str (d : ConnDecision) : string :=
  match d with Allow => "allow" | Deny => "deny" | RequireApproval => "require_approval" end.
Definition is_standing (d : ConnDecision) : bool := bool_decide (d = Allow).

(** ** Conditions *)

Inductive PolicyValue := Num (n : spec_float) | Str (s : string).

Definition value_as_f64 (v : PolicyValue) : option spec_float :=
  match v with Num n => Some n | Str s => parse_f64 s end.
Definition value_as_str (v : PolicyValue) : string :=
  match v with Num n => f64_to_string n | Str s => s end.

Record Cond := mkCond { cond_field : option string; cond_op : TierOp; cond_value : PolicyValue }.

Definition target (c : Cond) : option (string * string) := cond_field c ≫= split_once ":"%char.

Inductive Match :=
| MCond (c : Cond)
| MAll (l : list Match)
| MAllObj (all : list Match)
| MAnyObj (any : list Match)
| MNotObj (not : Match).

Record Facts := mkFacts {
  fa_strings : gmap string string;
  fa_numbers : gmap string spec_float;
  fa_lists : gmap string (list string)
}.
Definition Facts_default : Facts := mkFacts ∅ ∅ ∅.
Definition put_str (k v : string) (f : Facts) : Facts :=
  mkFacts (<[k := v]> (fa_strings f)) (fa_numbers f) (fa_lists f).
Definition put_num (k : string) (v : spec_float) (f : Facts) : Facts :=
  mkFacts (fa_strings f) (<[k := v]> (fa_numbers f)) (fa_lists f).
Definition put_list (k : string) (v : list string) (f : Facts) : Facts :=
  mkFacts (fa_strings f) (fa_numbers f) (<[k := v]> (fa_lists f)).

(** [(a - b).abs() < f64::EPSILON]. *)
Definition f64_near (a b : spec_float) : bool := f64_lt (SFabs (f64_sub a b)) f64_epsilon.

Definition satisfies (f : Facts) (c : Cond) : bool :=
  match cond_field c with
  | None => false
  | Some field =>
    match cond_op c with
    | OpGt | OpLt =>
      match fa_numbers f !! field, value_as_f64 (cond_value c) with
      | Some actual, Some expected =>
        if bool_decide (cond_op c = OpGt) then f64_lt expected actual else f64_lt actual expected
      | _, _ => false
      end
    | OpEq =>
      match fa_numbers f !! field, value_as_f64 (cond_value c) with
      | Some actual, Some expected => f64_near actual expected
      | _, _ => bool_decide (fa_strings f !! field = Some (value_as_str (cond_value c)))
      end
    | OpContains =>
      let needle := value_as_str (cond_value c) in
      match fa_lists f !! field with
      | Some l => str_in needle l
      | None => match fa_strings f !! field with Some s => str_contains needle s | None => false end
      end
    end
  end.

Fixpoint Match_matches (m : Match) (f : Facts) : bool :=
  match m with
  | MCond c => satisfies f c
  | MAll v | MAllObj v => forallb (λ m, Match_matches m f) v
  | MAnyObj v => existsb (λ m, Match_matches m f) v
  | MNotObj m => negb (Match_matches m f)
  end.

Fixpoint namespaces (m : Match) : list string :=
  match m with
  | MCond c => match target c with Some (ns, _) => [ns] | None => [] end
  | MAll v | MAllObj v | MAnyObj v => flat_map namespaces v
  | MNotObj m => namespaces m
  end.

Definition NAMESPACES : list string := ["caller"; "callee"; "surface"; "request"; "terms"].

(** ** Durations *)

(** [30d], [24h], [90m], [3600s] or a bare number of seconds. *)
Definition parse_duration (text : string) : option N :=
  let text := trim_text text in
  match unsnoc text with
  | None => None
  | Some (init, last) =>
    let '(digits, multiplier) :=
      if bool_decide (last = "d"%char) then (init, 86400%N)
      else if bool_decide (last = "h"%char) then (init, 3600%N)
      else if bool_decide (last = "m"%char) then (init, 60%N)
      else if bool_decide (last = "s"%char) then (init, 1%N)
      else (text, 1%N) in
    n ← parse_u64 (trim_text digits); checked_mul n multiplier
  end.

(** ** Assurance bars *)

Inductive Requirement := Optional | Required.
#[global] Instance Requirement_eq_dec : EqDecision Requirement.
Proof. solve_decision. Defined.
Definition Requirement_strictest (a b : Requirement) : Requirement :=
  match a, b with Optional, Optional => Optional | _, _ => Required end.

Inductive ApprovalRequirement := ArStanding | ArHuman | ArDualControl.
#[global] Instance ApprovalRequirement_eq_dec : EqDecision ApprovalRequirement.
Proof. solve_decision. Defined.
Definition approval_rank (a : ApprovalRequirement) : N :=
  match a with ArStanding => 0 | ArHuman => 1 | ArDualControl => 2 end.
(** [max] of the derived order. *)
Definition approval_max (a b : ApprovalRequirement) : ApprovalRequirement :=
  if (approval_rank a <=? approval_rank b)%N then b else a.

Record AssuranceBar := mkAssuranceBar {
  bar_identity : Requirement;
  bar_provenance : Requirement;
  bar_ttl_max : option string;
  bar_approval : ApprovalRequirement;
  bar_oversight : Requirement;
  bar_max_delegation_depth : option N;
  bar_distinct_approvers : bool
}.

Definition AssuranceBar_default : AssuranceBar :=
  mkAssuranceBar Optional Optional None ArStanding Optional None false.

Definition for_trust (trust : TrustLevel) : AssuranceBar :=
  match trust with
  | Internal => mkAssuranceBar Required Optional (Some "30d") ArStanding Optional (Some 3%N) false
  | Partner => mkAssuranceBar Required Required (Some "7d") ArHuman Required (Some 1%N) true
  | Public => mkAssuranceBar Required Required (Some "24h") ArDualControl Required (Some 0%N) true
  end.

Definition ttl_secs (b : AssuranceBar) : option N := bar_ttl_max b ≫= parse_duration.

Definition seconds_text (n : N) : string := pretty n +:+ "s".

Definition strictest (a b : AssuranceBar) : AssuranceBar :=
  mkAssuranceBar
    (Requirement_strictest (bar_identity a) (bar_identity b))
    (Requirement_strictest (bar_provenance a) (bar_provenance b))
    (match ttl_secs a, ttl_secs b with
     | Some x, Some y => Some (seconds_text (N.min x y))
     | Some x, None | None, Some x => Some (seconds_text x)
     | None, None => None
     end)
    (approval_max (bar_approval a) (bar_approval b))
    (Requirement_strictest (bar_oversight a) (bar_oversight b))
    (min_opt (bar_max_delegation_depth a) (bar_max_delegation_depth b))
    (bar_distinct_approvers a || bar_distinct_approvers b).

(** ** Zones and crossings as declared *)

Record CrossingDef := mkCrossingDef { cd_crossing : string; cd_from : option string; cd_to : option string }.
Record ZoneDef := mkZoneDef { zd_id : string; zd_trust : TrustLevel; zd_assurance : AssuranceBar }.

(** ** Rule matchers *)

Definition Glob_matches (glob value : string) : bool :=
  match strip_suffix_char "*"%char glob with
  | None => bool_decide (glob = value)
  | Some EmptyString => true
  | Some prefix => starts_with prefix value
  end.

Definition TierMatch_matches (m : TierMatch) (tier : Tier) : bool :=
  let actual := f64_of_N (tier_u8 tier) in
  let expected := f64_of_N (tm_value m) in
  match tm_op m with
  | OpGt => f64_lt expected actual
  | OpLt => f64_lt actual expected
  | OpEq => f64_near actual expected
  | OpContains => false
  end.

Record SurfaceMatch := mkSurfaceMatch { sm_write : option bool; sm_max_tools : option N }.

Definition surface_is_write_capable (s : Surface) : bool :=
  existsb (λ name, (capability_class name (VObject []) <=? 2)%N) (Surface_items s).

Definition SurfaceMatch_matches (m : SurfaceMatch) (s : Surface) : bool :=
  match sm_max_tools m with
  | Some max => if (max <? len (Surface_items s))%N then false else
    match sm_write m with Some want => bool_decide (surface_is_write_capable s = want) | None => true end
  | None => match sm_write m with Some want => bool_decide (surface_is_write_capable s = want) | None => true end
  end.

Record TermsOverride := mkTermsOverride {
  to_max_calls_per_hour : option N;
  to_max_concurrent : option N;
  to_max_spend_usd_per_day : option spec_float;
  to_human_oversight : option string;
  to_max_delegation_depth : option N;
  to_evidence_sink : option string;
  to_evidence_delivery : option string
}.

Definition u8_max : N := 255.

Definition to_terms (o : TermsOverride) : Terms :=
  mkTerms [] [] (to_max_calls_per_hour o) (to_max_concurrent o) (to_max_spend_usd_per_day o)
    (to_human_oversight o)
    (mkDelegation (default u8_max (to_max_delegation_depth o)) "monotonic")
    (mkEvidenceTerms (default "" (to_evidence_sink o)) (default "fail-safe" (to_evidence_delivery o)))
    false false.

Record ConnRule := mkConnRule {
  ru_caller_zone : option string;
  ru_callee_zone : option string;
  ru_caller_tier : option TierMatch;
  ru_callee_tier : option TierMatch;
  ru_surface : option SurfaceMatch;
  ru_data_classes : option (list string);
  ru_jurisdictions : option (list string);
  ru_when : option Match;
  ru_decision : ConnDecision;
  ru_approver_role : option string;
  ru_owner_merge_approves : bool;
  ru_approval : option ApprovalRequirement;
  ru_ttl_max : option string;
  ru_terms : option TermsOverride;
  ru_has_reason : bool
}.

(** ** Requests *)

Record ConnRequest := mkConnRequest {
  cr_surface : Surface;
  cr_terms : Terms;
  cr_ttl_secs : N;
  cr_justification : string;
  cr_requester : HumanRef
}.

Definition rule_matches (r : ConnRule) (req : ConnRequest) (caller callee : Entity) (f : Facts) : bool :=
  is_none_or (ru_caller_zone r) (λ g, Glob_matches g (zone_str (ent_zone caller)))
  && is_none_or (ru_callee_zone r) (λ g, Glob_matches g (zone_str (ent_zone callee)))
  && is_none_or (ru_caller_tier r) (λ m, TierMatch_matches m (ent_tier caller))
  && is_none_or (ru_callee_tier r) (λ m, TierMatch_matches m (ent_tier callee))
  && is_none_or (ru_surface r) (λ m, SurfaceMatch_matches m (cr_surface req))
  && is_none_or (ru_data_classes r) (forallb (λ c, str_in c (data_classes (cr_terms req))))
  && is_none_or (ru_jurisdictions r) (forallb (λ j, str_in j (jurisdictions (cr_terms req))))
  && is_none_or (ru_when r) (λ m, Match_matches m f).

Definition is_catch_all (r : ConnRule) : bool :=
  match ru_caller_zone r, ru_callee_zone r, ru_caller_tier r, ru_callee_tier r, ru_surface r,
        ru_data_classes r, ru_jurisdictions r, ru_when r with
  | None, None, None, None, None, None, None, None => true
  | _, _, _, _, _, _, _, _ => false
  end.

(** ** Standing-policy caps *)

Record StandingLimits := mkStandingLimits {
  sl_max_share : spec_float;
  sl_enabled : bool;
  sl_share_min_sample : N;
  sl_max_per_window : N;
  sl_window : string;
  sl_min_callee_tier : N;
  sl_allow_write : bool;
  sl_max_tools : N;
  sl_review_every : string;
  sl_reviewed_at : N
}.

(** 0.6 *)
Definition StandingLimits_default : StandingLimits :=
  mkStandingLimits (f64_of_decimal false 6 (-1)) false 20 50 "24h" 3 false 8 "90d" 0.

Record StandingState := mkStandingState { ss_active : N; ss_standing : N; ss_issued_in_window : N }.

Inductive StandingBlock :=
| StandingOff | CalleeTooSensitive | WriteCapable | TooManyItems | WindowFull | ShareReached | ReviewOverdue.

Definition blocks (l : StandingLimits) (req : ConnRequest) (callee : Entity) (state : StandingState) (now : N)
    : option StandingBlock :=
  if negb (sl_enabled l) then Some StandingOff
  else if (tier_u8 (ent_tier callee) <? sl_min_callee_tier l)%N then Some CalleeTooSensitive
  else if negb (sl_allow_write l) && surface_is_write_capable (cr_surface req) then Some WriteCapable
  else if (sl_max_tools l <? len (Surface_items (cr_surface req)))%N then Some TooManyItems
  else if (sl_max_per_window l <=? ss_issued_in_window state)%N then Some WindowFull
  else if (sl_share_min_sample l <=? ss_active state)%N
          && SFleb (sl_max_share l) (f64_div (f64_of_N (ss_standing state)) (f64_of_N (ss_active state)))
  then Some ShareReached
  else match parse_duration (sl_review_every l) with
       | Some every =>
         if (sl_reviewed_at l =? 0)%N || (every <? saturating_sub now (sl_reviewed_at l))%N
         then Some ReviewOverdue else None
       | None => None
       end.

(** ** Outcomes *)

Record ConnEval := mkConnEval {
  ce_decision : ConnDecision;
  ce_trace : string;
  ce_ttl_secs : N;
  ce_terms : Terms;
  ce_approver_role : option string;
  ce_dual_control : bool;
  ce_owner_merge_approves : bool;
  ce_distinct_approvers : bool;
  ce_bar : AssuranceBar
}.

Definition is_issuable (e : ConnEval) : bool := bool_decide (ce_decision e = Allow).

Definition ISSUER_MAX_TTL_SECS : N := 30 * 86400.

Record ConnectPolicy := mkConnectPolicy {
  po_default : ConnDecision;
  po_version : string;
  po_zones : list ZoneDef;
  po_crossings : list CrossingDef;
  po_strict_zones : bool;
  po_strict_crossings : bool;
  po_rules : list ConnRule;
  po_standing : StandingLimits
}.

(** ** The zone bar and the lattice *)

(** [max_by_key]: of the longest, the last. *)
Definition zone_def (p : ConnectPolicy) (zone : ZoneId) : option ZoneDef :=
  foldl (λ best z, match best with
                   | Some b => if (str_len (zd_id b) <=? str_len (zd_id z))%N then Some z else best
                   | None => Some z
                   end) None
    (filterb (λ z, let id := zd_id z in
       bool_decide (zone_str zone = id) ||
       (starts_with id (zone_str zone)
        && bool_decide (String.get (String.length id) (zone_str zone) = Some dot))) (po_zones p)).

Definition bar_step (p : ConnectPolicy) (bar : AssuranceBar) (ancestor : ZoneId) : AssuranceBar :=
  match find (λ z, bool_decide (zd_id z = zone_str ancestor)) (po_zones p) with
  | Some def => strictest (strictest bar (zd_assurance def)) (for_trust (zd_trust def))
  | None => bar
  end.

Definition bar_for (p : ConnectPolicy) (zone : ZoneId) : AssuranceBar :=
  foldl (bar_step p) (for_trust (trust_level zone)) (ancestors zone).

Definition bar_for_pair (p : ConnectPolicy) (caller callee : ZoneId) : AssuranceBar :=
  strictest (bar_for p caller) (bar_for p callee).

Definition opt_zone (o : option string) : result (option ZoneId) :=
  match o with None => Ok None | Some z => let? z := ZoneId_new z in Ok (Some z) end.

Definition lattice_declare (l : ZoneLattice) (d : ZoneDef) : result ZoneLattice :=
  let? z := ZoneId_new (zd_id d) in declare l z (zd_trust d).
Definition lattice_permit (l : ZoneLattice) (d : CrossingDef) : result ZoneLattice :=
  let? crossing := Crossing_parse (cd_crossing d) in
  let? from := opt_zone (cd_from d) in
  let? to := opt_zone (cd_to d) in
  Ok (permit l (mkCrossingRule crossing from to)).

Definition lattice (p : ConnectPolicy) : result ZoneLattice :=
  let? l := foldR lattice_declare (set_strict_membership ZoneLattice_new (po_strict_zones p)) (po_zones p) in
  foldR lattice_permit l (po_crossings p).

(** ** Structural preconditions *)

Definition assert_party_connectable (e : Entity) : result unit :=
  guard_err (bool_decide (ent_posture e = Quarantined)) ENTITY_QUARANTINED $
  guard_err (negb (bool_decide (ent_lifecycle e = Active))) ILLEGAL_TRANSITION $
  Ok tt.

Definition assert_surface_declared (req : ConnRequest) (callee : Entity) : result unit :=
  let missing := filterb (λ name, negb (contains_key (pin_items (ent_pin callee)) name))
                   (Surface_items (cr_surface req)) in
  guard_err (negb (bool_decide (missing = []))) SURFACE_NOT_SUBSET $ Ok tt.

(** ** Facts *)

Definition trust_text (t : TrustLevel) : string :=
  match t with Internal => "internal" | Partner => "partner" | Public => "public" end.
Definition posture_text (p : Posture) : string :=
  match p with
  | Attested => "attested" | Model.Degraded => "degraded" | Unattested => "unattested"
  | Quarantined => "quarantined"
  end.

Definition put_opt {A} (o : option A) (put : A → Facts → Facts) (f : Facts) : Facts :=
  match o with Some a => put a f | None => f end.

Definition facts (req : ConnRequest) (caller callee : Entity) (ttl : N) : Facts :=
  let terms := cr_terms req in
  let items := Surface_items (cr_surface req) in
  put_opt (max_spend_usd_per_day terms) (put_num "terms:max_spend_usd_per_day") $
  put_opt (max_calls_per_hour terms) (λ n, put_num "terms:max_calls_per_hour" (f64_of_N n)) $
  put_num "terms:delegation_depth" (f64_of_N (deleg_max_depth (delegation terms))) $
  put_list "terms:jurisdictions" (jurisdictions terms) $
  put_list "terms:data_classes" (data_classes terms) $
  put_str "request:requester" (human_str (cr_requester req)) $
  put_num "request:ttl_days" (f64_of_N (ttl / 86400)) $
  put_str "surface:write" (if surface_is_write_capable (cr_surface req) then "true" else "false") $
  put_list "surface:tools" items $
  put_num "surface:count" (f64_of_N (len items)) $
  put_num "callee:tier" (f64_of_N (tier_u8 (ent_tier callee))) $
  put_str "callee:endpoint" (default "" (ent_endpoint callee)) $
  put_str "callee:posture" (posture_text (ent_posture callee)) $
  put_str "callee:trust" (trust_text (trust_level (ent_zone callee))) $
  put_str "callee:zone" (zone_str (ent_zone callee)) $
  put_num "caller:tier" (f64_of_N (tier_u8 (ent_tier caller))) $
  put_str "caller:service" (default "" (ent_service caller)) $
  put_str "caller:posture" (posture_text (ent_posture caller)) $
  put_str "caller:trust" (trust_text (trust_level (ent_zone caller))) $
  put_str "caller:zone" (zone_str (ent_zone caller)) $
  Facts_default.

(** ** Evaluation *)

(** The first rule that matches, with its index. *)
Fixpoint first_match (i : nat) (rules : list ConnRule) (req : ConnRequest) (caller callee : Entity) (f : Facts)
    : option (nat * ConnRule) :=
  match rules with
  | [] => None
  | r :: rules =>
    if rule_matches r req caller callee f then Some (i, r) else first_match (S i) rules req caller callee f
  end.

(** What the rule list decides: the matched rule's settings, or the default's. *)
Record Ruling := mkRuling {
  rg_decision : ConnDecision;
  rg_trace : list string;
  rg_ttl : N;
  rg_terms : Terms;
  rg_approver_role : option string;
  rg_approval : option ApprovalRequirement;
  rg_owner_merge : bool
}.

Definition apply_rule (p : ConnectPolicy) (m : option (nat * ConnRule)) (trace : list string) (ttl : N) (terms : Terms)
    : Ruling :=
  match m with
  | Some (i, r) =>
    mkRuling (ru_decision r) (trace ++ ["rule[" +:+ pretty i +:+ "]"])
      (match ru_ttl_max r ≫= parse_duration with Some t => N.min ttl t | None => ttl end)
      (match ru_terms r with Some o => Terms_intersect terms (to_terms o) | None => terms end)
      (ru_approver_role r) (ru_approval r) (ru_owner_merge_approves r)
  | None =>
    mkRuling (po_default p) (if bool_decide (length trace = 1) then trace ++ ["default"] else trace)
      ttl terms None None false
  end.

(** The bar's demands on the requested terms. *)
Definition bar_terms (bar : AssuranceBar) (t : Terms) : Terms :=
  let d := match bar_max_delegation_depth bar with
           | Some depth => mkDelegation (N.min (deleg_max_depth (delegation t)) depth)
                             (deleg_attenuation (delegation t))
           | None => delegation t
           end in
  let h := match bar_oversight bar, human_oversight t with
           | Required, None => Some "required"
           | _, h => h
           end in
  mkTerms (data_classes t) (jurisdictions t) (max_calls_per_hour t) (max_concurrent t)
    (max_spend_usd_per_day t) h d (evidence t) (classes_closed t) (jurisdictions_closed t).

(** One party's posture: anything short of attested needs a human. *)
Definition posture_step (role : string) (party : Entity) (st : ConnDecision * list string)
    : ConnDecision * list string :=
  if may_connect (ent_posture party) Enforce then st else
  (if bool_decide (st.1 = Allow) then RequireApproval else st.1,
   st.2 ++ ["posture[" +:+ role +:+ ":" +:+ posture_text (ent_posture party) +:+ "]"]).

Definition slashes (trace : list string) : string := join "/" trace.

Definition decide_request (p : ConnectPolicy) (req : ConnRequest) (caller callee : Entity) (state : StandingState)
    (now : N) (trace : list string) : ConnEval :=
  (* 2: the zone bar *)
  let bar := bar_for_pair p (ent_zone caller) (ent_zone callee) in
  let trace := trace ++ ["zone-bar[" +:+ zone_str (ent_zone caller) +:+ "→" +:+ zone_str (ent_zone callee) +:+ "]"] in
  let ttl := N.min (N.min (cr_ttl_secs req) ISSUER_MAX_TTL_SECS) (default u64_max (ttl_secs bar)) in
  let terms := bar_terms bar (cr_terms req) in
  (* 3: the first matching rule *)
  let f := facts req caller callee ttl in
  let r := apply_rule p (first_match 0 (po_rules p) req caller callee f) trace ttl terms in
  (* 4: the approval floor *)
  let approval := match rg_approval r with
                  | Some a => approval_max (bar_approval bar) a
                  | None => bar_approval bar
                  end in
  let rule_binds := match rg_approval r with
                    | Some a => (approval_rank (bar_approval bar) <? approval_rank a)%N
                    | None => false
                    end in
  let dual_control := bool_decide (approval = ArDualControl) in
  let '(decision, trace) :=
    if bool_decide (rg_decision r = Allow) && negb (bool_decide (approval = ArStanding))
    then (RequireApproval, rg_trace r ++ [if rule_binds then "rule-approval" else "zone-bar-approval"])
    else (rg_decision r, rg_trace r) in
  let dual_control :=
    if bool_decide (decision = RequireApproval) && bool_decide (approval = ArDualControl)
    then true else dual_control in
  (* 5: posture *)
  let '(decision, trace) := posture_step "callee" callee (posture_step "caller" caller (decision, trace)) in
  (* 6: no overlap is a denial *)
  if Terms_is_closed (rg_terms r) then
    mkConnEval Deny (slashes (trace ++ ["terms-closed"])) 0 (rg_terms r) None false false
      (bar_distinct_approvers bar) bar
  else
    (* 7: standing-policy caps *)
    let '(decision, trace) :=
      if bool_decide (decision = Allow) then
        match blocks (po_standing p) req callee state now with
        | Some _ => (RequireApproval, trace ++ ["standing-cap"])
        | None => (decision, trace)
        end
      else (decision, trace) in
    mkConnEval decision (slashes trace) (rg_ttl r) (rg_terms r) (rg_approver_role r) dual_control
      (rg_owner_merge r) (bar_distinct_approvers bar) bar.

Definition evaluate (p : ConnectPolicy) (req : ConnRequest) (caller callee : Entity) (state : StandingState)
    (now : N) : result ConnEval :=
  (* 1: structural preconditions *)
  guard_err (bool_decide (ent_id caller = ent_id callee)) MINT_PRECONDITION_FAILED $
  let? _ := assert_party_connectable caller in
  let? _ := assert_party_connectable callee in
  let? _ := assert_surface_declared req callee in
  let? l := lattice p in
  let d := resolve l (ent_zone caller) (ent_zone callee) in
  let trace := ["crossing[" +:+ Crossing_as_str (zd_crossing d) +:+ "]"] in
  if po_strict_crossings p && negb (zd_permitted d) then
    Ok (mkConnEval Deny (slashes trace) 0 (cr_terms req) None false false false
          (bar_for_pair p (ent_zone caller) (ent_zone callee)))
  else Ok (decide_request p req caller callee state now trace).

(** ** Dry runs *)

(** What one live contract comes to under a candidate policy.  A structural failure is
    reported with the decision [impossible]. *)
Inductive DryDecision := Would (d : ConnDecision) | Impossible.
#[global] Instance DryDecision_eq_dec : EqDecision DryDecision.
Proof. solve_decision. Defined.

Record DryRunRow := mkDryRunRow { dr_cid : string; dr_decision : DryDecision; dr_still_issuable : bool }.

Record DryRunReport := mkDryRunReport {
  dr_rows : list DryRunRow;
  dr_would_deny : list string;
  dr_would_escalate : list string;
  dr_unevaluable : list string
}.
Definition DryRunReport_default : DryRunReport := mkDryRunReport [] [] [] [].

Definition renewal_request (c : ContractRecord) (caller : Entity) : ConnRequest :=
  mkConnRequest (rec_surface c) (rec_terms c) (saturating_sub (rec_exp c) (rec_iat c)) "" (ent_owner caller).

Definition dry_step (p : ConnectPolicy) (proj : Projection) (state : StandingState) (now : N)
    (rep : DryRunReport) (c : ContractRecord) : DryRunReport :=
  let cid := cid_str (rec_cid c) in
  if negb (bool_decide (rec_status c = CActive)) then rep else
  match pr_entities proj !! rec_caller c, pr_entities proj !! rec_callee c with
  | Some caller, Some callee =>
    match evaluate p (renewal_request c caller) caller callee state now with
    | Ok eval =>
      mkDryRunReport (dr_rows rep ++ [mkDryRunRow cid (Would (ce_decision eval)) (is_issuable eval)])
        (if bool_decide (ce_decision eval = Deny) then dr_would_deny rep ++ [cid] else dr_would_deny rep)
        (if bool_decide (ce_decision eval = RequireApproval) then dr_would_escalate rep ++ [cid]
         else dr_would_escalate rep)
        (dr_unevaluable rep)
    | Err _ =>
      mkDryRunReport (dr_rows rep ++ [mkDryRunRow cid Impossible false]) (dr_would_deny rep ++ [cid])
        (dr_would_escalate rep) (dr_unevaluable rep)
    end
  | _, _ => mkDryRunReport (dr_rows rep) (dr_would_deny rep) (dr_would_escalate rep) (dr_unevaluable rep ++ [cid])
  end.

Definition row_le (a b : DryRunRow) : Prop := (dr_cid a ≤ dr_cid b)%string.
#[global] Instance row_le_dec a b : Decision (row_le a b).
Proof. unfold row_le. apply _. Defined.
#[global] Instance row_le_trans : Transitive row_le.
Proof. intros a b c. unfold row_le. by etrans. Qed.
#[global] Instance row_le_total : Total row_le.
Proof. intros a b. unfold row_le. apply (total String.le). Qed.

Definition dry_run (p : ConnectPolicy) (proj : Projection) (state : StandingState) (now : N) : DryRunReport :=
  let rep := foldl (dry_step p proj state now) DryRunReport_default ((map_to_list (pr_contracts proj)).*2) in
  mkDryRunReport (merge_sort row_le (dr_rows rep)) (sort_strings (dr_would_deny rep))
    (sort_strings (dr_would_escalate rep)) (sort_strings (dr_unevaluable rep)).

Definition is_neutral (r : DryRunReport) : bool :=
  bool_decide (dr_would_deny r = []) && bool_decide (dr_would_escalate r = []).

(** ** Implied crossings *)

Definition rule_crossings (p : ConnectPolicy) (r : ConnRule) : list (Crossing * string * string) :=
  if bool_decide (ru_decision r = Deny) then [] else
  match ru_caller_zone r, ru_callee_zone r with
  | Some from, Some to =>
    caller ← filterb (λ z, Glob_matches from (zd_id z)) (po_zones p);
    callee ← filterb (λ z, Glob_matches to (zd_id z)) (po_zones p);
    match ZoneId_new (zd_id caller), ZoneId_new (zd_id callee) with
    | Ok cz, Ok ez =>
      let crossing := classify cz ez in
      if is_internal_to_level crossing then [] else [(crossing, zd_id caller, zd_id callee)]
    | _, _ => []
    end
  | _, _ => []
  end.

(** Each crossing once, where it first occurs. *)
Fixpoint first_occurrences {A} `{EqDecision A} (seen l : list A) : list A :=
  match l with
  | [] => []
  | x :: l => if decide (x ∈ seen) then first_occurrences seen l else x :: first_occurrences (x :: seen) l
  end.

Definition implied_crossings (p : ConnectPolicy) : list (Crossing * string * string) :=
  first_occurrences [] (po_rules p ≫= rule_crossings p).

(** ** Lint *)

Inductive PolicyError :=
| VersionEmpty
| ZoneInvalid (i : nat)
| ZoneTtlInvalid (i : nat)
| RuleTtlInvalid (i : nat)
| UnknownNamespace (i : nat) (ns : string)
| ShareOutOfRange
| ReviewEveryInvalid.

Inductive PolicyWarning :=
| Unreachable (i at_ : nat)
| DenyWithoutReason (i : nat)
| NoApproverRole (i : nat)
| TtlClamped (i : nat)
| UndeclaredZone (i : nat) (glob : string)
| StandingDisabled (allows : nat)
| StandingUnreviewed
| DefaultAllow.

Record LintReport := mkLintReport { lr_errors : list PolicyError; lr_warnings : list PolicyWarning }.
Definition is_usable (r : LintReport) : bool := bool_decide (length (lr_errors r) = 0).

Definition lint_zone (i : nat) (z : ZoneDef) : list PolicyError :=
  (if is_ok (ZoneId_new (zd_id z)) then [] else [ZoneInvalid i])
  ++ match bar_ttl_max (zd_assurance z) with
     | Some ttl => match parse_duration ttl with None => [ZoneTtlInvalid i] | Some _ => [] end
     | None => []
     end.

Fixpoint indexed {A} (i : nat) (l : list A) : list (nat * A) :=
  match l with [] => [] | x :: l => (i, x) :: indexed (S i) l end.

(** [trim_end_matches('*')]. *)
Definition trim_stars (s : string) : string :=
  of_bytes (reverse ((fix drop l := match l with 42%N :: l => drop l | l => l end) (reverse (bytes s)))).

Definition lint_rule_errors (i : nat) (r : ConnRule) : list PolicyError :=
  match ru_ttl_max r with
  | Some ttl => match parse_duration ttl with None => [RuleTtlInvalid i] | Some _ => [] end
  | None => []
  end
  ++ match ru_when r with
     | Some tree => UnknownNamespace i <$> filterb (λ ns, negb (str_in ns NAMESPACES)) (namespaces tree)
     | None => []
     end.

Definition lint_rule_warnings (declared : list string) (i : nat) (r : ConnRule) : list PolicyWarning :=
  (if bool_decide (ru_decision r = Deny) && negb (ru_has_reason r) then [DenyWithoutReason i] else [])
  ++ (if bool_decide (ru_decision r = RequireApproval) && bool_decide (ru_approver_role r = None)
      then [NoApproverRole i] else [])
  ++ match ru_ttl_max r ≫= parse_duration with
     | Some secs => if (ISSUER_MAX_TTL_SECS <? secs)%N then [TtlClamped i] else []
     | None => []
     end
  ++ (if bool_decide (ru_decision r = Deny) then [] else
      UndeclaredZone i <$>
      filterb (λ glob, let literal := trim_stars glob in
                 negb (bool_decide (literal = "")) && negb (existsb (starts_with literal) declared))
        (option_list (ru_caller_zone r) ++ option_list (ru_callee_zone r))).

(** The loop over the rules carries where the first catch-all was. *)
Fixpoint lint_rules (declared : list string) (catch_all : option nat) (l : list (nat * ConnRule)) : LintReport :=
  match l with
  | [] => mkLintReport [] []
  | (i, r) :: l =>
    let unreachable := match catch_all with Some at_ => [Unreachable i at_] | None => [] end in
    let catch_all := if is_catch_all r && bool_decide (catch_all = None) then Some i else catch_all in
    let rest := lint_rules declared catch_all l in
    mkLintReport (lint_rule_errors i r ++ lr_errors rest)
      (unreachable ++ lint_rule_warnings declared i r ++ lr_warnings rest)
  end.

Definition Policy_lint (p : ConnectPolicy) : LintReport :=
  let rules := lint_rules (map zd_id (po_zones p)) None (indexed 0 (po_rules p)) in
  let s := po_standing p in
  mkLintReport
    ((if bool_decide (trim_text (po_version p) = "") then [VersionEmpty] else [])
     ++ (indexed 0 (po_zones p) ≫= λ iz, lint_zone iz.1 iz.2)
     ++ lr_errors rules
     ++ (if f64_lt (f64_of_N 1) (sl_max_share s) || f64_lt (sl_max_share s) (f64_of_N 0)
         then [ShareOutOfRange] else [])
     ++ (match parse_duration (sl_review_every s) with None => [ReviewEveryInvalid] | Some _ => [] end))
    (lr_warnings rules
     ++ (if negb (sl_enabled s)
         then [StandingDisabled (length (filterb (λ r, bool_decide (ru_decision r = Allow)) (po_rules p)))]
         else if (sl_reviewed_at s =? 0)%N then [StandingUnreviewed] else [])
     ++ (if bool_decide (po_default p = Allow) then [DefaultAllow] else [])).

(** ** Lemmas: durations *)

Lemma bytes_snoc s c : bytes (s +:+ String c "") = bytes s ++ [N_of_ascii c].
Proof. by rewrite bytes_app. Qed.

Lemma digit_ascii b : is_ascii_digit b = true → (b < 128)%N ∧ is_whitespace b = false.
Proof.
  unfold is_ascii_digit. rewrite andb_true_iff, !N.leb_le. intros [Hl Hu]. split; [lia|].
  unfold is_whitespace. rewrite !orb_false_iff, !andb_false_iff, !N.eqb_neq, !N.leb_gt. lia.
Qed.

(** A number, and a number with a unit, carry nothing to trim. *)
Lemma trim_number (n : N) : trim_text (pretty n) = pretty n.
Proof. apply trim_text_plain. intros b Hb. by apply digit_ascii, pretty_N_bytes with n. Qed.

Lemma trim_number_unit (n : N) u :
  (N_of_ascii u < 128)%N → is_whitespace (N_of_ascii u) = false →
  trim_text (pretty n +:+ String u "") = pretty n +:+ String u "".
Proof.
  intros Hu Hw. apply trim_text_plain. intros b. rewrite bytes_snoc, elem_of_app, list_elem_of_singleton.
  intros [Hb| ->]; [by apply digit_ascii, pretty_N_bytes with n|by split].
Qed.

Definition unit_of (u : ascii) : option N :=
  if bool_decide (u = "d"%char) then Some 86400%N
  else if bool_decide (u = "h"%char) then Some 3600%N
  else if bool_decide (u = "m"%char) then Some 60%N
  else if bool_decide (u = "s"%char) then Some 1%N else None.

Lemma parse_duration_unit (n : N) u k : (n ≤ u64_max)%N → unit_of u = Some k →
  parse_duration (pretty n +:+ String u "") = checked_mul n k.
Proof.
  intros Hn Hu.
  assert ((N_of_ascii u < 128)%N ∧ is_whitespace (N_of_ascii u) = false) as [Ha Hw].
  { revert Hu. unfold unit_of. repeat case_bool_decide; intros; try done; by subst u. }
  unfold parse_duration. rewrite trim_number_unit, unsnoc_app by done. unfold unit_of in Hu.
  repeat case_bool_decide; simplify_eq; rewrite trim_number; unfold parse_u64; by rewrite parse_uint_pretty.
Qed.

Lemma parse_duration_seconds n : (n ≤ u64_max)%N → parse_duration (seconds_text n) = Some n.
Proof.
  intros Hn. unfold seconds_text. rewrite (parse_duration_unit n "s" 1) by done.
  unfold checked_mul. rewrite N.mul_1_r. by rewrite (proj2 (N.leb_le _ _) Hn).
Qed.

Lemma parse_duration_u64 text n : parse_duration text = Some n → (n ≤ u64_max)%N.
Proof.
  unfold parse_duration. destruct (unsnoc _) as [[init last]|]; [|done].
  destruct (if bool_decide (last = "d"%char) then _ else _) as [digits k].
  destruct (parse_u64 _) as [m|]; [|done]. simpl. unfold checked_mul. case_match eqn:E; [|done].
  intros [= <-]. by apply N.leb_le in E.
Qed.

(** ** Lemmas: the order on bars *)

(** [opt_le a b]: the ceiling [a] is at most the ceiling [b]; no ceiling is the largest. *)
Definition opt_le (a b : option N) : Prop := ∀ y, b = Some y → ∃ x, a = Some x ∧ (x ≤ y)%N.

Definition req_le (a b : Requirement) : Prop := b = Required → a = Required.

(** [stricter a b]: [a] demands whatever [b] does, and allows no more. *)
Record stricter (a b : AssuranceBar) : Prop := {
  st_identity : req_le (bar_identity a) (bar_identity b);
  st_provenance : req_le (bar_provenance a) (bar_provenance b);
  st_ttl : opt_le (ttl_secs a) (ttl_secs b);
  st_approval : (approval_rank (bar_approval b) ≤ approval_rank (bar_approval a))%N;
  st_oversight : req_le (bar_oversight a) (bar_oversight b);
  st_depth : opt_le (bar_max_delegation_depth a) (bar_max_delegation_depth b);
  st_distinct : bar_distinct_approvers b = true → bar_distinct_approvers a = true
}.

Lemma opt_le_min c a b : opt_le c (min_opt a b) ↔ opt_le c a ∧ opt_le c b.
Proof.
  unfold opt_le. destruct a as [a|], b as [b|]; simpl; [|naive_solver..]. split.
  - intros Hc. destruct (Hc _ eq_refl) as (x & -> & Hx). split; intros ? [= <-]; exists x; (split; [done|lia]).
  - intros [Ha Hb] ? [= <-]. destruct (Ha _ eq_refl) as (x & -> & Hx). destruct (Hb _ eq_refl) as (y & [= <-] & Hy).
    exists x. split; [done|lia].
Qed.

Lemma req_le_strictest c a b : req_le c (Requirement_strictest a b) ↔ req_le c a ∧ req_le c b.
Proof. unfold req_le. destruct a, b; simpl; naive_solver. Qed.

Lemma approval_rank_max a b : approval_rank (approval_max a b) = N.max (approval_rank a) (approval_rank b).
Proof. by destruct a, b. Qed.

Lemma ttl_secs_u64 b n : ttl_secs b = Some n → (n ≤ u64_max)%N.
Proof. unfold ttl_secs. destruct (bar_ttl_max b); [apply parse_duration_u64|done]. Qed.

Lemma ttl_secs_strictest a b : ttl_secs (strictest a b) = min_opt (ttl_secs a) (ttl_secs b).
Proof.
  unfold ttl_secs at 1. cbn [strictest bar_ttl_max].
  destruct (ttl_secs a) as [x|] eqn:Ea, (ttl_secs b) as [y|] eqn:Eb; simpl; [..|done];
    apply parse_duration_seconds; try apply ttl_secs_u64 in Ea; try apply ttl_secs_u64 in Eb; lia.
Qed.

(** Combining two bars is the least bar as strict as both. *)
Lemma stricter_strictest c a b : stricter c (strictest a b) ↔ stricter c a ∧ stricter c b.
Proof.
  split.
  - intros [H1 H2 H3 H4 H5 H6 H7]. rewrite ttl_secs_strictest in H3. simpl in H1, H2, H4, H5, H6, H7.
    rewrite req_le_strictest in H1, H2, H5. rewrite opt_le_min in H3, H6. rewrite approval_rank_max in H4.
    rewrite orb_true_iff in H7. split; split; try tauto; lia.
  - intros [[] []]. split; rewrite ?ttl_secs_strictest; simpl;
      rewrite ?req_le_strictest, ?opt_le_min, ?approval_rank_max; try tauto; [lia|].
    rewrite orb_true_iff. tauto.
Qed.

#[global] Instance stricter_preorder : PreOrder stricter.
Proof.
  split.
  - intros a. split; unfold req_le, opt_le; try done; eauto.
  - intros a b c [] []. split; unfold req_le, opt_le in *; try tauto; [|lia|].
    + intros y Hy. destruct (st_ttl1 _ Hy) as (x & Hx & ?). destruct (st_ttl0 _ Hx) as (z & ? & ?).
      exists z. split; [done|lia].
    + intros y Hy. destruct (st_depth1 _ Hy) as (x & Hx & ?). destruct (st_depth0 _ Hx) as (z & ? & ?).
      exists z. split; [done|lia].
Qed.

(** The declaration for a zone, if there is one. *)
Definition declared_at (p : ConnectPolicy) (z : ZoneId) : option ZoneDef :=
  find (λ d, bool_decide (zd_id d = zone_str z)) (po_zones p).

Lemma bar_fold p c zs bar :
  stricter c (foldl (bar_step p) bar zs) ↔
  stricter c bar ∧ ∀ z d, z ∈ zs → declared_at p z = Some d →
    stricter c (zd_assurance d) ∧ stricter c (for_trust (zd_trust d)).
Proof.
  revert bar. induction zs as [|z zs IH]; intros bar; simpl.
  { split; [|by intros []]. intros Hc. split; [done|]. intros z d Hz. by apply elem_of_nil in Hz. }
  rewrite IH. setoid_rewrite elem_of_cons. unfold bar_step. fold (declared_at p z).
  destruct (declared_at p z) as [d|] eqn:Ed; [rewrite !stricter_strictest|]; split.
  - intros [[[Hb Ha] Ht] Hr]. split; [done|]. intros z' d' [->|Hz] Hd; [|by eapply Hr].
    rewrite Ed in Hd. by injection Hd as <-.
  - intros [Hb Hr]. split; [|naive_solver]. destruct (Hr z d); [by left|done|done].
  - intros [Hb Hr]. split; [done|]. intros z' d' [->|Hz] Hd; [by rewrite Ed in Hd|by eapply Hr].
  - intros [Hb Hr]. split; [done|]. naive_solver.
Qed.

Lemma bar_for_spec p c zone :
  stricter c (bar_for p zone) ↔
  stricter c (for_trust (trust_level zone)) ∧
  ∀ z d, z ∈ ancestors zone → declared_at p z = Some d →
    stricter c (zd_assurance d) ∧ stricter c (for_trust (zd_trust d)).
Proof. apply bar_fold. Qed.

(** ** Properties *)

(** A nested zone can only tighten.  The bar of a zone is the least strict one that
    demands everything its trust level and each declaration on its path -- with that
    declaration's own trust floor -- demand, so a zone's bar is always at least as strict as
    that of any zone around it, whatever the policy declares; and the bar of a pair is the
    least one as strict as both ends. *)
Theorem nested_zone_only_tightens p zone outer caller callee :
  ZoneId_valid zone → ZoneId_valid outer → contains outer zone = true →
  (∀ c, stricter c (bar_for p zone) ↔
     stricter c (for_trust (trust_level zone)) ∧
     ∀ z d, ZoneId_valid z → contains z zone = true → declared_at p z = Some d →
       stricter c (zd_assurance d) ∧ stricter c (for_trust (zd_trust d))) ∧
  stricter (bar_for p zone) (bar_for p outer) ∧
  (∀ c, stricter c (bar_for_pair p caller callee) ↔ stricter c (bar_for p caller) ∧ stricter c (bar_for p callee)).
Proof.
  intros Hz Ho Hc. split; [|split].
  - intros c. rewrite bar_for_spec. setoid_rewrite elem_of_ancestors; [|done]. naive_solver.
  - destruct (proj1 (bar_for_spec p _ zone) (reflexivity _)) as [Hf Hd].
    apply bar_for_spec. split; [by rewrite (contains_trust_level _ _ Hc)|].
    intros z d Hin. apply Hd. rewrite elem_of_ancestors in * by done. destruct Hin as [Hz' Hin].
    split; [done|]. by eapply contains_trans.
  - intros c. apply stricter_strictest.
Qed.

(** Durations are read within 64 bits, and exactly: whatever a text says, the number of
    seconds read from it fits a [u64]; a number of days, hours, minutes or seconds is read
    as that many seconds when they fit and refused when they do not; and the ceiling a
    combined bar prints reads back as the smaller of the two it combined. *)
Theorem duration_exact :
  (∀ text n, parse_duration text = Some n → is_u64 n) ∧
  (∀ n u k, is_u64 n → unit_of u = Some k →
     parse_duration (pretty n +:+ String u "") = if (n * k <=? u64_max)%N then Some (n * k)%N else None) ∧
  (∀ a b, ttl_secs (strictest a b) = min_opt (ttl_secs a) (ttl_secs b)).
Proof.
  split; [exact parse_duration_u64|]. split; [exact parse_duration_unit|exact ttl_secs_strictest].
Qed.

(** ** Evaluation in its parts *)

Section Evaluation.
Variables (p : ConnectPolicy) (req : ConnRequest) (caller callee : Entity).

Definition pair_bar : AssuranceBar := bar_for_pair p (ent_zone caller) (ent_zone callee).
Definition offered_ttl : N :=
  N.min (N.min (cr_ttl_secs req) ISSUER_MAX_TTL_SECS) (default u64_max (ttl_secs pair_bar)).

(** The rule that governs the request: the first that matches. *)
Definition governing_rule : option ConnRule :=
  snd <$> first_match 0 (po_rules p) req caller callee (facts req caller callee offered_ttl).

Definition ruled_decision : ConnDecision := from_option ru_decision (po_default p) governing_rule.
Definition approval_floor : ApprovalRequirement :=
  match governing_rule ≫= ru_approval with
  | Some a => approval_max (bar_approval pair_bar) a
  | None => bar_approval pair_bar
  end.
Definition ruled_terms : Terms :=
  let t := bar_terms pair_bar (cr_terms req) in
  match governing_rule ≫= ru_terms with Some o => Terms_intersect t (to_terms o) | None => t end.
Definition ruled_ttl : N :=
  match (governing_rule ≫= ru_ttl_max) ≫= parse_duration with
  | Some t => N.min offered_ttl t
  | None => offered_ttl
  end.

Lemma apply_rule_parts trace :
  let r := apply_rule p (first_match 0 (po_rules p) req caller callee (facts req caller callee offered_ttl))
             trace offered_ttl (bar_terms pair_bar (cr_terms req)) in
  rg_decision r = ruled_decision ∧ rg_ttl r = ruled_ttl ∧ rg_terms r = ruled_terms ∧
  rg_approval r = governing_rule ≫= ru_approval ∧
  rg_approver_role r = governing_rule ≫= ru_approver_role ∧
  rg_owner_merge r = from_option ru_owner_merge_approves false governing_rule.
Proof.
  unfold apply_rule, ruled_decision, ruled_ttl, ruled_terms, governing_rule.
  destruct (first_match _ _ _ _ _ _) as [[i r]|]; simpl; repeat split.
Qed.

Definition is_none {A} (o : option A) : bool := match o with None => true | Some _ => false end.

(** The verdict as a table: what the rules say, and what stands in the way of an [Allow]. *)
Definition reference_decision (state : StandingState) (now : N) : ConnDecision :=
  if Terms_is_closed ruled_terms then Deny else
  match ruled_decision with
  | Allow =>
    if bool_decide (approval_floor = ArStanding)
       && bool_decide (ent_posture caller = Attested) && bool_decide (ent_posture callee = Attested)
       && is_none (blocks (po_standing p) req callee state now)
    then Allow else RequireApproval
  | d => d
  end.

Lemma posture_step_eq role party st :
  (posture_step role party st).1
  = if bool_decide (ent_posture party = Attested) then st.1
    else if bool_decide (st.1 = Allow) then RequireApproval else st.1.
Proof. unfold posture_step. by destruct (ent_posture party). Qed.

Lemma decide_request_parts state now trace :
  let ev := decide_request p req caller callee state now trace in
  ce_decision ev = reference_decision state now ∧ ce_bar ev = pair_bar ∧
  ce_distinct_approvers ev = bar_distinct_approvers pair_bar ∧ ce_terms ev = ruled_terms ∧
  (Terms_is_closed ruled_terms = false →
     ce_ttl_secs ev = ruled_ttl ∧ ce_approver_role ev = governing_rule ≫= ru_approver_role ∧
     ce_owner_merge_approves ev = from_option ru_owner_merge_approves false governing_rule ∧
     ce_dual_control ev = bool_decide (approval_floor = ArDualControl)).
Proof.
  unfold decide_request. cbv zeta. fold pair_bar. fold offered_ttl.
  set (tr := trace ++ _). destruct (apply_rule_parts tr) as (Ed & Et & Em & Ea & Er & Eo).
  set (r := apply_rule _ _ _ _ _) in *. rewrite Ea. fold approval_floor. rewrite Ed, Em.
  set (st1 := if _ && _ then _ else _). assert (st1.1 = if bool_decide (ruled_decision = Allow) && negb (bool_decide (approval_floor = ArStanding))
      then RequireApproval else ruled_decision) as E1 by (unfold st1; by case_match).
  destruct st1 as [d1 t1]. simpl in E1. destruct (posture_step "caller" caller (d1, t1)) as [d2 t2] eqn:E2.
  pose proof (posture_step_eq "caller" caller (d1, t1)) as P1. rewrite E2 in P1. simpl in P1.
  destruct (posture_step "callee" callee (d2, t2)) as [d3 t3] eqn:E3.
  pose proof (posture_step_eq "callee" callee (d2, t2)) as P2. rewrite E3 in P2. simpl in P2.
  unfold reference_decision. destruct (Terms_is_closed ruled_terms); [done|].
  set (st4 := if bool_decide (d3 = Allow) then _ else _).
  assert (st4.1 = if bool_decide (d3 = Allow) && negb (is_none (blocks (po_standing p) req callee state now))
     then RequireApproval else d3) as E4.
  { unfold st4. destruct (bool_decide (d3 = Allow)); [|done]. by destruct (blocks _ _ _ _ _). }
  destruct st4 as [d4 t4]. simpl in E4 |- *. rewrite E4, P2, P1, E1, Et, Er, Eo.
  split; [|repeat split; try done; by destruct approval_floor, ruled_decision].
  clear. destruct ruled_decision, (bool_decide (approval_floor = ArStanding)), (bool_decide (ent_posture caller = Attested)),
    (bool_decide (ent_posture callee = Attested)), (is_none _); reflexivity.
Qed.

Lemma decide_request_closed state now trace :
  Terms_is_closed ruled_terms = true → ce_ttl_secs (decide_request p req caller callee state now trace) = 0%N.
Proof.
  intros Hc. unfold decide_request. cbv zeta. fold pair_bar. fold offered_ttl.
  set (tr := trace ++ _). destruct (apply_rule_parts tr) as (_ & _ & Em & _).
  set (r := apply_rule _ _ _ _ _) in *. rewrite Em, Hc. set (st1 := if _ && _ then _ else _).
  destruct st1 as [d1 t1]. destruct (posture_step "caller" caller (d1, t1)) as [d2 t2].
  by destruct (posture_step "callee" callee (d2, t2)).
Qed.

(** What evaluation refuses to consider. *)
Definition considered : Prop :=
  ent_id caller ≠ ent_id callee ∧
  (ent_posture caller ≠ Quarantined ∧ ent_lifecycle caller = Active) ∧
  (ent_posture callee ≠ Quarantined ∧ ent_lifecycle callee = Active) ∧
  (∀ name, name ∈ Surface_items (cr_surface req) → is_Some (pin_items (ent_pin callee) !! name)).

(** The lattice lets the pair cross, or is not enforced. *)
Definition crossing_open (l : ZoneLattice) : Prop :=
  po_strict_crossings p = true → ZoneLattice_permits l (ent_zone caller) (ent_zone callee) = true.

Lemma assert_party_ok e : assert_party_connectable e = Ok tt ↔ ent_posture e ≠ Quarantined ∧ ent_lifecycle e = Active.
Proof.
  unfold assert_party_connectable. rewrite !guard_err_ok, negb_false_iff, bool_decide_eq_false, bool_decide_eq_true. tauto.
Qed.

Lemma assert_surface_ok :
  assert_surface_declared req callee = Ok tt ↔
  ∀ name, name ∈ Surface_items (cr_surface req) → is_Some (pin_items (ent_pin callee) !! name).
Proof.
  unfold assert_surface_declared. cbv zeta. rewrite guard_err_ok, negb_false_iff, bool_decide_eq_true, filterb_nil.
  setoid_rewrite negb_false_iff. unfold contains_key.
  assert (∀ (m : gmap string string) k, (match m !! k with Some _ => true | None => false end) = true ↔ is_Some (m !! k)) as Hs
    by (intros m k; destruct (m !! k); rewrite is_Some_alt; done).
  setoid_rewrite Hs. tauto.
Qed.

Lemma evaluate_ok state now ev :
  evaluate p req caller callee state now = Ok ev ↔
  considered ∧ ∃ l, lattice p = Ok l ∧
    let d := resolve l (ent_zone caller) (ent_zone callee) in
    let trace := ["crossing[" +:+ Crossing_as_str (zd_crossing d) +:+ "]"] in
    ev = if po_strict_crossings p && negb (zd_permitted d)
         then mkConnEval Deny (slashes trace) 0 (cr_terms req) None false false false pair_bar
         else decide_request p req caller callee state now trace.
Proof.
  unfold evaluate, considered. rewrite guard_err_ok, bool_decide_eq_false, <-!assert_party_ok, <-assert_surface_ok.
  split.
  - intros [Hne ([] & H1 & ([] & H2 & ([] & H3 & (l & Hl & He)%result_bind_ok)%result_bind_ok)%result_bind_ok)%result_bind_ok].
    split; [done|]. exists l. split; [done|]. cbv zeta in *. case_match; by injection He as <-.
  - intros [(Hne & H1 & H2 & H3) (l & Hl & ->)]. split; [done|].
    do 3 (apply result_bind_ok; exists tt; split; [done|]). apply result_bind_ok. exists l.
    split; [done|]. cbv zeta. by case_match.
Qed.

Lemma evaluate_ttl_le state now ev :
  evaluate p req caller callee state now = Ok ev → (ce_ttl_secs ev ≤ cr_ttl_secs req)%N.
Proof.
  intros [_ (l & _ & Hev)]%evaluate_ok. cbv zeta in Hev. destruct (_ && _); [subst ev; cbn; lia|].
  destruct (Terms_is_closed ruled_terms) eqn:Hc; [rewrite Hev, decide_request_closed by done; lia|].
  edestruct decide_request_parts as (_ & _ & _ & _ & Hopen). destruct (Hopen Hc) as (Httl & _).
  rewrite Hev, Httl. unfold ruled_ttl, offered_ttl. case_match; lia.
Qed.

(** C26: evaluation decides as documented, and nothing is allowed by accident.  A request is
    considered exactly when the two parties differ, both are active and out of quarantine,
    the callee declares everything asked for and the policy's lattice is well formed.  Then
    it is allowed outright only if the lattice lets the pair cross (where it is enforced),
    the first matching rule -- or the default -- says [allow], neither the zone bar nor the
    rule demands a human, both parties are attested, the sources leave something that may
    cross, and no standing-policy cap is reached; it is denied exactly when the lattice
    forbids the crossing, the rule or the default denies, or nothing may cross; and in every
    other case a human must approve. *)
Theorem evaluate_decides state now :
  ((∃ ev, evaluate p req caller callee state now = Ok ev) ↔ considered ∧ ∃ l, lattice p = Ok l) ∧
  ∀ ev l, evaluate p req caller callee state now = Ok ev → lattice p = Ok l →
    (ce_decision ev = Allow ↔
       crossing_open l ∧ ruled_decision = Allow ∧ approval_floor = ArStanding ∧
       ent_posture caller = Attested ∧ ent_posture callee = Attested ∧
       Terms_is_closed ruled_terms = false ∧ blocks (po_standing p) req callee state now = None) ∧
    (ce_decision ev = Deny ↔
       ¬ crossing_open l ∨ ruled_decision = Deny ∨ Terms_is_closed ruled_terms = true).
Proof.
  split.
  - setoid_rewrite evaluate_ok. split; [naive_solver|]. intros [Hc (l & Hl)]. eexists. split; [done|].
    exists l. split; [done|]. reflexivity.
  - intros ev l Hev Hl. apply evaluate_ok in Hev as [_ (l' & Hl' & ->)]. rewrite Hl in Hl'. injection Hl' as <-.
    cbv zeta. unfold crossing_open, ZoneLattice_permits. set (d := resolve l _ _). set (trace := [_]).
    destruct (decide_request_parts state now trace) as [Hd _].
    destruct (po_strict_crossings p), (zd_permitted d); simpl; rewrite ?Hd; unfold reference_decision.
    2: naive_solver.
    all: destruct (Terms_is_closed ruled_terms); [naive_solver|]; destruct ruled_decision; [|naive_solver..].
    all: destruct (blocks _ _ _ _ _) as [b|]; simpl; rewrite ?andb_false_r, ?andb_true_r; [naive_solver|].
    all: repeat case_bool_decide; simpl; naive_solver.
Qed.

(** Nothing in a policy widens what was asked for.  What an evaluated request that is not
    denied may be given is bounded by every source at once: a lifetime is within the
    granted one exactly when it is within the request's, the issuer's ceiling, the zone
    bar's and the matched rule's; a use is permitted by the granted terms exactly when it is
    permitted by the requested ones, by the rule's, and is no deeper than the bar's
    delegation depth (spend ceilings being numbers); oversight asked for by the request, the
    rule or the bar is in the terms; and two approvers are needed exactly when the bar or
    the rule demands them. *)
Theorem evaluate_never_widens state now ev :
  evaluate p req caller callee state now = Ok ev → ce_decision ev ≠ Deny →
  (∀ t, (t ≤ ce_ttl_secs ev)%N ↔ (t ≤ cr_ttl_secs req)%N ∧ (t ≤ ISSUER_MAX_TTL_SECS)%N ∧
     within (ttl_secs pair_bar) t = true ∧ within ((governing_rule ≫= ru_ttl_max) ≫= parse_duration) t = true) ∧
  (∀ u, spend_ok (cr_terms req) → is_nan (use_spend u) = false →
     (∀ o, governing_rule ≫= ru_terms = Some o → spend_ok (to_terms o)) →
     terms_permit (ce_terms ev) u = true ↔
       terms_permit (cr_terms req) u = true ∧ within (bar_max_delegation_depth pair_bar) (use_depth u) = true ∧
       ∀ o, governing_rule ≫= ru_terms = Some o → terms_permit (to_terms o) u = true) ∧
  (is_Some (human_oversight (ce_terms ev)) ↔
     is_Some (human_oversight (cr_terms req)) ∨ bar_oversight pair_bar = Required ∨
     ∃ o, governing_rule ≫= ru_terms = Some o ∧ is_Some (to_human_oversight o)) ∧
  (ce_dual_control ev = true ↔ bar_approval pair_bar = ArDualControl ∨ governing_rule ≫= ru_approval = Some ArDualControl) ∧
  ce_bar ev = pair_bar ∧ ce_distinct_approvers ev = bar_distinct_approvers pair_bar ∧
  ce_approver_role ev = governing_rule ≫= ru_approver_role.
Proof.
  intros Hev Hnd. apply evaluate_ok in Hev as [_ (l & _ & Hev)]. cbv zeta in Hev.
  destruct (po_strict_crossings p && _); [by subst ev|].
  destruct (decide_request_parts state now ["crossing[" +:+ Crossing_as_str (zd_crossing (resolve l (ent_zone caller) (ent_zone callee))) +:+ "]"])
    as (Hd & Hb & Hdist & Hterms & Hopen).
  rewrite <-Hev in *. clear Hev.
  destruct (Terms_is_closed ruled_terms) eqn:Hc.
  { rewrite Hd in Hnd. unfold reference_decision in Hnd. by rewrite Hc in Hnd. }
  destruct (Hopen eq_refl) as (Httl & Hrole & _ & Hdual). clear Hopen.
  split; [|split; [|split; [|split]]].
  - intros t. rewrite Httl. unfold ruled_ttl, offered_ttl.
    destruct (ttl_secs pair_bar) as [b|], ((governing_rule ≫= ru_ttl_max) ≫= parse_duration) as [r|]; simpl;
      rewrite ?N.leb_le, ?N.min_glb_iff; unfold ISSUER_MAX_TTL_SECS, u64_max; intuition lia.
  - intros u Hs Hu Ho. rewrite Hterms. unfold ruled_terms.
    assert (spend_ok (bar_terms pair_bar (cr_terms req))) as Hs' by exact Hs.
    assert (terms_permit (bar_terms pair_bar (cr_terms req)) u = true ↔
      terms_permit (cr_terms req) u = true ∧ within (bar_max_delegation_depth pair_bar) (use_depth u) = true) as Hbar.
    { unfold terms_permit, bar_terms. cbn [data_classes classes_closed jurisdictions jurisdictions_closed
        max_calls_per_hour max_concurrent max_spend_usd_per_day delegation].
      destruct (bar_max_delegation_depth pair_bar) as [d|]; cbn [within deleg_max_depth];
        rewrite ?andb_true_iff, ?N.leb_le, ?N.min_glb_iff; tauto. }
    destruct (governing_rule ≫= ru_terms) as [o|].
    + rewrite terms_intersect_permits by eauto. rewrite andb_true_iff, Hbar. naive_solver.
    + rewrite Hbar. naive_solver.
  - rewrite Hterms. unfold ruled_terms.
    assert (is_Some (human_oversight (bar_terms pair_bar (cr_terms req))) ↔
      is_Some (human_oversight (cr_terms req)) ∨ bar_oversight pair_bar = Required) as Hbar.
    { unfold bar_terms. cbn [human_oversight].
      destruct (bar_oversight pair_bar), (human_oversight (cr_terms req)); rewrite ?is_Some_alt; naive_solver. }
    destruct (governing_rule ≫= ru_terms) as [o|]; [rewrite terms_intersect_oversight|]; rewrite Hbar.
    + change (human_oversight (to_terms o)) with (to_human_oversight o). naive_solver.
    + naive_solver.
  - rewrite Hdual, bool_decide_eq_true. unfold approval_floor.
    destruct (governing_rule ≫= ru_approval) as [[]|], (bar_approval pair_bar); simpl; naive_solver.
  - done.
Qed.
End Evaluation.

(** The trace of an evaluation that matched no rule does not say so: by the time the default
    would be recorded the trace already holds the crossing and the zone bar. *)
Lemma default_never_traced p c z ttl terms : rg_trace (apply_rule p None [c; z] ttl terms) = [c; z].
Proof. done. Qed.

(** *** Dry runs *)

Section DryRun.
Variables (p : ConnectPolicy) (proj : Projection) (state : StandingState) (now : N).

(** What one contract comes to, on its own. *)
Definition dry_outcome (c : ContractRecord) : option (option (DryDecision * bool)) :=
  if bool_decide (rec_status c = CActive) then
    Some (caller ← pr_entities proj !! rec_caller c; callee ← pr_entities proj !! rec_callee c;
          Some (match evaluate p (renewal_request c caller) caller callee state now with
                | Ok ev => (Would (ce_decision ev), is_issuable ev)
                | Err _ => (Impossible, false)
                end))
  else None.

Definition active_contracts : list ContractRecord := (map_to_list (pr_contracts proj)).*2.

Definition dry_rows_of (cs : list ContractRecord) : list DryRunRow :=
  omap (λ c, o ← dry_outcome c; o ← o; Some (mkDryRunRow (cid_str (rec_cid c)) o.1 o.2)) cs.
Definition dry_cids (keep : option (DryDecision * bool) → bool) (cs : list ContractRecord) : list string :=
  omap (λ c, o ← dry_outcome c; if keep o then Some (cid_str (rec_cid c)) else None) cs.

Definition denied_now (o : option (DryDecision * bool)) : bool :=
  match o with Some (Would Deny, _) | Some (Impossible, _) => true | _ => false end.
Definition escalated_now (o : option (DryDecision * bool)) : bool :=
  match o with Some (Would RequireApproval, _) => true | _ => false end.

Lemma dry_fold cs rep :
  foldl (dry_step p proj state now) rep cs =
  mkDryRunReport (dr_rows rep ++ dry_rows_of cs) (dr_would_deny rep ++ dry_cids denied_now cs)
    (dr_would_escalate rep ++ dry_cids escalated_now cs) (dr_unevaluable rep ++ dry_cids is_none cs).
Proof.
  revert rep. induction cs as [|c cs IH]; intros rep; simpl; [rewrite !app_nil_r; by destruct rep|].
  rewrite IH. clear IH. unfold dry_step, dry_outcome.
  destruct (bool_decide (rec_status c = CActive)); simpl; [|done].
  destruct (pr_entities proj !! rec_caller c) as [caller|]; simpl; [|by rewrite <-app_assoc].
  destruct (pr_entities proj !! rec_callee c) as [callee|]; simpl; [|by rewrite <-app_assoc].
  destruct (evaluate _ _ _ _ _ _) as [ev|e]; simpl; [|by rewrite <-!app_assoc].
  destruct (ce_decision ev); simpl; by rewrite <-!app_assoc.
Qed.

(** A dry run accounts for the whole live estate: its rows are one per active contract
    whose parties are both registered, in order of contract id, each saying what evaluating
    that contract's surface, terms and lifetime under the candidate policy comes to; the
    contracts it lists as no longer issuable are exactly the ones that evaluation denies or
    refuses to consider, the ones it lists as escalated exactly those that would now need a
    human, and the rest of the active contracts are listed as unevaluable. *)
Theorem dry_run_exact :
  let r := dry_run p proj state now in
  dr_rows r ≡ₚ dry_rows_of active_contracts ∧ StronglySorted row_le (dr_rows r) ∧
  (∀ cid, cid ∈ dr_would_deny r ↔ ∃ c d, c ∈ active_contracts ∧ cid = cid_str (rec_cid c) ∧
     dry_outcome c = Some (Some d) ∧ (d.1 = Would Deny ∨ d.1 = Impossible)) ∧
  (∀ cid, cid ∈ dr_would_escalate r ↔ ∃ c d, c ∈ active_contracts ∧ cid = cid_str (rec_cid c) ∧
     dry_outcome c = Some (Some d) ∧ d.1 = Would RequireApproval) ∧
  (∀ cid, cid ∈ dr_unevaluable r ↔ ∃ c, c ∈ active_contracts ∧ cid = cid_str (rec_cid c) ∧ rec_status c = CActive ∧
     (pr_entities proj !! rec_caller c = None ∨ pr_entities proj !! rec_callee c = None)) ∧
  (is_neutral r = true ↔ ∀ c, c ∈ active_contracts → rec_status c = CActive →
     dry_outcome c = Some None ∨ ∃ b, dry_outcome c = Some (Some (Would Allow, b))).
Proof.
  cbv zeta. unfold dry_run. rewrite dry_fold. fold active_contracts. cbn [dr_rows dr_would_deny dr_would_escalate
    dr_unevaluable DryRunReport_default app].
  assert (∀ keep cid, cid ∈ sort_strings (dry_cids keep active_contracts) ↔
    ∃ c o, c ∈ active_contracts ∧ cid = cid_str (rec_cid c) ∧ dry_outcome c = Some o ∧ keep o = true) as Hin.
  { intros keep cid. rewrite elem_of_sort_strings. unfold dry_cids. rewrite list_elem_of_omap. split.
    - intros (c & Hc & E). destruct (dry_outcome c) as [o|] eqn:Eo; [|done]. simpl in E.
      destruct (keep o) eqn:Ek; [|done]. injection E as <-. eauto 10.
    - intros (c & o & Hc & -> & Eo & Ek). exists c. split; [done|]. rewrite Eo. simpl. by rewrite Ek. }
  split; [apply merge_sort_Permutation|]. split.
  { apply (StronglySorted_merge_sort row_le). }
  split; [|split; [|split]].
  - intros cid. rewrite Hin. split.
    + intros (c & [[[[]|] b]|] & Hc & -> & Eo & Ek); try done; exists c; eexists; (split; [done|]); (split; [done|]); (split; [done|]); simpl; tauto.
    + intros (c & [d b] & Hc & -> & Eo & Hd). exists c, (Some (d, b)). do 3 (split; [done|]). simpl in *. destruct Hd as [->| ->]; done.
  - intros cid. rewrite Hin. split.
    + intros (c & [[[[]|] b]|] & Hc & -> & Eo & Ek); try done. exists c. eexists. done.
    + intros (c & [d b] & Hc & -> & Eo & Hd). exists c, (Some (d, b)). do 3 (split; [done|]). simpl in *. by subst d.
  - intros cid. rewrite Hin. split.
    + intros (c & o & Hc & -> & Eo & Ek). exists c. split; [done|]. split; [done|]. unfold dry_outcome in Eo.
      case_bool_decide; [|done]. split; [done|]. injection Eo as <-.
      destruct (pr_entities proj !! rec_caller c); [|by left]. destruct (pr_entities proj !! rec_callee c); [|by right]. done.
    + intros (c & Hc & -> & Ha & Hn). exists c, None. split; [done|]. split; [done|]. split; [|done].
      unfold dry_outcome. rewrite bool_decide_eq_true_2 by done. f_equal.
      destruct Hn as [-> | ->]; [done|]. by destruct (pr_entities proj !! rec_caller c).
  - unfold is_neutral. cbn [dr_would_deny dr_would_escalate]. rewrite andb_true_iff, !bool_decide_eq_true. split.
    + intros [Hd He] c Hc Ha. destruct (dry_outcome c) as [o|] eqn:Eo; [|unfold dry_outcome in Eo; by rewrite bool_decide_eq_true_2 in Eo].
      destruct o as [[[[]|] b]|]; [by right; eexists|exfalso..|by left].
      * eapply (elem_of_nil (cid_str (rec_cid c))). rewrite <-Hd. apply Hin. by exists c, (Some (Would Deny, b)).
      * eapply (elem_of_nil (cid_str (rec_cid c))). rewrite <-He. apply Hin. by exists c, (Some (Would RequireApproval, b)).
      * eapply (elem_of_nil (cid_str (rec_cid c))). rewrite <-Hd. apply Hin. by exists c, (Some (Impossible, b)).
    + intros Hall. assert (∀ c o, c ∈ active_contracts → dry_outcome c = Some o → denied_now o = false ∧ escalated_now o = false) as Hno.
      { intros c o Hc Eo. assert (rec_status c = CActive) as Ha by (unfold dry_outcome in Eo; by case_bool_decide).
        destruct (Hall c Hc Ha) as [E|[b E]]; rewrite E in Eo; by injection Eo as <-. }
      split; apply elem_of_nil_inv; intros cid (c & o & Hc & _ & Eo & Ek)%Hin; destruct (Hno c o Hc Eo); congruence.
Qed.
End DryRun.

(** *** Lint *)

Lemma first_match_spec i rules req caller callee f j r :
  first_match i rules req caller callee f = Some (j, r) →
  i ≤ j ∧ rules !! (j - i) = Some r ∧ rule_matches r req caller callee f = true ∧
  ∀ k r', i ≤ k < j → rules !! (k - i) = Some r' → rule_matches r' req caller callee f = false.
Proof.
  revert i. induction rules as [|x rules IH]; intros i; simpl; [done|].
  destruct (rule_matches x req caller callee f) eqn:E.
  - intros [= <- <-]. rewrite Nat.sub_diag. split; [lia|]. split; [done|]. split; [done|]. intros. lia.
  - intros (Hi & Hr & Hm & Hall)%IH. split; [lia|]. split; [|split; [done|]].
    + replace (j - i) with (S (j - S i)) by lia. done.
    + intros k r' Hk Hr'. destruct (decide (k = i)) as [->|].
      * replace (i - i) with 0 in Hr' by lia. by injection Hr' as <-.
      * eapply (Hall k); [lia|]. by replace (k - i) with (S (k - S i)) in Hr' by lia.
Qed.

Lemma catch_all_matches r req caller callee f : is_catch_all r = true → rule_matches r req caller callee f = true.
Proof.
  unfold is_catch_all, rule_matches. by repeat case_match.
Qed.

(** The warnings of the loop over rules [i, i + 1, ...], entered with the first catch-all
    already seen, if any. *)
Lemma lint_rules_unreachable declared ca i rules j a :
  Unreachable j a ∈ lr_warnings (lint_rules declared ca (indexed i rules)) ↔
  i ≤ j ∧ j - i < length rules ∧
  match ca with
  | Some b => a = b
  | None => i ≤ a < j ∧ (∃ r, rules !! (a - i) = Some r ∧ is_catch_all r = true) ∧
            ∀ k r, i ≤ k < a → rules !! (k - i) = Some r → is_catch_all r = false
  end.
Proof.
  revert ca i. induction rules as [|r rules IH]; intros ca i; simpl.
  { split; [by intros ?%elem_of_nil|lia]. }
  assert (Unreachable j a ∉ lint_rule_warnings declared i r) as Hno.
  { assert (∀ (b : bool) (w : PolicyWarning), Unreachable j a ∈ (if b then [w] else []) → w = Unreachable j a) as Hb
      by (intros [] w; [by intros ->%list_elem_of_singleton|by intros ?%elem_of_nil]).
    unfold lint_rule_warnings. rewrite !elem_of_app. intros [Hw|[Hw|[Hw|Hw]]].
    - by apply Hb in Hw.
    - by apply Hb in Hw.
    - destruct (ru_ttl_max r ≫= parse_duration); [by apply Hb in Hw|by apply elem_of_nil in Hw].
    - destruct (bool_decide _); [by apply elem_of_nil in Hw|]. by apply list_elem_of_fmap in Hw as (? & [=] & _). }
  rewrite !elem_of_app, IH. destruct ca as [b|]; simpl.
  - rewrite andb_false_r, list_elem_of_singleton. split.
    + intros [[= -> ->]|[?|(? & ? & ->)]]; [|done|]; (repeat split; lia).
    + intros (Hi & Hl & ->). destruct (decide (j = i)) as [->|]; [by left|]. right; right. repeat split; lia.
  - rewrite andb_true_r.
    destruct (is_catch_all r) eqn:Er.
    + split.
      * intros [?%elem_of_nil|[?|(Hi & Hl & ->)]]; [done|done|]. split; [lia|]. split; [lia|]. split; [lia|].
        rewrite Nat.sub_diag. split; [by exists r|]. intros. lia.
      * intros (Hi & Hl & Ha & (r' & Hr' & Hca) & Hall). right; right. split; [lia|]. split; [lia|].
        destruct (decide (a = i)) as [->|]; [done|]. rewrite (Hall i r) in Er; [done|lia|]. by replace (i - i) with 0 by lia.
    + split.
      * intros [?%elem_of_nil|[?|(Hi & Hl & Ha & (r' & Hr' & Hca) & Hall)]]; [done|done|].
        split; [lia|]. split; [lia|]. split; [lia|]. split.
        -- exists r'. by replace (a - i) with (S (a - S i)) by lia.
        -- intros k r'' Hk Hr''. destruct (decide (k = i)) as [->|].
           ++ replace (i - i) with 0 in Hr'' by lia. by injection Hr'' as <-.
           ++ eapply (Hall k); [lia|]. by replace (k - i) with (S (k - S i)) in Hr'' by lia.
      * intros (Hi & Hl & Ha & (r' & Hr' & Hca) & Hall).
        assert (a ≠ i) as Hai. { intros ->. replace (i - i) with 0 in Hr' by lia. injection Hr' as <-. congruence. }
        right; right. split; [lia|]. split; [lia|]. split; [lia|]. split.
        -- exists r'. by replace (a - i) with (S (a - S i)) in Hr' by lia.
        -- intros k r'' Hk Hr''. apply (Hall k); [lia|]. by replace (k - i) with (S (k - S i)) by lia.
Qed.

(** What the linter calls unreachable is: it warns about a rule exactly when an earlier
    rule states no criterion at all, naming the first such rule; and a rule it warns about
    governs no request, whoever asks for whatever. *)
Theorem lint_unreachable_exact p i a :
  let warned := Unreachable i a ∈ lr_warnings (Policy_lint p) in
  (warned ↔ a < i < length (po_rules p) ∧ (∃ r, po_rules p !! a = Some r ∧ is_catch_all r = true) ∧
     ∀ k r, k < a → po_rules p !! k = Some r → is_catch_all r = false) ∧
  (warned → ∀ req caller callee f r, first_match 0 (po_rules p) req caller callee f ≠ Some (i, r)).
Proof.
  cbv zeta. assert (Unreachable i a ∈ lr_warnings (Policy_lint p) ↔
    a < i < length (po_rules p) ∧ (∃ r, po_rules p !! a = Some r ∧ is_catch_all r = true) ∧
     ∀ k r, k < a → po_rules p !! k = Some r → is_catch_all r = false) as Hiff.
  { unfold Policy_lint. cbn [lr_warnings]. rewrite !elem_of_app, lint_rules_unreachable. rewrite !Nat.sub_0_r.
    setoid_rewrite Nat.sub_0_r. split.
    - intros [(_ & Hl & Ha & Hr & Hall)|[Hw|Hw]].
      + split; [lia|]. split; [done|]. intros k r Hk. apply Hall. lia.
      + repeat case_match; set_solver.
      + case_match; set_solver.
    - intros (Hl & Hr & Hall). left. split; [lia|]. split; [lia|]. split; [lia|]. split; [done|].
      intros k r Hk. apply Hall. lia. }
  split; [exact Hiff|]. intros (Hl & (ra & Hra & Hca) & _)%Hiff req caller callee f r Hm.
  apply first_match_spec in Hm as (_ & _ & _ & Hall). rewrite <-(Nat.sub_0_r a) in Hra.
  pose proof (Hall a ra ltac:(lia) Hra) as Hf. by rewrite catch_all_matches in Hf.
Qed.

(** ** Concrete policy *)

Module PolicyExamples.

Definition internal : ZoneDef :=
  mkZoneDef "internal" Internal (mkAssuranceBar Optional Optional (Some "1d") ArStanding Optional (Some 1%N) false).
Definition pay : ZoneDef :=
  mkZoneDef "internal.pay" Internal (mkAssuranceBar Optional Optional (Some "30d") ArHuman Optional (Some 3%N) true).

Definition reads : ConnRule :=
  mkConnRule (Some "internal*") None None None None None None None Allow None false None (Some "12h") None false.

Definition policy : ConnectPolicy :=
  mkConnectPolicy Deny "v1" [internal; pay] [] false false [reads] StandingLimits_default.

Definition party (id zone : string) (items : gmap string string) : Entity :=
  mkEntity (mkEntityId id) McpServer (mkHumanRef "pat@acme") None (mkTier 3) (mkZoneId zone)
    (mkPin PIN_ALG "sha256:m" items 10) [] Attested 100 Active [] [] None 0 10 10 10 0 ENTITY_SCHEMA.

Definition agent : Entity := party "spiffe://acme/agent" "internal.pay" ∅.
Definition ledger : Entity := party "spiffe://acme/ledger" "internal.pay" {["read" := "sha256:r"]}.

Definition ask : ConnRequest :=
  mkConnRequest (mkSurface ["read"] [] []) Terms_default 1000000 "reconcile" (mkHumanRef "sam@acme").

Lemma nested_zone_only_tightens_witness :
  ttl_secs (bar_for policy (mkZoneId "internal.pay")) = Some 86400%N ∧
  stricter (bar_for policy (mkZoneId "internal.pay")) (bar_for policy (mkZoneId "internal")).
Proof.
  split; [vm_compute; reflexivity|].
  refine (proj1 (proj2 (nested_zone_only_tightens policy (mkZoneId "internal.pay") (mkZoneId "internal")
    (mkZoneId "internal") (mkZoneId "internal.pay") _ _ _))); vm_compute; reflexivity.
Defined.

Lemma evaluate_never_widens_witness :
  ∃ ev, evaluate policy ask agent ledger (mkStandingState 0 0 0) 100 = Ok ev ∧
    ce_decision ev = RequireApproval ∧ (ce_ttl_secs ev ≤ 43200)%N.
Proof.
  destruct (evaluate policy ask agent ledger (mkStandingState 0 0 0) 100) as [ev|c] eqn:E;
    [|vm_compute in E; discriminate E].
  assert (ce_decision ev = RequireApproval) as Hd by (vm_compute in E; injection E as <-; reflexivity).
  exists ev. split; [reflexivity|]. split; [exact Hd|].
  assert (ce_decision ev ≠ Deny) as Hn by (rewrite Hd; discriminate).
  pose proof (proj1 (proj1 (evaluate_never_widens policy ask agent ledger (mkStandingState 0 0 0) 100 ev E Hn)
    (ce_ttl_secs ev)) (N.le_refl _)) as (_ & _ & _ & Hw).
  apply N.leb_le. revert Hw. vm_compute in E. injection E as <-. vm_compute. exact id.
Defined.

End PolicyExamples.
