(* ===== verification/Issuance.v ===== *)
(** * Issuance: request, approval and mint ([crates/wc-control/src/issuance.rs])

    An operation takes the issuer -- the store, the evidence log, the policy and the signer it
    holds -- and returns it with its outcome, changes made before a failure included.  What
    the disk answers to the commits, the evidence records and the artifact writes of one
    operation is its [Answers], numbered in the order the operation makes them.  Evidence is
    the interface [EvidenceLog].  The prose of a decision and of an error is the parameter
    [Prose]: it is recorded and never read back. *)

From Stdlib Require Import SpecFloat.
From stdpp Require Import pretty.
From S2P Require Import Prelude Text Errors Model Zone Json Canon Contract Artifact Log Store Std Policy Chain Evidence.

Definition DEFAULT_REQUEST_TTL_SECS : N := 72 * 3600.

(** ** Digests *)

Definition opt_num (o : option N) : Value := match o with Some n => num n | None => VNull end.
(** [Value::from(f64)]: a number when finite. *)
Definition f64_value (f : spec_float) : Value :=
  match f with S754_zero _ | S754_finite _ _ _ => VNumber (Float f) | _ => VNull end.
Definition opt_f64 (o : option spec_float) : Value := match o with Some f => f64_value f | None => VNull end.

(** [Terms] as serde writes it: the closed flags are skipped. *)
Definition terms_value (t : Terms) : Value :=
  json_object
    [("data_classes", strings_value (data_classes t));
     ("jurisdictions", strings_value (jurisdictions t));
     ("max_calls_per_hour", opt_num (max_calls_per_hour t));
     ("max_concurrent", opt_num (max_concurrent t));
     ("max_spend_usd_per_day", opt_f64 (max_spend_usd_per_day t));
     ("human_oversight", opt_value (human_oversight t));
     ("delegation", json_object
        [("max_depth", num (deleg_max_depth (delegation t)));
         ("attenuation", VString (deleg_attenuation (delegation t)))]);
     ("evidence", json_object
        [("sink", VString (ev_sink (evidence t))); ("delivery", VString (ev_delivery (evidence t)))])].

Definition digest_document (r : PendingRequest) : Value :=
  json_object
    [("id", VString (req_id r));
     ("caller", VString (entity_str (req_caller r)));
     ("callee", VString (entity_str (req_callee r)));
     ("items", strings_value (sort_strings (Surface_items (req_surface r))));
     ("resources", strings_value (surf_resources (req_surface r)));
     ("terms", terms_value (req_terms r));
     ("ttl_secs", num (req_ttl_secs r));
     ("mediators", strings_value (req_mediators r))].

Definition has_lapsed (r : PendingRequest) (now : N) : bool := (req_expires_at r <=? now)%N.

(** ** The approval file *)

Record ApprovalFile := mkApprovalFile {
  af_request : string;
  af_digest : string;
  af_caller : string;
  af_callee : string;
  af_items : list string;
  af_ttl_secs : N
}.

(** ** Signed approvals *)

Record ApprovalClaims := mkApprovalClaims {
  ac_req : string;
  ac_digest : string;
  ac_policy_version : string;
  ac_ticket : option string;
  ac_iat : N
}.

Record ApprovalProof := mkApprovalProof { ap_by : HumanRef; ap_jws : string }.

(** [serde_json] on [ApprovalClaims]. *)
Class ApprovalSerde := {
  claims_to_vec : ApprovalClaims → string;
  claims_from_value : Value → option ApprovalClaims
}.

Section Approvals.
Context `{SerdeJson, Sha256, Jose, SerdeParse, ApprovalSerde}.

Definition request_digest (r : PendingRequest) : string :=
  "sha256:" +:+ sha256_hex (canonical_json (digest_document r)).

Definition approval_file_check (f : ApprovalFile) (pending : PendingRequest) : result unit :=
  guard_err (negb (bool_decide (af_request f = req_id pending))) APPROVAL_SIGNATURE_INVALID $
  guard_err (negb (bool_decide (af_digest f = request_digest pending))) APPROVAL_SIGNATURE_INVALID $
  let items := sort_strings (Surface_items (req_surface pending)) in
  guard_err (negb (bool_decide (af_caller f = entity_str (req_caller pending)))
             || negb (bool_decide (af_callee f = entity_str (req_callee pending)))
             || negb (bool_decide (sort_strings (af_items f) = items))
             || negb (af_ttl_secs f =? req_ttl_secs pending)%N) APPROVAL_SIGNATURE_INVALID $
  Ok tt.

Record ApproverRegistry := mkApproverRegistry {
  ar_keys : IssuerKeys;
  ar_roles : gmap string (list string)
}.
Definition ApproverRegistry_new : ApproverRegistry := mkApproverRegistry IssuerKeys_new ∅.

Definition add_ec (r : ApproverRegistry) (id : HumanRef) (pem : string) (alg : Algorithm) (roles : list string)
    : result ApproverRegistry :=
  let? keys := add_ec_pem (ar_keys r) (human_str id) pem alg in
  Ok (mkApproverRegistry keys (<[human_str id := roles]> (ar_roles r))).

Definition approver_roles (r : ApproverRegistry) (id : HumanRef) : list string :=
  default [] (ar_roles r !! human_str id).
Definition holds_role (r : ApproverRegistry) (id : HumanRef) (role : string) : bool :=
  match ar_roles r !! human_str id with
  | Some roles => existsb (λ r, bool_decide (r = role)) roles
  | None => false
  end.
Definition approvers_is_empty (r : ApproverRegistry) : bool := bool_decide (kids (ar_keys r) = []).

Definition sign_approval (request : PendingRequest) (signer : IssuerKey) (ticket : option string) (now : N)
    : result string :=
  sign_detached (claims_to_vec (mkApprovalClaims (req_id request) (request_digest request)
    (req_policy_version request) ticket now)) signer.

Definition verify_approval (proof : ApprovalProof) (request : PendingRequest) (approvers : ApproverRegistry)
    (live_policy_version : string) : result ApprovalClaims :=
  let? claims := map_err (λ _, APPROVAL_SIGNATURE_INVALID)
    (verify_detached claims_from_value (ap_jws proof) (human_str (ap_by proof)) (ar_keys approvers)) in
  guard_err (negb (bool_decide (ac_req claims = req_id request))) APPROVAL_SIGNATURE_INVALID $
  guard_err (negb (bool_decide (ac_digest claims = request_digest request))) APPROVAL_SIGNATURE_INVALID $
  guard_err (negb (bool_decide (ac_policy_version claims = live_policy_version))) APPROVAL_STALE $
  Ok claims.
End Approvals.

(** ** Inputs and outcomes *)

Record RequestInput := mkRequestInput {
  ri_caller : EntityId;
  ri_callee : EntityId;
  ri_surface : Surface;
  ri_terms : Terms;
  ri_ttl_secs : N;
  ri_justification : string;
  ri_requester : HumanRef;
  ri_mediators : list string;
  ri_owner_must_approve : bool
}.

Record BreakGlassInput := mkBreakGlassInput {
  bg_caller : EntityId;
  bg_callee : EntityId;
  bg_surface : Surface;
  bg_terms : Terms;
  bg_ttl_secs : N;
  bg_incident : string;
  bg_justification : string;
  bg_requester : HumanRef;
  bg_mediators : list string
}.

Record BreakGlassLimits := mkBreakGlassLimits { bl_max_ttl_secs : N; bl_max_per_window : N; bl_window_secs : N }.
Definition BreakGlassLimits_default : BreakGlassLimits := mkBreakGlassLimits 3600 3 86400.

Definition limits_validate (l : BreakGlassLimits) : result unit :=
  guard_err (bl_max_ttl_secs l =? 0)%N CONFIG_INVALID $
  guard_err (86400 <? bl_max_ttl_secs l)%N CONFIG_INVALID $
  guard_err (bl_max_per_window l =? 0)%N CONFIG_INVALID $
  guard_err (bl_window_secs l =? 0)%N CONFIG_INVALID $
  Ok tt.

Record Derived := mkDerived { dv_cid : Cid; dv_jti : Jti; dv_offer_version : N }.
Record Issued := mkIssued { is_record : ContractRecord; is_artifacts : list (string * string); is_evidence_seq : N }.
Inductive Outcome := OutIssued (i : Issued) | OutAwaiting (p : PendingRequest) | OutDenied (reason trace : string).

Definition actor_id (a : Actor) : string :=
  match a with
  | ActorHuman id => human_str id
  | ActorService id => "service:" +:+ id
  | ActorAssurance => "assurance"
  end.

(** ** Identifiers *)

Section Identifiers.
Context `{Sha256}.

(** [&sha256_hex(..)[..n]]. *)
Definition short_hash (n : nat) (seed : string) : string := String.substring 0 n (sha256_hex seed).

Definition breakglass_id (input : BreakGlassInput) (now : N) : string :=
  "bg_" +:+ short_hash 12
    ("bg|" +:+ entity_str (bg_caller input) +:+ "|" +:+ entity_str (bg_callee input) +:+ "|" +:+
     join "," (sort_strings (Surface_items (bg_surface input))) +:+ "|" +:+ pretty (bg_ttl_secs input) +:+ "|" +:+
     bg_incident input +:+ "|" +:+ pretty now).
Definition request_id (input : RequestInput) (now seq : N) : string :=
  "req_" +:+ short_hash 12
    (entity_str (ri_caller input) +:+ "|" +:+ entity_str (ri_callee input) +:+ "|" +:+
     join "," (Surface_items (ri_surface input)) +:+ "|" +:+ pretty now +:+ "|" +:+ pretty seq).
Definition mint_cid (pending : PendingRequest) : string :=
  "conn_" +:+ short_hash 8
    (entity_str (req_caller pending) +:+ "|" +:+ entity_str (req_callee pending) +:+ "|" +:+
     join "," (Surface_items (req_surface pending)) +:+ "|" +:+ req_id pending).
Definition mint_jti (cid : Cid) (now seq : N) : string :=
  "cx_" +:+ short_hash 16 (cid_str cid +:+ "|" +:+ pretty now +:+ "|" +:+ pretty seq).
End Identifiers.

(** ** Who approved *)

(** [name.trim().trim_start_matches("human:")]. *)
Definition bare_name (s : string) : string := trim_start_matches "human:" (trim_text s).

(** [proposal::owner_approved]. *)
Definition owner_approved (approvers : list string) (owner : HumanRef) : bool :=
  let want := trim_start_matches "human:" (human_str owner) in
  existsb (λ a, let a := bare_name a in negb (bool_decide (a = "")) && eq_ignore_ascii_case a want) approvers.

(** The people of one side of a merge. *)
Definition side_people (merges : list MergeApproval) (s : Side) : list string :=
  filterb (λ a, negb (bool_decide (a = "")))
    (map (λ a, to_ascii_lowercase (bare_name a))
      (concat (map merge_approvers (filterb (λ m, bool_decide (merge_side m = s)) merges)))).

Definition merge_evidence_cannot_stand_in_for (pending : PendingRequest) (approval : ApprovalRef) : result unit :=
  if bool_decide (appr_merges approval = []) then Ok tt
  else
    let source := side_people (appr_merges approval) Source in
    let target := side_people (appr_merges approval) Target in
    guard_err (req_require_distinct_approvers pending && existsb (λ a, str_in a target) source)
      APPROVERS_NOT_DISTINCT $
    if req_owner_merge_approves pending && negb (req_dual_control pending) then Ok tt
    else match req_approver_role pending with
         | Some _ => Err APPROVER_ROLE_MISSING
         | None => guard_err (req_dual_control pending) DUAL_CONTROL_MISSING $ Ok tt
         end.

(** [sort_unstable_by] on the identifiers and [dedup]. *)
Definition distinct_people (l : list HumanRef) : list HumanRef := mkHumanRef <$> sort_dedup (human_str <$> l).

(** ** The issuer *)

Class Prose := { explain : ConnEval → string; error_text : Code → string }.

Record Answers (A : Type) := mkAnswers { an_commit : nat → Io; an_record : nat → A; an_write : nat → bool }.
Arguments mkAnswers {A}.
Arguments an_commit {A}.
Arguments an_record {A}.
Arguments an_write {A}.

Section Issuer.
Context `{FramedJson Event, SerdeJson, Sha256, Jose, SerdeParse, ApprovalSerde, Prose} {E A : Type} `{EvidenceLog E A}.

Record Issuer := mkIssuer {
  iu_store : Store;
  iu_evidence : E;
  iu_policy : ConnectPolicy;
  iu_signer : IssuerKey;
  iu_iss : string;
  iu_now : N;
  iu_actor : Actor;
  iu_request_ttl_secs : N;
  iu_mode : Mode
}.

Definition Issuer_new (store : Store) (evidence : E) (policy : ConnectPolicy) (signer : IssuerKey) (iss : string)
    (now : N) (actor : Actor) : Issuer :=
  mkIssuer store evidence policy signer iss now actor DEFAULT_REQUEST_TTL_SECS Enforce.
Definition observing (s : Issuer) : Issuer :=
  mkIssuer (iu_store s) (iu_evidence s) (iu_policy s) (iu_signer s) (iu_iss s) (iu_now s) (iu_actor s)
    (iu_request_ttl_secs s) Observe.
Definition with_store (s : Issuer) (store : Store) : Issuer :=
  mkIssuer store (iu_evidence s) (iu_policy s) (iu_signer s) (iu_iss s) (iu_now s) (iu_actor s)
    (iu_request_ttl_secs s) (iu_mode s).
Definition with_evidence (s : Issuer) (evidence : E) : Issuer :=
  mkIssuer (iu_store s) evidence (iu_policy s) (iu_signer s) (iu_iss s) (iu_now s) (iu_actor s)
    (iu_request_ttl_secs s) (iu_mode s).

Definition iu_projection (s : Issuer) : Projection := st_projection (iu_store s).
Definition version (s : Issuer) : string := po_version (iu_policy s).

Notation M T := (stateR Issuer T Code).

(** [self.store.commit(event, self.now, Durability::Durable)?]. *)
Definition commit_event (event : Event) (io : Io) : M N := λ s,
  let '(store, r) := commit (iu_store s) event (iu_now s) Durable io in (with_store s store, r).
(** [self.evidence.record(&event, self.now)?]. *)
Definition record_event (event : LifecycleEvent) (io : A) : M N := λ s,
  let '(evidence, r) := ev_record (iu_evidence s) event (iu_now s) io in (with_evidence s evidence, r).

Definition entity (id : EntityId) : M Entity := λ s, (s, ok_or (pr_entities (iu_projection s) !! id) ENTITY_NOT_FOUND).
Definition pending (id : string) : M PendingRequest := λ s,
  (s, ok_or (pr_requests (iu_projection s) !! id) CONTRACT_NOT_FOUND).

(** [projection.contracts.values()]. *)
Definition contract_values (s : Issuer) : list ContractRecord := (map_to_list (pr_contracts (iu_projection s))).*2.

Definition u32_max : N := 4294967295.
Definition standing_state (s : Issuer) : StandingState :=
  let active := filterb (λ c, bool_decide (rec_status c = CActive)) (contract_values s) in
  let standing := filterb (λ c, bool_decide (appr_mode (rec_approval c) = StandingPolicy)) active in
  let window_start := saturating_sub (iu_now s)
                        (default 86400%N (parse_duration (sl_window (po_standing (iu_policy s))))) in
  mkStandingState (len active) (len standing)
    (N.min (len (filterb (λ c, window_start <=? rec_iat c)%N standing)) u32_max).

Definition build_pending (s : Issuer) (input : RequestInput) (ev : ConnEval) : PendingRequest :=
  mkPendingRequest (request_id input (iu_now s) (log_last_seq (st_log (iu_store s))))
    (ri_caller input) (ri_callee input) (ri_surface input) (ce_terms ev) (ce_ttl_secs ev)
    (ri_justification input) (ri_requester input) (ri_mediators input) (ce_approver_role ev)
    (ce_dual_control ev) (ce_distinct_approvers ev) (ce_owner_merge_approves ev) (ri_owner_must_approve input)
    (version s) (explain ev) (ce_trace ev) (iu_now s)
    (saturating_add_u64 (iu_now s) (iu_request_ttl_secs s)) ReqPending.

(** The event every record of a request starts from. *)
Definition about (kind : EventKind) (caller callee : EntityId) (reason : string) (s : Issuer) : LifecycleEvent :=
  with_policy_version
    (with_reason (naming_entities (LifecycleEvent_new kind (actor_id (iu_actor s)))
                    [entity_str caller; entity_str callee]) reason) (version s).

Definition record_denial (input : RequestInput) (reason trace : string) (io : A) : M unit := λ s,
  (let! _ := record_event (with_detail (about EkContractDenied (ri_caller input) (ri_callee input) reason s)
                             (json_object [("trace", VString trace)])) io in retS tt) s.

Definition lapse (request : PendingRequest) (io : Io) : M unit :=
  let! _ := commit_event (ContractLapse (req_id request)) io in retS tt.

(** *** Minting *)

Definition caller_party (e : Entity) : Party :=
  mkParty (ent_id e) (ent_zone e) (ent_tier e)
    (if Pin_is_empty (ent_pin e) then None else Some (pin_manifest (ent_pin e))) None None.
Definition callee_party (e : Entity) (surface_digest : string) : Party :=
  mkParty (ent_id e) (ent_zone e) (ent_tier e) None (Some (pin_manifest (ent_pin e))) (Some surface_digest).
Definition assurance_of (callee : Entity) : Assurance :=
  mkAssurance (map (λ p, prov_kind p +:+ ":" +:+ prov_reference p) (ent_provenance callee))
    (pretty (ent_reattest_every callee) +:+ "s") (ent_posture callee).

Definition mint_payload (s : Issuer) (pending : PendingRequest) (approval : ApprovalRef) (caller callee : Entity)
    (cid : Cid) (jti : Jti) (surface_digest mediator : string) : ContractPayload :=
  mkPayload CONTRACT_TYP cid (iu_iss s) mediator jti (iu_now s) (iu_now s)
    (saturating_add_u64 (iu_now s) (req_ttl_secs pending)) (caller_party caller)
    (callee_party callee surface_digest) (req_surface pending) (req_terms pending) (assurance_of callee)
    approval (req_policy_version pending) PAYLOAD_SCHEMA.

(** One artifact per mediator. *)
Definition mint_artifacts (s : Issuer) (pending : PendingRequest) (approval : ApprovalRef) (caller callee : Entity)
    (cid : Cid) (jti : Jti) (surface_digest : string) : result (list (string * string)) :=
  mapR (λ mediator,
    let? jws := mint (mint_payload s pending approval caller callee cid jti surface_digest mediator) (iu_signer s) in
    Ok (mediator, jws)) (req_mediators pending).

Definition mint_record (s : Issuer) (pending : PendingRequest) (approval : ApprovalRef) (caller callee : Entity)
    (cid : Cid) (jti : Jti) (surface_digest first_jws : string) (offer_version : option N) : ContractRecord :=
  mkContractRecord cid jti (ent_id caller) (ent_id callee) (ent_zone caller) (ent_zone callee) (ent_tier callee)
    (pin_manifest (ent_pin callee)) surface_digest (req_surface pending) (req_terms pending)
    (req_mediators pending) ("sha256:" +:+ sha256_hex first_jws) CActive approval (req_policy_version pending)
    (iu_now s) (saturating_add_u64 (iu_now s) (req_ttl_secs pending)) offer_version CONTRACT_SCHEMA.

(** [{:?}] of the mode. *)
Definition mode_debug (m : ApprovalMode) : string :=
  match m with
  | Human => "Human" | StandingPolicy => "StandingPolicy" | BreakGlass => "BreakGlass"
  | ReviewedMerge => "ReviewedMerge"
  end.

Definition mint_event (s : Issuer) (pending : PendingRequest) (r : ContractRecord) : LifecycleEvent :=
  with_detail
    (with_policy_version
      (with_reason
        (naming_entities
          (with_contract_jti (with_cid (LifecycleEvent_new EkMint (actor_id (iu_actor s))) (cid_str (rec_cid r)))
             (jti_str (rec_jti r)))
          [entity_str (rec_caller r); entity_str (rec_callee r)])
        (req_policy_reason pending))
      (req_policy_version pending))
    (json_object
      [("request", VString (req_id pending));
       ("items", strings_value (Surface_items (req_surface pending)));
       ("resources", strings_value (surf_resources (req_surface pending)));
       ("aud", strings_value (req_mediators pending));
       ("exp", num (rec_exp r));
       ("approval_mode", VString (mode_debug (appr_mode (rec_approval r))));
       ("surface_digest", VString (rec_surface_digest r));
       ("jws_sha256", VString (rec_jws_sha256 r));
       ("signing_kid", VString (ik_kid (iu_signer s)));
       ("key_custody", VString (Custody_as_str (ik_custody (iu_signer s))))]).

(** The last loop of [mint_unchecked]. *)
Fixpoint write_artifacts (cid : Cid) (artifacts : list (string * string)) (write : nat → bool) (i : nat) : M unit :=
  match artifacts with
  | [] => retS tt
  | (audience, jws) :: rest => λ s,
    if write i
    then write_artifacts cid rest write (S i) (with_store s (write_artifact (iu_store s) (cid_str cid) audience jws))
    else (s, Err CHAIN_APPEND_FAILED)
  end.

(** What is decided before anything is written. *)
Definition prepare_mint (s : Issuer) (pending : PendingRequest) (approval : ApprovalRef) (caller callee : Entity)
    (derived : option Derived) : result (ContractRecord * list (string * string)) :=
  let? surface_digest := Pin_surface_digest (ent_pin callee) (Surface_items (req_surface pending)) in
  let? (cid, jti) := match derived with
                     | Some d => Ok (dv_cid d, dv_jti d)
                     | None =>
                       let? cid := Cid_new (mint_cid pending) in
                       let? jti := Jti_new (mint_jti cid (iu_now s) (log_last_seq (st_log (iu_store s)))) in
                       Ok (cid, jti)
                     end in
  let? artifacts := mint_artifacts s pending approval caller callee cid jti surface_digest in
  Ok (mint_record s pending approval caller callee cid jti surface_digest
        (default "" (find (λ jws, negb (bool_decide (jws = ""))) artifacts.*2)) (dv_offer_version <$> derived), artifacts).

(** [i] and [j] number the operation's commits and evidence records made so far. *)
Definition mint_unchecked (pending : PendingRequest) (approval : ApprovalRef) (caller callee : Entity)
    (derived : option Derived) (io : Answers A) (i j : nat) : M Issued := λ s,
  (let! (record, artifacts) := liftS (prepare_mint s pending approval caller callee derived) in
   let! seq := record_event (mint_event s pending record) (an_record io j) in
   let! _ := commit_event (ContractMint record) (an_commit io i) in
   let! _ := commit_event (ContractIssued (req_id pending) (rec_cid record)) (an_commit io (S i)) in
   let! _ := write_artifacts (rec_cid record) artifacts (an_write io) 0 in
   retS (mkIssued record artifacts seq)) s.

Definition mint_checked (pending : PendingRequest) (approval : ApprovalRef) (caller callee : Entity)
    (derived : option Derived) (io : Answers A) (i j : nat) : M Issued := λ s,
  (let! _ := liftS (Entity_assert_connectable caller (iu_mode s)) in
   let! _ := liftS (Entity_assert_connectable callee (iu_mode s)) in
   mint_unchecked pending approval caller callee derived io i j) s.

(** [Issuer::mint]. *)
Definition issuer_mint (pending : PendingRequest) (approval : ApprovalRef) (caller callee : Entity)
    (io : Answers A) (i j : nat) : M Issued :=
  mint_checked pending approval caller callee None io i j.

Definition mint_with_identity (pending : PendingRequest) (approval : ApprovalRef) (caller callee : Entity)
    (derived : Derived) (io : Answers A) : M Issued :=
  let! _ := liftS (merge_evidence_cannot_stand_in_for pending approval) in
  mint_checked pending approval caller callee (Some derived) io 0 0.

(** *** Requests *)

Definition request (input : RequestInput) (io : Answers A) : M Outcome := λ s,
  (let! _ := liftS (guard_err (bool_decide (ri_mediators input = [])) MINT_PRECONDITION_FAILED $ Ok tt) in
   let! _ := liftS (guard_err (Surface_is_empty (ri_surface input)) MINT_PRECONDITION_FAILED $ Ok tt) in
   let! caller := entity (ri_caller input) in
   let! callee := entity (ri_callee input) in
   let conn_req := mkConnRequest (ri_surface input) (ri_terms input) (ri_ttl_secs input)
                     (ri_justification input) (ri_requester input) in
   match evaluate (iu_policy s) conn_req caller callee (standing_state s) (iu_now s) with
   | Err e =>
     let! _ := record_denial input (error_text e) "structural" (an_record io 0) in
     liftS (Err e)
   | Ok ev =>
     let pending := build_pending s input ev in
     let! _ := commit_event (ContractRequest pending (iu_actor s)) (an_commit io 0) in
     let! _ := record_event
       (with_detail (about EkRequest (ri_caller input) (ri_callee input) (explain ev) s)
          (json_object
             [("request", VString (req_id pending));
              ("decision", VString (ConnDecision_as_str (ce_decision ev)));
              ("trace", VString (ce_trace ev));
              ("items", strings_value (Surface_items (req_surface pending)));
              ("ttl_secs", num (req_ttl_secs pending));
              ("justification", VString (req_justification pending))])) (an_record io 0) in
     match ce_decision ev with
     | Deny =>
       let! _ := record_denial input (explain ev) (ce_trace ev) (an_record io 1) in
       retS (OutDenied (explain ev) (ce_trace ev))
     | RequireApproval => retS (OutAwaiting pending)
     | Allow =>
       if ri_owner_must_approve input then retS (OutAwaiting pending)
       else
         let! issued := issuer_mint pending standing caller callee io 1 1 in
         retS (OutIssued issued)
     end
   end) s.

(** A request that can still be settled; a lapsed one is marked before it is refused. *)
Definition open_request (id : string) (io : Answers A) : M PendingRequest := λ s,
  (let! pending := pending id in
   let! _ := liftS (guard_err (negb (bool_decide (req_status pending = ReqPending))) CONTRACT_ALREADY_ENDED $ Ok tt) in
   if has_lapsed pending (iu_now s)
   then let! _ := lapse pending (an_commit io 0) in liftS (Err APPROVAL_STALE)
   else retS pending) s.

Definition registered_owner (s : Issuer) (id : EntityId) : result HumanRef :=
  ok_or (ent_owner <$> proj_entity (iu_projection s) id) OWNER_APPROVAL_MISSING.

Definition record_approval (pending : PendingRequest) (reason : string) (detail : list (string * Value)) (io : A)
    : M N := λ s,
  record_event (with_detail (about EkApprove (req_caller pending) (req_callee pending) reason s) (json_object detail)) io s.

(** *** Approval by a reviewed merge *)

Definition approve_by_merge (id : string) (file : ApprovalFile) (consent : MergeApproval) (io : Answers A)
    : M Issued := λ s,
  (let! pending := open_request id io in
   let! _ := liftS (approval_file_check file pending) in
   let! owner := liftS (registered_owner s (req_callee pending)) in
   let! _ := liftS (guard_err (negb (owner_approved (merge_approvers consent) owner)) OWNER_APPROVAL_MISSING $ Ok tt) in
   let! caller := entity (req_caller pending) in
   let! callee := entity (req_callee pending) in
   let approval := human_by_merge owner consent None in
   let! _ := commit_event (ContractApprove (req_id pending) [owner] (version s) (iu_actor s)) (an_commit io 0) in
   let! _ := record_approval pending ("approved by " +:+ human_str owner +:+ " via a reviewed merge")
     [("request", VString (req_id pending)); ("approvers", strings_value [human_str owner]);
      ("digest", VString (request_digest pending)); ("settled_by", VString "reviewed_merge")] (an_record io 0) in
   let! _ := liftS (merge_evidence_cannot_stand_in_for pending approval) in
   issuer_mint pending approval caller callee io 1 1) s.

(** *** Approval by signature *)

Definition verify_proofs (proofs : list ApprovalProof) (pending : PendingRequest) (approvers : ApproverRegistry)
    (live : string) : result (list (HumanRef * ApprovalClaims)) :=
  mapR (λ proof, let? claims := verify_approval proof pending approvers live in Ok (ap_by proof, claims)) proofs.

(** What the signatures must show. *)
Definition signatures_suffice (s : Issuer) (pending : PendingRequest) (approvers : ApproverRegistry)
    (verified : list (HumanRef * ApprovalClaims)) : result (list HumanRef) :=
  let? _ := match req_approver_role pending with
            | Some role => guard_err (negb (existsb (λ v, holds_role approvers v.1 role) verified))
                             APPROVER_ROLE_MISSING $ Ok tt
            | None => Ok tt
            end in
  let? _ := if req_owner_must_approve pending then
              let? owner := registered_owner s (req_callee pending) in
              let want := bare_name (human_str owner) in
              guard_err (negb (existsb (λ v, let a := bare_name (human_str v.1) in
                                 negb (bool_decide (a = "")) && eq_ignore_ascii_case a want) verified))
                OWNER_APPROVAL_MISSING $ Ok tt
            else Ok tt in
  let distinct := distinct_people (verified.*1) in
  guard_err (req_dual_control pending && (len distinct <? 2)%N) DUAL_CONTROL_MISSING $
  guard_err (bool_decide (distinct = [])) APPROVAL_SIGNATURE_INVALID $
  Ok distinct.

Definition first_ticket (verified : list (HumanRef * ApprovalClaims)) : option string :=
  head (omap (λ v, ac_ticket v.2) verified).

Definition approve (id : string) (proofs : list ApprovalProof) (approvers : ApproverRegistry) (io : Answers A)
    : M Issued := λ s,
  (let! pending := open_request id io in
   let! verified := liftS (verify_proofs proofs pending approvers (version s)) in
   let! distinct := liftS (signatures_suffice s pending approvers verified) in
   let approval := mkApprovalRef (head distinct) None (first_ticket verified) Human (distinct !! 1) [] in
   let! _ := commit_event (ContractApprove (req_id pending) distinct (version s) (iu_actor s)) (an_commit io 0) in
   let! _ := record_approval pending ("approved by " +:+ default "" (human_str <$> head distinct))
     [("request", VString (req_id pending)); ("approvers", strings_value (human_str <$> distinct));
      ("digest", VString (request_digest pending)); ("ticket", opt_value (first_ticket verified))] (an_record io 0) in
   let! caller := entity (req_caller pending) in
   let! callee := entity (req_callee pending) in
   issuer_mint pending approval caller callee io 1 1) s.

(** *** Break-glass *)

Definition breakglass_in_window (s : Issuer) (window : N) : N :=
  let floor := saturating_sub (iu_now s) window in
  N.min (len (filterb (λ c, bool_decide (appr_mode (rec_approval c) = BreakGlass) && (floor <=? rec_iat c)%N)
           (contract_values s))) u32_max.

Definition breakglass_pending (s : Issuer) (input : BreakGlassInput) : PendingRequest :=
  mkPendingRequest (breakglass_id input (iu_now s)) (bg_caller input) (bg_callee input) (bg_surface input)
    (bg_terms input) (bg_ttl_secs input) (bg_justification input) (bg_requester input) (bg_mediators input)
    None true false false false (version s) ("break-glass: " +:+ bg_incident input)
    "break-glass — policy not evaluated" (iu_now s) (saturating_add_u64 (iu_now s) (iu_request_ttl_secs s)) ReqPending.

Definition posture_debug (p : Posture) : string :=
  match p with
  | Attested => "Attested" | Model.Degraded => "Degraded" | Unattested => "Unattested" | Quarantined => "Quarantined"
  end.
Definition lifecycle_debug (l : Lifecycle) : string :=
  match l with Pending => "Pending" | Active => "Active" | Suspended => "Suspended" | Retired => "Retired" end.

Definition overrides (s : Issuer) (caller callee : Entity) : list string :=
  concat (map (λ party,
    (if bool_decide (ent_lifecycle party = Active) then []
     else [entity_str (ent_id party) +:+ " lifecycle " +:+ lifecycle_debug (ent_lifecycle party)]) ++
    (if may_connect (ent_posture party) (iu_mode s) then []
     else [entity_str (ent_id party) +:+ " posture " +:+ posture_debug (ent_posture party)])) [caller; callee])
  ++ ["policy evaluation skipped"].

Definition breakglass (input : BreakGlassInput) (proofs : list ApprovalProof) (approvers : ApproverRegistry)
    (limits : BreakGlassLimits) (io : Answers A) : M Issued := λ s,
  (let! _ := liftS (guard_err (bool_decide (bg_mediators input = [])) MINT_PRECONDITION_FAILED $
                    guard_err (bool_decide (trim_text (bg_incident input) = "")) BREAKGLASS_OUTSIDE_POLICY $
                    guard_err (str_len (trim_text (bg_justification input)) <? 12)%N BREAKGLASS_OUTSIDE_POLICY $
                    guard_err ((bg_ttl_secs input =? 0)%N || (bl_max_ttl_secs limits <? bg_ttl_secs input)%N)
                      BREAKGLASS_OUTSIDE_POLICY $ Ok tt) in
   let used := breakglass_in_window s (bl_window_secs limits) in
   let! _ := liftS (guard_err (bl_max_per_window limits <=? used)%N BREAKGLASS_OUTSIDE_POLICY $ Ok tt) in
   let! caller := entity (bg_caller input) in
   let! callee := entity (bg_callee input) in
   let! _ := liftS (guard_err (bool_decide (ent_posture caller = Quarantined)) ENTITY_QUARANTINED $
                    guard_err (bool_decide (ent_posture callee = Quarantined)) ENTITY_QUARANTINED $
                    guard_err (bool_decide (ent_id caller = ent_id callee)) MINT_PRECONDITION_FAILED $ Ok tt) in
   let pending := breakglass_pending s input in
   let! verified := liftS (verify_proofs proofs pending approvers (version s)) in
   let people := distinct_people (verified.*1) in
   let! _ := liftS (guard_err (len people <? 2)%N DUAL_CONTROL_MISSING $ Ok tt) in
   let approval := mkApprovalRef (head people) None (Some (bg_incident input)) BreakGlass (people !! 1) [] in
   let! _ := record_event
     (with_detail (about EkBreakGlass (bg_caller input) (bg_callee input)
                     ("break-glass for " +:+ bg_incident input +:+ ": " +:+ bg_justification input) s)
        (json_object
           [("incident", VString (bg_incident input)); ("approvers", strings_value (human_str <$> people));
            ("surface", strings_value (Surface_items (req_surface pending))); ("ttl_secs", num (bg_ttl_secs input));
            ("expires_at", num (saturating_add_u64 (iu_now s) (bg_ttl_secs input)));
            ("digest", VString (request_digest pending)); ("overrides", strings_value (overrides s caller callee));
            ("budget_used_before", num used); ("budget", num (bl_max_per_window limits));
            ("window_secs", num (bl_window_secs limits)); ("renewable", VBool false)])) (an_record io 0) in
   mint_unchecked pending approval caller callee None io 0 1) s.

(** *** Refusing and lapsing *)

Definition deny (id reason : string) (io : Answers A) : M unit := λ s,
  (let! pending := pending id in
   let! _ := liftS (guard_err (negb (bool_decide (req_status pending = ReqPending))) CONTRACT_ALREADY_ENDED $ Ok tt) in
   let! _ := commit_event (ContractDeny (req_id pending) reason (iu_actor s)) (an_commit io 0) in
   let! _ := record_event (with_detail (about EkContractDenied (req_caller pending) (req_callee pending) reason s)
                             (json_object [("request", VString (req_id pending))])) (an_record io 0) in
   retS tt) s.

Fixpoint lapse_all (requests : list PendingRequest) (commits : nat → Io) (i : nat) : M (list string) :=
  match requests with
  | [] => retS []
  | r :: rest =>
    let! _ := lapse r (commits i) in
    let! ids := lapse_all rest commits (S i) in
    retS (req_id r :: ids)
  end.

Definition overdue (s : Issuer) : list PendingRequest :=
  filterb (λ r, bool_decide (req_status r = ReqPending) && has_lapsed r (iu_now s))
    ((map_to_list (pr_requests (iu_projection s))).*2).

Definition expire_lapsed (io : Answers A) : M (list string) := λ s,
  (let! ids := lapse_all (overdue s) (an_commit io) 0 in retS (sort_strings ids)) s.

(** *** The operations together *)

Inductive IssueOp :=
  | OpRequest (input : RequestInput)
  | OpApprove (id : string) (proofs : list ApprovalProof) (approvers : ApproverRegistry)
  | OpApproveByMerge (id : string) (file : ApprovalFile) (consent : MergeApproval)
  | OpMintWithIdentity (pending : PendingRequest) (approval : ApprovalRef) (caller callee : Entity) (derived : Derived)
  | OpBreakGlass (input : BreakGlassInput) (proofs : list ApprovalProof) (approvers : ApproverRegistry)
      (limits : BreakGlassLimits)
  | OpDeny (id reason : string)
  | OpExpire.

Definition run_op (op : IssueOp) (io : Answers A) : M unit :=
  match op with
  | OpRequest input => let! _ := request input io in retS tt
  | OpApprove id proofs approvers => let! _ := approve id proofs approvers io in retS tt
  | OpApproveByMerge id file consent => let! _ := approve_by_merge id file consent io in retS tt
  | OpMintWithIdentity pending approval caller callee derived =>
    let! _ := mint_with_identity pending approval caller callee derived io in retS tt
  | OpBreakGlass input proofs approvers limits => let! _ := breakglass input proofs approvers limits io in retS tt
  | OpDeny id reason => deny id reason io
  | OpExpire => let! _ := expire_lapsed io in retS tt
  end.

(** The numbers of an operation's input are [u64]s. *)
Definition op_fits (op : IssueOp) : Prop :=
  match op with
  | OpRequest input => is_u64 (ri_ttl_secs input)
  | OpBreakGlass input _ _ limits =>
    is_u64 (bg_ttl_secs input) ∧ is_u64 (bl_max_per_window limits) ∧ is_u64 (bl_window_secs limits)
  | _ => True
  end.
End Issuer.
Arguments Issuer : clear implicits.

(** ** Lemmas: what a digest binds *)

Section Digest.
Context `{SerdeJsonLaws, Sha256, Jose, SerdeParse, ApprovalSerde}.

(** The numbers of a request are machine numbers. *)
Definition opt_u64 (o : option N) : Prop := from_option is_u64 True o.
Definition spend_fits (o : option spec_float) : Prop :=
  match o with Some (S754_finite s m e) => valid_binary 53 1024 (S754_finite s m e) = true | _ => True end.
Definition terms_fit (t : Terms) : Prop :=
  opt_u64 (max_calls_per_hour t) ∧ opt_u64 (max_concurrent t) ∧ spend_fits (max_spend_usd_per_day t) ∧
  is_u64 (deleg_max_depth (delegation t)).
Definition request_fits (r : PendingRequest) : Prop := is_u64 (req_ttl_secs r) ∧ terms_fit (req_terms r).

(** The same terms, but for the closed flags and spends that are no numbers. *)
Definition same_terms (t t' : Terms) : Prop :=
  data_classes t = data_classes t' ∧ jurisdictions t = jurisdictions t' ∧
  max_calls_per_hour t = max_calls_per_hour t' ∧ max_concurrent t = max_concurrent t' ∧
  opt_f64 (max_spend_usd_per_day t) = opt_f64 (max_spend_usd_per_day t') ∧
  human_oversight t = human_oversight t' ∧ delegation t = delegation t' ∧ evidence t = evidence t'.

(** The same request, as far as an approver is shown it. *)
Definition same_request (r r' : PendingRequest) : Prop :=
  req_id r = req_id r' ∧ req_caller r = req_caller r' ∧ req_callee r = req_callee r' ∧
  (∀ item, item ∈ Surface_items (req_surface r) ↔ item ∈ Surface_items (req_surface r')) ∧
  surf_resources (req_surface r) = surf_resources (req_surface r') ∧
  same_terms (req_terms r) (req_terms r') ∧ req_ttl_secs r = req_ttl_secs r' ∧
  req_mediators r = req_mediators r'.

Lemma opt_num_wf o : opt_u64 o → value_wf (opt_num o) = true.
Proof. destruct o; [|done]. intros Hn. by apply N.leb_le. Qed.
Lemma opt_num_inj o o' : opt_num o = opt_num o' → o = o'.
Proof. unfold opt_num, num. destruct o, o'; congruence. Qed.
Lemma opt_f64_wf o : spend_fits o → value_wf (opt_f64 o) = true.
Proof. by destruct o as [[]|]. Qed.

Lemma terms_value_wf t : terms_fit t → value_wf (terms_value t) = true.
Proof.
  intros (Hc & Hm & Hs & Hd). apply json_object_wf. intros e Hin.
  repeat (apply elem_of_cons in Hin as [->|Hin];
    [first [apply strings_value_wf | apply opt_value_wf | by apply opt_num_wf | by apply opt_f64_wf | idtac]|]).
  - apply json_object_wf. intros e Hin'.
    repeat (apply elem_of_cons in Hin' as [->|Hin']; [first [done | by apply N.leb_le]|]). by apply not_elem_of_nil in Hin'.
  - apply json_object_wf. intros e Hin'.
    repeat (apply elem_of_cons in Hin' as [->|Hin']; [done|]). by apply not_elem_of_nil in Hin'.
  - by apply not_elem_of_nil in Hin.
Qed.

Lemma terms_value_inj t t' : terms_value t = terms_value t' → same_terms t t'.
Proof.
  destruct t as [? ? ? ? ? ? [? ?] [? ?] ? ?], t' as [? ? ? ? ? ? [? ?] [? ?] ? ?]. intros Ht.
  cbv -[strings_value opt_num opt_value opt_f64] in Ht.
  injection Ht as Hdc -> -> -> -> Hho Hj Hcalls Hconc Hspend.
  apply map_VString_inj in Hdc, Hj. apply opt_num_inj in Hcalls, Hconc. apply opt_value_inj in Hho. by subst.
Qed.

Lemma digest_document_wf r : request_fits r → value_wf (digest_document r) = true.
Proof.
  intros [Ht Hterms]. apply json_object_wf. intros e Hin.
  repeat (apply elem_of_cons in Hin as [->|Hin];
    [first [done | apply strings_value_wf | by apply terms_value_wf | by apply N.leb_le]|]).
  by apply not_elem_of_nil in Hin.
Qed.

Lemma digest_document_inj r r' : digest_document r = digest_document r' → same_request r r'.
Proof.
  intros Hd. unfold digest_document in Hd.
  remember (sort_strings (Surface_items (req_surface r))) as i eqn:Ei.
  remember (sort_strings (Surface_items (req_surface r'))) as i' eqn:Ei'.
  remember (terms_value (req_terms r)) as t eqn:Et. remember (terms_value (req_terms r')) as t' eqn:Et'.
  cbv -[strings_value entity_str req_caller req_callee req_id req_surface req_terms req_ttl_secs req_mediators
        surf_resources] in Hd.
  injection Hd as Hcallee Hcaller Hid Hi Hmed Hres Hterms Httl. apply map_VString_inj in Hi, Hmed, Hres.
  rewrite Et, Et' in Hterms. apply terms_value_inj in Hterms. subst i i'.
  destruct r as [? [?] [?] ? ? ? ? ? ? ? ? ? ? ? ? ? ? ? ? ?], r' as [? [?] [?] ? ? ? ? ? ? ? ? ? ? ? ? ? ? ? ? ?].
  unfold same_request. cbn in *. subst. do 3 (split; [done|]). split; [|done].
  intros item. by rewrite <-elem_of_sort_strings, Hi, elem_of_sort_strings.
Qed.

Lemma request_digest_inj r r' :
  request_fits r → request_fits r' → request_digest r = request_digest r' → same_request r r' ∨ sha256_collision.
Proof.
  intros Hr Hr' Hd. apply sha256_tagged_inj in Hd as [Hd|?]; [left|by right].
  apply digest_document_inj. by apply canonical_json_inj; [apply digest_document_wf..|].
Qed.

Lemma verify_approval_ok proof request approvers live claims :
  verify_approval proof request approvers live = Ok claims →
  verify_detached claims_from_value (ap_jws proof) (human_str (ap_by proof)) (ar_keys approvers) = Ok claims ∧
  ac_req claims = req_id request ∧ ac_digest claims = request_digest request ∧ ac_policy_version claims = live.
Proof.
  unfold verify_approval. intros (c & Hc & Hg)%result_bind_ok.
  rewrite !guard_err_ok, !negb_false_iff, !bool_decide_eq_true in Hg. destruct Hg as (Hr & Hd & Hp & [= ->]).
  destruct (verify_detached _ _ _ _); [|done]. by injection Hc as ->.
Qed.

(** C25: a signature approves one request.  An approval that verifies for two requests was
    signed under the policy in force both times and the two are the same request -- the same
    identifier, parties, items, resources, terms, lifetime and mediators -- or the digest
    function has a collision; whatever else of a stored request is changed, its conditions on
    the approvers included, an approval that verified still does. *)
Theorem approval_binds_request proof approvers live live' r r' claims :
  request_fits r → request_fits r' → verify_approval proof r approvers live = Ok claims →
  (∀ claims', verify_approval proof r' approvers live' = Ok claims' →
     claims' = claims ∧ live' = live ∧ (same_request r r' ∨ sha256_collision)) ∧
  (digest_document r' = digest_document r → req_id r' = req_id r →
     verify_approval proof r' approvers live = Ok claims).
Proof.
  intros Hr Hr' Hv. pose proof (verify_approval_ok _ _ _ _ _ Hv) as (Hs & Hreq & Hdig & Hlive). split.
  - intros claims' (Hs' & Hreq' & Hdig' & Hlive')%verify_approval_ok. rewrite Hs in Hs'. injection Hs' as <-.
    split; [done|]. split; [congruence|]. apply request_digest_inj; [done..|congruence].
  - intros Hd Hid. rewrite <-Hv. unfold verify_approval, request_digest. by rewrite Hd, Hid.
Qed.
End Digest.

(** ** Lemmas: what each step changes *)

Section Steps.
Context `{FramedJson Event, SerdeJson, Sha256, Jose, SerdeParse, ApprovalSerde, Prose} {E A : Type}
  `{EvidenceLogLaws E A}.
Implicit Types (s : Issuer E).

Definition contracts_of s : gmap Cid ContractRecord := pr_contracts (iu_projection s).
Definition requests_of s : gmap string PendingRequest := pr_requests (iu_projection s).

(** The parts no operation changes. *)
Definition same_issuer s s' : Prop :=
  iu_policy s' = iu_policy s ∧ iu_signer s' = iu_signer s ∧ iu_iss s' = iu_iss s ∧ iu_now s' = iu_now s ∧
  iu_actor s' = iu_actor s ∧ iu_request_ttl_secs s' = iu_request_ttl_secs s ∧ iu_mode s' = iu_mode s.

#[local] Instance same_issuer_preorder : PreOrder same_issuer.
Proof. split; [by intros ?|]. unfold same_issuer. intros ???. naive_solver congruence. Qed.

Lemma same_store s store : same_issuer s (with_store s store).
Proof. by repeat split. Qed.
Lemma same_evidence s ev : same_issuer s (with_evidence s ev).
Proof. by repeat split. Qed.
#[local] Hint Resolve same_store same_evidence : core.
#[local] Hint Extern 0 (same_issuer _ _) => reflexivity : core.

Lemma commit_event_cases event io s s' r :
  commit_event event io s = (s', r) →
  same_issuer s s' ∧ iu_evidence s' = iu_evidence s ∧ st_artifacts (iu_store s') = st_artifacts (iu_store s) ∧
  match r with
  | Ok seq => iu_projection s' = (apply (iu_projection s) (mkFramed seq (iu_now s) event) RebuildReport_default).1
  | Err _ => iu_projection s' = iu_projection s
  end.
Proof.
  unfold commit_event, commit, iu_projection. destruct (Log.append _ _ _ _ _) as [log [seq|e]].
  - destruct (apply _ _ _) as [p report] eqn:Ha. intros [= <- <-]. by rewrite Ha.
  - by intros [= <- <-].
Qed.

(** A store that holds the writer lock, on a disk that answers, takes the event. *)
Definition writer s : Prop := log_locked (st_log (iu_store s)) = true.
Lemma commit_good s event : writer s → ∃ s' n, commit_event event io_ok s = (s', Ok n) ∧ writer s'.
Proof.
  intros Hw. destruct (append_io_ok (st_log (iu_store s)) event (iu_now s) Durable Hw) as (l & n & Ha & Hl).
  unfold commit_event, commit. rewrite Ha. destruct (apply _ _ _) as [p report]. by eexists _, n.
Qed.

Lemma record_event_cases event io s s' r :
  record_event event io s = (s', r) →
  same_issuer s s' ∧ iu_store s' = iu_store s ∧
  ev_record (iu_evidence s) event (iu_now s) io = (iu_evidence s', r).
Proof. unfold record_event. destruct (ev_record _ _ _ _) as [e r0]. by intros [= <- <-]. Qed.

(** Everything recorded so far is still there. *)
Definition extends s s' : Prop := ∀ log, ev_holds (iu_evidence s) log → ∃ more, ev_holds (iu_evidence s') (log ++ more).

#[local] Instance extends_preorder : PreOrder extends.
Proof.
  split; [intros s log Hl; exists []; by rewrite app_nil_r|].
  intros s1 s2 s3 H12 H23 log Hl. destruct (H12 log Hl) as [m1 Hm]. destruct (H23 _ Hm) as [m2 Hm'].
  exists (m1 ++ m2). by rewrite app_assoc.
Qed.

(** A step that mints nothing; when it succeeds, evidence has only grown. *)
Definition quiet {T} s (m : stateR (Issuer E) T Code) : Prop :=
  ∀ s' r, m s = (s', r) → same_issuer s s' ∧ contracts_of s' = contracts_of s ∧ (is_ok r = true → extends s s').

(** A step that changes no contract but one, whose mint is then the last thing recorded. *)
Definition mint_row (record : ContractRecord) (row : EntryDraft * N) : Prop :=
  ed_kind row.1 = "contract.mint" ∧ ed_cid row.1 = Some (cid_str (rec_cid record)) ∧
  ed_contract_jti row.1 = Some (jti_str (rec_jti record)) ∧
  ed_entities row.1 = [entity_str (rec_caller record); entity_str (rec_callee record)] ∧ row.2 = rec_iat record.

Definition witnessed s s' : Prop :=
  contracts_of s' = contracts_of s ∨
  ∃ record, contracts_of s' = <[rec_cid record := record]> (contracts_of s) ∧
    ∀ log, ev_holds (iu_evidence s) log →
      ∃ more row, ev_holds (iu_evidence s') (log ++ more ++ [row]) ∧ mint_row record row.

Definition minting {T} s (m : stateR (Issuer E) T Code) : Prop :=
  ∀ s' r, m s = (s', r) → same_issuer s s' ∧ witnessed s s' ∧ (is_ok r = true → extends s s').

Lemma quiet_lift {T} s (r : result T) : quiet s (liftS r).
Proof. intros s' r' [= <- <-]. done. Qed.

Lemma quiet_ret {T} s (a : T) : quiet s (retS a).
Proof. intros s' r' [= <- <-]. done. Qed.

Lemma quiet_bind {T U} s (m : stateR (Issuer E) T Code) (k : T → stateR (Issuer E) U Code) :
  quiet s m → (∀ s1 a, m s = (s1, Ok a) → same_issuer s s1 → quiet s1 (k a)) → quiet s (bindS m k).
Proof.
  intros Hm Hk s' r. unfold bindS. destruct (m s) as [s1 [a|e]] eqn:Em.
  - destruct (Hm _ _ Em) as (K1 & K2 & K3). intros Hr. destruct (Hk s1 a eq_refl K1 s' r Hr) as (K4 & K5 & K6).
    split; [by etrans|]. split; [congruence|]. intros Hok. etrans; [by apply K3|by apply K6].
  - intros [= <- <-]. destruct (Hm _ _ Em) as (K1 & K2 & _). done.
Qed.

Lemma witnessed_after s s1 s' :
  contracts_of s1 = contracts_of s → extends s s1 → witnessed s1 s' → witnessed s s'.
Proof.
  intros Hcon Hext [Hw|(record & Hc & Hw)]; [left; congruence|]. right. exists record.
  split; [by rewrite Hc, Hcon|]. intros log Hl. destruct (Hext log Hl) as [m1 Hm1].
  destruct (Hw _ Hm1) as (m2 & row & Hrow & Hmr). exists (m1 ++ m2), row. split; [|done].
  by rewrite <-!app_assoc in *.
Qed.

Lemma minting_bind {T U} s (m : stateR (Issuer E) T Code) (k : T → stateR (Issuer E) U Code) :
  quiet s m → (∀ s1 a, m s = (s1, Ok a) → same_issuer s s1 → minting s1 (k a)) → minting s (bindS m k).
Proof.
  intros Hm Hk s' r. unfold bindS. destruct (m s) as [s1 [a|e]] eqn:Em.
  - destruct (Hm _ _ Em) as (K1 & K2 & K3). specialize (K3 eq_refl). intros Hr.
    destruct (Hk s1 a eq_refl K1 s' r Hr) as (K4 & K5 & K6). split; [by etrans|].
    split; [by eapply witnessed_after|]. intros Hok. etrans; [exact K3|by apply K6].
  - intros [= <- <-]. destruct (Hm _ _ Em) as (K1 & K2 & _). split; [done|]. split; [by left|done].
Qed.

Lemma quiet_minting {T} s (m : stateR (Issuer E) T Code) : quiet s m → minting s m.
Proof. intros Hm s' r Hr. destruct (Hm _ _ Hr) as (? & ? & ?). split; [done|]. split; [by left|done]. Qed.

Lemma minting_map {T U} s (m : stateR (Issuer E) T Code) (f : T → U) :
  minting s m → minting s (bindS m (λ a, retS (f a))).
Proof.
  intros Hm s' r. unfold bindS. destruct (m s) as [s1 [a|e]] eqn:Em; intros [= <- <-]; by destruct (Hm _ _ Em).
Qed.

Lemma minting_lift {T U} s (r : result T) (k : T → stateR (Issuer E) U Code) :
  (∀ a, r = Ok a → minting s (k a)) → minting s (bindS (liftS r) k).
Proof. intros Hk. apply minting_bind; [apply quiet_lift|]. intros s1 a [= <- Ha] _. by apply Hk. Qed.
Lemma quiet_lift_bind {T U} s (r : result T) (k : T → stateR (Issuer E) U Code) :
  (∀ a, r = Ok a → quiet s (k a)) → quiet s (bindS (liftS r) k).
Proof. intros Hk. apply quiet_bind; [apply quiet_lift|]. intros s1 a [= <- Ha] _. by apply Hk. Qed.

(** Events that leave the contracts alone. *)
Definition spares_contracts (event : Event) : bool :=
  match event with
  | ContractRequest _ _ | ContractApprove _ _ _ _ | ContractDeny _ _ _ | ContractLapse _ | ContractIssued _ _ => true
  | _ => false
  end.

Lemma apply_spares p f report : spares_contracts (fr_rec f) = true → pr_contracts (apply p f report).1 = pr_contracts p.
Proof.
  unfold apply. destruct (fr_rec f); try done; intros _; unfold settle_request; cbn; by repeat case_match.
Qed.

Lemma quiet_commit s event io : spares_contracts event = true → quiet s (commit_event event io).
Proof.
  intros Hev s' r Hr. apply commit_event_cases in Hr as (K1 & K2 & _ & K3). split; [done|]. unfold contracts_of. split.
  - destruct r; rewrite K3; [|done]. by apply apply_spares.
  - intros _ log Hl. exists []. by rewrite app_nil_r, K2.
Qed.

Lemma quiet_record s event io : recordable event (iu_now s) → quiet s (record_event event io).
Proof.
  intros Hev s' r Hr. apply record_event_cases in Hr as (K1 & K2 & K3). split; [done|].
  unfold contracts_of, iu_projection. split; [by rewrite K2|]. destruct r as [seq|]; [|done].
  intros _ log Hl. exists [(to_draft event, iu_now s)]. by eapply record_appends.
Qed.

Lemma entity_ok s id s' e : entity id s = (s', Ok e) ↔ s' = s ∧ pr_entities (iu_projection s) !! id = Some e.
Proof.
  unfold entity. destruct (pr_entities (iu_projection s) !! id); simpl; naive_solver.
Qed.
Lemma quiet_entity s id : quiet s (entity id).
Proof. apply quiet_lift. Qed.
Lemma quiet_pending s id : quiet s (pending id).
Proof. apply quiet_lift. Qed.

(** *** Minting *)

Lemma write_artifacts_cases cid artifacts write i s s' r :
  write_artifacts cid artifacts write i s = (s', r) →
  same_issuer s s' ∧ iu_evidence s' = iu_evidence s ∧ iu_projection s' = iu_projection s.
Proof.
  revert i s. induction artifacts as [|[aud jws] rest IH]; intros i s; cbn [write_artifacts]; [by intros [= <- <-]|].
  destruct (write i); [|by intros [= <- <-]]. intros Hr. by apply IH in Hr.
Qed.

Lemma mint_event_recordable s pending record :
  is_u64 (iu_now s) → is_u64 (rec_exp record) → recordable (mint_event s pending record) (iu_now s).
Proof.
  intros Hn He. split; [|done]. cbn [mint_event with_detail le_detail]. apply json_object_wf.
  intros e Hin. repeat (apply elem_of_cons in Hin as [->|Hin]; [try done; try apply strings_value_wf|]).
  - cbn. apply N.leb_le, He.
  - by apply not_elem_of_nil in Hin.
Qed.

Lemma keyed_map_ok {T} (f : string → result T) l l' :
  mapR (λ m, let? a := f m in Ok (m, a)) l = Ok l' →
  l'.*1 = l ∧ ∀ m a, (m, a) ∈ l' → f m = Ok a.
Proof.
  intros Hm%mapR_ok. induction Hm as [|m [m' a] ms l' (a' & Ha & [= <- <-])%result_bind_ok _ [IH1 IH2]].
  - split; [done|]. by intros m a ?%not_elem_of_nil.
  - split; [rewrite fmap_cons; by f_equal|]. intros m0 a0 [[= -> ->]|Hin]%elem_of_cons; [done|by apply IH2].
Qed.

Lemma prepare_mint_ok s pending approval caller callee derived record artifacts :
  prepare_mint s pending approval caller callee derived = Ok (record, artifacts) →
  rec_iat record = iu_now s ∧ rec_exp record = saturating_add_u64 (iu_now s) (req_ttl_secs pending) ∧
  rec_caller record = ent_id caller ∧ rec_callee record = ent_id callee ∧
  rec_surface record = req_surface pending ∧ rec_terms record = req_terms pending ∧
  rec_aud record = req_mediators pending ∧ rec_approval record = approval ∧ rec_status record = CActive ∧
  rec_policy_version record = req_policy_version pending ∧ artifacts.*1 = req_mediators pending ∧
  Pin_surface_digest (ent_pin callee) (Surface_items (req_surface pending)) = Ok (rec_surface_digest record) ∧
  ∀ mediator jws, (mediator, jws) ∈ artifacts →
    mint (mint_payload s pending approval caller callee (rec_cid record) (rec_jti record)
            (rec_surface_digest record) mediator) (iu_signer s) = Ok jws.
Proof.
  unfold prepare_mint. intros (d & Hd & ([cid jti] & _ & (arts & Harts & [= <- <-])%result_bind_ok)%result_bind_ok)%result_bind_ok.
  cbn. do 10 (split; [done|]). apply keyed_map_ok in Harts as [Hm Hall].
  split; [done|]. split; [done|]. exact Hall.
Qed.

(** The projection after a mint whose two commits are logged. *)
Lemma mint_unchecked_cases pending approval caller callee derived io i j s s' r :
  mint_unchecked pending approval caller callee derived io i j s = (s', r) → is_u64 (iu_now s) →
  same_issuer s s' ∧
  ((contracts_of s' = contracts_of s ∧ requests_of s' = requests_of s ∧ is_ok r = false) ∨
   ∃ record artifacts seq e', prepare_mint s pending approval caller callee derived = Ok (record, artifacts) ∧
     ev_record (iu_evidence s) (mint_event s pending record) (iu_now s) (an_record io j) = (iu_evidence s', Ok seq) ∧
     contracts_of s' = <[rec_cid record := record]> (contracts_of s) ∧
     pr_entities (iu_projection s') = pr_entities (iu_projection s) ∧
     (r = Err e' ∨ (r = Ok (mkIssued record artifacts seq) ∧
        requests_of s' = match requests_of s !! req_id pending with
                         | Some p => <[req_id pending := set_req_status p ReqMinted]> (requests_of s)
                         | None => requests_of s
                         end))).
Proof.
  intros Hrun Hnow. unfold mint_unchecked in Hrun.
  destruct (prepare_mint s pending approval caller callee derived) as [[record artifacts]|c] eqn:Hp; cbn in Hrun.
  2:{ injection Hrun as <- <-. split; [done|]. by left. }
  unfold bindS at 1 in Hrun. destruct (record_event _ _ s) as [s1 [seq|c]] eqn:Hrec;
    apply record_event_cases in Hrec as (Hs1 & Hst1 & He1).
  2:{ injection Hrun as <- <-. split; [done|]. left. unfold contracts_of, requests_of, iu_projection. by rewrite Hst1. }
  unfold bindS at 1 in Hrun. destruct (commit_event (ContractMint record) _ s1) as [s2 [seq2|c]] eqn:Hc2;
    apply commit_event_cases in Hc2 as (Hs2 & He2 & _ & Hp2).
  2:{ injection Hrun as <- <-. split; [by etrans|]. left. unfold contracts_of, requests_of. rewrite Hp2.
      unfold iu_projection. by rewrite Hst1. }
  assert (contracts_of s2 = <[rec_cid record := record]> (contracts_of s)) as Hcon.
  { unfold contracts_of. rewrite Hp2. cbn. unfold iu_projection. by rewrite Hst1. }
  assert (requests_of s2 = requests_of s ∧ pr_entities (iu_projection s2) = pr_entities (iu_projection s)) as [Hreq Hent].
  { unfold requests_of. rewrite Hp2. cbn. unfold iu_projection. by rewrite Hst1. }
  unfold bindS at 1 in Hrun. destruct (commit_event (ContractIssued _ _) _ s2) as [s3 [seq3|c]] eqn:Hc3;
    apply commit_event_cases in Hc3 as (Hs3 & He3 & _ & Hp3).
  2:{ injection Hrun as <- <-. split; [by do 2 (etrans; [done|])|]. right. exists record, artifacts, seq, c.
      split; [done|]. split; [by rewrite He3, He2|]. unfold contracts_of. rewrite Hp3. split; [done|]. split; [done|by left]. }
  unfold bindS in Hrun. destruct (write_artifacts _ _ _ _ s3) as [s4 r4] eqn:Hw.
  apply write_artifacts_cases in Hw as (Hs4 & He4 & Hp4).
  assert (contracts_of s4 = contracts_of s2 ∧ pr_entities (iu_projection s4) = pr_entities (iu_projection s2) ∧
    requests_of s4 = match requests_of s2 !! req_id pending with
                     | Some p => <[req_id pending := set_req_status p ReqMinted]> (requests_of s2)
                     | None => requests_of s2
                     end) as (Hcon4 & Hent4 & Hreq4).
  { unfold contracts_of, requests_of. rewrite Hp4, Hp3. unfold apply. cbn [fr_rec]. unfold settle_request. cbn.
    by destruct (_ !! _). }
  assert (same_issuer s s4) as Hsame by (do 3 (etrans; [done|]); done).
  destruct r4 as [[]|c]; injection Hrun as <- <-; (split; [done|]); right; exists record, artifacts, seq.
  - exists CONFIG_INVALID. split; [done|]. split; [by rewrite He4, He3, He2|]. split; [congruence|].
    split; [congruence|]. right. split; [done|]. by rewrite Hreq4, Hreq.
  - exists c. split; [done|]. split; [by rewrite He4, He3, He2|]. split; [congruence|]. split; [congruence|]. by left.
Qed.

Lemma minting_mint_unchecked s pending approval caller callee derived io i j :
  is_u64 (iu_now s) → minting s (mint_unchecked pending approval caller callee derived io i j).
Proof.
  intros Hnow s' r Hr. destruct (mint_unchecked_cases _ _ _ _ _ _ _ _ _ _ _ Hr Hnow) as
    (Hs & [(Hc & _ & Hf)|(record & artifacts & seq & e & Hp & Hev & Hc & _)]).
  { split; [done|]. split; [by left|]. by rewrite Hf. }
  destruct (prepare_mint_ok _ _ _ _ _ _ _ _ Hp) as (Hiat & Hexp & Hcaller & Hcallee & _).
  assert (∀ log, ev_holds (iu_evidence s) log →
    ev_holds (iu_evidence s') (log ++ [(to_draft (mint_event s pending record), iu_now s)])) as Hrow.
  { intros log Hl. eapply record_appends; [done| |done]. apply mint_event_recordable; [done|].
    rewrite Hexp. apply saturating_add_u64_fits. }
  split; [done|]. split.
  - right. exists record. split; [done|]. intros log Hl. eexists [], _. split; [by apply Hrow|]. done.
  - intros _ log Hl. eexists. by apply Hrow.
Qed.

Lemma minting_mint_checked s pending approval caller callee derived io i j :
  is_u64 (iu_now s) → minting s (mint_checked pending approval caller callee derived io i j).
Proof.
  intros Hnow s' r. unfold mint_checked. revert s' r.
  refine (minting_lift s _ _ _). intros _ _. refine (minting_lift s _ _ _). intros _ _.
  by apply minting_mint_unchecked.
Qed.

(** *** Each operation *)

Lemma quiet_unit {T} s (m : stateR (Issuer E) T Code) : quiet s m → quiet s (let! _ := m in retS tt).
Proof. intros Hm. apply quiet_bind; [done|]. intros. apply quiet_ret. Qed.

Lemma quiet_lapse s request io : quiet s (lapse request io).
Proof. apply quiet_unit. by apply quiet_commit. Qed.

Lemma quiet_open_request s id (io : Answers A) : quiet s (open_request id io).
Proof.
  intros s' r. unfold open_request. revert s' r. apply (quiet_bind s (pending id)); [apply quiet_pending|].
  intros s1 p Hp%pair_equal_spec _. destruct Hp as [<- _].
  refine (quiet_lift_bind s _ _ _). intros _ _. destruct (has_lapsed p (iu_now s)); [|apply quiet_ret].
  apply quiet_bind; [apply quiet_lapse|]. intros. apply quiet_lift.
Qed.

Lemma quiet_record_detail s kind caller callee reason detail io s0 :
  is_u64 (iu_now s) → value_wf detail = true →
  quiet s (record_event (with_detail (about kind caller callee reason s0) detail) io).
Proof. intros Hn Hd. by apply quiet_record. Qed.

Lemma quiet_denial s input reason trace io :
  is_u64 (iu_now s) → quiet s (record_denial input reason trace io).
Proof.
  intros Hn s' r. unfold record_denial. revert s' r. apply (quiet_unit s (record_event _ _)). by apply quiet_record_detail.
Qed.

(** The detail of a record: an object of strings, lists of strings and 64-bit numbers. *)
Ltac wf_object :=
  apply json_object_wf; intros e Hin;
  repeat (apply elem_of_cons in Hin as [->|Hin];
          [first [reflexivity | apply strings_value_wf | apply opt_value_wf | apply N.leb_le; assumption]|]);
  by apply not_elem_of_nil in Hin.

Lemma quiet_record_approval s pending reason ids digest io extra :
  is_u64 (iu_now s) → value_wf extra.2 = true →
  quiet s (record_approval pending reason
    [("request", VString (req_id pending)); ("approvers", strings_value ids); ("digest", VString digest); extra] io).
Proof.
  intros Hn He s' r. unfold record_approval. revert s' r. apply (quiet_record_detail s); [done|].
  apply json_object_wf. intros e Hin.
  repeat (apply elem_of_cons in Hin as [->|Hin]; [first [done | apply strings_value_wf]|]). by apply not_elem_of_nil in Hin.
Qed.

Lemma quiet_lapse_all l commits i s : quiet s (lapse_all l commits i).
Proof.
  revert i s. induction l as [|r l IH]; intros i s; [apply quiet_ret|]. cbn [lapse_all].
  apply quiet_bind; [apply quiet_lapse|]. intros s1 _ _ _. apply quiet_bind; [apply IH|]. intros. apply quiet_ret.
Qed.

Lemma quiet_deny s id reason io : is_u64 (iu_now s) → quiet s (deny id reason io).
Proof.
  intros Hn s' r. unfold deny. revert s' r. apply (quiet_bind s (pending id)); [apply quiet_pending|].
  intros s1 p Hp%pair_equal_spec _. destruct Hp as [<- _]. refine (quiet_lift_bind s _ _ _). intros _ _.
  apply quiet_bind; [by apply quiet_commit|]. intros s1 _ _ Hs1. apply quiet_unit. apply quiet_record_detail; [|wf_object].
  by destruct Hs1 as (_ & _ & _ & -> & _).
Qed.

Lemma minting_request s input io :
  is_u64 (iu_now s) → is_u64 (ri_ttl_secs input) → minting s (request input io).
Proof.
  intros Hn Ht s' r. unfold request. revert s' r.
  refine (minting_lift s _ _ _). intros _ _. refine (minting_lift s _ _ _). intros _ _.
  apply (minting_bind s (entity _)); [apply quiet_entity|]. intros s1 caller Hc%entity_ok _. destruct Hc as [-> _].
  apply (minting_bind s (entity _)); [apply quiet_entity|]. intros s1 callee Hc%entity_ok _. destruct Hc as [-> _].
  destruct (evaluate _ _ _ _ _ _) as [ev|c] eqn:Hev.
  2:{ apply quiet_minting, quiet_bind; [by apply quiet_denial|]. intros. apply quiet_lift. }
  assert (is_u64 (ce_ttl_secs ev)) as Httl by (apply evaluate_ttl_le in Hev; cbn in Hev; unfold is_u64 in *; lia).
  apply minting_bind; [by apply quiet_commit|]. intros s1 _ _ Hs1.
  assert (is_u64 (iu_now s1)) as Hn1 by (by destruct Hs1 as (_ & _ & _ & -> & _)).
  apply minting_bind; [apply quiet_record_detail; [done|wf_object]|]. intros s2 _ _ Hs2.
  assert (is_u64 (iu_now s2)) as Hn2 by (by destruct Hs2 as (_ & _ & _ & -> & _)).
  destruct (ce_decision ev).
  - destruct (ri_owner_must_approve input); [apply quiet_minting, quiet_ret|]. apply minting_map. by apply minting_mint_checked.
  - apply quiet_minting, quiet_bind; [by apply quiet_denial|]. intros. apply quiet_ret.
  - apply quiet_minting, quiet_ret.
Qed.

(** The end of an approval: the decision committed and recorded, then the mint. *)
Lemma minting_settle {T} s event io pending reason ids digest extra io' (k : N → stateR (Issuer E) T Code) :
  is_u64 (iu_now s) → spares_contracts event = true → value_wf extra.2 = true →
  (∀ s1 n, same_issuer s s1 → minting s1 (k n)) →
  minting s (let! _ := commit_event event io in
             let! n := record_approval pending reason
               [("request", VString (req_id pending)); ("approvers", strings_value ids); ("digest", VString digest); extra] io' in
             k n).
Proof.
  intros Hn Hev Hex Hk. apply minting_bind; [by apply quiet_commit|]. intros s1 _ _ Hs1. apply minting_bind.
  - apply quiet_record_approval; [|done]. by destruct Hs1 as (_ & _ & _ & -> & _).
  - intros s2 n _ Hs2. apply Hk. by etrans.
Qed.

Lemma same_now s s' : same_issuer s s' → is_u64 (iu_now s) → is_u64 (iu_now s').
Proof. by intros (_ & _ & _ & -> & _). Qed.

Lemma minting_approve s id proofs approvers io :
  is_u64 (iu_now s) → minting s (approve id proofs approvers io).
Proof.
  intros Hn s' r. unfold approve. revert s' r.
  apply (minting_bind s (open_request id io)); [apply quiet_open_request|]. intros s1 p _ Hs1.
  apply minting_lift. intros verified _. apply minting_lift. intros distinct _.
  apply (minting_settle s1); [by eapply same_now|done|apply opt_value_wf|]. intros s2 _ Hs2.
  apply minting_bind; [apply quiet_entity|]. intros s3 caller Hc%entity_ok _. destruct Hc as [-> _].
  apply minting_bind; [apply quiet_entity|]. intros s3 callee Hc%entity_ok _. destruct Hc as [-> _].
  apply minting_mint_checked. by eapply same_now, same_now.
Qed.

Lemma minting_approve_by_merge s id file consent io :
  is_u64 (iu_now s) → minting s (approve_by_merge id file consent io).
Proof.
  intros Hn s' r. unfold approve_by_merge. revert s' r.
  apply (minting_bind s (open_request id io)); [apply quiet_open_request|]. intros s1 p _ Hs1.
  apply minting_lift. intros _ _. apply minting_lift. intros owner _. apply minting_lift. intros _ _.
  apply minting_bind; [apply quiet_entity|]. intros s2 caller Hc%entity_ok _. destruct Hc as [-> _].
  apply minting_bind; [apply quiet_entity|]. intros s2 callee Hc%entity_ok _. destruct Hc as [-> _].
  apply (minting_settle s1); [by eapply same_now|done|done|]. intros s2 _ Hs2.
  apply minting_lift. intros _ _. apply minting_mint_checked. by eapply same_now, same_now.
Qed.

Lemma minting_mint_with_identity s pending approval caller callee derived io :
  is_u64 (iu_now s) → minting s (mint_with_identity pending approval caller callee derived io).
Proof. intros Hn. apply minting_lift. intros _ _. by apply minting_mint_checked. Qed.

Lemma minting_breakglass s input proofs approvers limits io :
  is_u64 (iu_now s) → is_u64 (bg_ttl_secs input) → is_u64 (bl_max_per_window limits) → is_u64 (bl_window_secs limits) →
  minting s (breakglass input proofs approvers limits io).
Proof.
  intros Hn Ht Hm Hw s' r. unfold breakglass. revert s' r.
  refine (minting_lift s _ _ _). intros _ _. refine (minting_lift s _ _ _). intros _ _.
  apply (minting_bind s (entity _)); [apply quiet_entity|]. intros s1 caller Hc%entity_ok _. destruct Hc as [-> _].
  apply (minting_bind s (entity _)); [apply quiet_entity|]. intros s1 callee Hc%entity_ok _. destruct Hc as [-> _].
  do 3 (apply (minting_lift s); intros ? ?).
  apply minting_bind; [|intros s1 _ _ Hs1; apply minting_mint_unchecked; by eapply same_now].
  assert (is_u64 (breakglass_in_window s (bl_window_secs limits))) as Hused
    by (unfold breakglass_in_window, is_u64, u32_max, u64_max; lia).
  assert (is_u64 (saturating_add_u64 (iu_now s) (bg_ttl_secs input))) as Hexp by apply saturating_add_u64_fits.
  apply quiet_record_detail; [done|wf_object].
Qed.

Lemma minting_op op io s : is_u64 (iu_now s) → op_fits op → minting s (run_op op io).
Proof.
  intros Hn Hf. destruct op; cbn in Hf; unfold run_op.
  - by apply minting_map, minting_request.
  - by apply minting_map, minting_approve.
  - by apply minting_map, minting_approve_by_merge.
  - by apply minting_map, minting_mint_with_identity.
  - destruct Hf as (? & ? & ?). by apply minting_map, minting_breakglass.
  - by apply quiet_minting, quiet_deny.
  - apply quiet_minting, quiet_unit. intros s' r. unfold expire_lapsed. revert s' r.
    apply (quiet_bind s (lapse_all _ _ _)); [apply quiet_lapse_all|]. intros. apply quiet_ret.
Qed.

(** ** No contract without its record *)

(** C4: nothing is minted without evidence of it.  Whatever an operation of the issuer does
    and however it ends -- at a disk that fails between any two of its writes included -- at
    most one contract enters or changes in the store; and when one does, the last row in
    evidence is that contract's mint, naming its connection, its token, both parties and the
    time it was issued, after everything recorded before; an operation that succeeds keeps
    everything recorded before. *)
Theorem nothing_minted_without_evidence op io s s' r :
  is_u64 (iu_now s) → op_fits op → run_op op io s = (s', r) →
  (contracts_of s' = contracts_of s ∨
   ∃ record, contracts_of s' = <[rec_cid record := record]> (contracts_of s) ∧
     ∀ log, ev_holds (iu_evidence s) log →
       ∃ more row, ev_holds (iu_evidence s') (log ++ more ++ [row]) ∧ mint_row record row) ∧
  (r = Ok tt → ∀ log, ev_holds (iu_evidence s) log → ∃ more, ev_holds (iu_evidence s') (log ++ more)).
Proof.
  intros Hn Hf Hr. destruct (minting_op op io s Hn Hf _ _ Hr) as (_ & Hw & Hx).
  split; [exact Hw|]. intros ->. by apply Hx.
Qed.

(** Every contract of the store has its mint in evidence. *)
Definition accounted s : Prop :=
  ∃ log, ev_holds (iu_evidence s) log ∧
    ∀ cid record, contracts_of s !! cid = Some record → rec_cid record = cid ∧ ∃ row, row ∈ log ∧ mint_row record row.

(** The operations that succeed, one after another; the clock moves between them. *)
Definition at_time (s : Issuer E) (now : N) : Issuer E :=
  mkIssuer (iu_store s) (iu_evidence s) (iu_policy s) (iu_signer s) (iu_iss s) now (iu_actor s)
    (iu_request_ttl_secs s) (iu_mode s).

Inductive issuing : Issuer E → Issuer E → Prop :=
  | issuing_none s : issuing s s
  | issuing_op s op io now s1 s2 :
      is_u64 now → op_fits op → run_op op io (at_time s now) = (s1, Ok tt) → issuing s1 s2 → issuing s s2.

(** The ledger stays accounted for: from a store whose every contract has its mint in
    evidence, any sequence of operations that succeed -- requests, approvals by signature and
    by merge, break-glass, refusals, lapses, at any times -- ends in such a store. *)
Theorem contracts_stay_accounted s s' : issuing s s' → accounted s → accounted s'.
Proof.
  induction 1 as [|s op io now s1 s2 Hn Hf Hr _ IH]; [done|]. intros (log & Hl & Hall). apply IH. clear IH s2.
  destruct (minting_op op io (at_time s now) Hn Hf _ _ Hr) as (_ & Hw & Hx). destruct Hw as [Hw|(record & Hc & Hw)].
  - destruct (Hx eq_refl log Hl) as [more Hm]. exists (log ++ more). split; [done|]. intros cid record. rewrite Hw.
    intros Hcid. destruct (Hall cid record Hcid) as (? & row & Hin & ?). split; [done|]. exists row.
    split; [|done]. apply elem_of_app. by left.
  - destruct (Hw log Hl) as (more & row & Hrow & Hmr). exists (log ++ more ++ [row]). split; [done|].
    intros cid record'. rewrite Hc. intros [[<- <-]|[Hne Hcid]]%lookup_insert_Some.
    + split; [done|]. exists row. split; [|done]. rewrite !elem_of_app, list_elem_of_singleton. by right; right.
    + destruct (Hall cid record' Hcid) as (? & row' & Hin & ?). split; [done|]. exists row'. split; [|done].
      apply elem_of_app. by left.
Qed.

(** ** What an issue grants *)

(** The contract issued is what was asked and approved: the parties, the surface, the terms,
    the audience, and a lifetime from now; one artifact goes to each mediator. *)
Definition granted s (pending : PendingRequest) (approval : ApprovalRef) (issued : Issued) : Prop :=
  let r := is_record issued in
  rec_caller r = req_caller pending ∧ rec_callee r = req_callee pending ∧
  rec_surface r = req_surface pending ∧ rec_terms r = req_terms pending ∧ rec_aud r = req_mediators pending ∧
  rec_iat r = iu_now s ∧ rec_exp r = saturating_add_u64 (iu_now s) (req_ttl_secs pending) ∧
  rec_status r = CActive ∧ rec_approval r = approval ∧ (is_artifacts issued).*1 = req_mediators pending.

(** Both parties may be connected. *)
Definition connectable s (id : EntityId) : Prop :=
  ∃ e, pr_entities (iu_projection s) !! id = Some e ∧ ent_posture e ≠ Quarantined ∧ ent_lifecycle e = Active ∧
       may_connect (ent_posture e) (iu_mode s) = true.

(** The contract is in the store and its request settled. *)
Definition entered s s' (id : string) (issued : Issued) : Prop :=
  contracts_of s' = <[rec_cid (is_record issued) := is_record issued]> (contracts_of s) ∧
  ∀ p, requests_of s !! id = Some p → requests_of s' = <[id := set_req_status p ReqMinted]> (requests_of s).

Lemma assert_connectable_ok e mode :
  Entity_assert_connectable e mode = Ok tt ↔
  ent_posture e ≠ Quarantined ∧ ent_lifecycle e = Active ∧ may_connect (ent_posture e) mode = true.
Proof.
  unfold Entity_assert_connectable. rewrite !guard_err_ok, !negb_false_iff, bool_decide_eq_false, bool_decide_eq_true. tauto.
Qed.

Lemma mint_unchecked_ok pending approval caller callee derived io i j s s' issued :
  is_u64 (iu_now s) → ent_id caller = req_caller pending → ent_id callee = req_callee pending →
  mint_unchecked pending approval caller callee derived io i j s = (s', Ok issued) →
  granted s pending approval issued ∧ entered s s' (req_id pending) issued ∧ same_issuer s s'.
Proof.
  intros Hn Hca Hce Hr. destruct (mint_unchecked_cases _ _ _ _ _ _ _ _ _ _ _ Hr Hn) as
    (Hsame & [(_ & _ & ?)|(record & artifacts & seq & e & Hp & _ & Hc & _ & [?|[[= ->] Hreq]])]); [done|done|].
  destruct (prepare_mint_ok _ _ _ _ _ _ _ _ Hp) as (? & ? & ? & ? & ? & ? & ? & ? & ? & _ & ? & _).
  split; [unfold granted; cbn; repeat split; congruence|]. split; [|done]. split; [done|]. intros p Hp'. by rewrite Hreq, Hp'.
Qed.

Lemma mint_checked_ok pending approval caller callee derived io i j s s' issued :
  is_u64 (iu_now s) → ent_id caller = req_caller pending → ent_id callee = req_callee pending →
  mint_checked pending approval caller callee derived io i j s = (s', Ok issued) →
  Entity_assert_connectable caller (iu_mode s) = Ok tt ∧ Entity_assert_connectable callee (iu_mode s) = Ok tt ∧
  granted s pending approval issued ∧ entered s s' (req_id pending) issued.
Proof.
  intros Hn Hca Hce. unfold mint_checked. unfold bindS at 1, liftS at 1.
  destruct (Entity_assert_connectable caller _) as [[]|] eqn:H1'; [|done]. unfold bindS, liftS.
  destruct (Entity_assert_connectable callee _) as [[]|] eqn:H2'; [|done]. intros Hr.
  split; [done|]. split; [done|]. by eapply mint_unchecked_ok in Hr as (? & ? & _).
Qed.

Lemma open_request_ok id (io : Answers A) s s' p :
  open_request id io s = (s', Ok p) →
  s' = s ∧ requests_of s !! id = Some p ∧ req_status p = ReqPending ∧ (iu_now s < req_expires_at p)%N.
Proof.
  unfold open_request. intros (s1 & q & Hq & Hk)%bindS_ok. apply liftS_ok in Hq as [-> Hq].
  apply bindS_ok in Hk as (s1 & [] & [-> Hg]%liftS_ok & Hk).
  rewrite guard_err_ok, negb_false_iff, bool_decide_eq_true in Hg. destruct Hg as [Hst _].
  destruct (has_lapsed q (iu_now s)) eqn:Hl.
  - apply bindS_ok in Hk as (s2 & [] & _ & Hk). by apply liftS_ok in Hk as [_ ?].
  - injection Hk as <- <-. split; [done|]. unfold ok_or in Hq. destruct (pr_requests _ !! id) eqn:Hid; [|done].
    injection Hq as ->. split; [done|]. split; [done|]. unfold has_lapsed in Hl. by apply N.leb_gt.
Qed.

(** *** Approval by signature *)

Definition same_person (a b : HumanRef) : Prop :=
  bare_name (human_str a) ≠ "" ∧ eq_ignore_ascii_case (bare_name (human_str a)) (bare_name (human_str b)) = true.

Lemma elem_of_distinct_people a l : a ∈ distinct_people l ↔ a ∈ l.
Proof.
  unfold distinct_people. split.
  - intros (x & -> & Hx)%list_elem_of_fmap. apply elem_of_sort_dedup, list_elem_of_fmap in Hx as ([y] & -> & Hy). done.
  - intros Ha. apply list_elem_of_fmap. exists (human_str a). split; [by destruct a|].
    by apply elem_of_sort_dedup, list_elem_of_fmap_2.
Qed.

Lemma distinct_people_NoDup l : NoDup (distinct_people l).
Proof.
  unfold distinct_people. assert (Inj (=) (=) mkHumanRef) by (by intros ?? [= ?]). apply NoDup_fmap_2; [done|].
  apply str_lt_sorted_NoDup, sort_dedup_StronglySorted.
Qed.

Lemma verify_proofs_ok s proofs pending approvers live verified :
  verify_proofs proofs pending approvers live = Ok verified →
  verified.*1 = map ap_by proofs ∧
  ∀ proof, proof ∈ proofs → ∃ claims, verify_approval proof pending approvers live = Ok claims.
Proof.
  intros Hv%mapR_ok. induction Hv as [|p v proofs verified (c & Hc & [= <-])%result_bind_ok _ [IH1 IH2]].
  - split; [done|]. by intros p ?%not_elem_of_nil.
  - split; [rewrite fmap_cons; simpl; by f_equal|]. intros q [->|Hq]%elem_of_cons; [by exists c|by apply IH2].
Qed.

Lemma signatures_suffice_ok s pending approvers verified distinct :
  signatures_suffice s pending approvers verified = Ok distinct →
  distinct = distinct_people (verified.*1) ∧ distinct ≠ [] ∧
  (∀ role, req_approver_role pending = Some role → ∃ by_, by_ ∈ verified.*1 ∧ holds_role approvers by_ role = true) ∧
  (req_owner_must_approve pending = true → ∃ e by_, pr_entities (iu_projection s) !! req_callee pending = Some e ∧
     by_ ∈ verified.*1 ∧ same_person by_ (ent_owner e)) ∧
  (req_dual_control pending = true → (2 ≤ len distinct)%N).
Proof.
  unfold signatures_suffice. intros ([] & Hrole & ([] & Hown & Hg)%result_bind_ok)%result_bind_ok.
  cbv zeta in Hg. rewrite !guard_err_ok, bool_decide_eq_false in Hg. destruct Hg as (Hdual & Hne & [= <-]).
  split; [done|]. split; [done|]. split; [|split].
  - intros role Hr. rewrite Hr, guard_err_ok, negb_false_iff in Hrole. destruct Hrole as [Hex _].
    apply existsb_exists in Hex as (v & Hin%list_elem_of_In & Hv). exists v.1. split; [by apply list_elem_of_fmap_2|done].
  - intros Ho. rewrite Ho in Hown. apply result_bind_ok in Hown as (owner & Hreg & Hg).
    cbv zeta in Hg. rewrite guard_err_ok, negb_false_iff in Hg. destruct Hg as [Hex _].
    unfold registered_owner, proj_entity in Hreg. apply ok_or_ok, fmap_Some in Hreg as (e & He & ->).
    apply existsb_exists in Hex as (v & Hin%list_elem_of_In & Hv). exists e, v.1. split; [done|].
    split; [by apply list_elem_of_fmap_2|]. cbv zeta in Hv. by rewrite andb_true_iff, negb_true_iff, bool_decide_eq_false in Hv.
  - intros Hd. rewrite Hd in Hdual. apply N.ltb_ge in Hdual. done.
Qed.

(** Settling a request whose event is logged. *)
Lemma commit_approve_ok s id approvers v actor io s' n p :
  commit_event (ContractApprove id approvers v actor) io s = (s', Ok n) → requests_of s !! id = Some p →
  same_issuer s s' ∧ contracts_of s' = contracts_of s ∧
  pr_entities (iu_projection s') = pr_entities (iu_projection s) ∧
  requests_of s' = <[id := set_req_status p ReqMinted]> (requests_of s).
Proof.
  intros (Hs & _ & _ & Hp)%commit_event_cases Hid. unfold contracts_of, requests_of in *. rewrite Hp.
  unfold apply. cbn [fr_rec]. unfold settle_request. cbn. rewrite Hid. done.
Qed.

Lemma record_approval_ok s pending reason detail (io : A) s' n :
  record_approval pending reason detail io s = (s', Ok n) → same_issuer s s' ∧ iu_projection s' = iu_projection s.
Proof.
  unfold record_approval. intros (Hs & Hst & _)%record_event_cases. split; [done|]. unfold iu_projection. by rewrite Hst.
Qed.

Lemma head_second (l : list HumanRef) :
  NoDup l → l ≠ [] → ∃ a, head l = Some a ∧ a ∈ l ∧ (∀ b, l !! 1 = Some b → b ∈ l ∧ b ≠ a) ∧ ((2 ≤ len l)%N → is_Some (l !! 1)).
Proof.
  destruct l as [|a [|b l]]; intros Hnd Hne; [done| |].
  - exists a. split; [done|]. split; [by left|]. split; [done|]. unfold len. simpl. lia.
  - exists a. split; [done|]. split; [by left|]. split.
    + intros b' [= <-]. split; [right; by left|]. intros ->. apply NoDup_cons in Hnd as [Hnd _]. apply Hnd. by left.
    + intros _. by exists b.
Qed.

(** C22: an approval issues exactly what was approved.  When [approve] issues a contract, the
    request was pending and had not lapsed; every signature given verifies for this request
    under the policy in force; among the signers are one who holds the role the request
    demands and the callee's registered owner where the request asks for them, and two
    different people under dual control; both parties may be connected at that moment; the
    contract carries the request's parties, surface, terms and audience, runs for the
    request's lifetime from now and names signers as its approvers; it is the only contract
    that changed, and the request is settled. *)
Theorem approve_issues_as_signed id proofs approvers io s s' issued :
  is_u64 (iu_now s) → filed (iu_projection s) → approve id proofs approvers io s = (s', Ok issued) →
  ∃ pending first second ticket, requests_of s !! id = Some pending ∧
    req_status pending = ReqPending ∧ (iu_now s < req_expires_at pending)%N ∧
    (∀ proof, proof ∈ proofs → ∃ claims, verify_approval proof pending approvers (version s) = Ok claims) ∧
    (∀ role, req_approver_role pending = Some role →
       ∃ signer, signer ∈ map ap_by proofs ∧ holds_role approvers signer role = true) ∧
    (req_owner_must_approve pending = true → ∃ e signer, pr_entities (iu_projection s) !! req_callee pending = Some e ∧
       signer ∈ map ap_by proofs ∧ same_person signer (ent_owner e)) ∧
    first ∈ map ap_by proofs ∧ (∀ p, second = Some p → p ∈ map ap_by proofs ∧ p ≠ first) ∧
    (req_dual_control pending = true → is_Some second) ∧
    connectable s (req_caller pending) ∧ connectable s (req_callee pending) ∧
    granted s pending (mkApprovalRef (Some first) None ticket Human second []) issued ∧
    contracts_of s' = <[rec_cid (is_record issued) := is_record issued]> (contracts_of s) ∧
    requests_of s' = <[id := set_req_status pending ReqMinted]> (requests_of s).
Proof.
  intros Hn (Hfe & _ & Hfr). unfold approve. intros (s1 & p & (-> & Hid & Hst & Hexp)%open_request_ok & Hk)%bindS_ok.
  apply bindS_ok in Hk as (s1 & verified & [-> Hv]%liftS_ok & Hk).
  apply bindS_ok in Hk as (s1 & distinct & [-> Hd]%liftS_ok & Hk). cbv zeta in Hk.
  apply bindS_ok in Hk as (s1 & n1 & Hc & Hk). apply bindS_ok in Hk as (s2 & n2 & (Hs2 & Hp2)%record_approval_ok & Hk).
  assert (req_id p = id) as Hpid by exact (Hfr id p Hid).
  rewrite Hpid in Hc. apply (commit_approve_ok _ _ _ _ _ _ _ _ p) in Hc as (Hs1 & Hcon1 & Hent1 & Hreq1); [|done].
  apply bindS_ok in Hk as (s3 & caller & [-> Hca]%entity_ok & Hk).
  apply bindS_ok in Hk as (s3 & callee & [-> Hce]%entity_ok & Hk).
  rewrite Hp2, Hent1 in Hca, Hce. assert (same_issuer s s2) as (Hpol & _ & _ & Hnow & _ & _ & Hmode) by (by etrans).
  apply mint_checked_ok in Hk as (Hok1 & Hok2 & Hg & Hcon & Hreq); [|by rewrite Hnow|by apply Hfe|by apply Hfe].
  rewrite Hmode, assert_connectable_ok in Hok1, Hok2.
  destruct (verify_proofs_ok s _ _ _ _ _ Hv) as [Hsig Hall].
  destruct (signatures_suffice_ok _ _ _ _ _ Hd) as (Hdist & Hne & Hrole & Hown & Hdual). rewrite Hsig in *.
  destruct (head_second distinct) as (first & Hf & Hfin & Hsnd & Hsome); [subst distinct; apply distinct_people_NoDup|done|].
  rewrite Hf in Hg. subst distinct.
  exists p, first, (distinct_people (map ap_by proofs) !! 1), (first_ticket verified).
  do 6 (split; [done|]). split; [by apply elem_of_distinct_people|].
  split; [intros b Hb; apply Hsnd in Hb; by rewrite elem_of_distinct_people in Hb|]. split; [intros Hdc; by apply Hsome, Hdual|].
  split; [by exists caller|]. split; [by exists callee|].
  split; [unfold granted in *; by rewrite Hnow in Hg|]. unfold contracts_of, requests_of in *. rewrite Hp2 in Hcon, Hreq.
  split; [by rewrite Hcon, Hcon1|]. rewrite Hpid, Hreq1 in Hreq. rewrite (Hreq (set_req_status p ReqMinted)) by apply lookup_insert_eq.
  by rewrite insert_insert_eq.
Qed.

(** *** Requests *)

Definition conn_request (input : RequestInput) : ConnRequest :=
  mkConnRequest (ri_surface input) (ri_terms input) (ri_ttl_secs input) (ri_justification input) (ri_requester input).

Lemma commit_request_ok s p actor io s' n :
  commit_event (ContractRequest p actor) io s = (s', Ok n) →
  same_issuer s s' ∧ contracts_of s' = contracts_of s ∧
  pr_entities (iu_projection s') = pr_entities (iu_projection s) ∧ requests_of s' = <[req_id p := p]> (requests_of s).
Proof. intros (Hs & _ & _ & Hp)%commit_event_cases. unfold contracts_of, requests_of. by rewrite Hp. Qed.

Lemma record_event_ok s event (io : A) s' n :
  record_event event io s = (s', Ok n) → same_issuer s s' ∧ iu_projection s' = iu_projection s.
Proof. intros (Hs & Hst & _)%record_event_cases. split; [done|]. unfold iu_projection. by rewrite Hst. Qed.

Lemma record_denial_ok s input reason trace (io : A) s' u :
  record_denial input reason trace io s = (s', Ok u) → same_issuer s s' ∧ iu_projection s' = iu_projection s.
Proof.
  unfold record_denial. intros (s1 & n & Hr%record_event_ok & Hk)%bindS_ok. by injection Hk as <- _.
Qed.

Lemma open_pending s id p (io : Answers A) :
  requests_of s !! id = Some p → req_status p = ReqPending → (iu_now s < req_expires_at p)%N →
  open_request id io s = (s, Ok p).
Proof.
  intros Hid Hst Hl. unfold requests_of in Hid. unfold open_request, pending. unfold bindS at 1. rewrite Hid. cbn [ok_or].
  unfold bindS, liftS. rewrite bool_decide_eq_true_2 by done. cbn [negb guard_err].
  unfold has_lapsed. by rewrite (proj2 (N.leb_gt _ _) Hl).
Qed.

Lemma filed_open s s' p (later : Answers A) :
  same_issuer s s' → requests_of s' = <[req_id p := p]> (requests_of s) → req_status p = ReqPending →
  (iu_now s < req_expires_at p)%N → open_request (req_id p) later s' = (s', Ok p).
Proof.
  intros (_ & _ & _ & Hnow & _) Hr Hst Hl. apply open_pending; [by rewrite Hr, lookup_insert_eq|done|by rewrite Hnow].
Qed.

(** A request comes to what policy says.  When [request] returns, the policy was evaluated
    for the two registered parties as they stand: an issue means the policy allowed it, no
    owner had to approve, and both parties may be connected, and the contract grants the
    evaluated terms and lifetime; waiting means the policy asked for a person, or allowed it
    while the owner must approve; a refusal means the policy denied it.  Nothing is minted in
    the last two.  In every case the request is on file: settled when it was issued; pending
    otherwise, a request that policy denied included, so that until it lapses an approval
    finds it open. *)
Theorem request_follows_policy input io s s' outcome :
  is_u64 (iu_now s) → is_u64 (ri_ttl_secs input) → filed (iu_projection s) →
  request input io s = (s', Ok outcome) →
  ∃ caller callee ev, pr_entities (iu_projection s) !! ri_caller input = Some caller ∧
    pr_entities (iu_projection s) !! ri_callee input = Some callee ∧
    evaluate (iu_policy s) (conn_request input) caller callee (standing_state s) (iu_now s) = Ok ev ∧
    let pending := build_pending s input ev in
    let on_file p := requests_of s' = <[req_id pending := p]> (requests_of s) in
    let still_open := (iu_now s < req_expires_at pending)%N →
      ∀ later : Answers A, open_request (req_id pending) later s' = (s', Ok pending) in
    match outcome with
    | OutIssued issued => ce_decision ev = Allow ∧ ri_owner_must_approve input = false ∧
        connectable s (ri_caller input) ∧ connectable s (ri_callee input) ∧ granted s pending standing issued ∧
        contracts_of s' = <[rec_cid (is_record issued) := is_record issued]> (contracts_of s) ∧
        on_file (set_req_status pending ReqMinted)
    | OutAwaiting p => p = pending ∧
        (ce_decision ev = RequireApproval ∨ ce_decision ev = Allow ∧ ri_owner_must_approve input = true) ∧
        contracts_of s' = contracts_of s ∧ on_file pending ∧ still_open
    | OutDenied reason trace => ce_decision ev = Deny ∧ reason = explain ev ∧ trace = ce_trace ev ∧
        contracts_of s' = contracts_of s ∧ on_file pending ∧ still_open
    end.
Proof.
  intros Hn Ht (Hfe & _ & _). unfold request. intros (s1 & ? & [-> _]%liftS_ok & Hk)%bindS_ok.
  apply bindS_ok in Hk as (s1 & ? & [-> _]%liftS_ok & Hk).
  apply bindS_ok in Hk as (s1 & caller & [-> Hca]%entity_ok & Hk).
  apply bindS_ok in Hk as (s1 & callee & [-> Hce]%entity_ok & Hk). cbv zeta in Hk. fold (conn_request input) in Hk.
  exists caller, callee. destruct (evaluate _ _ _ _ _ _) as [ev|c] eqn:Hev.
  2:{ by apply bindS_ok in Hk as (s1 & ? & _ & [_ ?]%liftS_ok). }
  exists ev. do 3 (split; [done|]). cbv zeta. set (p := build_pending s input ev) in *.
  apply bindS_ok in Hk as (s1 & n1 & (Hs1 & Hc1 & He1 & Hr1)%commit_request_ok & Hk).
  apply bindS_ok in Hk as (s2 & n2 & (Hs2 & Hp2)%record_event_ok & Hk).
  assert (contracts_of s2 = contracts_of s ∧ requests_of s2 = <[req_id p := p]> (requests_of s)) as [Hc2 Hr2].
  { unfold contracts_of, requests_of in *. rewrite Hp2. by split. }
  assert (same_issuer s s2) as Hs12 by (by etrans).
  destruct (ce_decision ev).
  - destruct (ri_owner_must_approve input) eqn:Ho.
    + injection Hk as <- <-. split; [done|]. split; [by right|]. do 2 (split; [done|]).
      intros Hl later. by apply (filed_open s).
    + apply bindS_ok in Hk as (s3 & issued & Hm & Hk). injection Hk as <- <-.
      destruct Hs12 as (Hpol & _ & _ & Hnow & _ & _ & Hmode).
      apply mint_checked_ok in Hm as (Hok1 & Hok2 & Hg & Hcon & Hreq); [|by rewrite Hnow|by apply Hfe|by apply Hfe].
      rewrite Hmode, assert_connectable_ok in Hok1, Hok2.
      split; [done|]. split; [done|]. split; [by exists caller|]. split; [by exists callee|].
      split; [unfold granted in *; by rewrite Hnow in Hg|]. split; [by rewrite Hcon, Hc2|].
      rewrite Hr2 in Hreq. rewrite (Hreq p) by apply lookup_insert_eq. by rewrite insert_insert_eq.
  - apply bindS_ok in Hk as (s3 & ? & (Hs3 & Hp3)%record_denial_ok & Hk). injection Hk as <- <-.
    do 3 (split; [done|]). assert (contracts_of s3 = contracts_of s ∧ requests_of s3 = <[req_id p := p]> (requests_of s)) as [? ?]
      by (unfold contracts_of, requests_of in *; by rewrite Hp3).
    do 2 (split; [done|]). intros Hl later. apply (filed_open s); [by etrans|done..].
  - injection Hk as <- <-. split; [done|]. split; [by left|]. do 2 (split; [done|]).
    intros Hl later. by apply (filed_open s).
Qed.

(** *** Approval by merge *)

(** Nothing can settle a request that is already settled. *)
Lemma settled_refused s id p (io : Answers A) :
  requests_of s !! id = Some p → req_status p ≠ ReqPending → open_request id io s = (s, Err CONTRACT_ALREADY_ENDED).
Proof.
  intros Hid Hst. unfold requests_of in Hid. unfold open_request, pending. unfold bindS at 1. rewrite Hid. cbn [ok_or].
  unfold bindS, liftS. by rewrite bool_decide_eq_false_2.
Qed.

(** What a reviewed merge falls short of. *)
Definition merge_falls_short (pending : PendingRequest) : Prop :=
  req_dual_control pending = true ∨ is_Some (req_approver_role pending) ∧ req_owner_merge_approves pending = false.
Lemma merge_falls_short_refused pending owner consent : merge_falls_short pending →
  ∃ code, merge_evidence_cannot_stand_in_for pending (human_by_merge owner consent None) = Err code ∧
    code ∈ [APPROVERS_NOT_DISTINCT; APPROVER_ROLE_MISSING; DUAL_CONTROL_MISSING].
Proof.
  intros Hshort. unfold merge_evidence_cannot_stand_in_for. rewrite bool_decide_eq_false_2 by done. cbv zeta. unfold guard_err.
  destruct (_ && existsb _ _); [eexists; split; [done|]; by left|]. destruct Hshort as [Hd|[[role Hr] Ho]].
  - rewrite Hd, andb_false_r. destruct (req_approver_role pending); (eexists; split; [done|]); [by right; left|by do 2 right; left].
  - rewrite Ho, Hr. cbn. eexists. split; [done|]. by right; left.
Qed.

(** C40: a merge that falls short still settles the request.  With the disk and the evidence
    answering, a pending request whose file matches, whose owner is among the approvers of the
    merge, but which demands two people -- or a role the owner's merge does not stand for -- is
    answered with a refusal, and no contract was minted: yet the request is on file as minted,
    because the decision is committed and recorded before it is asked whether a merge can stand
    in for the signatures, and every later approval, merge or refusal of it is answered that it
    has already ended. *)
Theorem refused_merge_settles id file consent (io : Answers A) s pending owner :
  filed (iu_projection s) → writer s → an_commit io 0 = io_ok →
  (∀ event, is_ok (ev_record (iu_evidence s) event (iu_now s) (an_record io 0)).2 = true) →
  requests_of s !! id = Some pending → req_status pending = ReqPending → (iu_now s < req_expires_at pending)%N →
  approval_file_check file pending = Ok tt → is_Some (pr_entities (iu_projection s) !! req_caller pending) →
  registered_owner s (req_callee pending) = Ok owner → owner_approved (merge_approvers consent) owner = true →
  merge_falls_short pending →
  ∃ s' code, approve_by_merge id file consent io s = (s', Err code) ∧
    code ∈ [APPROVERS_NOT_DISTINCT; APPROVER_ROLE_MISSING; DUAL_CONTROL_MISSING] ∧
    contracts_of s' = contracts_of s ∧ requests_of s' !! id = Some (set_req_status pending ReqMinted) ∧
    ∀ later : Answers A, (∀ proofs approvers, (approve id proofs approvers later s').2 = Err CONTRACT_ALREADY_ENDED) ∧
      (∀ file consent, (approve_by_merge id file consent later s').2 = Err CONTRACT_ALREADY_ENDED) ∧
      (∀ reason, (deny id reason later s').2 = Err CONTRACT_ALREADY_ENDED).
Proof.
  intros (_ & _ & Hfr) Hw Hio Hev Hid Hst Hexp Hfile [caller Hcaller] Hown Happr Hshort.
  destruct (merge_falls_short_refused pending owner consent Hshort) as (code & Hmerge & Hcode).
  assert (∃ callee, pr_entities (iu_projection s) !! req_callee pending = Some callee) as [callee Hcallee].
  { unfold registered_owner, proj_entity in Hown. destruct (pr_entities _ !! req_callee pending); [by eexists|done]. }
  destruct (commit_good s (ContractApprove (req_id pending) [owner] (version s) (iu_actor s)) Hw) as (s1 & n & Hc & _).
  pose proof (commit_event_cases _ _ _ _ _ Hc) as ((_ & _ & _ & Hnow1 & _) & He1 & _).
  pose proof (commit_approve_ok _ _ _ _ _ _ _ _ pending Hc) as (_ & Hcon1 & _ & Hreq1); [by rewrite (Hfr id pending Hid)|].
  assert (∀ reason detail, ∃ s2 m, record_approval pending reason detail (an_record io 0) s1 = (s2, Ok m) ∧
    contracts_of s2 = contracts_of s ∧ requests_of s2 !! id = Some (set_req_status pending ReqMinted)) as Hrec.
  { intros reason detail. destruct (record_approval pending reason detail (an_record io 0) s1) as [s2 r2] eqn:Hrec.
    apply record_event_cases in Hrec as (_ & Hst2 & Hr2). rewrite He1, Hnow1 in Hr2. match type of Hr2 with ev_record _ ?event _ _ = _ => pose proof (Hev event) as Hok end. rewrite Hr2 in Hok.
    destruct r2 as [m|]; [|done]. exists s2, m. split; [done|]. unfold contracts_of, requests_of, iu_projection in *. rewrite Hst2, Hreq1.
    split; [done|]. rewrite (Hfr id pending Hid). apply lookup_insert_eq. }
  destruct (Hrec ("approved by " +:+ human_str owner +:+ " via a reviewed merge")
    [("request", VString (req_id pending)); ("approvers", strings_value [human_str owner]);
     ("digest", VString (request_digest pending)); ("settled_by", VString "reviewed_merge")]) as (s2 & m & Hr & Hcon & Hreq).
  exists s2, code. split.
  { unfold approve_by_merge. unfold bindS at 1. rewrite (open_pending s id pending) by done.
    unfold bindS at 1, liftS at 1. rewrite Hfile. unfold bindS at 1, liftS at 1. rewrite Hown.
    unfold bindS at 1, liftS at 1. rewrite Happr. cbn [negb guard_err].
    unfold bindS at 1, entity at 1. rewrite Hcaller. cbn [ok_or]. unfold bindS at 1, entity at 1. rewrite Hcallee. cbn [ok_or].
    cbv zeta. rewrite Hio. unfold bindS at 1. rewrite Hc. unfold bindS at 1. rewrite Hr. unfold bindS, liftS. by rewrite Hmerge. }
  split; [done|]. split; [done|]. split; [done|]. intros later.
  pose proof (settled_refused s2 id _ later Hreq ltac:(done)) as Hopen. split; [|split].
  - intros proofs approvers. unfold approve. unfold bindS at 1. by rewrite Hopen.
  - intros file' consent'. unfold approve_by_merge. unfold bindS at 1. by rewrite Hopen.
  - intros reason. unfold deny, Issuance.pending. unfold bindS at 1. unfold requests_of in Hreq. by rewrite Hreq.
Qed.

(** *** Break-glass *)

Lemma filterb_perm {T} (f : T → bool) l l' : l ≡ₚ l' → len (filterb f l) = len (filterb f l').
Proof. unfold len. induction 1; simpl; repeat case_match; simpl in *; lia. Qed.

Lemma filterb_insert {K V} `{Countable K} (f : V → bool) (m : gmap K V) k v :
  m !! k = None →
  len (filterb f ((map_to_list (<[k := v]> m)).*2)) = (len (filterb f ((map_to_list m).*2)) + if f v then 1 else 0)%N.
Proof.
  intros Hk. rewrite (filterb_perm f _ _ (fmap_Permutation snd _ _ (map_to_list_insert m k v Hk))).
  rewrite fmap_cons. unfold len. simpl. destruct (f v); simpl; lia.
Qed.

(** An insertion adds at most one value to those counted. *)
Lemma filterb_insert_le {K V} `{Countable K} (f : V → bool) (m : gmap K V) k v :
  (len (filterb f ((map_to_list (<[k := v]> m)).*2)) ≤ len (filterb f ((map_to_list m).*2)) + 1)%N.
Proof.
  assert (len (filterb f ((map_to_list (delete k m)).*2)) ≤ len (filterb f ((map_to_list m).*2)))%N as Hle.
  { destruct (m !! k) as [w|] eqn:Hw; [|by rewrite delete_id].
    rewrite <-(insert_id m k w Hw) at 2. rewrite <-insert_delete_eq, filterb_insert by apply lookup_delete_eq. lia. }
  rewrite <-insert_delete_eq, filterb_insert by apply lookup_delete_eq. case_match; lia.
Qed.

(** C33: break-glass stays within its bounds.  When [breakglass] issues a contract without
    policy, it lives no longer than the limit and not zero seconds, a named incident and a
    justification were given, the calling and the called party are registered, different and
    neither quarantined; every signature given verifies over this very request, and two
    different people gave them; what it grants is what was asked; fewer break-glass contracts
    than the budget were issued within the window before, and no more than the budget after. *)
Theorem breakglass_bounded input proofs approvers limits io s s' issued :
  is_u64 (iu_now s) → filed (iu_projection s) →
  breakglass input proofs approvers limits io s = (s', Ok issued) →
  let pending := breakglass_pending s input in
  (0 < bg_ttl_secs input ≤ bl_max_ttl_secs limits)%N ∧
  trim_text (bg_incident input) ≠ "" ∧ (12 ≤ str_len (trim_text (bg_justification input)))%N ∧
  bg_caller input ≠ bg_callee input ∧
  (∀ id, id ∈ [bg_caller input; bg_callee input] →
     ∃ e, pr_entities (iu_projection s) !! id = Some e ∧ ent_posture e ≠ Quarantined) ∧
  (∀ proof, proof ∈ proofs → ∃ claims, verify_approval proof pending approvers (version s) = Ok claims) ∧
  (∃ first second, first ∈ map ap_by proofs ∧ second ∈ map ap_by proofs ∧ second ≠ first ∧
     granted s pending (mkApprovalRef (Some first) None (Some (bg_incident input)) BreakGlass (Some second) []) issued) ∧
  contracts_of s' = <[rec_cid (is_record issued) := is_record issued]> (contracts_of s) ∧
  (breakglass_in_window s (bl_window_secs limits) < bl_max_per_window limits)%N ∧
  (breakglass_in_window s' (bl_window_secs limits) ≤ bl_max_per_window limits)%N.
Proof.
  intros Hn (Hfe & _ & _). unfold breakglass. intros (s1 & ? & [-> Hg]%liftS_ok & Hk)%bindS_ok.
  rewrite !guard_err_ok, !bool_decide_eq_false, orb_false_iff, N.eqb_neq, !N.ltb_ge in Hg.
  destruct Hg as (_ & Hinc & Hjust & [Httl Hmax] & _). cbv zeta in Hk.
  apply bindS_ok in Hk as (s1 & ? & [-> Hg]%liftS_ok & Hk). rewrite guard_err_ok, N.leb_gt in Hg. destruct Hg as [Hbud _].
  apply bindS_ok in Hk as (s1 & caller & [-> Hca]%entity_ok & Hk).
  apply bindS_ok in Hk as (s1 & callee & [-> Hce]%entity_ok & Hk).
  pose proof (Hfe _ _ Hca) as Hida. pose proof (Hfe _ _ Hce) as Hide.
  apply bindS_ok in Hk as (s1 & ? & [-> Hg]%liftS_ok & Hk). rewrite !guard_err_ok, !bool_decide_eq_false in Hg.
  destruct Hg as (Hqa & Hqe & Hne & _).
  apply bindS_ok in Hk as (s1 & verified & [-> Hv]%liftS_ok & Hk).
  apply bindS_ok in Hk as (s1 & ? & [-> Hg]%liftS_ok & Hk). rewrite guard_err_ok, N.ltb_ge in Hg. destruct Hg as [Htwo _].
  apply bindS_ok in Hk as (s1 & n & ((Hpol & _ & _ & Hnow & _) & Hp)%record_event_ok & Hk).
  apply mint_unchecked_ok in Hk as (Hg & [Hcon _] & (_ & _ & _ & Hnow' & _)); [|by rewrite Hnow|done|done].
  destruct (verify_proofs_ok s _ _ _ _ _ Hv) as [Hsig Hall]. rewrite Hsig in *.
  destruct (head_second (distinct_people (map ap_by proofs))) as (first & Hf & Hfin & Hsnd & Hsome);
    [apply distinct_people_NoDup|intros E'; rewrite E' in Htwo; unfold len in Htwo; simpl in Htwo; lia|].
  destruct (Hsome Htwo) as [second Hsec]. destruct (Hsnd second Hsec) as [Hsin Hdiff]. rewrite Hf, Hsec in Hg.
  unfold contracts_of in *. rewrite Hp in Hcon.
  split; [lia|]. split; [done|]. split; [done|]. split; [congruence|]. split; [|split; [done|]].
  { intros id Hid. apply elem_of_cons in Hid as [->|Hid%list_elem_of_singleton]; [by exists caller|subst id; by exists callee]. }
  split; [|split; [done|split; [done|]]].
  { exists first, second. rewrite !elem_of_distinct_people in *. split; [done|]. split; [done|]. split; [done|].
    unfold granted in *. by rewrite Hnow in Hg. }
  unfold breakglass_in_window, contract_values in *. rewrite Hnow', Hnow, Hcon.
  set (f := λ c, _ && _) in *.
  pose proof (filterb_insert_le f (pr_contracts (iu_projection s)) (rec_cid (is_record issued)) (is_record issued)).
  lia.
Qed.


(** *** Lapsing *)

Lemma lapse_good s request :
  writer s → ∃ s', lapse request io_ok s = (s', Ok tt) ∧ writer s' ∧ same_issuer s s' ∧
    contracts_of s' = contracts_of s ∧ iu_evidence s' = iu_evidence s ∧
    ∀ id, requests_of s' !! id =
      if bool_decide (id = req_id request) then (λ r, set_req_status r ReqLapsed) <$> requests_of s !! id
      else requests_of s !! id.
Proof.
  intros Hw. destruct (commit_good s (ContractLapse (req_id request)) Hw) as (s1 & n & Hc & Hw1).
  unfold lapse, bindS. rewrite Hc. exists s1. split; [done|]. split; [done|].
  apply commit_event_cases in Hc as (Hs & He & _ & Hp). split; [done|]. unfold contracts_of, requests_of. rewrite Hp.
  unfold apply. cbn [fr_rec]. unfold settle_request. cbn [with_seq pr_requests].
  fold (requests_of s). destruct (requests_of s !! req_id request) as [q|] eqn:Hq; cbn [fst with_requests pr_contracts pr_requests with_seq];
    (split; [done|]); (split; [done|]); intros id; case_bool_decide as Hid; try done; subst.
  - by rewrite lookup_insert_eq, Hq.
  - by rewrite lookup_insert_ne by congruence.
  - by fold (requests_of s); rewrite Hq.
Qed.

Lemma lapse_all_good l commits i s :
  (∀ j, commits j = io_ok) → writer s →
  ∃ s', lapse_all l commits i s = (s', Ok (map req_id l)) ∧ writer s' ∧ same_issuer s s' ∧
    contracts_of s' = contracts_of s ∧
    ∀ id, requests_of s' !! id =
      if str_in id (map req_id l) then (λ r, set_req_status r ReqLapsed) <$> requests_of s !! id else requests_of s !! id.
Proof.
  intros Hio. revert i s. induction l as [|r l IH]; intros i s Hw; [by exists s|].
  cbn [lapse_all]. unfold bindS at 1. rewrite Hio. destruct (lapse_good s r Hw) as (s1 & -> & Hw1 & Hs1 & Hc1 & _ & Hr1).
  destruct (IH (S i) s1 Hw1) as (s2 & Hl2 & Hw2 & Hs2 & Hc2 & Hr2). unfold bindS. rewrite Hl2. exists s2.
  split; [done|]. split; [done|]. split; [by etrans|]. split; [congruence|]. intros id. rewrite Hr2, Hr1. unfold str_in.
  simpl. rewrite (bool_decide_ext (id ∈ req_id r :: map req_id l) (id = req_id r ∨ id ∈ map req_id l)) by apply elem_of_cons.
  repeat case_bool_decide; try tauto; try done. by destruct (requests_of s !! id).
Qed.

Lemma elem_of_overdue s r :
  filed (iu_projection s) →
  r ∈ overdue s ↔ requests_of s !! req_id r = Some r ∧ req_status r = ReqPending ∧ (req_expires_at r ≤ iu_now s)%N.
Proof.
  intros (_ & _ & Hfr). unfold overdue. rewrite elem_of_filterb, andb_true_iff, bool_decide_eq_true.
  unfold has_lapsed. rewrite N.leb_le, list_elem_of_fmap. unfold requests_of. split.
  - intros [([k v] & -> & Hin%elem_of_map_to_list) ?]. cbn [snd] in *. by rewrite (Hfr k v Hin).
  - intros [Hr ?]. split; [|done]. exists (req_id r, r). by rewrite elem_of_map_to_list.
Qed.

(** C37: silence terminates a request and never approves it.  On a disk that answers,
    [expire_lapsed] returns; what it returns is the overdue requests, and each of them is on
    file as lapsed; every other request and every contract is as it was; none is overdue any
    more, and none of those that lapsed can be approved again. *)
Theorem expiry_settles_overdue s (io : Answers A) :
  writer s → filed (iu_projection s) → (∀ i, an_commit io i = io_ok) →
  ∃ s' ids, expire_lapsed io s = (s', Ok ids) ∧
    (∀ id, id ∈ ids ↔ ∃ r, requests_of s !! id = Some r ∧ req_status r = ReqPending ∧ (req_expires_at r ≤ iu_now s)%N) ∧
    (∀ id, requests_of s' !! id =
       if str_in id ids then (λ r, set_req_status r ReqLapsed) <$> requests_of s !! id else requests_of s !! id) ∧
    contracts_of s' = contracts_of s ∧
    (∀ id r, requests_of s' !! id = Some r → req_status r = ReqPending → (iu_now s < req_expires_at r)%N) ∧
    ∀ id (later : Answers A), id ∈ ids → open_request id later s' = (s', Err CONTRACT_ALREADY_ENDED).
Proof.
  intros Hw Hf Hio. unfold expire_lapsed. destruct (lapse_all_good (overdue s) (an_commit io) 0 s Hio Hw)
    as (s' & Hl & Hw' & Hs' & Hc' & Hr'). unfold bindS. rewrite Hl. exists s', (sort_strings (map req_id (overdue s))).
  assert (∀ id, id ∈ sort_strings (map req_id (overdue s)) ↔
    ∃ r, requests_of s !! id = Some r ∧ req_status r = ReqPending ∧ (req_expires_at r ≤ iu_now s)%N) as Hids.
  { intros id. rewrite elem_of_sort_strings, list_elem_of_In, in_map_iff. split.
    - intros (r & <- & Hin%list_elem_of_In%elem_of_overdue); [|done]. by exists r.
    - intros (r & Hid & ?). assert (req_id r = id) as <- by by apply Hf. exists r. split; [done|].
      by apply list_elem_of_In, elem_of_overdue. }
  assert (∀ id, str_in id (map req_id (overdue s)) = str_in id (sort_strings (map req_id (overdue s)))) as Hsort.
  { intros id. apply bool_decide_ext. by rewrite elem_of_sort_strings. }
  split; [done|]. split; [done|]. split; [intros id; by rewrite Hr', Hsort|]. split; [done|]. split.
  - intros id r. rewrite Hr', Hsort. unfold str_in. case_bool_decide as Hin.
    + intros (q & Hq & ->)%fmap_Some. done.
    + intros Hid Hst. apply N.lt_nge. intros Hle. apply Hin, Hids. by exists r.
  - intros id later Hin. destruct (proj1 (Hids id) Hin) as (r & Hid & _).
    apply (settled_refused s' id (set_req_status r ReqLapsed)); [|done]. rewrite Hr', Hsort. unfold str_in.
    by rewrite bool_decide_eq_true_2, Hid by done.
Qed.
End Steps.

(** ** Worked examples

    A policy that asks for a person, an in-memory evidence log, a JOSE library of one kind of
    token whose text names the claims it carries. *)

Module IssuanceExamples.
Import TestPrinter TestSha PolicyExamples.

#[export] Instance no_records : FramedJson Event := {|
  print_framed f := pretty (fr_seq f);
  parse_framed _ := None;
  parse_seq _ := None
|}.

#[export] Instance memory_log : EvidenceLog (list (EntryDraft * N)) unit := {|
  ev_record ev event now _ := (ev ++ [(to_draft event, now)], Ok (len ev));
  ev_holds ev log := ev = log
|}.
#[export] Instance memory_log_laws : EvidenceLogLaws (list (EntryDraft * N)) unit.
Proof. split. by intros e log event now io e' seq -> _ [= <- _]. Qed.

#[export] Instance prose : Prose := {| explain ev := "rule " +:+ ce_trace ev; error_text _ := "refused" |}.
#[export] Instance parse : SerdeParse := TestJose.parse.
#[export] Instance jose : Jose := {|
  EncodingKey := unit;
  DecodingKey := unit;
  encoding_from_ec_pem := TestJose.no_keys;
  encoding_from_ed_pem := TestJose.no_keys;
  decoding_from_ec_pem := TestJose.no_keys;
  decoding_from_ed_pem := TestJose.no_keys;
  decoding_from_jwk _ := Some tt;
  jwkset_from_str _ := None;
  crypto_sign _ _ _ := None;
  b64url_encode := hex_encode;
  b64url_decode := TestJose.hex_decode;
  header_to_vec _ := TestJose.header_text;
  decode_header _ := Some TestJose.header;
  payload_to_vec _ := TestJose.payload_text;
  payload_from_value _ := None;
  jwt_decode jws _ _ := Some (VString jws)
|}.

Definition input : RequestInput :=
  mkRequestInput (ent_id agent) (ent_id ledger) (cr_surface ask) (cr_terms ask) 3600 "reconcile"
    (mkHumanRef "sam@acme") ["gateway-1"] false.
Definition emergency : BreakGlassInput :=
  mkBreakGlassInput (ent_id agent) (ent_id ledger) (cr_surface ask) (cr_terms ask) 600 "INC-7"
    "the ledger is stuck" (mkHumanRef "sam@acme") ["gateway-1"].

Definition entities : gmap EntityId Entity := {[ ent_id agent := agent; ent_id ledger := ledger ]}.
Definition projection : Projection := with_entities Projection_default entities.
Definition issuer_under (p : ConnectPolicy) : Issuer (list (EntryDraft * N)) :=
  Issuer_new (mkStore projection (fresh_log 100000) [] ∅) [] p
    (mkIssuerKey "k1" ES256 Local (λ _, Ok TestJose.sig)) "plane" 100 (ActorHuman (mkHumanRef "sam@acme")).
Definition start := issuer_under policy.
Definition good : Answers unit := mkAnswers (λ _, io_ok) (λ _, tt) (λ _, true).

(** The state a request leaves, and the request on file. *)
Definition no_request : PendingRequest := breakglass_pending start emergency.
Definition on_file (s : Issuer (list (EntryDraft * N))) : PendingRequest :=
  default no_request (head ((map_to_list (requests_of s)).*2)).

Definition asked := (request input good start).1.
Definition denying : ConnectPolicy :=
  mkConnectPolicy Deny "v1" [internal; pay] [] false false [] StandingLimits_default.
Definition refused := (request input good (issuer_under denying)).1.

(** The tokens: [48.50.00] approves the request on file, [48.50.01] the emergency. *)
Definition claims_over (r : PendingRequest) : ApprovalClaims :=
  mkApprovalClaims (req_id r) (request_digest r) "v1" None 100.
#[export] Instance claims_serde : ApprovalSerde := {|
  claims_to_vec _ := "";
  claims_from_value v :=
    match v with
    | VString "48.50.00" => Some (claims_over (on_file asked))
    | VString "48.50.01" => Some (claims_over (breakglass_pending start emergency))
    | VString "48.50.02" => Some (claims_over (on_file refused))
    | _ => None
    end
|}.
Definition signed (who token : string) : ApprovalProof := mkApprovalProof (mkHumanRef who) token.
Definition people : ApproverRegistry :=
  mkApproverRegistry {[ "alice" := (ES256, tt); "bob" := (ES256, tt) ]} {[ "alice" := ["duty"] ]}.


Lemma outcome_is {S T} (p : S * T) t : p.2 = t → p = (p.1, t).
Proof. destruct p. by intros <-. Qed.

Definition filed_b (p : Projection) : bool :=
  bool_decide (map_Forall (λ id e, ent_id e = id) (pr_entities p)) &&
  bool_decide (map_Forall (λ cid c, rec_cid c = cid) (pr_contracts p)) &&
  bool_decide (map_Forall (λ id r, req_id r = id) (pr_requests p)).
Lemma filed_b_ok p : filed_b p = true → filed p.
Proof. unfold filed_b. rewrite !andb_true_iff, !bool_decide_eq_true. intros [[? ?] ?]. done. Qed.

Definition consent : IssueOp := OpApprove (req_id (on_file asked)) [signed "alice" "48.50.00"] people.
Definition issued_by (o : result Issued) : Issued := match o with Ok i => i | Err _ => mkIssued
  (mint_record start no_request standing agent ledger (mkCid "") (mkJti "") "" "" None) [] 0 end.

Lemma nothing_minted_without_evidence_witness :
  contracts_of (run_op consent good asked).1 ≠ contracts_of asked ∧
  ∃ record row, contracts_of (run_op consent good asked).1 = <[rec_cid record := record]> (contracts_of asked) ∧
    mint_row record row ∧ ∃ before, iu_evidence (run_op consent good asked).1 = before ++ [row].
Proof.
  assert (contracts_of (run_op consent good asked).1 ≠ contracts_of asked) as Hne.
  { intros Heq. apply (f_equal (λ m, m !! mkCid "conn_73706966")) in Heq. vm_compute in Heq. discriminate. }
  split; [exact Hne|].
  destruct (nothing_minted_without_evidence consent good asked (run_op consent good asked).1 (Ok tt))
    as [[Hsame|(record & Hc & Hw)] _]; [vm_compute; discriminate|exact I| |exfalso; exact (Hne Hsame)|].
  - apply outcome_is. vm_compute. reflexivity.
  - destruct (Hw (iu_evidence asked) eq_refl) as (more & row & Hrow & Hmr). exists record, row.
    split; [exact Hc|]. split; [exact Hmr|]. exists (iu_evidence asked ++ more). rewrite <-app_assoc. exact Hrow.
Defined.

Lemma contracts_stay_accounted_witness : accounted (run_op consent good (at_time asked 200)).1.
Proof.
  apply (contracts_stay_accounted start (run_op consent good (at_time asked 200)).1).
  - apply (issuing_op start (OpRequest input) good 100 asked (run_op consent good (at_time asked 200)).1); [vm_compute; discriminate|vm_compute; discriminate| |].
    + vm_compute. reflexivity.
    + apply (issuing_op asked consent good 200 (run_op consent good (at_time asked 200)).1
               (run_op consent good (at_time asked 200)).1);
        [vm_compute; discriminate|exact I| |apply issuing_none].
      apply outcome_is. vm_compute. reflexivity.
  - exists []. split; [reflexivity|]. intros cid record Hc. vm_compute in Hc. discriminate.
Defined.

Lemma approval_binds_request_witness :
  let r := on_file asked in
  let r' := set_req_status r ReqMinted in
  verify_approval (signed "alice" "48.50.00") r' people "v1" = Ok (claims_over r).
Proof.
  intros r r'. assert (request_fits r) as Hr by (vm_compute; repeat split; first [exact I|discriminate]).
  assert (request_fits r') as Hr' by exact Hr.
  assert (verify_approval (signed "alice" "48.50.00") r people "v1" = Ok (claims_over r)) as Hv by (vm_compute; reflexivity).
  exact (proj2 (approval_binds_request (signed "alice" "48.50.00") people "v1" "v1" r r' (claims_over r) Hr Hr' Hv)
           eq_refl eq_refl).
Defined.

Lemma approve_issues_as_signed_witness :
  let i := issued_by (approve (req_id (on_file asked)) [signed "alice" "48.50.00"] people good asked).2 in
  ∃ p first, requests_of asked !! req_id (on_file asked) = Some p ∧
    rec_exp (is_record i) = saturating_add_u64 100 (req_ttl_secs p) ∧
    appr_by (rec_approval (is_record i)) = Some first ∧ first = mkHumanRef "alice".
Proof.
  set (run := approve (req_id (on_file asked)) [signed "alice" "48.50.00"] people good asked). cbv zeta.
  assert (run.2 = Ok (issued_by run.2)) as Hok by (vm_compute; reflexivity).
  assert (is_u64 (iu_now asked)) as Hn by (vm_compute; discriminate).
  assert (filed (iu_projection asked)) as Hf by (apply filed_b_ok; vm_compute; reflexivity).
  assert (iu_now asked = 100%N) as Hnow by (vm_compute; reflexivity).
  destruct (approve_issues_as_signed (req_id (on_file asked)) [signed "alice" "48.50.00"] people good asked run.1
    (issued_by run.2) Hn Hf (outcome_is run _ Hok)) as (p & first & second & ticket & Hp & _ & _ & _ & _ & _ & Hfirst & _ & _ & _ & _ & Hg & _).
  exists p, first. split; [exact Hp|]. destruct Hg as (_ & _ & _ & _ & _ & _ & -> & _ & -> & _). rewrite Hnow.
  split; [reflexivity|]. split; [reflexivity|]. by apply list_elem_of_singleton in Hfirst.
Defined.

Definition refused_run := request input good (issuer_under denying).

Lemma request_follows_policy_witness :
  (∃ pending, open_request (req_id pending) good refused = (refused, Ok pending)) ∧
  is_ok (approve (req_id (on_file refused)) [signed "alice" "48.50.02"] people good refused).2 = true.
Proof.
  assert (is_u64 (iu_now (issuer_under denying))) as Hn by (vm_compute; discriminate).
  assert (is_u64 (ri_ttl_secs input)) as Ht by (vm_compute; discriminate).
  assert (filed (iu_projection (issuer_under denying))) as Hf by (apply filed_b_ok; vm_compute; reflexivity).
  set (reason := match refused_run.2 with Ok (OutDenied r t) => (r, t) | _ => ("", "") end).
  assert (refused_run.2 = Ok (OutDenied reason.1 reason.2)) as Hok by (vm_compute; reflexivity).
  destruct (request_follows_policy input good (issuer_under denying) refused (OutDenied reason.1 reason.2) Hn Ht Hf
    (outcome_is refused_run _ Hok)) as (caller & callee & ev & _ & _ & _ & _ & _ & _ & _ & _ & Hopen).
  split; [|vm_compute; reflexivity]. eexists. apply Hopen. vm_compute. reflexivity.
Defined.

Definition two_people : ConnectPolicy :=
  mkConnectPolicy Deny "v1" [internal; pay] [] false false
    [mkConnRule (Some "internal*") None None None None None None None Allow None false (Some ArDualControl) None None false]
    StandingLimits_default.
Definition dual := (request input good (issuer_under two_people)).1.
Definition merge : MergeApproval := mkMergeApproval Target "acme/ledger" "sha" "17" "sam" ["pat@acme"] "github" false.
Definition file : ApprovalFile :=
  mkApprovalFile (req_id (on_file dual)) (request_digest (on_file dual)) "spiffe://acme/agent" "spiffe://acme/ledger"
    ["read"] 3600.
Definition merged := approve_by_merge (req_id (on_file dual)) file merge good dual.

Lemma refused_merge_settles_witness :
  ∃ s' code, merged = (s', Err code) ∧ contracts_of s' = contracts_of dual ∧
    (deny (req_id (on_file dual)) "no" good s').2 = Err CONTRACT_ALREADY_ENDED.
Proof.
  assert (filed (iu_projection dual)) as Hf by (apply filed_b_ok; vm_compute; reflexivity).
  destruct (refused_merge_settles (req_id (on_file dual)) file merge good dual (on_file dual) (mkHumanRef "pat@acme") Hf)
    as (s' & code & Hrun & _ & Hc & _ & Hlater);
    [vm_compute; reflexivity|reflexivity|intros event; reflexivity|vm_compute; reflexivity|vm_compute; reflexivity|
     vm_compute; reflexivity|vm_compute; reflexivity|eexists; vm_compute; reflexivity|vm_compute; reflexivity|vm_compute; reflexivity|
     left; vm_compute; reflexivity|].
  exists s', code. split; [exact Hrun|]. split; [exact Hc|]. apply (Hlater good).
Defined.

Definition broken := breakglass emergency [signed "alice" "48.50.01"; signed "bob" "48.50.01"] people BreakGlassLimits_default
  good start.

Lemma breakglass_bounded_witness :
  rec_exp (is_record (issued_by broken.2)) = 700%N ∧ (breakglass_in_window broken.1 86400 ≤ 3)%N.
Proof.
  assert (broken.2 = Ok (issued_by broken.2)) as Hok by (vm_compute; reflexivity).
  assert (is_u64 (iu_now start)) as Hn by (vm_compute; discriminate).
  assert (filed (iu_projection start)) as Hf by (apply filed_b_ok; vm_compute; reflexivity).
  destruct (breakglass_bounded emergency [signed "alice" "48.50.01"; signed "bob" "48.50.01"] people
    BreakGlassLimits_default good start broken.1 (issued_by broken.2) Hn Hf (outcome_is broken _ Hok))
    as (_ & _ & _ & _ & _ & _ & (f & g & _ & _ & _ & Hg) & _ & _ & Hbud).
  split; [|exact Hbud]. destruct Hg as (_ & _ & _ & _ & _ & _ & -> & _). reflexivity.
Defined.

Lemma expiry_settles_overdue_witness :
  ∃ s' ids, expire_lapsed good (at_time asked 300000) = (s', Ok ids) ∧ req_id (on_file asked) ∈ ids ∧
    open_request (req_id (on_file asked)) good s' = (s', Err CONTRACT_ALREADY_ENDED).
Proof.
  assert (filed (iu_projection (at_time asked 300000))) as Hf by (apply filed_b_ok; vm_compute; reflexivity).
  destruct (expiry_settles_overdue (at_time asked 300000) good ltac:(vm_compute; reflexivity) Hf (λ _, eq_refl))
    as (s' & ids & Hrun & Hids & _ & _ & _ & Hlater).
  assert (req_id (on_file asked) ∈ ids) as Hin.
  { apply Hids. exists (on_file asked). split; [vm_compute; reflexivity|]. split; [vm_compute; reflexivity|].
    vm_compute. discriminate. }
  exists s', ids. split; [exact Hrun|]. split; [exact Hin|]. exact (Hlater _ good Hin).
Defined.
End IssuanceExamples.
