(* ===== verification/Offer.v ===== *)
(** * Offer: what a provider makes available, and to whom ([crates/wc-control/src/offer.rs])

    The offer itself is data of the store ([Store.Offer]); here are its questions -- what a
    term permits, what one consumer may see, what is on its way out -- its publication from a
    manifest, the lint, and the impact of a new version on contracts already out. *)

From Stdlib Require Import ZArith.
From stdpp Require Import pretty.
From S2P Require Import Prelude Text Errors Model Json Canon Contract Artifact Log Store Std Policy.

Definition TTL_MAX_CEILING : N := 30 * 24 * 60 * 60.

(** [Option::is_none_or], and [Audience::admits]. *)
Definition is_none_or {A} (o : option A) (p : A → bool) : bool := match o with Some a => p a | None => true end.
Definition admits (a : Audience) (zone : string) (tier : Tier) : bool :=
  is_none_or (aud_zone a) (λ g, Glob_matches g zone) && is_none_or (aud_tier a) (λ t, TierMatch_matches t tier).

Definition strictness (t : Term) : N := match term_approval t with NamedConsumer => 1 | PreGranted => 0 end.

Inductive TermOutcome :=
| GrantedAlready (ttl_max : N)
| NeedsNamedApproval (ttl_max : N)
| NotOffered (item_exists : bool).

Section Digest.
Context `{Sha256}.

(** [approval_digest]. *)
Definition approver_name (a : string) : string := to_ascii_lowercase (trim_start_matches "human:" (trim_text a)).
Definition approval_digest (block : option ApprovalBlock) : string :=
  match block with
  | None => "none"
  | Some b =>
    let who := sort_dedup (filterb (λ a, negb (bool_decide (a = ""))) (map approver_name (ab_approvers b))) in
    "sha256:" +:+ sha256_hex ("min=" +:+ pretty (ab_min b) +:+ ";" +:+ join "," who)
  end.
Definition Offer_approval_digest (o : Offer) : string := approval_digest (offer_approval o).
End Digest.

Definition with_consent (o : Offer) (consent : MergeApproval) : Offer :=
  mkOffer (offer_asset o) (offer_version o) (offer_surface_kind o) (offer_surface_digest o) (offer_terms o)
    (offer_source o) (Some consent) (offer_approval o).

(** ** What an offer permits *)

(** One turn of [permits]: the best term so far, and whether any names the item. *)
Definition permits_step (item zone : string) (tier : Tier) (acc : option Term * bool) (term : Term) : option Term * bool :=
  let '(best, item_exists) := acc in
  if negb (str_in item (term_items term)) then acc
  else if negb (admits (term_to term) zone tier) then (best, true)
  else match best with
       | Some b => if (strictness term <=? strictness b)%N then (best, true) else (Some term, true)
       | None => (Some term, true)
       end.
Definition outcome_of (best : option Term) (item_exists : bool) : TermOutcome :=
  match best with
  | Some t => match term_approval t with
              | PreGranted => GrantedAlready (term_ttl_max t)
              | NamedConsumer => NeedsNamedApproval (term_ttl_max t)
              end
  | None => NotOffered item_exists
  end.
Definition permits (o : Offer) (item consumer_zone : string) (consumer_tier : Tier) : TermOutcome :=
  let '(best, item_exists) := fold_left (permits_step item consumer_zone consumer_tier) (offer_terms o) (None, false) in
  outcome_of best item_exists.

(** [Iterator::min]. *)
Definition min_list (l : list N) : option N :=
  match l with [] => None | x :: l => Some (fold_left N.min l x) end.
Definition deprecated_after (o : Offer) (item : string) : option N :=
  min_list (map dep_after (filterb (λ d, bool_decide (dep_item d = item)) (flat_map term_deprecates (offer_terms o)))).

Definition offered_items (o : Offer) : list string := sort_dedup (flat_map term_items (offer_terms o)).

Record CatalogueEntry := mkCatalogueEntry {
  ce_asset : EntityId;
  ce_version : N;
  ce_surface_kind : SurfaceKind;
  ce_surface_digest : string;
  ce_pre_granted : list string;
  ce_needs_approval : list string;
  ce_withdrawing : list (string * N);
  ce_consented : bool
}.

(** One item of [as_seen_by]: the three lists so far. *)
Definition see_item (o : Offer) (zone : string) (tier : Tier) (now : N)
    (acc : list string * list string * list (string * N)) (item : string) : list string * list string * list (string * N) :=
  let '(pre, needs, withdrawing) := acc in
  let dated :=
    match deprecated_after o item with
    | Some after => if (now <? after)%N then withdrawing ++ [(item, after)] else withdrawing
    | None => withdrawing
    end in
  match permits o item zone tier with
  | GrantedAlready _ => (pre ++ [item], needs, dated)
  | NeedsNamedApproval _ => (pre, needs ++ [item], dated)
  | NotOffered _ => acc
  end.
Definition as_seen_by (o : Offer) (zone : string) (tier : Tier) (now : N) : option CatalogueEntry :=
  let '(pre, needs, withdrawing) := fold_left (see_item o zone tier now) (offered_items o) ([], [], []) in
  if bool_decide (pre = []) && bool_decide (needs = []) then None
  else Some (mkCatalogueEntry (offer_asset o) (offer_version o) (offer_surface_kind o) (offer_surface_digest o)
               pre needs withdrawing (match offer_consent o with Some _ => true | None => false end)).

(** ** Publication *)

Record OfferManifest := mkOfferManifest { om_approval : option ApprovalBlock; om_asset : string; om_terms : list Term }.

Definition check_term (declared : list string) (t : Term) : result unit :=
  guard_err (bool_decide (term_items t = [])) POLICY_INVALID $
  guard_err ((term_ttl_max t =? 0) || (TTL_MAX_CEILING <? term_ttl_max t))%N POLICY_INVALID $
  let? _ := mapR (λ item, guard_err (negb (str_in item declared)) SURFACE_NOT_SUBSET $ Ok tt) (term_items t) in
  let? _ := mapR (λ d, guard_err (negb (str_in (dep_item d) (term_items t))) POLICY_INVALID $ Ok tt) (term_deprecates t) in
  Ok tt.
Definition into_offer (m : OfferManifest) (declared : list string) (kind : SurfaceKind) (surface_digest : string)
    (version : N) (source : OfferSource) : result Offer :=
  let? asset := EntityId_new (om_asset m) in
  guard_err (bool_decide (om_terms m = [])) POLICY_INVALID $
  let? _ := mapR (check_term declared) (om_terms m) in
  Ok (mkOffer asset version kind surface_digest (om_terms m) source None (om_approval m)).

(** ** Lint

    The findings without their prose; [true] refuses. *)

Inductive LintDetail :=
| NoTerms | NoItems (i : N) | ZeroTtl (i : N) | Undeclared (i : N) (item : string)
| NoAudience (i : N) | DeprecatesUnoffered (i : N) (item : string) | AlreadyWithdrawn (i : N) (item : string)
| WithdrawnBeforeCeiling (i : N) (item : string) | RepeatedItem (item : string) (terms : list N).
Definition Finding : Type := bool * LintDetail.

Definition lint_deprecation (i : N) (term : Term) (now : N) (d : Deprecation) : list Finding :=
  (if str_in (dep_item d) (term_items term) then [] else [(false, DeprecatesUnoffered i (dep_item d))]) ++
  (if (dep_after d <=? now)%N then [(false, AlreadyWithdrawn i (dep_item d))]
   else if (saturating_sub (dep_after d) now <? term_ttl_max term)%N then [(false, WithdrawnBeforeCeiling i (dep_item d))]
   else []).
Definition lint_term (declared : list string) (now : N) (i : N) (term : Term) : list Finding :=
  (if bool_decide (term_items term = []) then [(true, NoItems i)] else []) ++
  (if (term_ttl_max term =? 0)%N then [(true, ZeroTtl i)] else []) ++
  flat_map (λ item, if str_in item declared then [] else [(true, Undeclared i item)]) (term_items term) ++
  (match aud_zone (term_to term), aud_tier (term_to term) with None, None => [(false, NoAudience i)] | _, _ => [] end) ++
  flat_map (lint_deprecation i term now) (term_deprecates term).
(** The terms an item appears in, once per appearance. *)
Definition appearances (terms : list Term) (item : string) : list N :=
  concat (imap (λ i t, map (λ _, N.of_nat i) (filterb (λ it, bool_decide (it = item)) (term_items t))) terms).
Definition lint (m : OfferManifest) (declared : list string) (now : N) : list Finding :=
  (if bool_decide (om_terms m = []) then [(true, NoTerms)] else []) ++
  concat (imap (λ i t, lint_term declared now (N.of_nat i) t) (om_terms m)) ++
  flat_map (λ item, let terms := appearances (om_terms m) item in
                    if (1 <? len terms)%N then [(false, RepeatedItem item terms)] else [])
    (sort_dedup (flat_map term_items (om_terms m))).

(** ** The impact of a version *)

Record Affected := mkAffected {
  af_cid : string;
  af_consumer : EntityId;
  af_minted_under : option N;
  af_exp : N;
  af_gone : list string;
  af_needs_approval : list string;
  af_withdrawn : list (string * N);
  af_withdrawing : list (string * N)
}.
Definition Affected_is_clean (a : Affected) : bool :=
  bool_decide (af_gone a = []) && bool_decide (af_needs_approval a = []) && bool_decide (af_withdrawn a = [])
  && bool_decide (af_withdrawing a = []).
Record Impact := mkImpact { im_version : N; im_live : N; im_behind : N; im_affected : list Affected }.
Record LiveContract := mkLiveContract { lc_record : ContractRecord; lc_consumer_zone : string; lc_consumer_tier : Tier }.

Definition judge_item (o : Offer) (zone : string) (tier : Tier) (now : N) (a : Affected) (item : string) : Affected :=
  let '(mkAffected cid consumer minted exp gone needs withdrawn withdrawing) := a in
  match permits o item zone tier with
  | NotOffered _ => mkAffected cid consumer minted exp (gone ++ [item]) needs withdrawn withdrawing
  | NeedsNamedApproval _ => mkAffected cid consumer minted exp gone (needs ++ [item]) withdrawn withdrawing
  | GrantedAlready _ =>
    match deprecated_after o item with
    | Some after =>
      if (after <=? now)%N then mkAffected cid consumer minted exp gone needs (withdrawn ++ [(item, after)]) withdrawing
      else mkAffected cid consumer minted exp gone needs withdrawn (withdrawing ++ [(item, after)])
    | None => a
    end
  end.
Definition judge (o : Offer) (now : N) (c : LiveContract) : Affected :=
  fold_left (judge_item o (lc_consumer_zone c) (lc_consumer_tier c) now) (Surface_items (rec_surface (lc_record c)))
    (mkAffected (cid_str (rec_cid (lc_record c))) (rec_caller (lc_record c)) (rec_offer_version (lc_record c))
       (rec_exp (lc_record c)) [] [] [] []).

(** Worst first: more gone, then more withdrawn, more gated, more scheduled; then by id. *)
Fixpoint counts_before (a b : list N) : option bool :=
  match a, b with
  | x :: a, y :: b => if (y <? x)%N then Some true else if (x <? y)%N then Some false else counts_before a b
  | _, _ => None
  end.
Definition counts (a : Affected) : list N :=
  [len (af_gone a); len (af_withdrawn a); len (af_needs_approval a); len (af_withdrawing a)].
Definition worse (a b : Affected) : Prop :=
  match counts_before (counts a) (counts b) with Some w => w = true | None => String.le (af_cid a) (af_cid b) end.
#[global] Instance worse_dec : RelDecision worse.
Proof. intros a b. unfold worse. destruct (counts_before _ _); apply _. Defined.

Definition impact (o : Offer) (live : list LiveContract) (now : N) : Impact :=
  mkImpact (offer_version o) (len live)
    (len (filterb (λ c, match rec_offer_version (lc_record c) with Some v => (v <? offer_version o)%N | None => false end) live))
    (merge_sort worse (filterb (λ a, negb (Affected_is_clean a)) (map (judge o now) live))).

(** ** Lemmas: what decides *)

Section Permits.
Context (item zone : string) (tier : Tier).

Definition names_item (t : Term) : bool := str_in item (term_items t).
Definition covers (t : Term) : bool := names_item t && admits (term_to t) zone tier.
Definition is_named (t : Term) : bool := bool_decide (term_approval t = NamedConsumer).
(** The term that governs: the first gated one among those that cover, else the first. *)
Definition governing_term (terms : list Term) : option Term :=
  match find (λ t, covers t && is_named t) terms with Some t => Some t | None => find covers terms end.

Lemma permits_step_spec terms best e :
  fold_left (permits_step item zone tier) terms (best, e)
  = (match best with
     | Some b => if is_named b then Some b
                 else match find (λ t, covers t && is_named t) terms with Some t => Some t | None => Some b end
     | None => governing_term terms
     end, e || existsb names_item terms).
Proof.
  unfold governing_term, covers. revert best e. induction terms as [|t terms IH]; intros best e; cbn [fold_left find existsb].
  { rewrite orb_false_r. destruct best as [b|]; [|done]. by destruct (is_named b). }
  unfold permits_step at 2. change (str_in item (term_items t)) with (names_item t).
  destruct (names_item t) eqn:En; cbn [negb andb]; [|by rewrite IH].
  destruct (admits (term_to t) zone tier) eqn:Ea; cbn [negb andb].
  - assert (strictness t = if is_named t then 1 else 0)%N as Hst by (unfold strictness, is_named; by destruct (term_approval t)).
    destruct best as [b|].
    + assert (strictness b = if is_named b then 1 else 0)%N as Hsb by (unfold strictness, is_named; by destruct (term_approval b)).
      rewrite Hst, Hsb. destruct (is_named b) eqn:Eb, (is_named t) eqn:Et; cbn; rewrite IH; f_equal; try (by rewrite orb_true_r); by rewrite ?Eb, ?Et.
    + rewrite IH. f_equal; [|by rewrite orb_true_r]. by destruct (is_named t).
  - rewrite IH. f_equal. by rewrite orb_true_r.
Qed.
End Permits.

Lemma permits_governing o item zone tier :
  permits o item zone tier = outcome_of (governing_term item zone tier (offer_terms o)) (existsb (names_item item) (offer_terms o)).
Proof. unfold permits. by rewrite permits_step_spec. Qed.

Lemma find_filterb_nil {A} (p : A → bool) l : find p l = None ↔ ∀ x, x ∈ l → p x = false.
Proof.
  split; [intros Hf x Hx%list_elem_of_In; by apply (find_none _ _ Hf)|]. intros Hall.
  destruct (find p l) as [x|] eqn:E; [|done]. apply find_some in E as [Hx%list_elem_of_In Hp]. by rewrite Hall in Hp.
Qed.

(** The three answers, each by what the terms say. *)
Inductive OutcomeClass := ClassGranted | ClassGated | ClassNot (item_exists : bool).
Definition class_of (o : TermOutcome) : OutcomeClass :=
  match o with GrantedAlready _ => ClassGranted | NeedsNamedApproval _ => ClassGated | NotOffered e => ClassNot e end.
Definition class_by_terms (item zone : string) (tier : Tier) (terms : list Term) : OutcomeClass :=
  if existsb (λ t, covers item zone tier t && is_named t) terms then ClassGated
  else if existsb (covers item zone tier) terms then ClassGranted
  else ClassNot (existsb (names_item item) terms).
Lemma existsb_find {A} (p : A → bool) l : existsb p l = match find p l with Some _ => true | None => false end.
Proof. induction l as [|x l IH]; [done|]. cbn. by destruct (p x). Qed.
Lemma permits_class o item zone tier : class_of (permits o item zone tier) = class_by_terms item zone tier (offer_terms o).
Proof.
  rewrite permits_governing. unfold class_by_terms, governing_term. rewrite !(existsb_find (λ t, _ && _)), (existsb_find (covers _ _ _)).
  destruct (find (λ t, covers item zone tier t && is_named t) (offer_terms o)) as [t|] eqn:E.
  - apply find_some in E as [_ [_ Hn]%andb_true_iff]. unfold is_named in Hn. rewrite bool_decide_eq_true in Hn. cbn. by rewrite Hn.
  - destruct (find (covers item zone tier) (offer_terms o)) as [t|] eqn:Ec; [|done]. apply find_some in Ec as [Hin Hc].
    pose proof (find_none _ _ E _ Hin) as Hn. cbv beta in Hn. rewrite Hc in Hn. cbn [andb] in Hn. unfold is_named in Hn. rewrite bool_decide_eq_false in Hn.
    cbn. by destruct (term_approval t).
Qed.
Lemma existsb_permutation {A} (p : A → bool) l l' : Permutation l l' → existsb p l = existsb p l'.
Proof.
  intros Hp. destruct (existsb p l') eqn:E.
  - apply existsb_True in E as (x & Hx & Hpx). apply existsb_True. exists x. by rewrite Hp.
  - rewrite existsb_False in E |- *. intros x. rewrite Hp. apply E.
Qed.

(** ** Theorems *)

(** The strictest term decides, whatever the order of the terms.  An item is gated exactly
    if some term that covers it for the consumer asks for named approval, granted exactly if
    some term covers it and none of those is gated, and otherwise not offered, saying whether
    any term names it at all; so reordering the terms never changes which of these it is.  The
    ceiling is that of the first gated term, or of the first term that covers the item. *)
Theorem strictest_term_decides o item zone tier :
  class_of (permits o item zone tier) = class_by_terms item zone tier (offer_terms o) ∧
  (∀ o', Permutation (offer_terms o) (offer_terms o') →
    class_of (permits o' item zone tier) = class_of (permits o item zone tier)) ∧
  (∀ ttl, permits o item zone tier = GrantedAlready ttl →
    ∃ t, find (covers item zone tier) (offer_terms o) = Some t ∧ term_ttl_max t = ttl) ∧
  (∀ ttl, permits o item zone tier = NeedsNamedApproval ttl →
    ∃ t, find (λ t, covers item zone tier t && is_named t) (offer_terms o) = Some t ∧ term_ttl_max t = ttl).
Proof.
  split; [apply permits_class|]. split.
  { intros o' Hp. rewrite !permits_class. unfold class_by_terms. by rewrite !(existsb_permutation _ _ _ Hp). }
  pose proof (permits_class o item zone tier) as Hc. unfold class_by_terms in Hc. rewrite !(existsb_find (λ t, _ && _)) in Hc.
  rewrite permits_governing in *. unfold governing_term in *.
  destruct (find (λ t, covers item zone tier t && is_named t) (offer_terms o)) as [t|] eqn:E; split; intros ttl Ht.
  - rewrite Ht in Hc. done.
  - exists t. split; [done|]. cbn in Ht. destruct (term_approval t); [done|]. by injection Ht.
  - destruct (find (covers item zone tier) (offer_terms o)) as [t|]; [|done]. exists t. split; [done|]. cbn in Ht.
    destruct (term_approval t); [by injection Ht|done].
  - rewrite Ht in Hc. cbn [class_of] in Hc. by destruct (existsb (covers item zone tier) (offer_terms o)).
Qed.

(** Among terms that grant an item outright the order decides how long.  Two terms of one
    file, one granting an hour and one granting thirty days to the same consumers, give the
    ceiling of whichever is written first. *)
Theorem term_order_decides_ttl (zone : string) (tier : Tier) :
  let term ttl := mkTerm ["read"] (mkAudience None None) PreGranted ttl [] in
  let offer terms := mkOffer (mkEntityId "spiffe://p") 1 McpTools "d" terms (mkOfferSource "" "" "") None None in
  permits (offer [term 3600%N; term TTL_MAX_CEILING]) "read" zone tier = GrantedAlready 3600 ∧
  permits (offer [term TTL_MAX_CEILING; term 3600%N]) "read" zone tier = GrantedAlready TTL_MAX_CEILING.
Proof. split; reflexivity. Qed.

Definition visible (o : Offer) (zone : string) (tier : Tier) (item : string) : Prop :=
  ∀ e, permits o item zone tier ≠ NotOffered e.

Lemma visible_offered o zone tier item : visible o zone tier item → item ∈ offered_items o.
Proof.
  intros Hv. unfold offered_items. rewrite elem_of_sort_dedup. destruct (existsb (names_item item) (offer_terms o)) eqn:E.
  - apply existsb_True in E as (t & Ht & Hn). unfold names_item, str_in in Hn. rewrite bool_decide_eq_true in Hn.
    apply list_elem_of_In, in_flat_map. exists t. split; by apply list_elem_of_In.
  - exfalso. apply (Hv false). rewrite permits_governing. unfold governing_term.
    assert (∀ t, t ∈ offer_terms o → covers item zone tier t = false) as Hno.
    { rewrite existsb_False in E. intros t Ht. unfold covers. by rewrite E. }
    rewrite (proj2 (find_filterb_nil (λ t, covers item zone tier t && is_named t) _)) by (intros t Ht; by rewrite Hno).
    rewrite (proj2 (find_filterb_nil _ _) Hno). cbn. by rewrite E.
Qed.

Lemma see_items_spec o zone tier now items pre needs dated :
  let '(pre', needs', dated') := fold_left (see_item o zone tier now) items (pre, needs, dated) in
  (∀ x, x ∈ pre' ↔ x ∈ pre ∨ x ∈ items ∧ ∃ ttl, permits o x zone tier = GrantedAlready ttl) ∧
  (∀ x, x ∈ needs' ↔ x ∈ needs ∨ x ∈ items ∧ ∃ ttl, permits o x zone tier = NeedsNamedApproval ttl) ∧
  (∀ x after, (x, after) ∈ dated' ↔
    (x, after) ∈ dated ∨ x ∈ items ∧ visible o zone tier x ∧ deprecated_after o x = Some after ∧ (now < after)%N).
Proof.
  revert pre needs dated. induction items as [|item items IH]; intros pre needs dated; cbn [fold_left]; [set_solver|].
  set (acc := see_item _ _ _ _ _ _). destruct acc as [[pre1 needs1] dated1] eqn:Eacc. subst acc. specialize (IH pre1 needs1 dated1).
  destruct (fold_left _ items (pre1, needs1, dated1)) as [[pre' needs'] dated']. destruct IH as (Hp & Hn & Hd). unfold see_item in Eacc.
  set (d1 := match deprecated_after o item with Some _ => _ | None => _ end) in Eacc.
  assert (∀ x after, (x, after) ∈ d1 ↔ (x, after) ∈ dated ∨ x = item ∧ deprecated_after o x = Some after ∧ (now < after)%N) as Hd1.
  { intros x after. subst d1. destruct (deprecated_after o item) as [a|] eqn:Ed; [destruct (now <? a)%N eqn:Elt|]; bool_facts.
    - rewrite elem_of_app, list_elem_of_singleton. split; [intros [?|[= -> ->]]; [by left|by right]|].
      intros [?|(-> & E & _)]; [by left|]. right. congruence.
    - split; [by left|]. intros [?|(-> & E & ?)]; [done|]. rewrite Ed in E. injection E as ->. lia.
    - split; [by left|]. intros [?|(-> & E & ?)]; [done|congruence]. }
  assert (∀ x, x ∈ item :: items ↔ x = item ∨ x ∈ items) as Hcons by (intros; apply elem_of_cons).
  destruct (permits o item zone tier) as [ttl|ttl|e] eqn:Ep; injection Eacc as <- <- <-.
  - assert (visible o zone tier item) as Hv by (intros e; by rewrite Ep). split; [|split].
    + intros x. rewrite Hp, elem_of_app, list_elem_of_singleton, Hcons. naive_solver.
    + intros x. rewrite Hn, Hcons. naive_solver congruence.
    + intros x after. rewrite Hd, Hd1, Hcons. naive_solver.
  - assert (visible o zone tier item) as Hv by (intros e; by rewrite Ep). split; [|split].
    + intros x. rewrite Hp, Hcons. naive_solver congruence.
    + intros x. rewrite Hn, elem_of_app, list_elem_of_singleton, Hcons. naive_solver.
    + intros x after. rewrite Hd, Hd1, Hcons. naive_solver.
  - assert (¬ visible o zone tier item) as Hv by (intros Hv; by apply (Hv e)). split; [|split].
    + intros x. rewrite Hp, Hcons. naive_solver congruence.
    + intros x. rewrite Hn, Hcons. naive_solver congruence.
    + intros x after. rewrite Hd, Hcons. naive_solver.
Qed.

(** A consumer sees exactly what it may ask for.  A catalogue entry exists if and only if
    some item is granted or gated for this zone and tier; it lists the granted items, the
    gated ones, and of both those whose earliest withdrawal date lies ahead, and nothing else;
    so an asset none of whose terms admits the consumer does not show at all. *)
Theorem catalogue_shows_exactly o zone tier now :
  match as_seen_by o zone tier now with
  | Some e =>
    ce_asset e = offer_asset o ∧ ce_version e = offer_version o ∧
    (∀ x, x ∈ ce_pre_granted e ↔ ∃ ttl, permits o x zone tier = GrantedAlready ttl) ∧
    (∀ x, x ∈ ce_needs_approval e ↔ ∃ ttl, permits o x zone tier = NeedsNamedApproval ttl) ∧
    (∀ x after, (x, after) ∈ ce_withdrawing e ↔
      visible o zone tier x ∧ deprecated_after o x = Some after ∧ (now < after)%N) ∧
    ∃ x, visible o zone tier x
  | None => ∀ x, ¬ visible o zone tier x
  end.
Proof.
  unfold as_seen_by. pose proof (see_items_spec o zone tier now (offered_items o) [] [] []) as Hs.
  destruct (fold_left _ _ _) as [[pre needs] dated]. destruct Hs as (Hp & Hn & Hd).
  assert (∀ x ttl, permits o x zone tier = GrantedAlready ttl → x ∈ offered_items o) as Ho1
    by (intros x ttl E; apply (visible_offered o zone tier); intros e; by rewrite E).
  assert (∀ x ttl, permits o x zone tier = NeedsNamedApproval ttl → x ∈ offered_items o) as Ho2
    by (intros x ttl E; apply (visible_offered o zone tier); intros e; by rewrite E).
  assert (∀ x, x ∈ pre ↔ ∃ ttl, permits o x zone tier = GrantedAlready ttl) as Hpre.
  { intros x. rewrite Hp. split; [intros [?%not_elem_of_nil|[_ ?]]; done|]. intros (ttl & E). right. split; [by eapply Ho1|by exists ttl]. }
  assert (∀ x, x ∈ needs ↔ ∃ ttl, permits o x zone tier = NeedsNamedApproval ttl) as Hneeds.
  { intros x. rewrite Hn. split; [intros [?%not_elem_of_nil|[_ ?]]; done|]. intros (ttl & E). right. split; [by eapply Ho2|by exists ttl]. }
  assert (∀ x after, (x, after) ∈ dated ↔ visible o zone tier x ∧ deprecated_after o x = Some after ∧ (now < after)%N) as Hdated.
  { intros x after. rewrite Hd. split; [intros [?%not_elem_of_nil|[_ ?]]; done|]. intros Hv. right. split; [|done]. by eapply visible_offered, Hv. }
  destruct (bool_decide (pre = []) && bool_decide (needs = [])) eqn:E.
  - apply andb_true_iff in E as [->%bool_decide_eq_true ->%bool_decide_eq_true]. intros x Hv.
    destruct (permits o x zone tier) as [ttl|ttl|e] eqn:Ex; [..|by apply (Hv e)].
    + by apply (not_elem_of_nil x), Hpre; exists ttl.
    + by apply (not_elem_of_nil x), Hneeds; exists ttl.
  - cbn. repeat (split; [done|]). apply andb_false_iff in E as [E|E]; apply bool_decide_eq_false in E.
    + destruct pre as [|x pre]; [done|]. exists x. destruct (proj1 (Hpre x)) as (ttl & Ep); [by left|]. intros e. by rewrite Ep.
    + destruct needs as [|x needs]; [done|]. exists x. destruct (proj1 (Hneeds x)) as (ttl & Ep); [by left|]. intros e. by rewrite Ep.
Qed.

Lemma mapR_check_ok {A} (p : A → bool) (e : Code) (l : list A) us :
  mapR (λ x, guard_err (negb (p x)) e $ Ok tt) l = Ok us → ∀ x, x ∈ l → p x = true.
Proof.
  revert us. induction l as [|y l IH]; intros us Hm x Hx; [set_solver|]. cbn [mapR] in Hm.
  apply result_bind_ok in Hm as (u & Hg & (us' & Hm & _)%result_bind_ok). rewrite guard_err_ok, negb_false_iff in Hg.
  apply elem_of_cons in Hx as [->|Hx]; [by apply Hg|by eapply IH].
Qed.

Definition term_ok (declared : list string) (t : Term) : Prop :=
  term_items t ≠ [] ∧ (1 ≤ term_ttl_max t ≤ TTL_MAX_CEILING)%N ∧ (∀ item, item ∈ term_items t → item ∈ declared) ∧
  ∀ d, d ∈ term_deprecates t → dep_item d ∈ term_items t.
Lemma check_term_ok declared t : check_term declared t = Ok tt → term_ok declared t.
Proof.
  unfold check_term, term_ok. rewrite !guard_err_ok, bool_decide_eq_false, orb_false_iff, N.eqb_neq, N.ltb_ge.
  intros (Hi & Ht & (us & Hitems & (vs & Hdeps & _)%result_bind_ok)%result_bind_ok).
  split; [done|]. split; [lia|]. unfold str_in in *. split.
  - intros item Hin. pose proof (mapR_check_ok (λ item, bool_decide (item ∈ declared)) _ _ _ Hitems item Hin) as Hp. by apply bool_decide_eq_true in Hp.
  - intros d Hin. pose proof (mapR_check_ok (λ d, bool_decide (dep_item d ∈ term_items t)) _ _ _ Hdeps d Hin) as Hp. by apply bool_decide_eq_true in Hp.
Qed.

(** An offer that is published grants nothing undeclared and nothing endless, and the lint
    refuses no more than publication does -- but less.  Publication succeeds only for a valid
    asset and terms that each name an item, all of them declared, a ceiling between a second
    and thirty days, and withdraw only what they offer; and it carries the manifest's terms
    over unchanged, unconsented.  Whatever it accepts the lint does not refuse; yet a manifest
    without a finding can be one that publication refuses. *)
Theorem published_offer_bounded m declared kind digest version source :
  (∀ o, into_offer m declared kind digest version source = Ok o →
    offer_terms o = om_terms m ∧ offer_consent o = None ∧ offer_terms o ≠ [] ∧ EntityId_new (om_asset m) = Ok (offer_asset o) ∧
    (∀ t, t ∈ offer_terms o → term_ok declared t) ∧
    ∀ now f, f ∈ lint m declared now → f.1 = false) ∧
  ∃ m' declared', lint m' declared' 0 = [] ∧ into_offer m' declared' kind digest version source = Err POLICY_INVALID.
Proof.
  split.
  - intros o. unfold into_offer. rewrite result_bind_ok. setoid_rewrite guard_err_ok. setoid_rewrite bool_decide_eq_false.
    intros (asset & Ha & Hne & (us & Hterms & [= <-])%result_bind_ok). cbn. repeat (split; [done|]).
    assert (∀ t, t ∈ om_terms m → term_ok declared t) as Hok.
    { intros t Ht. apply check_term_ok. clear -Hterms Ht. revert us Hterms. induction (om_terms m) as [|x l IH]; intros us Hm; [set_solver|].
      cbn [mapR] in Hm. apply result_bind_ok in Hm as ([] & Hx & (us' & Hm & _)%result_bind_ok).
      apply elem_of_cons in Ht as [->|Ht]; [done|by eapply IH]. }
    split; [done|]. intros now f. unfold lint. rewrite bool_decide_eq_false_2 by done. cbn [app]. rewrite elem_of_app. intros [Hf|Hf].
    + apply list_elem_of_In, in_concat in Hf as (fs & Hfs%list_elem_of_In & Hf%list_elem_of_In).
      apply elem_of_lookup_imap in Hfs as (i & t & -> & Hi). apply list_elem_of_lookup_2 in Hi. destruct (Hok t Hi) as (Hitems & Httl & Hdecl & Hdeps).
      unfold lint_term in Hf. rewrite bool_decide_eq_false_2 in Hf by done. destruct (term_ttl_max t =? 0)%N eqn:E0; [bool_facts; lia|]. cbn [app] in Hf.
      rewrite !elem_of_app in Hf. destruct Hf as [Hf|[Hf|Hf]].
      * apply list_elem_of_In, in_flat_map in Hf as (item & Hitem%list_elem_of_In & Hf). unfold str_in in Hf.
        rewrite bool_decide_eq_true_2 in Hf by (by apply Hdecl). done.
      * destruct (aud_zone (term_to t)), (aud_tier (term_to t)); try (by apply not_elem_of_nil in Hf). by apply list_elem_of_singleton in Hf as ->.
      * apply list_elem_of_In, in_flat_map in Hf as (d & _ & Hf%list_elem_of_In). unfold lint_deprecation in Hf. rewrite elem_of_app in Hf.
        destruct Hf as [Hf|Hf].
        -- destruct (str_in _ _); [by apply not_elem_of_nil in Hf|by apply list_elem_of_singleton in Hf as ->].
        -- destruct (_ <=? _)%N; [by apply list_elem_of_singleton in Hf as ->|].
           destruct (_ <? _)%N; [by apply list_elem_of_singleton in Hf as ->|by apply not_elem_of_nil in Hf].
    + apply list_elem_of_In, in_flat_map in Hf as (item & _ & Hf%list_elem_of_In). cbv zeta in Hf.
      destruct (_ <? _)%N; [by apply list_elem_of_singleton in Hf as ->|by apply not_elem_of_nil in Hf].
  - exists (mkOfferManifest None "spiffe://bank/mcp" [mkTerm ["read"] (mkAudience (Some "*") None) PreGranted (TTL_MAX_CEILING + 1) []]), ["read"].
    split; vm_compute; reflexivity.
Qed.

(** ** Lemmas: withdrawal dates *)

Lemma earliest_le l m x : min_list l = Some m → x ∈ l → (m ≤ x)%N.
Proof.
  destruct l as [|y l]; [done|]. cbn [min_list]. intros [= <-].
  assert (∀ l a, (fold_left N.min l a ≤ a)%N ∧ ∀ x, x ∈ l → (fold_left N.min l a ≤ x)%N) as Hg.
  { clear. induction l as [|y l IH]; intros a; cbn [fold_left]; [split; [lia|set_solver]|]. destruct (IH (N.min a y)) as [Ha Hl].
    split; [lia|]. intros x [->|Hx]%elem_of_cons; [lia|by apply Hl]. }
  destruct (Hg l y) as [Ha Hl]. intros [->|Hx]%elem_of_cons; [done|by apply Hl].
Qed.
Lemma deprecated_after_le o item after t d :
  deprecated_after o item = Some after → t ∈ offer_terms o → d ∈ term_deprecates t → dep_item d = item → (after ≤ dep_after d)%N.
Proof.
  unfold deprecated_after. intros Hm Ht Hd Hi. eapply earliest_le; [exact Hm|]. apply list_elem_of_In, in_map, filter_In. split.
  - apply in_flat_map. exists t. split; by apply list_elem_of_In.
  - by apply bool_decide_eq_true.
Qed.
Lemma deprecated_after_none o item t d :
  deprecated_after o item = None → t ∈ offer_terms o → d ∈ term_deprecates t → dep_item d ≠ item.
Proof.
  unfold deprecated_after. intros Hm Ht Hd Hi. destruct (map dep_after _) eqn:E; [|done]. apply map_eq_nil in E.
  assert (In d []) as []. rewrite <-E. apply filter_In. split.
  - apply in_flat_map. exists t. split; by apply list_elem_of_In.
  - by apply bool_decide_eq_true.
Qed.
