(* ===== verification/Need.v ===== *)
(** * Need: what a consumer asks for, and whether an offer permits it
    ([crates/wc-control/src/need.rs])

    A need is resolved from the consumer's manifest and matched against the provider's offer;
    the identities of the connection and of the artifact are derived from what they mean.  A
    [BTreeSet<String>] is its sorted list.  Why an item was refused is an inductive type in
    place of prose. *)

From Stdlib Require Import ZArith.
From stdpp Require Import pretty.
From S2P Require Import Prelude Text Errors Model Json Canon Contract Artifact Log Store Std Policy Issuance Offer.

Record NeedEntry := mkNeedEntry {
  ne_to : string;
  ne_tools : list string;
  ne_justify : string;
  ne_ttl : option N
}.
Record NeedManifest := mkNeedManifest { nm_approval : option ApprovalBlock; nm_asset : string; nm_needs : list NeedEntry }.

Definition DEFAULT_TTL : N := 24 * 60 * 60.

Record Need := mkNeed {
  nd_consumer : EntityId;
  nd_provider : EntityId;
  nd_items : list string;
  nd_justify : string;
  nd_ttl_requested : N
}.

Definition resolve (m : NeedManifest) (e : NeedEntry) : result Need :=
  guard_err (bool_decide (ne_tools e = [])) POLICY_INVALID $
  guard_err (bool_decide (trim_text (ne_justify e) = "")) POLICY_INVALID $
  let? consumer := EntityId_new (nm_asset m) in
  let? provider := EntityId_new (ne_to e) in
  Ok (mkNeed consumer provider (sort_dedup (ne_tools e)) (ne_justify e) (default DEFAULT_TTL (ne_ttl e))).

Record Matched := mkMatched {
  ma_cid : Cid;
  ma_jti : Jti;
  ma_items : list string;
  ma_ttl : N;
  ma_offer_version : N;
  ma_deprecating : list (string * N)
}.
Definition derived (m : Matched) : Derived := mkDerived (ma_cid m) (ma_jti m) (ma_offer_version m).

Inductive RefusalReason :=
| WrongOffer | OtherAudience | NoTermCovers | WithdrawnOn (after : N) | WouldOutlive (after ceiling : N).
Record ItemRefusal := mkItemRefusal { ir_item : string; ir_why : RefusalReason }.
Record GatedNeed := mkGated { ga_items : list string; ga_requested : list string; ga_ttl : N; ga_offer_version : N }.
Inductive Disposition := Grant (m : Matched) | NeedsApproval (g : GatedNeed) | Refused (l : list ItemRefusal).

Definition granted (d : Disposition) : option Matched := match d with Grant m => Some m | _ => None end.
Definition refusals (d : Disposition) : option (list ItemRefusal) := match d with Refused r => Some r | _ => None end.
Definition gated (d : Disposition) : option GatedNeed := match d with NeedsApproval g => Some g | _ => None end.

(** Refusals as one error, for a caller that fails a pipeline: the items are its prose. *)
Definition refusal_error (n : Need) (rs : list ItemRefusal) : Code := POLICY_DENIED.

Section Derive.
Context `{Sha256}.

Definition prefix (n : nat) (s : string) : string := String.substring 0 n s.

(** The text each identity is the digest of. *)
Definition cid_input (consumer provider : EntityId) : string := entity_str consumer +:+ NLs +:+ entity_str provider.
Definition jti_input (cid : Cid) (offer_version : N) (items : list string) (ttl : N) : string :=
  cid_str cid +:+ NLs +:+ pretty offer_version +:+ NLs +:+ join "," items +:+ NLs +:+ pretty ttl.
(** [unwrap_or_else(unreachable)]: that the identifier is valid is [derived_ids_valid]. *)
Definition derive_cid (consumer provider : EntityId) : Cid :=
  let raw := "conn_" +:+ prefix 16 (sha256_hex (cid_input consumer provider)) in
  match Cid_new raw with Ok cid => cid | Err _ => mkCid raw end.
Definition derive_jti (cid : Cid) (offer_version : N) (items : list string) (ttl : N) : Jti :=
  let raw := "cx_" +:+ prefix 24 (sha256_hex (jti_input cid offer_version items ttl)) in
  match Jti_new raw with Ok jti => jti | Err _ => mkJti raw end.

(** The first loop of [match_need]: refusals, ceiling and gated items so far. *)
Definition match_item (o : Offer) (zone : string) (tier : Tier) (acc : list ItemRefusal * N * list string) (item : string)
    : list ItemRefusal * N * list string :=
  let '(refused, ceiling, gated) := acc in
  match permits o item zone tier with
  | GrantedAlready ttl_max => (refused, N.min ceiling ttl_max, gated)
  | NeedsNamedApproval ttl_max => (refused, N.min ceiling ttl_max, gated ++ [item])
  | NotOffered true => (refused ++ [mkItemRefusal item OtherAudience], ceiling, gated)
  | NotOffered false => (refused ++ [mkItemRefusal item NoTermCovers], ceiling, gated)
  end.
(** The second: withdrawal dates against the ceiling. *)
Definition date_item (o : Offer) (ceiling now : N) (acc : list ItemRefusal * list (string * N)) (item : string)
    : list ItemRefusal * list (string * N) :=
  let '(refused, deprecating) := acc in
  match deprecated_after o item with
  | None => acc
  | Some after =>
    if (after <=? now)%N then (refused ++ [mkItemRefusal item (WithdrawnOn after)], deprecating)
    else if (after <? saturating_add_u64 now ceiling)%N
    then (refused ++ [mkItemRefusal item (WouldOutlive after ceiling)], deprecating)
    else (refused, deprecating ++ [(item, after)])
  end.

Definition match_need (n : Need) (o : Offer) (zone : string) (tier : Tier) (now : N) : Disposition :=
  if negb (bool_decide (offer_asset o = nd_provider n)) then Refused [mkItemRefusal "" WrongOffer]
  else
    let '(refused, ceiling, gated) := fold_left (match_item o zone tier) (nd_items n) ([], nd_ttl_requested n, []) in
    let '(refused, deprecating) := fold_left (date_item o ceiling now) (nd_items n) (refused, []) in
    if negb (bool_decide (len refused = 0%N)) then Refused refused
    else if negb (bool_decide (gated = [])) then NeedsApproval (mkGated gated (nd_items n) ceiling (offer_version o))
    else
      let cid := derive_cid (nd_consumer n) (nd_provider n) in
      Grant (mkMatched cid (derive_jti cid (offer_version o) (nd_items n) ceiling) (nd_items n) ceiling (offer_version o) deprecating).
End Derive.

(** ** Lemmas: the loops *)

Section Loops.
Context (o : Offer) (zone : string) (tier : Tier).

(** The ceiling an item's term sets, if it is offered. *)
Definition term_ceiling (item : string) : option N :=
  match permits o item zone tier with GrantedAlready t | NeedsNamedApproval t => Some t | NotOffered _ => None end.
Definition is_gated (item : string) : bool :=
  match permits o item zone tier with NeedsNamedApproval _ => true | _ => false end.
Definition item_refusal (item : string) : list ItemRefusal :=
  match permits o item zone tier with
  | NotOffered true => [mkItemRefusal item OtherAudience]
  | NotOffered false => [mkItemRefusal item NoTermCovers]
  | _ => []
  end.
Definition ceiling_of (ttl : N) (items : list string) : N := fold_left (λ c i, from_option (N.min c) c (term_ceiling i)) items ttl.
Lemma match_items items refused ceiling gated :
  fold_left (match_item o zone tier) items (refused, ceiling, gated)
  = (refused ++ flat_map item_refusal items, ceiling_of ceiling items, gated ++ filterb is_gated items).
Proof.
  revert refused ceiling gated. induction items as [|i items IH]; intros refused ceiling gated; cbn [fold_left flat_map filterb].
  { by rewrite !app_nil_r. }
  unfold ceiling_of. cbn [fold_left]. fold (ceiling_of (from_option (N.min ceiling) ceiling (term_ceiling i)) items).
  unfold match_item at 2, item_refusal at 1, term_ceiling, is_gated at 1.
  destruct (permits o i zone tier) as [t|t|[]]; rewrite IH; cbn [app from_option]; rewrite <-?app_assoc; done.
Qed.

Definition date_refusal (ceiling now : N) (item : string) : list ItemRefusal :=
  match deprecated_after o item with
  | None => []
  | Some after => if (after <=? now)%N then [mkItemRefusal item (WithdrawnOn after)]
                  else if (after <? saturating_add_u64 now ceiling)%N then [mkItemRefusal item (WouldOutlive after ceiling)] else []
  end.
Definition date_notice (ceiling now : N) (item : string) : list (string * N) :=
  match deprecated_after o item with
  | None => []
  | Some after => if (after <=? now)%N || (after <? saturating_add_u64 now ceiling)%N then [] else [(item, after)]
  end.
Lemma date_items ceiling now items refused deprecating :
  fold_left (date_item o ceiling now) items (refused, deprecating)
  = (refused ++ flat_map (date_refusal ceiling now) items, deprecating ++ flat_map (date_notice ceiling now) items).
Proof.
  revert refused deprecating. induction items as [|i items IH]; intros refused deprecating; cbn [fold_left flat_map].
  { by rewrite !app_nil_r. }
  unfold date_item at 2, date_refusal at 1, date_notice at 1.
  destruct (deprecated_after o i) as [a|]; [|by rewrite IH].
  destruct (a <=? now)%N; cbn [orb]; [by rewrite IH, <-app_assoc|]. destruct (a <? _)%N; by rewrite IH, <-app_assoc.
Qed.

Lemma ceiling_le ttl items : (ceiling_of ttl items ≤ ttl)%N ∧ ∀ i t, i ∈ items → term_ceiling i = Some t → (ceiling_of ttl items ≤ t)%N.
Proof.
  revert ttl. induction items as [|i items IH]; intros ttl; unfold ceiling_of; cbn [fold_left]; [split; [lia|set_solver]|].
  fold (ceiling_of (from_option (N.min ttl) ttl (term_ceiling i)) items).
  destruct (IH (from_option (N.min ttl) ttl (term_ceiling i))) as [Hle Hall]. split.
  - destruct (term_ceiling i); cbn in *; lia.
  - intros x t [->|Hx]%elem_of_cons Ht; [|by eapply Hall]. rewrite Ht in *. cbn in *. lia.
Qed.
Lemma ceiling_reached ttl items :
  ceiling_of ttl items = ttl ∨ ∃ i, i ∈ items ∧ term_ceiling i = Some (ceiling_of ttl items).
Proof.
  revert ttl. induction items as [|i items IH]; intros ttl; unfold ceiling_of; cbn [fold_left]; [by left|].
  fold (ceiling_of (from_option (N.min ttl) ttl (term_ceiling i)) items).
  destruct (IH (from_option (N.min ttl) ttl (term_ceiling i))) as [E|(x & Hx & E)]; [|right; exists x; split; [by right|done]].
  rewrite E. destruct (term_ceiling i) as [t|] eqn:Et; cbn; [|by left]. destruct (N.min_spec ttl t) as [[_ ->]|[_ ->]]; [by left|].
  right. exists i. split; [by left|done].
Qed.
End Loops.

(** ** What a need is decided to be *)

Section Decided.
Context `{Sha256}.
Context (o : Offer) (zone : string) (tier : Tier).

Definition covered (item : string) : Prop := is_Some (term_ceiling o zone tier item).
(** No contract of [ttl] seconds made [now] outlives the item's withdrawal. *)
Definition outlived_by_none (now ttl : N) (item : string) : Prop :=
  ∀ after, deprecated_after o item = Some after → (now < after ∧ saturating_add_u64 now ttl ≤ after)%N.
(** [c] is the least of what was asked and what the items' terms allow. *)
Definition least_ceiling (n : Need) (c : N) : Prop :=
  (c ≤ nd_ttl_requested n)%N ∧ (∀ i t, i ∈ nd_items n → term_ceiling o zone tier i = Some t → (c ≤ t)%N) ∧
  (c = nd_ttl_requested n ∨ ∃ i, i ∈ nd_items n ∧ term_ceiling o zone tier i = Some c).

Lemma ceiling_of_least n : least_ceiling n (ceiling_of o zone tier (nd_ttl_requested n) (nd_items n)).
Proof.
  destruct (ceiling_le o zone tier (nd_ttl_requested n) (nd_items n)) as [Hle Hall]. split; [done|]. split; [done|].
  apply ceiling_reached.
Qed.
Lemma least_ceiling_unique n c c' : least_ceiling n c → least_ceiling n c' → c = c'.
Proof.
  intros (Hr & Hall & Hex) (Hr' & Hall' & Hex').
  destruct Hex as [->|(i & Hi & Ht)]; destruct Hex' as [->|(i' & Hi' & Ht')]; [done|..].
  - specialize (Hall _ _ Hi' Ht'). lia.
  - specialize (Hall' _ _ Hi Ht). lia.
  - specialize (Hall _ _ Hi' Ht'). specialize (Hall' _ _ Hi Ht). lia.
Qed.

Lemma item_refusal_none i : item_refusal o zone tier i = [] ↔ covered i.
Proof.
  unfold item_refusal, covered, term_ceiling. destruct (permits o i zone tier) as [t|t|[]]; split; try done; intros [? [=]].
Qed.
Lemma date_refusal_none ceiling now i : date_refusal o ceiling now i = [] ↔ outlived_by_none now ceiling i.
Proof.
  unfold date_refusal, outlived_by_none. destruct (deprecated_after o i) as [a|]; [|split; [done|done]].
  destruct (a <=? now)%N eqn:E1; [|destruct (a <? _)%N eqn:E2]; bool_facts;
    (split; [try done; intros _ x [= <-]; lia|intros Hx; try done; specialize (Hx _ eq_refl); lia]).
Qed.
Lemma item_refusal_names i r : r ∈ item_refusal o zone tier i → ir_item r = i.
Proof. unfold item_refusal. destruct (permits o i zone tier) as [t|t|[]]; set_solver. Qed.
Lemma date_refusal_names ceiling now i r : r ∈ date_refusal o ceiling now i → ir_item r = i.
Proof.
  unfold date_refusal. destruct (deprecated_after o i) as [a|]; [|set_solver]. repeat case_match; set_solver.
Qed.

Lemma elem_of_flat_map {A B} (f : A → list B) l y : y ∈ flat_map f l ↔ ∃ x, x ∈ l ∧ y ∈ f x.
Proof. rewrite list_elem_of_In, in_flat_map. setoid_rewrite list_elem_of_In. done. Qed.
Lemma flat_map_nil {A B} (f : A → list B) l : flat_map f l = [] ↔ ∀ x, x ∈ l → f x = [].
Proof.
  induction l as [|x l IH]; cbn [flat_map]; [set_solver|]. split.
  - intros [Hx Hl]%app_nil y [->|Hy]%elem_of_cons; [done|by apply IH].
  - intros Hall. rewrite (Hall x) by set_solver. apply IH. set_solver.
Qed.
Lemma flat_map_names {A B} (f : A → list B) (name : B → A) l x :
  (∀ y r, r ∈ f y → name r = y) → x ∈ map name (flat_map f l) ↔ x ∈ l ∧ f x ≠ [].
Proof.
  intros Hname. rewrite list_elem_of_In, in_map_iff. setoid_rewrite <-list_elem_of_In. setoid_rewrite elem_of_flat_map. split.
  - intros (r & <- & y & Hy & Hr). rewrite (Hname y r Hr). split; [done|]. destruct (f y); [by apply not_elem_of_nil in Hr|done].
  - intros [Hx Hf]. destruct (f x) as [|r l'] eqn:E; [done|]. exists r. split; [apply Hname; rewrite E; by left|].
    exists x. split; [done|]. rewrite E. by left.
Qed.

(** The three outcomes at once, in terms of the specifications above. *)
Definition refused_items (n : Need) (now : N) : list ItemRefusal :=
  flat_map (item_refusal o zone tier) (nd_items n) ++
  flat_map (date_refusal o (ceiling_of o zone tier (nd_ttl_requested n) (nd_items n)) now) (nd_items n).
Lemma match_need_eq n now :
  match_need n o zone tier now =
  if bool_decide (offer_asset o = nd_provider n) then
    let ceiling := ceiling_of o zone tier (nd_ttl_requested n) (nd_items n) in
    match refused_items n now with
    | [] => match filterb (is_gated o zone tier) (nd_items n) with
            | [] => let cid := derive_cid (nd_consumer n) (nd_provider n) in
                    Grant (mkMatched cid (derive_jti cid (offer_version o) (nd_items n) ceiling) (nd_items n) ceiling (offer_version o)
                             (flat_map (date_notice o ceiling now) (nd_items n)))
            | g => NeedsApproval (mkGated g (nd_items n) ceiling (offer_version o))
            end
    | r => Refused r
    end
  else Refused [mkItemRefusal "" WrongOffer].
Proof.
  unfold match_need, refused_items. destruct (bool_decide _); [|done]. cbn [negb]. rewrite match_items, date_items. cbn [app].
  destruct (_ ++ _) as [|r rs]; cbv zeta; [|done]. by destruct (filterb _ _).
Qed.
(** C27: a need is settled all or nothing, and by three exclusive rules.  It is granted only when
    the offer is the provider's own and pre-grants every item asked for: the contract then
    covers exactly the items asked, at the least of the lifetime asked for and the terms'
    ceilings, under the offer's version, and it outlives no item's withdrawal; every withdrawal
    ahead is announced.  It waits for the provider's decision under the same conditions when
    some item is gated, naming exactly those.  A refusal of the provider's own offer names
    exactly the items that no term covers for this consumer or whose withdrawal the contract
    would outlive. *)
Theorem match_need_exact n now :
  (∀ m, match_need n o zone tier now = Grant m →
    offer_asset o = nd_provider n ∧ (∀ i, i ∈ nd_items n → ∃ t, permits o i zone tier = GrantedAlready t) ∧
    ma_items m = nd_items n ∧ ma_offer_version m = offer_version o ∧ least_ceiling n (ma_ttl m) ∧
    (∀ i, i ∈ nd_items n → outlived_by_none now (ma_ttl m) i) ∧
    ∀ i after, (i, after) ∈ ma_deprecating m ↔ i ∈ nd_items n ∧ deprecated_after o i = Some after) ∧
  (∀ g, match_need n o zone tier now = NeedsApproval g →
    offer_asset o = nd_provider n ∧ (∀ i, i ∈ nd_items n → covered i) ∧
    (∀ i, i ∈ ga_items g ↔ i ∈ nd_items n ∧ ∃ t, permits o i zone tier = NeedsNamedApproval t) ∧ ga_items g ≠ [] ∧
    ga_requested g = nd_items n ∧ ga_offer_version g = offer_version o ∧ least_ceiling n (ga_ttl g) ∧
    ∀ i, i ∈ nd_items n → outlived_by_none now (ga_ttl g) i) ∧
  (∀ rs, match_need n o zone tier now = Refused rs → rs ≠ [] ∧
    (offer_asset o = nd_provider n → ∃ ceiling, least_ceiling n ceiling ∧
     ∀ i, i ∈ map ir_item rs ↔ i ∈ nd_items n ∧ (¬ covered i ∨ ¬ outlived_by_none now ceiling i))).
Proof.
  rewrite match_need_eq. case_bool_decide as Hasset; [|split; [done|]; split; [done|]; intros rs [= <-]; done].
  cbv zeta. set (c := ceiling_of _ _ _ _ _). pose proof (ceiling_of_least n) as Hc. fold c in Hc.
  assert (refused_items n now = [] → (∀ i, i ∈ nd_items n → covered i) ∧ ∀ i, i ∈ nd_items n → outlived_by_none now c i) as Hnone.
  { unfold refused_items. intros [H1 H2]%app_nil. rewrite flat_map_nil in H1, H2. split; intros i Hi.
    - by apply item_refusal_none, H1.
    - by apply date_refusal_none, H2. }
  destruct (refused_items n now) as [|r rs] eqn:Er.
  - destruct Hnone as [Hcov Hdate]; [done|]. destruct (filterb (is_gated o zone tier) (nd_items n)) as [|g gs] eqn:Eg.
    + split; [|split; [done|done]]. intros m [= <-]. cbn [ma_items ma_offer_version ma_ttl ma_deprecating]. split; [done|]. split.
      { intros i Hi. rewrite filterb_nil in Eg. specialize (Eg i Hi). specialize (Hcov i Hi). unfold is_gated, covered, term_ceiling in *.
        destruct (permits o i zone tier) as [t|t|b]; [by exists t|done|by destruct Hcov]. }
      repeat (split; [done|]). intros i after. rewrite elem_of_flat_map. split.
      * intros (x & Hx & Hn). unfold date_notice in Hn. destruct (deprecated_after o x) as [a|] eqn:Ea; [|set_solver].
        destruct (_ || _); [set_solver|]. by apply list_elem_of_singleton in Hn as [= -> ->].
      * intros [Hi Ha]. exists i. split; [done|]. unfold date_notice. rewrite Ha. destruct (Hdate i Hi after Ha) as [H1 H2].
        rewrite (proj2 (N.leb_gt _ _) H1), (proj2 (N.ltb_ge _ _) H2). by left.
    + split; [done|]. split; [|done]. intros m [= <-]. cbn [ga_items ga_requested ga_ttl ga_offer_version].
      split; [done|]. split; [done|]. split; [|done]. intros i. rewrite <-Eg, elem_of_filterb. unfold is_gated.
      destruct (permits o i zone tier) as [t|t|b]; naive_solver.
  - split; [done|]. split; [done|]. intros rs' [= <-]. split; [done|]. intros _. exists c. split; [done|]. intros i. rewrite <-Er.
    unfold refused_items. fold c. rewrite map_app, elem_of_app, !flat_map_names by eauto using item_refusal_names, date_refusal_names.
    rewrite item_refusal_none, date_refusal_none. tauto.
Qed.
End Decided.

(** ** Derived identities *)

Lemma prefix_bytes n s b : b ∈ bytes (prefix n s) → b ∈ bytes s.
Proof.
  unfold prefix. revert s. induction n as [|n IH]; intros [|c s]; cbn [String.substring bytes]; [set_solver..|].
  intros [->|Hb]%elem_of_cons; [by left|right; by apply IH].
Qed.
Lemma prefix_length n s : (n ≤ String.length s)%nat → String.length (prefix n s) = n.
Proof. unfold prefix. revert s. induction n as [|n IH]; intros [|c s] Hs; simpl in *; try lia; [done..|]. rewrite IH; lia. Qed.
Lemma prefix_app_inj p s t : p +:+ s = p +:+ t → s = t.
Proof. intros E. apply bytes_inj. apply (f_equal bytes) in E. rewrite !bytes_app in E. by apply app_inv_head in E. Qed.

Section Identity.
Context `{Sha256} `{!Sha256Hex}.

(** Two texts whose digests agree in their first [n] digits. *)
Definition truncated_collision (n : nat) : Prop := ∃ x y, x ≠ y ∧ prefix n (sha256_hex x) = prefix n (sha256_hex y).
Lemma truncated_inj n x y : prefix n (sha256_hex x) = prefix n (sha256_hex y) → x = y ∨ truncated_collision n.
Proof. intros E. destruct (decide (x = y)); [by left|right; by exists x, y]. Qed.

Lemma hex_no_newline n s : no_byte "010" (prefix n (sha256_hex s)).
Proof. intros Hin%prefix_bytes%sha256_hex_digits. done. Qed.
Lemma pretty_no_newline (n : N) : no_byte "010" (pretty n).
Proof. intros Hin%pretty_N_bytes. done. Qed.
(** An entity identifier holds no line break. *)
Lemma EntityId_no_newline raw i : EntityId_new raw = Ok i → no_byte "010" (entity_str i) ∧ entity_str i = raw.
Proof.
  unfold EntityId_new. intros (u & Hv & [= <-])%result_bind_ok. cbn. split; [|done]. apply result_bind_ok in Hv as (u' & Hb & _).
  unfold base_checks in Hb. rewrite !guard_err_ok in Hb. destruct Hb as (_ & _ & Hc & _). intros Hin.
  apply utf8_decode_keeps_ascii in Hin; [|done]. rewrite existsb_False in Hc. by specialize (Hc _ Hin).
Qed.

Lemma cid_str_derived consumer provider : cid_str (derive_cid consumer provider) = "conn_" +:+ prefix 16 (sha256_hex (cid_input consumer provider)).
Proof. unfold derive_cid, Cid_new. by destruct (validate_cid _ _). Qed.
Lemma jti_str_derived cid v items ttl : jti_str (derive_jti cid v items ttl) = "cx_" +:+ prefix 24 (sha256_hex (jti_input cid v items ttl)).
Proof. unfold derive_jti, Jti_new. by destruct (validate_jti _ _). Qed.
Lemma jti_input_join cid v items ttl : jti_input cid v items ttl = join NLs [cid_str cid; pretty v; join "," items; pretty ttl].
Proof. reflexivity. Qed.

Definition plain_items (items : list string) : Prop := ∀ i, i ∈ items → no_byte "010" i ∧ no_byte "," i.
Lemma join_no_byte (c : ascii) (sep : string) l : no_byte c sep → (∀ x, x ∈ l → no_byte c x) → no_byte c (join sep l).
Proof.
  intros Hs. unfold no_byte, join. induction l as [|x [|y l] IH]; intros Hl; [set_solver|by apply Hl; left|].
  change (String.concat sep (x :: y :: l)) with (x +:+ sep +:+ String.concat sep (y :: l)).
  rewrite !bytes_app, !elem_of_app. intros [Hx|[Hx|Hx]]; [by apply (Hl x); [left|]|by apply Hs|].
  apply IH; [|done]. intros z Hz. apply Hl. by right.
Qed.

(** What the text behind an artifact's identity is read back as. *)
Lemma jti_input_inj consumer provider consumer' provider' v v' items items' ttl ttl' :
  let cid := derive_cid consumer provider in let cid' := derive_cid consumer' provider' in
  plain_items items → plain_items items' → items ≠ [] → items' ≠ [] →
  jti_input cid v items ttl = jti_input cid' v' items' ttl' → cid_str cid = cid_str cid' ∧ v = v' ∧ items = items' ∧ ttl = ttl'.
Proof.
  cbv zeta. intros Hp Hp' Hne Hne' E. rewrite !jti_input_join in E. apply (f_equal (split_on "010")) in E.
  assert (∀ c p, no_byte "010" (cid_str (derive_cid c p))) as Hcid.
  { intros c p. rewrite cid_str_derived. unfold no_byte. rewrite bytes_app, elem_of_app.
    intros [Hin|Hin]; [by vm_compute in Hin; set_solver|by apply hex_no_newline in Hin]. }
  assert (∀ l, plain_items l → no_byte "010" (join "," l)) as Hjoin.
  { intros l Hl. apply join_no_byte; [vm_compute; set_solver|]. intros x Hx. by apply Hl. }
  rewrite !(split_join "010") in E; [|done|repeat constructor; auto using pretty_no_newline|done|repeat constructor; auto using pretty_no_newline].
  injection E as Hc Hv Hi Ht. split; [done|]. split; [by apply (inj pretty)|]. split; [|by apply (inj pretty)].
  apply (f_equal (split_on ",")) in Hi.
  rewrite !(split_join ",") in Hi; [done|done|apply Forall_forall; intros x Hx; by apply Hp'|done|apply Forall_forall; intros x Hx; by apply Hp].
Qed.

Lemma derive_cid_inj consumer provider consumer' provider' :
  no_byte "010" (entity_str consumer) → no_byte "010" (entity_str provider) →
  no_byte "010" (entity_str consumer') → no_byte "010" (entity_str provider') →
  cid_str (derive_cid consumer provider) = cid_str (derive_cid consumer' provider') →
  (consumer = consumer' ∧ provider = provider') ∨ truncated_collision 16.
Proof.
  intros H1 H2 H3 H4 E. rewrite !cid_str_derived in E. apply prefix_app_inj in E.
  destruct (truncated_inj _ _ _ E) as [Ei|]; [left|by right]. apply (f_equal (split_on "010")) in Ei.
  change (cid_input consumer provider) with (join NLs [entity_str consumer; entity_str provider]) in Ei.
  change (cid_input consumer' provider') with (join NLs [entity_str consumer'; entity_str provider']) in Ei.
  rewrite !(split_join "010") in Ei by (done || by repeat constructor).
  injection Ei. destruct consumer, provider, consumer', provider'. cbn. by intros -> ->.
Qed.

(** The identifiers are valid when the digest is long enough: [unreachable!] is not reached. *)
Lemma derived_ids_valid consumer provider v items ttl :
  (∀ s, (24 ≤ String.length (sha256_hex s))%nat) →
  let cid := derive_cid consumer provider in
  Cid_new (cid_str cid) = Ok cid ∧ Jti_new (jti_str (derive_jti cid v items ttl)) = Ok (derive_jti cid v items ttl).
Proof.
  intros Hlen. cbv zeta.
  assert (∀ n s, (n ≤ 24)%nat → length (bytes (prefix n (sha256_hex s))) = n) as Hl.
  { intros n s Hn. rewrite length_bytes. apply prefix_length. specialize (Hlen s). lia. }
  assert (∀ n s b, b ∈ bytes (prefix n (sha256_hex s)) → is_ascii_hexdigit b = true) as Hhex.
  { intros n s b Hb%prefix_bytes. by eapply sha256_hex_digits. }
  assert (∀ b, is_ascii_hexdigit b = true → is_jti_char b = true ∧ (b < 128)%N ∧ is_control b = false ∧ is_whitespace b = false) as Hchar.
  { intros b. unfold is_ascii_hexdigit, is_jti_char, is_ascii_alphanumeric, is_ascii_digit, is_ascii_lowercase, is_ascii_uppercase, is_control, is_whitespace.
    rewrite !orb_true_iff, !andb_true_iff, !orb_false_iff, !andb_false_iff, !N.leb_le, !N.ltb_ge, !N.eqb_eq, !N.eqb_neq, !N.leb_gt. lia. }
  assert (∀ p d max, Forall (λ b, is_jti_char b = true ∧ (b < 128)%N ∧ is_control b = false ∧ is_whitespace b = false) (bytes p) →
    (∀ b, b ∈ bytes d → is_ascii_hexdigit b = true) → p ≠ "" → (N.of_nat (length (bytes p) + length (bytes d)) ≤ max)%N →
    base_checks (p +:+ d) max = Ok tt ∧ chars (p +:+ d) = bytes (p +:+ d) ∧ forallb is_jti_char (bytes (p +:+ d)) = true) as Hbase.
  { intros p d max Hp Hd Hne Hmax.
    assert (∀ b, b ∈ bytes (p +:+ d) → is_jti_char b = true ∧ (b < 128)%N ∧ is_control b = false ∧ is_whitespace b = false) as Hall.
    { intros b. rewrite bytes_app, elem_of_app. intros [Hb|Hb]; [rewrite Forall_forall in Hp; by apply Hp|by apply Hchar, Hd]. }
    assert (chars (p +:+ d) = bytes (p +:+ d)) as Hch. { apply chars_ascii_bytes, Forall_forall. intros b Hb. by apply Hall. }
    split; [|split; [done|]].
    - unfold base_checks. rewrite Hch, bool_decide_eq_false_2; [cbn [guard_err]|destruct p; done].
      replace (max <? str_len (p +:+ d))%N with false; [cbn [guard_err]|].
      2:{ symmetry. apply N.ltb_ge. unfold str_len. rewrite string_length_app, <-!length_bytes. lia. }
      replace (existsb _ _) with false; [done|]. symmetry. apply existsb_False. intros b Hb. by destruct (Hall b Hb) as (_ & _ & -> & ->).
    - apply forallb_True. intros b Hb. by apply Hall. }
  split.
  - rewrite cid_str_derived. unfold derive_cid, Cid_new. set (d := prefix 16 _). unfold validate_cid.
    destruct (Hbase "conn_" d 64%N) as (-> & _ & _); [by repeat constructor|by apply Hhex|done|unfold d; rewrite Hl by lia; vm_compute; done|].
    cbn [result_bind]. replace (strip_prefix "conn_" ("conn_" +:+ d)) with (Some d) by (symmetry; by apply strip_prefix_Some).
    replace (str_len d) with 16%N by (unfold str_len; rewrite <-length_bytes; unfold d; by rewrite Hl by lia).
    replace (forallb is_ascii_hexdigit (chars d)) with true; [done|]. symmetry. apply chars_forallb.
    { intros c Hc. by apply Hchar in Hc as (_ & ? & _). } apply forallb_True, Hhex.
  - rewrite jti_str_derived. unfold derive_jti, Jti_new. set (d := prefix 24 _). unfold validate_jti.
    destruct (Hbase "cx_" d 128%N) as (-> & -> & ->); [by repeat constructor|by apply Hhex|done|unfold d; rewrite Hl by lia; vm_compute; done|].
    cbn [result_bind negb].
    replace (str_len ("cx_" +:+ d)) with 27%N; [done|]. unfold str_len. rewrite string_length_app, <-(length_bytes d). unfold d. by rewrite Hl by lia.
Qed.
Lemma resolve_need_ok m e n : resolve m e = Ok n →
  ne_tools e ≠ [] ∧ EntityId_new (nm_asset m) = Ok (nd_consumer n) ∧ EntityId_new (ne_to e) = Ok (nd_provider n) ∧
  nd_items n = sort_dedup (ne_tools e) ∧ nd_ttl_requested n = default DEFAULT_TTL (ne_ttl e).
Proof.
  unfold resolve. rewrite !guard_err_ok. intros (Hne & _ & Hr). bool_facts.
  apply result_bind_ok in Hr as (c & Hc & Hr). apply result_bind_ok in Hr as (p & Hp & [= <-]). done.
Qed.
Lemma match_need_grant o zone tier n now m : match_need n o zone tier now = Grant m →
  ma_ttl m = ceiling_of o zone tier (nd_ttl_requested n) (nd_items n) ∧
  ma_cid m = derive_cid (nd_consumer n) (nd_provider n) ∧ ma_jti m = derive_jti (ma_cid m) (offer_version o) (nd_items n) (ma_ttl m).
Proof.
  rewrite match_need_eq. destruct (bool_decide _); [|done]. cbv zeta. destruct (refused_items _ _ _ _ _); [|done].
  destruct (filterb _ _); [|done]. by intros [= <-].
Qed.

(** Two grants ask for the same thing: the pair, the offer's version, the set of tools and the lifetime. *)
Definition same_meaning (m m' : NeedManifest) (e e' : NeedEntry) (o o' : Offer) (g g' : Matched) : Prop :=
  nm_asset m = nm_asset m' ∧ ne_to e = ne_to e' ∧ offer_version o = offer_version o' ∧
  (∀ t, t ∈ ne_tools e ↔ t ∈ ne_tools e') ∧ ma_ttl g = ma_ttl g'.

(** An artifact's identity is what it means.  Two granted needs that agree on the pair, the
    offer's version, the set of tools -- in whatever order and however often the manifests list
    them -- and the lifetime have the same connection and artifact identifiers, whatever their
    justifications and whenever they are matched; and the same offer gives the same need the
    same lifetime at any time, so a pipeline that runs again mints nothing new.  Conversely
    grants with one artifact identifier agree on all of these, up to a collision of the digests'
    kept digits, provided no tool's name holds a comma or a line break.  Both identifiers are
    valid, as the digest is long enough. *)
Theorem identity_is_meaning m m' e e' n n' o o' zone zone' tier tier' now now' g g' :
  resolve m e = Ok n → resolve m' e' = Ok n' →
  match_need n o zone tier now = Grant g → match_need n' o' zone' tier' now' = Grant g' →
  (same_meaning m m' e e' o o' g g' → ma_cid g = ma_cid g' ∧ ma_jti g = ma_jti g') ∧
  (o = o' → zone = zone' → tier = tier' → default DEFAULT_TTL (ne_ttl e) = default DEFAULT_TTL (ne_ttl e') →
    (∀ t, t ∈ ne_tools e ↔ t ∈ ne_tools e') → ma_ttl g = ma_ttl g') ∧
  (plain_items (ne_tools e) → plain_items (ne_tools e') → ma_jti g = ma_jti g' →
    same_meaning m m' e e' o o' g g' ∨ truncated_collision 24 ∨ truncated_collision 16) ∧
  ((∀ s, (24 ≤ String.length (sha256_hex s))%nat) → Cid_new (cid_str (ma_cid g)) = Ok (ma_cid g) ∧ Jti_new (jti_str (ma_jti g)) = Ok (ma_jti g)).
Proof.
  intros (Hne & Hc & Hp & Hi & Ht)%resolve_need_ok (Hne' & Hc' & Hp' & Hi' & Ht')%resolve_need_ok.
  intros (Httl & Hcid & Hjti)%match_need_grant (Httl' & Hcid' & Hjti')%match_need_grant.
  pose proof (EntityId_no_newline _ _ Hc) as [Nc Ec]. pose proof (EntityId_no_newline _ _ Hp) as [Np Ep].
  pose proof (EntityId_no_newline _ _ Hc') as [Nc' Ec']. pose proof (EntityId_no_newline _ _ Hp') as [Np' Ep'].
  split; [|split; [|split]].
  - intros (Ha & Hto & Hv & Hset & Hl). rewrite Ha, Hc' in Hc. rewrite Hto, Hp' in Hp. injection Hc as Hc. injection Hp as Hp.
    assert (ma_cid g = ma_cid g') as Hcc by (rewrite Hcid, Hcid'; congruence). split; [done|].
    by rewrite Hjti, Hjti', Hcc, Hv, Hl, Hi, Hi', (sort_dedup_ext _ _ Hset).
  - intros -> -> -> Hd Hset. by rewrite Httl, Httl', Hi, Hi', Ht, Ht', Hd, (sort_dedup_ext _ _ Hset).
  - intros Hpl Hpl' E. rewrite Hjti, Hjti' in E. apply (f_equal jti_str) in E. rewrite !jti_str_derived in E. apply prefix_app_inj in E.
    destruct (truncated_inj _ _ _ E) as [Ei|]; [|by right; left]. rewrite Hcid, Hcid' in Ei.
    assert (∀ l, plain_items l → plain_items (sort_dedup l)) as Hsd. { intros l Hl i Hin. apply Hl, elem_of_sort_dedup, Hin. }
    apply jti_input_inj in Ei as (Ecid & Ev & Eit & El); cycle 1.
    { rewrite Hi. by apply Hsd. } { rewrite Hi'. by apply Hsd. } { by rewrite Hi, sort_dedup_nil. } { by rewrite Hi', sort_dedup_nil. }
    apply derive_cid_inj in Ecid as [[Ecc Epp]|]; [|by right; right|done..]. left. split; [congruence|]. split; [congruence|]. split; [done|]. split; [|done].
    intros t. rewrite <-(elem_of_sort_dedup t (ne_tools e)), <-(elem_of_sort_dedup t (ne_tools e')), <-Hi, <-Hi', Eit. done.
  - intros Hlen. rewrite Hjti, Hcid. by apply derived_ids_valid.
Qed.
End Identity.

(** The scope is joined with commas, so a name that holds one is ambiguous. *)
Lemma comma_ambiguous `{Sha256} cid v ttl : derive_jti cid v ["a"; "b"] ttl = derive_jti cid v ["a,b"] ttl.
Proof. reflexivity. Qed.

(** ** Witnesses *)

Module NeedExamples.
(** A digest of 64 digits: the text's own digits, and zeros. *)
#[export] Instance sha : Sha256 := λ s, String.substring 0 64 (TestSha.hex_encode s +:+ of_bytes (replicate 64 48%N)).
#[export] Instance sha_digits : Sha256Hex.
Proof.
  intros s b Hb%(prefix_bytes 64). rewrite bytes_app, elem_of_app in Hb. destruct Hb as [Hb|Hb].
  - exact (@sha256_hex_digits TestSha.sha TestSha.sha_hex s b Hb).
  - vm_compute in Hb. repeat (apply elem_of_cons in Hb as [->|Hb]; [done|]). by apply not_elem_of_nil in Hb.
Qed.
Definition offer : Offer :=
  mkOffer (mkEntityId "spiffe://bank/mcp") 3 McpTools "sha256:aa"
    [mkTerm ["get"; "list"] (mkAudience (Some "internal.*") None) PreGranted 604800 []] (mkOfferSource "bank/mcp" "abc" "sha256:bb") None None.
Definition manifest : NeedManifest := mkNeedManifest None "spiffe://bank/bot" [].
Definition asked (tools : list string) (why : string) : NeedEntry := mkNeedEntry "spiffe://bank/mcp" tools why None.
Definition tier : Tier := mkTier 2.
Definition resolved : Need := mkNeed (mkEntityId "spiffe://bank/bot") (mkEntityId "spiffe://bank/mcp") ["get"; "list"] "reconcile" DEFAULT_TTL.
Definition contract : Matched :=
  mkMatched (mkCid "conn_7370696666653a2f") (mkJti "cx_636f6e6e5f37333730363936") ["get"; "list"] 86400 3 [].
Lemma identity_is_meaning_witness :
  match_need resolved offer "internal.a" tier 5 = Grant contract ∧ ma_cid contract = ma_cid contract ∧ ma_jti contract = ma_jti contract.
Proof.
  split; [reflexivity|].
  refine (proj1 (identity_is_meaning manifest manifest (asked ["list"; "get"; "get"] "reconcile") (asked ["get"; "list"] "reconcile")
    resolved resolved offer offer "internal.a" "internal.a" tier tier 5 900 contract contract _ _ _ _) _).
  1-4: vm_compute; reflexivity.
  split; [reflexivity|]. split; [reflexivity|]. split; [reflexivity|]. split; [|reflexivity]. intros t. cbn. set_solver.
Defined.
End NeedExamples.
