(* ===== verification/Consent.v ===== *)
(** * Consent: who asked, what was merged, and who may approve it

    [crates/wc-control/src/pipeline.rs] (which pipeline is calling and what its token proves),
    [scm.rs] (asking a source host through an operator's command), [authority.rs] (consent
    evidenced by a reviewed merge) and [proposal.rs] (a proposal as a file).

    The command is a process: [ScmShim] holds what one run of it does with a query.  The typed
    readers of JSON and TOML and base64 are third-party code: the parameter [ShimCodec]. *)

From Stdlib Require Import ZArith.
From stdpp Require Import pretty.
From S2P Require Import Prelude Text Errors Model Json Canon Contract Artifact Log Store Std Policy Issuance.

(** ** Source facts and pipelines *)

Record Asserted := mkAsserted { as_repo : string; as_git_ref : string; as_sha : string }.
Inductive SourceBinding := Proven (a : Asserted) | Verified (a : Asserted) | ByAssertion (a : Asserted) | NoBinding.

Definition strength (b : SourceBinding) : N :=
  match b with Proven _ => 3 | Verified _ => 2 | ByAssertion _ => 1 | NoBinding => 0 end.
Definition meets (b floor : SourceBinding) : bool := (strength floor <=? strength b)%N.
Definition facts (b : SourceBinding) : option Asserted :=
  match b with Proven a | Verified a | ByAssertion a => Some a | NoBinding => None end.
Definition binding_sha (b : SourceBinding) : option string := as_sha <$> facts b.
Definition binding_git_ref (b : SourceBinding) : option string := as_git_ref <$> facts b.
Definition binding_repo (b : SourceBinding) : option string := as_repo <$> facts b.

Inductive Platform := GitHubActions | GitLabCi | BitbucketPipelines | AzureDevOps | GoogleCloudBuild.
Definition label (p : Platform) : string :=
  match p with
  | GitHubActions => "gh" | GitLabCi => "gl" | BitbucketPipelines => "bb" | AzureDevOps => "ado" | GoogleCloudBuild => "gcb"
  end.
Definition subject_claim (p : Platform) : string := match p with GoogleCloudBuild => "email" | _ => "sub" end.

(** A claim that is a non-empty string. *)
Definition text_claim (claims : Map) (k : string) : option string :=
  s ← v ← obj_get k claims; as_str v; if bool_decide (s = "") then None else Some s.
Definition token_facts (claims : Map) (repo_claim : string) : option Asserted :=
  match text_claim claims repo_claim, text_claim claims "ref", text_claim claims "sha" with
  | Some repo, Some git_ref, Some sha => Some (mkAsserted repo git_ref sha)
  | _, _, _ => None
  end.
Definition binding_from (p : Platform) (claims : Map) (asserted : option Asserted) : SourceBinding :=
  match p with
  | GitHubActions => match token_facts claims "repository" with Some a => Proven a | None => NoBinding end
  | GitLabCi =>
    match token_facts claims "project_path" with
    | Some a => if bool_decide ((v ← obj_get "ref_protected" claims; as_str v) = Some "true") then Proven a else ByAssertion a
    | None => NoBinding
    end
  | _ => match asserted with Some a => ByAssertion a | None => NoBinding end
  end.

Record PipelineIdentity := mkPipelineIdentity {
  pi_principal : string;
  pi_platform : Platform;
  pi_binding : SourceBinding;
  pi_authority : string
}.

Definition colon : ascii := ":"%char.
Definition has_byte (c : ascii) (s : string) : bool := existsb (N.eqb (N_of_ascii c)) (bytes s).
Definition principal_for (label subject : string) : result string :=
  guard_err (bool_decide (label = "") || has_byte colon label) CONFIG_INVALID $
  let subject := trim_text subject in
  guard_err (bool_decide (subject = "")) IDENTITY_UNVERIFIABLE $
  Ok ("urn:wc:ci:" +:+ label +:+ ":" +:+ subject).

Definition PipelineRegistry : Type := gmap string (gset string).
Definition allow (asset : EntityId) (principal : string) (r : PipelineRegistry) : PipelineRegistry :=
  <[entity_str asset := {[principal]} ∪ default ∅ (r !! entity_str asset)]> r.
Definition may_speak_for (r : PipelineRegistry) (principal : string) (asset : EntityId) : bool :=
  match (r : gmap string (gset string)) !! entity_str asset with Some set => bool_decide (principal ∈ set) | None => false end.
Definition authorise (r : PipelineRegistry) (identity : PipelineIdentity) (asset : EntityId) : result unit :=
  if may_speak_for r (pi_principal identity) asset then Ok tt else Err IDENTITY_UNVERIFIABLE.

(** [verified] is what the token's verifier answers: its claims, and the issuer it is pinned to. *)
Definition identify_oidc (verified : result Map) (issuer : string) (p : Platform) (asserted : option Asserted)
    : result PipelineIdentity :=
  let? claims := verified in
  let subject := default "" (v ← obj_get (subject_claim p) claims; as_str v) in
  let? principal := principal_for (label p) subject in
  Ok (mkPipelineIdentity principal p (binding_from p claims asserted) issuer).

(** ** Text the standard library reads *)

(** [str::split_whitespace]. *)
Fixpoint words (current : list N) (l : list N) : list (list N) :=
  let close := if bool_decide (current = []) then [] else [current] in
  match l with
  | [] => close
  | c :: l => if is_whitespace c then close ++ words [] l else words (current ++ [c]) l
  end.
Definition split_whitespace (s : string) : list string := map from_chars (words [] (chars s)).

(** [String::from_utf8_lossy]: each maximal invalid part becomes U+FFFD. *)
Definition REPLACEMENT : list N := [239; 191; 189]%N.
Definition second_of_3 (b0 b1 : N) : bool :=
  (if b0 =? 224 then (160 <=? b1) && (b1 <=? 191)
   else if b0 =? 237 then (128 <=? b1) && (b1 <=? 159) else is_cont b1)%N.
Definition second_of_4 (b0 b1 : N) : bool :=
  (if b0 =? 240 then (144 <=? b1) && (b1 <=? 191)
   else if b0 =? 244 then (128 <=? b1) && (b1 <=? 143) else is_cont b1)%N.
Fixpoint lossy (l : list N) : list N :=
  match l with
  | [] => []
  | b0 :: l0 =>
    if (b0 <? 128)%N then b0 :: lossy l0
    else if ((194 <=? b0) && (b0 <=? 223))%N then
      match l0 with
      | b1 :: l1 => if is_cont b1 then b0 :: b1 :: lossy l1 else REPLACEMENT ++ lossy l0
      | [] => REPLACEMENT
      end
    else if ((224 <=? b0) && (b0 <=? 239))%N then
      match l0 with
      | b1 :: l1 =>
        if second_of_3 b0 b1 then
          match l1 with
          | b2 :: l2 => if is_cont b2 then b0 :: b1 :: b2 :: lossy l2 else REPLACEMENT ++ lossy l1
          | [] => REPLACEMENT
          end
        else REPLACEMENT ++ lossy l0
      | [] => REPLACEMENT
      end
    else if ((240 <=? b0) && (b0 <=? 244))%N then
      match l0 with
      | b1 :: l1 =>
        if second_of_4 b0 b1 then
          match l1 with
          | b2 :: l2 =>
            if is_cont b2 then
              match l2 with
              | b3 :: l3 => if is_cont b3 then b0 :: b1 :: b2 :: b3 :: lossy l3 else REPLACEMENT ++ lossy l2
              | [] => REPLACEMENT
              end
            else REPLACEMENT ++ lossy l1
          | [] => REPLACEMENT
          end
        else REPLACEMENT ++ lossy l0
      | [] => REPLACEMENT
      end
    else REPLACEMENT ++ lossy l0
  end.
Definition from_utf8_lossy (s : string) : string := of_bytes (lossy (bytes s)).

(** ** Asking a source host *)

Record MergeEvidence := mkMergeEvidence {
  me_merged : bool;
  me_git_ref : string;
  me_protected : bool;
  me_request_id : string;
  me_author : string;
  me_approvers : list string;
  me_merged_at : N;
  me_base_sha : string
}.

Definition is_reviewed_merge (e : MergeEvidence) : bool :=
  me_merged e && me_protected e && negb (bool_decide (trim_text (me_author e) = "")) &&
  existsb (λ a, negb (bool_decide (trim_text a = "")) && negb (bool_decide (trim_text a = trim_text (me_author e)))) (me_approvers e).

(** What one run of the command came to. *)
Inductive ShimRun :=
| NotStarted
| WriteFailed                                      (* other than a broken pipe *)
| ReadFailed
| TimedOut
| ReapFailed
| Exited (code : option Z) (out : string).         (* no code when killed by a signal *)
Record ScmShim := mkScmShim { sh_label : string; sh_run : Value → ShimRun }.

Class ShimCodec := {
  evidence_from_value : Value → option MergeEvidence;
  outcome_from_value : Value → option (string * string * bool);
  std_decode : string → option string;
  std_encode : string → string;
  (** The [approval] key of a TOML text. *)
  approval_from_toml : string → option (option ApprovalBlock)
}.

Record RepoRef := mkRepoRef { rr_name : string; rr_pushed_at : option N }.
Definition changed_since (r : RepoRef) (since : option N) : bool :=
  match since, rr_pushed_at r with Some w, Some p => (w <? p)%N | _, _ => true end.

Record PrFile := mkPrFile { pf_path : string; pf_content_b64 : string }.
Record PrRequest := mkPrRequest {
  pr_repo : string;
  pr_base : string;
  pr_branch : string;
  pr_title : string;
  pr_body : string;
  pr_files : list PrFile
}.
Record PrOutcome := mkPrOutcome { po_request_id : string; po_url : string; po_created : bool }.

Section Scm.
Context `{SerdeParse, ShimCodec}.

(** [ScmShim::parse]: the label and the words of the command. *)
Definition ScmShim_parse (name command : string) : result (string * string * list string) :=
  guard_err (bool_decide (trim_text name = "")) CONFIG_INVALID $
  match split_whitespace command with
  | [] => Err CONFIG_INVALID
  | program :: args => Ok (trim_text name, program, args)
  end.

Definition ask (shim : ScmShim) (query : Value) : result Value :=
  match sh_run shim query with
  | NotStarted => Err CONFIG_INVALID
  | WriteFailed | ReadFailed | TimedOut | ReapFailed => Err IDENTITY_UNVERIFIABLE
  | Exited code out =>
    if bool_decide (code = Some 0%Z) then
      let trimmed := trim_text out in
      guard_err (bool_decide (trimmed = "")) IDENTITY_UNVERIFIABLE $
      ok_or (from_slice trimmed) IDENTITY_UNVERIFIABLE
    else if bool_decide (code = Some 126%Z) || bool_decide (code = Some 127%Z) then Err CONFIG_INVALID
    else Err IDENTITY_UNVERIFIABLE
  end.

Definition merge_evidence (shim : ScmShim) (repo sha : string) : result MergeEvidence :=
  let? answer := ask shim (json_object [("op", VString "merge_evidence"); ("repo", VString repo); ("sha", VString sha)]) in
  ok_or (evidence_from_value answer) IDENTITY_UNVERIFIABLE.

Definition file_query (repo sha path : string) : Value :=
  json_object [("op", VString "file"); ("repo", VString repo); ("sha", VString sha); ("path", VString path)].
Definition is_absent (answer : Value) : bool := default false (v ← vget "absent" answer; as_bool v).
Definition content (answer : Value) : result string :=
  let? b64 := ok_or (v ← vget "content_b64" answer; as_str v) IDENTITY_UNVERIFIABLE in
  ok_or (std_decode b64) IDENTITY_UNVERIFIABLE.
Definition file (shim : ScmShim) (repo sha path : string) : result string :=
  let? answer := ask shim (file_query repo sha path) in
  guard_err (is_absent answer) IDENTITY_UNVERIFIABLE $
  content answer.
Definition file_if_present (shim : ScmShim) (repo sha path : string) : result (option string) :=
  let? answer := ask shim (file_query repo sha path) in
  if is_absent answer then Ok None else let? bytes := content answer in Ok (Some bytes).

Definition repo_of (v : Value) : result RepoRef :=
  match as_str v with
  | Some name => Ok (mkRepoRef name None)
  | None =>
    let? name := ok_or (n ← vget "name" v; as_str n) IDENTITY_UNVERIFIABLE in
    Ok (mkRepoRef name (p ← vget "pushed_at" v; as_u64 p))
  end.
Definition repos_with_cursor (shim : ScmShim) (org : string) : result (list RepoRef) :=
  let? answer := ask shim (json_object [("op", VString "repos"); ("org", VString org)]) in
  let? l := ok_or (v ← vget "repos" answer; as_array v) IDENTITY_UNVERIFIABLE in
  mapR repo_of l.
Definition repos (shim : ScmShim) (org : string) : result (list string) :=
  let? l := repos_with_cursor shim org in Ok (map rr_name l).
Definition search_path (shim : ScmShim) (org path : string) : result (option (list string)) :=
  let? answer := ask shim (json_object [("op", VString "search"); ("org", VString org); ("path", VString path)]) in
  if default false (v ← vget "unsupported" answer; as_bool v) then Ok None
  else
    let? l := ok_or (v ← vget "repos" answer; as_array v) IDENTITY_UNVERIFIABLE in
    let? names := mapR (λ v, ok_or (as_str v) IDENTITY_UNVERIFIABLE) l in
    Ok (Some (filterb (λ n, negb (bool_decide (n = ""))) (map trim_text names))).

Definition PrFile_new (path bytes : string) : PrFile := mkPrFile path (std_encode bytes).
Definition file_value (f : PrFile) : Value :=
  json_object [("path", VString (pf_path f)); ("content_b64", VString (pf_content_b64 f))].
Definition pr_value (r : PrRequest) : Value :=
  json_object
    [("repo", VString (pr_repo r)); ("base", VString (pr_base r)); ("branch", VString (pr_branch r));
     ("title", VString (pr_title r)); ("body", VString (pr_body r)); ("files", VArray (map file_value (pr_files r)));
     ("op", VString "open_pr")].
Definition open_pr (shim : ScmShim) (r : PrRequest) : result PrOutcome :=
  let? answer := map_err (λ _, EXPORT_FAILED) (ask shim (pr_value r)) in
  let? o := ok_or (outcome_from_value answer) EXPORT_FAILED in
  let '(id, url, created) := o in
  guard_err (bool_decide (trim_text id = "")) IDENTITY_UNVERIFIABLE $
  Ok (mkPrOutcome id url created).

Definition checked_evidence (shim : ScmShim) (asserted : Asserted) : result MergeEvidence :=
  let? evidence := merge_evidence shim (as_repo asserted) (as_sha asserted) in
  guard_err (negb (bool_decide (me_git_ref evidence = as_git_ref asserted))) IDENTITY_UNVERIFIABLE $
  guard_err (negb (is_reviewed_merge evidence)) IDENTITY_UNVERIFIABLE $
  Ok evidence.
Definition verify_binding (shim : ScmShim) (asserted : Asserted) : result SourceBinding :=
  let? _ := checked_evidence shim asserted in Ok (Verified asserted).
End Scm.

(** ** Consent *)

Record ManifestBinding := mkManifestBinding { mb_path : string; mb_digest : string }.

(** [d.trim().trim_start_matches("human:").eq_ignore_ascii_case(a)] for one declared name. *)
Definition names_person (a d : string) : bool := eq_ignore_ascii_case (bare_name d) (bare_name a).
Definition declared (b : ApprovalBlock) (who : list string) : list string :=
  filterb (λ a, negb (bool_decide (bare_name a = "")) && existsb (names_person a) (ab_approvers b)) who.
Definition block_is_empty (b : ApprovalBlock) : bool := forallb (λ a, bool_decide (trim_text a = "")) (ab_approvers b).

Section Authority.
Context `{SerdeParse, ShimCodec, Sha256}.

Definition digest_of_text (text : string) : string := "sha256:" +:+ sha256_hex text.
Definition ManifestBinding_of (path text : string) : ManifestBinding := mkManifestBinding path (digest_of_text text).

Record ScmMerge := mkScmMerge { sm_shim : ScmShim; sm_bootstrap : option string }.

Definition declared_approvers (a : ScmMerge) (repo base_sha path : string) : result (option ApprovalBlock) :=
  let? bytes := file_if_present (sm_shim a) repo base_sha path in
  match bytes with
  | None => Ok None
  | Some bytes => ok_or (approval_from_toml (from_utf8_lossy bytes)) APPROVER_NOT_DECLARED
  end.

(** The list that governs: the declared one, or the registry owner where none is declared. *)
Definition governing_block (bootstrap : option string) (block : option ApprovalBlock) : result ApprovalBlock :=
  match block with
  | Some b => Ok b
  | None =>
    match bootstrap with
    | Some owner => guard_err (bool_decide (trim_text owner = "")) APPROVER_NOT_DECLARED $ Ok (mkApprovalBlock [owner] 1)
    | None => Err APPROVER_NOT_DECLARED
    end
  end.

Definition consent (a : ScmMerge) (side : Side) (asserted : Asserted) (manifest : ManifestBinding) : result MergeApproval :=
  let? evidence := checked_evidence (sm_shim a) asserted in
  let? reviewed := file (sm_shim a) (as_repo asserted) (as_sha asserted) (mb_path manifest) in
  guard_err (negb (bool_decide (digest_of_text (from_utf8_lossy reviewed) = mb_digest manifest))) APPROVAL_SIGNATURE_INVALID $
  guard_err (bool_decide (trim_text (me_base_sha evidence) = "")) APPROVER_NOT_DECLARED $
  let? block := declared_approvers a (as_repo asserted) (me_base_sha evidence) (mb_path manifest) in
  let? governing := governing_block (sm_bootstrap a) block in
  guard_err (block_is_empty governing) APPROVER_NOT_DECLARED $
  let signed := declared governing (me_approvers evidence) in
  guard_err (len signed <? ab_min governing)%N
    (if bool_decide (signed = []) then APPROVER_NOT_DECLARED else APPROVAL_QUORUM_MISSING) $
  Ok (mkMergeApproval side (as_repo asserted) (as_sha asserted) (me_request_id evidence) (me_author evidence)
        (me_approvers evidence) (sh_label (sm_shim a)) (bool_decide (block = None))).
End Authority.

(** ** Proposals *)

Definition DEFAULT_TTL_SECS : N := 86400.
Record Proposal := mkProposal {
  pp_caller : string;
  pp_callee : string;
  pp_tools : list string;
  pp_justify : string;
  pp_ttl : option N;
  pp_ticket : option string
}.
Class ProposalToml := proposal_from_toml : string → option Proposal.

Definition validate_proposal (p : Proposal) : result unit :=
  guard_err (bool_decide (pp_tools p = [])) SURFACE_NOT_SUBSET $
  guard_err (str_len (trim_text (pp_justify p)) <? 12)%N POLICY_INVALID $
  let? _ := EntityId_new (pp_caller p) in
  let? _ := EntityId_new (pp_callee p) in
  Ok tt.
Definition Proposal_parse `{ProposalToml} (text : string) : result Proposal :=
  let? p := ok_or (proposal_from_toml text) POLICY_INVALID in
  let? _ := validate_proposal p in
  Ok p.
Definition proposal_ttl (p : Proposal) : N := default DEFAULT_TTL_SECS (pp_ttl p).
Definition proposal_items (p : Proposal) : list string := sort_dedup (pp_tools p).

(** ** Lemmas *)

Lemma ok_or_ok_eq {A E} (o : option A) (e : E) a : ok_or o e = Ok a → o = Some a.
Proof. by intros ?%ok_or_ok. Qed.

Lemma string_prefix_inj p s t : p +:+ s = p +:+ t → s = t.
Proof. intros E. apply bytes_inj. apply (f_equal bytes) in E. rewrite !bytes_app in E. by apply app_inv_head in E. Qed.

Lemma has_byte_spec c s : has_byte c s = false ↔ no_byte c s.
Proof.
  unfold has_byte, no_byte. rewrite existsb_False. split.
  - intros Hall Hin. specialize (Hall _ Hin). bool_facts. done.
  - intros Hno x Hx. destruct (N.eqb_spec (N_of_ascii c) x) as [<-|]; done.
Qed.

Lemma principal_for_ok l s p : principal_for l s = Ok p ↔
  l ≠ "" ∧ no_byte colon l ∧ trim_text s ≠ "" ∧ p = "urn:wc:ci:" +:+ l +:+ ":" +:+ trim_text s.
Proof.
  unfold principal_for. cbv zeta. rewrite !guard_err_ok, orb_false_iff, !bool_decide_eq_false, has_byte_spec. naive_solver.
Qed.
Lemma label_inj p p' : label p = label p' → p = p'.
Proof. by destruct p, p'. Qed.
Lemma label_plain p : no_byte colon (label p).
Proof. apply has_byte_spec. by destruct p. Qed.

Lemma byte_split c l l' s s' : no_byte c l → no_byte c l' → l +:+ String c s = l' +:+ String c s' → l = l' ∧ s = s'.
Proof.
  intros Hl Hl' E. pose proof (f_equal (split_on c) E) as Es. rewrite !split_on_app in Es by done. injection Es as -> Es.
  split; [done|]. apply string_prefix_inj in E. by injection E.
Qed.
Lemma colon_split l l' s s' : no_byte colon l → no_byte colon l' → l +:+ ":" +:+ s = l' +:+ ":" +:+ s' → l = l' ∧ s = s'.
Proof. apply (byte_split colon). Qed.

(** ** Who is calling *)

(** A pipeline's principal names one platform and one subject.  Two verified tokens with one
    principal come from the same platform and carry the same subject, so no platform's pipeline
    passes for another's; the facts recorded as proven are those of the token, whatever the
    caller asserts, and a caller's assertion alone is never recorded as more than an
    assertion. *)
Theorem principal_identifies_pipeline v v' iss iss' p p' a a' i i' :
  identify_oidc v iss p a = Ok i → identify_oidc v' iss' p' a' = Ok i' →
  (pi_principal i = pi_principal i' → p = p' ∧ ∃ claims claims' s s', v = Ok claims ∧ v' = Ok claims' ∧
     default "" (x ← obj_get (subject_claim p) claims; as_str x) = s ∧
     default "" (x ← obj_get (subject_claim p) claims'; as_str x) = s' ∧ trim_text s = trim_text s' ∧ trim_text s ≠ "") ∧
  (strength (pi_binding i) = 3%N → ∃ claims facts repo_claim, v = Ok claims ∧ pi_binding i = Proven facts ∧
     token_facts claims repo_claim = Some facts ∧ ∀ a2 i2, identify_oidc v iss p a2 = Ok i2 → i2 = i).
Proof.
  unfold identify_oidc. rewrite !result_bind_ok. setoid_rewrite result_bind_ok.
  intros (cl & -> & pr & Hp & [= <-]) (cl' & -> & pr' & Hp' & [= <-]). cbn [pi_principal pi_binding].
  apply principal_for_ok in Hp as (_ & Hn & Hs & ->). apply principal_for_ok in Hp' as (_ & Hn' & Hs' & ->). split.
  - intros E. apply string_prefix_inj in E. apply colon_split in E as [El%label_inj Es]; [|done|done]. subst p'. split; [done|].
    exists cl, cl', (default "" (x ← obj_get (subject_claim p) cl; as_str x)),
      (default "" (x ← obj_get (subject_claim p) cl'; as_str x)). done.
  - intros H3.
    assert (∃ facts rc, binding_from p cl a = Proven facts ∧ token_facts cl rc = Some facts ∧ ∀ a2, binding_from p cl a2 = binding_from p cl a)
      as (facts & rc & Hb & Hf & Hsame).
    { destruct p; cbn [binding_from] in *; try (by destruct a).
      - destruct (token_facts cl "repository") as [f|] eqn:E; [by exists f, "repository"|done].
      - destruct (token_facts cl "project_path") as [f|] eqn:E; [|done].
        destruct (bool_decide _); [by exists f, "project_path"|done]. }
    exists cl, facts, rc. split; [done|]. split; [done|]. split; [done|]. intros a2 i2 (c2 & [= <-] & H2). apply result_bind_ok in H2 as (p2 & Hp2 & [= <-]).
    apply principal_for_ok in Hp2 as (_ & _ & _ & ->). by rewrite Hsame.
Qed.

(** ** What a consent establishes *)

Section Consent.
Context `{SerdeParse, ShimCodec, Sha256}.

(** An approver who is not the author, as the host spells them. *)
Definition reviewed_by_another (author : string) (approvers : list string) : Prop :=
  trim_text author ≠ "" ∧ ∃ x, x ∈ approvers ∧ trim_text x ≠ "" ∧ trim_text x ≠ trim_text author.

Lemma is_reviewed_merge_spec e :
  is_reviewed_merge e = true ↔ me_merged e = true ∧ me_protected e = true ∧ reviewed_by_another (me_author e) (me_approvers e).
Proof.
  unfold is_reviewed_merge, reviewed_by_another. rewrite !andb_true_iff, negb_true_iff, bool_decide_eq_false, existsb_True.
  setoid_rewrite andb_true_iff. setoid_rewrite negb_true_iff. setoid_rewrite bool_decide_eq_false. tauto.
Qed.
Lemma checked_evidence_ok shim asserted e :
  checked_evidence shim asserted = Ok e ↔
  merge_evidence shim (as_repo asserted) (as_sha asserted) = Ok e ∧ me_git_ref e = as_git_ref asserted ∧ is_reviewed_merge e = true.
Proof.
  unfold checked_evidence. rewrite result_bind_ok. split.
  - intros (e' & He & Hx). rewrite !guard_err_ok, !negb_false_iff, bool_decide_eq_true in Hx. by destruct Hx as (Href & Hrev & [= <-]).
  - intros (He & Href & Hrev). exists e. split; [done|]. rewrite !guard_err_ok, !negb_false_iff, bool_decide_eq_true. done.
Qed.

(** The list the change is governed by, as it stood on the base commit. *)
Definition governs (a : ScmMerge) (repo base path : string) (b : ApprovalBlock) (bootstrap : bool) : Prop :=
  ∃ block, declared_approvers a repo base path = Ok block ∧
    match block with
    | Some b' => b = b' ∧ bootstrap = false
    | None => ∃ owner, sm_bootstrap a = Some owner ∧ trim_text owner ≠ "" ∧ b = mkApprovalBlock [owner] 1 ∧ bootstrap = true
    end.
Lemma governing_block_ok owner block b :
  governing_block owner block = Ok b ↔
  match block with
  | Some b' => b = b'
  | None => ∃ o, owner = Some o ∧ trim_text o ≠ "" ∧ b = mkApprovalBlock [o] 1
  end.
Proof.
  unfold governing_block. destruct block as [b'|]; [naive_solver|]. destruct owner as [o|]; [|naive_solver].
  rewrite guard_err_ok, bool_decide_eq_false. naive_solver.
Qed.

Lemma consent_ok a side asserted manifest m :
  consent a side asserted manifest = Ok m ↔
  ∃ e reviewed b, checked_evidence (sm_shim a) asserted = Ok e ∧
    file (sm_shim a) (as_repo asserted) (as_sha asserted) (mb_path manifest) = Ok reviewed ∧
    digest_of_text (from_utf8_lossy reviewed) = mb_digest manifest ∧ trim_text (me_base_sha e) ≠ "" ∧
    governs a (as_repo asserted) (me_base_sha e) (mb_path manifest) b (merge_bootstrap m) ∧ block_is_empty b = false ∧
    (ab_min b ≤ len (declared b (me_approvers e)))%N ∧
    m = mkMergeApproval side (as_repo asserted) (as_sha asserted) (me_request_id e) (me_author e) (me_approvers e)
          (sh_label (sm_shim a)) (merge_bootstrap m).
Proof.
  unfold consent. cbv zeta. split.
  - intros (e & He & Hx)%result_bind_ok. apply result_bind_ok in Hx as (r & Hr & Hx). rewrite !guard_err_ok in Hx.
    destruct Hx as (Hd & Hb & Hx). apply result_bind_ok in Hx as (block & Hblock & Hx). apply result_bind_ok in Hx as (b & Hg & Hx).
    rewrite !guard_err_ok in Hx. destruct Hx as (Hne & Hq & [= <-]). bool_facts. exists e, r, b. cbn [merge_bootstrap].
    apply governing_block_ok in Hg. repeat (split; [done|]). split; [|done]. exists block. split; [done|].
    destruct block as [b'|]; [split; [done|by apply bool_decide_eq_false]|]. destruct Hg as (o & Ho & Hne' & ->). by exists o.
  - intros (e & r & b & -> & Hr & Hd & Hb & (block & Hblock & Hg) & Hne & Hq & Hm). cbn [result_bind]. rewrite Hr. cbn [result_bind].
    rewrite guard_err_ok, negb_false_iff, bool_decide_eq_true. split; [done|]. rewrite guard_err_ok, bool_decide_eq_false. split; [done|].
    rewrite Hblock. cbn [result_bind].
    assert (governing_block (sm_bootstrap a) block = Ok b ∧ bool_decide (block = None) = merge_bootstrap m) as [-> Hbs].
    { rewrite governing_block_ok. destruct block as [b'|].
      - destruct Hg as [-> ->]. by rewrite bool_decide_eq_false_2.
      - destruct Hg as (o & Ho & Hne' & -> & ->). split; [by exists o|]. by apply bool_decide_eq_true. }
    cbn [result_bind]. rewrite !guard_err_ok. split; [done|]. split; [by apply N.ltb_ge|]. by rewrite Hbs, <-Hm.
Qed.

Lemma declared_elem b who x : x ∈ declared b who ↔ x ∈ who ∧ bare_name x ≠ "" ∧ ∃ d, d ∈ ab_approvers b ∧ names_person x d = true.
Proof. unfold declared. rewrite elem_of_filterb, andb_true_iff, negb_true_iff, bool_decide_eq_false, existsb_True. naive_solver. Qed.
Lemma declared_nonempty b who : (1 ≤ len (declared b who))%N → ∃ x, x ∈ declared b who.
Proof. destruct (declared b who) as [|x l]; unfold len; simpl; [lia|]. intros _. exists x. by left. Qed.

(** Two hosts that answer alike but for one file. *)
Definition differ_only_in (q : Value) (s s' : ScmShim) : Prop := sh_label s = sh_label s' ∧ ∀ x, x ≠ q → sh_run s x = sh_run s' x.

Lemma ask_ext s s' q : sh_run s q = sh_run s' q → ask s q = ask s' q.
Proof. intros E. unfold ask. by rewrite E. Qed.
Lemma evidence_query_not_file repo sha repo' sha' path' :
  json_object [("op", VString "merge_evidence"); ("repo", VString repo); ("sha", VString sha)] ≠ file_query repo' sha' path'.
Proof. intros [=]. Qed.
Lemma file_query_sha repo sha path repo' sha' path' : file_query repo sha path = file_query repo' sha' path' → sha = sha'.
Proof. by intros [=]. Qed.

(** C9: what a consent establishes.  The commit was merged onto the guarded ref that was
    asserted, by a change with a named author and an approver spelled otherwise; what was
    reviewed there is the text being acted on, up to a digest collision; and at least the
    number demanded of the names that approved are on the list that stood on the base commit --
    or, only where none stood there, name the registry's owner.  The list in the change itself
    decides nothing: a host that differs only in the reviewed file gives the same consent to
    that file's text. *)
Theorem consent_establishes a side asserted path text m :
  consent a side asserted (ManifestBinding_of path text) = Ok m →
  (∃ e b, merge_evidence (sm_shim a) (as_repo asserted) (as_sha asserted) = Ok e ∧
     me_merged e = true ∧ me_protected e = true ∧ me_git_ref e = as_git_ref asserted ∧
     governs a (as_repo asserted) (me_base_sha e) path b (merge_bootstrap m) ∧ block_is_empty b = false ∧
     (ab_min b ≤ len (declared b (merge_approvers m)))%N ∧
     ((1 ≤ ab_min b)%N → ∃ x d, x ∈ merge_approvers m ∧ d ∈ ab_approvers b ∧ names_person x d = true) ∧
     (me_base_sha e ≠ as_sha asserted → ∀ shim text',
        differ_only_in (file_query (as_repo asserted) (as_sha asserted) path) (sm_shim a) shim →
        (∃ bytes, file shim (as_repo asserted) (as_sha asserted) path = Ok bytes ∧ from_utf8_lossy bytes = text') →
        consent (mkScmMerge shim (sm_bootstrap a)) side asserted (ManifestBinding_of path text') = Ok m)) ∧
  (∃ bytes, file (sm_shim a) (as_repo asserted) (as_sha asserted) path = Ok bytes ∧ (from_utf8_lossy bytes = text ∨ sha256_collision)) ∧
  reviewed_by_another (merge_author m) (merge_approvers m) ∧
  merge_side m = side ∧ merge_repo m = as_repo asserted ∧ merge_sha m = as_sha asserted.
Proof.
  intros (e & r & b & He & Hr & Hd & Hb & Hg & Hne & Hq & Hm)%consent_ok. cbn [mb_path mb_digest ManifestBinding_of] in *.
  pose proof He as (Hme & Href & (Hmerged & Hprot & Hrev)%is_reviewed_merge_spec)%checked_evidence_ok.
  split; [|split; [|rewrite Hm; done]].
  - exists e, b. do 6 (split; [done|]). assert (merge_approvers m = me_approvers e) as Ea by (by rewrite Hm). rewrite Ea.
    split; [done|]. split.
    { intros Hmin. destruct (declared_nonempty b (me_approvers e)) as [x (Hx & _ & d & Hd1 & Hd2)%declared_elem]; [lia|]. by exists x, d. }
    intros Hbase shim text' [Hl Hrun] (bytes & Hfile & <-). apply consent_ok. exists e, bytes, b. cbn [sm_shim sm_bootstrap mb_path mb_digest ManifestBinding_of].
    split.
    { apply checked_evidence_ok. split; [|split; [done|apply is_reviewed_merge_spec; done]]. rewrite <-Hme. unfold merge_evidence.
      erewrite ask_ext; [done|]. symmetry. apply Hrun, evidence_query_not_file. }
    split; [done|]. split; [done|]. split; [done|]. split.
    { destruct Hg as (block & Hblock & Hg). exists block. split; [|done]. rewrite <-Hblock. unfold declared_approvers, file_if_present. cbn [sm_shim].
      erewrite ask_ext; [done|]. symmetry. apply Hrun. intros E%file_query_sha. by destruct Hbase. }
    split; [done|]. split; [done|]. by rewrite <-Hl.
  - exists r. split; [done|]. unfold digest_of_text in Hd. apply string_prefix_inj in Hd.
    destruct (decide (from_utf8_lossy r = text)) as [|Hneq]; [by left|right]. by exists (from_utf8_lossy r), text.
Qed.
End Consent.

(** ** Witnesses *)

Module ConsentExamples.
Definition evidence : list MergeEvidence :=
  [mkMergeEvidence true "refs/heads/main" true "7" "bob" ["priya"] 5 "base";
   mkMergeEvidence true "refs/heads/main" true "8" "Priya" ["priya"; "human:priya"] 5 "base"].
Definition two : ApprovalBlock := mkApprovalBlock ["priya"; "sam"] 2.
#[export] Instance parse : SerdeParse := λ s,
  if bool_decide (s = "e0") then Some (VNumber (PosInt 0))
  else if bool_decide (s = "e1") then Some (VNumber (PosInt 1))
  else Some (VObject [("content_b64", VString s)]).
#[export] Instance codec : ShimCodec := {
  evidence_from_value v := n ← as_u64 v; evidence !! N.to_nat n;
  outcome_from_value _ := None;
  std_decode := Some;
  std_encode := id;
  approval_from_toml s := Some (if bool_decide (s = "two") then Some two else Some (mkApprovalBlock ["human:Priya"] 1))
}.
#[export] Instance sha : Sha256 := TestSha.hex_encode.

(** A host that answers a commit's evidence with [e], [text] at the commit and [old] at its base. *)
Definition host (e text old : string) : ScmShim := mkScmShim "scm" (λ q,
  let out := if bool_decide ((v ← vget "op" q; as_str v) = Some "merge_evidence") then e
             else if bool_decide ((v ← vget "sha" q; as_str v) = Some "base") then old else text in
  Exited (Some 0%Z) out).
Definition asserted : Asserted := mkAsserted "bank/agent" "refs/heads/main" "abc".
Definition given : MergeApproval := mkMergeApproval Source "bank/agent" "abc" "7" "bob" ["priya"] "scm" false.

Lemma consent_establishes_witness :
  consent (mkScmMerge (host "e0" "text" "one") None) Source asserted (ManifestBinding_of "needs.toml" "text") = Ok given ∧
  reviewed_by_another "bob" ["priya"].
Proof.
  split; [reflexivity|].
  refine (proj1 (proj2 (proj2 (consent_establishes (mkScmMerge (host "e0" "text" "one") None) Source asserted "needs.toml" "text" given _)))).
  reflexivity.
Defined.

(** The quorum counts spellings, not people: one person, whom the host lists twice, meets a
    quorum of two, and approves their own change under another spelling of the author's name. *)
Lemma one_person_is_a_quorum :
  is_ok (consent (mkScmMerge (host "e1" "text" "two") None) Target asserted (ManifestBinding_of "offer.toml" "text")) = true ∧
  ∃ e, evidence !! 1%nat = Some e ∧ ∀ x, x ∈ me_approvers e → names_person x (me_author e) = true.
Proof.
  split; [vm_compute; reflexivity|]. eexists. split; [reflexivity|]. cbn [me_approvers me_author].
  intros x [->|[->|Hx]%elem_of_cons]%elem_of_cons; [vm_compute; reflexivity..|by apply not_elem_of_nil in Hx].
Qed.

Definition claims : Map := [("ref", VString "refs/heads/main"); ("repository", VString "o/r"); ("sha", VString "abc"); ("sub", VString "repo:o/r")].
Definition pipeline : PipelineIdentity :=
  mkPipelineIdentity "urn:wc:ci:gh:repo:o/r" GitHubActions (Proven (mkAsserted "o/r" "refs/heads/main" "abc")) "issuer".
Lemma principal_identifies_pipeline_witness :
  identify_oidc (Ok claims) "issuer" GitHubActions (Some asserted) = Ok pipeline ∧ GitHubActions = GitHubActions.
Proof.
  split; [vm_compute; reflexivity|].
  refine (proj1 (proj1 (principal_identifies_pipeline (Ok claims) (Ok claims) "issuer" "issuer" GitHubActions GitHubActions
    (Some asserted) None pipeline pipeline _ _) _)); vm_compute; reflexivity.
Defined.
End ConsentExamples.
