(* ===== verification/Attest.v ===== *)
(** * Attest: the verifiers behind admission's proofs ([crates/wc-control/src/attest.rs]), the
    signer of a surface ([offer.rs], [attest_surface]) and the set of verifiers a registration is
    judged by ([wc-cli/src/main.rs], [admit_and_record])

    Identity by a JWT-SVID or an OIDC token, a card by a detached signature, provenance by a
    DSSE envelope around an in-toto statement.  The JOSE library, base64 and serde's readers are
    the parameters [Jose] and [AttestCodec]; the claim checks asked of [jsonwebtoken] are a
    [Validation].  What is relied on of them is [AttestLaws].  The [method] of a proof is prose. *)

From stdpp Require Import pretty.
From S2P Require Import Rekor.
From S2P Require Import Prelude Text Errors Model Json Canon Contract Artifact Store Std Consent Admission.

(** ** Tokens and envelopes as data *)

Record SvidClaims := mkSvidClaims { sv_sub : string; sv_exp : N; sv_nbf : option N }.
Record OidcClaims := mkOidcClaims { oc_exp : N; oc_nbf : option N; oc_rest : Map }.
(** [jsonwebtoken::Validation], with the expiry and not-before checks off. *)
Record Validation := mkValidation { vd_alg : Algorithm; vd_audience : string; vd_issuer : option string; vd_required : list string }.
Record CardSignature := mkCardSignature { cs_protected : string; cs_signature : string }.
Record DsseSignature := mkDsseSignature { ds_keyid : string; ds_sig : string }.
Record DsseEnvelope := mkDsseEnvelope { de_payload : string; de_payload_type : string; de_signatures : list DsseSignature }.

Class AttestCodec `{Jose} := {
  (** [jsonwebtoken::crypto::verify]: the signature's base64url text, the message. *)
  crypto_verify : string → string → DecodingKey → Algorithm → option bool;
  (** base64's [STANDARD] decoder. *)
  b64_standard : string → option string;
  (** [jsonwebtoken::decode::<SvidClaims>] and [::<OidcClaims>]. *)
  svid_decode : Validation → string → DecodingKey → option SvidClaims;
  oidc_decode : Validation → string → DecodingKey → option OidcClaims;
  (** [from_value::<Vec<CardSignature>>] and [::<DsseEnvelope>]. *)
  card_signatures_from_value : Value → option (list CardSignature);
  dsse_from_value : Value → option DsseEnvelope
}.

Definition IN_TOTO_STATEMENT_V1 : string := "https://in-toto.io/Statement/v1".
Definition IN_TOTO_STATEMENT_V01 : string := "https://in-toto.io/Statement/v0.1".
Definition DSSE_PAYLOAD_TYPE : string := "application/vnd.in-toto+json".
Definition SLSA_PROVENANCE_PREFIX : string := "https://slsa.dev/provenance/".
Definition CARD_SIGNATURES_FIELD : string := "signatures".

(** DSSE's pre-authentication encoding: lengths are of bytes. *)
Definition pae (payload_type payload : string) : string :=
  "DSSEv1 " +:+ pretty (str_len payload_type) +:+ " " +:+ payload_type +:+ " " +:+ pretty (str_len payload) +:+ " " +:+ payload.
Definition coord_len (alg : Algorithm) : nat := match alg with ES384 => 48 | _ => 32 end.

(** [Map::remove]. *)
Fixpoint obj_remove {A} (k : string) (m : list (string * A)) : list (string * A) :=
  match m with
  | [] => []
  | e :: m => if bool_decide (e.1 = k) then m else e :: obj_remove k m
  end.

(** ** Shared helpers *)

Section Verifiers.
Context `{AttestCodec, !SerdeParse, !SerdeJson, !Nfc, !Sha256, !CharTables}.

Definition b64url (segment : string) : result string := ok_or (b64url_decode segment) SIGNATURE_INVALID.
Definition b64std (text : string) : result string := ok_or (b64_standard (trim_text text)) PROVENANCE_UNVERIFIABLE.
Definition text_of (field : string) (m : Map) : option string := v ← obj_get field m; as_str v.
Definition protected_header (segment : string) (code : Code) : result Map :=
  let? raw := b64url segment in
  ok_or (match from_slice raw with Some (VObject m) => Some m | _ => None end) code.
Definition checked_alg (header : Map) (registered : Algorithm) (code : Code) : result unit :=
  let? alg := ok_or (text_of "alg" header) code in
  guard_err (negb (str_in alg ACCEPTED_ALG_NAMES)) ALG_NOT_ASYMMETRIC $
  guard_err (negb (bool_decide (alg = alg_name registered))) code $ Ok tt.
Definition no_keys (keys : IssuerKeys) : bool := bool_decide (size (keys : gmap string (Algorithm * DecodingKey)) = 0%nat).
(** The trusted key a header's [kid] names, for the algorithm the header names. *)
Definition named_key (keys : IssuerKeys) (header : Map) (code : Code) : result (string * (Algorithm * DecodingKey)) :=
  let? kid := ok_or (text_of "kid" header) code in
  let? k := ok_or (keys !! kid) code in
  let? _ := checked_alg header k.1 code in
  Ok (kid, k).
(** The window: [exp] and [nbf] against the injected clock. *)
Definition in_time (now leeway exp : N) (nbf : option N) : bool :=
  (now <? saturating_add_u64 exp leeway)%N &&
  match nbf with Some nbf => (nbf <=? saturating_add_u64 now leeway)%N | None => true end.

(** ** Stage 1: identity *)

Record JwtSvidIdentity := mkJwtSvidIdentity { ji_keys : IssuerKeys; ji_audience : string; ji_token : string; ji_leeway : N; ji_now : N }.
Definition svid_authenticate (i : JwtSvidIdentity) : result string :=
  guard_err (bool_decide (trim_text (ji_audience i) = "")) CONFIG_INVALID $
  guard_err (no_keys (ji_keys i)) IDENTITY_UNVERIFIABLE $
  let? header := protected_header (default "" (head (split_on dot (ji_token i)))) IDENTITY_UNVERIFIABLE in
  let? k := named_key (ji_keys i) header IDENTITY_UNVERIFIABLE in
  let? claims := ok_or (svid_decode (mkValidation k.2.1 (ji_audience i) None ["exp"; "aud"; "sub"]) (ji_token i) k.2.2) IDENTITY_UNVERIFIABLE in
  guard_err (negb (in_time (ji_now i) (ji_leeway i) (sv_exp claims) (sv_nbf claims))) IDENTITY_UNVERIFIABLE $
  guard_err (negb (starts_with "spiffe://" (sv_sub claims))) IDENTITY_UNVERIFIABLE $
  Ok (sv_sub claims).
Definition svid_identity (i : JwtSvidIdentity) (req : AdmissionRequest) : result IdentityProof :=
  let? authenticated := svid_authenticate i in
  guard_err (match ar_id req with Some claimed => negb (bool_decide (entity_str claimed = authenticated)) | None => false end)
    IDENTITY_UNVERIFIABLE $
  let? id := EntityId_new authenticated in
  Ok (mkIdentityProof id true).

Record OidcIdentity := mkOidcIdentity {
  oi_keys : IssuerKeys;
  oi_issuer : string;
  oi_label : string;
  oi_audience : string;
  oi_subject_claim : string;
  oi_token : string;
  oi_leeway : N;
  oi_now : N
}.
Definition entity_id_for (label subject : string) : result EntityId :=
  EntityId_new ("urn:wc:oidc:" +:+ label +:+ ":" +:+ subject).
Definition blank (s : string) : bool := bool_decide (trim_text s = "").
Definition check_config (i : OidcIdentity) : result unit :=
  guard_err (blank (oi_audience i)) CONFIG_INVALID $
  guard_err (blank (oi_issuer i)) CONFIG_INVALID $
  guard_err (blank (oi_label i)) CONFIG_INVALID $
  guard_err (has_byte colon (oi_label i)) CONFIG_INVALID $
  guard_err (blank (oi_subject_claim i)) CONFIG_INVALID $
  guard_err (no_keys (oi_keys i)) IDENTITY_UNVERIFIABLE $
  Ok tt.
Definition verified_claims (i : OidcIdentity) : result Map :=
  let? _ := check_config i in
  let? header := protected_header (default "" (head (split_on dot (oi_token i)))) IDENTITY_UNVERIFIABLE in
  let? k := named_key (oi_keys i) header IDENTITY_UNVERIFIABLE in
  let? claims := ok_or (oidc_decode (mkValidation k.2.1 (oi_audience i) (Some (oi_issuer i)) ["exp"; "aud"; "iss"]) (oi_token i) k.2.2)
                   IDENTITY_UNVERIFIABLE in
  guard_err (negb (in_time (oi_now i) (oi_leeway i) (oc_exp claims) (oc_nbf claims))) IDENTITY_UNVERIFIABLE $
  Ok (oc_rest claims).
Definition oidc_authenticate (i : OidcIdentity) : result EntityId :=
  let? claims := verified_claims i in
  let? subject := ok_or (text_of (oi_subject_claim i) claims) IDENTITY_UNVERIFIABLE in
  guard_err (blank subject) IDENTITY_UNVERIFIABLE $
  entity_id_for (oi_label i) (trim_text subject).
Definition oidc_identity (i : OidcIdentity) (req : AdmissionRequest) : result IdentityProof :=
  let? authenticated := oidc_authenticate i in
  guard_err (match ar_id req with Some claimed => negb (bool_decide (claimed = authenticated)) | None => false end) IDENTITY_UNVERIFIABLE $
  Ok (mkIdentityProof authenticated true).
(** [pipeline::identify_oidc], with the verifier it takes. *)
Definition pipeline_identity (i : OidcIdentity) (p : Platform) (asserted : option Asserted) : result PipelineIdentity :=
  identify_oidc (verified_claims i) (oi_issuer i) p asserted.

(** ** Stage 3: the card *)

Record JwksCardVerifier := mkJwksCardVerifier { jc_keys : IssuerKeys; jc_require_signature : bool }.
Definition card_signing_input (card : Value) : string :=
  canonical_json (match card with VObject m => VObject (obj_remove CARD_SIGNATURES_FIELD m) | v => v end).
Definition verify_raw (signature_b64 message : string) (k : Algorithm * DecodingKey) : result bool :=
  ok_or (crypto_verify signature_b64 message k.2 k.1) SIGNATURE_INVALID.
Definition verify_one (keys : IssuerKeys) (sig : CardSignature) (payload_b64 : string) : result string :=
  let? header := protected_header (cs_protected sig) CARD_SIGNATURE_INVALID in
  guard_err (bool_decide ((v ← obj_get "b64" header; as_bool v) = Some false)) CARD_SIGNATURE_INVALID $
  let? k := named_key keys header CARD_SIGNATURE_INVALID in
  let? ok := verify_raw (cs_signature sig) (signing_input (cs_protected sig) payload_b64) k.2 in
  if ok : bool then Ok k.1 else Err CARD_SIGNATURE_INVALID.
(** The first signature that verifies; otherwise the last error. *)
Fixpoint any_signature (keys : IssuerKeys) (payload_b64 : string) (last : Code) (sigs : list CardSignature) : result string :=
  match sigs with
  | [] => Err last
  | sig :: rest =>
    match verify_one keys sig payload_b64 with
    | Ok kid => Ok kid
    | Err e => any_signature keys payload_b64 e rest
    end
  end.
Definition verify_card (v : JwksCardVerifier) (req : AdmissionRequest) (fetched : FetchedSurface) : result CardProof :=
  let card := default (fs_raw fetched) (ar_card req) in
  match vget CARD_SIGNATURES_FIELD card with
  | None => guard_err (jc_require_signature v) CARD_SIGNATURE_INVALID $ Ok (mkCardProof false)
  | Some raw =>
    let? signatures := ok_or (card_signatures_from_value raw) CARD_SIGNATURE_INVALID in
    guard_err (bool_decide (length signatures = 0%nat)) CARD_SIGNATURE_INVALID $
    guard_err (no_keys (jc_keys v)) CARD_SIGNATURE_INVALID $
    let? _ := any_signature (jc_keys v) (b64url_encode (card_signing_input card)) CARD_SIGNATURE_INVALID signatures in
    Ok (mkCardProof true)
  end.

(** [offer::attest_surface]. *)
Definition card_header (k : IssuerKey) : Value := VObject [("alg", VString (alg_name (ik_alg k))); ("kid", VString (ik_kid k))].
Definition attest_surface (document : Value) (key : IssuerKey) : result Value :=
  match document with
  | VObject m =>
    let protected := b64url_encode (to_string (card_header key)) in
    let payload := b64url_encode (card_signing_input document) in
    let? raw := ik_signer key (signing_input protected payload) in
    let entry := VObject [("protected", VString protected); ("signature", VString (b64url_encode raw))] in
    Ok (VObject (obj_insert CARD_SIGNATURES_FIELD
         (match obj_get CARD_SIGNATURES_FIELD m with Some (VArray existing) => VArray (existing ++ [entry]) | _ => VArray [entry] end) m))
  | _ => Err CONFIG_INVALID
  end.

(** ** Stage 4: provenance *)

Record ProvenanceBindings := mkProvenanceBindings {
  pb_subject_digest : option string;
  pb_builder : option string;
  pb_subject_matched : bool;
  pb_builder_allowed : bool
}.
Record DsseProvenanceVerifier := mkDsseProvenanceVerifier {
  dp_keys : IssuerKeys;
  dp_envelopes : list Value;
  dp_artifact_digest : option string;
  dp_allowed_builders : list string
}.

Fixpoint try_keys (raw_sig signed : string) (candidates : list (string * (Algorithm * DecodingKey))) : result (option string) :=
  match candidates with
  | [] => Ok None
  | (kid, k) :: rest =>
    let attempt := from_option of_bytes raw_sig (der_ecdsa_to_raw (bytes raw_sig) (coord_len k.1)) in
    let? ok := verify_raw (b64url_encode attempt) signed k in
    if ok : bool then Ok (Some kid) else try_keys raw_sig signed rest
  end.
(** A key id is a hint among the keys trusted already; none means every one of them. *)
Definition candidates (keys : IssuerKeys) (keyid : string) : list (string * (Algorithm * DecodingKey)) :=
  if bool_decide (keyid = "")
  then omap (λ kid, (λ k, (kid, k)) <$> keys !! kid) (sort_strings ((map_to_list keys).*1))
  else match keys !! keyid with Some k => [(keyid, k)] | None => [] end.
Fixpoint find_signer (keys : IssuerKeys) (signed : string) (sigs : list DsseSignature) : result string :=
  match sigs with
  | [] => Err PROVENANCE_UNVERIFIABLE
  | sig :: rest =>
    match candidates keys (ds_keyid sig) with
    | [] => find_signer keys signed rest
    | cands =>
      let? raw_sig := b64std (ds_sig sig) in
      let? signer := try_keys raw_sig signed cands in
      match signer with Some kid => Ok kid | None => find_signer keys signed rest end
    end
  end.

Definition normal_digest (text : string) : string :=
  let lower := to_lowercase (trim_text text) in if starts_with "sha256:" lower then lower else "sha256:" +:+ lower.
Definition subject_sha256 (s : Value) : option string :=
  h ← ((vget "digest" s ≫= vget "sha256") ≫= as_str); Some ("sha256:" +:+ to_lowercase (trim_text h)).
(** [Value::pointer] along object members. *)
Definition pointer (path : list string) (v : Value) : option Value := foldl (λ o k, o ≫= vget k) (Some v) path.
Definition builder_of (statement : Value) : option string :=
  (match pointer ["predicate"; "runDetails"; "builder"; "id"] statement with
   | Some v => Some v
   | None => pointer ["predicate"; "builder"; "id"] statement
   end) ≫= as_str.
Definition check_statement (v : DsseProvenanceVerifier) (statement : Value) : result ProvenanceBindings :=
  let stype := default "" (vget "_type" statement ≫= as_str) in
  guard_err (negb (str_in stype [IN_TOTO_STATEMENT_V1; IN_TOTO_STATEMENT_V01])) PROVENANCE_UNVERIFIABLE $
  guard_err (negb (starts_with SLSA_PROVENANCE_PREFIX (default "" (vget "predicateType" statement ≫= as_str)))) PROVENANCE_UNVERIFIABLE $
  let? subjects := ok_or (vget "subject" statement ≫= as_array) PROVENANCE_UNVERIFIABLE in
  let digests := omap subject_sha256 subjects in
  guard_err (bool_decide (length digests = 0%nat)) PROVENANCE_UNVERIFIABLE $
  let '(matched, digest) :=
    match dp_artifact_digest v with
    | Some expected => let expected := normal_digest expected in (str_in expected digests, Some expected)
    | None => (false, head digests)
    end in
  let builder := builder_of statement in
  let allowed := match builder with Some b => str_in b (dp_allowed_builders v) | None => false end in
  Ok (mkProvenanceBindings digest builder matched allowed).
Definition provenance_refs (statement : Value) (b : ProvenanceBindings) : list ProvRef :=
  mkProvRef "in-toto" ("sha256:" +:+ sha256_hex (canonical_json statement)) ::
  match pb_subject_digest b with Some d => [mkProvRef "slsa-provenance" d] | None => [] end.
Definition verify_envelope (v : DsseProvenanceVerifier) (raw : Value) : result (ProvenanceBindings * list ProvRef) :=
  let? envelope := ok_or (dsse_from_value raw) PROVENANCE_UNVERIFIABLE in
  guard_err (negb (bool_decide (de_payload_type envelope = DSSE_PAYLOAD_TYPE))) PROVENANCE_UNVERIFIABLE $
  guard_err (bool_decide (length (de_signatures envelope) = 0%nat)) PROVENANCE_UNVERIFIABLE $
  guard_err (no_keys (dp_keys v)) PROVENANCE_UNVERIFIABLE $
  let? payload := b64std (de_payload envelope) in
  let? _ := find_signer (dp_keys v) (pae (de_payload_type envelope) payload) (de_signatures envelope) in
  let? statement := ok_or (from_slice payload) PROVENANCE_UNVERIFIABLE in
  let? bindings := check_statement v statement in
  Ok (bindings, provenance_refs statement bindings).
Fixpoint first_envelope (v : DsseProvenanceVerifier) (last : Code) (raws : list Value) : result ProvenanceProof :=
  match raws with
  | [] => Err last
  | raw :: rest =>
    match verify_envelope v raw with
    | Ok (b, refs) => Ok (mkProvenanceProof (pb_subject_matched b && pb_builder_allowed b) refs)
    | Err e => first_envelope v e rest
    end
  end.
Definition verify_provenance (v : DsseProvenanceVerifier) (_ : AdmissionRequest) : result ProvenanceProof :=
  if bool_decide (length (dp_envelopes v) = 0%nat) then Ok (mkProvenanceProof false [])
  else first_envelope v PROVENANCE_UNVERIFIABLE (dp_envelopes v).

Definition surface_artifact_digest (kind : SurfaceKind) (entity : EntityId) (raw : Value) : result string :=
  let? cs := canonicalise kind entity raw Limits_default in Ok (manifest_hash cs).

(** ** The verifiers a registration is judged by *)

Definition SCREENING_SUBJECT : EntityId := mkEntityId "urn:warden-connect:screening-subject".
Record Material := mkMaterial {
  mt_svid : option JwtSvidIdentity;
  mt_oidc : option OidcIdentity;
  mt_card_keys : IssuerKeys;
  mt_require_card_signature : bool;
  mt_prov_keys : IssuerKeys;
  mt_envelopes : list Value;
  mt_artifact_digest : option string;
  mt_bind_surface : bool;
  mt_builders : list string
}.
Definition bound_digest (mt : Material) (source : AdmissionRequest → result FetchedSurface) (req : AdmissionRequest)
    : result (option string) :=
  match mt_artifact_digest mt, mt_bind_surface mt with
  | Some d, _ => Ok (Some d)
  | None, true =>
    let? fetched := source req in
    let? d := surface_artifact_digest (fs_kind fetched) (default SCREENING_SUBJECT (ar_id req)) (fs_raw fetched) in
    Ok (Some d)
  | None, false => Ok None
  end.
(** Each stage keeps its stand-in unless there is material for it. *)
Definition register_ctx (mt : Material) (source : AdmissionRequest → result FetchedSurface)
    (screener : FetchedSurface → result ScreenReport) (req : AdmissionRequest) (now : N) : result AdmissionCtx :=
  let base := observe_ctx source now in
  guard_err (match mt_oidc mt, mt_svid mt with Some _, Some _ => true | _, _ => false end) CONFIG_INVALID $
  let identity := match mt_oidc mt, mt_svid mt with
                  | Some i, _ => oidc_identity i
                  | None, Some i => svid_identity i
                  | None, None => ax_identity base
                  end in
  let card := if no_keys (mt_card_keys mt) then ax_card base
              else verify_card (mkJwksCardVerifier (mt_card_keys mt) (mt_require_card_signature mt)) in
  let? digest := bound_digest mt source req in
  let provenance := if bool_decide (length (mt_envelopes mt) = 0%nat) && no_keys (mt_prov_keys mt) then ax_provenance base
                    else verify_provenance (mkDsseProvenanceVerifier (mt_prov_keys mt) (mt_envelopes mt) digest (mt_builders mt)) in
  Ok (mkAdmissionCtx identity (ax_surface base) card provenance screener (ax_limits base) (ax_tier_rules base) (ax_now base)).
End Verifiers.

(** ** What is relied on of the libraries *)

Section Laws.
Context `{AttestCodec, !SerdeParse} (valid : DecodingKey → Algorithm → string → string → bool).

(** A token signed under a key, with the claims [v]. *)
Definition jwt_of (token : string) (key : DecodingKey) (alg : Algorithm) (v : Value) : Prop :=
  ∃ head body sg sig raw, token = compact head body sg ∧ b64url_decode sg = Some sig ∧
    valid key alg (signing_input head body) sig = true ∧ b64url_decode body = Some raw ∧ from_slice raw = Some v.
(** A claim that names [x], alone or in a list. *)
Definition claim_names (claim x : string) (v : Value) : Prop :=
  vget claim v = Some (VString x) ∨ ∃ l, vget claim v = Some (VArray l) ∧ VString x ∈ l.
Definition number_claim (claim : string) (n : N) (v : Value) : Prop := vget claim v = Some (VNumber (PosInt n)).
Definition claims_hold (vd : Validation) (v : Value) : Prop :=
  claim_names "aud" (vd_audience vd) v ∧ ∀ iss, vd_issuer vd = Some iss → claim_names "iss" iss v.

Class AttestLaws : Prop := {
  crypto_verify_true sg msg key alg :
    crypto_verify sg msg key alg = Some true ↔ ∃ sig, b64url_decode sg = Some sig ∧ valid key alg msg sig = true;
  svid_decode_sound vd token key c :
    svid_decode vd token key = Some c →
    ∃ v, jwt_of token key (vd_alg vd) v ∧ claims_hold vd v ∧ vget "sub" v = Some (VString (sv_sub c)) ∧
      number_claim "exp" (sv_exp c) v ∧ ∀ n, number_claim "nbf" n v ↔ sv_nbf c = Some n;
  oidc_decode_sound vd token key c :
    oidc_decode vd token key = Some c →
    ∃ v, jwt_of token key (vd_alg vd) v ∧ claims_hold vd v ∧ number_claim "exp" (oc_exp c) v ∧
      (∀ n, number_claim "nbf" n v ↔ oc_nbf c = Some n) ∧ ∀ k x, obj_get k (oc_rest c) = Some x → vget k v = Some x
}.
End Laws.

(** ** What each verifier establishes *)

Section Sound.
Context `{AttestCodec, !SerdeParse, !SerdeJson, !Nfc, !Sha256, !CharTables}.
Context (valid : DecodingKey → Algorithm → string → string → bool) `{!AttestLaws valid}.

Lemma protected_header_ok segment code m :
  protected_header segment code = Ok m ↔ ∃ raw, b64url_decode segment = Some raw ∧ from_slice raw = Some (VObject m).
Proof.
  unfold protected_header, b64url. rewrite result_bind_ok. setoid_rewrite ok_or_ok. split.
  - intros (raw & Hraw & Hm). exists raw. split; [done|]. by destruct (from_slice raw) as [[]|]; simplify_eq.
  - intros (raw & Hraw & Hm). exists raw. by rewrite Hm.
Qed.
Lemma named_key_ok keys header code kid k :
  named_key keys header code = Ok (kid, k) ↔
  text_of "kid" header = Some kid ∧ keys !! kid = Some k ∧ text_of "alg" header = Some (alg_name k.1) ∧
  alg_name k.1 ∈ ACCEPTED_ALG_NAMES.
Proof.
  unfold named_key, checked_alg. rewrite result_bind_ok. setoid_rewrite ok_or_ok. split.
  - intros (kid' & Hk & (k' & Hl & (u & (alg & Ha & [Hin [He _]%guard_err_ok]%guard_err_ok)%result_bind_ok & [= <- <-])%result_bind_ok)
      %result_bind_ok).
    apply ok_or_ok in Hl, Ha. apply negb_false_iff, bool_decide_eq_true in Hin, He. by subst.
  - intros (Hk & Hl & Ha & Hin). exists kid. split; [done|]. apply result_bind_ok. exists k. split; [by apply ok_or_ok|].
    apply result_bind_ok. exists tt. split; [|done]. apply result_bind_ok. exists (alg_name k.1). split; [by apply ok_or_ok|].
    do 2 (apply guard_err_ok; split; [by apply negb_false_iff, bool_decide_eq_true|]). done.
Qed.

(** A token under a trusted key, for this audience and issuer, inside its window. *)
Definition token_proves (keys : IssuerKeys) (token audience : string) (issuer : option string) (now leeway : N) (v : Value) : Prop :=
  trim_text audience ≠ "" ∧
  (∃ kid alg key, keys !! kid = Some (alg, key) ∧ alg_name alg ∈ ACCEPTED_ALG_NAMES ∧ jwt_of valid token key alg v) ∧
  claim_names "aud" audience v ∧ (∀ iss, issuer = Some iss → claim_names "iss" iss v) ∧
  (∃ exp, number_claim "exp" exp v ∧ (now < saturating_add_u64 exp leeway)%N) ∧
  (∀ nbf, number_claim "nbf" nbf v → (nbf ≤ saturating_add_u64 now leeway)%N).
Lemma token_proves_intro keys token audience issuer now leeway kid alg key v exp nbf required :
  trim_text audience ≠ "" → keys !! kid = Some (alg, key) → alg_name alg ∈ ACCEPTED_ALG_NAMES →
  jwt_of valid token key alg v → claims_hold (mkValidation alg audience issuer required) v → number_claim "exp" exp v →
  (∀ n, number_claim "nbf" n v ↔ nbf = Some n) → in_time now leeway exp nbf = true →
  token_proves keys token audience issuer now leeway v.
Proof.
  intros Ha Hk Hacc Hj [Haud Hiss] Hexp Hnbf [Ht Ht']%andb_true_iff. split_and!; [done|by exists kid, alg, key|done|done| |].
  - exists exp. split; [done|]. by apply N.ltb_lt.
  - intros n Hn%Hnbf. rewrite Hn in Ht'. by apply N.leb_le.
Qed.

Lemma svid_identity_sound i req p :
  svid_identity i req = Ok p →
  ip_verified p = true ∧ (∀ id, ar_id req = Some id → id = ip_id p) ∧ starts_with "spiffe://" (entity_str (ip_id p)) = true ∧
  ∃ v, token_proves (ji_keys i) (ji_token i) (ji_audience i) None (ji_now i) (ji_leeway i) v ∧
    vget "sub" v = Some (VString (entity_str (ip_id p))).
Proof.
  unfold svid_identity, svid_authenticate.
  intros (sub & [Haud [Hne (header & Hh & ([kid [alg key]] & Hk & (c & Hc & [Ht [Hs [= <-]]%guard_err_ok]%guard_err_ok)
    %result_bind_ok)%result_bind_ok)%result_bind_ok]%guard_err_ok]%guard_err_ok & [Hid (id & Hnew & [= <-])%result_bind_ok]%guard_err_ok)%result_bind_ok.
  apply bool_decide_eq_false in Haud. apply negb_false_iff in Ht, Hs. apply ok_or_ok in Hc. cbn [fst snd] in Hc.
  apply named_key_ok in Hk as (_ & Hl & _ & Hacc). cbn [fst] in Hacc.
  apply (svid_decode_sound valid) in Hc as (v & Hj & Hcl & Hsub & Hexp & Hnbf).
  pose proof (EntityId_new_str _ _ Hnew) as Hstr. cbn [ip_verified ip_id]. split_and!; [done| |by rewrite <-Hstr|].
  - intros id' E. rewrite E in Hid. apply negb_false_iff, bool_decide_eq_true in Hid. destruct id as [x], id' as [y]. cbn in *. congruence.
  - exists v. rewrite <-Hstr. split; [|done]. by eapply token_proves_intro.
Qed.
Lemma verified_claims_sound i rest :
  verified_claims i = Ok rest →
  no_byte colon (oi_label i) ∧ trim_text (oi_issuer i) ≠ "" ∧
  ∃ v, token_proves (oi_keys i) (oi_token i) (oi_audience i) (Some (oi_issuer i)) (oi_now i) (oi_leeway i) v ∧
    ∀ k x, obj_get k rest = Some x → vget k v = Some x.
Proof.
  unfold verified_claims.
  intros ([] & Hcfg & (header & Hh & ([kid [alg key]] & Hk & (c & Hc & [Ht [= <-]]%guard_err_ok)
    %result_bind_ok)%result_bind_ok)%result_bind_ok)%result_bind_ok.
  apply guard_err_ok in Hcfg as [Haud [Hiss [_ [Hlab _]%guard_err_ok]%guard_err_ok]%guard_err_ok].
  unfold blank in Haud, Hiss. apply bool_decide_eq_false in Haud, Hiss. apply negb_false_iff in Ht. apply ok_or_ok in Hc. cbn [fst snd] in Hc.
  apply named_key_ok in Hk as (_ & Hl & _ & Hacc). cbn [fst] in Hacc.
  apply (oidc_decode_sound valid) in Hc as (v & Hj & Hcl & Hexp & Hnbf & Hrest).
  split; [by apply has_byte_spec|]. split; [done|]. exists v. split; [by eapply token_proves_intro|done].
Qed.
Lemma oidc_identity_sound i req p :
  oidc_identity i req = Ok p →
  ip_verified p = true ∧ (∀ id, ar_id req = Some id → id = ip_id p) ∧ no_byte colon (oi_label i) ∧
  ∃ v s, token_proves (oi_keys i) (oi_token i) (oi_audience i) (Some (oi_issuer i)) (oi_now i) (oi_leeway i) v ∧
    vget (oi_subject_claim i) v = Some (VString s) ∧ trim_text s ≠ "" ∧
    entity_str (ip_id p) = "urn:wc:oidc:" +:+ oi_label i +:+ ":" +:+ trim_text s.
Proof.
  unfold oidc_identity, oidc_authenticate.
  intros (id & (rest & (Hlab & _ & v & Hv & Hrest)%verified_claims_sound & (s & Hs & [Hb Hnew]%guard_err_ok)%result_bind_ok)%result_bind_ok
    & [Hid [= <-]]%guard_err_ok)%result_bind_ok. cbn [ip_verified ip_id].
  split_and!; [done| |done|].
  - intros id' E. rewrite E in Hid. by apply negb_false_iff, bool_decide_eq_true in Hid.
  - exists v, s. unfold blank in Hb. apply bool_decide_eq_false in Hb. apply ok_or_ok in Hs. unfold text_of in Hs.
    apply bind_Some in Hs as (x & Hx & Hs). destruct x; simplify_eq/=. apply EntityId_new_str in Hnew.
    split_and!; [done|by apply Hrest|done|by rewrite <-Hnew].
Qed.

(** *** Cards *)

(** One signature under a trusted key over the card without its signatures. *)
Definition card_signed (keys : IssuerKeys) (card : Value) (sig : CardSignature) (kid : string) : Prop :=
  ∃ alg key raw, keys !! kid = Some (alg, key) ∧ alg_name alg ∈ ACCEPTED_ALG_NAMES ∧ b64url_decode (cs_signature sig) = Some raw ∧
    valid key alg (signing_input (cs_protected sig) (b64url_encode (card_signing_input card))) raw = true.
Lemma verify_one_sound keys sig card kid :
  verify_one keys sig (b64url_encode (card_signing_input card)) = Ok kid → card_signed keys card sig kid.
Proof.
  unfold verify_one, verify_raw.
  intros (header & _ & [_ ([kid' [alg key]] & (_ & Hl & _ & Hacc)%named_key_ok & (ok & Hok & Hk)%result_bind_ok)%result_bind_ok]%guard_err_ok)%result_bind_ok.
  destruct ok; [|done]. injection Hk as <-. apply ok_or_ok, (crypto_verify_true valid) in Hok as (raw & Hraw & Hv).
  by exists alg, key, raw.
Qed.
Lemma any_signature_ok keys payload last sigs kid :
  any_signature keys payload last sigs = Ok kid → ∃ sig, sig ∈ sigs ∧ verify_one keys sig payload = Ok kid.
Proof.
  revert last. induction sigs as [|sig rest IH]; intros last; [done|]. cbn. destruct (verify_one keys sig payload) eqn:E.
  - intros [= <-]. exists sig. split; [by left|done].
  - intros (s & ? & ?)%IH. exists s. split; [by right|done].
Qed.
(** Every signature is tried: one that verifies is enough, wherever it stands. *)
Lemma any_signature_tries keys payload last sigs :
  is_ok (any_signature keys payload last sigs) = true ↔ ∃ sig, sig ∈ sigs ∧ is_ok (verify_one keys sig payload) = true.
Proof.
  split.
  - destruct (any_signature _ _ _ _) eqn:E; [|done]. intros _. apply any_signature_ok in E as (s & ? & E). exists s. by rewrite E.
  - intros (s & Hs & Hok). revert last. induction sigs as [|sig rest IH]; intros last; [by apply elem_of_nil in Hs|]. cbn.
    apply elem_of_cons in Hs as [->|Hs]; [by destruct (verify_one keys sig payload)|].
    destruct (verify_one keys sig payload); [done|by apply IH].
Qed.
Lemma verify_card_sound v req fetched p :
  verify_card v req fetched = Ok p → cp_verified p = true →
  ∃ raw sigs sig kid, vget CARD_SIGNATURES_FIELD (default (fs_raw fetched) (ar_card req)) = Some raw ∧
    card_signatures_from_value raw = Some sigs ∧ sig ∈ sigs ∧
    card_signed (jc_keys v) (default (fs_raw fetched) (ar_card req)) sig kid.
Proof.
  unfold verify_card. cbv zeta. destruct (vget _ _) as [raw|]; [|intros [_ [= <-]]%guard_err_ok; done].
  intros (sigs & Hs & [_ [_ (kid & Hk & [= <-])%result_bind_ok]%guard_err_ok]%guard_err_ok)%result_bind_ok _.
  apply ok_or_ok in Hs. apply any_signature_ok in Hk as (sig & Hin & Hv). exists raw, sigs, sig, kid.
  split_and!; [done|done|done|by apply verify_one_sound].
Qed.

(** *** Provenance *)

Lemma try_keys_sound raw_sig signed cands kid :
  try_keys raw_sig signed cands = Ok (Some kid) → ∃ k sig, (kid, k) ∈ cands ∧ valid k.2 k.1 signed sig = true.
Proof.
  induction cands as [|[kid' k] rest IH]; [done|]. cbn. intros (ok & Hok & Hrest)%result_bind_ok.
  destruct ok; [|destruct (IH Hrest) as (k' & sig & ? & ?); exists k', sig; split; [by right|done]].
  injection Hrest as <-. apply ok_or_ok, (crypto_verify_true valid) in Hok as (sig & _ & Hv). exists k, sig. split; [by left|done].
Qed.
Lemma candidates_trusted keys keyid kid k : (kid, k) ∈ candidates keys keyid → keys !! kid = Some k.
Proof.
  unfold candidates. case_bool_decide.
  - intros (kid' & _ & Hk)%list_elem_of_omap. destruct (keys !! kid') as [k'|] eqn:E; [|done]. cbn in Hk. by injection Hk as -> ->.
  - destruct (keys !! keyid) eqn:E; [|by intros ?%elem_of_nil]. by intros [= -> ->]%list_elem_of_singleton.
Qed.
Lemma find_signer_sound keys signed sigs kid :
  find_signer keys signed sigs = Ok kid → ∃ alg key sig, keys !! kid = Some (alg, key) ∧ valid key alg signed sig = true.
Proof.
  induction sigs as [|sig rest IH]; [done|]. cbn [find_signer]. destruct (candidates keys (ds_keyid sig)) as [|c cs] eqn:Ec; [done|].
  intros (raw & _ & ([kid'|] & Hs & Hk)%result_bind_ok)%result_bind_ok; [|by apply IH].
  injection Hk as ->. apply try_keys_sound in Hs as ([alg key] & s & Hin & Hv). rewrite <-Ec in Hin. exists alg, key, s. split; [by eapply candidates_trusted|done].
Qed.
(** An envelope signed under a trusted key over its payload, which is [statement]. *)
Definition vouches (keys : IssuerKeys) (raw statement : Value) : Prop :=
  ∃ env payload kid alg key sig, dsse_from_value raw = Some env ∧ b64_standard (trim_text (de_payload env)) = Some payload ∧
    keys !! kid = Some (alg, key) ∧ valid key alg (pae DSSE_PAYLOAD_TYPE payload) sig = true ∧ from_slice payload = Some statement.
(** An in-toto SLSA statement about [digest] by a builder of the list. *)
Definition built (builders : list string) (statement : Value) (digest : string) : Prop :=
  (∃ t, vget "_type" statement = Some (VString t) ∧ t ∈ [IN_TOTO_STATEMENT_V1; IN_TOTO_STATEMENT_V01]) ∧
  (∃ t, vget "predicateType" statement = Some (VString t) ∧ starts_with SLSA_PROVENANCE_PREFIX t = true) ∧
  (∃ subjects, vget "subject" statement = Some (VArray subjects) ∧ digest ∈ omap subject_sha256 subjects) ∧
  ∃ b, builder_of statement = Some b ∧ b ∈ builders.
Lemma text_or_empty o P : P "" = false → P (default "" (o ≫= as_str)) = true → ∃ t, o = Some (VString t) ∧ P t = true.
Proof. intros Hno. destruct o as [[]|]; cbn; rewrite ?Hno; try done. intros Ht. by eexists. Qed.
Lemma check_statement_sound v statement b :
  check_statement v statement = Ok b → pb_subject_matched b = true → pb_builder_allowed b = true →
  ∃ expected, dp_artifact_digest v = Some expected ∧ built (dp_allowed_builders v) statement (normal_digest expected).
Proof.
  unfold check_statement. cbv zeta.
  intros [Ht [Hp (subjects & Hs & [_ Hb]%guard_err_ok)%result_bind_ok]%guard_err_ok]%guard_err_ok.
  apply negb_false_iff in Ht, Hp. apply ok_or_ok in Hs.
  destruct (dp_artifact_digest v) as [expected|]; injection Hb as <-; [|done].
  cbn [pb_subject_matched pb_builder_allowed]. intros Hm Hallow. exists expected. split; [done|].
  destruct (builder_of statement) as [builder|] eqn:Eb; [|done].
  apply bool_decide_eq_true in Hm, Hallow. split_and!.
  - apply (text_or_empty _ (λ t, str_in t _)) in Ht as (t & -> & Ht%bool_decide_eq_true); [|done]. by exists t.
  - apply (text_or_empty _ (starts_with SLSA_PROVENANCE_PREFIX)) in Hp; [done|]. vm_compute. reflexivity.
  - destruct (vget "subject" statement) as [[]|]; try done. injection Hs as ->. by exists subjects.
  - by exists builder.
Qed.
Lemma verify_envelope_sound v raw b refs :
  verify_envelope v raw = Ok (b, refs) → ∃ statement, vouches (dp_keys v) raw statement ∧ check_statement v statement = Ok b.
Proof.
  unfold verify_envelope.
  intros (env & He & [Ht [_ [_ (payload & Hpay & (kid & Hs & (statement & Hst & (b' & Hb & [= -> _])%result_bind_ok)
    %result_bind_ok)%result_bind_ok)%result_bind_ok]%guard_err_ok]%guard_err_ok]%guard_err_ok)%result_bind_ok.
  apply negb_false_iff, bool_decide_eq_true in Ht. apply ok_or_ok in He, Hst. apply ok_or_ok in Hpay. rewrite Ht in Hs.
  apply find_signer_sound in Hs as (alg & key & sig & Hk & Hv). exists statement. split; [|done].
  by exists env, payload, kid, alg, key, sig.
Qed.
Lemma first_envelope_ok v last raws p : first_envelope v last raws = Ok p →
  ∃ raw b, raw ∈ raws ∧ verify_envelope v raw = Ok (b, pp_refs p) ∧ pp_verified p = pb_subject_matched b && pb_builder_allowed b.
Proof.
  revert last. induction raws as [|raw rest IH]; intros last; [done|]. cbn. destruct (verify_envelope v raw) as [[b refs]|e] eqn:E.
  - intros [= <-]. exists raw, b. split; [by left|]. by split.
  - intros (r & b & ? & ? & ?)%IH. exists r, b. split; [by right|done].
Qed.
Lemma verify_provenance_sound v req p :
  verify_provenance v req = Ok p → pp_verified p = true →
  ∃ raw statement expected, raw ∈ dp_envelopes v ∧ vouches (dp_keys v) raw statement ∧ dp_artifact_digest v = Some expected ∧
    built (dp_allowed_builders v) statement (normal_digest expected).
Proof.
  unfold verify_provenance. case_bool_decide; [by intros [= <-]|]. intros (raw & b & Hin & He & Hv)%first_envelope_ok Hp.
  rewrite Hv in Hp. apply andb_true_iff in Hp as [Hm Ha]. apply verify_envelope_sound in He as (statement & Hvouch & Hc).
  destruct (check_statement_sound _ _ _ Hc Hm Ha) as (expected & ? & ?). by exists raw, statement, expected.
Qed.

(** No builder named is no builder allowed, although the field is described as any builder then. *)
Lemma no_builders_no_provenance v req p : dp_allowed_builders v = [] → verify_provenance v req = Ok p → pp_verified p = false.
Proof.
  intros Hno Hp. destruct (pp_verified p) eqn:E; [|done].
  apply verify_provenance_sound in Hp as (_ & st & _ & _ & _ & _ & _ & _ & _ & b & _ & Hb); [|done].
  rewrite Hno in Hb. by apply elem_of_nil in Hb.
Qed.

(** ** What an attested registration rests on *)

(** What an admission records of a stage. *)
Definition marked (o : AdmissionOutcome) (stage : Stage) : Prop := mkStageResult stage Passed ∈ ao_stages o.

#[local] Ltac solve_marks :=
  repeat match goal with
    | H : _ ∧ _ |- _ => destruct H
    | H : _ ∨ _ |- _ => destruct H as [H|H]; [discriminate H|]
    end; try done; auto 8.

(** An admission that succeeds, stage by stage. *)
Lemma admit_parts req ctx o : Admission_admit req ctx = Ok o →
  ∃ identity fetched card provenance pin,
    ax_identity ctx req = Ok identity ∧ ax_surface ctx req = Ok fetched ∧ ax_card ctx req fetched = Ok card ∧ ax_provenance ctx req = Ok provenance ∧
    Canon.pin (fs_kind fetched) (ip_id identity) (fs_raw fetched) (ax_limits ctx) (ax_now ctx) = Ok pin ∧
    ent_id (ao_entity o) = ip_id identity ∧ ent_pin (ao_entity o) = pin ∧
    (marked o SIdentity ↔ ip_verified identity = true) ∧ (marked o SCardSignature ↔ cp_verified card = true) ∧
    (marked o SProvenance ↔ pp_verified provenance = true) ∧
    (ent_posture (ao_entity o) = Attested ↔ marked o SIdentity ∧ marked o SCardSignature ∧ marked o SProvenance).
Proof.
  intros (i & f & c & p & s & pin & Ei & Ef & Ec & Ep & _ & Hadm)%admission_exact. cbv zeta in Hadm.
  destruct Hadm as (_ & _ & _ & Epin & He & _ & Hst & _). exists i, f, c, p, pin. unfold marked. rewrite He, Hst.
  cbn [admitted_entity ent_id ent_pin ent_posture]. do 7 (split; [done|]). clear.
  destruct (ip_verified i), (cp_verified c), (pp_verified p); cbn; rewrite !list_elem_of_In; cbn [In];
    split_and!; split; try done; intros; first [by left|by do 2 right; left|by do 3 right; left|split_and!|exfalso]; solve_marks.
Qed.

(** What the identity of a registration rests on: one token, of the one kind supplied. *)
Definition identity_rests (mt : Material) (id : EntityId) : Prop :=
  (∃ i v, mt_svid mt = Some i ∧ mt_oidc mt = None ∧
     token_proves (ji_keys i) (ji_token i) (ji_audience i) None (ji_now i) (ji_leeway i) v ∧
     vget "sub" v = Some (VString (entity_str id)) ∧ starts_with "spiffe://" (entity_str id) = true) ∨
  (∃ i v s, mt_oidc mt = Some i ∧ mt_svid mt = None ∧
     token_proves (oi_keys i) (oi_token i) (oi_audience i) (Some (oi_issuer i)) (oi_now i) (oi_leeway i) v ∧
     vget (oi_subject_claim i) v = Some (VString s) ∧ no_byte colon (oi_label i) ∧
     entity_str id = "urn:wc:oidc:" +:+ oi_label i +:+ ":" +:+ trim_text s).
Definition card_rests (mt : Material) (card : Value) : Prop :=
  ∃ raw sigs sig kid, vget CARD_SIGNATURES_FIELD card = Some raw ∧ card_signatures_from_value raw = Some sigs ∧ sig ∈ sigs ∧
    card_signed (mt_card_keys mt) card sig kid.
Definition provenance_rests (mt : Material) (expected : string) : Prop :=
  ∃ raw statement, raw ∈ mt_envelopes mt ∧ vouches (mt_prov_keys mt) raw statement ∧ built (mt_builders mt) statement (normal_digest expected).

Lemma bound_digest_ok mt source req expected :
  bound_digest mt source req = Ok (Some expected) →
  mt_artifact_digest mt = Some expected ∨
  mt_artifact_digest mt = None ∧ ∃ fetched cs, source req = Ok fetched ∧ expected = manifest_hash cs ∧
    canonicalise (fs_kind fetched) (default SCREENING_SUBJECT (ar_id req)) (fs_raw fetched) Limits_default = Ok cs.
Proof.
  unfold bound_digest, surface_artifact_digest. destruct (mt_artifact_digest mt); [intros [= ->]; by left|].
  destruct (mt_bind_surface mt); [|done].
  intros (f & Hf & (d & (cs & Hcs & [= <-])%result_bind_ok & [= <-])%result_bind_ok)%result_bind_ok. right. split; [done|]. by exists f, cs.
Qed.
(** The verifiers a registration gets, and what they establish when they answer yes. *)
Lemma register_ctx_sound mt source screener req now ctx : register_ctx mt source screener req now = Ok ctx →
  ax_surface ctx = source ∧ ax_limits ctx = Limits_default ∧ ax_now ctx = now ∧
  (∀ p, ax_identity ctx req = Ok p → ip_verified p = true → (∀ id, ar_id req = Some id → id = ip_id p) ∧ identity_rests mt (ip_id p)) ∧
  (∀ fetched p, ax_card ctx req fetched = Ok p → cp_verified p = true → card_rests mt (default (fs_raw fetched) (ar_card req))) ∧
  (∀ p, ax_provenance ctx req = Ok p → pp_verified p = true →
     ∃ expected, bound_digest mt source req = Ok (Some expected) ∧ provenance_rests mt expected).
Proof.
  unfold register_ctx. intros [Hone (digest & Hd & [= <-])%result_bind_ok]%guard_err_ok.
  cbn [ax_surface ax_identity ax_card ax_provenance ax_limits ax_now]. split_and!; [done|done|done| | |].
  - intros p Hp Hv. destruct (mt_oidc mt) as [i|] eqn:Eo, (mt_svid mt) as [j|] eqn:Es; [done| | |].
    + apply oidc_identity_sound in Hp as (_ & Hid & Hlab & v & s & ? & ? & _ & ?). split; [done|]. right. by exists i, v, s.
    + apply svid_identity_sound in Hp as (_ & Hid & Hsp & v & ? & ?). split; [done|]. left. by exists j, v.
    + apply result_bind_ok in Hp as (id & _ & [= <-]). done.
  - intros fetched p Hp Hv. destruct (no_keys (mt_card_keys mt)); [by injection Hp as <-|].
    apply verify_card_sound in Hp; [|done]. by destruct Hp as (raw & sigs & sig & kid & ? & ? & ? & ?); exists raw, sigs, sig, kid.
  - intros p Hp Hv. destruct (_ && _); [by injection Hp as <-|].
    apply verify_provenance_sound in Hp as (raw & st & expected & Hin & Hvouch & [= ->] & Hb); [|done].
    exists expected. split; [done|]. by exists raw, st.
Qed.


(** ** Identities apart, encodings apart *)

(** A subject of one issuer cannot come out as the party of another: verifiers that derive
    one entity id carry the same label, and the tokens they accepted name the same subject. *)
Theorem oidc_ids_apart i i' req req' p p' :
  oidc_identity i req = Ok p → oidc_identity i' req' = Ok p' → ip_id p = ip_id p' →
  oi_label i = oi_label i' ∧ ∃ v v' s s',
    token_proves (oi_keys i) (oi_token i) (oi_audience i) (Some (oi_issuer i)) (oi_now i) (oi_leeway i) v ∧
    token_proves (oi_keys i') (oi_token i') (oi_audience i') (Some (oi_issuer i')) (oi_now i') (oi_leeway i') v' ∧
    vget (oi_subject_claim i) v = Some (VString s) ∧ vget (oi_subject_claim i') v' = Some (VString s') ∧ trim_text s = trim_text s'.
Proof.
  intros (_ & _ & Hl & v & s & Hv & Hs & _ & E)%oidc_identity_sound (_ & _ & Hl' & v' & s' & Hv' & Hs' & _ & E')%oidc_identity_sound Eid.
  rewrite Eid, E' in E. apply string_prefix_inj, colon_split in E as [El Es]; [|done|done]. split; [done|]. by exists v, v', s, s'.
Qed.

(** No two envelopes are signed over the same bytes unless type and payload are the same. *)
Lemma pae_inj t t' p p' : pae t p = pae t' p' → t = t' ∧ p = p'.
Proof.
  assert (∀ n : N, no_byte " " (pretty n)) as Hsp by (intros n Hin%pretty_N_bytes; done).
  assert (∀ a b c d, str_len a = str_len b → a +:+ c = b +:+ d → a = b ∧ c = d) as Hlen.
  { intros a. induction a as [|x a IH]; intros [|y b] c d Hl E; try done. injection E as -> E.
    destruct (IH b c d) as [-> ->]; [unfold str_len in *; cbn in Hl; lia|done|done]. }
  unfold pae. intros E. apply (string_prefix_inj "DSSEv1 ") in E.
  apply (byte_split " ") in E as [Ht%(inj pretty) E]; [|apply Hsp|apply Hsp].
  apply Hlen in E as [-> E]; [|done]. split; [done|]. apply (string_prefix_inj " ") in E.
  by apply (byte_split " ") in E as [_ ->]; [|apply Hsp|apply Hsp].
Qed.

(** ** A surface signed here verifies *)

Lemma no_keys_false (keys : gmap string (Algorithm * DecodingKey)) kid k : keys !! kid = Some k → no_keys keys = false.
Proof.
  intros Hk. apply bool_decide_eq_false. intros E. apply (map_size_empty_inv (M:=gmap string)) in E. subst keys.
  exact (lookup_empty_Some kid k Hk).
Qed.
Lemma obj_remove_none {A} k (m : list (string * A)) : k ∉ m.*1 → obj_remove k m = m.
Proof.
  induction m as [|[k' v] m IH]; [done|]. cbn. rewrite not_elem_of_cons. intros [Hne Hm].
  rewrite bool_decide_eq_false_2 by congruence. by rewrite IH.
Qed.
Lemma remove_inserted {A} k (v : A) m : StronglySorted str_lt m.*1 → obj_remove k (obj_insert k v m) = obj_remove k m.
Proof.
  induction m as [|[k' v'] m IH]; intros Hs; cbn [fmap list_fmap obj_insert obj_remove fst] in *; [by rewrite bool_decide_eq_true_2|].
  apply StronglySorted_cons in Hs as [Hhd Hs]. destruct (decide (k = k')) as [<-|Hne].
  - rewrite (bool_decide_eq_true_2 (k = k)) by done. cbn [obj_remove fst]. by rewrite bool_decide_eq_true_2.
  - rewrite (bool_decide_eq_false_2 (k = k')) by done. destruct (String.leb k k') eqn:El; cbn [obj_remove fst].
    + rewrite (bool_decide_eq_true_2 (k = k)) by done. rewrite bool_decide_eq_false_2 by congruence.
      rewrite obj_remove_none; [done|]. intros Hin. rewrite Forall_forall in Hhd. destruct (Hhd _ Hin) as [Hle Hn].
      apply Hn, (anti_symm String.le); [done|]. by apply leb_le.
    + rewrite bool_decide_eq_false_2 by congruence. by rewrite IH.
Qed.

Definition signature_value (s : CardSignature) : Value := VObject [("protected", VString (cs_protected s)); ("signature", VString (cs_signature s))].
(** serde's round trips over a list of signatures and over one header, and base64's. *)
Record card_serde (header : Value) : Prop := mkCardSerde {
  cd_b64 s : b64url_decode (b64url_encode s) = Some s;
  cd_header : from_slice (to_string header) = Some header;
  cd_signatures sigs : card_signatures_from_value (VArray (map signature_value sigs)) = Some sigs
}.
Definition signed_before (m : Map) (sigs : list CardSignature) : Prop :=
  obj_get CARD_SIGNATURES_FIELD m = match sigs with [] => None | _ => Some (VArray (map signature_value sigs)) end.
Lemma attest_surface_ok m key signed sigs : signed_before m sigs → value_wf (VObject m) = true → attest_surface (VObject m) key = Ok signed →
  ∃ sig raw, cs_protected sig = b64url_encode (to_string (card_header key)) ∧ cs_signature sig = b64url_encode raw ∧
    ik_signer key (signing_input (cs_protected sig) (b64url_encode (card_signing_input (VObject m)))) = Ok raw ∧
    vget CARD_SIGNATURES_FIELD signed = Some (VArray (map signature_value (sigs ++ [sig]))) ∧
    card_signing_input signed = card_signing_input (VObject m).
Proof.
  intros Hold Hwf (raw & Hraw & [= <-])%result_bind_ok. cbn in Hwf. apply andb_true_iff in Hwf as [Hs%keys_increasing_sorted _].
  exists (mkCardSignature (b64url_encode (to_string (card_header key))) (b64url_encode raw)), raw. split_and!; [done|done|done| |].
  - cbn [vget]. rewrite obj_get_insert, bool_decide_eq_true_2 by done. unfold signed_before in Hold. rewrite Hold, map_app. by destruct sigs.
  - unfold card_signing_input. by rewrite remove_inserted.
Qed.

(** A document signed by [attest surface] passes stage 3 under any trusted set that holds the
    signing key, and a document that passed before under other keys passes still: signing
    again takes no earlier signature away. *)
Theorem attested_surface_verifies m key signed sigs keys k require req fetched :
  card_serde (card_header key) → signed_before m sigs → value_wf (VObject m) = true →
  (∀ input raw, ik_signer key input = Ok raw → valid k (ik_alg key) input raw = true) →
  attest_surface (VObject m) key = Ok signed → ar_card req = None → fs_raw fetched = signed →
  (keys !! ik_kid key = Some (ik_alg key, k) → alg_name (ik_alg key) ∈ ACCEPTED_ALG_NAMES →
     verify_card (mkJwksCardVerifier keys require) req fetched = Ok (mkCardProof true)) ∧
  (∀ keys', verify_card (mkJwksCardVerifier keys' require) req (mkFetchedSurface (fs_kind fetched) (VObject m)) = Ok (mkCardProof true) →
     verify_card (mkJwksCardVerifier keys' require) req fetched = Ok (mkCardProof true)).
Proof.
  intros [Hb64 Hhd Hsigs] Hold Hwf Hhonest Hatt Hreq Hf.
  destruct (attest_surface_ok m key signed sigs Hold Hwf Hatt) as (sig & raw & Ep & Es & Hraw & Hget & Hinput).
  assert (∀ keys', no_keys keys' = false → (∃ s, s ∈ sigs ++ [sig] ∧ is_ok (verify_one keys' s (b64url_encode (card_signing_input (VObject m)))) = true) →
    verify_card (mkJwksCardVerifier keys' require) req fetched = Ok (mkCardProof true)) as Hany.
  { intros keys' Hne Hsome. unfold verify_card. rewrite Hreq, Hf. cbv zeta. cbn [default from_option]. rewrite Hget, Hsigs. cbn [ok_or result_bind].
    rewrite bool_decide_eq_false_2 by (rewrite length_app; cbn; lia). cbn [jc_keys guard_err]. rewrite Hne, Hinput.
    apply (any_signature_tries keys' _ CARD_SIGNATURE_INVALID) in Hsome. by destruct (any_signature _ _ _ _). }
  split.
  - intros Hk Hacc. apply Hany; [by eapply no_keys_false|]. exists sig. split; [apply elem_of_app; right; by left|].
    enough (verify_one keys sig (b64url_encode (card_signing_input (VObject m))) = Ok (ik_kid key)) as -> by done.
    unfold verify_one, verify_raw. apply result_bind_ok. exists [("alg", VString (alg_name (ik_alg key))); ("kid", VString (ik_kid key))]. split.
    { apply protected_header_ok. exists (to_string (card_header key)). by rewrite Ep, Hb64, Hhd. }
    cbn [obj_get fst]. apply guard_err_ok. split; [done|]. apply result_bind_ok. exists (ik_kid key, (ik_alg key, k)).
    split; [by apply named_key_ok|]. apply result_bind_ok. exists true. split; [|done]. apply ok_or_ok, (crypto_verify_true valid).
    exists raw. rewrite Es, Hb64. split; [done|]. by apply Hhonest.
  - intros keys' Hbefore. unfold verify_card in Hbefore. rewrite Hreq in Hbefore. cbv zeta in Hbefore. cbn [default from_option fs_raw vget] in Hbefore.
    rewrite Hold in Hbefore. destruct sigs as [|s0 sigs]; [by apply guard_err_ok in Hbefore as [_ ?]|]. rewrite Hsigs in Hbefore. cbn [ok_or result_bind] in Hbefore.
    apply guard_err_ok in Hbefore as [_ [Hne (kid & Hkid & _)%result_bind_ok]%guard_err_ok]. cbn [jc_keys] in *. apply Hany; [done|].
    apply any_signature_ok in Hkid as (s & Hin & Hs). exists s. split; [apply elem_of_app; by left|by rewrite Hs].
Qed.
End Sound.

(** ** A small codec with the laws, and registrations under it *)

Module AttestExamples.
Import TestPrinter TestSha TestNfc.

(** Text encodings are the identity, a key is its name, and a signature by it says so. *)
Definition no_key (s : string) : option string := None.
Definition server_id : string := "spiffe://bank/mcp".
Definition header_value : Value := VObject [("alg", VString "ES256"); ("kid", VString "kt")].
Definition claims_value : Value :=
  VObject [("aud", VString "plane"); ("exp", VNumber (PosInt 900)); ("sub", VString server_id)].
Definition workload : Map := [("aud", VString "plane"); ("iss", VString "https://cluster"); ("sub", VString "ns:pay")].
Definition workload_value : Value := VObject (obj_insert "exp" (VNumber (PosInt 900)) workload).
Definition statement_about (digest : string) : Value :=
  VObject [("_type", VString IN_TOTO_STATEMENT_V1);
           ("predicate", VObject [("builder", VObject [("id", VString "ci")])]);
           ("predicateType", VString "https://slsa.dev/provenance/v1");
           ("subject", VArray [VObject [("digest", VObject [("sha256", VString digest)])]])].
Definition plane_key : IssuerKey := mkIssuerKey "kc" ES256 Local (λ _, Ok "by kc").
#[export] Instance parse : SerdeParse := λ s,
  if bool_decide (s = "h") then Some header_value
  else if bool_decide (s = "b") then Some claims_value
  else if bool_decide (s = "o") then Some workload_value
  else if bool_decide (s = "this") then Some (statement_about "ab")
  else if bool_decide (s = "other") then Some (statement_about "cd")
  else if bool_decide (s = to_string (card_header plane_key)) then Some (card_header plane_key)
  else None.
#[export] Instance jose : Jose := {|
  EncodingKey := unit; DecodingKey := string;
  encoding_from_ec_pem _ := None; encoding_from_ed_pem _ := None;
  decoding_from_ec_pem := no_key; decoding_from_ed_pem := no_key; decoding_from_jwk _ := None; jwkset_from_str _ := None;
  crypto_sign _ _ _ := None; b64url_encode s := s; b64url_decode s := Some s;
  header_to_vec _ := ""; decode_header _ := None; payload_to_vec _ := ""; payload_from_value _ := None; jwt_decode _ _ _ := None
|}.
#[export] Instance tables : CharTables := {| is_alphanumeric c := is_ascii_alphanumeric c; to_lowercase s := s |}.
Definition valid (key : string) (_ : Algorithm) (_ sig : string) : bool := bool_decide (sig = "by " +:+ key).
Definition validity : @DecodingKey jose → Algorithm → string → string → bool := valid.
Definition token : string := compact "h" "b" "by kt".
Definition svid_of (vd : Validation) (t : string) (key : string) : option SvidClaims :=
  if bool_decide (t = token ∧ key = "kt" ∧ vd_audience vd = "plane" ∧ vd_issuer vd = None) then Some (mkSvidClaims server_id 900 None) else None.
Definition workload_token : string := compact "h" "o" "by kt".
Definition oidc_of (vd : Validation) (t : string) (key : string) : option OidcClaims :=
  if bool_decide (t = workload_token ∧ key = "kt" ∧ vd_audience vd = "plane" ∧ vd_issuer vd = Some "https://cluster")
  then Some (mkOidcClaims 900 None workload) else None.
Definition signature_of (v : Value) : option CardSignature :=
  p ← (vget "protected" v ≫= as_str); s ← (vget "signature" v ≫= as_str); Some (mkCardSignature p s).
Definition dsse_signature_of (v : Value) : option DsseSignature :=
  s ← (vget "sig" v ≫= as_str); Some (mkDsseSignature (default "" (vget "keyid" v ≫= as_str)) s).
Fixpoint all_of {A} (f : Value → option A) (l : list Value) : option (list A) :=
  match l with [] => Some [] | v :: l => x ← f v; xs ← all_of f l; Some (x :: xs) end.
#[export] Instance codec : AttestCodec := {|
  crypto_verify sg msg key alg := Some (valid key alg msg sg);
  b64_standard s := Some s;
  svid_decode vd t key := svid_of vd t key;
  oidc_decode vd t key := oidc_of vd t key;
  card_signatures_from_value v := l ← as_array v; all_of signature_of l;
  dsse_from_value v :=
    p ← (vget "payload" v ≫= as_str); t ← (vget "payloadType" v ≫= as_str); l ← (vget "signatures" v ≫= as_array);
    sigs ← all_of dsse_signature_of l; Some (mkDsseEnvelope p t sigs)
|}.
#[export] Instance laws : AttestLaws validity.
Proof.
  split.
  - intros sg msg key alg. cbn. split; [intros [= Hv]; by exists sg|]. intros (sig & [= <-] & Hv). by f_equal.
  - intros vd t key c. cbn. unfold svid_of. case_bool_decide as Hc; [|done]. destruct Hc as (-> & -> & Ha & Hi). intros [= <-].
    exists claims_value. split_and!; [|split|done|done|].
    + by exists "h", "b", "by kt", "by kt", "b".
    + left. by rewrite Ha.
    + intros iss E. rewrite Hi in E. done.
    + intros n. by split.
  - intros vd t key c. cbn. unfold oidc_of. case_bool_decide as Hc; [|done]. destruct Hc as (-> & -> & Ha & Hi). intros [= <-].
    exists workload_value. split_and!; [|split|done| |].
    + by exists "h", "o", "by kt", "by kt", "o".
    + left. by rewrite Ha.
    + intros iss E. rewrite Hi in E. injection E as <-. by left.
    + intros n. by split.
    + intros k x Hk. unfold workload_value, vget. rewrite obj_get_insert. case_bool_decide as E; [|done]. by subst k.
Qed.
Lemma serde : card_serde (card_header plane_key).
Proof.
  split; [done|vm_compute; reflexivity|]. intros sigs. cbn. induction sigs as [|[p s] sigs IH]; [done|].
  cbn [map all_of signature_value signature_of]. by rewrite IH.
Qed.

Definition tool : Value := VObject [("description", VString "reads a file"); ("name", VString "read")].
Definition surface : Map := [("tools", VArray [tool])].
Definition signed : Value := match attest_surface (VObject surface) plane_key with Ok v => v | Err _ => VNull end.
Definition source (_ : AdmissionRequest) : result FetchedSurface := Ok (mkFetchedSurface McpTools signed).
Definition request : AdmissionRequest :=
  mkAdmissionRequest McpServer (Some (mkEntityId server_id)) None (Some "https://mcp") [] (mkHumanRef "pat@bank") (mkZoneId "internal")
    (mkDeclared [] [] None None) Enforce.
Definition envelope (payload : string) : Value :=
  VObject [("payload", VString payload); ("payloadType", VString DSSE_PAYLOAD_TYPE);
           ("signatures", VArray [VObject [("sig", VString "by kp")]])].
Definition key_of (k : string) : IssuerKeys := {[ k := (ES256, k) ]}.
Definition material (envelopes : list Value) : Material :=
  mkMaterial (Some (mkJwtSvidIdentity (key_of "kt") "plane" token 60 100)) None (key_of "kc") true (key_of "kp") envelopes (Some "ab") false ["ci"].
Definition outcome (envelopes : list Value) : result AdmissionOutcome :=
  let? ctx := register_ctx (material envelopes) source NoScreening request 100 in Admission_admit request ctx.
Definition get_ctx (m : Material) : AdmissionCtx :=
  match register_ctx m source NoScreening request 100 with Ok c => c | Err _ => observe_ctx source 100 end.
Definition attested : AdmissionOutcome :=
  match outcome [envelope "this"] with Ok o => o | Err _ => mkAdmissionOutcome (Entity_pending (mkEntityId "") McpServer (mkHumanRef "") (mkZoneId "") Tier_ONE 0) [] [] end.

Lemma attested_surface_verifies_witness :
  verify_card (mkJwksCardVerifier (key_of "kc") true) request (mkFetchedSurface McpTools signed) = Ok (mkCardProof true).
Proof.
  refine (proj1 (attested_surface_verifies validity surface plane_key signed [] (key_of "kc") "kc" true request (mkFetchedSurface McpTools signed)
    serde _ _ _ _ _ _) _ _); [reflexivity|vm_compute; reflexivity| |vm_compute; reflexivity|reflexivity|reflexivity|vm_compute; reflexivity|by left].
  intros input raw [= <-]. reflexivity.
Defined.
Definition cluster : OidcIdentity :=
  mkOidcIdentity (key_of "kt") "https://cluster" "prod" "plane" "sub" workload_token 60 100.
Definition registering : AdmissionRequest :=
  mkAdmissionRequest Agent None None None [] (mkHumanRef "pat@bank") (mkZoneId "internal") (mkDeclared [] [] None None) Enforce.
Definition workload_proof : IdentityProof := mkIdentityProof (mkEntityId "urn:wc:oidc:prod:ns:pay") true.
Lemma oidc_ids_apart_witness :
  oidc_identity cluster registering = Ok workload_proof ∧ ∃ v s, vget (oi_subject_claim cluster) v = Some (VString s).
Proof.
  assert (oidc_identity cluster registering = Ok workload_proof) as Hok by (vm_compute; reflexivity). split; [exact Hok|].
  destruct (oidc_ids_apart validity cluster cluster registering registering workload_proof workload_proof Hok Hok eq_refl)
    as (_ & v & _ & s & _ & _ & _ & Hs & _ & _). exists v, s. exact Hs.
Defined.
(** The first envelope that verifies decides, whatever it is about: evidence for another
    artifact, given first, hides the evidence for this one. *)
Lemma first_envelope_decides :
  pp_verified <$> (match verify_provenance (mkDsseProvenanceVerifier (key_of "kp") [envelope "this"; envelope "other"] (Some "ab") ["ci"]) request with
                   | Ok p => Some p | Err _ => None end) = Some true ∧
  pp_verified <$> (match verify_provenance (mkDsseProvenanceVerifier (key_of "kp") [envelope "other"; envelope "this"] (Some "ab") ["ci"]) request with
                   | Ok p => Some p | Err _ => None end) = Some false.
Proof. split; vm_compute; reflexivity. Qed.
End AttestExamples.
