(* ===== verification/Register.v ===== *)
(** * Register: the commands that put a party on the register ([wc-cli/src/main.rs])

    [register server], [register agent] and [activate]: the request the flags make, the keys
    and material behind the verifiers, the screener over the estate, admission, the write and
    its evidence.  Files are a function of their path; the HTTP source of a surface and what
    the disk answers are arguments; the sentences and debug forms of a record are prose. *)

From stdpp Require Import pretty.
From S2P Require Import Prelude Text Errors Model Json Canon Contract Artifact Log Store Registry Std Chain Evidence Rekor Admission Consent Attest Screen.

#[local] Open Scope N_scope.

(** The flags the commands read. *)
Record Args := mkArgs {
  g_id : option string; g_endpoint : option string; g_card : option string; g_surface : option string;
  g_owner : option string; g_zone : option string; g_tier : option N; g_data_classes : list string; g_jurisdictions : list string;
  g_service : option string; g_enforce : bool;
  g_screen_rules : option string; g_acceptances : option string; g_screen_mode : option string;
  g_trust_key : list string; g_card_key : list string; g_prov_key : list string; g_trust_jwks : list string; g_attest : list string;
  g_svid : option string; g_oidc_token : option string; g_aud : option string; g_leeway : option N;
  g_oidc_issuer : option string; g_oidc_label : option string; g_oidc_subject_claim : option string;
  g_require_card_signature : bool; g_artifact_digest : option string; g_bind_surface : bool; g_builder : list string;
  g_by : option string; g_why : option string
}.
Definition require_flag (o : option string) : result string := ok_or o CONFIG_INVALID.

(** [str::rsplit_once]. *)
Definition rsplit_once (c : ascii) (s : string) : option (string * string) :=
  let parts := split_on c s in
  if (length parts <=? 1)%nat then None else Some (join (String c "") (removelast parts), List.last parts "").
Definition colon_byte : ascii := ":".

(** The acting operator: a flag, else the environment, else the service. *)
Definition actor (flag env : option string) : result Actor :=
  match flag, env with
  | Some id, _ | None, Some id => let? h := HumanRef_new id in Ok (ActorHuman h)
  | None, None => Ok (ActorService "cli")
  end.
Definition actor_id (flag env : option string) : string :=
  match flag, env with Some id, _ | None, Some id => id | None, None => "service:cli" end.

(** What is recorded of a refusal and of a registration, beside the fields that are named. *)
Class RegisterProse := {
  refusal_text : Code → string;
  refusal_detail : Mode → Value;
  tier_rationale : AdmissionOutcome → string;
  registration_detail : Entity → AdmissionOutcome → Value
}.

Section Commands.
Context `{AttestCodec, !SerdeParse, !ScreenTables, !CharTables, !SerdeJson, !Nfc, !Sha256, !ScreenToml, !RegisterProse, !FramedJson Event}.
Context {E A : Type} `{!EvidenceLog E A} (file : string → option string).

(** ** The request *)

Definition derive_urn (seed : string) : string := "urn:wc:" +:+ bytes_take 24 (sha256_hex seed).
Definition given_id (g : Args) (seed : string) : result EntityId := EntityId_new (default (derive_urn seed) (g_id g)).
Definition read_json (path : string) : result Value :=
  let? text := ok_or (file path) CONFIG_INVALID in ok_or (from_slice text) CONFIG_INVALID.
(** [u8::try_from(t).unwrap_or(255)]. *)
Definition declared (g : Args) : result Declared :=
  let? tier := match g_tier g with
               | Some t => let? t := Tier_new (if t <? 256 then t else 255) in Ok (Some t)
               | None => Ok None
               end in
  Ok (mkDeclared (g_data_classes g) (g_jurisdictions g) tier (g_service g)).
Definition mode (g : Args) : Mode := if g_enforce g then Errors.Enforce else Errors.Observe.
Definition common_request (g : Args) (kind : Kind) (id : EntityId) (card : option Value) (endpoint : option string) : result AdmissionRequest :=
  let? owner := require_flag (g_owner g) in
  let? owner := HumanRef_new owner in
  let? zone := require_flag (g_zone g) in
  let? zone := ZoneId_new zone in
  let? declared := declared g in
  Ok (mkAdmissionRequest kind (Some id) card endpoint [] owner zone declared (mode g)).
Definition server_request (g : Args) : result AdmissionRequest :=
  let? endpoint := require_flag (g_endpoint g) in
  let? id := given_id g endpoint in
  common_request g McpServer id None (Some endpoint).
Definition agent_request (g : Args) : result AdmissionRequest :=
  let? card_path := require_flag (g_card g) in
  let? card := read_json card_path in
  let? id := given_id g card_path in
  common_request g Agent id (Some card) (g_endpoint g).

(** ** Keys and material *)

Definition KEY_ALGS : list string := ["ES256"; "ES384"; "EdDSA"; "Ed25519"].
Definition key_spec (spec : string) : result (string * string * string) :=
  let? p := ok_or (split_once "=" spec) CONFIG_INVALID in
  let '(kid, rest) := p in
  match rsplit_once colon_byte rest with
  | Some (path, alg) => if str_in alg KEY_ALGS then Ok (kid, path, alg) else Ok (kid, rest, "ES256")
  | None => Ok (kid, rest, "ES256")
  end.
Definition load_key (keys : IssuerKeys) (spec : string) : result IssuerKeys :=
  let? k := key_spec spec in
  let '(kid, path, alg) := k in
  let? pem := ok_or (file path) CONFIG_INVALID in
  if bool_decide (alg = "ES256") then add_ec_pem keys kid pem ES256
  else if bool_decide (alg = "ES384") then add_ec_pem keys kid pem ES384
  else if str_in alg ["EdDSA"; "Ed25519"] then add_ed_pem keys kid pem
  else Err ALG_NOT_ASYMMETRIC.
Definition load_jwks (keys : IssuerKeys) (path : string) : result IssuerKeys :=
  let? doc := ok_or (file path) CONFIG_INVALID in
  let? r := add_jwks keys doc in
  Ok r.1.
(** The keys of one flag, and the documents of [--trust-jwks] with them, whichever the flag. *)
Definition key_set (g : Args) (specs : list string) : result IssuerKeys :=
  let? keys := foldR load_key IssuerKeys_new specs in
  foldR load_jwks keys (g_trust_jwks g).
Definition attestation_envelopes (g : Args) : result (list Value) := mapR read_json (g_attest g).
Definition token_file (path : string) : result string :=
  let? text := ok_or (file path) CONFIG_INVALID in Ok (trim_text text).
Definition material (g : Args) (now : N) : result Material :=
  let? trust_keys := key_set g (g_trust_key g) in
  let? card_keys := key_set g (g_card_key g) in
  let? prov_keys := key_set g (g_prov_key g) in
  let? envelopes := attestation_envelopes g in
  let leeway := default 60 (g_leeway g) in
  let? svid := match g_svid g with
               | Some path =>
                 let? token := token_file path in
                 Ok (Some (mkJwtSvidIdentity trust_keys (default "" (g_aud g)) token leeway now))
               | None => Ok None
               end in
  let? oidc := match g_oidc_token g with
               | Some path =>
                 let? token := token_file path in
                 Ok (Some (mkOidcIdentity trust_keys (default "" (g_oidc_issuer g)) (default "" (g_oidc_label g)) (default "" (g_aud g))
                             (default "sub" (g_oidc_subject_claim g)) token leeway now))
               | None => Ok None
               end in
  Ok (mkMaterial svid oidc card_keys (g_require_card_signature g) prov_keys envelopes (g_artifact_digest g) (g_bind_surface g) (g_builder g)).

(** ** Screening *)

Definition screen_with (g : Args) (estate : option Store) : result RulesetScreener :=
  let? rules := match g_screen_rules g with Some path => rules_load (file path) | None => Ok ScreenRules_default end in
  let? acceptances := match g_acceptances g with Some path => acceptances_load (file path) | None => Ok [] end in
  let? mode := ScreenMode_parse (default "flag" (g_screen_mode g)) in
  Ok (mkRulesetScreener rules acceptances (estate_names estate) mode Limits_default).

(** ** Admission, the write and its evidence *)

(** What the system answers: whether the store opens to be read and to be written, whether the
    evidence does, and the commit and the record. *)
Record RegisterIo := mkRegisterIo {
  io_readable : bool; io_store : option Code; io_evidence : option Code; io_commit : Io; io_record : A
}.
Record World := mkWorld { w_store : Store; w_evidence : E }.
Definition opened (o : option Code) : result unit := match o with Some e => Err e | None => Ok tt end.
Definition record_if_open (w : World) (event : LifecycleEvent) (now : N) (io : RegisterIo) : World * result N :=
  match opened (io_evidence io) with
  | Err e => (w, Err e)
  | Ok _ => let '(ev, r) := ev_record (w_evidence w) event now (io_record io) in (mkWorld (w_store w) ev, r)
  end.
Definition denial (e : Code) (mode : Mode) (by_ : string) : LifecycleEvent :=
  with_detail (with_reason (LifecycleEvent_new EkAdmissionDenied by_) (refusal_text e)) (refusal_detail mode).
Definition registration (entity : Entity) (o : AdmissionOutcome) (by_ : string) : LifecycleEvent :=
  with_detail (with_reason (naming_entities (LifecycleEvent_new EkRegister by_) [entity_str (ent_id entity)]) (tier_rationale o))
    (registration_detail entity o).
(** Everything before admission: the verifiers, the screener, the context. *)
Definition registration_ctx (g : Args) (source : AdmissionRequest → result FetchedSurface) (request : AdmissionRequest) (estate : option Store)
    (now : N) : result AdmissionCtx :=
  let? screener := screen_with g estate in
  let? material := material g now in
  register_ctx material source (ruleset_screen screener) request now.
Definition admit_and_record (g : Args) (env : option string) (request : AdmissionRequest) (source : AdmissionRequest → result FetchedSurface)
    (now : N) (io : RegisterIo) : stateR World (Entity * N) Code := λ w,
  match registration_ctx g source request (if io_readable io then Some (w_store w) else None) now with
  | Err e => (w, Err e)
  | Ok ctx =>
    match Admission_admit request ctx with
    | Err e =>
      match opened (io_evidence io) with
      | Err e' => (w, Err e')
      | Ok _ => ((record_if_open w (denial e (ar_mode request) (actor_id (g_by g) env)) now io).1, Err e)
      end
    | Ok outcome =>
      match (let? _ := opened (io_store io) in actor (g_by g) env) with
      | Err e => (w, Err e)
      | Ok by_ =>
        let '(s, r) := put (registry (w_store w) by_ now) (ao_entity outcome) (io_commit io) in
        let w := mkWorld s (w_evidence w) in
        match r with
        | Err e => (w, Err e)
        | Ok entity =>
          let '(w, r) := record_if_open w (registration entity outcome (actor_id (g_by g) env)) now io in
          (w, let? seq := r in Ok (entity, seq))
        end
      end
    end
  end.
(** [http] is what fetching over MCP gives. *)
Definition server_source (g : Args) (http : AdmissionRequest → result FetchedSurface) : result (AdmissionRequest → result FetchedSurface) :=
  match g_surface g with
  | Some path => let? raw := read_json path in Ok (InlineSurface McpTools raw)
  | None => Ok http
  end.
Definition register_server (g : Args) (env : option string) (http : AdmissionRequest → result FetchedSurface) (now : N) (io : RegisterIo)
    : stateR World (Entity * N) Code := λ w,
  match (let? request := server_request g in let? source := server_source g http in Ok (request, source)) with
  | Err e => (w, Err e)
  | Ok (request, source) => admit_and_record g env request source now io w
  end.
Definition register_agent (g : Args) (env : option string) (now : N) (io : RegisterIo) : stateR World (Entity * N) Code := λ w,
  match agent_request g with
  | Err e => (w, Err e)
  | Ok request => admit_and_record g env request (InlineSurface A2aCard (default VNull (ar_card request))) now io w
  end.
Definition activate (g : Args) (env : option string) (now : N) (io : RegisterIo) : stateR World (EntityId * N) Code := λ w,
  match (let? raw := require_flag (g_id g) in let? id := EntityId_new raw in let? _ := opened (io_store io) in
         let? by_ := actor (g_by g) env in Ok (id, by_)) with
  | Err e => (w, Err e)
  | Ok (id, by_) =>
    let why := default "admitted" (g_why g) in
    let '(s, r) := transition (registry (w_store w) by_ now) id Active why (io_commit io) in
    let w := mkWorld s (w_evidence w) in
    match r with
    | Err e => (w, Err e)
    | Ok _ =>
      let event := with_reason (naming_entities (LifecycleEvent_new EkAdmit (actor_id (g_by g) env)) [entity_str id]) why in
      let '(w, r) := record_if_open w event now io in
      (w, let? seq := r in Ok (id, seq))
    end
  end.
End Commands.

(** ** What a registration rests on *)

Section Registered.
Context `{AttestCodec, !SerdeParse, !ScreenTables, !CharTables, !SerdeJson, !Nfc, !Sha256, !ScreenToml, !RegisterProse, !FramedJson Event}.
Context {E A : Type} `{!EvidenceLog E A} (file : string → option string).

(** The register after an entity was written: nothing else of it changed. *)
Definition entered (p p' : Projection) (entity : Entity) : Prop := pr_entities p' = <[ent_id entity := entity]> (pr_entities p).

Lemma put_entered s by_ now entity io s' r : put (registry s by_ now) entity io = (s', r) →
  match r with
  | Ok e => (∃ created, e = set_times entity created now) ∧ entered (st_projection s) (st_projection s') e ∧
      ∀ old, pr_entities (st_projection s) !! ent_id e = Some old → ent_lifecycle old = Pending
  | Err _ => st_projection s' = st_projection s
  end.
Proof.
  unfold put. intros [(-> & e & _ & ->)|(a & Ha & Hl)]%validated_cases; [done|].
  assert (∃ created, a = set_times entity created now) as [created Hcr].
  { unfold get, proj_entity in Ha. destruct (pr_entities _ !! _) as [x|]; cbn in Ha; [apply guard_err_ok in Ha as [_ Ha]|]; injection Ha as <-; by eexists. }
  assert (∀ old, pr_entities (st_projection s) !! ent_id a = Some old → ent_lifecycle old = Pending) as Hold.
  { intros old Ho. subst a. cbn [set_times ent_id] in Ho. unfold get, proj_entity, registry in Ha. cbn [rg_store] in Ha. rewrite Ho in Ha.
    cbn in Ha. by apply guard_err_ok in Ha as [Hp%negb_false_iff%bool_decide_eq_true _]. }
  apply log_fact_cases in Hl; [|].
  - destruct Hl as [(Hp & _ & e & ->)|[(_ & seq & Happ & _) ->]]; [done|]. unfold apply in Happ. cbn in Happ. injection Happ as Hp.
    assert (require_entity (st_projection s') (ent_id a) = Ok a) as ->.
    { apply lookup_require. rewrite <-Hp. cbn. by rewrite lookup_insert_eq. }
    split; [by exists created|]. split; [|done]. unfold entered. by rewrite <-Hp.
  - cbn [admissible]. intros old Ho. by apply Hold.
Qed.

(** A request that is refused before admission leaves everything as it was. *)
Lemma admit_refused g env request source now io w e :
  registration_ctx file g source request (if io_readable io then Some (w_store w) else None) now = Err e →
  admit_and_record file g env request source now io w = (w, Err e).
Proof. intros He. unfold admit_and_record. by rewrite He. Qed.

Context `{!EvidenceLogLaws E A}.

Lemma record_if_open_ok w event now (io : RegisterIo) log w' seq : ev_holds (w_evidence w) log → recordable event now →
  record_if_open w event now io = (w', Ok seq) →
  w_store w' = w_store w ∧ ev_holds (w_evidence w') (log ++ [(to_draft event, now)]).
Proof.
  intros Hh Hr. unfold record_if_open. destruct (opened _); [|done].
  destruct (ev_record (w_evidence w) event now (io_record io)) as [ev r] eqn:Er. intros [= <- ->].
  split; [done|]. by eapply record_appends.
Qed.
Lemma record_if_open_store w event now (io : RegisterIo) : w_store (record_if_open w event now io).1 = w_store w.
Proof. unfold record_if_open. destruct (opened _); [|done]. by destruct (ev_record _ _ _ _). Qed.

(** A registration's request went through admission: the verifiers and the screener are those
    its flags and their files make, and they let it through with this outcome; and [entity] is
    that outcome's, pending, as of this instant. *)
Definition came_through (g : Args) (request : AdmissionRequest) (source : AdmissionRequest → result FetchedSurface) (now : N)
    (estate : option Store) (o : AdmissionOutcome) (entity : Entity) : Prop :=
  ∃ screener mt ctx created, screen_with file g estate = Ok screener ∧ material file g now = Ok mt ∧
    register_ctx mt source (ruleset_screen screener) request now = Ok ctx ∧ Admission_admit request ctx = Ok o ∧
    entity = set_times (ao_entity o) created now ∧ ent_lifecycle entity = Pending.
(** The entity is the one thing of the register that changed, over nothing but a pending one. *)
Definition entered_over (p p' : Projection) (entity : Entity) : Prop :=
  entered p p' entity ∧ ∀ old, pr_entities p !! ent_id entity = Some old → ent_lifecycle old = Pending.

Lemma registration_ctx_ok g source request estate now ctx : registration_ctx file g source request estate now = Ok ctx →
  ∃ screener mt, screen_with file g estate = Ok screener ∧ material file g now = Ok mt ∧
    register_ctx mt source (ruleset_screen screener) request now = Ok ctx.
Proof. unfold registration_ctx. intros (screener & ? & (mt & ? & ?)%result_bind_ok)%result_bind_ok. by exists screener, mt. Qed.
Lemma admitted_pending request ctx o : Admission_admit request ctx = Ok o → ent_lifecycle (ao_entity o) = Pending.
Proof. intros (? & ? & ? & ? & ? & ? & _ & _ & _ & _ & _ & Ho)%admission_exact. cbv zeta in Ho. tauto. Qed.

(** C11: what a registration enters is what admission let through.  When it succeeds, the
    flags' own keys, rules and acceptances made the verifiers and the screener, the admission
    pipeline let the request through them, and the one thing that changed of the register is
    that outcome's entity, pending, at this instant, over nothing but an entity still pending;
    the registration of that very entity and outcome is the last row in evidence.  When it
    fails, the register is as it was -- unless exactly such an entity was entered and only
    the record of its registration then failed.  (An estate manifest is another way onto
    the register, and does not come through here.) *)
Theorem registration_rests g env request source now io w log :
  ev_holds (w_evidence w) log → (∀ entity o, value_wf (registration_detail entity o) = true) → is_u64 now →
  let estate := if io_readable io then Some (w_store w) else None in
  match admit_and_record file g env request source now io w with
  | (w', Ok (entity, seq)) => ∃ o, came_through g request source now estate o entity ∧
      entered_over (st_projection (w_store w)) (st_projection (w_store w')) entity ∧
      ev_holds (w_evidence w') (log ++ [(to_draft (registration entity o (actor_id (g_by g) env)), now)])
  | (w', Err e) => st_projection (w_store w') = st_projection (w_store w) ∨
      ∃ entity o, came_through g request source now estate o entity ∧
        entered_over (st_projection (w_store w)) (st_projection (w_store w')) entity ∧
        (w', Err e) = record_if_open (mkWorld (w_store w') (w_evidence w)) (registration entity o (actor_id (g_by g) env)) now io
  end.
Proof.
  intros Hh Hwf Hnow estate. unfold admit_and_record. fold estate. destruct (registration_ctx _ _ _ _ _ _) as [ctx|e] eqn:Hctx; [|by left].
  apply registration_ctx_ok in Hctx as (screener & mt & Hsc & Hmt & Hreg).
  destruct (Admission_admit request ctx) as [o|e] eqn:Ho.
  2: { destruct (opened (io_evidence io)); [|by left].
       pose proof (record_if_open_store w (denial e (ar_mode request) (actor_id (g_by g) env)) now io) as Hs.
       left. cbn [fst]. by rewrite Hs. }
  destruct (let? _ := opened (io_store io) in actor (g_by g) env) as [by_|e]; [|by left].
  destruct (put _ _ _) as [s r] eqn:Hput. apply put_entered in Hput. destruct r as [entity|e]; [|by left].
  destruct Hput as ([created Hcr] & Hent & Hold).
  assert (came_through g request source now estate o entity) as Hcame.
  { exists screener, mt, ctx, created. split_and!; try done. subst entity. by apply admitted_pending in Ho. }
  pose proof (record_if_open_store (mkWorld s (w_evidence w)) (registration entity o (actor_id (g_by g) env)) now io) as Hst.
  destruct (record_if_open (mkWorld s (w_evidence w)) _ now io) as [w' r] eqn:Er. cbn [fst w_store] in Hst. destruct r as [seq|e]; cbn [result_bind].
  - exists o. rewrite Hst. split; [done|]. split; [done|].
    assert (recordable (registration entity o (actor_id (g_by g) env)) now) as Hr by (split; [apply Hwf|done]).
    by destruct (record_if_open_ok (mkWorld s (w_evidence w)) _ now io log w' seq Hh Hr Er).
  - right. exists entity, o. rewrite Hst, Er. by split_and!.
Qed.
End Registered.

(** ** Where the flags say less than they do *)

Section Flags.
Context `{AttestCodec, !SerdeParse, !Sha256}.

(** The documents of [--trust-jwks], told of as the keys of an identity token's issuer, are loaded
    for every flag: alone they are the keys a card and provenance are verified under as well. *)
Lemma trust_jwks_for_all file g now mt : material file g now = Ok mt → g_card_key g = [] → g_prov_key g = [] →
  foldR (load_jwks file) IssuerKeys_new (g_trust_jwks g) = Ok (mt_card_keys mt) ∧ mt_prov_keys mt = mt_card_keys mt.
Proof.
  unfold material. intros (tk & _ & (ck & Hck & (pk & Hpk & (en & _ & Hm)%result_bind_ok)%result_bind_ok)%result_bind_ok)%result_bind_ok Hc Hp.
  apply result_bind_ok in Hm as (svid & _ & (oidc & _ & [= <-])%result_bind_ok). rewrite Hc in Hck. rewrite Hp in Hpk.
  unfold key_set in Hck, Hpk. cbn [foldR result_bind] in Hck, Hpk. rewrite Hck in Hpk. injection Hpk as <-. by rewrite Hck.
Qed.
(** An agent registered without an id is named after the path of its card, whatever the card says:
    two agents whose cards were read from one path are one party. *)
Lemma agent_named_by_path file file' g r r' path : g_card g = Some path → g_id g = None →
  agent_request file g = Ok r → agent_request file' g = Ok r' →
  ar_id r = ar_id r' ∧ ar_id r = Some (mkEntityId (derive_urn path)).
Proof.
  intros Hc Hi. unfold agent_request, given_id. rewrite Hc, Hi. cbn [require_flag ok_or result_bind default from_option id].
  intros (c & _ & (i & [_ ->]%EntityId_new_ok & Hr)%result_bind_ok)%result_bind_ok.
  intros (c' & _ & (i' & [_ ->]%EntityId_new_ok & Hr')%result_bind_ok)%result_bind_ok.
  unfold common_request in Hr, Hr'. repeat (apply result_bind_ok in Hr as (? & ? & Hr); apply result_bind_ok in Hr' as (? & ? & Hr')).
  injection Hr as <-. by injection Hr' as <-.
Qed.
End Flags.

(** ** Concrete registrations *)
Module RegisterExamples.
Import TestPrinter TestSha TestNfc AttestExamples.

#[export] Instance letters : ScreenTables := {| is_alphabetic := is_ascii_lowercase; char_to_lowercase c := [c] |}.
#[export] Instance no_toml : ScreenToml := {| rules_from_toml _ := None; acceptances_from_toml _ := None |}.
#[export] Instance prose : RegisterProse := {|
  refusal_text _ := "refused"; refusal_detail _ := VNull; tier_rationale _ := "derived"; registration_detail _ _ := VNull
|}.
#[export] Instance records : FramedJson Event := {| print_framed f := pretty (fr_seq f); parse_framed _ := None; parse_seq _ := None |}.
#[export] Instance memory_log : EvidenceLog (list (EntryDraft * N)) unit := {|
  ev_record ev event now _ := (ev ++ [(to_draft event, now)], Ok (len ev)); ev_holds ev log := ev = log
|}.
#[export] Instance memory_log_laws : EvidenceLogLaws (list (EntryDraft * N)) unit.
Proof. split. by intros e log event now io e' seq -> _ [= <- _]. Qed.
#[export] Instance documents : SerdeParse := λ s, if bool_decide (s = "tools") then Some (VObject [("tools", VArray [tool])]) else None.

Definition disk (path : string) : option string := if bool_decide (path = "surface.json") then Some "tools" else None.
Definition flags : Args :=
  mkArgs None (Some "https://mcp") None (Some "surface.json") (Some "human:pat@bank") (Some "internal.pay") None [] [] None false
    None None None [] [] [] [] [] None None None None None None None false None false [] None None.
Definition empty_projection : Projection := mkProjection ∅ ∅ ∅ ∅ ∅ ∅ [] ∅ ∅ 0.
Definition world : World (E := list (EntryDraft * N)) := mkWorld (mkStore empty_projection (mkLog [] "" 0 0 1000 true) [] ∅) [].
Definition answers (evidence : option Code) : RegisterIo (A := unit) :=
  mkRegisterIo true None evidence (mkIo Written true true) tt.
Definition fetched (req : AdmissionRequest) : result FetchedSurface := Err SURFACE_UNOBTAINABLE.
Definition request : AdmissionRequest :=
  match server_request flags with Ok r => r | Err _ => mkAdmissionRequest Agent None None None [] (mkHumanRef "") (mkZoneId "") (mkDeclared [] [] None None) Errors.Observe end.
Definition source (req : AdmissionRequest) : result FetchedSurface :=
  match server_source disk flags fetched with Ok s => s req | Err e => Err e end.
Definition registered : World (E := list (EntryDraft * N)) * result (Entity * N) := admit_and_record disk flags None request source 100 (answers None) world.

Lemma registration_rests_witness : ∃ entity seq, registered.2 = Ok (entity, seq) ∧ ent_lifecycle entity = Pending ∧
  entered empty_projection (st_projection (w_store registered.1)) entity ∧ length (w_evidence registered.1) = 1%nat.
Proof.
  assert (is_ok registered.2 = true) as Hok by (vm_compute; reflexivity).
  pose proof (registration_rests disk flags None request source 100 (answers None) world [] eq_refl (λ _ _, eq_refl)) as Hr.
  specialize (Hr ltac:(vm_compute; discriminate)).
  change (admit_and_record disk flags None request source 100 (answers None) world) with registered in Hr.
  destruct registered as [w' [[entity seq]|e]]; [|discriminate Hok].
  destruct Hr as (o & (screener & mt & ctx & created & _ & _ & _ & _ & _ & Hp) & [Hent _] & Hev).
  exists entity, seq. split; [reflexivity|]. split; [exact Hp|]. split; [exact Hent|].
  change (w_evidence w' = [] ++ [(to_draft (registration entity o (actor_id None None)), 100)]) in Hev.
  change (length (w_evidence w') = 1%nat). by rewrite Hev.
Defined.
(** When the evidence does not open the command fails, after the party was entered: it is on the
    register and no row says so. *)
Lemma registered_unrecorded :
  let '(w, r) := admit_and_record disk flags None request source 100 (answers (Some BLOCKING_SINK_UNAVAILABLE)) world in
  r = Err BLOCKING_SINK_UNAVAILABLE ∧ size (pr_entities (st_projection (w_store w))) = 1%nat ∧ w_evidence w = [].
Proof. vm_compute. auto. Qed.
End RegisterExamples.
