(* ===== verification/Jwks.v ===== *)
(** * Jwks: issuer keys from a published key set ([crates/wc-mediator/src/jwks.rs])

    A set of keys with a time to live, replaced whole on every load, served from the cache
    while refreshing fails and refused past a staleness bound.  What the file or the host
    answers is the argument [Reading] of each load; the HTTP client and its timeout are not
    modelled.  An error kept for the status line is its code. *)

From S2P Require Import Prelude Text Errors Model Json Canon Contract Artifact.

#[local] Open Scope N_scope.

Inductive Origin := OriginUrl (url : string) | OriginFile (path : string).
Definition describe (o : Origin) : string := match o with OriginUrl u => u | OriginFile p => p end.

(** What is read: a file, if it can be; a reply with its status and its body, if they can. *)
Inductive Reading := FileText (text : option string) | HttpReply (reply : option (N * option string)).

Section Source.
Context `{Jose}.

Record Status := mkStatus {
  sj_origin : string;
  sj_kids : list string;
  sj_age : option N;
  sj_stale : bool;
  sj_expired : bool;
  sj_last_error : option Code
}.
Record JwksSource := mkJwksSource {
  js_origin : Origin;
  js_ttl : N;
  js_max_stale : N;
  js_keys : option IssuerKeys;
  js_loaded_at : N;
  js_last_error : option Code
}.
Definition DEFAULT_TTL : N := 300.
Definition DEFAULT_MAX_STALE : N := 3600.
Definition JwksSource_new (o : Origin) : JwksSource := mkJwksSource o DEFAULT_TTL DEFAULT_MAX_STALE None 0 None.
Definition with_ttl (s : JwksSource) (seconds : N) : JwksSource :=
  mkJwksSource (js_origin s) seconds (js_max_stale s) (js_keys s) (js_loaded_at s) (js_last_error s).
Definition with_max_stale (s : JwksSource) (seconds : N) : JwksSource :=
  mkJwksSource (js_origin s) (js_ttl s) (N.max seconds (js_ttl s)) (js_keys s) (js_loaded_at s) (js_last_error s).

(** [fetch]: the status is judged once the body is read. *)
Definition fetch (reply : option (N * option string)) : result string :=
  let? (status, body) := ok_or reply CONFIG_INVALID in
  let? body := ok_or body CONFIG_INVALID in
  guard_err (negb ((200 <=? status) && (status <? 300))) CONFIG_INVALID $ Ok body.
Definition read (r : Reading) : result string :=
  match r with FileText text => ok_or text CONFIG_INVALID | HttpReply reply => fetch reply end.

Definition failed (s : JwksSource) (e : Code) : JwksSource :=
  mkJwksSource (js_origin s) (js_ttl s) (js_max_stale s) (js_keys s) (js_loaded_at s) (Some e).
Definition load (s : JwksSource) (now : N) (r : Reading) : JwksSource * result JwksReport :=
  match read r with
  | Err e => (failed s e, Err e)
  | Ok document =>
    match add_jwks IssuerKeys_new document with
    | Ok (fresh, report) => (mkJwksSource (js_origin s) (js_ttl s) (js_max_stale s) (Some fresh) now None, Ok report)
    | Err e => (failed s e, Err e)
    end
  end.

Definition age (s : JwksSource) (now : N) : option N :=
  match js_keys s with Some _ => Some (saturating_sub now (js_loaded_at s)) | None => None end.
Definition past_ttl (s : JwksSource) (now : N) : bool := match age s now with Some a => js_ttl s <=? a | None => false end.
Definition expired (s : JwksSource) (now : N) : bool := match age s now with Some a => js_max_stale s <? a | None => false end.
Definition refresh (s : JwksSource) (now : N) (r : Reading) : JwksSource * result (option JwksReport) :=
  match js_keys s with
  | Some _ => if past_ttl s now then let '(s, out) := load s now r in (s, let? report := out in Ok (Some report)) else (s, Ok None)
  | None => let '(s, out) := load s now r in (s, let? report := out in Ok (Some report))
  end.
Definition source_keys (s : JwksSource) (now : N) : result IssuerKeys :=
  match js_keys s with
  | None => Err CONFIG_INVALID
  | Some keys => guard_err (expired s now) CONFIG_INVALID $ Ok keys
  end.
Definition status (s : JwksSource) (now : N) : Status :=
  mkStatus (describe (js_origin s)) (match js_keys s with Some k => kids k | None => [] end) (age s now) (past_ttl s now)
    (expired s now) (js_last_error s).

Inductive KeySource := Pinned (keys : IssuerKeys) | Rotating (source : JwksSource).
(** The keys to verify against, a due refresh first; a failed refresh is told beside them. *)
Definition key_source_keys (k : KeySource) (now : N) (r : Reading) : KeySource * (result IssuerKeys * option Code) :=
  match k with
  | Pinned keys => (k, (Ok keys, None))
  | Rotating s =>
    let '(s, out) := refresh s now r in
    (Rotating s, (source_keys s now, match out with Err e => Some e | Ok _ => None end))
  end.

(** *** Choosing the source *)

Record TrustSpec := mkTrustSpec {
  ts_issuer_pub : option string;
  ts_kid : option string;
  ts_alg : option string;
  ts_jwks_url : option string;
  ts_jwks_file : option string;
  ts_jwks_ttl : option N;
  ts_jwks_max_stale : option N
}.
Inductive TrustError :=
| NoTrust | ManySources | KidRequired | PemUnreadable | PemUnusable (e : Code) | AlgNotAccepted | FlagWithoutEffect
| SetUnusable (e : Code).
Definition given {A} (o : option A) : bool := match o with Some _ => true | None => false end.
(** [build_trust]; [pem] is what the file of a pinned key holds and [r] what the key set reads as. *)
Definition build_trust (spec : TrustSpec) (now : N) (pem : option string) (r : Reading)
    : Result (KeySource * option JwksReport) TrustError :=
  match filterb id [given (ts_issuer_pub spec); given (ts_jwks_url spec); given (ts_jwks_file spec)] with
  | [] => Err NoTrust
  | [_] =>
    match ts_issuer_pub spec with
    | Some _ =>
      let? kid := ok_or (ts_kid spec) KidRequired in
      let? pem := ok_or pem PemUnreadable in
      let alg := default "ES256" (ts_alg spec) in
      let? keys :=
        (if bool_decide (alg = "ES256") then map_err PemUnusable (add_ec_pem IssuerKeys_new kid pem ES256)
         else if bool_decide (alg = "ES384") then map_err PemUnusable (add_ec_pem IssuerKeys_new kid pem ES384)
         else if bool_decide (alg = "EdDSA" ∨ alg = "Ed25519") then map_err PemUnusable (add_ed_pem IssuerKeys_new kid pem)
         else Err AlgNotAccepted) in
      Ok (Pinned keys, None)
    | None =>
      guard_err (given (ts_kid spec) || given (ts_alg spec)) FlagWithoutEffect $
      let source := JwksSource_new (match ts_jwks_url spec with
                                    | Some url => OriginUrl url
                                    | None => OriginFile (default "" (ts_jwks_file spec))
                                    end) in
      let source := match ts_jwks_ttl spec with Some ttl => with_ttl source ttl | None => source end in
      let source := match ts_jwks_max_stale spec with Some m => with_max_stale source m | None => source end in
      let '(source, out) := load source now r in
      let? report := map_err SetUnusable out in
      Ok (Rotating source, Some report)
    end
  | _ => Err ManySources
  end.

(** A run of the refresh loop: the instants and what was read at each. *)
Definition run (s : JwksSource) (steps : list (N * Reading)) : JwksSource :=
  foldl (λ s x, (refresh s x.1 x.2).1) s steps.

(** ** What is served *)

(** The keys a reading holds, if it can be used at all. *)
Definition published (r : Reading) : option IssuerKeys :=
  match read r with
  | Ok document => match add_jwks IssuerKeys_new document with Ok (fresh, _) => Some fresh | Err _ => None end
  | Err _ => None
  end.

Lemma load_published s now r :
  (load s now r).1 =
    match published r with
    | Some fresh => mkJwksSource (js_origin s) (js_ttl s) (js_max_stale s) (Some fresh) now None
    | None => (load s now r).1
    end ∧
  (published r = None → js_keys (load s now r).1 = js_keys s ∧ js_loaded_at (load s now r).1 = js_loaded_at s).
Proof.
  unfold load, published. destruct (read r) as [d|e]; [|done]. destruct (add_jwks IssuerKeys_new d) as [[k rep]|e]; done.
Qed.

Lemma refresh_bounds s now r : js_ttl (refresh s now r).1 = js_ttl s ∧ js_max_stale (refresh s now r).1 = js_max_stale s.
Proof.
  assert (∀ s, js_ttl (load s now r).1 = js_ttl s ∧ js_max_stale (load s now r).1 = js_max_stale s) as Hload.
  { intros s'. unfold load. destruct (read r) as [d|e]; [|done]. by destruct (add_jwks IssuerKeys_new d) as [[k rep]|e]. }
  unfold refresh. destruct (js_keys s); [destruct (past_ttl s now); [|done]|];
    pose proof (Hload s); by destruct (load s now r).
Qed.

(** A reading is taken exactly when nothing is held or what is held is past its time to live. *)
Definition due (s : JwksSource) (now : N) : bool := match js_keys s with Some _ => past_ttl s now | None => true end.
Lemma refresh_due s now r : (refresh s now r).1 = if due s now then (load s now r).1 else s.
Proof. unfold refresh, due. destruct (js_keys s); [destruct (past_ttl s now); [|done]|]; by destruct (load s now r). Qed.

Lemma run_snoc s steps x : run s (steps ++ [x]) = (refresh (run s steps) x.1 x.2).1.
Proof. unfold run. by rewrite foldl_app. Qed.

(** The reading the held keys came from, and what has been read since. *)
Definition held_since (s : JwksSource) (steps : list (N * Reading)) (keys : IssuerKeys) (at_ : N) : Prop :=
  ∃ before r after, steps = before ++ (at_, r) :: after ∧ published r = Some keys ∧ due (run s before) at_ = true ∧
    ∀ now r', (now, r') ∈ after → now < at_ + js_ttl s ∨ published r' = None.

Lemma held_later s steps keys at_ now r : held_since s steps keys at_ → now < at_ + js_ttl s ∨ published r = None →
  held_since s (steps ++ [(now, r)]) keys at_.
Proof.
  intros (before & r0 & after & -> & Hp & Hd & Hafter) Hr. exists before, r0, (after ++ [(now, r)]).
  split_and!; [by rewrite <-app_assoc|done..|]. intros now' r' [Hin|Hin]%elem_of_app; [by apply Hafter|].
  by apply list_elem_of_singleton in Hin as [= -> ->].
Qed.

Lemma run_held s steps : js_keys s = None →
  js_ttl (run s steps) = js_ttl s ∧ js_max_stale (run s steps) = js_max_stale s ∧
  (∀ keys, js_keys (run s steps) = Some keys → held_since s steps keys (js_loaded_at (run s steps))).
Proof.
  intros Hnone. induction steps as [|[now r] steps (IHt & IHm & IHk)] using rev_ind.
  { split_and!; [done..|]. intros keys. change (run s []) with s. by rewrite Hnone. }
  rewrite run_snoc. cbn [fst snd]. destruct (refresh_bounds (run s steps) now r) as [Ht Hm].
  split_and!; [by rewrite Ht|by rewrite Hm|]. intros keys. rewrite refresh_due.
  destruct (due (run s steps) now) eqn:Hdue.
  - destruct (load_published (run s steps) now r) as [Hl Hf]. destruct (published r) as [fresh|] eqn:Hp.
    + rewrite Hl. cbn [js_keys js_loaded_at]. intros [= <-]. exists steps, r, []. split_and!; try done. set_solver.
    + destruct (Hf eq_refl) as [-> ->]. intros Hk. apply held_later; [by apply IHk|]. by right.
  - intros Hk. apply held_later; [by apply IHk|]. left.
    unfold due, past_ttl, age in Hdue. rewrite Hk, IHt in Hdue. unfold saturating_sub in Hdue. bool_facts. lia.
Qed.

(** C14: a key that was withdrawn stops being trusted.  After any run of the refresh loop, whatever
    was read and however the clock moved, the keys that are served are those of one reading and no
    others: the last that could be used of those taken, at most the staleness bound ago; every
    reading since could not be used or came while the keys were fresh.  Once that bound has passed,
    or when nothing was ever read, no key is served. *)
Theorem served_keys_current origin ttl max_stale steps now :
  let s := mkJwksSource origin ttl max_stale None 0 None in
  match source_keys (run s steps) now with
  | Ok keys => ∃ loaded, held_since s steps keys loaded ∧ now ≤ loaded + max_stale
  | Err e => e = CONFIG_INVALID ∧
    ∀ keys, js_keys (run s steps) = Some keys → js_loaded_at (run s steps) + max_stale < now
  end.
Proof.
  intros s. destruct (run_held s steps eq_refl) as (_ & Hm & Hk). unfold source_keys, expired, age.
  destruct (js_keys (run s steps)) as [keys|]; [|split; [done|by intros ? [=]]]. rewrite Hm. unfold saturating_sub, guard_err.
  change (js_max_stale s) with max_stale. destruct (N.ltb_spec max_stale (now - js_loaded_at (run s steps))).
  - split; [done|]. intros _ _. lia.
  - exists (js_loaded_at (run s steps)). split; [by apply Hk|]. lia.
Qed.

(** A refresh that is due and can be used is what is served from then on, whole. *)
Lemma refresh_replaces s now r keys : due s now = true → published r = Some keys →
  source_keys (refresh s now r).1 now = Ok keys.
Proof.
  intros Hd Hp. rewrite refresh_due, Hd. destruct (load_published s now r) as [Hl _]. rewrite Hp in Hl. rewrite Hl.
  unfold source_keys, expired, age, saturating_sub, guard_err. cbn [js_keys js_max_stale js_loaded_at].
  by rewrite N.sub_diag, (proj2 (N.ltb_ge _ 0)) by lia.
Qed.

(** The default staleness bound is not raised to a time to live that is longer: between the two the
    keys are fresh, so nothing is read, and refused, though the issuer answers all along. *)
Lemma long_ttl_outage url now r k report : let two_hours := mkTrustSpec None None None (Some url) None (Some 7200) None in
  build_trust two_hours now None r = Ok (k, report) → ∀ t r', now + 3600 < t → t < now + 7200 →
  key_source_keys k t r' = (k, (Err CONFIG_INVALID, None)).
Proof.
  intros spec. unfold build_trust, spec. cbn [filterb given ts_issuer_pub ts_jwks_url ts_jwks_file ts_kid ts_alg ts_jwks_ttl ts_jwks_max_stale id].
  unfold guard_err. simpl. unfold load. destruct (read r) as [d|]; [|done].
  destruct (add_jwks IssuerKeys_new d) as [[keys rep]|]; [|done]. intros [= <- <-] t r' Hlo Hhi.
  unfold key_source_keys, refresh, source_keys, past_ttl, expired, age, saturating_sub, guard_err.
  cbn [js_keys js_ttl js_max_stale js_loaded_at]. rewrite (proj2 (N.leb_gt 7200 _)) by lia.
  cbn [js_keys js_ttl js_max_stale js_loaded_at]. unfold DEFAULT_MAX_STALE. by rewrite (proj2 (N.ltb_lt 3600 _)) by lia.
Qed.
End Source.
