(* ===== verification/Peer.v ===== *)
(** * Peer: who is at the other end ([crates/wc-mediator/src/peer.rs])

    The four sources of a peer's identity, the origins a mesh header is believed from, the
    [x-forwarded-client-cert] grammar as it is read, JWT-SVIDs, and the identity of a client
    certificate down to its DER.  The JOSE library, base64 and serde are parameters; addresses
    are parsed as the standard library parses them.  What the method line says is prose. *)

From S2P Require Import Prelude Text Errors Model Json Canon Contract Artifact Log Store Std Admission Consent Attest.

#[local] Open Scope N_scope.

(** ** Addresses: [str::parse::<IpAddr>] *)

(** A reader takes what it can from the front of the bytes. *)
Abbreviation reader A := (list N → option (A * list N)).

Definition dec_digit (b : N) : option N := if is_ascii_digit b then Some (b - 48) else None.
Definition hex_digit_value (b : N) : option N :=
  if is_ascii_digit b then Some (b - 48)
  else if (97 <=? b) && (b <=? 102) then Some (b - 87)
  else if (65 <=? b) && (b <=? 70) then Some (b - 55)
  else None.
(** The digits at the front, and what follows them. *)
Fixpoint take_digits (digit : N → option N) (l : list N) : list N * list N :=
  match l with
  | [] => ([], [])
  | b :: r => match digit b with
              | Some d => let '(ds, rest) := take_digits digit r in (d :: ds, rest)
              | None => ([], l)
              end
  end.
Definition read_number (radix : N) (digit : N → option N) (max_digits : nat) (zero_prefix : bool) (max : N) : reader N := λ l,
  let '(ds, rest) := take_digits digit l in
  let n := foldl (λ acc d, acc * radix + d) 0 ds in
  if (length ds =? 0)%nat || (max_digits <? length ds)%nat then None
  else if negb zero_prefix && bool_decide (head ds = Some 0) && (1 <? length ds)%nat then None
  else if max <? n then None else Some (n, rest).
(** [read_separator]: nothing before the first item. *)
Definition separated {A} (first : bool) (sep : N) (p : reader A) : reader A := λ l,
  if first then p l else match l with b :: r => if b =? sep then p r else None | [] => None end.
Definition read_octet : reader N := read_number 10 dec_digit 3 false 255.
Fixpoint read_octets (n : nat) (first : bool) : reader (list N) := λ l,
  match n with
  | O => Some ([], l)
  | S n => p ← separated first 46 read_octet l; q ← read_octets n false p.2; Some (p.1 :: q.1, q.2)
  end.
Definition read_ipv4 : reader (list N) := read_octets 4 true.
(** At most [limit] groups, the last two possibly written as an IPv4 address. *)
Fixpoint read_groups (limit : nat) (first : bool) (l : list N) : list N * bool * list N :=
  match limit with
  | O => ([], false, l)
  | S k =>
    match (if (1 <=? k)%nat then separated first 58 read_ipv4 l else None) with
    | Some ([a; b; c; d], rest) => ([a * 256 + b; c * 256 + d], true, rest)
    | _ =>
      match separated first 58 (read_number 16 hex_digit_value 4 true 65535) l with
      | Some (g, rest) => let '(gs, v4, rest) := read_groups k false rest in (g :: gs, v4, rest)
      | None => ([], false, l)
      end
    end
  end.
Definition read_ipv6 : reader (list N) := λ l,
  let '(front, v4, rest) := read_groups 8 true l in
  if (length front =? 8)%nat then Some (front, rest) else
  if v4 then None else
  match rest with
  | c :: c' :: rest =>
    if (c =? 58) && (c' =? 58) then
      let '(back, _, rest) := read_groups (8 - (length front + 1)) true rest in
      Some (front ++ replicate (8 - length front - length back) 0 ++ back, rest)
    else None
  | _ => None
  end.
(** [host.parse::<IpAddr>().is_ok_and(|ip| ip.is_loopback())]. *)
Definition is_loopback_ip (host : string) : bool :=
  match read_ipv4 (bytes host) with
  | Some (a, []) => bool_decide (head a = Some 127)
  | Some _ => false
  | None => match read_ipv6 (bytes host) with
            | Some (g, []) => bool_decide (g = [0; 0; 0; 0; 0; 0; 0; 1])
            | _ => false
            end
  end.

(** ** Origins and what a mesh may be believed from *)

Inductive Origin := UnixSocket (path : string) | Tcp (addr : string) | Stdio.
(** The host of an address: what stands before the last colon. *)
Definition host_of (addr : string) : string :=
  let parts := split_on colon addr in
  if (length parts <=? 1)%nat then addr else join ":" (removelast parts).
Fixpoint trim_end_byte (c : ascii) (s : string) : string :=
  match s with
  | EmptyString => ""
  | String a r => let r := trim_end_byte c r in if bool_decide (r = "" ∧ a = c) then "" else String a r
  end.
Definition is_local (o : Origin) : bool :=
  match o with
  | UnixSocket _ | Stdio => true
  | Tcp addr => is_loopback_ip (trim_end_byte "]" (trim_start_matches "[" (host_of addr)))
  end.
Record MeshTrust := mkMeshTrust { mt_socket : option string; mt_addrs : list string }.
Definition MeshTrust_socket (path : string) : MeshTrust := mkMeshTrust (Some path) [].
Definition accepts (t : MeshTrust) (o : Origin) : bool :=
  if bool_decide (mt_socket t = None ∧ mt_addrs t = []) then false else
  match o with
  | UnixSocket path => bool_decide (mt_socket t = Some path)
  | Tcp addr => is_local o && str_in addr (mt_addrs t)
  | Stdio => false
  end.

(** ** The forwarded header *)

Definition backslash : ascii := ascii_of_N 92.
(** The one loop of [split_xfcc_elements] and [parse_xfcc_pairs]: cut at a separator outside quotes;
    a backslash inside them goes, and what follows it stays. *)
Fixpoint xfcc_scan (sep : ascii) (s current : string) (in_quotes escaped : bool) : list string :=
  match s with
  | EmptyString => [current]
  | String c s =>
    if escaped then xfcc_scan sep s (current +:+ String c "") in_quotes false
    else if bool_decide (c = backslash) && in_quotes then xfcc_scan sep s current in_quotes true
    else if bool_decide (c = quote_byte) then xfcc_scan sep s (current +:+ String c "") (negb in_quotes) false
    else if bool_decide (c = sep) && negb in_quotes then current :: xfcc_scan sep s "" in_quotes false
    else xfcc_scan sep s (current +:+ String c "") in_quotes false
  end.
Definition split_xfcc_elements (header : string) : list string :=
  filterb (λ e, negb (bool_decide (e = ""))) (map trim_text (xfcc_scan "," header "" false false)).
(** [str::replace] of a two-byte text by its second byte. *)
Fixpoint unescape (a b : ascii) (s : string) : string :=
  match s with
  | String x ((String y r) as t) => if bool_decide (x = a ∧ y = b) then String b (unescape a b r) else String x (unescape a b t)
  | s => s
  end.
Definition unquote (value : string) : string :=
  let trimmed := trim_text value in
  match trimmed with
  | String q r =>
    match unsnoc r with
    | Some (inner, q') =>
      if bool_decide (q = quote_byte ∧ q' = quote_byte)
      then unescape backslash backslash (unescape backslash quote_byte inner)
      else trimmed
    | None => trimmed
    end
  | EmptyString => trimmed
  end.
Definition xfcc_pair (raw : string) : option (string * string) :=
  match split_once "=" raw with Some (k, v) => Some (trim_text k, unquote (trim_text v)) | None => None end.
Definition parse_xfcc_pairs (element : string) : list (string * string) := omap xfcc_pair (xfcc_scan ";" element "" false false).
Definition xfcc_peer_uri (header : string) : result string :=
  match split_xfcc_elements header with
  | [] => Err CALLER_PEER_MISMATCH
  | [element] =>
    match (filterb (λ p, eq_ignore_ascii_case p.1 "URI") (parse_xfcc_pairs element)).*2 with
    | [] => Err CALLER_PEER_MISMATCH
    | [uri] => Ok uri
    | _ => Err PEER_HEADER_UNTRUSTED
    end
  | _ => Err PEER_HEADER_UNTRUSTED
  end.

(** ** Certificates *)

(** *** DER: one tag, length and value *)
Record Tlv := mkTlv { tl_tag : N; tl_value : list N; tl_total : nat }.
Definition checked_add (a b : N) : option N := if a + b <=? u64_max then Some (a + b) else None.
(** The bytes of a long length; a [usize] holds eight. *)
Fixpoint long_length (n : nat) (b : list N) (len : N) : option N :=
  match n with
  | O => Some len
  | S n => m ← checked_mul len 256; byte ← head b; len ← checked_add m byte; long_length n (tail b) len
  end.
Definition tlv (b : list N) : option Tlv :=
  match b with
  | tag :: l0 :: rest =>
    p ← (if l0 <? 128 then Some (l0, 2%nat)
         else let n := l0 - 128 in
              if (n =? 0) || (8 <? n) then None else
              len ← long_length (N.to_nat n) rest 0; Some (len, (2 + N.to_nat n)%nat));
    let '(len, hdr) := p in
    if u64_max <? N.of_nat hdr + len then None
    else if N.of_nat (length b) <? N.of_nat hdr + len then None
    else Some (mkTlv tag (take (N.to_nat len) (drop hdr b)) (hdr + N.to_nat len))
  | _ => None
  end.
(** Every item in order, up to the first malformed one; each takes at least its two bytes of head,
    so the length of the bytes is fuel enough. *)
Fixpoint children_go (fuel : nat) (b : list N) : list Tlv :=
  match fuel with
  | O => []
  | S fuel => match b with
              | [] => []
              | _ => match tlv b with Some t => t :: children_go fuel (drop (tl_total t) b) | None => [] end
              end
  end.
Definition children (b : list N) : list Tlv := children_go (length b) b.

Definition OID_SAN : list N := [0x55; 0x1D; 0x11].
Definition uri_name (t : Tlv) : option string :=
  if tl_tag t =? 0x86 then Some (of_bytes (lossy (tl_value t))) else None.
(** The names of the first subjectAltName among the extensions. *)
Fixpoint san_names (extensions : list Tlv) : option (list string) :=
  match extensions with
  | [] => Some []
  | ext :: rest =>
    if negb (tl_tag ext =? 0x30) then san_names rest else
    let parts := children (tl_value ext) in
    match head parts, last parts with
    | Some oid, Some octets =>
      if negb (tl_tag oid =? 0x06) || negb (bool_decide (tl_value oid = OID_SAN)) then san_names rest
      else if negb (tl_tag octets =? 0x04) then san_names rest
      else
        names ← tlv (tl_value octets);
        if negb (tl_tag names =? 0x30) then None else Some (omap uri_name (children (tl_value names)))
    | _, _ => san_names rest
    end
  end.
Definition uri_sans (der : list N) : option (list string) :=
  cert ← tlv der;
  if negb (tl_tag cert =? 0x30) then None else
  tbs ← head (children (tl_value cert));
  if negb (tl_tag tbs =? 0x30) then None else
  match List.find (λ t, tl_tag t =? 0xA3) (children (tl_value tbs)) with
  | None => Some []
  | Some holder =>
    extensions ← head (children (tl_value holder));
    if negb (tl_tag extensions =? 0x30) then None else san_names (children (tl_value extensions))
  end.

(** *** PEM *)
Section Resolve.
(** [jsonwebtoken::decode::<Claims>] as [verify_svid] configures it: the subject, if the signature,
    the audience and the window hold on the clock. *)
Class PeerCodec `{Jose} := { peer_svid_decode : Algorithm → string → N → N → string → DecodingKey → option string }.
Context `{AttestCodec, !SerdeParse, !PeerCodec}.

Definition base64_decode (s : string) : option string := b64_standard (trim_text s).
Definition first_certificate_der (pem : string) : option (list N) :=
  p ← split_at_first "-----BEGIN CERTIFICATE-----" pem;
  q ← split_at_first "-----END CERTIFICATE-----" p.2;
  bytes <$> base64_decode (from_chars (filterb (λ c, negb (is_whitespace c)) (chars q.1))).
Definition spiffe_from_cert_pem (pem : string) : result string :=
  let? der := ok_or (first_certificate_der pem) IDENTITY_UNVERIFIABLE in
  let? uris := ok_or (uri_sans der) IDENTITY_UNVERIFIABLE in
  match filterb (starts_with "spiffe://") uris with
  | [first] => Ok first
  | _ => Err IDENTITY_UNVERIFIABLE
  end.

(** ** Resolving a peer *)

Record Peer := mkPeer { pe_identity : PeerIdentity; pe_verified : bool }.
Inductive PeerSource :=
| Configured (caller callee : EntityId)
| Mtls (callee : EntityId)
| Mesh (trust : MeshTrust) (callee : EntityId)
| JwtSvid (keys : IssuerKeys) (audience : string) (leeway : N) (callee : EntityId).
Record Presented := mkPresented {
  pr_origin : option Origin;
  pr_san_uri : option string;
  pr_headers : gmap string string;
  pr_token : option string
}.
Definition XFCC : string := "x-forwarded-client-cert".
Definition Presented_mtls (san_uri : string) (origin : Origin) : Presented := mkPresented (Some origin) (Some san_uri) ∅ None.
Definition Presented_mesh (xfcc : string) (origin : Origin) : Presented := mkPresented (Some origin) None {[XFCC := xfcc]} None.
Definition mode (s : PeerSource) : string :=
  match s with Configured _ _ => "configured" | Mtls _ => "mtls" | Mesh _ _ => "mesh" | JwtSvid _ _ _ _ => "jwt-svid" end.
Definition parse_mode (name : string) : result string :=
  let name := trim_text name in
  if str_in name ["configured"; "mtls"; "mesh"; "jwt-svid"] then Ok name else Err CONFIG_INVALID.
Definition spiffe_id (raw : string) : result EntityId :=
  let trimmed := trim_text raw in
  guard_err (negb (starts_with "spiffe://" trimmed)) CALLER_PEER_MISMATCH $ EntityId_new trimmed.

(** The algorithm is looked at before anything else of the token. *)
Definition verify_svid (token : string) (keys : IssuerKeys) (audience : string) (leeway now : N) : result (string * string) :=
  guard_err (bool_decide (trim_text audience = "")) CONFIG_INVALID $
  guard_err (no_keys keys) CALLER_PEER_MISMATCH $
  let? raw := ok_or (b64url_decode (default "" (head (split_on dot token)))) CALLER_PEER_MISMATCH in
  let? header := ok_or (match from_slice raw with Some (VObject m) => Some m | _ => None end) CALLER_PEER_MISMATCH in
  let alg := default "" (text_of "alg" header) in
  guard_err (negb (str_in alg ACCEPTED_ALG_NAMES)) ALG_NOT_ASYMMETRIC $
  let? kid := ok_or (text_of "kid" header) CALLER_PEER_MISMATCH in
  let? registered := ok_or ((keys : gmap string (Algorithm * DecodingKey)) !! kid) CALLER_PEER_MISMATCH in
  guard_err (negb (bool_decide (alg = alg_name registered.1))) CALLER_PEER_MISMATCH $
  let? sub := ok_or (peer_svid_decode registered.1 audience leeway now token registered.2) CALLER_PEER_MISMATCH in
  Ok (sub, kid).

Definition resolve (s : PeerSource) (presented : Presented) (now : N) : result Peer :=
  match s with
  | Configured caller callee => Ok (mkPeer (mkPeerIdentity caller callee) false)
  | Mtls callee =>
    let? san := ok_or (pr_san_uri presented) CALLER_PEER_MISMATCH in
    let? caller := spiffe_id san in
    Ok (mkPeer (mkPeerIdentity caller callee) true)
  | Mesh trust callee =>
    let? origin := ok_or (pr_origin presented) PEER_HEADER_UNTRUSTED in
    let? header := ok_or (pr_headers presented !! XFCC) CALLER_PEER_MISMATCH in
    guard_err (negb (accepts trust origin)) PEER_HEADER_UNTRUSTED $
    let? uri := xfcc_peer_uri header in
    let? caller := spiffe_id uri in
    Ok (mkPeer (mkPeerIdentity caller callee) true)
  | JwtSvid keys audience leeway callee =>
    let? token := ok_or (pr_token presented) CALLER_PEER_MISMATCH in
    let? p := verify_svid token keys audience leeway now in
    let? caller := spiffe_id p.1 in
    Ok (mkPeer (mkPeerIdentity caller callee) true)
  end.
End Resolve.

(** ** The header, written and read *)

(** A field as a proxy writes it: its value in quotes or bare. *)
Record Field := mkField { fd_key : string; fd_quoted : bool; fd_value : string }.
Definition render_field (f : Field) : string :=
  fd_key f +:+ "=" +:+ (if fd_quoted f then in_quotes (fd_value f) else fd_value f).
Definition render (fields : list Field) : string := join ";" (map render_field fields).
(** Bytes that mean something in the header: [=], [;], [,], the quote and the backslash. *)
Definition special (b : N) : bool := existsb (N.eqb b) [61; 59; 44; 34; 92].
Definition bare (s : string) : Prop := ∀ b, b ∈ bytes s → plain_byte b ∧ special b = false.
Definition field_ok (f : Field) : Prop :=
  fd_key f ≠ "" ∧ bare (fd_key f) ∧
  if fd_quoted f then ∀ b, b ∈ bytes (fd_value f) → b < 128 ∧ b ≠ 34 ∧ b ≠ 92 else bare (fd_value f).

Lemma byte_of c d : N_of_ascii c ≠ N_of_ascii d → c ≠ d.
Proof. by intros H ->. Qed.

Lemma scan_plain sep t rest cur : (∀ b, b ∈ bytes t → b ≠ 34 ∧ b ≠ N_of_ascii sep) →
  xfcc_scan sep (t +:+ rest) cur false false = xfcc_scan sep rest (cur +:+ t) false false.
Proof.
  revert cur. induction t as [|c t IH]; intros cur Ht; simpl; [by rewrite string_app_nil_r|].
  destruct (Ht (N_of_ascii c)) as [Hq Hs]; [left|].
  rewrite andb_false_r, (bool_decide_eq_false_2 (c = quote_byte)), (bool_decide_eq_false_2 (c = sep)) by (by apply byte_of).
  simpl. rewrite IH by (intros b Hb; apply Ht; by right). by rewrite string_app_assoc.
Qed.

Lemma scan_inside sep t rest cur : (∀ b, b ∈ bytes t → b ≠ 34 ∧ b ≠ 92) →
  xfcc_scan sep (t +:+ rest) cur true false = xfcc_scan sep rest (cur +:+ t) true false.
Proof.
  revert cur. induction t as [|c t IH]; intros cur Ht; simpl; [by rewrite string_app_nil_r|].
  destruct (Ht (N_of_ascii c)) as [Hq Hs]; [left|].
  rewrite (bool_decide_eq_false_2 (c = quote_byte)), (bool_decide_eq_false_2 (c = backslash)) by (by apply byte_of).
  simpl. rewrite andb_false_r, IH by (intros b Hb; apply Ht; by right). by rewrite string_app_assoc.
Qed.

Lemma scan_quote sep s cur q : xfcc_scan sep (String quote_byte s) cur q false = xfcc_scan sep s (cur +:+ String quote_byte "") (negb q) false.
Proof.
  cbn [xfcc_scan]. rewrite (bool_decide_eq_false_2 (quote_byte = backslash)), (bool_decide_eq_true_2 (quote_byte = quote_byte)) by done.
  done.
Qed.
Lemma in_quotes_app v rest : in_quotes v +:+ rest = String quote_byte (v +:+ String quote_byte rest).
Proof. unfold in_quotes. change (String quote_byte (v +:+ String quote_byte "") +:+ rest) with (String quote_byte ((v +:+ String quote_byte "") +:+ rest)). by rewrite string_app_assoc. Qed.

Lemma scan_field sep f rest cur : field_ok f → N_of_ascii sep = 44 ∨ N_of_ascii sep = 59 →
  xfcc_scan sep (render_field f +:+ rest) cur false false = xfcc_scan sep rest (cur +:+ render_field f) false false.
Proof.
  intros (_ & Hk & Hv) Hsep. unfold render_field. rewrite !string_app_assoc, scan_plain.
  2: { intros b [_ Hb]%Hk. unfold special in Hb. simpl in Hb. repeat setoid_rewrite orb_false_iff in Hb.
       rewrite !N.eqb_neq in Hb. destruct Hsep as [-> | ->]; tauto. }
  rewrite <-(string_app_assoc cur). generalize (cur +:+ fd_key f). clear cur. intros cur.
  rewrite scan_plain.
  2: { intros b Hb. cbn in Hb. apply list_elem_of_singleton in Hb as ->. destruct Hsep as [-> | ->]; done. }
  rewrite <-(string_app_assoc cur). generalize (cur +:+ "="). clear cur. intros cur. destruct (fd_quoted f).
  - rewrite in_quotes_app, scan_quote, scan_inside, scan_quote by (intros b Hb; destruct (Hv b Hb); tauto).
    cbn [negb]. unfold in_quotes. by rewrite !string_app_assoc.
  - apply scan_plain. intros b [_ Hb]%Hv. unfold special in Hb. simpl in Hb. repeat setoid_rewrite orb_false_iff in Hb.
    rewrite !N.eqb_neq in Hb. destruct Hsep as [-> | ->]; tauto.
Qed.

(** Texts that [str::trim] leaves alone. *)
Definition ascii_text (s : string) : Prop := ∀ b, b ∈ bytes s → b < 128.
Definition tight (s : string) : Prop :=
  ascii_text s ∧ (∃ c l, bytes s = c :: l ∧ is_whitespace c = false) ∧ ∃ k d, bytes s = k ++ [d] ∧ is_whitespace d = false.

Lemma trim_tight s : tight s → trim_text s = s.
Proof.
  intros (Ha & (c & l & Hc & Hcw) & k & d & Hd & Hdw). apply (trim_text_id s c l d k); try done. by apply Forall_forall.
Qed.
Lemma tight_app s m t : tight s → ascii_text m → tight t → tight (s +:+ m +:+ t).
Proof.
  intros (Ha & (c & l & Hc & Hcw) & _) Hm (Ha' & _ & k & d & Hd & Hdw). unfold tight, ascii_text. rewrite !bytes_app.
  split_and!.
  - intros b [Hb|[Hb|Hb]%elem_of_app]%elem_of_app; auto.
  - exists c, (l ++ bytes m ++ bytes t). by rewrite Hc.
  - exists (bytes s ++ bytes m ++ k), d. by rewrite Hd, !app_assoc.
Qed.
Lemma bare_ascii s : bare s → ascii_text s.
Proof. intros Hb b Hin. apply Hb, Hin. Qed.
Lemma bare_tight s : bare s → s ≠ "" → tight s.
Proof.
  intros Hb Hs. split; [by apply bare_ascii|]. destruct (bytes s) as [|c l] eqn:E; [by destruct s|].
  split; [exists c, l; split; [done|]; apply Hb; rewrite E; left|].
  destruct (exists_last (l := c :: l)) as (k & d & Hk); [done|]. exists k, d. split; [done|]. apply Hb. rewrite E, Hk. set_solver.
Qed.
Lemma sign_tight c : is_whitespace (N_of_ascii c) = false → N_of_ascii c < 128 → tight (String c "").
Proof.
  intros Hw Ha. split_and!; [|by exists (N_of_ascii c), []|by exists [], (N_of_ascii c)].
  intros b Hb. cbn in Hb. by apply list_elem_of_singleton in Hb as ->.
Qed.
Lemma in_quotes_tight v : ascii_text v → tight (in_quotes v).
Proof.
  intros Ha. change (in_quotes v) with (String quote_byte "" +:+ v +:+ String quote_byte "").
  apply tight_app; [by apply sign_tight|done|by apply sign_tight].
Qed.
Lemma value_ascii f : field_ok f → fd_quoted f = true → ascii_text (fd_value f).
Proof. intros (_ & _ & Hv) Hq b Hb. rewrite Hq in Hv. by apply Hv. Qed.

Lemma render_field_tight f : field_ok f → tight (render_field f).
Proof.
  intros Hf. pose proof Hf as (Hne & Hk & Hv). unfold render_field. pose proof (bare_tight _ Hk Hne) as Ht.
  destruct (fd_quoted f) eqn:Hq; [apply tight_app; [done|by intros b ->%list_elem_of_singleton|]; by apply in_quotes_tight, value_ascii|].
  destruct (decide (fd_value f = "")) as [->|Hn].
  - change ("=" +:+ "") with ("" +:+ "="). apply tight_app; [done|by intros b ?%elem_of_nil|by apply sign_tight].
  - apply tight_app; [done|by intros b ->%list_elem_of_singleton|by apply bare_tight].
Qed.

Lemma render_cons f g fields : render (f :: g :: fields) = render_field f +:+ ";" +:+ render (g :: fields).
Proof. done. Qed.
Lemma render_tight fields : fields ≠ [] → Forall field_ok fields → tight (render fields).
Proof.
  induction fields as [|f [|g fields] IH]; [done|intros _ [Hf _]%Forall_cons; by apply render_field_tight|].
  intros _ [Hf Hg]%Forall_cons. rewrite render_cons. apply tight_app; [by apply render_field_tight|by intros b ->%list_elem_of_singleton|by apply IH].
Qed.

Lemma scan_render fields rest cur : fields ≠ [] → Forall field_ok fields →
  xfcc_scan "," (render fields +:+ rest) cur false false = xfcc_scan "," rest (cur +:+ render fields) false false.
Proof.
  revert cur. induction fields as [|f [|g fields] IH]; intros cur; [done| |]; intros _ [Hf Hg]%Forall_cons.
  - unfold render. cbn [map join String.concat]. apply scan_field; [done|by left].
  - rewrite render_cons, !string_app_assoc, scan_field; [|done|by left]. rewrite scan_plain.
    + rewrite IH by done. by rewrite !string_app_assoc.
    + intros b Hb. cbn in Hb. by apply list_elem_of_singleton in Hb as ->.
Qed.
Definition element_ok (fields : list Field) : Prop := fields ≠ [] ∧ Forall field_ok fields.
Lemma scan_elements elements : elements ≠ [] → Forall element_ok elements →
  xfcc_scan "," (join "," (map render elements)) "" false false = map render elements.
Proof.
  induction elements as [|e [|g elements] IH]; [done| |]; intros _ [[He Hf] Hg]%Forall_cons.
  - cbn [map join String.concat]. rewrite <-(string_app_nil_r (render e)) at 1. by rewrite scan_render.
  - change (join "," (map render (e :: g :: elements))) with (render e +:+ ("," +:+ join "," (map render (g :: elements)))).
    rewrite scan_render by done.
    change (render e :: xfcc_scan "," (join "," (map render (g :: elements))) "" false false = render e :: map render (g :: elements)).
    by rewrite IH.
Qed.
Lemma split_elements elements : elements ≠ [] → Forall element_ok elements →
  split_xfcc_elements (join "," (map render elements)) = map render elements.
Proof.
  intros Hne He. unfold split_xfcc_elements. rewrite scan_elements by done. clear Hne.
  induction He as [|e elements [Hn Hf] He IH]; [done|]. cbn [map List.filter]. pose proof (render_tight e Hn Hf) as Ht.
  rewrite (trim_tight _ Ht), bool_decide_eq_false_2; [cbn [negb]; by rewrite IH|].
  intros E. destruct Ht as (_ & (c & l & Hc & _) & _). by rewrite E in Hc.
Qed.

Lemma scan_pairs fields : fields ≠ [] → Forall field_ok fields →
  xfcc_scan ";" (render fields) "" false false = map render_field fields.
Proof.
  induction fields as [|f [|g fields] IH]; [done| |]; intros _ [Hf Hg]%Forall_cons.
  - unfold render. cbn [map join String.concat]. rewrite <-(string_app_nil_r (render_field f)) at 1.
    rewrite scan_field; [done|done|by right].
  - rewrite render_cons, scan_field; [|done|by right].
    change (map render_field (f :: g :: fields)) with (render_field f :: map render_field (g :: fields)). by rewrite <-IH.
Qed.

Lemma unescape_none a b s : N_of_ascii a ∉ bytes s → unescape a b s = s.
Proof.
  induction s as [|x [|y s] IH]; [done|done|]. intros Hn. change (N_of_ascii a ∉ N_of_ascii x :: bytes (String y s)) in Hn.
  change ((if bool_decide (x = a ∧ y = b) then String b (unescape a b s) else String x (unescape a b (String y s))) = String x (String y s)).
  rewrite bool_decide_eq_false_2; [rewrite IH; [done|]; intros Hin; apply Hn; by right|]. intros [-> _]. apply Hn. left.
Qed.

Lemma xfcc_pair_field f : field_ok f → xfcc_pair (render_field f) = Some (fd_key f, fd_value f).
Proof.
  intros Hf. pose proof Hf as (Hne & Hk & Hv). unfold xfcc_pair, render_field.
  change ("=" +:+ ?x) with (String "="%char x). rewrite split_once_plain by (by intros [_ [=]]%Hk).
  rewrite trim_tight by (by apply bare_tight). do 2 f_equal. destruct (fd_quoted f) eqn:Hq.
  - rewrite trim_tight by (by apply in_quotes_tight, value_ascii). unfold unquote.
    rewrite trim_tight by (by apply in_quotes_tight, value_ascii). unfold in_quotes. rewrite unsnoc_app, bool_decide_eq_true_2 by done.
    assert (N_of_ascii backslash ∉ bytes (fd_value f)) as Hn by (intros Hin; destruct (Hv _ Hin) as (_ & _ & Hb); by apply Hb).
    by rewrite (unescape_none _ quote_byte), unescape_none by (rewrite ?unescape_none; done).
  - assert (trim_text (fd_value f) = fd_value f) as Ht by (apply trim_text_plain; intros b Hb; by apply Hv).
    rewrite Ht. unfold unquote. rewrite Ht. destruct (fd_value f) as [|c r]; [done|]. destruct (unsnoc r) as [[i q]|]; [|done].
    rewrite bool_decide_eq_false_2; [done|]. intros [-> _]. destruct (Hv 34) as [_ [=]]. left.
Qed.

Lemma pairs_of fields : fields ≠ [] → Forall field_ok fields →
  parse_xfcc_pairs (render fields) = map (λ f, (fd_key f, fd_value f)) fields.
Proof.
  intros Hne Hf. unfold parse_xfcc_pairs. rewrite scan_pairs by done. clear Hne.
  induction Hf as [|f fields Hf _ IH]; [done|]. cbn [map omap list_omap]. by rewrite xfcc_pair_field, IH.
Qed.

(** A forwarded header is read as it was written.  Of one element whose keys and values hold no
    quote and no backslash of their own -- bare, or in quotes and then with whatever else, blanks,
    commas and semicolons included -- exactly the value of its one [URI] field is the identity; an
    element without one, or with two, is refused, and so is any header of several elements. *)
Theorem xfcc_round_trip elements : elements ≠ [] → Forall element_ok elements →
  xfcc_peer_uri (join "," (map render elements)) =
    match elements with
    | [fields] => match filterb (λ f, eq_ignore_ascii_case (fd_key f) "URI") fields with
                  | [f] => Ok (fd_value f)
                  | [] => Err CALLER_PEER_MISMATCH
                  | _ => Err PEER_HEADER_UNTRUSTED
                  end
    | _ => Err PEER_HEADER_UNTRUSTED
    end.
Proof.
  intros Hne He. unfold xfcc_peer_uri. rewrite split_elements by done. destruct elements as [|fields [|]]; [done| |done].
  cbn [map]. apply Forall_cons in He as [[Hn Hf] _]. rewrite pairs_of by done. clear.
  assert (∀ l : list Field, (filterb (λ p : string * string, eq_ignore_ascii_case p.1 "URI") (map (λ f, (fd_key f, fd_value f)) l)).*2
    = map fd_value (filterb (λ f, eq_ignore_ascii_case (fd_key f) "URI") l)) as ->.
  { induction l as [|f l IH]; [done|]. cbn [map List.filter fst]. by destruct (eq_ignore_ascii_case _ _); cbn; rewrite IH. }
  by destruct (filterb _ fields) as [|f [|]].
Qed.

(** ** What a resolved peer rests on *)

Section PeerSound.
Context `{AttestCodec, !SerdeParse, !PeerCodec} (valid : DecodingKey → Algorithm → string → string → bool).

(** [jsonwebtoken] checks the signature, the audience and both bounds against its clock. *)
Class PeerLaws : Prop := {
  peer_svid_sound alg audience leeway now token key sub :
    peer_svid_decode alg audience leeway now token key = Some sub →
    ∃ v, jwt_of valid token key alg v ∧ claim_names "aud" audience v ∧ vget "sub" v = Some (VString sub) ∧
      (∃ exp, vget "exp" v = Some exp) ∧ (∀ n, number_claim "exp" n v → now ≤ n + leeway) ∧
      ∀ n, number_claim "nbf" n v → n ≤ now + leeway
}.
Context `{!PeerLaws}.

(** The origins a header is believed from: the configured socket, or a listed loopback address. *)
Definition believed (t : MeshTrust) (o : Origin) : Prop :=
  match o with
  | UnixSocket path => mt_socket t = Some path
  | Tcp addr => addr ∈ mt_addrs t ∧ is_local o = true
  | Stdio => False
  end.
Lemma accepts_believed t o : accepts t o = true ↔ believed t o.
Proof.
  unfold accepts, believed. case_bool_decide as Hn.
  - destruct Hn as [Hs Ha]. destruct o; rewrite ?Hs, ?Ha; split; try done. by intros [?%elem_of_nil _].
  - destruct o; [by rewrite bool_decide_eq_true| |done]. unfold str_in. rewrite andb_true_iff, bool_decide_eq_true. tauto.
Qed.

(** A party named by a SPIFFE id. *)
Definition spiffe_named (raw : string) (caller : EntityId) : Prop :=
  caller = mkEntityId (trim_text raw) ∧ starts_with "spiffe://" (trim_text raw) = true.
Lemma spiffe_id_ok raw caller : spiffe_id raw = Ok caller → spiffe_named raw caller.
Proof. unfold spiffe_id. intros [Hs%negb_false_iff [_ ->]%EntityId_new_ok]%guard_err_ok. done. Qed.

(** What a caller's name rests on, by the mode it was established in. *)
Definition caller_rests (s : PeerSource) (presented : Presented) (now : N) (caller : EntityId) : Prop :=
  match s with
  | Configured configured _ => caller = configured
  | Mtls _ => ∃ san, pr_san_uri presented = Some san ∧ spiffe_named san caller
  | Mesh trust _ => ∃ origin header uri, pr_origin presented = Some origin ∧ believed trust origin ∧
      pr_headers presented !! XFCC = Some header ∧ xfcc_peer_uri header = Ok uri ∧ spiffe_named uri caller
  | JwtSvid keys audience leeway _ => ∃ token kid alg key v sub, pr_token presented = Some token ∧
      trim_text audience ≠ "" ∧ keys !! kid = Some (alg, key) ∧ alg_name alg ∈ ACCEPTED_ALG_NAMES ∧
      jwt_of valid token key alg v ∧ claim_names "aud" audience v ∧ vget "sub" v = Some (VString sub) ∧
      spiffe_named sub caller ∧ (∀ n, number_claim "exp" n v → now ≤ n + leeway) ∧
      (∀ n, number_claim "nbf" n v → n ≤ now + leeway)
  end.
Definition configured_callee (s : PeerSource) : EntityId :=
  match s with Configured _ c | Mtls c | Mesh _ c | JwtSvid _ _ _ c => c end.

Lemma verify_svid_sound token keys audience leeway now sub kid :
  verify_svid token keys audience leeway now = Ok (sub, kid) →
  trim_text audience ≠ "" ∧ ∃ alg key, keys !! kid = Some (alg, key) ∧ alg_name alg ∈ ACCEPTED_ALG_NAMES ∧
    peer_svid_decode alg audience leeway now token key = Some sub.
Proof.
  unfold verify_svid. cbv zeta. intros [Ha%bool_decide_eq_false [_ Hr]%guard_err_ok]%guard_err_ok. split; [done|].
  apply result_bind_ok in Hr as (raw & _ & (header & _ & [Hacc%negb_false_iff Hr]%guard_err_ok)%result_bind_ok).
  apply result_bind_ok in Hr as (kid' & _ & ([alg key] & Hk%ok_or_ok & [Hn%negb_false_iff%bool_decide_eq_true Hr]%guard_err_ok)%result_bind_ok).
  apply result_bind_ok in Hr as (s & Hs%ok_or_ok & [= -> ->]). exists alg, key. split; [done|]. split; [|done].
  cbn [fst] in Hn. rewrite Hn in Hacc. unfold str_in in Hacc. by apply bool_decide_eq_true in Hacc.
Qed.

(** C13: a peer is named by its transport and by nothing it says.  Whatever is presented, the callee is
    the configured one, only the configured mode is not marked as verified, and the caller is, by the
    mode: the configured one; the SPIFFE id of the certificate the handshake authenticated; the one
    URI of a forwarded header that came from the configured socket or a listed loopback address; or
    the subject of a token signed under a trusted key with its registered algorithm, for this
    audience and within its window. *)
Theorem peer_rests_on_transport s presented now p : resolve s presented now = Ok p →
  peer_callee (pe_identity p) = configured_callee s ∧ caller_rests s presented now (peer_caller (pe_identity p)) ∧
  (pe_verified p = false ↔ ∃ caller callee, s = Configured caller callee).
Proof.
  unfold resolve. destruct s as [caller callee|callee|trust callee|keys audience leeway callee].
  - intros [= <-]. split_and!; [done|done|]. split; [intros _; by eexists _, _|done].
  - intros (san & Hs%ok_or_ok & (c & Hc%spiffe_id_ok & [= <-])%result_bind_ok)%result_bind_ok.
    split_and!; [done|by exists san|]. split; [done|by intros (? & ? & [=])].
  - intros (o & Ho%ok_or_ok & (h & Hh%ok_or_ok & [Ha%negb_false_iff Hr]%guard_err_ok)%result_bind_ok)%result_bind_ok.
    apply result_bind_ok in Hr as (uri & Hu & (c & Hc%spiffe_id_ok & [= <-])%result_bind_ok). apply accepts_believed in Ha.
    split_and!; [done|by exists o, h, uri|]. split; [done|by intros (? & ? & [=])].
  - intros (t & Ht%ok_or_ok & ([sub kid] & Hv%verify_svid_sound & (c & Hc%spiffe_id_ok & [= <-])%result_bind_ok)%result_bind_ok)%result_bind_ok.
    destruct Hv as (Ha & alg & key & Hk & Hacc & (v & Hj & Haud & Hsub & _ & Hexp & Hnbf)%peer_svid_sound).
    split_and!; [done|by exists t, kid, alg, key, v, sub|]. split; [done|by intros (? & ? & [=])].
Qed.
End PeerSound.

(** ** Certificates, written and read *)

Definition value_of (ds : list N) : N := foldl (λ acc d, acc * 256 + d) 0 ds.
(** The length octets of a DER item: one below 128, or their count and as many digits. *)
Inductive octets (n : nat) : list N → Prop :=
| short_form : (n < 128)%nat → octets n [N.of_nat n]
| long_form ds : (1 ≤ length ds ≤ 8)%nat → value_of ds = N.of_nat n → octets n (128 + N.of_nat (length ds) :: ds).
Inductive item (tag : N) (value : list N) : list N → Prop :=
| Item hdr : octets (length value) hdr → item tag value (tag :: hdr ++ value).
Inductive items : list (N * list N) → list N → Prop :=
| items_nil : items [] []
| items_cons tag value b l r : item tag value b → items l r → items ((tag, value) :: l) (b ++ r).
Definition fits (b : list N) : Prop := N.of_nat (length b) ≤ u64_max.
Definition entry (t : Tlv) : N * list N := (tl_tag t, tl_value t).

Lemma value_of_mono ds acc : acc ≤ foldl (λ acc d, acc * 256 + d) acc ds.
Proof.
  revert acc. induction ds as [|d ds IH]; intros acc; simpl; [lia|]. etrans; [|apply IH]. lia.
Qed.
Lemma long_length_value ds rest acc : foldl (λ acc d, acc * 256 + d) acc ds ≤ u64_max →
  long_length (length ds) (ds ++ rest) acc = Some (foldl (λ acc d, acc * 256 + d) acc ds).
Proof.
  revert acc. induction ds as [|d ds IH]; intros acc Hle; [done|]. cbn [length long_length app head tail foldl]. cbn [foldl] in Hle.
  pose proof (value_of_mono ds (acc * 256 + d)). unfold checked_mul, checked_add.
  rewrite (proj2 (N.leb_le (acc * 256) u64_max)) by lia. cbn [mbind option_bind].
  rewrite (proj2 (N.leb_le (acc * 256 + d) u64_max)) by lia. cbn [mbind option_bind]. by apply IH.
Qed.

Lemma tlv_item tag value b rest : item tag value b → fits (b ++ rest) → tlv (b ++ rest) = Some (mkTlv tag value (length b)).
Proof.
  intros [hdr Ho] Hfit. unfold fits in Hfit. destruct Ho as [Hn|ds Hds Hv].
  - cbn [app]. cbn [app length] in Hfit. unfold tlv. rewrite (proj2 (N.ltb_lt _ 128)) by lia. cbn [mbind option_bind].
    rewrite length_app in Hfit.
    rewrite (proj2 (N.ltb_ge u64_max _)) by lia. cbn [length]. rewrite length_app, (proj2 (N.ltb_ge _ _)) by lia.
    rewrite Nat2N.id. cbn [drop]. rewrite drop_0, take_app_length. done.
  - cbn [app]. cbn [app length] in Hfit. rewrite <-app_assoc in Hfit |- *. rewrite !length_app in Hfit. unfold tlv.
    rewrite (proj2 (N.ltb_ge _ 128)) by lia. replace (128 + N.of_nat (length ds) - 128) with (N.of_nat (length ds)) by lia.
    rewrite (proj2 (N.eqb_neq _ 0)), (proj2 (N.ltb_ge 8 _)) by lia. cbn [orb]. rewrite Nat2N.id.
    rewrite long_length_value by (fold (value_of ds); rewrite Hv; lia). fold (value_of ds). rewrite Hv. cbn [mbind option_bind].
    rewrite (proj2 (N.ltb_ge u64_max _)) by lia. cbn [length]. rewrite !length_app, (proj2 (N.ltb_ge _ _)) by lia.
    rewrite Nat2N.id. cbn [drop Nat.add]. rewrite drop_app_length, take_app_length. f_equal; f_equal; lia.
Qed.

Lemma item_length tag value b : item tag value b → (2 ≤ length b)%nat.
Proof. intros [hdr []]; simpl; lia. Qed.

Lemma children_go_items l b fuel : items l b → fits b → (length b ≤ fuel)%nat → map entry (children_go fuel b) = l.
Proof.
  intros Hi. revert fuel. induction Hi as [|tag value b l r Hb Hr IH]; intros fuel Hfit Hfuel; [by destruct fuel|].
  pose proof (item_length _ _ _ Hb) as Hlen. rewrite length_app in Hfuel. destruct fuel as [|fuel]; [lia|]. cbn [children_go].
  assert (∃ x y, b ++ r = x :: y) as (x & y & E) by (destruct b as [|x b]; [simpl in Hlen; lia|by eexists _, _]).
  assert (fits r) as Hfr by (unfold fits in *; rewrite length_app in Hfit; lia).
  pose proof (tlv_item _ _ _ _ Hb Hfit) as Ht. rewrite E in Ht |- *. rewrite Ht, <-E. cbn [map tl_total].
  rewrite drop_app_length. f_equal. apply IH; [done|lia].
Qed.
Lemma children_items l b : items l b → fits b → map entry (children b) = l.
Proof. intros Hi Hf. by apply children_go_items. Qed.

Lemma item_value_fits tag value b : item tag value b → fits b → fits value.
Proof. intros [hdr _]. unfold fits. cbn [length]. rewrite length_app. lia. Qed.
Lemma items_value_fits l b tag value : items l b → fits b → (tag, value) ∈ l → fits value.
Proof.
  induction 1 as [|tag' value' b l r Hb Hr IH]; [by intros _ ?%elem_of_nil|]. intros Hf.
  assert (fits b ∧ fits r) as [Hfb Hfr] by (unfold fits in *; rewrite length_app in Hf; lia).
  intros [[= -> ->]|Hin]%elem_of_cons; [by eapply item_value_fits|by apply IH].
Qed.

(** The URIs among a list of general names. *)
Definition uris_of (names : list (N * list N)) : list string :=
  omap (λ e, if e.1 =? 0x86 then Some (of_bytes (lossy e.2)) else None) names.
(** A subjectAltName extension: its identifier, perhaps a criticality, and its names. *)
Definition san_extension (names : list (N * list N)) (san : list N) : Prop :=
  ∃ criticality octs namesb, items ((0x06, OID_SAN) :: criticality ++ [(0x04, octs)]) san ∧
    item 0x30 namesb octs ∧ items names namesb.
Definition other_extension (e : N * list N) : Prop :=
  e.1 ≠ 0x30 ∨ ∃ parts, items parts e.2 ∧ head parts ≠ Some (0x06, OID_SAN).
(** The layout of an X.509 certificate with alternative names; what else is in it is left open. *)
Definition certificate (names : list (N * list N)) (der : list N) : Prop :=
  ∃ cert trailer certv tbs signature before holder more after exts others san rest,
    der = cert ++ trailer ∧ item 0x30 certv cert ∧ items ((0x30, tbs) :: signature) certv ∧
    items (before ++ (0xA3, holder) :: after) tbs ∧ Forall (λ e, e.1 ≠ 0xA3) before ∧
    items ((0x30, exts) :: more) holder ∧ items (others ++ (0x30, san) :: rest) exts ∧
    Forall other_extension others ∧ san_extension names san.

Lemma uris_children ts names : map entry ts = names → omap uri_name ts = uris_of names.
Proof. intros <-. unfold uris_of, uri_name. induction ts as [|t ts IH]; [done|]. cbn. by rewrite IH. Qed.

Lemma head_entry ts l : map entry ts = l → entry <$> head ts = head l.
Proof. intros <-. by destruct ts. Qed.
Lemma last_entry ts l : map entry ts = l → entry <$> last ts = last l.
Proof. intros <-. induction ts as [|t [|u ts] IH]; done. Qed.
Lemma entry_inv o tag value : entry <$> o = Some (tag, value) → ∃ t, o = Some t ∧ tl_tag t = tag ∧ tl_value t = value.
Proof. destruct o as [t|]; [|done]. intros [= <- <-]. by exists t. Qed.
Lemma first_item_entry tag value l b : items ((tag, value) :: l) b → fits b →
  ∃ t, head (children b) = Some t ∧ tl_tag t = tag ∧ tl_value t = value.
Proof. intros Hi Hf. by apply entry_inv, (head_entry _ _ (children_items _ _ Hi Hf)). Qed.

Lemma san_names_found exts others san rest names :
  map entry exts = others ++ (0x30, san) :: rest → Forall other_extension others →
  (∀ e, e ∈ others ++ (0x30, san) :: rest → fits e.2) → san_extension names san → san_names exts = Some (uris_of names).
Proof.
  revert others. induction exts as [|x exts IH]; intros others Hm Ho Hfit Hsan; [by destruct others|].
  cbn [map] in Hm. destruct others as [|e others].
  - injection Hm as Hxt Hxv Hm. destruct x as [tag value total]. cbn in Hxt, Hxv. subst tag value. cbn [san_names tl_tag tl_value].
    change (negb (0x30 =? 0x30)) with false. cbv iota.
    assert (fits san) as Hfs by (apply (Hfit (0x30, san)); left).
    destruct Hsan as (crit & octs & nb & Hi & Hn & Hnames). pose proof (children_items _ _ Hi Hfs) as Hc.
    destruct (entry_inv _ _ _ (head_entry _ _ Hc)) as (oid & Hoid & Ht & Hv).
    assert (entry <$> last (children san) = Some (0x04, octs)) as (o & Hlast & Hot & Hov)%entry_inv.
    { rewrite (last_entry _ _ Hc). change (?a :: ?l ++ [?b]) with ((a :: l) ++ [b]). by rewrite last_snoc. }
    rewrite Hoid, Hlast, Ht, Hv, Hot, Hov. change (negb (0x06 =? 0x06)) with false. change (negb (0x04 =? 0x04)) with false.
    rewrite bool_decide_eq_true_2 by done. cbn [negb orb].
    assert (fits octs) as Hfo by (eapply (items_value_fits _ _ 0x04); [exact Hi|done|set_solver]).
    rewrite <-(app_nil_r octs), (tlv_item 0x30 nb) by (rewrite ?app_nil_r; done). cbn [mbind option_bind tl_tag tl_value].
    change (negb (0x30 =? 0x30)) with false. cbv iota. f_equal. apply uris_children, children_items; [done|].
    by apply item_value_fits in Hn.
  - injection Hm as Hx Hm. apply Forall_cons in Ho as [He Ho].
    assert (san_names exts = Some (uris_of names)) as IHx.
    { apply (IH others); try done. intros e' He'. apply Hfit. by right. }
    destruct x as [tag value total]. cbn in Hx. subst e. cbn [san_names tl_tag tl_value].
    destruct (N.eqb_spec tag 0x30) as [->|]; [|done]. cbn [negb]. destruct He as [He|(parts & Hp & Hh)]; [by destruct He|].
    assert (fits value) as Hfv by (apply (Hfit (0x30, value)); left).
    pose proof (head_entry _ _ (children_items _ _ Hp Hfv)) as Hoid. cbn in Hp, Hfv.
    change (entry <$> head (children value) = head parts) in Hoid.
    destruct (head (children value)) as [oid|]; [|done]. destruct (last (children value)) as [o|]; [|done].
    destruct (N.eqb_spec (tl_tag oid) 0x06) as [Et|]; [|done]. cbn [negb orb]. case_bool_decide as Ev; [|done].
    destruct Hh. rewrite <-Hoid. destruct oid as [ot ov ol]. cbn in Et, Ev |- *. by subst.
Qed.

Lemma find_extensions ts before holder after : map entry ts = before ++ (0xA3, holder) :: after →
  Forall (λ e, e.1 ≠ 0xA3) before → ∃ t, List.find (λ t, tl_tag t =? 0xA3) ts = Some t ∧ tl_value t = holder.
Proof.
  revert before. induction ts as [|x ts IH]; intros before Hm Hb; [by destruct before|]. cbn [map] in Hm. cbn [List.find].
  destruct before as [|e before].
  - injection Hm as Hxt Hxv Hm. rewrite Hxt. by exists x.
  - injection Hm as Hx Hm. apply Forall_cons in Hb as [He Hb]. subst e. cbn in He. rewrite (proj2 (N.eqb_neq _ _) He). by apply (IH before).
Qed.

Lemma uri_sans_certificate names der : certificate names der → fits der → uri_sans der = Some (uris_of names).
Proof.
  intros (cert & trailer & certv & tbs & sg & before & holder & more & after & exts & others & san & rest &
    -> & Hcert & Hcv & Htbs & Hb & Hh & He & Ho & Hsan) Hf. unfold uri_sans.
  rewrite (tlv_item _ _ _ _ Hcert Hf). cbn [mbind option_bind tl_tag tl_value]. change (negb (0x30 =? 0x30)) with false. cbv iota.
  assert (fits certv) as Hfc. { apply (item_value_fits _ _ _ Hcert). unfold fits in *. rewrite length_app in Hf. lia. }
  destruct (first_item_entry _ _ _ _ Hcv Hfc) as (t & -> & Ht & Hv). cbn [mbind option_bind]. rewrite Ht, Hv.
  change (negb (0x30 =? 0x30)) with false. cbv iota.
  assert (fits tbs) as Hft by (eapply items_value_fits; [exact Hcv|done|left]).
  destruct (find_extensions _ _ _ _ (children_items _ _ Htbs Hft) Hb) as (h & -> & Hhv). rewrite Hhv.
  assert (fits holder) as Hfh by (apply (items_value_fits _ _ 0xA3 _ Htbs); [done|set_solver]).
  destruct (first_item_entry _ _ _ _ Hh Hfh) as (x & -> & Hxt & Hxv). cbn [mbind option_bind]. rewrite Hxt, Hxv.
  change (negb (0x30 =? 0x30)) with false. cbv iota.
  assert (fits exts) as Hfe by (eapply items_value_fits; [exact Hh|done|left]).
  apply (san_names_found _ others san rest); [by apply children_items|done| |done].
  intros [tag value] Hin. by eapply items_value_fits.
Qed.

(** C20: the identity of a client certificate is the one it carries.  Of a certificate laid out as X.509
    has it, with lengths in any form and whatever else is in it, the identity read is a SPIFFE id
    exactly when it is the only one among the URI names of its subjectAltName; with none, or with
    two to choose from, it is refused. *)
Theorem certificate_identity `{AttestCodec} pem der names :
  first_certificate_der pem = Some der → fits der → certificate names der →
  (∀ id, spiffe_from_cert_pem pem = Ok id ↔ filterb (starts_with "spiffe://") (uris_of names) = [id]) ∧
  (∀ e, spiffe_from_cert_pem pem = Err e → e = IDENTITY_UNVERIFIABLE).
Proof.
  intros Hp Hf Hc. unfold spiffe_from_cert_pem. rewrite Hp. cbn [ok_or result_bind].
  rewrite (uri_sans_certificate _ _ Hc Hf). cbn [ok_or result_bind]. split.
  - intros id. destruct (filterb _ _) as [|u [|v l]]; naive_solver.
  - intros e. destruct (filterb _ _) as [|u [|v l]]; naive_solver.
Qed.

(** ** Concrete peers *)
Module PeerExamples.
Import TestPrinter TestSha TestNfc AttestExamples.

Definition svid (alg : Algorithm) (audience : string) (leeway now : N) (t : string) (key : string) : option string :=
  if bool_decide (t = token ∧ key = "kt" ∧ audience = "plane" ∧ now ≤ 900 + leeway) then Some server_id else None.
#[export] Instance peer_codec : PeerCodec := {| peer_svid_decode := svid |}.
#[export] Instance peer_laws : PeerLaws validity.
Proof.
  split. intros alg audience leeway now t key sub. cbn. unfold svid. case_bool_decide as Hc; [|done].
  destruct Hc as (-> & -> & -> & Hn). intros [= <-]. exists claims_value. split_and!; [| |done| | |].
  - by exists "h", "b", "by kt", "by kt", "b".
  - by left.
  - by eexists.
  - intros n [= <-]. lia.
  - intros n [=].
Qed.

Definition gateway : EntityId := mkEntityId "spiffe://bank/gateway".
Definition sidecar : MeshTrust := MeshTrust_socket "/run/mesh".
Definition element : list Field :=
  [mkField "By" false "spiffe://bank/gateway"; mkField "Subject" true "CN=a, O=b; c"; mkField "URI" false server_id].
Definition forwarded : string := render element.

Lemma element_read : element_ok element.
Proof.
  split; [done|]. unfold element. repeat apply Forall_cons_2; [..|by apply Forall_nil]; (split; [done|split]);
    intros b Hb%list_elem_of_In; repeat (destruct Hb as [<-|Hb]; [by vm_compute|]); done.
Qed.
Lemma xfcc_round_trip_witness : xfcc_peer_uri forwarded = Ok server_id.
Proof.
  pose proof (xfcc_round_trip [element]) as H. apply H; [done|]. apply Forall_singleton, element_read.
Defined.
Lemma peer_rests_on_transport_witness :
  caller_rests validity (JwtSvid (key_of "kt") "plane" 60 gateway) (mkPresented None None ∅ (Some token)) 940 (mkEntityId server_id) ∧
  caller_rests validity (Mesh sidecar gateway) (Presented_mesh forwarded (UnixSocket "/run/mesh")) 940 (mkEntityId server_id).
Proof.
  split.
  - apply (peer_rests_on_transport validity _ _ _ (mkPeer (mkPeerIdentity (mkEntityId server_id) gateway) true)). vm_compute. reflexivity.
  - apply (peer_rests_on_transport validity _ _ _ (mkPeer (mkPeerIdentity (mkEntityId server_id) gateway) true)). vm_compute. reflexivity.
Defined.
(** The same header from anywhere else is refused. *)
Lemma forwarded_elsewhere :
  resolve (Mesh sidecar gateway) (Presented_mesh forwarded (UnixSocket "/run/other")) 940 = Err PEER_HEADER_UNTRUSTED ∧
  resolve (Mesh sidecar gateway) (Presented_mesh forwarded (Tcp "127.0.0.1:9000")) 940 = Err PEER_HEADER_UNTRUSTED ∧
  map (λ a, is_local (Tcp a)) ["127.0.0.1:80"; "127.9.9.9:80"; "[::1]:80"; "[::0:1]:80"; "10.0.0.1:80"; "localhost:80"; "[::2]:80"; "[1::1::1]:80"]
    = [true; true; true; true; false; false; false; false].
Proof. split_and!; vm_compute; reflexivity. Qed.

(** A certificate in the layout of X.509, its names [dns] and one SPIFFE id. *)
Definition tlv_of (tag : N) (value : list N) : list N := tag :: N.of_nat (length value) :: value.
Definition names : list (N * list N) := [(0x82, bytes "bank"); (0x86, bytes server_id)].
Definition san_bytes : list N := tlv_of 0x06 OID_SAN ++ tlv_of 0x04 (tlv_of 0x30 (tlv_of 0x82 (bytes "bank") ++ tlv_of 0x86 (bytes server_id) ++ [])).
Definition tbs_bytes : list N := tlv_of 0x02 [1] ++ tlv_of 0xA3 (tlv_of 0x30 (tlv_of 0x30 san_bytes)).
Definition der : list N := tlv_of 0x30 (tlv_of 0x30 tbs_bytes ++ tlv_of 0x03 [0]).

Lemma item_of tag value : (length value < 128)%nat → item tag value (tlv_of tag value).
Proof. intros Hv. apply (Item tag value [N.of_nat (length value)]). by constructor. Qed.
Lemma items_one tag value : (length value < 128)%nat → items [(tag, value)] (tlv_of tag value).
Proof. intros Hv. rewrite <-(app_nil_r (tlv_of tag value)). constructor; [by apply item_of|constructor]. Qed.
Lemma items_more tag value l r : (length value < 128)%nat → items l r → items ((tag, value) :: l) (tlv_of tag value ++ r).
Proof. intros Hv Hr. constructor; [by apply item_of|done]. Qed.
Lemma der_certificate : certificate names der.
Proof.
  exists der, [], (tlv_of 0x30 tbs_bytes ++ tlv_of 0x03 [0]), tbs_bytes, [(0x03, [0])], [(0x02, [1])],
    (tlv_of 0x30 (tlv_of 0x30 san_bytes)), [], [], (tlv_of 0x30 san_bytes), [], san_bytes, [].
  split_and!; [by rewrite app_nil_r|apply item_of; cbn; lia| | |by constructor|apply items_one; cbn; lia|apply items_one; cbn; lia|constructor|].
  - apply items_more; [cbn; lia|]. apply items_one. cbn. lia.
  - apply items_more; [cbn; lia|]. apply items_one. cbn. lia.
  - exists [], (tlv_of 0x30 (tlv_of 0x82 (bytes "bank") ++ tlv_of 0x86 (bytes server_id) ++ [])), (tlv_of 0x82 (bytes "bank") ++ tlv_of 0x86 (bytes server_id) ++ []).
    split_and!; [|apply item_of; cbn; lia|].
    + apply items_more; [cbn; lia|]. apply items_one. cbn. lia.
    + apply items_more; [cbn; lia|]. apply items_more; [cbn; lia|constructor].
Qed.
Lemma der_fits : fits der.
Proof. unfold fits. vm_compute. discriminate. Qed.
(** Base64 that knows one text. *)
Definition der_codec : AttestCodec := {|
  crypto_verify := @crypto_verify _ codec;
  b64_standard s := if bool_decide (s = "MIIB") then Some (of_bytes der) else None;
  svid_decode := @svid_decode _ codec;
  oidc_decode := @oidc_decode _ codec;
  card_signatures_from_value := @card_signatures_from_value _ codec;
  dsse_from_value := @dsse_from_value _ codec
|}.
Definition pem : string := "-----BEGIN CERTIFICATE----- MI IB -----END CERTIFICATE-----".
Lemma certificate_identity_witness : @spiffe_from_cert_pem _ der_codec pem = Ok server_id.
Proof.
  refine (proj2 (proj1 (@certificate_identity _ der_codec pem der names _ der_fits der_certificate) server_id) _); vm_compute; reflexivity.
Defined.

(** *** A quote inside a quoted value *)
Definition quoted (s : string) : string := String quote_byte (s +:+ String quote_byte "").
(** One element whose [Subject], escaped as it should be, holds a quote and then [;URI=]. *)
Definition subject : string := "CN=a" +:+ String quote_byte ";URI=spiffe://evil;X=".
Fixpoint escape (s : string) : string :=
  match s with
  | EmptyString => ""
  | String c r => if bool_decide (c = quote_byte ∨ c = backslash) then String backslash (String c (escape r)) else String c (escape r)
  end.
Definition escaped_header : string := "Subject=" +:+ quoted (escape subject) +:+ ";URI=spiffe://real".
(** Splitting the elements has dropped the backslash, so the pairs are read with the quote closed
    there: the URI found is the one written inside the subject. *)
Lemma escaped_quote_spoofs :
  xfcc_peer_uri escaped_header = Ok "spiffe://evil" ∧ unquote (quoted (escape subject)) = subject.
Proof. split; vm_compute; reflexivity. Qed.
End PeerExamples.
