(* ===== verification/Trail.v ===== *)
(** * Trail: the decision trail of an enforcement point
    ([crates/wc-mediator/src/evidence.rs], and the line it holds from
    [crates/wc-core/src/obs.rs])

    Every decision becomes one line of text; the trail is a file of rows, each carrying the
    hash of the row before it.  The file is its bytes, so that a torn write leaves what it
    leaves on disk; what a write comes to is the argument [WriteIo].  serde's JSON parser is
    the parameter [SerdeParse].  The sequence counts rows of a file, so the additions on it
    stay far below the width of its type.  The complaint printed once is a flag. *)

From stdpp Require Import pretty.
From S2P Require Import Prelude Text Errors Model Json Canon Contract Artifact Log Std Chain Consent.

#[local] Open Scope N_scope.

(** ** The line of a decision *)

Record Decision := mkDecision {
  dc_cid : string; dc_decision : string; dc_code : string; dc_mode : string; dc_tool : string;
  dc_caller : string; dc_callee : string; dc_jti : string; dc_at : N; dc_micros : N
}.

Definition hex_lower (n : N) : ascii := ascii_of_N (if n <? 10 then 48 + n else 87 + n).
(** [quote], byte by byte: every byte of a character above the escaped range passes. *)
Definition escape_byte (c : ascii) : string :=
  let b := N_of_ascii c in
  if b =? 34 then String "\" (String quote_byte "")
  else if b =? 92 then "\\" else if b =? 10 then "\n" else if b =? 13 then "\r" else if b =? 9 then "\t"
  else if b <? 32 then "\u00" +:+ String (hex_lower (b / 16)) (String (hex_lower (b mod 16)) "")
  else String c "".
Fixpoint escaped (s : string) : string :=
  match s with EmptyString => "" | String c s => escape_byte c +:+ escaped s end.
Definition quote (s : string) : string := in_quotes (escaped s).

(** One member of an object, its key in quotes. *)
Definition member (key value : string) : string := in_quotes key +:+ ":" +:+ value.
Definition to_line (d : Decision) : string :=
  "{" +:+ join ","
    [member "ts" (pretty (dc_at d)); member "ev" (in_quotes "connect.decision");
     member "service.name" (in_quotes "warden-connect");
     member "cid" (quote (dc_cid d)); member "decision" (quote (dc_decision d)); member "code" (quote (dc_code d));
     member "mode" (quote (dc_mode d)); member "tool" (quote (dc_tool d)); member "caller" (quote (dc_caller d));
     member "callee" (quote (dc_callee d)); member "jti" (quote (dc_jti d));
     member "latency_us" (pretty (dc_micros d))] +:+ "}".

Inductive LogLevel := LOff | LNotable | LAll.
Definition LogLevel_parse (value : string) : option LogLevel :=
  if str_in value ["off"; "none"] then Some LOff
  else if str_in value ["notable"; "deny"] then Some LNotable
  else if str_in value ["all"] then Some LAll else None.
Definition LogLevel_as_str (l : LogLevel) : string := match l with LOff => "off" | LNotable => "notable" | LAll => "all" end.
Definition logs (l : LogLevel) (decision : string) : bool :=
  match l with LOff => false | LNotable => negb (bool_decide (decision = "allow")) | LAll => true end.

(** ** Delivery *)

Inductive Delivery := Blocking | FailSafe.
#[global] Instance Delivery_eq_dec : EqDecision Delivery.
Proof. solve_decision. Defined.
Definition Delivery_parse (s : string) : Delivery := if str_in s ["fail-safe"; ""] then FailSafe else Blocking.

(** ** The chain *)

Record Head := mkHead { hd_seq : N; hd_hash : string }.
Definition GENESIS : string := "wc-evidence-genesis".
Definition Head_new : Head := mkHead 0 GENESIS.

Inductive TrailError :=
| Unreadable | NotJson (row : nat) | MissingField (row : nat) | SeqGap (row : nat) (got : N) | PrevBroken (seq : N)
| NoRecordText (seq : N) | HashBroken (seq : N).

(** [str::trim_end]: what is left when nothing but white space follows.  A suffix that starts
    inside a character decodes to the replacement character, which is none. *)
Fixpoint trim_end (s : string) : string :=
  if is_blank s then "" else match s with EmptyString => "" | String c s => String c (trim_end s) end.

(** The record text of a row: between the first ["rec"] member and the last brace. *)
Definition rec_key : string := "," +:+ in_quotes "rec" +:+ ":".
Definition raw_rec (row : string) : option string :=
  split ← split_at_first rec_key (trim_end row);
  rest ← unsnoc split.2;
  if bool_decide (rest.1 = "") || negb (bool_decide (rest.2 = "}"%char)) then None else Some rest.1.

Section Trail.
Context `{Sha256, SerdeParse}.

Definition row_hash (prev line : string) : string := sha256_hex (prev +:+ LFs +:+ line).

(** The row of a record, without its line feed. *)
Definition row_text (seq : N) (prev hash line : string) : string :=
  "{" +:+ member "seq" (pretty seq) +:+ "," +:+ member "prev" (in_quotes prev) +:+ "," +:+
  member "hash" (in_quotes hash) +:+ rec_key +:+ line +:+ "}".

(** One row against the position before it. *)
Definition check_row (i : nat) (h : Head) (line : string) : Result Head TrailError :=
  let? row := ok_or (from_slice line) (NotJson i) in
  match vget "seq" row ≫= as_u64, vget "prev" row ≫= as_str, vget "hash" row ≫= as_str, vget "rec" row with
  | Some got_seq, Some got_prev, Some got_hash, Some _ =>
    guard_err (negb (got_seq =? hd_seq h + 1)) (SeqGap i got_seq) $
    guard_err (negb (bool_decide (got_prev = hd_hash h))) (PrevBroken got_seq) $
    let? raw := ok_or (raw_rec line) (NoRecordText got_seq) in
    guard_err (negb (bool_decide (got_hash = row_hash (hd_hash h) raw))) (HashBroken got_seq) $
    Ok (mkHead got_seq got_hash)
  | _, _, _, _ => Err (MissingField i)
  end.
Fixpoint verify_lines (i : nat) (h : Head) (lines : list string) : Result Head TrailError :=
  match lines with
  | [] => Ok h
  | line :: lines =>
    if is_blank line then verify_lines (S i) h lines
    else let? h := check_row i h line in verify_lines (S i) h lines
  end.
(** [verify]; [None] is a file that cannot be opened. *)
Definition verify (file : option string) : Result Head TrailError :=
  let? text := ok_or file Unreadable in verify_lines 1 Head_new (file_lines text).

(** The loop of [records_since] over lines that already verified. *)
Definition parsed (line : string) : Result (Value * string) TrailError :=
  let? row := ok_or (from_slice line) (NotJson 0) in Ok (row, line).
Definition after (seq : N) (p : Value * string) : option string :=
  if seq <? default 0 (vget "seq" p.1 ≫= as_u64) then raw_rec p.2 else None.
Definition records_since (file : option string) (seq : N) : Result (list string) TrailError :=
  let? _ := verify file in
  let? text := ok_or file Unreadable in
  let? rows := mapR parsed (filterb (λ line, negb (is_blank line)) (file_lines text)) in Ok (omap (after seq) rows).

(** ** The sink *)

Record FileSink := mkFileSink {
  fs_file : string;          (* the bytes on disk *)
  fs_delivery : Delivery;
  fs_head : Head;
  fs_complained : bool
}.

(** [FileSink::open]: [None] is a path nothing is at; [opens] is whether the system opens it. *)
Definition FileSink_open (file : option string) (delivery : Delivery) (opens : bool) : Result FileSink TrailError :=
  let? h := match file with Some _ => verify file | None => Ok Head_new end in
  guard_err (negb opens) Unreadable $ Ok (mkFileSink (default "" file) delivery h false).

Definition append_bytes (s : FileSink) (bytes : string) : FileSink :=
  mkFileSink (fs_file s +:+ bytes) (fs_delivery s) (fs_head s) (fs_complained s).
(** [record]: the row goes to the file, and the head moves once it is there. *)
Definition record (s : FileSink) (d : Decision) (io : WriteIo) : FileSink * option Head :=
  let seq := hd_seq (fs_head s) + 1 in
  let line := to_line d in
  let hash := row_hash (hd_hash (fs_head s)) line in
  let row := row_text seq (hd_hash (fs_head s)) hash line +:+ LFs in
  match io with
  | Torn prefix => (append_bytes s prefix, None)
  | Written => let s := append_bytes s row in
               (mkFileSink (fs_file s) (fs_delivery s) (mkHead seq hash) (fs_complained s), Some (mkHead seq hash))
  end.
Definition record_or_refuse (s : FileSink) (d : Decision) (delivery : option Delivery) (io : WriteIo) : FileSink * bool :=
  match record s d io with
  | (s', Some _) => (s', true)
  | (s', None) =>
    match default (fs_delivery s) delivery with
    | Blocking => (s', false)
    | FailSafe => (mkFileSink (fs_file s') (fs_delivery s') (fs_head s') true, true)
    end
  end.
End Trail.

(** ** Laws

    What the parser promises of the rows this module writes: a JSON text over valid UTF-8 is
    read as the object it spells. *)

Definition utf8 (s : string) : Prop := from_utf8_lossy s = s.
Definition decision_text (d : Decision) : Prop :=
  Forall utf8 [dc_cid d; dc_decision d; dc_code d; dc_mode d; dc_tool d; dc_caller d; dc_callee d; dc_jti d] ∧
  is_u64 (dc_at d) ∧ is_u64 (dc_micros d).
(** What a hash in the file is made of: letters, digits and hyphens. *)
Definition hash_byte (b : N) : bool := is_ascii_alphanumeric b || (b =? 45).
Definition hash_text (p : string) : Prop := ∀ b, b ∈ bytes p → hash_byte b = true.

Class RowLaws `{SerdeParse} : Prop := {
  row_reads seq prev hash d : is_u64 seq → hash_text prev → hash_text hash → decision_text d →
    ∃ v, from_slice (row_text seq prev hash (to_line d)) = Some v ∧ vget "seq" v = Some (VNumber (PosInt seq)) ∧
      vget "prev" v = Some (VString prev) ∧ vget "hash" v = Some (VString hash) ∧ ∃ rec, vget "rec" v = Some rec
}.

(** ** Lemmas: the text of a row *)

Definition visible (s : string) : Prop := ∀ b, b ∈ bytes s → 32 ≤ b.
Lemma visible_app s t : visible s → visible t → visible (s +:+ t).
Proof. intros Hs Ht b. rewrite bytes_app, elem_of_app. intros [?|?]; auto. Qed.
Lemma visible_const s : forallb (λ b, 32 <=? b) (bytes s) = true → visible s.
Proof. intros Hf b Hb. rewrite forallb_True in Hf. by apply N.leb_le, Hf. Qed.
Lemma visible_in_quotes s : visible s → visible (in_quotes s).
Proof. intros Hs. apply (visible_app (String quote_byte "")); [by apply visible_const|]. apply visible_app; [done|by apply visible_const]. Qed.
Lemma visible_escaped s : visible (escaped s).
Proof.
  induction s as [|c s IH]; [by intros b ?%elem_of_nil|]. cbn [escaped]. apply visible_app; [|done].
  apply visible_const. by destruct c as [[] [] [] [] [] [] [] []].
Qed.
Lemma visible_pretty (n : N) : visible (pretty n).
Proof. intros b Hb%pretty_N_bytes. unfold is_ascii_digit in Hb. apply andb_true_iff in Hb as [?%N.leb_le _]. lia. Qed.
Lemma visible_hash p : hash_text p → visible p.
Proof.
  intros Hp b Hb%Hp. destruct (N.le_gt_cases 32 b) as [|Hl]; [done|]. exfalso. revert Hb.
  unfold hash_byte, is_ascii_alphanumeric, is_ascii_digit, is_ascii_lowercase, is_ascii_uppercase. intros Hb.
  repeat (apply orb_true_iff in Hb as [Hb|Hb]); rewrite ?andb_true_iff, ?N.leb_le, ?N.eqb_eq in Hb; lia.
Qed.
Lemma visible_join ws : Forall visible ws → visible (join "," ws).
Proof.
  induction 1 as [|w ws Hw Hws IH]; [by intros b ?%elem_of_nil|]. destruct ws as [|v ws]; [done|].
  apply visible_app; [done|]. apply visible_app; [by apply visible_const|done].
Qed.
Lemma visible_member key value : visible key → visible value → visible (member key value).
Proof. intros ??. repeat apply visible_app; [by apply visible_in_quotes|by apply visible_const|done]. Qed.
#[local] Hint Resolve visible_app visible_member visible_in_quotes visible_escaped visible_pretty visible_hash : trail.
#[local] Hint Extern 3 (visible _) => (by apply visible_const) : trail.

Lemma visible_to_line d : visible (to_line d).
Proof.
  unfold to_line, quote. apply visible_app; [auto with trail|]. apply visible_app; [|auto with trail].
  apply visible_join. repeat constructor; auto with trail.
Qed.

Section Rows.
Context `{Sha256Hex, SerdeParse}.

Lemma visible_row seq prev hash d : hash_text prev → hash_text hash → visible (row_text seq prev hash (to_line d)).
Proof. intros. pose proof (visible_to_line d). unfold row_text, rec_key. auto 20 with trail. Qed.
Lemma visible_one_line s : visible s → one_line s.
Proof. intros Hv. split; intros Hb%Hv; cbn in Hb; lia. Qed.
Lemma plain_row seq prev hash d : hash_text prev → hash_text hash → plain_line (row_text seq prev hash (to_line d)).
Proof. intros. split; [by apply visible_one_line, visible_row|done]. Qed.

Lemma row_hash_text prev line : hash_text (row_hash prev line).
Proof.
  unfold row_hash. intros b Hb%sha256_hex_digits. unfold is_ascii_hexdigit in Hb. unfold hash_byte, is_ascii_alphanumeric, is_ascii_lowercase, is_ascii_uppercase.
  rewrite !orb_true_iff, !andb_true_iff, !N.leb_le in *. destruct Hb as [[?|?]|?]; [tauto| |]; left;
    [left; right|right]; lia.
Qed.
Lemma genesis_text : hash_text GENESIS.
Proof. intros b Hb. assert (forallb hash_byte (bytes GENESIS) = true) as Hf by done. rewrite forallb_True in Hf. auto. Qed.

Lemma split_skip c n w s : no_byte c w →
  split_at_first (String c n) (w +:+ s) = (λ p, (w +:+ p.1, p.2)) <$> split_at_first (String c n) s.
Proof.
  induction w as [|a w IH]; intros Hw.
  { change ("" +:+ s) with s. by destruct (split_at_first (String c n) s) as [[]|]. }
  change (String a w +:+ s) with (String a (w +:+ s)). cbn [split_at_first strip_prefix].
  assert (N_of_ascii c ≠ N_of_ascii a ∧ no_byte c w) as [Hne Hw'].
  { unfold no_byte in Hw. change (bytes (String a w)) with (N_of_ascii a :: bytes w) in Hw. rewrite not_elem_of_cons in Hw. done. }
  rewrite bool_decide_eq_false_2 by congruence. rewrite IH by done. by destruct (split_at_first (String c n) s) as [[]|].
Qed.

Lemma no_comma_hash p : hash_text p → no_byte ","%char p.
Proof. intros Hp Hb%Hp. done. Qed.
Lemma no_comma_digits (n : N) : no_byte ","%char (pretty n).
Proof. intros Hb%pretty_N_bytes. done. Qed.
Lemma no_byte_app c s t : no_byte c s → no_byte c t → no_byte c (s +:+ t).
Proof. unfold no_byte. rewrite bytes_app, elem_of_app. tauto. Qed.
Lemma no_byte_const c s : forallb (λ b, negb (b =? N_of_ascii c)) (bytes s) = true → no_byte c s.
Proof. intros Hf Hb. rewrite forallb_True in Hf. apply Hf in Hb. by rewrite N.eqb_refl in Hb. Qed.

Lemma split_row seq prev hash rest : hash_text prev → hash_text hash →
  snd <$> split_at_first rec_key (row_text seq prev hash rest) = Some (rest +:+ "}").
Proof.
  intros Hp Hh. unfold row_text, member, rec_key. rewrite !string_app_assoc.
  assert (∀ c w u, no_byte c w → ∀ n, snd <$> split_at_first (String c n) (w +:+ u) = snd <$> split_at_first (String c n) u) as Hs.
  { intros c w u Hw n. rewrite split_skip by done. by destruct (split_at_first _ u) as [[]|]. }
  assert (∀ n r, snd <$> split_at_first (String "," n) (String "," r) =
    match strip_prefix n r with Some x => Some x | None => snd <$> split_at_first (String "," n) r end) as Hc.
  { intros n r. cbn [split_at_first strip_prefix]. rewrite bool_decide_eq_true_2 by done. destruct (strip_prefix n r); [done|].
    by destruct (split_at_first _ r) as [[]|]. }
  change ("," +:+ in_quotes "rec" +:+ ":") with (String "," (in_quotes "rec" +:+ ":")).
  rewrite (Hs _ "{") by by apply no_byte_const. rewrite (Hs _ (in_quotes "seq")) by by apply no_byte_const.
  rewrite (Hs _ ":") by by apply no_byte_const. rewrite (Hs _ (pretty seq)) by apply no_comma_digits.
  assert (∀ s, "," +:+ s = String "," s) as Hcomma by done.
  rewrite (Hcomma (in_quotes "prev" +:+ _)), Hc. change (strip_prefix _ (in_quotes "prev" +:+ _)) with (@None string). cbv iota.
  rewrite (Hs _ (in_quotes "prev")) by by apply no_byte_const. rewrite (Hs _ ":") by by apply no_byte_const.
  assert (∀ p, hash_text p → no_byte "," (in_quotes p)) as Hq.
  { intros p Hp'. apply (no_byte_app _ (String quote_byte "")); [by apply no_byte_const|].
    apply no_byte_app; [by apply no_comma_hash|by apply no_byte_const]. }
  rewrite (Hs _ (in_quotes prev)) by auto.
  rewrite (Hcomma (in_quotes "hash" +:+ _)), Hc. change (strip_prefix _ (in_quotes "hash" +:+ _)) with (@None string). cbv iota.
  rewrite (Hs _ (in_quotes "hash")) by by apply no_byte_const. rewrite (Hs _ ":") by by apply no_byte_const.
  rewrite (Hs _ (in_quotes hash)) by auto. rewrite Hcomma, Hc.
  assert (∀ w u, strip_prefix w (w +:+ u) = Some u) as Hst by (intros; by apply strip_prefix_Some).
  rewrite <-(string_app_assoc (in_quotes "rec")), Hst. done.
Qed.

Lemma not_blank b s : b < 128 → is_whitespace b = false → b ∈ bytes s → is_blank s = false.
Proof.
  intros Hb Hw Hin. unfold is_blank. destruct (forallb is_whitespace (chars s)) eqn:E; [|done].
  rewrite forallb_True in E. rewrite E in Hw; [done|]. by apply utf8_decode_keeps_ascii.
Qed.
Lemma trim_end_brace s : trim_end (s +:+ "}") = s +:+ "}".
Proof.
  assert (∀ s, is_blank (s +:+ "}") = false) as Hb.
  { intros t. apply (not_blank 125); [done|done|]. rewrite bytes_app. set_solver. }
  induction s as [|c s IH]; [done|]. specialize (Hb (String c s)). change (String c s +:+ "}") with (String c (s +:+ "}")) in *.
  cbn [trim_end]. rewrite Hb. by f_equal.
Qed.
Lemma raw_rec_row seq prev hash rest : hash_text prev → hash_text hash → rest ≠ "" →
  raw_rec (row_text seq prev hash rest) = Some rest.
Proof.
  intros Hp Hh Hr. unfold raw_rec. pose proof (split_row seq prev hash rest Hp Hh) as Hs.
  assert (trim_end (row_text seq prev hash rest) = row_text seq prev hash rest) as ->.
  { unfold row_text. rewrite <-!string_app_assoc. apply trim_end_brace. }
  destruct (split_at_first rec_key _) as [[l r]|]; simpl in Hs; [|done]. injection Hs as ->. cbn.
  rewrite unsnoc_app. cbn. by rewrite bool_decide_eq_false_2.
Qed.
Lemma to_line_nonempty d : to_line d ≠ "".
Proof. done. Qed.

(** *** The chain over the record texts *)

Definition next_head (h : Head) (raw : string) : Head := mkHead (hd_seq h + 1) (row_hash (hd_hash h) raw).
Definition chained (h : Head) (raws : list string) : Head := foldl next_head h raws.

Lemma chained_snoc h raws r : chained h (raws ++ [r]) = next_head (chained h raws) r.
Proof. unfold chained. by rewrite foldl_app. Qed.
Lemma chained_seq h raws : hd_seq (chained h raws) = hd_seq h + len raws.
Proof.
  induction raws as [|r raws IH] using rev_ind; [unfold len; simpl; lia|].
  rewrite chained_snoc. unfold next_head. cbn [hd_seq]. rewrite IH. unfold len. rewrite length_app. simpl. lia.
Qed.
Lemma chained_text h raws : hash_text (hd_hash h) → hash_text (hd_hash (chained h raws)).
Proof. intros Hh. induction raws as [|r raws _] using rev_ind; [done|]. rewrite chained_snoc. apply row_hash_text. Qed.

Lemma row_hash_inj p p' l l' : hash_text p → hash_text p' → row_hash p l = row_hash p' l' → (p = p' ∧ l = l') ∨ sha256_collision.
Proof.
  intros Hp Hp' He. destruct (decide (p +:+ LFs +:+ l = p' +:+ LFs +:+ l')) as [Heq|Hne]; [left|right; by eexists _, _].
  assert (∀ q, hash_text q → N_of_ascii "010" ∉ bytes q) as Hn by (by intros q Hq Hb%Hq).
  assert (∀ q m, hash_text q → split_once "010" (q +:+ LFs +:+ m) = Some (q, m)) as Hs.
  { intros q m Hq. change (LFs +:+ m) with (String "010" m). apply split_once_plain. by apply Hn. }
  pose proof (Hs p l Hp) as Hsp. rewrite Heq, (Hs p' l' Hp') in Hsp. by injection Hsp as -> ->.
Qed.
Lemma chained_inj h raws raws' : hash_text (hd_hash h) → chained h raws = chained h raws' → raws = raws' ∨ sha256_collision.
Proof.
  intros Hh. revert raws'. induction raws as [|r raws IH] using rev_ind; intros raws' He.
  - left. apply (f_equal hd_seq) in He. rewrite !chained_seq in He. unfold len in He. destruct raws'; simpl in He; [done|lia].
  - destruct raws' as [|r' raws' _] using rev_ind.
    { apply (f_equal hd_seq) in He. rewrite !chained_seq in He. unfold len in He. rewrite length_app in He. simpl in He. lia. }
    rewrite !chained_snoc in He. unfold next_head in He. injection He as Hseq Hhash.
    apply row_hash_inj in Hhash as [[Hhash ->]|]; [|by right|by apply chained_text..].
    destruct (IH raws') as [->|]; [|by left|by right].
    destruct (chained h raws), (chained h raws'); cbn [hd_seq hd_hash] in *. f_equal; [lia|done].
Qed.

(** *** Rows that verify *)

Definition row_of (line : string) (seq : N) (raw : string) : Prop :=
  raw_rec line = Some raw ∧ ∃ row, from_slice line = Some row ∧ vget "seq" row ≫= as_u64 = Some seq.

Lemma check_row_ok i h line h' : check_row i h line = Ok h' ↔
  ∃ row rec raw, from_slice line = Some row ∧ vget "seq" row ≫= as_u64 = Some (hd_seq h + 1) ∧
    vget "prev" row ≫= as_str = Some (hd_hash h) ∧ vget "hash" row ≫= as_str = Some (row_hash (hd_hash h) raw) ∧
    vget "rec" row = Some rec ∧ raw_rec line = Some raw ∧ h' = next_head h raw.
Proof.
  unfold check_row. rewrite result_bind_ok. setoid_rewrite ok_or_ok. split.
  - intros (row & Hrow & Hr). destruct (vget "seq" row ≫= as_u64) as [q|] eqn:Eq; [|done].
    destruct (vget "prev" row ≫= as_str) as [p|] eqn:Ep; [|done]. destruct (vget "hash" row ≫= as_str) as [k|] eqn:Ek; [|done].
    destruct (vget "rec" row) as [rec|] eqn:Er; [|done]. apply guard_err_ok in Hr as [->%negb_false_iff%N.eqb_eq Hr].
    apply guard_err_ok in Hr as [->%negb_false_iff%bool_decide_eq_true (raw & Hraw%ok_or_ok & Hr)%result_bind_ok].
    apply guard_err_ok in Hr as [->%negb_false_iff%bool_decide_eq_true [= <-]].
    by exists row, rec, raw.
  - intros (row & rec & raw & Hrow & Hq & Hp & Hk & Hrec & Hraw & ->).
    exists row. split; [done|]. rewrite Hq, Hp, Hk, Hrec, Hraw, N.eqb_refl, !bool_decide_eq_true_2 by done. cbn.
    by rewrite bool_decide_eq_true_2.
Qed.

Lemma verify_lines_app i h l1 l2 : verify_lines i h (l1 ++ l2) =
  let? h := verify_lines i h l1 in verify_lines (i + length l1) h l2.
Proof.
  revert i h. induction l1 as [|w l1 IH]; intros i h; cbn [app verify_lines length]; [by rewrite Nat.add_0_r|].
  rewrite <-Nat.add_succ_comm. destruct (is_blank w); [apply IH|]. destruct (check_row i h w); simpl; [apply IH|done].
Qed.

(** A text that verifies is a chain of record texts, and reading it from a position gives the
    rest of them. *)
Lemma verify_lines_raws i h lines h' : verify_lines i h lines = Ok h' →
  ∃ raws, chained h raws = h' ∧ ∀ n, ∃ rows,
    mapR parsed (filterb (λ line, negb (is_blank line)) lines) = Ok rows ∧
    omap (after n) rows = drop (N.to_nat (n - hd_seq h)) raws.
Proof.
  revert i h. induction lines as [|line lines IH]; intros i h; cbn [verify_lines filterb].
  { intros [= <-]. exists []. split; [done|]. intros n. exists []. by rewrite drop_nil. }
  destruct (is_blank line) eqn:Eb; cbn [negb]; [apply IH|].
  intros (h1 & (row & rec & raw & Hrow & Hq & _ & _ & _ & Hraw & ->)%check_row_ok & Hv)%result_bind_ok.
  destruct (IH _ _ Hv) as (raws & Hc & Hall). exists (raw :: raws). split; [done|]. intros n.
  destruct (Hall n) as (rows & Hm & Ho). exists ((row, line) :: rows). unfold next_head in Ho. cbn [hd_seq] in Ho.
  cbn [mapR]. unfold parsed at 1. rewrite Hrow. cbn [ok_or result_bind]. rewrite Hm. split; [done|].
  change (omap (after n) ((row, line) :: rows)) with (match after n (row, line) with Some y => y :: omap (after n) rows | None => omap (after n) rows end).
  rewrite Ho. unfold after. cbn [fst snd]. rewrite Hq. cbn [default from_option id]. destruct (N.ltb_spec n (hd_seq h + 1)) as [Hlt|Hge].
  - rewrite Hraw. by replace (n - hd_seq h) with 0 by lia; replace (n - (hd_seq h + 1)) with 0 by lia.
  - replace (N.to_nat (n - hd_seq h)) with (S (N.to_nat (n - (hd_seq h + 1)))) by lia. done.
Qed.

(** ** What a trail proves *)

Context `{!RowLaws}.

(** A sink as opening and recording leave it: its file is whole lines that verify up to its head. *)
Definition sound (s : FileSink) : Prop :=
  verify (Some (fs_file s)) = Ok (fs_head s) ∧ ∃ ws, Forall plain_line ws ∧ fs_file s = text_lines ws.

Definition record_run (s : FileSink) (ds : list Decision) : FileSink := foldl (λ s d, (record s d Written).1) s ds.

Lemma verify_raws file h : verify (Some file) = Ok h →
  ∃ raws, chained Head_new raws = h ∧ ∀ n, records_since (Some file) n = Ok (drop (N.to_nat n) raws).
Proof.
  intros Hv. destruct (verify_lines_raws _ _ _ _ Hv) as (raws & Hc & Hall). exists raws. split; [done|]. intros n.
  unfold records_since. rewrite Hv. cbn [result_bind ok_or]. destruct (Hall n) as (rows & -> & Ho). cbn [result_bind].
  rewrite Ho. by replace (n - hd_seq Head_new) with n by (cbn; lia).
Qed.
Lemma sound_hash s : sound s → hash_text (hd_hash (fs_head s)).
Proof. intros [(raws & <- & _)%verify_raws _]. by apply chained_text, genesis_text. Qed.

Lemma mapR_snoc {A B E} (f : A → Result B E) l x ys y : mapR f l = Ok ys → f x = Ok y → mapR f (l ++ [x]) = Ok (ys ++ [y]).
Proof.
  revert ys. induction l as [|a l IH]; intros ys; cbn [mapR app]; [by intros [= <-] ->|].
  destruct (f a) as [b|]; cbn [result_bind]; [|done]. intros (zs & Hz & [= <-])%result_bind_ok Hx. by rewrite (IH zs Hz Hx).
Qed.
(** The row of a decision, added to lines that verify. *)
Lemma verify_row i lines h d n raws : verify_lines 1 Head_new lines = Ok h → decision_text d → is_u64 (hd_seq h + 1) → n ≤ hd_seq h →
  hash_text (hd_hash h) →
  let line := to_line d in
  let row := row_text (hd_seq h + 1) (hd_hash h) (row_hash (hd_hash h) line) line in
  plain_line row ∧ check_row i h row = Ok (next_head h line) ∧
  (∀ rows, mapR parsed (filterb (λ line, negb (is_blank line)) lines) = Ok rows → omap (after n) rows = raws →
    ∃ rows', mapR parsed (filterb (λ line, negb (is_blank line)) (lines ++ [row])) = Ok rows' ∧ omap (after n) rows' = raws ++ [line]).
Proof.
  intros Hv Hd Hu Hn Hh line row. assert (plain_line row) as Hrow by (by apply plain_row; [|apply row_hash_text]).
  assert (raw_rec row = Some line) as Hraw by (apply raw_rec_row; [done|apply row_hash_text|apply to_line_nonempty]).
  destruct (row_reads (hd_seq h + 1) (hd_hash h) (row_hash (hd_hash h) line) d)
    as (v & Hr & Hq & Hp & Hk & rec & Hrec); [done|done|apply row_hash_text|done|]. fold line row in Hr. split; [done|]. split.
  - apply check_row_ok. exists v, rec, line. rewrite Hq, Hp, Hk. by repeat split.
  - intros rows Hm Ho. exists (rows ++ [(v, row)]). rewrite filterb_snoc. destruct Hrow as [_ ->]. cbn [negb].
    split; [apply mapR_snoc; [done|]; unfold parsed; by rewrite Hr|]. rewrite omap_app, Ho. cbn. unfold after. cbn [fst snd].
    rewrite Hq, Hraw. cbn. by rewrite (proj2 (N.ltb_lt n (hd_seq h + 1))) by lia.
Qed.

Lemma record_sound s d n : sound s → decision_text d → is_u64 (hd_seq (fs_head s) + 1) → n ≤ hd_seq (fs_head s) →
  let s' := (record s d Written).1 in
  sound s' ∧ fs_head s' = next_head (fs_head s) (to_line d) ∧ fs_delivery s' = fs_delivery s ∧
  ∀ raws, records_since (Some (fs_file s)) n = Ok raws → records_since (Some (fs_file s')) n = Ok (raws ++ [to_line d]).
Proof.
  intros Hs Hd Hu Hn. pose proof (sound_hash s Hs) as Hh. destruct Hs as [Hv (ws & Hws & Hf)].
  assert (file_lines (fs_file s) = ws) as Hl by (by rewrite Hf, file_lines_text_lines).
  unfold verify in Hv. cbn [ok_or result_bind] in Hv. rewrite Hl in Hv.
  destruct (verify_row (1 + length ws) ws (fs_head s) d n [] Hv Hd Hu Hn Hh) as (Hrow & Hcheck & _).
  cbn -[row_text]. set (row := row_text _ _ _ _) in *. rewrite Hf, text_lines_snoc.
  assert (Forall plain_line (ws ++ [row])) as Hws' by (apply Forall_app; split; [done|by constructor]).
  assert (verify (Some (text_lines (ws ++ [row]))) = Ok (next_head (fs_head s) (to_line d))) as Hv'.
  { unfold verify. cbn [ok_or result_bind]. rewrite file_lines_text_lines, verify_lines_app, Hv by done. cbn [result_bind verify_lines].
    destruct Hrow as [_ ->]. by rewrite Hcheck. }
  split_and!; [|done|done|].
  - split; cbn [fs_file fs_head]; [exact Hv'|by exists (ws ++ [row])].
  - intros raws. unfold records_since. rewrite <-Hf. unfold verify at 1. cbn [ok_or result_bind]. rewrite Hl, Hv. cbn [result_bind].
    intros (rows & Hm & [= Ho])%result_bind_ok. rewrite Hf in *. cbn [fs_file]. rewrite Hv'. cbn [result_bind ok_or]. rewrite file_lines_text_lines by done.
    destruct (verify_row 1 ws (fs_head s) d n raws Hv Hd Hu Hn Hh) as (_ & _ & Hall).
    destruct (Hall rows Hm Ho) as (rows' & Hm' & Ho'). fold row in Hm'. rewrite Hm'. cbn [result_bind]. by rewrite Ho'.
Qed.

Lemma record_run_sound s ds n raws : sound s → Forall decision_text ds → is_u64 (hd_seq (fs_head s) + len ds) → n ≤ hd_seq (fs_head s) →
  records_since (Some (fs_file s)) n = Ok raws →
  let s' := record_run s ds in
  sound s' ∧ fs_delivery s' = fs_delivery s ∧ records_since (Some (fs_file s')) n = Ok (raws ++ map to_line ds).
Proof.
  intros Hs Hds. revert s raws Hs. induction Hds as [|d ds Hd Hds IH]; intros s raws Hs Hu Hn Hr; [by rewrite app_nil_r|].
  unfold is_u64, len in *. cbn [length] in Hu.
  destruct (record_sound s d n Hs Hd) as (Hs' & Hh & Hdel & Hrec); [unfold is_u64; lia|done|].
  destruct (IH _ (raws ++ [to_line d]) Hs') as (Hr' & Hd' & Hl).
  - rewrite Hh. unfold next_head. cbn [hd_seq]. lia.
  - rewrite Hh. unfold next_head. cbn [hd_seq]. lia.
  - by apply Hrec.
  - cbv zeta. change (record_run s (d :: ds)) with (record_run (record s d Written).1 ds).
    rewrite Hd', Hl, Hdel, <-app_assoc. done.
Qed.

(** C19: a decision trail is evidence.  Whatever decisions are recorded on a trail that was sound, the
    file verifies, its head is the one the sink holds, and reading past the old head gives
    exactly the lines of those decisions, in order; a file that verifies to that same head
    holds the same records, however it came to be, up to a SHA-256 collision; and a decision
    that could not be written refuses the call exactly when the terms of its contract, or
    without any the default of the sink, ask for blocking delivery. *)
Theorem trail_is_evidence s ds : sound s → Forall decision_text ds → is_u64 (hd_seq (fs_head s) + len ds) →
  let s' := record_run s ds in
  verify (Some (fs_file s')) = Ok (fs_head s') ∧
  records_since (Some (fs_file s')) (hd_seq (fs_head s)) = Ok (map to_line ds) ∧
  (∀ file n raws, verify (Some file) = Ok (fs_head s') → records_since (Some file) n = Ok raws →
    records_since (Some (fs_file s')) n = Ok raws ∨ sha256_collision) ∧
  (∀ d delivery io, (record_or_refuse s' d delivery io).2 = false ↔
    io ≠ Written ∧ default (fs_delivery s) delivery = Blocking).
Proof.
  intros Hs Hds Hu s'. destruct (verify_raws _ _ (proj1 Hs)) as (raws & Hc & Hrec).
  assert (records_since (Some (fs_file s)) (hd_seq (fs_head s)) = Ok []) as Hnil.
  { rewrite Hrec. apply (f_equal hd_seq) in Hc. rewrite chained_seq in Hc. cbn in Hc. unfold len in Hc. by rewrite drop_ge by lia. }
  destruct (record_run_sound s ds _ [] Hs Hds Hu (N.le_refl _) Hnil) as ([Hv _] & Hdel & Hrun). fold s' in Hv, Hdel, Hrun.
  destruct (verify_raws _ _ Hv) as (raws' & Hc' & Hrec'). split; [done|]. split_and!; [done| |].
  - intros file n l Hf Hl. destruct (verify_raws _ _ Hf) as (other & Ho & Hother). rewrite Hother in Hl. injection Hl as <-.
    rewrite Hrec'. destruct (chained_inj Head_new raws' other genesis_text) as [->|]; [congruence|by left|by right].
  - intros d delivery io. unfold record_or_refuse. rewrite <-Hdel. destruct io; cbn; [split; [done|by intros []]|].
    destruct (default _ delivery); cbn; naive_solver.
Qed.
End Rows.

(** ** Witnesses: rows written and read back *)

Module TrailExamples.
Export TestSha.

(** A parser that reads the rows of a trail and nothing else. *)
Definition seq_key : string := "{" +:+ in_quotes "seq" +:+ ":".
Definition prev_key : string := in_quotes "prev" +:+ ":" +:+ String quote_byte "".
Definition hash_key : string := "," +:+ in_quotes "hash" +:+ ":" +:+ String quote_byte "".
#[export] Instance rows_only : SerdeParse := λ s,
  r ← strip_prefix seq_key s; p ← split_once "," r; n ← parse_u64 p.1;
  r ← strip_prefix prev_key p.2; q ← split_once quote_byte r;
  r ← strip_prefix hash_key q.2; k ← split_once quote_byte r;
  _ ← strip_prefix rec_key k.2;
  Some (VObject [("seq", VNumber (PosInt n)); ("prev", VString q.1); ("hash", VString k.1); ("rec", VNull)]).

Lemma no_quote p : hash_text p → N_of_ascii quote_byte ∉ bytes p.
Proof. by intros Hp Hb%Hp. Qed.
Lemma row_spelled seq prev hash rest : row_text seq prev hash rest =
  seq_key +:+ (pretty seq +:+ String "," (prev_key +:+ (prev +:+ String quote_byte (hash_key +:+ (hash +:+ String quote_byte (rec_key +:+ (rest +:+ "}"))))))).
Proof.
  assert (∀ v u, in_quotes v +:+ u = String quote_byte (v +:+ String quote_byte u)) as Hq.
  { intros v u. unfold in_quotes. change (String quote_byte (v +:+ String quote_byte "") +:+ u) with (String quote_byte ((v +:+ String quote_byte "") +:+ u)).
    by rewrite string_app_assoc. }
  unfold row_text, member, seq_key, prev_key, hash_key. rewrite !string_app_assoc, (Hq prev), (Hq hash). reflexivity.
Qed.
#[export] Instance rows_only_laws : RowLaws.
Proof.
  constructor. intros seq prev hash d Hu Hp Hh _. rewrite row_spelled. unfold from_slice, rows_only.
  assert (∀ w u, strip_prefix w (w +:+ u) = Some u) as Hst by (intros; by apply strip_prefix_Some).
  rewrite Hst. cbn [mbind option_bind]. rewrite split_once_plain by apply no_comma_digits. cbn [mbind option_bind fst snd].
  unfold parse_u64. rewrite parse_uint_pretty by done. cbn [mbind option_bind]. rewrite Hst. cbn [mbind option_bind].
  rewrite split_once_plain by by apply no_quote. cbn [mbind option_bind fst snd]. rewrite Hst. cbn [mbind option_bind].
  rewrite split_once_plain by by apply no_quote. cbn [mbind option_bind fst snd]. rewrite Hst. cbn [mbind option_bind].
  eexists. repeat split. by exists VNull.
Qed.

Definition called (verdict tool : string) : Decision :=
  mkDecision "conn_a" verdict "WC-0000" "enforce" tool "spiffe://org/agent" "spiffe://org/tools" "cx_1" 1800000000 42.
Definition opened : FileSink := mkFileSink "" FailSafe Head_new false.

(** Two calls, recorded and read back; and what the trail says when they could not be. *)
Definition calls : list Decision := [called "allow" "balance"; called "deny" "transfer"].
Lemma calls_text : Forall decision_text calls.
Proof. repeat constructor; vm_compute; done. Qed.
Lemma trail_is_evidence_witness :
  records_since (Some (fs_file (record_run opened calls))) 0 = Ok (map to_line calls) ∧
  (record_or_refuse (record_run opened calls) (called "allow" "balance") (Some Blocking) (Torn "")).2 = false.
Proof.
  destruct (trail_is_evidence opened calls) as (_ & Hr & _ & Hw);
    [split; [done|by exists []]|exact calls_text|by vm_compute|]. split; [exact Hr|]. refine (proj2 (Hw _ _ _) _). by split.
Defined.

(** A write that fails half way leaves its bytes in the file, and the sink goes on after them:
    the next decision is reported as recorded, on the same line, and the trail never verifies
    again -- it cannot be read, and a restart refuses to open it. *)
Lemma torn_row_breaks_trail :
  let (s, first) := record opened (called "allow" "balance") (Torn "{") in
  let (s, second) := record s (called "allow" "balance") Written in
  first = None ∧ is_Some second ∧ verify (Some (fs_file s)) = Err (NotJson 1) ∧
  FileSink_open (Some (fs_file s)) FailSafe true = Err (NotJson 1).
Proof. vm_compute. split_and!; by try eexists. Qed.

(** So does a row whose line feed alone is lost: the trail still opens, and the next decision
    is written onto its end. *)
Lemma lost_line_feed_breaks_trail :
  let row := fs_file (record opened (called "allow" "balance") Written).1 in
  let cut := String.substring 0 (String.length row - 1) row in
  ∃ s h, FileSink_open (Some cut) FailSafe true = Ok s ∧ hd_seq (fs_head s) = 1 ∧
    (record s (called "allow" "balance") Written).2 = Some h ∧
    is_ok (verify (Some (fs_file (record s (called "allow" "balance") Written).1))) = false.
Proof. cbv zeta. eexists _, _. split; [by vm_compute|]. by vm_compute. Qed.
End TrailExamples.
