(* ===== verification/Signal.v ===== *)
(** * Signal: acting on signals from other systems ([crates/wc-control/src/caep.rs])

    Transmitters and what they have authority over, the memory of token ids, and [ingest],
    from a Security Event Token to the effects it asks for, with the command around it.  The
    JOSE library, serde and TOML are parameters.  A [BTreeMap] is its entries in key order;
    why an event was not acted on is an inductive type where the code has a sentence. *)

From S2P Require Import Prelude Text Errors Model Json Canon Contract Artifact Log Store Std Admission Consent Attest.

#[local] Open Scope N_scope.

Definition SESSION_REVOKED : string := "https://schemas.openid.net/secevent/caep/event-type/session-revoked".
Definition CREDENTIAL_CHANGE : string := "https://schemas.openid.net/secevent/caep/event-type/credential-change".
Definition ASSURANCE_CHANGE : string := "https://schemas.openid.net/secevent/caep/event-type/assurance-level-change".
Definition CONNECTION_REVOKED : string := "https://warden.dev/secevent/connect/connection-revoked".
Definition UNDERSTOOD : list string := [SESSION_REVOKED; CREDENTIAL_CHANGE; ASSURANCE_CHANGE; CONNECTION_REVOKED].
Definition DEFAULT_MAX_AGE_SECS : N := 3600.

(** ** Transmitters *)

Inductive Authority := Directory | Partner | Estate.
#[global] Instance Authority_eq_dec : EqDecision Authority.
Proof. solve_decision. Defined.
Definition permits (a : Authority) (event_uri : string) : bool :=
  match a with
  | Directory => str_in event_uri [SESSION_REVOKED; CREDENTIAL_CHANGE; ASSURANCE_CHANGE]
  | Partner => bool_decide (event_uri = CONNECTION_REVOKED)
  | Estate => str_in event_uri [SESSION_REVOKED; CREDENTIAL_CHANGE; ASSURANCE_CHANGE; CONNECTION_REVOKED]
  end.

Record Transmitter := mkTransmitter {
  tm_issuer : string;
  tm_jwks : list (string * string);
  tm_authority : Authority;
  tm_audience : string;
  tm_parties : list string;
  tm_max_age_secs : N
}.
Definition may_name (t : Transmitter) (subject : string) : bool :=
  bool_decide (tm_parties t = []) || str_in subject (tm_parties t).
Abbreviation TransmitterSet := (list Transmitter).
(** [TransmitterSet::get]. *)
Definition transmitter_get (ts : TransmitterSet) (issuer : string) : option Transmitter :=
  List.find (λ t, bool_decide (tm_issuer t = issuer)) ts.

(** ** Token ids seen before *)

Record SeenTokens := mkSeenTokens { sn_order : list string; sn_set : gset string; sn_capacity : N }.
Definition SeenTokens_new (capacity : N) : SeenTokens := mkSeenTokens [] ∅ (N.max capacity 1).
Definition SeenTokens_default : SeenTokens := SeenTokens_new 10000.
Definition seen_accept (jti : string) (s : SeenTokens) : SeenTokens * bool :=
  if bool_decide (jti ∈ sn_set s) then (s, false) else
  let '(order, set) :=
    if sn_capacity s <=? len (sn_order s)
    then match sn_order s with old :: order => (order, sn_set s ∖ {[old]}) | [] => ([], sn_set s) end
    else (sn_order s, sn_set s) in
  (mkSeenTokens (order ++ [jti]) (set ∪ {[jti]}) (sn_capacity s), true).
Definition seen_len (s : SeenTokens) : N := N.of_nat (size (sn_set s)).

(** ** Effects *)

Inductive Effect :=
| OwnerOrphaned (owner : string)
| ReattestRequired (party reason : string)
| RescorePosture (party level : string)
| RevokeConnection (cid by_ : string).
Definition effect_kind (e : Effect) : string :=
  match e with
  | OwnerOrphaned _ => "owner-orphaned" | ReattestRequired _ _ => "reattest-required"
  | RescorePosture _ _ => "rescore-posture" | RevokeConnection _ _ => "revoke-connection"
  end.
Inductive Unhandled := NotUnderstood | NotPermitted (a : Authority) | NoConnection.
Record Ingested := mkIngested {
  in_issuer : string;
  in_jti : string;
  in_subject : string;
  in_effects : list Effect;
  in_unhandled : list (string * Unhandled)
}.

(** ** Tokens *)

Record SetClaims := mkSetClaims {
  sc_iss : string;
  sc_jti : string;
  sc_iat : N;
  sc_aud : Value;
  sc_sub_id : Value;
  sc_events : list (string * Value)
}.
Definition claims_subject (c : SetClaims) : option string := vget "uri" (sc_sub_id c) ≫= as_str.
Definition audience_matches (aud : Value) (expected : string) : bool :=
  match aud with
  | VString s => bool_decide (s = expected)
  | VArray items => existsb (λ v, bool_decide (as_str v = Some expected)) items
  | _ => false
  end.
Definition payload_text (payload : Value) (name : string) : option string := vget name payload ≫= as_str.
(** One event of a token: what it asks for, or why it is not acted on. *)
Definition handle_event (t : Transmitter) (issuer subject uri : string) (payload : Value) : Effect + Unhandled :=
  if negb (str_in uri UNDERSTOOD) then inr NotUnderstood
  else if negb (permits (tm_authority t) uri) then inr (NotPermitted (tm_authority t))
  else if bool_decide (uri = SESSION_REVOKED) then inl (OwnerOrphaned subject)
  else if bool_decide (uri = CREDENTIAL_CHANGE) then
    inl (ReattestRequired subject (default "credential changed" (payload_text payload "change_type")))
  else if bool_decide (uri = ASSURANCE_CHANGE) then inl (RescorePosture subject (default "unknown" (payload_text payload "current_level")))
  else if bool_decide (uri = CONNECTION_REVOKED) then
    match payload_text payload "cid" with Some cid => inl (RevokeConnection cid issuer) | None => inr NoConnection end
  else inr NotUnderstood.
Fixpoint handle_events (t : Transmitter) (issuer subject : string) (events : list (string * Value))
    : list Effect * list (string * Unhandled) :=
  match events with
  | [] => ([], [])
  | (uri, payload) :: events =>
    let '(effects, unhandled) := handle_events t issuer subject events in
    match handle_event t issuer subject uri payload with
    | inl e => (e :: effects, unhandled)
    | inr why => (effects, (uri, why) :: unhandled)
    end
  end.

Section Ingest.
(** [serde_json::from_value::<SetClaims>] and [toml::from_str::<TransmitterSet>]. *)
Class SignalSerde := {
  set_claims_from_value : Value → option SetClaims;
  transmitters_from_toml : string → option TransmitterSet
}.
Context `{Jose, SerdeParse, SignalSerde}.

Fixpoint keys_go (keys : IssuerKeys) (jwks : list (string * string)) : result IssuerKeys :=
  match jwks with
  | [] => Ok keys
  | (kid, pem) :: jwks =>
    match add_ec_pem keys kid pem ES256 with
    | Ok keys => keys_go keys jwks
    | Err _ => match add_ed_pem keys kid pem with Ok keys => keys_go keys jwks | Err _ => Err CONFIG_INVALID end
    end
  end.
Definition transmitter_keys (t : Transmitter) : result IssuerKeys := keys_go IssuerKeys_new (tm_jwks t).

Fixpoint check_transmitters (seen : list string) (ts : TransmitterSet) : result unit :=
  match ts with
  | [] => Ok tt
  | t :: ts =>
    guard_err (str_in (tm_issuer t) seen) CONFIG_INVALID $
    guard_err (bool_decide (tm_jwks t = [])) CONFIG_INVALID $
    guard_err (bool_decide (trim_text (tm_audience t) = "")) CONFIG_INVALID $
    guard_err (bool_decide (tm_authority t = Partner) && bool_decide (tm_parties t = [])) CONFIG_INVALID $
    let? _ := transmitter_keys t in
    check_transmitters (tm_issuer t :: seen) ts
  end.
Definition TransmitterSet_parse (text : string) : result TransmitterSet :=
  let? set := ok_or (transmitters_from_toml text) CONFIG_INVALID in
  let? _ := check_transmitters [] set in
  Ok set.
(** [file] is what reading it gives. *)
Definition TransmitterSet_load (file : option string) : result TransmitterSet :=
  let? text := ok_or file CONFIG_INVALID in TransmitterSet_parse text.

Definition decode_segment (token : string) (index : nat) : result Value :=
  let? raw := ok_or (b64url_decode (default "" (split_on dot token !! index))) FRAME_MALFORMED in
  ok_or (from_slice raw) FRAME_MALFORMED.
Definition peek (token : string) (index : nat) (name : string) : result string :=
  let? value := decode_segment token index in ok_or (vget name value ≫= as_str) FRAME_MALFORMED.
Definition peek_claim (token name : string) : result string := peek token 1 name.
Definition peek_header (token name : string) : result string := peek token 0 name.

(** Steps 1 to 4 of [ingest]: who sent the token, for whom, and when. *)
Definition authenticate (token : string) (ts : TransmitterSet) (now : N) : result (string * Transmitter * SetClaims) :=
  let? issuer := peek_claim token "iss" in
  let? transmitter := ok_or (transmitter_get ts issuer) SIGNATURE_INVALID in
  let? kid := peek_header token "kid" in
  let? alg := peek_header token "alg" in
  guard_err (negb (str_in alg ACCEPTED_ALG_NAMES)) ALG_NOT_ASYMMETRIC $
  let? keys := transmitter_keys transmitter in
  let? claims := map_err (λ _, SIGNATURE_INVALID) (verify_detached set_claims_from_value token kid keys) in
  guard_err (negb (bool_decide (sc_iss claims = tm_issuer transmitter))) SIGNATURE_INVALID $
  guard_err (negb (audience_matches (sc_aud claims) (tm_audience transmitter))) AUDIENCE_MISMATCH $
  guard_err (saturating_add_u64 now 300 <? sc_iat claims) APPROVAL_STALE $
  guard_err (tm_max_age_secs transmitter <? saturating_sub now (sc_iat claims)) APPROVAL_STALE $
  Ok (issuer, transmitter, claims).
(** What follows once the token id is new. *)
Definition act (issuer : string) (transmitter : Transmitter) (claims : SetClaims) : result Ingested :=
  let? subject := ok_or (claims_subject claims) MALFORMED_IDENTIFIER in
  guard_err (negb (may_name transmitter subject)) SIGNAL_NOT_AUTHORISED $
  guard_err (bool_decide (sc_events claims = [])) FRAME_MALFORMED $
  let '(effects, unhandled) := handle_events transmitter issuer subject (sc_events claims) in
  Ok (mkIngested issuer (sc_jti claims) subject effects unhandled).
Definition ingest (token : string) (ts : TransmitterSet) (now : N) : stateR SeenTokens Ingested Code := λ seen,
  match authenticate token ts now with
  | Err e => (seen, Err e)
  | Ok (issuer, transmitter, claims) =>
    let '(seen, fresh) := seen_accept (sc_jti claims) seen in
    (seen, guard_err (negb fresh) APPROVAL_STALE $ act issuer transmitter claims)
  end.
(** The command reads one token against a memory of its own. *)
Definition caep_ingest (token_file streams : option string) (now : N) : result Ingested :=
  let? token := ok_or token_file CONFIG_INVALID in
  let? ts := TransmitterSet_load streams in
  (ingest (trim_text token) ts now SeenTokens_default).2.

(** A stream of tokens, each against the transmitters configured then. *)
Definition run (steps : list (string * TransmitterSet * N)) (seen : SeenTokens) : SeenTokens :=
  foldl (λ seen s, (ingest s.1.1 s.1.2 s.2 seen).1) seen steps.
End Ingest.

(** ** The memory of token ids *)

(** The set is what the queue holds, without repeats, and neither outgrows the capacity. *)
Definition seen_ok (s : SeenTokens) : Prop :=
  sn_set s = list_to_set (sn_order s) ∧ NoDup (sn_order s) ∧ 1 ≤ sn_capacity s ∧ len (sn_order s) ≤ sn_capacity s.
Lemma seen_new_ok capacity : seen_ok (SeenTokens_new capacity).
Proof. unfold seen_ok, SeenTokens_new. cbn. split_and!; [done|apply NoDup_nil_2|lia|unfold len; cbn; lia]. Qed.

Lemma seen_accept_ok jti s : seen_ok s → seen_ok (seen_accept jti s).1.
Proof.
  intros (Hs & Hn & Hc & Hl). unfold seen_accept. case_bool_decide as Hin; [done|]. rewrite Hs, elem_of_list_to_set in Hin.
  unfold seen_ok, len in *. destruct (N.leb_spec (sn_capacity s) (N.of_nat (length (sn_order s)))) as [Hfull|Hroom].
  - destruct (sn_order s) as [|old order]; [cbn in Hfull; lia|]. apply NoDup_cons in Hn as [Hold Hn]. cbn.
    rewrite length_app. cbn in *. split_and!; [set_solver| |lia|lia].
    apply NoDup_app. split_and!; [done| |apply NoDup_singleton]. set_solver.
  - cbn. rewrite length_app. cbn. split_and!; [set_solver| |lia|lia].
    apply NoDup_app. split_and!; [done| |apply NoDup_singleton]. set_solver.
Qed.
Lemma seen_accept_fresh jti s : seen_ok s → (seen_accept jti s).2 = bool_decide (jti ∉ sn_order s).
Proof.
  intros (Hs & _). unfold seen_accept. rewrite Hs. case_bool_decide as Hin; rewrite elem_of_list_to_set in Hin.
  - by rewrite bool_decide_eq_false_2 by tauto.
  - rewrite bool_decide_eq_true_2 by done. by destruct (if _ <=? _ then _ else _).
Qed.

(** An id is still held with at most [k] younger ones. *)
Definition held_within (k : N) (jti : string) (s : SeenTokens) : Prop :=
  ∃ older younger, sn_order s = older ++ jti :: younger ∧ len younger ≤ k.
Lemma accept_holds jti s : seen_ok s → (seen_accept jti s).2 = true → held_within 0 jti (seen_accept jti s).1.
Proof.
  intros Hs. rewrite (seen_accept_fresh _ _ Hs), bool_decide_eq_true. intros Hf. unfold seen_accept.
  rewrite (proj1 Hs), bool_decide_eq_false_2 by (by rewrite elem_of_list_to_set).
  destruct (if _ <=? _ then _ else _) as [order set]. by exists order, [].
Qed.
Lemma accept_keeps k jti jti' s : seen_ok s → held_within k jti s → k + 1 < sn_capacity s →
  held_within (k + 1) jti (seen_accept jti' s).1.
Proof.
  intros (_ & _ & _ & _) (older & younger & Ho & Hy) Hk. unfold seen_accept. unfold len in *.
  case_bool_decide as Hin; [exists older, younger; unfold len; split; [done|lia]|]. rewrite Ho.
  destruct (N.leb_spec (sn_capacity s) (N.of_nat (length (older ++ jti :: younger)))) as [Hfull|Hroom].
  - destruct older as [|old older]; [cbn in Hfull; lia|]. cbn. exists older, (younger ++ [jti']).
    split; [by rewrite <-app_assoc|]. unfold len. rewrite length_app. cbn. lia.
  - cbn. exists older, (younger ++ [jti']). split; [by rewrite <-app_assoc|]. unfold len. rewrite length_app. cbn. lia.
Qed.
Lemma seen_accept_capacity jti s : sn_capacity (seen_accept jti s).1 = sn_capacity s.
Proof. unfold seen_accept. case_bool_decide; [done|]. by destruct (if _ <=? _ then _ else _). Qed.

(** ** What a signal may cause *)

Section SignalSound.
Context `{Jose, SerdeParse, SignalSerde} (valid : DecodingKey → Algorithm → string → string → bool).

(** [jsonwebtoken] gives the claims of a token only if its signature verifies. *)
Class SignalLaws : Prop := {
  signal_decode_sound token key alg v : jwt_decode token key alg = Some v → jwt_of valid token key alg v
}.

Lemma ingest_state token ts now seen : (ingest token ts now seen).1 = seen ∨ ∃ jti, (ingest token ts now seen).1 = (seen_accept jti seen).1.
Proof.
  unfold ingest. destruct (authenticate token ts now) as [[[issuer t] c]|]; [|by left]. right. exists (sc_jti c).
  by destruct (seen_accept (sc_jti c) seen).
Qed.
Lemma ingest_seen_ok token ts now seen : seen_ok seen → seen_ok (ingest token ts now seen).1.
Proof. intros Hs. destruct (ingest_state token ts now seen) as [-> |[jti ->]]; [done|by apply seen_accept_ok]. Qed.
Lemma ingest_capacity token ts now seen : sn_capacity (ingest token ts now seen).1 = sn_capacity seen.
Proof. destruct (ingest_state token ts now seen) as [-> |[jti ->]]; [done|by apply seen_accept_capacity]. Qed.
Lemma run_seen_ok steps seen : seen_ok seen → seen_ok (run steps seen) ∧ sn_capacity (run steps seen) = sn_capacity seen.
Proof.
  revert seen. induction steps as [|s steps IH]; intros seen Hs; [done|]. cbn [run foldl].
  destruct (IH (ingest s.1.1 s.1.2 s.2 seen).1) as [Ho Hc]; [by apply ingest_seen_ok|]. by rewrite <-(ingest_capacity s.1.1 s.1.2 s.2 seen).
Qed.
Lemma run_keeps k jti steps seen : seen_ok seen → held_within k jti seen → k + len steps < sn_capacity seen →
  jti ∈ sn_order (run steps seen).
Proof.
  revert k seen. induction steps as [|s steps IH]; intros k seen Hs Hh Hk.
  - destruct Hh as (older & younger & Ho & _). cbn. rewrite Ho. set_solver.
  - unfold len in Hk. cbn [length] in Hk. cbn [run foldl]. apply (IH (k + 1)).
    + by apply ingest_seen_ok.
    + destruct (ingest_state s.1.1 s.1.2 s.2 seen) as [-> |[jti' ->]]; [|apply accept_keeps; [done..|lia]].
      destruct Hh as (older & younger & Ho & Hy). exists older, younger. split; [done|]. lia.
    + rewrite ingest_capacity. unfold len. lia.
Qed.

Lemma ingest_ok token ts now seen seen' out : ingest token ts now seen = (seen', Ok out) →
  ∃ issuer t c, authenticate token ts now = Ok (issuer, t, c) ∧ seen_accept (sc_jti c) seen = (seen', true) ∧
    act issuer t c = Ok out.
Proof.
  unfold ingest. destruct (authenticate token ts now) as [[[issuer t] c]|] eqn:Ha; [|done].
  destruct (seen_accept (sc_jti c) seen) as [s fresh] eqn:Hs. intros [= -> Hr]. apply guard_err_ok in Hr as [Hf%negb_false_iff Hr].
  subst fresh. by exists issuer, t, c.
Qed.
Lemma act_ok issuer t c out : act issuer t c = Ok out →
  in_issuer out = issuer ∧ in_jti out = sc_jti c ∧ claims_subject c = Some (in_subject out) ∧ may_name t (in_subject out) = true ∧
  sc_events c ≠ [] ∧ handle_events t issuer (in_subject out) (sc_events c) = (in_effects out, in_unhandled out).
Proof.
  unfold act. intros (subject & Hs%ok_or_ok & [Hm%negb_false_iff [He%bool_decide_eq_false Hr]%guard_err_ok]%guard_err_ok)%result_bind_ok.
  destruct (handle_events _ _ _ _) as [effects unhandled] eqn:Hh. by injection Hr as <-.
Qed.

(** A token is acted on once.  The memory of token ids never outgrows its capacity, and once a
    token was accepted, no token with its id is accepted again -- from any transmitter, at any
    instant, under any configuration -- while fewer tokens than the capacity have come since. *)
Theorem replay_refused capacity history token ts now seen out more token' ts' now' :
  ingest token ts now (run history (SeenTokens_new capacity)) = (seen, Ok out) →
  len (sn_order (run more seen)) ≤ N.max capacity 1 ∧
  (len more < N.max capacity 1 → ∀ seen' out', ingest token' ts' now' (run more seen) = (seen', Ok out') → in_jti out' ≠ in_jti out).
Proof.
  destruct (run_seen_ok history (SeenTokens_new capacity)) as [Ho Hc]; [apply seen_new_ok|]. cbn [sn_capacity SeenTokens_new] in Hc.
  revert Ho Hc. generalize (run history (SeenTokens_new capacity)) as s. intros s Ho Hc (issuer & t & c & _ & Ha & Hact)%ingest_ok.
  pose proof (seen_accept_ok (sc_jti c) s Ho) as Hseen. pose proof (accept_holds (sc_jti c) s Ho) as Hh.
  pose proof (seen_accept_capacity (sc_jti c) s) as Hcap. rewrite Ha in Hseen, Hh, Hcap. cbn [fst snd] in *.
  specialize (Hh eq_refl). destruct (run_seen_ok more seen Hseen) as [Hmore Hmc]. split.
  { destruct Hmore as (_ & _ & _ & Hl). by rewrite Hmc, Hcap, Hc in Hl. }
  intros Hlen seen' out' (issuer' & t' & c' & _ & Ha' & Hact')%ingest_ok.
  apply act_ok in Hact as (_ & -> & _). apply act_ok in Hact' as (_ & -> & _). intros E.
  pose proof (seen_accept_fresh (sc_jti c') _ Hmore) as Hf. rewrite Ha', E in Hf. symmetry in Hf. cbn [snd] in Hf.
  apply bool_decide_eq_true in Hf. apply Hf. apply (run_keeps 0); [done|done|]. rewrite Hcap, Hc. lia.
Qed.

(** The event types each authority may assert. *)
Definition entitled (a : Authority) (uri : string) : Prop :=
  match a with
  | Directory => uri = SESSION_REVOKED ∨ uri = CREDENTIAL_CHANGE ∨ uri = ASSURANCE_CHANGE
  | Partner => uri = CONNECTION_REVOKED
  | Estate => uri ∈ UNDERSTOOD
  end.
(** What an event of a type asks for. *)
Inductive asks (issuer subject : string) (payload : Value) : string → Effect → Prop :=
| asks_orphan : asks issuer subject payload SESSION_REVOKED (OwnerOrphaned subject)
| asks_reattest reason : reason = default "credential changed" (payload_text payload "change_type") →
    asks issuer subject payload CREDENTIAL_CHANGE (ReattestRequired subject reason)
| asks_rescore level : level = default "unknown" (payload_text payload "current_level") →
    asks issuer subject payload ASSURANCE_CHANGE (RescorePosture subject level)
| asks_revoke cid : payload_text payload "cid" = Some cid →
    asks issuer subject payload CONNECTION_REVOKED (RevokeConnection cid issuer).

Lemma permits_entitled a uri : permits a uri = true ↔ entitled a uri.
Proof.
  destruct a; unfold permits, entitled, str_in, UNDERSTOOD; rewrite bool_decide_eq_true; [|done|done].
  rewrite !elem_of_cons, elem_of_nil. tauto.
Qed.
Lemma entitled_understood a uri : entitled a uri → uri ∈ UNDERSTOOD.
Proof. destruct a; cbn [entitled]; [intros [-> | [-> | ->]]|intros ->|done]; unfold UNDERSTOOD; set_solver. Qed.
Lemma handle_event_exact t issuer subject uri payload e :
  handle_event t issuer subject uri payload = inl e ↔ entitled (tm_authority t) uri ∧ asks issuer subject payload uri e.
Proof.
  unfold handle_event. rewrite <-permits_entitled. destruct (permits (tm_authority t) uri) eqn:Hp.
  - assert (uri ∈ UNDERSTOOD) as Hu by (eapply entitled_understood, permits_entitled, Hp).
    unfold str_in. rewrite bool_decide_eq_true_2 by done. cbn [negb].
    unfold UNDERSTOOD in Hu. rewrite !elem_of_cons, elem_of_nil in Hu.
    destruct Hu as [-> | [-> | [-> | [-> | []]]]]; cbn -[payload_text];
      (split; [intros Hr; split; [done|]|intros [_ Ha]; inversion Ha; subst; try done]).
    + injection Hr as <-. constructor.
    + injection Hr as <-. by constructor.
    + injection Hr as <-. by constructor.
    + destruct (payload_text payload "cid") eqn:Hc; [|done]. injection Hr as <-. by constructor.
    + by match goal with E : payload_text _ _ = Some _ |- _ => rewrite E end.
  - destruct (negb (str_in uri UNDERSTOOD)); cbn; (split; [done|intros [? _]; done]).
Qed.
Lemma handle_events_exact t issuer subject events e :
  e ∈ (handle_events t issuer subject events).1 ↔
  ∃ uri payload, (uri, payload) ∈ events ∧ entitled (tm_authority t) uri ∧ asks issuer subject payload uri e.
Proof.
  induction events as [|[uri payload] events IH]; cbn [handle_events].
  - split; [by intros ?%elem_of_nil|]. by intros (? & ? & ?%elem_of_nil & _).
  - destruct (handle_events t issuer subject events) as [effects unhandled]. cbn [fst] in IH.
    pose proof (handle_event_exact t issuer subject uri payload) as Hx.
    destruct (handle_event t issuer subject uri payload) as [e'|why]; cbn [fst]; rewrite ?elem_of_cons, IH.
    + split.
      * intros [-> |(u & p & Hin & Hr)]; [|exists u, p; split; [by right|done]]. exists uri, payload. split; [left|by apply Hx].
      * intros (u & p & [[= -> ->]|Hin]%elem_of_cons & Hr); [|right; by exists u, p]. left. apply Hx in Hr. by injection Hr.
    + split.
      * intros (u & p & Hin & Hr). exists u, p. split; [by right|done].
      * intros (u & p & [[= -> ->]|Hin]%elem_of_cons & Hr); [by apply Hx in Hr|by exists u, p].
Qed.

Lemma authenticate_ok token ts now issuer t c : authenticate token ts now = Ok (issuer, t, c) →
  t ∈ ts ∧ tm_issuer t = issuer ∧ sc_iss c = issuer ∧ audience_matches (sc_aud c) (tm_audience t) = true ∧
  sc_iat c ≤ now + 300 ∧ now ≤ sc_iat c + tm_max_age_secs t ∧
  ∃ ks kid alg key v, transmitter_keys t = Ok ks ∧ ks !! kid = Some (alg, key) ∧
    jwt_decode token key alg = Some v ∧ set_claims_from_value v = Some c.
Proof.
  unfold authenticate. intros (iss & _ & (t' & Ht%ok_or_ok & (kid & _ & (alg & _ & [_ Hr]%guard_err_ok)%result_bind_ok)%result_bind_ok)%result_bind_ok)%result_bind_ok.
  apply result_bind_ok in Hr as (ks & Hks & (c' & Hv & Hr)%result_bind_ok).
  apply guard_err_ok in Hr as [Hi%negb_false_iff%bool_decide_eq_true Hr].
  apply guard_err_ok in Hr as [Ha%negb_false_iff [Hf%N.ltb_ge [Hm%N.ltb_ge [= -> -> ->]]%guard_err_ok]%guard_err_ok].
  apply List.find_some in Ht as [Hin%list_elem_of_In Hiss%bool_decide_eq_true].
  unfold saturating_add_u64, saturating_sub in *. split_and!; [done|done|by rewrite Hi|done|lia|lia|].
  destruct (verify_detached _ _ _ _) as [c'|] eqn:E; [|done]. injection Hv as ->. unfold verify_detached in E.
  apply result_bind_ok in E as (? & _ & [_ E]%guard_err_ok). apply result_bind_ok in E as ([ea key] & Hkey%ok_or_ok & E%ok_or_ok).
  destruct (jwt_decode token key ea) as [v|] eqn:Hd; [|done]. by exists ks, kid, ea, key, v.
Qed.

Context `{!SignalLaws}.

(** C15: what a transmitter may cause is bounded by its authority.  A token that is accepted is signed
    under a key of the configured transmitter it names, minted for this receiver, neither from the
    future nor older than the stream allows, and was not seen before; it names a subject the
    transmitter may name; and its effects are exactly what its events ask for that are of a type the
    authority of the transmitter covers. *)
Theorem signals_bounded token ts now seen seen' out :
  seen_ok seen → ingest token ts now seen = (seen', Ok out) →
  ∃ t c ks kid alg key v, t ∈ ts ∧ tm_issuer t = in_issuer out ∧ transmitter_keys t = Ok ks ∧ ks !! kid = Some (alg, key) ∧
    jwt_of valid token key alg v ∧ set_claims_from_value v = Some c ∧ sc_iss c = in_issuer out ∧
    audience_matches (sc_aud c) (tm_audience t) = true ∧ sc_iat c ≤ now + 300 ∧ now ≤ sc_iat c + tm_max_age_secs t ∧
    sc_jti c = in_jti out ∧ in_jti out ∉ sn_order seen ∧ claims_subject c = Some (in_subject out) ∧
    (tm_parties t = [] ∨ in_subject out ∈ tm_parties t) ∧
    ∀ e, e ∈ in_effects out ↔ ∃ uri payload, (uri, payload) ∈ sc_events c ∧ entitled (tm_authority t) uri ∧
      asks (in_issuer out) (in_subject out) payload uri e.
Proof.
  intros Hs (issuer & t & c & Hauth & Ha & Hact)%ingest_ok.
  apply authenticate_ok in Hauth as (Hin & Hi & Hci & Haud & Hfut & Hage & ks & kid & alg & key & v & Hks & Hkey & Hd & Hv).
  apply act_ok in Hact as (Hoi & Hoj & Hsub & Hmay & _ & Hev). pose proof (seen_accept_fresh (sc_jti c) seen Hs) as Hf.
  rewrite Ha in Hf. symmetry in Hf. cbn [snd] in Hf. apply bool_decide_eq_true in Hf.
  exists t, c, ks, kid, alg, key, v. split_and!; try done.
  - by rewrite Hoi.
  - by apply signal_decode_sound.
  - by rewrite Hoi.
  - by rewrite Hoj.
  - unfold may_name, str_in in Hmay. rewrite orb_true_iff, !bool_decide_eq_true in Hmay. done.
  - intros e. pose proof (handle_events_exact t issuer (in_subject out) (sc_events c) e) as Hx. rewrite Hev in Hx. by rewrite Hoi.
Qed.
End SignalSound.

(** ** Concrete streams *)
Module SignalExamples.

(** Text encodings are the identity, a key is its name, and a signature by it says so. *)
Definition header_value : Value := VObject [("alg", VString "ES256"); ("kid", VString "k")].
Definition set_of (iss jti subject uri : string) (payload : Value) : Value :=
  VObject [("aud", VString "us"); ("events", VObject [(uri, payload)]); ("iat", VNumber (PosInt 100)); ("iss", VString iss);
           ("jti", VString jti); ("sub_id", VObject [("uri", VString subject)])].
Definition other_cid : Value := VObject [("cid", VString "conn_0123abcd")].
#[export] Instance parse : SerdeParse := λ s,
  if bool_decide (s = "h") then Some header_value
  else if bool_decide (s = "session") then Some (set_of "idp" "1" "pat@bank" SESSION_REVOKED VNull)
  else if bool_decide (s = "other") then Some (set_of "idp" "2" "pat@bank" SESSION_REVOKED VNull)
  else if bool_decide (s = "cut") then Some (set_of "partner" "1" "spiffe://partner/agent" CONNECTION_REVOKED other_cid)
  else if bool_decide (s = "server") then Some (set_of "idp" "3" "spiffe://bank/mcp" CREDENTIAL_CHANGE VNull)
  else None.
Definition valid (key : string) (_ : Algorithm) (_ sig : string) : bool := bool_decide (sig = "by " +:+ key).
Definition decode (token key : string) (alg : Algorithm) : option Value :=
  match split_on dot token with
  | [head; body; sg] => if valid key alg (signing_input head body) sg then parse body else None
  | _ => None
  end.
#[export] Instance jose : Jose := {|
  EncodingKey := unit; DecodingKey := string;
  encoding_from_ec_pem _ := None; encoding_from_ed_pem _ := None;
  decoding_from_ec_pem s := Some s; decoding_from_ed_pem _ := None; decoding_from_jwk _ := None; jwkset_from_str _ := None;
  crypto_sign _ _ _ := None; b64url_encode s := s; b64url_decode s := Some s;
  header_to_vec _ := ""; decode_header _ := None; payload_to_vec _ := ""; payload_from_value _ := None; jwt_decode := decode
|}.
Definition validity : @DecodingKey jose → Algorithm → string → string → bool := valid.
Definition field_text (k : string) (v : Value) : option string := vget k v ≫= as_str.
Definition read_claims (v : Value) : option SetClaims :=
  iss ← field_text "iss" v; jti ← field_text "jti" v; iat ← (vget "iat" v ≫= as_u64);
  Some (mkSetClaims iss jti iat (default VNull (vget "aud" v)) (default VNull (vget "sub_id" v))
    (match vget "events" v with Some (VObject m) => m | _ => [] end)).
Definition idp : Transmitter := mkTransmitter "idp" [("k", "ki")] Directory "us" [] 3600.
Definition partner : Transmitter := mkTransmitter "partner" [("k", "kp")] Partner "us" ["spiffe://partner/agent"] 3600.
Definition streams : TransmitterSet := [idp; partner].
#[export] Instance serde : SignalSerde := {|
  set_claims_from_value := read_claims;
  transmitters_from_toml s := if bool_decide (s = "streams") then Some streams else None
|}.
#[export] Instance laws : SignalLaws validity.
Proof.
  split. intros token key alg v. cbn [jwt_decode jose]. unfold decode.
  destruct (split_on dot token) as [|head [|body [|sg [|]]]] eqn:E; try done. destruct (valid key alg _ sg) eqn:Hv; [|done].
  intros Hp. exists head, body, sg, sg, body. split_and!; try done.
  rewrite <-(split_on_join dot token), E. apply bytes_inj. unfold compact, signing_input, Text.join. simpl.
  rewrite !bytes_app. by rewrite <-!app_assoc.
Qed.
Definition token (body key : string) : string := compact "h" body ("by " +:+ key).

Definition fresh : SeenTokens := SeenTokens_new 2.
Definition session : Ingested := mkIngested "idp" "1" "pat@bank" [OwnerOrphaned "pat@bank"] [].
Lemma session_ingested : ingest (token "session" "ki") streams 200 fresh = (mkSeenTokens ["1"] {["1"]} 2, Ok session).
Proof. vm_compute. reflexivity. Qed.

Lemma signals_bounded_witness : ∃ t c, t ∈ streams ∧ tm_issuer t = "idp" ∧ sc_jti c = "1" ∧ "1" ∉ sn_order fresh ∧ 200 ≤ sc_iat c + tm_max_age_secs t.
Proof.
  destruct (signals_bounded validity _ _ _ fresh _ session (seen_new_ok 2) session_ingested)
    as (t & c & ks & kid & alg & key & v & Ht & Hi & _ & _ & _ & _ & _ & _ & _ & Hage & Hj & Hn & _).
  by exists t, c.
Defined.
Lemma replay_refused_witness : len (sn_order (run [(token "other" "ki", streams, 210)] (mkSeenTokens ["1"] {["1"]} 2))) ≤ 2.
Proof.
  exact (proj1 (replay_refused 2 [] (token "session" "ki") streams 200 _ session [(token "other" "ki", streams, 210)]
    (token "session" "ki") streams 220 session_ingested)).
Defined.
(** Refused while remembered; the command, whose memory is its own, takes it every time. *)
Lemma replayed :
  (ingest (token "session" "ki") streams 220 (run [(token "session" "ki", streams, 200); (token "other" "ki", streams, 210)] fresh)).2
    = Err APPROVAL_STALE ∧
  caep_ingest (Some (token "session" "ki")) (Some "streams") 220 = Ok session.
Proof. split; vm_compute; reflexivity. Qed.

(** A partner that may name itself names any connection at all: the connection cut is the one in
    the payload, which nothing compares with the parties of the transmitter. *)
Lemma partner_cuts_any :
  (ingest (token "cut" "kp") streams 200 fresh).2 =
    Ok (mkIngested "partner" "1" "spiffe://partner/agent" [RevokeConnection "conn_0123abcd" "partner"] []) ∧
  ∀ cid, handle_event partner "partner" "spiffe://partner/agent" CONNECTION_REVOKED (VObject [("cid", VString cid)]) =
    inl (RevokeConnection cid "partner").
Proof. split; [vm_compute; reflexivity|]. intros cid. reflexivity. Qed.
(** A directory that names no parties re-attests a tool server. *)
Lemma directory_speaks_of_servers :
  in_effects <$> (match (ingest (token "server" "ki") streams 200 fresh).2 with Ok out => Some out | Err _ => None end) =
    Some [ReattestRequired "spiffe://bank/mcp" "credential changed"].
Proof. vm_compute. reflexivity. Qed.
(** Ids are remembered without their issuer: a token of one transmitter uses up the id of another's. *)
Lemma ids_shared_across_issuers :
  (ingest (token "session" "ki") streams 220 (run [(token "cut" "kp", streams, 200)] fresh)).2 = Err APPROVAL_STALE.
Proof. vm_compute. reflexivity. Qed.
End SignalExamples.
