(* ===== verification/Apply.v ===== *)
(** * Apply: contracts from reviewed merges, as the command line runs them
    ([crates/wc-cli/src/main.rs]: [need_apply_cmd], [proposals_apply_cmd],
    [approve_by_merge_cmd], [offer_publish_cmd])

    Each command reads a declaration, obtains the consents behind it from a source host
    ([Consent]), decides every entry against the store before anything is minted, and then
    issues through the issuer ([Issuance]).  A command runs over the issuer it opens: the store
    a later phase opens is the one the phase before it left.  The clock is read once per phase;
    the commands' instants, what files hold and what the disk answers are arguments.  What a
    command prints is not modelled. *)

From S2P Require Import Prelude Text Errors Model Json Canon Contract Artifact Log Store Std Policy Chain Evidence Issuance Offer Need Consent.

(** ** Parts the commands share *)

Definition OFFER_PATH : string := "warden/offer.toml".
Definition SURFACE_PATH : string := "warden/surface.json".
Definition NEEDS_PATH : string := "warden/needs.toml".
Definition is_reserved (path reserved : string) : bool := bool_decide (trim_start_matches "./" (trim_text path) = reserved).
Definition reserved_path_or_refuse (allow_nonstandard : bool) (given reserved : string) : result unit :=
  if is_reserved given reserved || allow_nonstandard then Ok tt else Err CONFIG_INVALID.

Definition bootstrap_owner (p : Projection) (asset : string) : option string :=
  match EntityId_new asset with
  | Ok id => (λ e, human_str (ent_owner e)) <$> proj_entity p id
  | Err _ => None
  end.

Definition requester_of (consent : MergeApproval) : result HumanRef :=
  let who := if bool_decide (merge_author consent = "") then default "" (head (merge_approvers consent)) else merge_author consent in
  guard_err (bool_decide (who = "")) APPROVAL_SIGNATURE_INVALID $
  HumanRef_new ("human:" +:+ who).
Definition requester_of_merge (e : MergeEvidence) : result HumanRef :=
  let who := if bool_decide (trim_text (me_author e) = "")
             then default "unknown" (find (λ a, negb (bool_decide (trim_text a = ""))) (me_approvers e))
             else me_author e in
  HumanRef_new ("human:" +:+ trim_start_matches "human:" who).
Definition owner_of (callee : Entity) (approvers : list string) : result HumanRef :=
  let want := trim_start_matches "human:" (human_str (ent_owner callee)) in
  HumanRef_new ("human:" +:+ default want (find (λ a, eq_ignore_ascii_case a want) (map bare_name approvers))).

(** A contract's items as the surface of tools they are asked for as. *)
Definition tools_surface (items : list string) : Surface := mkSurface items [] [].

(** [RequestInput] with the fields every one of these commands sets alike. *)
Definition tools_input (caller callee : EntityId) (items : list string) (ttl : N) (justify : string) (requester : HumanRef)
    (mediator : string) (owner_must_approve : bool) : RequestInput :=
  mkRequestInput caller callee (tools_surface items) Terms_default ttl justify requester [mediator] owner_must_approve.

(** ** Deciding the entries of a needs manifest *)

Record PlannedNeed := mkPlannedNeed {
  pn_matched : Matched;
  pn_approval : ApprovalRef;
  pn_consumer : Entity;
  pn_provider : Entity;
  pn_input : RequestInput
}.
Inductive NeedStep := StepMint (p : PlannedNeed) | StepAsk (input : RequestInput) | StepNoop.

Class NeedToml := needs_from_toml : string → option NeedManifest.

Section Plan.
Context `{Sha256}.

(** An open request that asks the same. *)
Definition same_question (n : Need) (g : GatedNeed) (now : N) (r : PendingRequest) : bool :=
  bool_decide (req_status r = ReqPending) && negb (has_lapsed r now) && bool_decide (req_caller r = nd_consumer n) &&
  bool_decide (req_callee r = nd_provider n) && bool_decide (Surface_items (req_surface r) = ga_requested g) &&
  (req_ttl_secs r =? ga_ttl g)%N.
Definition is_current (p : Projection) (cid : Cid) (jti : Jti) : bool :=
  match pr_contracts p !! cid with Some c => bool_decide (rec_jti c = jti) | None => false end.

Definition plan_need (p : Projection) (manifest : NeedManifest) (consent : MergeApproval) (mediator : string) (ts : N)
    (entry : NeedEntry) : result NeedStep :=
  let? need := resolve manifest entry in
  let? offer := ok_or (pr_offers p !! nd_provider need) NO_CONTRACT in
  let? provider_consent := ok_or (offer_consent offer) APPROVAL_SIGNATURE_INVALID in
  let? consumer := ok_or (pr_entities p !! nd_consumer need) ENTITY_NOT_FOUND in
  let? provider := ok_or (pr_entities p !! nd_provider need) ENTITY_NOT_FOUND in
  match match_need need offer (zone_str (ent_zone consumer)) (ent_tier consumer) ts with
  | Refused rs => Err (refusal_error need rs)
  | NeedsApproval g =>
    if existsb (same_question need g ts) ((map_to_list (pr_requests p)).*2) then Ok StepNoop
    else
      let? requester := requester_of consent in
      Ok (StepAsk (tools_input (nd_consumer need) (nd_provider need) (ga_requested g) (ga_ttl g) (nd_justify need) requester mediator true))
  | Grant m =>
    if is_current p (ma_cid m) (ma_jti m) then Ok StepNoop
    else
      let? approval := reviewed_merge [consent; provider_consent] in
      let? requester := requester_of consent in
      Ok (StepMint (mkPlannedNeed m approval consumer provider
            (tools_input (nd_consumer need) (nd_provider need) (ma_items m) (ma_ttl m) (nd_justify need) requester mediator false)))
  end.
Definition planned (steps : list NeedStep) : list PlannedNeed := omap (λ s, match s with StepMint p => Some p | _ => None end) steps.
Definition asked (steps : list NeedStep) : list RequestInput := omap (λ s, match s with StepAsk i => Some i | _ => None end) steps.
Definition noops (steps : list NeedStep) : N := len (filterb (λ s, match s with StepNoop => true | _ => false end) steps).
End Plan.

(** ** The commands *)

Class ApprovalFileToml := approval_file_from_toml : string → option ApprovalFile.
Class OfferToml := offer_from_toml : string → option OfferManifest.

Section Commands.
Context `{FramedJson Event, SerdeJson, Sha256, Jose, SerdeParse, ApprovalSerde, Prose, ShimCodec, Nfc} {E A : Type} `{EvidenceLog E A}.
Implicit Types (s : Issuer E).
Notation M T := (stateR (Issuer E) T Code).

(** The issuer at the instant a phase reads. *)
Definition clock (now : N) : M unit := λ s,
  (mkIssuer (iu_store s) (iu_evidence s) (iu_policy s) (iu_signer s) (iu_iss s) now (iu_actor s) (iu_request_ttl_secs s) (iu_mode s), Ok tt).

(** [--out]: a file per artifact; [writable] says which writes succeed. *)
Fixpoint write_out (writable : string → bool) (failed : Code) (artifacts : list (string * string)) : result unit :=
  match artifacts with
  | [] => Ok tt
  | (name, _) :: rest => if writable name then write_out writable failed rest else Err failed
  end.
Definition out_of (out : option (string → bool)) (failed : Code) (issued : Issued) : result unit :=
  match out with Some writable => write_out writable failed (is_artifacts issued) | None => Ok tt end.

Record MergeArgs := mkMergeArgs {
  ma_path : string;
  ma_text : option string;                 (* what the file holds, if it can be read *)
  ma_asserted : Asserted;
  ma_shim : ScmShim;
  ma_mediator : string;
  ma_allow_nonstandard : bool;
  ma_out : option (string → bool)
}.
Definition consent_to (a : MergeArgs) (p : Projection) (side : Side) (asset text : string) : result MergeApproval :=
  consent (mkScmMerge (ma_shim a) (bootstrap_owner p asset)) side (ma_asserted a) (ManifestBinding_of (ma_path a) text).

(** *** [need apply] *)

Fixpoint mint_needs (plan : list PlannedNeed) (out : option (string → bool)) (ops : nat → Answers A) (k : nat) : M N :=
  match plan with
  | [] => retS 0%N
  | p :: rest =>
    let! outcome := request (pn_input p) (ops k) in
    match outcome with
    | OutDenied _ _ => liftS (Err POLICY_DENIED)
    | OutIssued _ => let! n := mint_needs rest out ops (S (S k)) in retS (1 + n)%N
    | OutAwaiting pending =>
      let! issued := mint_with_identity pending (pn_approval p) (pn_consumer p) (pn_provider p) (derived (pn_matched p)) (ops (S k)) in
      let! _ := liftS (out_of out CONFIG_INVALID issued) in
      let! n := mint_needs rest out ops (S (S k)) in retS (1 + n)%N
    end
  end.
Fixpoint open_asks (asks : list RequestInput) (ops : nat → Answers A) (k : nat) : M N :=
  match asks with
  | [] => retS 0%N
  | input :: rest =>
    let! outcome := request input (ops k) in
    match outcome with
    | OutDenied _ _ => liftS (Err POLICY_DENIED)
    | OutIssued _ => liftS (Err MINT_PRECONDITION_FAILED)
    | OutAwaiting _ => let! n := open_asks rest ops (S k) in retS (1 + n)%N
    end
  end.

(** The instants of the declaration, the matching, the mints and the requests; what the disk answers. *)
Record NeedRun := mkNeedRun {
  nr_declared_at : N;
  nr_matched_at : N;
  nr_minted_at : N;
  nr_asked_at : N;
  nr_declare : Io;
  nr_mint : nat → Answers A;
  nr_ask : nat → Answers A
}.
Definition decide_needs (manifest : NeedManifest) (consent : MergeApproval) (mediator : string) (ts : N) : M (list NeedStep) := λ s,
  (s, mapR (plan_need (iu_projection s) manifest consent mediator ts) (nm_needs manifest)).
Definition need_apply `{NeedToml} (a : MergeArgs) (run : NeedRun) : M (N * N * N) := λ s,
  (let! _ := liftS (reserved_path_or_refuse (ma_allow_nonstandard a) (ma_path a) NEEDS_PATH) in
   let! text := liftS (ok_or (ma_text a) CONFIG_INVALID) in
   let! manifest := liftS (ok_or (needs_from_toml text) POLICY_INVALID) in
   let! consent := liftS (consent_to a (iu_projection s) Source (nm_asset manifest) text) in
   let! consumer := liftS (EntityId_new (nm_asset manifest)) in
   let! _ := clock (nr_declared_at run) in
   let! _ := commit_event (NeedDeclared (mkNeedRecord consumer (nm_approval manifest) (as_repo (ma_asserted a)) (as_sha (ma_asserted a)))
                             (iu_actor s)) (nr_declare run) in
   let! steps := decide_needs manifest consent (ma_mediator a) (nr_matched_at run) in
   let! _ := clock (nr_minted_at run) in
   let! minted := mint_needs (planned steps) (ma_out a) (nr_mint run) 0 in
   let! _ := clock (nr_asked_at run) in
   let! opened := open_asks (asked steps) (nr_ask run) 0 in
   retS (minted, opened, noops steps)) s.

(** *** [proposals apply] *)

Record PlannedProposal := mkPlannedProposal { pl_proposal : Proposal; pl_caller : Entity; pl_callee : Entity }.
Inductive ProposalStep := ProposalRefused | ProposalCurrent | ProposalPlanned (p : PlannedProposal).

Definition proposal_identity (caller callee : EntityId) (p : Proposal) : Cid * Jti :=
  let cid := derive_cid caller callee in (cid, derive_jti cid 0 (proposal_items p) (proposal_ttl p)).
Definition plan_proposal `{ProposalToml} (p : Projection) (e : MergeEvidence) (text : option string) : result ProposalStep :=
  let? text := ok_or text CONFIG_INVALID in
  match Proposal_parse text with
  | Err _ => Ok ProposalRefused
  | Ok proposal =>
    let? caller_id := EntityId_new (pp_caller proposal) in
    let? callee_id := EntityId_new (pp_callee proposal) in
    match pr_entities p !! caller_id, pr_entities p !! callee_id with
    | Some caller, Some callee =>
      if negb (owner_approved (me_approvers e) (ent_owner callee)) then Ok ProposalRefused
      else
        let '(cid, jti) := proposal_identity caller_id callee_id proposal in
        if is_current p cid jti then Ok ProposalCurrent
        else Ok (ProposalPlanned (mkPlannedProposal proposal caller callee))
    | _, _ => Ok ProposalRefused
    end
  end.
Definition is_refused (x : ProposalStep) : bool := match x with ProposalRefused => true | _ => false end.
Definition is_noop (x : ProposalStep) : bool := match x with ProposalCurrent => true | _ => false end.
Definition to_mint (steps : list ProposalStep) : list PlannedProposal :=
  omap (λ x, match x with ProposalPlanned p => Some p | _ => None end) steps.

Definition merge_consent (asserted : Asserted) (e : MergeEvidence) (via : string) : MergeApproval :=
  mkMergeApproval Target (as_repo asserted) (as_sha asserted) (me_request_id e) (me_author e) (me_approvers e) via false.

Fixpoint mint_proposals (plan : list PlannedProposal) (e : MergeEvidence) (consent : MergeApproval) (mediator : string)
    (out : option (string → bool)) (ops : nat → Answers A) (k : nat) : M N :=
  match plan with
  | [] => retS 0%N
  | q :: rest =>
    let p := pl_proposal q in
    let! caller := liftS (EntityId_new (pp_caller p)) in
    let! callee := liftS (EntityId_new (pp_callee p)) in
    let '(cid, jti) := proposal_identity caller callee p in
    let! requester := liftS (requester_of_merge e) in
    let! outcome := request (tools_input caller callee (proposal_items p) (proposal_ttl p) (pp_justify p) requester mediator false) (ops k) in
    match outcome with
    | OutIssued _ => mint_proposals rest e consent mediator out ops (S (S k))
    | OutDenied _ _ => liftS (Err POLICY_DENIED)
    | OutAwaiting pending =>
      let! owner := liftS (owner_of (pl_callee q) (merge_approvers consent)) in
      let! issued := mint_with_identity pending (human_by_merge owner consent (pp_ticket p)) (pl_caller q)
                       (pl_callee q) (mkDerived cid jti 0) (ops (S k)) in
      let! _ := liftS (out_of out EXPORT_FAILED issued) in
      let! n := mint_proposals rest e consent mediator out ops (S (S k)) in retS (1 + n)%N
    end
  end.

(** [files] are the texts of the directory's proposals in the order of their paths, if it can be listed. *)
Definition proposals_apply `{ProposalToml} (a : MergeArgs) (files : option (list (option string))) (minted_at : N)
    (ops : nat → Answers A) : M (N * N) := λ s,
  (let! evidence := liftS (checked_evidence (ma_shim a) (ma_asserted a)) in
   let! files := liftS (ok_or files CONFIG_INVALID) in
   let! steps := liftS (mapR (plan_proposal (iu_projection s) evidence) files) in
   let! _ := liftS (guard_err (existsb is_refused steps) POLICY_DENIED $ Ok tt) in
   let! _ := clock minted_at in
   let! minted := mint_proposals (to_mint steps) evidence (merge_consent (ma_asserted a) evidence (sh_label (ma_shim a)))
                    (ma_mediator a) (ma_out a) ops 0 in
   retS (minted, len (filterb is_noop steps))) s.

(** *** [approve --merge-repo] *)

Definition approve_by_merge_command `{ApprovalFileToml} (a : MergeArgs) (id : string) (settled_at : N) (io : Answers A) : M Issued := λ s,
  (let! text := liftS (ok_or (ma_text a) CONFIG_INVALID) in
   let! file := liftS (ok_or (approval_file_from_toml text) CONFIG_INVALID) in
   let! consent := liftS (consent_to a (iu_projection s) Target (af_callee file) text) in
   let! _ := clock settled_at in
   let! issued := approve_by_merge id file consent io in
   let! _ := liftS (out_of (ma_out a) CONFIG_INVALID issued) in
   retS issued) s.

(** *** [offer publish] *)

Definition surface_kind (name : string) : result SurfaceKind :=
  if bool_decide (name = "mcp") || bool_decide (name = "mcp_tools") then Ok McpTools
  else if bool_decide (name = "a2a") || bool_decide (name = "a2a_card") then Ok A2aCard
  else Err CONFIG_INVALID.

Record PublishArgs := mkPublishArgs {
  pb_surface_path : string;
  pb_surface : option string;
  pb_kind : string;
  pb_version : option N;
  pb_with_shim : bool                      (* whether a shim is given; [ma_shim] is it *)
}.
Definition next_version (held : option N) (asked : option N) : result N :=
  match asked with
  | Some v => guard_err (match held with Some h => (v <=? h)%N | None => false end) CONFIG_INVALID $ Ok v
  | None => Ok (match held with Some h => u64_add h 1 | None => 1%N end)
  end.
Definition offer_to_publish `{OfferToml} (a : MergeArgs) (b : PublishArgs) (p : Projection) : result Offer :=
  let? _ := reserved_path_or_refuse (ma_allow_nonstandard a) (ma_path a) OFFER_PATH in
  let? _ := reserved_path_or_refuse (ma_allow_nonstandard a) (pb_surface_path b) SURFACE_PATH in
  let? kind := surface_kind (pb_kind b) in
  let? raw := ok_or (pb_surface b) CONFIG_INVALID in
  let? document := ok_or (from_slice raw) CONFIG_INVALID in
  let? text := ok_or (ma_text a) CONFIG_INVALID in
  let? manifest := ok_or (offer_from_toml text) POLICY_INVALID in
  let? asset := EntityId_new (om_asset manifest) in
  let? pin := canonicalise kind asset document Limits_default in
  let? version := next_version (offer_version <$> pr_offers p !! asset) (pb_version b) in
  let? offer := into_offer manifest ((cs_items pin).*1) kind (manifest_hash pin) version
                  (mkOfferSource (as_repo (ma_asserted a)) (as_sha (ma_asserted a)) (digest_of_text text)) in
  if pb_with_shim b
  then let? consent := consent_to a p Target (entity_str (offer_asset offer)) text in Ok (with_consent offer consent)
  else Ok offer.
Definition publish_offer `{OfferToml} (a : MergeArgs) (b : PublishArgs) (published_at : N) (io : Io) : M Offer := λ s,
  (let! offer := liftS (offer_to_publish a b (iu_projection s)) in
   let! _ := clock published_at in
   let! _ := commit_event (OfferPublished offer (iu_actor s)) io in
   retS offer) s.
(** The contracts a publication leaves outside its terms, as it reports them. *)
Definition publication_impact (p : Projection) (offer : Offer) (now : N) : Impact :=
  impact offer
    (omap (λ c, (λ e, mkLiveContract c (zone_str (ent_zone e)) (ent_tier e)) <$> pr_entities p !! rec_caller c)
       (filterb (λ c, bool_decide (rec_callee c = offer_asset offer) && ContractRecord_is_live c now) ((map_to_list (pr_contracts p)).*2))) now.
End Commands.

(** ** Lemmas: how a run changes the contracts *)

(** Reached by entering contracts that satisfy [P], one at a time. *)
Inductive grown (P : ContractRecord → Prop) (m : gmap Cid ContractRecord) : gmap Cid ContractRecord → Prop :=
| grown_none : grown P m m
| grown_by m' r : grown P m m' → P r → grown P m (<[rec_cid r := r]> m').

Lemma grown_trans P m1 m2 m3 : grown P m1 m2 → grown P m2 m3 → grown P m1 m3.
Proof. intros H12. induction 1; [done|by constructor]. Qed.
Lemma grown_mono (P Q : ContractRecord → Prop) m m' : (∀ r, P r → Q r) → grown P m m' → grown Q m m'.
Proof. intros HPQ. induction 1; [constructor|constructor; auto]. Qed.
(** Every contract was there or satisfies [P]. *)
Lemma grown_lookup P m m' cid r : grown P m m' → m' !! cid = Some r → m !! cid = Some r ∨ P r.
Proof.
  induction 1 as [|m' r' _ IH HP]; [by left|]. intros [[<- <-]|[Hne Hr]]%lookup_insert_Some; [by right|by apply IH].
Qed.

Section Growth.
Context `{FramedJson Event, SerdeJson, Sha256, Jose, SerdeParse, ApprovalSerde, Prose} {E A : Type} `{EvidenceLog E A}.
Implicit Types (s : Issuer E).

(** The parties and the offers held. *)
Definition parties_in (p : Projection) : gmap EntityId Entity * gmap EntityId Offer := (pr_entities p, pr_offers p).
Definition parties s := (parties_in (iu_projection s), iu_policy s).
(** The clock, the parties, the offers and the policy stay; the contracts only grow by contracts that satisfy [P]. *)
Definition adds (P : ContractRecord → Prop) {T} s (m : stateR (Issuer E) T Code) : Prop :=
  ∀ s' r, m s = (s', r) → iu_now s' = iu_now s ∧ parties s' = parties s ∧ grown P (contracts_of s) (contracts_of s').

Lemma adds_pure P {T} s (r : result T) : adds P s (liftS r).
Proof. intros s' r' [= <- <-]. repeat split. constructor. Qed.
Lemma adds_ret P {T} s (a : T) : adds P s (retS a).
Proof. intros s' r' [= <- <-]. repeat split. constructor. Qed.
Lemma adds_bind P {T U} s (m : stateR (Issuer E) T Code) (k : T → stateR (Issuer E) U Code) :
  adds P s m → (∀ s1 a, m s = (s1, Ok a) → iu_now s1 = iu_now s → parties s1 = parties s → adds P s1 (k a)) → adds P s (bindS m k).
Proof.
  intros Hm Hk s' r. unfold bindS. destruct (m s) as [s1 [a|e]] eqn:Em; destruct (Hm _ _ Em) as (Hn & He & Hg).
  - intros Hr. destruct (Hk _ _ eq_refl Hn He _ _ Hr) as (Hn' & He' & Hg').
    split; [congruence|]. split; [congruence|]. by eapply grown_trans.
  - by intros [= <- <-].
Qed.
Lemma adds_lift P {T U} s (r : result T) (k : T → stateR (Issuer E) U Code) :
  (∀ a, r = Ok a → adds P s (k a)) → adds P s (bindS (liftS r) k).
Proof. intros Hk. apply adds_bind; [apply adds_pure|]. intros s1 a [= <- Ha] _ _. by apply Hk. Qed.
Lemma adds_map P {T U} s (m : stateR (Issuer E) T Code) (f : T → U) : adds P s m → adds P s (bindS m (λ a, retS (f a))).
Proof. intros Hm. apply adds_bind; [done|]. intros. apply adds_ret. Qed.

(** Events that enter at most one contract, no party and no offer. *)
Definition enters (event : Event) : option (option ContractRecord) :=
  match event with
  | ContractMint r => Some (Some r)
  | NeedDeclared _ _ => Some None
  | _ => if spares_contracts event then Some None else None
  end.
Lemma apply_enters p f report r : enters (fr_rec f) = Some r →
  parties_in (apply p f report).1 = parties_in p ∧
  pr_contracts (apply p f report).1 = match r with Some c => <[rec_cid c := c]> (pr_contracts p) | None => pr_contracts p end.
Proof.
  unfold apply, parties_in. destruct (fr_rec f); try done; cbn [enters spares_contracts]; intros [= <-]; unfold settle_request; cbn; by repeat case_match.
Qed.
Lemma adds_commit (P : ContractRecord → Prop) s event io r :
  enters event = Some r → (∀ c, r = Some c → P c) → adds P s (commit_event event io).
Proof.
  intros He HP s' r'. unfold commit_event, commit, contracts_of, parties, iu_projection.
  destruct (Log.append _ _ _ _ _) as [log [seq|e]]; [|intros [= <- <-]; repeat split; constructor].
  destruct (apply _ _ _) as [p report] eqn:Ha. intros [= <- <-]. cbn [with_store iu_store iu_now st_projection].
  pose proof (apply_enters (st_projection (iu_store s)) (mkFramed seq (iu_now s) event) RebuildReport_default r He) as [E1 E2].
  rewrite Ha in E1, E2. cbn [fst] in *. split; [done|]. split; [by rewrite E1|]. rewrite E2. destruct r; [|constructor].
  apply grown_by; [constructor|by apply HP].
Qed.
Lemma adds_record P s event io : adds P s (record_event event io).
Proof. intros s' r. unfold record_event. destruct (ev_record _ _ _ _) as [e r0]. intros [= <- <-]. repeat split. constructor. Qed.
Lemma adds_denial P s input reason trace io : adds P s (record_denial input reason trace io).
Proof. intros s' r. unfold record_denial. revert s' r. apply (adds_map P s (record_event _ _)), adds_record. Qed.
Lemma adds_entity P s id : adds P s (entity id).
Proof. apply adds_pure. Qed.
Lemma adds_write P s cid artifacts write i : adds P s (write_artifacts cid artifacts write i).
Proof.
  revert i s. induction artifacts as [|[aud jws] rest IH]; intros i s; cbn [write_artifacts]; [apply adds_ret|].
  destruct (write i); [|apply (adds_pure P s (Err CHAIN_APPEND_FAILED))]. intros s' r Hr. by destruct (IH _ _ _ _ Hr).
Qed.

Lemma adds_mint P s pending approval caller callee derived io i j :
  (∀ record artifacts, prepare_mint s pending approval caller callee derived = Ok (record, artifacts) → P record) →
  adds P s (mint_checked pending approval caller callee derived io i j).
Proof.
  intros HP s' r. unfold mint_checked. revert s' r. refine (adds_lift P s _ _ _). intros _ _. refine (adds_lift P s _ _ _). intros _ _.
  intros s' r. unfold mint_unchecked. revert s' r. refine (adds_lift P s _ _ _). intros [record artifacts] Hp.
  apply adds_bind; [apply adds_record|]. intros s1 seq _ _ _.
  apply adds_bind; [apply (adds_commit P s1 _ _ (Some record)); [done|]; intros c [= <-]; by eapply HP|]. intros s2 _ _ _ _.
  apply adds_bind; [by apply (adds_commit P s2 _ _ None)|]. intros s3 _ _ _ _.
  apply adds_bind; [apply adds_write|]. intros. apply adds_ret.
Qed.

(** What [request] may enter: a contract under the standing policy, for what was asked. *)
Definition by_policy s (input : RequestInput) (r : ContractRecord) : Prop :=
  ri_owner_must_approve input = false ∧ rec_approval r = standing ∧ rec_caller r = ri_caller input ∧ rec_callee r = ri_callee input ∧
  rec_surface r = ri_surface input ∧ rec_aud r = ri_mediators input ∧
  (rec_exp r ≤ saturating_add_u64 (iu_now s) (ri_ttl_secs input))%N.

Lemma saturating_add_le a b c : (b ≤ c)%N → (saturating_add_u64 a b ≤ saturating_add_u64 a c)%N.
Proof. unfold saturating_add_u64. lia. Qed.

Lemma adds_request s input io :
  (∀ id e, pr_entities (iu_projection s) !! id = Some e → ent_id e = id) → adds (by_policy s input) s (request input io).
Proof.
  intros Hfiled s' r. unfold request. revert s' r.
  refine (adds_lift _ s _ _ _). intros _ _. refine (adds_lift _ s _ _ _). intros _ _.
  apply (adds_bind _ s (entity _)); [apply adds_entity|]. intros s1 caller Hca%entity_ok _ _. destruct Hca as [-> Hca].
  apply (adds_bind _ s (entity _)); [apply adds_entity|]. intros s1 callee Hce%entity_ok _ _. destruct Hce as [-> Hce].
  destruct (evaluate _ _ _ _ _ _) as [ev|c] eqn:Hev.
  2:{ apply adds_bind; [apply adds_denial|]. intros. apply adds_pure. }
  apply adds_bind; [by apply (adds_commit _ s _ _ None)|]. intros s1 _ _ Hn1 _.
  apply adds_bind; [apply adds_record|]. intros s2 _ _ Hn2 _.
  destruct (ce_decision ev).
  - destruct (ri_owner_must_approve input) eqn:Ho; [apply adds_ret|]. apply adds_map. unfold issuer_mint. apply adds_mint.
    intros record artifacts (_ & Hexp & Hrc & Hre & Hsurf & _ & Haud & Happ & _)%prepare_mint_ok.
    split; [done|]. split; [done|]. split; [by rewrite Hrc; apply Hfiled|]. split; [by rewrite Hre; apply Hfiled|].
    split; [done|]. split; [done|]. rewrite Hexp, Hn2, Hn1. apply saturating_add_le. by apply evaluate_ttl_le in Hev.
  - apply adds_bind; [apply adds_denial|]. intros. apply adds_ret.
  - apply adds_ret.
Qed.

Lemma adds_weaken (P Q : ContractRecord → Prop) {T} s (m : stateR (Issuer E) T Code) : (∀ r, P r → Q r) → adds P s m → adds Q s m.
Proof. intros HPQ Hm s' r Hr. destruct (Hm _ _ Hr) as (? & ? & ?). repeat split; [done..|]. by eapply grown_mono. Qed.
End Growth.

(** ** What the commands mint *)

Section Agreed.
Context `{FramedJson Event, SerdeJson, Sha256, Jose, SerdeParse, ApprovalSerde, Prose, ShimCodec, Nfc} {E A : Type} `{EvidenceLog E A}.
Implicit Types (s : Issuer E).

Lemma request_awaiting s input (io : Answers A) s' p :
  request input io s = (s', Ok (OutAwaiting p)) →
  req_surface p = ri_surface input ∧ req_mediators p = ri_mediators input ∧ (req_ttl_secs p ≤ ri_ttl_secs input)%N.
Proof.
  unfold request. intros (s1 & ? & [-> _]%liftS_ok & Hk)%bindS_ok. apply bindS_ok in Hk as (s1 & ? & [-> _]%liftS_ok & Hk).
  apply bindS_ok in Hk as (s1 & caller & [-> Hca]%entity_ok & Hk). apply bindS_ok in Hk as (s1 & callee & [-> Hce]%entity_ok & Hk).
  cbv zeta in Hk. destruct (evaluate _ _ _ _ _ _) as [ev|c] eqn:Hev.
  2:{ by apply bindS_ok in Hk as (s1 & ? & _ & [_ ?]%liftS_ok). }
  apply bindS_ok in Hk as (s1 & n1 & _ & Hk). apply bindS_ok in Hk as (s2 & n2 & _ & Hk).
  assert (∀ x, OutAwaiting (build_pending s input ev) = OutAwaiting x →
    req_surface x = ri_surface input ∧ req_mediators x = ri_mediators input ∧ (req_ttl_secs x ≤ ri_ttl_secs input)%N) as Hp.
  { intros y [= <-]. cbn [build_pending req_surface req_mediators req_ttl_secs]. split; [done|]. split; [done|]. by apply evaluate_ttl_le in Hev. }
  destruct (ce_decision ev).
  - destruct (ri_owner_must_approve input); [injection Hk; intros; apply Hp; congruence|].
    apply bindS_ok in Hk as (s3 & issued & _ & Hk). done.
  - by apply bindS_ok in Hk as (s3 & ? & _ & Hk).
  - injection Hk. intros. apply Hp. congruence.
Qed.

Lemma prepare_mint_derived s pending approval caller callee d record artifacts :
  prepare_mint s pending approval caller callee (Some d) = Ok (record, artifacts) →
  rec_cid record = dv_cid d ∧ rec_jti record = dv_jti d ∧ rec_offer_version record = Some (dv_offer_version d).
Proof.
  unfold prepare_mint. intros (dg & Hd & Hx)%result_bind_ok. cbn [result_bind] in Hx.
  apply result_bind_ok in Hx as (arts & _ & [= <- _]). done.
Qed.

(** A contract minted for a request that waited, under an identity that was derived. *)
Definition identified s (input : RequestInput) (approval : ApprovalRef) (caller callee : Entity) (d : Derived) (r : ContractRecord) : Prop :=
  rec_approval r = approval ∧ rec_caller r = ent_id caller ∧ rec_callee r = ent_id callee ∧
  rec_surface r = ri_surface input ∧ rec_aud r = ri_mediators input ∧
  (rec_exp r ≤ saturating_add_u64 (iu_now s) (ri_ttl_secs input))%N ∧
  rec_cid r = dv_cid d ∧ rec_jti r = dv_jti d ∧ rec_offer_version r = Some (dv_offer_version d).
Lemma adds_identified s s0 input (io io' : Answers A) pending approval caller callee d :
  request input io s0 = (s, Ok (OutAwaiting pending)) → iu_now s = iu_now s0 →
  adds (identified s0 input approval caller callee d) s (mint_with_identity pending approval caller callee d io').
Proof.
  intros (Hs & Hm & Ht)%request_awaiting Hn. unfold mint_with_identity. refine (adds_lift _ s _ _ _). intros _ _. apply adds_mint.
  intros record artifacts Hp. pose proof (prepare_mint_derived _ _ _ _ _ _ _ _ Hp) as (Hc & Hj & Hv).
  apply prepare_mint_ok in Hp as (_ & Hexp & Hrc & Hre & Hsurf & _ & Haud & Happ & _).
  unfold identified. repeat split; [congruence..| |done|done|done]. rewrite Hexp, Hn. by apply saturating_add_le.
Qed.

(** *** [need apply] *)

(** What both sides agreed to: an entry of the manifest that a held, consented offer grants to
    the consumer as registered; the contract is for the items granted, at most for the granted
    lifetime, and carries both consents under the derived identity -- or none, under the
    derived request, where policy issues by itself. *)
Definition agreed (p : Projection) (manifest : NeedManifest) (consent : MergeApproval) (mediator : string) (matched_at minted_at : N)
    (r : ContractRecord) : Prop :=
  ∃ entry n o pc consumer g, entry ∈ nm_needs manifest ∧ resolve manifest entry = Ok n ∧
    pr_offers p !! nd_provider n = Some o ∧ offer_consent o = Some pc ∧ pr_entities p !! nd_consumer n = Some consumer ∧
    match_need n o (zone_str (ent_zone consumer)) (ent_tier consumer) matched_at = Grant g ∧
    rec_caller r = nd_consumer n ∧ rec_callee r = nd_provider n ∧ rec_surface r = tools_surface (ma_items g) ∧ rec_aud r = [mediator] ∧
    (rec_exp r ≤ saturating_add_u64 minted_at (ma_ttl g))%N ∧
    (rec_approval r = standing ∨
     rec_cid r = ma_cid g ∧ rec_jti r = ma_jti g ∧ rec_offer_version r = Some (offer_version o) ∧
     reviewed_merge [consent; pc] = Ok (rec_approval r)).

Lemma match_need_version n o zone tier now g : match_need n o zone tier now = Grant g → ma_offer_version g = offer_version o.
Proof.
  rewrite match_need_eq. destruct (bool_decide _); [|done]. cbv zeta. destruct (refused_items _ _ _ _ _); [|done].
  destruct (filterb _ _); [|done]. by intros [= <-].
Qed.

Definition planned_by (p : Projection) (manifest : NeedManifest) (consent : MergeApproval) (mediator : string) (ts : N) (entry : NeedEntry)
    (x : PlannedNeed) : Prop :=
  ∃ n o pc, resolve manifest entry = Ok n ∧
    pr_offers p !! nd_provider n = Some o ∧ offer_consent o = Some pc ∧ pr_entities p !! nd_consumer n = Some (pn_consumer x) ∧
    pr_entities p !! nd_provider n = Some (pn_provider x) ∧
    match_need n o (zone_str (ent_zone (pn_consumer x))) (ent_tier (pn_consumer x)) ts = Grant (pn_matched x) ∧
    reviewed_merge [consent; pc] = Ok (pn_approval x) ∧ is_current p (ma_cid (pn_matched x)) (ma_jti (pn_matched x)) = false ∧
    ∃ requester, pn_input x = tools_input (nd_consumer n) (nd_provider n) (ma_items (pn_matched x)) (ma_ttl (pn_matched x)) (nd_justify n)
                   requester mediator false.
Definition planned_for p (manifest : NeedManifest) consent mediator ts (x : PlannedNeed) : Prop :=
  ∃ entry, entry ∈ nm_needs manifest ∧ planned_by p manifest consent mediator ts entry x.
Lemma plan_need_mint p manifest consent mediator ts entry x :
  plan_need p manifest consent mediator ts entry = Ok (StepMint x) → planned_by p manifest consent mediator ts entry x.
Proof.
  unfold plan_need. intros (n & Hn & Hk)%result_bind_ok. apply result_bind_ok in Hk as (o & Ho%ok_or_ok & Hk).
  apply result_bind_ok in Hk as (pc & Hpc%ok_or_ok & Hk). apply result_bind_ok in Hk as (cs & Hcs%ok_or_ok & Hk).
  apply result_bind_ok in Hk as (pv & Hpv%ok_or_ok & Hk).
  destruct (match_need _ _ _ _ _) as [g|g|rs] eqn:Hm; [|by destruct (existsb _ _); [|apply result_bind_ok in Hk as (? & _ & ?)]|done].
  destruct (is_current _ _ _) eqn:Hcur; [done|]. apply result_bind_ok in Hk as (ap & Hap & Hk).
  apply result_bind_ok in Hk as (rq & Hrq & [= <-]). exists n, o, pc. repeat (split; [done|]). by exists rq.
Qed.
Lemma plan_need_ask p manifest consent mediator ts entry i :
  plan_need p manifest consent mediator ts entry = Ok (StepAsk i) → ri_owner_must_approve i = true.
Proof.
  unfold plan_need. intros (n & Hn & Hk)%result_bind_ok. apply result_bind_ok in Hk as (o & _ & Hk).
  apply result_bind_ok in Hk as (pc & _ & Hk). apply result_bind_ok in Hk as (cs & _ & Hk). apply result_bind_ok in Hk as (pv & _ & Hk).
  destruct (match_need _ _ _ _ _) as [g|g|rs]; [|destruct (existsb _ _); [done|]; by apply result_bind_ok in Hk as (rq & _ & [= <-])|done].
  destruct (is_current _ _ _); [done|]. apply result_bind_ok in Hk as (ap & _ & Hk). by apply result_bind_ok in Hk as (rq & _ & ?).
Qed.

Lemma elem_of_planned steps x : x ∈ planned steps ↔ StepMint x ∈ steps.
Proof.
  unfold planned. rewrite list_elem_of_omap. split.
  - intros ([y|y|] & Hin & Hy); [|done|done]. by injection Hy as ->.
  - intros Hin. by exists (StepMint x).
Qed.
Lemma elem_of_asked steps x : x ∈ asked steps ↔ StepAsk x ∈ steps.
Proof.
  unfold asked. rewrite list_elem_of_omap. split.
  - intros ([y|y|] & Hin & Hy); [done| |done]. by injection Hy as ->.
  - intros Hin. by exists (StepAsk x).
Qed.

Lemma planned_steps p manifest consent mediator ts steps :
  mapR (plan_need p manifest consent mediator ts) (nm_needs manifest) = Ok steps →
  (∀ x, x ∈ planned steps → planned_for p manifest consent mediator ts x) ∧ (∀ i, i ∈ asked steps → ri_owner_must_approve i = true).
Proof.
  intros Hsteps%mapR_ok. split.
  - intros pn Hx%elem_of_planned. apply list_elem_of_lookup_1 in Hx as [i Hi]. eapply Forall2_lookup_r in Hi as (e & He & Hp); [|done].
    cbv beta in Hp. exists e. split; [by eapply list_elem_of_lookup_2|]. by apply plan_need_mint.
  - intros pn Hx%elem_of_asked. apply list_elem_of_lookup_1 in Hx as [i Hi]. eapply Forall2_lookup_r in Hi as (e & He & Hp); [|done].
    cbv beta in Hp. by eapply plan_need_ask.
Qed.

Section NeedRun.
Context (p : Projection) (policy : ConnectPolicy) (manifest : NeedManifest) (consent : MergeApproval) (mediator : string) (matched_at minted_at : N).
Hypothesis Hfiled : ∀ id e, pr_entities p !! id = Some e → ent_id e = id.

Lemma adds_mint_needs plan out (ops : nat → Answers A) k s :
  parties s = (parties_in p, policy) → iu_now s = minted_at → (∀ x, x ∈ plan → planned_for p manifest consent mediator matched_at x) →
  adds (agreed p manifest consent mediator matched_at minted_at) s (mint_needs plan out ops k).
Proof.
  revert s k. induction plan as [|x rest IH]; intros s k Hent Hnow Hall; cbn [mint_needs]; [apply adds_ret|].
  destruct (Hall x) as (entry & Hin & n & o & pc & Hn & Ho & Hpc & Hcs & Hpv & Hm & Hap & Hcur & rq & Hinput); [by left|].
  apply adds_bind.
  - eapply adds_weaken; [|apply adds_request; by injection Hent as -> _ _]. intros r (_ & Happ & Hc & He & Hs & Haud & Hexp).
    rewrite Hinput in *. cbn in *. rewrite Hnow in Hexp. exists entry, n, o, pc, (pn_consumer x), (pn_matched x). repeat (split; [done|]). by left.
  - intros s1 outcome Hreq Hn1 He1. destruct outcome as [issued|pending|reason trace]; [| |apply adds_pure].
    + apply adds_map. apply IH; [congruence|congruence|]. intros y Hy. apply Hall. by right.
    + apply adds_bind.
      * eapply adds_weaken; [|by eapply adds_identified]. intros r (Happ & Hc & He & Hs & Haud & Hexp & Hcid & Hjti & Hv).
        rewrite Hinput in *. cbn in *. rewrite Hnow in Hexp. rewrite (Hfiled _ _ Hcs) in Hc. rewrite (Hfiled _ _ Hpv) in He.
        exists entry, n, o, pc, (pn_consumer x), (pn_matched x). repeat (split; [done|]). right.
        rewrite <-(match_need_version _ _ _ _ _ _ Hm). repeat (split; [done|]). by rewrite Happ.
      * intros s2 issued _ Hn2 He2. refine (adds_lift _ s2 _ _ _). intros _ _. apply adds_map.
        apply IH; [congruence|congruence|]. intros y Hy. apply Hall. by right.
Qed.
Lemma adds_open_asks P asks (ops : nat → Answers A) k s :
  parties s = (parties_in p, policy) → (∀ i, i ∈ asks → ri_owner_must_approve i = true) → adds P s (open_asks asks ops k).
Proof.
  revert s k. induction asks as [|i rest IH]; intros s k Hent Hall; cbn [open_asks]; [apply adds_ret|].
  apply adds_bind.
  - eapply adds_weaken; [|apply adds_request; by injection Hent as -> _ _]. intros r (Ho & _). by rewrite (Hall i) in Ho by by left.
  - intros s1 outcome _ Hn1 He1. destruct outcome; [apply adds_pure| |apply adds_pure]. apply adds_map.
    apply IH; [congruence|]. intros y Hy. apply Hall. by right.
Qed.
End NeedRun.

Lemma clock_contracts s now : contracts_of (clock now s).1 = contracts_of s ∧ parties (clock now s).1 = parties s ∧
  iu_projection (clock now s).1 = iu_projection s ∧ iu_now (clock now s).1 = now.
Proof. done. Qed.
Lemma commit_need_declared s need actor io s' (r : result N) :
  commit_event (NeedDeclared need actor) io s = (s', r) →
  iu_now s' = iu_now s ∧ contracts_of s' = contracts_of s ∧ parties s' = parties s ∧
  pr_offers (iu_projection s') = pr_offers (iu_projection s).
Proof.
  unfold commit_event, commit, contracts_of, parties, iu_projection.
  destruct (Log.append _ _ _ _ _) as [log [seq|e]]; by intros [= <- _].
Qed.

(** C7: [need apply] mints only what both sides agreed to.  However it ends -- a failure part
    of the way through included -- either no contract changed, or the consumer's consent was
    established for the very text of the manifest, and every contract entered is for an entry
    of that manifest which an offer held with the provider's consent grants the consumer under
    its registered zone and tier: for the items granted, between the two parties, at most for
    the granted lifetime; and its approval is the two consents, under the identity derived
    from its meaning, or -- where policy issues by itself -- the standing policy's. *)
Theorem need_apply_mints_agreed `{NeedToml} a run s s' r :
  filed (iu_projection s) → need_apply a run s = (s', r) →
  contracts_of s' = contracts_of s ∨
  ∃ text manifest consent, ma_text a = Some text ∧ needs_from_toml text = Some manifest ∧
    consent_to a (iu_projection s) Source (nm_asset manifest) text = Ok consent ∧
    grown (agreed (iu_projection s) manifest consent (ma_mediator a) (nr_matched_at run) (nr_minted_at run))
      (contracts_of s) (contracts_of s').
Proof.
  intros (Hfe & _ & _) Hk. unfold need_apply in Hk.
  apply bindS_cases in Hk as [(? & ? & [-> _]%liftS_ok & Hk)|(? & [= <- _] & _)]; [|by left].
  apply bindS_cases in Hk as [(? & text & [-> Htext%ok_or_ok]%liftS_ok & Hk)|(? & [= <- _] & _)]; [|by left].
  apply bindS_cases in Hk as [(? & manifest & [-> Hman%ok_or_ok]%liftS_ok & Hk)|(? & [= <- _] & _)]; [|by left].
  apply bindS_cases in Hk as [(? & cc & [-> Hcc]%liftS_ok & Hk)|(? & [= <- _] & _)]; [|by left].
  apply bindS_cases in Hk as [(? & consumer & [-> _]%liftS_ok & Hk)|(? & [= <- _] & _)]; [|by left].
  apply bindS_cases in Hk as [(s1 & ? & Hc1 & Hk)|(? & [=] & _)]. injection Hc1 as <- _.
  apply bindS_cases in Hk as [(s2 & ? & (_ & Hc2 & He2 & Ho2)%commit_need_declared & Hk)|(? & (_ & Hc2 & _)%commit_need_declared & _)]; [|by left].
  apply bindS_cases in Hk as [(? & steps & Hsteps & Hk)|(? & [= <- _] & _)]; [|by left]. injection Hsteps as <- Hsteps.
  right. exists text, manifest, cc. do 3 (split; [done|]).
  set (q := iu_projection s2) in *. set (P := agreed (iu_projection s) manifest cc (ma_mediator a) (nr_matched_at run) (nr_minted_at run)).
  apply planned_steps in Hsteps as [Hplan Hask]. fold q in Hplan.
  assert (∀ id e, pr_entities q !! id = Some e → ent_id e = id) as Hfq. { intros id e. injection He2 as He2 _ _. unfold q. rewrite He2. apply Hfe. }
  assert (∀ r, agreed q manifest cc (ma_mediator a) (nr_matched_at run) (nr_minted_at run) r → P r) as Hmono.
  { intros r0 (e & n & o & pc & cs & g & Hin & Hn & Hof & Hpc & Hcs & Hrest). exists e, n, o, pc, cs, g. do 2 (split; [done|]).
    split; [by rewrite Ho2 in Hof|]. split; [done|]. split; [|done]. injection He2 as He2 _ _. unfold q in Hcs. by rewrite He2 in Hcs. }
  assert (contracts_of s2 = contracts_of s) as Hsame by exact Hc2. rewrite <-Hsame.
  apply bindS_cases in Hk as [(s3 & ? & Hc3 & Hk)|(? & [=] & _)]. injection Hc3 as <- _.
  set (s3 := (clock (nr_minted_at run) s2).1) in *.
  assert (adds P s3 (mint_needs (planned steps) (ma_out a) (nr_mint run) 0)) as Hadds.
  { eapply adds_weaken; [exact Hmono|]. by apply (adds_mint_needs q (iu_policy s2)). }
  apply bindS_cases in Hk as [(s4 & n & Hm & Hk)|(? & Hm & _)]; destruct (Hadds _ _ Hm) as (_ & He4 & Hg4); [|exact Hg4].
  eapply grown_trans; [exact Hg4|].
  apply bindS_cases in Hk as [(s5 & ? & Hc5 & Hk)|(? & [=] & _)]. injection Hc5 as <- _.
  set (s5 := (clock (nr_asked_at run) s4).1) in *.
  assert (adds P s5 (open_asks (asked steps) (nr_ask run) 0)) as Hadds5. { apply (adds_open_asks q (iu_policy s2) Hfq); [exact He4|done]. }
  apply bindS_cases in Hk as [(s6 & n6 & Hm6 & Hk)|(? & Hm6 & _)]; destruct (Hadds5 _ _ Hm6) as (_ & _ & Hg6); [|done].
  by injection Hk as <- _.
Qed.
(** *** [proposals apply] *)

(** A proposal whose called party's registered owner approved the merge that carried it. *)
Definition owned (p : Projection) (e : MergeEvidence) (consent : MergeApproval) (files : list (option string)) `{ProposalToml}
    (mediator : string) (minted_at : N) (r : ContractRecord) : Prop :=
  ∃ text q callee, Some text ∈ files ∧ Proposal_parse text = Ok q ∧
    pr_entities p !! rec_callee r = Some callee ∧ owner_approved (me_approvers e) (ent_owner callee) = true ∧
    rec_caller r = mkEntityId (pp_caller q) ∧ rec_callee r = mkEntityId (pp_callee q) ∧
    rec_surface r = tools_surface (proposal_items q) ∧ rec_aud r = [mediator] ∧
    (rec_exp r ≤ saturating_add_u64 minted_at (proposal_ttl q))%N ∧
    (rec_approval r = standing ∨
     ∃ owner, owner_of callee (me_approvers e) = Ok owner ∧ rec_approval r = human_by_merge owner consent (pp_ticket q) ∧
       (rec_cid r, rec_jti r) = proposal_identity (rec_caller r) (rec_callee r) q).

Definition proposal_planned `{ProposalToml} (p : Projection) (e : MergeEvidence) (files : list (option string)) (x : PlannedProposal) : Prop :=
  ∃ text, Some text ∈ files ∧ Proposal_parse text = Ok (pl_proposal x) ∧
    pr_entities p !! mkEntityId (pp_caller (pl_proposal x)) = Some (pl_caller x) ∧
    pr_entities p !! mkEntityId (pp_callee (pl_proposal x)) = Some (pl_callee x) ∧
    owner_approved (me_approvers e) (ent_owner (pl_callee x)) = true.
Lemma EntityId_new_mk raw i : EntityId_new raw = Ok i → i = mkEntityId raw.
Proof. unfold EntityId_new. by intros (? & _ & [= <-])%result_bind_ok. Qed.
Lemma plan_proposal_mint `{ProposalToml} p e files text x :
  text ∈ files → plan_proposal p e text = Ok (ProposalPlanned x) → proposal_planned p e files x.
Proof.
  intros Hin. unfold plan_proposal. intros (t & ->%ok_or_ok & Hk)%result_bind_ok.
  destruct (Proposal_parse t) as [pr|] eqn:Hp; [|done]. apply result_bind_ok in Hk as (ca & Hca%EntityId_new_mk & Hk).
  apply result_bind_ok in Hk as (ce & Hce%EntityId_new_mk & Hk). subst ca ce.
  destruct (pr_entities p !! mkEntityId (pp_caller pr)) as [caller|] eqn:Ec; [|done].
  destruct (pr_entities p !! mkEntityId (pp_callee pr)) as [callee|] eqn:Ee; [|done].
  destruct (owner_approved _ _) eqn:Ho; [|done]. cbn [negb] in Hk. destruct (proposal_identity _ _ _) as [cid jti].
  destruct (is_current _ _ _); [done|]. injection Hk as <-. by exists t.
Qed.

Lemma adds_mint_proposals `{ProposalToml} p policy e consent files mediator minted_at plan out (ops : nat → Answers A) k s :
  (∀ id x, pr_entities p !! id = Some x → ent_id x = id) → merge_approvers consent = me_approvers e →
  parties s = (parties_in p, policy) → iu_now s = minted_at → (∀ x, x ∈ plan → proposal_planned p e files x) →
  adds (owned p e consent files mediator minted_at) s (mint_proposals plan e consent mediator out ops k).
Proof.
  intros Hfiled Hwho. revert s k. induction plan as [|x rest IH]; intros s k Hent Hnow Hall; cbn [mint_proposals]; [apply adds_ret|].
  destruct (Hall x) as (text & Hin & Hp & Hc & He & Ho); [by left|].
  refine (adds_lift _ s _ _ _). intros ca Hca%EntityId_new_mk. refine (adds_lift _ s _ _ _). intros ce Hce%EntityId_new_mk. subst ca ce.
  destruct (proposal_identity _ _ _) as [cid jti] eqn:Hid. refine (adds_lift _ s _ _ _). intros rq _.
  apply adds_bind.
  - eapply adds_weaken; [|apply adds_request; by injection Hent as -> _ _]. intros r (_ & Happ & Hrc & Hre & Hs & Haud & Hexp). cbn in *.
    rewrite Hnow in Hexp. exists text, (pl_proposal x), (pl_callee x). rewrite Hre, Hrc. repeat (split; [done|]). by left.
  - intros s1 outcome Hreq Hn1 He1. destruct outcome as [issued|pending|reason trace]; [| |apply adds_pure].
    + apply IH; [congruence|congruence|]. intros y Hy. apply Hall. by right.
    + refine (adds_lift _ s1 _ _ _). intros owner Hown. apply adds_bind.
      * eapply adds_weaken; [|by eapply adds_identified]. intros r (Happ & Hrc & Hre & Hs & Haud & Hexp & Hcid & Hjti & Hv). cbn in *.
        rewrite Hnow in Hexp. rewrite (Hfiled _ _ Hc) in Hrc. rewrite (Hfiled _ _ He) in Hre.
        exists text, (pl_proposal x), (pl_callee x). rewrite Hre, Hrc. repeat (split; [done|]). right. exists owner.
        rewrite <-Hwho. split; [done|]. split; [done|]. by rewrite Hcid, Hjti, Hid.
      * intros s2 issued _ Hn2 He2. refine (adds_lift _ s2 _ _ _). intros _ _. apply adds_map.
        apply IH; [congruence|congruence|]. intros y Hy. apply Hall. by right.
Qed.

(** C8: [proposals apply] mints only for the called party's owner.  Either nothing changed --
    in particular when a single proposal of the directory is refused -- or the merge was
    established at the source host as a reviewed one, and every contract entered, however the
    command ended, is for a proposal of the directory whose called party is registered with an
    owner among the approvers of that merge: between the parties it names, for its tools, at
    most for its lifetime, approved by that owner under the derived identity, or by the
    standing policy. *)
Theorem proposals_mint_owned `{ProposalToml} a files minted_at (ops : nat → Answers A) s s' r :
  filed (iu_projection s) → proposals_apply a files minted_at ops s = (s', r) →
  s' = s ∨
  ∃ e fs steps, checked_evidence (ma_shim a) (ma_asserted a) = Ok e ∧ files = Some fs ∧
    mapR (plan_proposal (iu_projection s) e) fs = Ok steps ∧ (∀ x, x ∈ steps → x ≠ ProposalRefused) ∧
    grown (owned (iu_projection s) e (merge_consent (ma_asserted a) e (sh_label (ma_shim a))) fs (ma_mediator a) minted_at)
      (contracts_of s) (contracts_of s').
Proof.
  intros (Hfe & _ & _) Hk. unfold proposals_apply in Hk.
  apply bindS_cases in Hk as [(? & e & [-> He]%liftS_ok & Hk)|(? & [= <- _] & _)]; [|by left].
  apply bindS_cases in Hk as [(? & fs & [-> Hfs%ok_or_ok]%liftS_ok & Hk)|(? & [= <- _] & _)]; [|by left].
  apply bindS_cases in Hk as [(? & steps & [-> Hsteps]%liftS_ok & Hk)|(? & [= <- _] & _)]; [|by left].
  apply bindS_cases in Hk as [(? & ? & [-> [Href _]%guard_err_ok]%liftS_ok & Hk)|(? & [= <- _] & _)]; [|by left].
  apply bindS_cases in Hk as [(s1 & ? & Hc1 & Hk)|(? & [=] & _)]. injection Hc1 as <- _. right.
  exists e, fs, steps. do 3 (split; [done|]). split.
  { intros y Hy ->. rewrite existsb_False in Href. by specialize (Href _ Hy). }
  set (s1 := (clock minted_at s).1) in *.
  assert (∀ y, y ∈ to_mint steps → proposal_planned (iu_projection s) e fs y) as Hplan.
  { intros y Hy. unfold to_mint in Hy. apply list_elem_of_omap in Hy as ([| |z] & Hy & Hz); [done|done|]. injection Hz as ->.
    apply mapR_ok in Hsteps. apply list_elem_of_lookup_1 in Hy as [i Hi]. eapply Forall2_lookup_r in Hi as (t & Ht & Hp); [|done].
    cbv beta in Hp. eapply plan_proposal_mint; [by eapply list_elem_of_lookup_2|done]. }
  pose proof (adds_mint_proposals (iu_projection s) (iu_policy s) e (merge_consent (ma_asserted a) e (sh_label (ma_shim a))) fs (ma_mediator a) minted_at
    (to_mint steps) (ma_out a) ops 0 s1 Hfe eq_refl eq_refl eq_refl Hplan) as Hadds.
  apply bindS_cases in Hk as [(s4 & n & Hm & Hk)|(? & Hm & _)]; destruct (Hadds _ _ Hm) as (_ & _ & Hg); [|exact Hg].
  by injection Hk as <- _.
Qed.
(** ** Running again *)

Lemma request_awaiting_quiet s input (io : Answers A) s' p :
  request input io s = (s', Ok (OutAwaiting p)) → contracts_of s' = contracts_of s.
Proof.
  unfold request. intros (s1 & ? & [-> _]%liftS_ok & Hk)%bindS_ok. apply bindS_ok in Hk as (s1 & ? & [-> _]%liftS_ok & Hk).
  apply bindS_ok in Hk as (s1 & caller & [-> Hca]%entity_ok & Hk). apply bindS_ok in Hk as (s1 & callee & [-> Hce]%entity_ok & Hk).
  cbv zeta in Hk. destruct (evaluate _ _ _ _ _ _) as [ev|c] eqn:Hev.
  2:{ by apply bindS_ok in Hk as (s1 & ? & _ & [_ ?]%liftS_ok). }
  apply bindS_ok in Hk as (s1 & n1 & (_ & Hc1 & _)%commit_request_ok & Hk). apply bindS_ok in Hk as (s2 & n2 & (_ & Hc2)%record_event_ok & Hk).
  rewrite <-Hc1. unfold contracts_of in *. rewrite <-Hc2.
  destruct (ce_decision ev).
  - destruct (ri_owner_must_approve input); [by injection Hk as -> _|]. by apply bindS_ok in Hk as (s3 & issued & _ & Hk).
  - by apply bindS_ok in Hk as (s3 & ? & _ & Hk).
  - by injection Hk as -> _.
Qed.
(** Policy that leaves every request to a person: no rule of it, nor its default, allows. *)
Definition never_allows (p : ConnectPolicy) : bool :=
  negb (bool_decide (po_default p = Allow)) && forallb (λ r, negb (bool_decide (ru_decision r = Allow))) (po_rules p).
Lemma first_match_In i rules req caller callee f k r : first_match i rules req caller callee f = Some (k, r) → In r rules.
Proof. revert i. induction rules as [|x rules IH]; intros i; cbn; [done|]. destruct (rule_matches _ _ _ _ _); [intros [= _ <-]; by left|by right; eapply IH]. Qed.
Lemma posture_step_Allow role party st : (posture_step role party st).1 = Allow → st.1 = Allow.
Proof. unfold posture_step. destruct (may_connect _ _); [done|]. cbn. by case_bool_decide. Qed.
Lemma evaluate_never_allows p req caller callee state now ev :
  never_allows p = true → evaluate p req caller callee state now = Ok ev → ce_decision ev ≠ Allow.
Proof.
  unfold never_allows. intros [Hd Hr]%andb_true_iff. rewrite forallb_forall in Hr. unfold evaluate.
  rewrite guard_err_ok. intros [_ (? & _ & Hk)%result_bind_ok]. apply result_bind_ok in Hk as (? & _ & Hk).
  apply result_bind_ok in Hk as (? & _ & Hk). apply result_bind_ok in Hk as (l & _ & Hk).
  destruct (_ && _); injection Hk as <-; [done|]. unfold decide_request. cbv zeta.
  assert (∀ trace ttl terms f, rg_decision (apply_rule p (first_match 0 (po_rules p) req caller callee f) trace ttl terms) ≠ Allow) as Hrule.
  { intros trace ttl terms f. destruct (first_match _ _ _ _ _ _) as [[k r]|] eqn:Hm; cbn; [|by bool_facts].
    apply first_match_In in Hm. specialize (Hr _ Hm). by bool_facts. }
  rewrite (bool_decide_eq_false_2 _ (Hrule _ _ _ _)). cbn [andb].
  destruct (posture_step "callee" _ _) as [d tr] eqn:Hp. destruct (Terms_is_closed _); [done|].
  assert (d ≠ Allow) as Hda. { intros ->. apply (f_equal fst), posture_step_Allow, posture_step_Allow in Hp. by eapply Hrule. }
  by rewrite (bool_decide_eq_false_2 _ Hda).
Qed.
Lemma request_never_issues s input (io : Answers A) s' i : never_allows (iu_policy s) = true → request input io s ≠ (s', Ok (OutIssued i)).
Proof.
  intros Hnever. unfold request. intros (s1 & ? & [-> _]%liftS_ok & Hk)%bindS_ok. apply bindS_ok in Hk as (s1 & ? & [-> _]%liftS_ok & Hk).
  apply bindS_ok in Hk as (s1 & caller & [-> Hca]%entity_ok & Hk). apply bindS_ok in Hk as (s1 & callee & [-> Hce]%entity_ok & Hk).
  cbv zeta in Hk. destruct (evaluate _ _ _ _ _ _) as [ev|c] eqn:Hev; [apply evaluate_never_allows in Hev; [|done]|].
  2:{ by apply bindS_ok in Hk as (s1 & ? & _ & [_ ?]%liftS_ok). }
  apply bindS_ok in Hk as (s1 & n1 & _ & Hk). apply bindS_ok in Hk as (s2 & n2 & _ & Hk).
  destruct (ce_decision ev); [done| |done]. by apply bindS_ok in Hk as (s3 & ? & _ & Hk).
Qed.
Lemma mint_identity_ok s pending approval caller callee d (io : Answers A) s' issued :
  mint_with_identity pending approval caller callee d io s = (s', Ok issued) →
  contracts_of s' = <[dv_cid d := is_record issued]> (contracts_of s) ∧ rec_jti (is_record issued) = dv_jti d.
Proof.
  unfold mint_with_identity. intros (s1 & ? & [-> _]%liftS_ok & Hk)%bindS_ok. unfold mint_checked in Hk.
  apply bindS_ok in Hk as (s1 & ? & [-> _]%liftS_ok & Hk). apply bindS_ok in Hk as (s1 & ? & [-> _]%liftS_ok & Hk). unfold mint_unchecked in Hk.
  apply bindS_ok in Hk as (s1 & [record artifacts] & [-> Hp]%liftS_ok & Hk).
  apply prepare_mint_derived in Hp as (<- & Hj & _).
  apply bindS_ok in Hk as (s2 & n2 & (_ & Hc2)%record_event_ok & Hk).
  apply bindS_ok in Hk as (s3 & n3 & (_ & _ & _ & Hc3)%commit_event_cases & Hk).
  apply bindS_ok in Hk as (s4 & n4 & (_ & _ & _ & Hc4)%commit_event_cases & Hk).
  apply bindS_ok in Hk as (s5 & n5 & (_ & _ & Hc5)%write_artifacts_cases & Hk). injection Hk as <- <-. split; [|done].
  unfold contracts_of. rewrite Hc5, Hc4. rewrite apply_spares by done. rewrite Hc3. cbn. by rewrite Hc2.
Qed.

Notation cid_of x := (ma_cid (pn_matched x)).
Lemma mint_needs_settled p policy manifest consent mediator ts plan out (ops : nat → Answers A) k s s' n :
  (∀ id e, pr_entities p !! id = Some e → ent_id e = id) →
  never_allows policy = true → parties s = (parties_in p, policy) → NoDup (map (λ x, cid_of x) plan) →
  (∀ x, x ∈ plan → planned_for p manifest consent mediator ts x) →
  mint_needs plan out ops k s = (s', Ok n) →
  (∀ x, x ∈ plan → ∃ r, contracts_of s' !! cid_of x = Some r ∧ rec_jti r = ma_jti (pn_matched x)) ∧
  (∀ cid, cid ∉ map (λ x, cid_of x) plan → contracts_of s' !! cid = contracts_of s !! cid) ∧ parties s' = parties s.
Proof.
  intros Hfiled Hnever. revert s k n. induction plan as [|x rest IH]; intros s k n Hent Hnd Hall; cbn [mint_needs].
  { intros [= <- <-]. repeat split; set_solver. }
  apply NoDup_cons in Hnd as [Hx Hnd]. intros (s1 & outcome & Hreq & Hk)%bindS_ok.
  assert (iu_policy s = policy) as Hpol by by injection Hent.
  assert (∀ id e, pr_entities (iu_projection s) !! id = Some e → ent_id e = id) as Hf by by injection Hent as -> _ _.
  pose proof (adds_request s (pn_input x) (ops k) Hf s1 (Ok outcome) Hreq) as (Hn1 & Hp1 & _).
  destruct outcome as [issued|pending|reason trace]; [| |by apply liftS_ok in Hk as [_ ?]].
  { exfalso. eapply request_never_issues; [|exact Hreq]. by rewrite Hpol. }
  apply bindS_ok in Hk as (s2 & issued & Hm & Hk). apply bindS_ok in Hk as (s3 & [] & [-> _]%liftS_ok & Hk).
  apply bindS_ok in Hk as (s3 & n3 & Hrest & Hk). injection Hk as <- <-.
  pose proof (request_awaiting_quiet _ _ _ _ _ Hreq) as Hq. pose proof (adds_identified _ _ _ _ (ops (S k)) _ (pn_approval x) (pn_consumer x)
    (pn_provider x) (derived (pn_matched x)) Hreq) as Hadd.
  destruct (Hadd Hn1 _ _ Hm) as (_ & Hp2 & _).
  apply mint_identity_ok in Hm as [Hc Hj].
  destruct (IH s2 (S (S k)) n3) as (Hset & Hkeep & Hp3); [congruence|done|intros y Hy; apply Hall; by right|done|].
  split; [|split; [|congruence]].
  - intros y [->|Hy]%elem_of_cons; [|by apply Hset]. exists (is_record issued). split; [|done].
    rewrite Hkeep by done. rewrite Hc. apply lookup_insert_eq.
  - intros cid Hcid. rewrite Hkeep by set_solver. rewrite Hc, lookup_insert_ne by set_solver. by rewrite Hq.
Qed.

(** The clock decides only whether a need is refused; what it grants has one identity. *)
Lemma match_need_timeless n o zone tier now now' g' : match_need n o zone tier now' = Grant g' →
  (∃ rs, match_need n o zone tier now = Refused rs) ∨
  ∃ g, match_need n o zone tier now = Grant g ∧ ma_cid g = ma_cid g' ∧ ma_jti g = ma_jti g'.
Proof.
  rewrite !match_need_eq. destruct (bool_decide _); [|done]. cbv zeta. destruct (refused_items _ _ _ _ now'); [|done].
  destruct (filterb _ _); [|done]. intros [= <-]. destruct (refused_items _ _ _ _ now); [right; eauto|left; eauto].
Qed.
Lemma grown_never m m' : grown (λ _, False) m m' → m' = m.
Proof. by induction 1. Qed.

(** The contract an entry of a manifest names. *)
Definition entry_cid (m : NeedManifest) (e : NeedEntry) : Cid := derive_cid (mkEntityId (nm_asset m)) (mkEntityId (ne_to e)).
Lemma resolved_cid m e n o zone tier now g : resolve m e = Ok n → match_need n o zone tier now = Grant g → ma_cid g = entry_cid m e.
Proof.
  intros (_ & Hc%EntityId_new_mk & Hp%EntityId_new_mk & _)%resolve_need_ok (_ & Hcid & _)%match_need_grant.
  by rewrite Hcid, Hc, Hp.
Qed.

Lemma need_apply_ok `{NeedToml} a run s s' minted opened kept : need_apply a run s = (s', Ok (minted, opened, kept)) →
  ∃ text manifest consent s2 steps s4, ma_text a = Some text ∧ needs_from_toml text = Some manifest ∧
    parties s2 = parties s ∧ contracts_of s2 = contracts_of s ∧
    mapR (plan_need (iu_projection s2) manifest consent (ma_mediator a) (nr_matched_at run)) (nm_needs manifest) = Ok steps ∧
    mint_needs (planned steps) (ma_out a) (nr_mint run) 0 (clock (nr_minted_at run) s2).1 = (s4, Ok minted) ∧
    open_asks (asked steps) (nr_ask run) 0 (clock (nr_asked_at run) s4).1 = (s', Ok opened).
Proof.
  unfold need_apply. intros (? & ? & [-> _]%liftS_ok & Hk)%bindS_ok.
  apply bindS_ok in Hk as (? & text & [-> Htext%ok_or_ok]%liftS_ok & Hk).
  apply bindS_ok in Hk as (? & manifest & [-> Hman%ok_or_ok]%liftS_ok & Hk).
  apply bindS_ok in Hk as (? & cc & [-> Hcc]%liftS_ok & Hk). apply bindS_ok in Hk as (? & consumer & [-> _]%liftS_ok & Hk).
  apply bindS_ok in Hk as (s1 & ? & Hc1 & Hk). injection Hc1 as <- _.
  apply bindS_ok in Hk as (s2 & ? & (_ & Hc2 & He2 & Ho2)%commit_need_declared & Hk).
  apply bindS_ok in Hk as (? & steps & Hsteps & Hk). injection Hsteps as <- Hsteps.
  apply bindS_ok in Hk as (s3 & ? & Hc3 & Hk). injection Hc3 as <- _. apply bindS_ok in Hk as (s4 & n4 & Hm4 & Hk).
  apply bindS_ok in Hk as (s5 & ? & Hc5 & Hk). injection Hc5 as <- _. apply bindS_ok in Hk as (s6 & n6 & Hm6 & Hk).
  injection Hk as <- <- <- _. by exists text, manifest, cc, s2, steps, s4.
Qed.
(** The planned contracts are the entries', each at most once. *)
Lemma planned_by_cid p manifest consent mediator ts entry x : planned_by p manifest consent mediator ts entry x → cid_of x = entry_cid manifest entry.
Proof. intros (n & o & pc & Hn & _ & _ & _ & _ & Hg & _). by eapply resolved_cid. Qed.
Lemma planned_cids p manifest consent mediator ts entries steps :
  mapR (plan_need p manifest consent mediator ts) entries = Ok steps →
  sublist (map (λ x, cid_of x) (planned steps)) (map (entry_cid manifest) entries).
Proof.
  intros Hm%mapR_ok. induction Hm as [|e step es steps Hp Hm IH]; [constructor|].
  destruct step as [x|i|]; cbn; [|by constructor..]. rewrite (planned_by_cid _ _ _ _ _ _ _ (plan_need_mint _ _ _ _ _ _ _ Hp)). by constructor.
Qed.

(** A plan over the store its own mints left plans nothing. *)
Lemma replan_nothing p p' manifest consent consent' mediator mediator' ts ts' entries steps steps' :
  NoDup (map (entry_cid manifest) entries) → parties_in p' = parties_in p →
  mapR (plan_need p manifest consent mediator ts) entries = Ok steps →
  (∀ x, x ∈ planned steps → ∃ r, pr_contracts p' !! cid_of x = Some r ∧ rec_jti r = ma_jti (pn_matched x)) →
  (∀ cid, cid ∉ map (λ x, cid_of x) (planned steps) → pr_contracts p' !! cid = pr_contracts p !! cid) →
  mapR (plan_need p' manifest consent' mediator' ts') entries = Ok steps' → planned steps' = [].
Proof.
  intros Hnd Hp Hs Hset Hkeep Hs'. destruct (planned steps') as [|x rest] eqn:Hx; [done|exfalso].
  assert (StepMint x ∈ steps') as Hin by (apply elem_of_planned; rewrite Hx; by left).
  apply mapR_ok in Hs'. apply list_elem_of_lookup_1 in Hin as [i Hi]. eapply Forall2_lookup_r in Hi as (e & He & Hpl); [|done].
  cbv beta in Hpl. apply plan_need_mint in Hpl. pose proof (planned_by_cid _ _ _ _ _ _ _ Hpl) as Hcid.
  destruct Hpl as (n & o & pc & Hn & Ho & Hpc & Hcs & Hpv & Hg & Hap & Hcur & _). injection Hp as He' Ho'. rewrite He' in Hcs, Hpv. rewrite Ho' in Ho.
  pose proof Hs as Hall%mapR_ok. destruct (Forall2_lookup_l _ _ _ _ _ Hall He) as (step & Hstep & Hfirst). cbv beta in Hfirst.
  unfold plan_need in Hfirst. rewrite Hn in Hfirst. cbn [result_bind] in Hfirst. rewrite Ho, Hcs, Hpv in Hfirst. cbn [ok_or result_bind] in Hfirst.
  rewrite Hpc in Hfirst. cbn [ok_or result_bind] in Hfirst.
  destruct (match_need_timeless _ _ _ _ ts _ _ Hg) as [[rs Hr]|(g & Hg1 & Hgc & Hgj)]; [by rewrite Hr in Hfirst|].
  rewrite Hg1 in Hfirst. unfold is_current in Hcur. destruct (is_current p _ _) eqn:Hcur0.
  - injection Hfirst as <-.
    rewrite Hkeep in Hcur.
    + unfold is_current in Hcur0. rewrite Hgc, Hgj in Hcur0. by rewrite Hcur in Hcur0.
    + intros (y & Hy & Hiny%elem_of_planned)%list_elem_of_fmap. apply list_elem_of_lookup_1 in Hiny as [j Hj].
      eapply Forall2_lookup_r in Hall as (e2 & He2 & Hp2); [|exact Hj]. cbv beta in Hp2.
      apply plan_need_mint, planned_by_cid in Hp2. rewrite Hcid, Hp2 in Hy.
      assert (i = j) as ->; [|congruence]. eapply (NoDup_lookup _ _ _ (entry_cid manifest e) Hnd); rewrite list_lookup_fmap.
      * by rewrite He.
      * rewrite He2. cbn. by rewrite Hy.
  - apply result_bind_ok in Hfirst as (ap & _ & Hk). apply result_bind_ok in Hk as (rq & _ & [= <-]).
    apply list_elem_of_lookup_2, elem_of_planned in Hstep. destruct (Hset _ Hstep) as (r & Hr & Hj). cbn in Hr, Hj.
    rewrite Hgc in Hr. rewrite Hr in Hcur. by rewrite bool_decide_eq_false, Hj in Hcur.
Qed.

Lemma parties_eq s s' : parties s' = parties s → parties_in (iu_projection s') = parties_in (iu_projection s) ∧ iu_policy s' = iu_policy s.
Proof. intros Hp. split; [exact (f_equal fst Hp)|exact (f_equal snd Hp)]. Qed.
Lemma parties_filed (p p' : Projection) : parties_in p' = parties_in p →
  (∀ id e, pr_entities p !! id = Some e → ent_id e = id) → ∀ id e, pr_entities p' !! id = Some e → ent_id e = id.
Proof. intros Hp. change (pr_entities p') with (parties_in p').1. by rewrite Hp. Qed.
Lemma open_asks_quiet s asks (ops : nat → Answers A) k s' r :
  (∀ id e, pr_entities (iu_projection s) !! id = Some e → ent_id e = id) → (∀ i, i ∈ asks → ri_owner_must_approve i = true) →
  open_asks asks ops k s = (s', r) → parties s' = parties s ∧ contracts_of s' = contracts_of s.
Proof.
  intros Hf Ha Hk. destruct (adds_open_asks (iu_projection s) (iu_policy s) Hf (λ _, False) asks ops k s eq_refl Ha _ _ Hk) as (_ & Hp & Hg%grown_never).
  done.
Qed.

(** Applying a needs manifest twice mints once.  Where policy leaves every request to a
    person and no two entries name the same contract, once [need apply] has succeeded, any
    later run over the same text that succeeds -- whenever, with whatever consents, mediator
    and disk -- mints nothing and leaves every contract as it was. *)
Theorem need_apply_rerun `{NeedToml} a a' run run' s s1 s2 minted opened kept minted' opened' kept' :
  filed (iu_projection s) → never_allows (iu_policy s) = true →
  (∀ text m, ma_text a = Some text → needs_from_toml text = Some m → NoDup (map (entry_cid m) (nm_needs m))) →
  need_apply a run s = (s1, Ok (minted, opened, kept)) → ma_text a' = ma_text a →
  need_apply a' run' s1 = (s2, Ok (minted', opened', kept')) →
  minted' = 0%N ∧ contracts_of s2 = contracts_of s1.
Proof.
  intros (Hfe & _ & _) Hnever Hnd (text & m & cc & q1 & steps & q2 & Ht & Hm & Hp1 & Hc1 & Hs & Hmint & Hask)%need_apply_ok Htext.
  intros (text' & m' & cc' & q1' & steps' & q2' & Ht' & Hm' & Hp1' & Hc1' & Hs' & Hmint' & Hask')%need_apply_ok.
  specialize (Hnd _ _ Ht Hm). assert (m' = m) as -> by congruence. destruct (planned_steps _ _ _ _ _ _ Hs) as [Hpl Has].
  destruct (parties_eq _ _ Hp1) as [Hpp Hpol].
  pose proof (parties_filed _ _ Hpp Hfe) as Hfq. rewrite <-Hpol in Hnever.
  destruct (mint_needs_settled (iu_projection q1) (iu_policy q1) m cc (ma_mediator a) (nr_matched_at run) (planned steps) (ma_out a)
    (nr_mint run) 0 (clock (nr_minted_at run) q1).1 q2 minted Hfq Hnever eq_refl) as (Hset & Hkeep & Hp2); [|done|done|].
  { eapply sublist_NoDup; [exact Hnd|by eapply planned_cids]. }
  destruct (parties_eq _ _ Hp2) as [Hpp2 _]. apply open_asks_quiet in Hask as [Hp3 Hg3]; [|by apply (parties_filed _ _ Hpp2)|done].
  destruct (parties_eq _ _ Hp3) as [Hpp3 _]. destruct (parties_eq _ _ Hp1') as [Hpp1' _].
  assert (parties_in (iu_projection q1') = parties_in (iu_projection q1)) as Hpp' by (rewrite Hpp1', Hpp3; exact Hpp2).
  assert (planned steps' = []) as Hnone.
  { eapply (replan_nothing (iu_projection q1) (iu_projection q1')); [exact Hnd|exact Hpp'|exact Hs| | |exact Hs'].
    - intros y Hy. change (pr_contracts (iu_projection q1')) with (contracts_of q1'). rewrite Hc1', Hg3. by apply Hset.
    - intros cid Hcid. change (pr_contracts (iu_projection q1')) with (contracts_of q1'). rewrite Hc1', Hg3. by apply Hkeep. }
  rewrite Hnone in Hmint'. injection Hmint' as <- <-. split; [done|]. rewrite <-Hc1'.
  destruct (planned_steps _ _ _ _ _ _ Hs') as [_ Has']. by apply open_asks_quiet in Hask' as [_ ?]; [|by apply (parties_filed _ _ Hpp')|].
Qed.
End Agreed.

Module ApplyExamples.
Import TestPrinter TestSha PolicyExamples IssuanceExamples.

Definition offer : Offer :=
  mkOffer (ent_id ledger) 3 McpTools "sha256:aa" [mkTerm ["read"] (mkAudience (Some "internal.*") None) PreGranted 604800 []]
    (mkOfferSource "bank/mcp" "abc" "sha256:bb") (Some (mkMergeApproval Target "bank/mcp" "abc" "3" "lee" ["pat"] "scm" false)) None.
Definition needs : NeedManifest := mkNeedManifest None (entity_str (ent_id agent)) [mkNeedEntry (entity_str (ent_id ledger)) ["read"] "reconcile" None].
#[export] Instance needs_toml : NeedToml := λ _, Some needs.
Definition asking : ConnectPolicy := mkConnectPolicy RequireApproval "v1" [internal; pay] [] false false [] StandingLimits_default.
Definition before : Issuer (list (EntryDraft * N)) :=
  Issuer_new (mkStore (with_offers projection {[ ent_id ledger := offer ]}) (fresh_log 100000) [] ∅) [] asking
    (mkIssuerKey "k1" ES256 Local (λ _, Ok TestJose.sig)) "plane" 100 (ActorHuman (mkHumanRef "sam@acme")).
#[export] Instance answers : SerdeParse := ConsentExamples.parse.
#[export] Instance codec : ShimCodec := {
  evidence_from_value _ := Some (mkMergeEvidence true "refs/heads/main" true "7" "bob" ["priya"; "pat@acme"] 5 "base");
  outcome_from_value _ := None;
  std_decode := Some;
  std_encode := id;
  approval_from_toml _ := Some (Some (mkApprovalBlock ["human:Priya"] 1))
}.
Definition args : MergeArgs :=
  mkMergeArgs "warden/needs.toml" (Some "text") ConsentExamples.asserted (ConsentExamples.host "e0" "text" "one") "gateway-1" false None.
Definition at_times (t : N) : NeedRun := mkNeedRun t t (t + 1) (t + 1) io_ok (λ _, good) (λ _, good).
Definition applied := need_apply args (at_times 100) before.
Definition again := need_apply args (at_times 900) applied.1.

Lemma filed_before : filed (iu_projection before).
Proof. apply filed_b_ok. vm_compute. reflexivity. Qed.
Lemma applied_ok : applied = (applied.1, Ok (1, 0, 0)%N).
Proof. apply outcome_is. vm_compute. reflexivity. Qed.
Lemma again_ok : again = (again.1, Ok (0, 0, 1)%N).
Proof. apply outcome_is. vm_compute. reflexivity. Qed.

(** The whole run mints one contract, for what was agreed. *)
Lemma need_apply_mints_agreed_witness :
  contracts_of applied.1 ≠ contracts_of before ∧
  ∃ consent, grown (agreed (iu_projection before) needs consent "gateway-1" 100 101) (contracts_of before) (contracts_of applied.1).
Proof.
  assert (contracts_of applied.1 ≠ contracts_of before) as Hne.
  { intros Heq. apply (f_equal (λ m, m !! derive_cid (ent_id agent) (ent_id ledger))) in Heq. vm_compute in Heq. discriminate Heq. }
  split; [exact Hne|].
  destruct (need_apply_mints_agreed args (at_times 100) before _ _ filed_before applied_ok) as
    [Heq|(text & m & consent & _ & [= <-] & _ & Hg)]; [destruct (Hne Heq)|]. exists consent. exact Hg.
Defined.

Lemma need_apply_rerun_witness :
  applied = (applied.1, Ok (1, 0, 0)%N) ∧ again = (again.1, Ok (0, 0, 1)%N) ∧ contracts_of again.1 = contracts_of applied.1.
Proof.
  split; [exact applied_ok|]. split; [exact again_ok|].
  refine (proj2 (need_apply_rerun args args (at_times 100) (at_times 900) before applied.1 again.1 1 0 0 0 0 1
    filed_before eq_refl _ applied_ok eq_refl again_ok)).
  intros text m _ [= <-]. apply NoDup_cons. split; [apply not_elem_of_nil|apply NoDup_nil; exact I].
Defined.

Definition proposal : Proposal :=
  mkProposal (entity_str (ent_id agent)) (entity_str (ent_id ledger)) ["read"] "reconcile the ledger" (Some 3600%N) (Some "T-1").
#[export] Instance proposal_toml : ProposalToml := λ _, Some proposal.
Definition proposed := proposals_apply args (Some [Some "text"]) 100 (λ _, good) before.
Lemma proposed_ok : proposed = (proposed.1, Ok (1, 0)%N).
Proof. apply outcome_is. vm_compute. reflexivity. Qed.
Lemma proposals_mint_owned_witness :
  contracts_of proposed.1 ≠ contracts_of before ∧
  ∃ e, grown (owned (iu_projection before) e (merge_consent ConsentExamples.asserted e "scm") [Some "text"] "gateway-1" 100)
         (contracts_of before) (contracts_of proposed.1).
Proof.
  assert (contracts_of proposed.1 ≠ contracts_of before) as Hne.
  { intros Heq. apply (f_equal (λ m, m !! derive_cid (ent_id agent) (ent_id ledger))) in Heq. vm_compute in Heq. discriminate Heq. }
  split; [exact Hne|].
  destruct (proposals_mint_owned args (Some [Some "text"]) 100 (λ _, good) before _ _ filed_before proposed_ok) as
    [Heq|(e & fs & steps & _ & [= <-] & _ & _ & Hg)]; [destruct Hne; by rewrite Heq|]. exists e. exact Hg.
Defined.

(** Where policy allows the need by itself, the same text mints again: the contract stands
    under an id of its request, where the next run does not look. *)
Definition allowing : ConnectPolicy := mkConnectPolicy Allow "v1" [internal] [] false false [] (mkStandingLimits (f64_of_decimal false 6 (-1)) true 20 50 "24h" 3 false 8 "90d" 100).
Definition standing_before : Issuer (list (EntryDraft * N)) :=
  mkIssuer (iu_store before) (iu_evidence before) allowing (iu_signer before) (iu_iss before) (iu_now before) (iu_actor before)
    (iu_request_ttl_secs before) (iu_mode before).
Lemma standing_policy_mints_again :
  (need_apply args (at_times 100) standing_before).2 = Ok (1, 0, 0)%N ∧
  (need_apply args (at_times 900) (need_apply args (at_times 100) standing_before).1).2 = Ok (1, 0, 0)%N.
Proof. split; vm_compute; reflexivity. Qed.
End ApplyExamples.
