(* ===== verification/Federate.v ===== *)
(** * Federate: trust chains between organisations ([crates/wc-control/src/federate.rs])

    A chain is a list of signed entity statements, leaf first; it is walked from a configured
    anchor down to the leaf.  serde's reader of a statement is the parameter
    [StatementSerde] and the TOML of an anchor set [AnchorToml].  A [BTreeSet<String>] is a
    [gset], a [BTreeMap<String, String>] a [gmap].  What a statement claims beyond its
    superior is an inductive type in place of prose. *)

From S2P Require Import Prelude Text Errors Model Zone Json Canon Contract Artifact.

Definition MAX_CHAIN_LEN : N := 6.
Definition DEFAULT_ANCHOR_REVERIFY_SECS : N := 86400.

(** ** Entity statements *)

Record FederationMetadata := mkFederationMetadata {
  fm_zone : option string;
  fm_capabilities : gset string;
  fm_jurisdictions : gset string;
  fm_data_classes : gset string;
  fm_max_ttl_secs : option N;
  fm_max_delegation_depth : option N
}.
Definition FederationMetadata_default : FederationMetadata := mkFederationMetadata None ∅ ∅ ∅ None None.

Record EntityStatement := mkEntityStatement {
  es_iss : string;
  es_sub : string;
  es_iat : N;
  es_exp : N;
  es_jwks : gmap string string;
  es_metadata : FederationMetadata;
  es_authority_hints : list string
}.
Class StatementSerde := statement_from_value : Value → option EntityStatement.

Definition is_self_signed (s : EntityStatement) : bool := bool_decide (es_iss s = es_sub s).
Definition is_current (s : EntityStatement) (now leeway : N) : bool :=
  (saturating_sub now leeway <? es_exp s)%N && (saturating_sub (es_iat s) leeway <=? now)%N.

(** ** What a federated entity may be *)

Definition min_opt (a b : option N) : option N :=
  match a, b with
  | Some x, Some y => Some (N.min x y)
  | Some x, None | None, Some x => Some x
  | None, None => None
  end.
Definition narrow (mine theirs : gset string) : gset string := if bool_decide (theirs = ∅) then mine else mine ∩ theirs.
Definition narrow_zone (mine theirs : option string) : option string :=
  match mine, theirs with
  | Some m, Some t =>
    match ZoneId_new m, ZoneId_new t with
    | Ok zm, Ok zt => if contains zt zm then Some m else Some t
    | _, _ => Some t
    end
  | None, Some t => Some t
  | Some m, None => Some m
  | None, None => None
  end.
Definition narrowed_by (self superior : FederationMetadata) : FederationMetadata :=
  mkFederationMetadata (narrow_zone (fm_zone self) (fm_zone superior))
    (narrow (fm_capabilities self) (fm_capabilities superior)) (narrow (fm_jurisdictions self) (fm_jurisdictions superior))
    (narrow (fm_data_classes self) (fm_data_classes superior)) (min_opt (fm_max_ttl_secs self) (fm_max_ttl_secs superior))
    (min_opt (fm_max_delegation_depth self) (fm_max_delegation_depth superior)).

Inductive Widening :=
| WidensCapabilities (extra : gset string)
| WidensJurisdictions (extra : gset string)
| WidensDataClasses (extra : gset string)
| WidensTtl (mine theirs : N)
| WidensDepth (mine theirs : N)
| WidensZone (mine theirs : string).

Definition extra_of (w : gset string → Widening) (mine theirs : gset string) : list Widening :=
  if bool_decide (theirs = ∅) then [] else if bool_decide (mine ∖ theirs = ∅) then [] else [w (mine ∖ theirs)].
Definition above (w : N → N → Widening) (mine theirs : option N) : list Widening :=
  match mine, theirs with Some m, Some t => if (t <? m)%N then [w m t] else [] | _, _ => [] end.
Definition outside (mine theirs : option string) : list Widening :=
  match mine, theirs with
  | Some m, Some t =>
    match ZoneId_new m, ZoneId_new t with
    | Ok zm, Ok zt => if contains zt zm then [] else [WidensZone m t]
    | _, _ => []
    end
  | _, _ => []
  end.
Definition widens (self superior : FederationMetadata) : list Widening :=
  extra_of WidensCapabilities (fm_capabilities self) (fm_capabilities superior) ++
  extra_of WidensJurisdictions (fm_jurisdictions self) (fm_jurisdictions superior) ++
  extra_of WidensDataClasses (fm_data_classes self) (fm_data_classes superior) ++
  above WidensTtl (fm_max_ttl_secs self) (fm_max_ttl_secs superior) ++
  above WidensDepth (fm_max_delegation_depth self) (fm_max_delegation_depth superior) ++
  outside (fm_zone self) (fm_zone superior).

(** ** Anchors *)

Record TrustAnchor := mkTrustAnchor {
  ta_entity : string;
  ta_jwks : gmap string string;
  ta_metadata : FederationMetadata;
  ta_verified_at : N;
  ta_reverify_every : N
}.
Class AnchorToml := anchors_from_toml : string → option (list TrustAnchor).

Definition is_stale (a : TrustAnchor) (now : N) : bool :=
  (0 <? ta_reverify_every a)%N && (ta_reverify_every a <? saturating_sub now (ta_verified_at a))%N.
Abbreviation AnchorSet := (list TrustAnchor).
Definition anchor_get (set : AnchorSet) (entity : string) : option TrustAnchor :=
  find (λ a, bool_decide (ta_entity a = entity)) set.
Definition stale (set : AnchorSet) (now : N) : list TrustAnchor := filterb (λ a, is_stale a now) set.

(** A verified federated entity. *)
Record Resolved := mkResolved {
  rs_subject : string;
  rs_jwks : gmap string string;
  rs_metadata : FederationMetadata;
  rs_anchor : string;
  rs_expires_at : N;
  rs_chain_len : N;
  rs_anchor_stale : bool
}.
Record PartnerTerms := mkPartnerTerms {
  pt_zone : ZoneId;
  pt_max_ttl_secs : option N;
  pt_max_delegation_depth : option N;
  pt_jurisdictions : gset string;
  pt_data_classes : gset string
}.
Definition UNCLASSIFIED : ZoneId := mkZoneId "partner.unclassified".
Definition resolved_zone (r : Resolved) : ZoneId :=
  match fm_zone (rs_metadata r) with
  | Some z => match ZoneId_new z with Ok id => id | Err _ => UNCLASSIFIED end
  | None => UNCLASSIFIED
  end.
Definition may_issue (r : Resolved) (now : N) : bool := negb (rs_anchor_stale r) && (now <? rs_expires_at r)%N.
Definition partner_terms (r : Resolved) : PartnerTerms :=
  let zone := resolved_zone r in
  let depth := match fm_max_delegation_depth (rs_metadata r) with Some d => N.min d 1 | None => 1%N end in
  mkPartnerTerms zone (fm_max_ttl_secs (rs_metadata r))
    (Some (N.min depth (if bool_decide (trust_level zone = Internal) then 255%N else 1%N)))
    (fm_jurisdictions (rs_metadata r)) (fm_data_classes (rs_metadata r)).

(** ** Resolution *)

Section Resolve.
Context `{Jose, SerdeParse, StatementSerde}.

Definition add_pem (keys : IssuerKeys) (kid_pem : string * string) : result IssuerKeys :=
  match add_ec_pem keys kid_pem.1 kid_pem.2 ES256 with
  | Ok keys => Ok keys
  | Err _ => map_err (λ _, FEDERATION_CHAIN_INVALID) (add_ed_pem keys kid_pem.1 kid_pem.2)
  end.
Definition keys_of (jwks : gmap string string) : result IssuerKeys := foldR add_pem IssuerKeys_new (map_to_list jwks).
Definition statement_keys (s : EntityStatement) : result IssuerKeys := keys_of (es_jwks s).
Definition anchor_keys (a : TrustAnchor) : result IssuerKeys := keys_of (ta_jwks a).

Fixpoint check_anchors (seen : list string) (anchors : AnchorSet) : result unit :=
  match anchors with
  | [] => Ok tt
  | a :: rest =>
    guard_err (str_in (ta_entity a) seen) CONFIG_INVALID $
    guard_err (bool_decide (ta_jwks a = ∅)) CONFIG_INVALID $
    let? _ := anchor_keys a in
    check_anchors (ta_entity a :: seen) rest
  end.
Definition AnchorSet_parse `{AnchorToml} (text : string) : result AnchorSet :=
  let? set := ok_or (anchors_from_toml text) CONFIG_INVALID in
  let? _ := check_anchors [] set in
  Ok set.

Definition header_of (jws : string) : result Map :=
  let? bytes := ok_or (b64url_decode (default "" (head (split_on dot jws)))) FEDERATION_CHAIN_INVALID in
  ok_or (match from_slice bytes with Some (VObject m) => Some m | _ => None end) FEDERATION_CHAIN_INVALID.
Definition header_text (header : Map) (field : string) : option string := v ← obj_get field header; as_str v.
Definition verify_statement (jws : string) (keys : IssuerKeys) : result EntityStatement :=
  let? header := header_of jws in
  let? alg := ok_or (header_text header "alg") FEDERATION_CHAIN_INVALID in
  guard_err (negb (str_in alg ACCEPTED_ALG_NAMES)) ALG_NOT_ASYMMETRIC $
  let? kid := ok_or (header_text header "kid") FEDERATION_CHAIN_INVALID in
  map_err (λ _, FEDERATION_CHAIN_INVALID) (verify_detached statement_from_value jws kid keys).
Definition peek_iss (jws : string) : result string :=
  let? bytes := ok_or (b64url_decode (default "" (split_on dot jws !! 1%nat))) FEDERATION_CHAIN_INVALID in
  let? value := ok_or (from_slice bytes) FEDERATION_CHAIN_INVALID in
  ok_or (v ← vget "iss" value; as_str v) FEDERATION_CHAIN_INVALID.

(** What one level of the walk leaves for the next. *)
Record Walk := mkWalk { wk_ceiling : FederationMetadata; wk_expires_at : N; wk_expected_sub : option string }.
Definition walk_step (now leeway : N) (w : Walk) (keys : IssuerKeys) (jws : string) : result (EntityStatement * Walk) :=
  let? statement := verify_statement jws keys in
  guard_err (negb (is_current statement now leeway)) FEDERATION_STATEMENT_EXPIRED $
  guard_err (match wk_expected_sub w with
             | Some expected => negb (bool_decide (es_iss statement = expected)) && negb (bool_decide (es_sub statement = expected))
             | None => false
             end) FEDERATION_CHAIN_INVALID $
  guard_err (negb (bool_decide (length (widens (es_metadata statement) (wk_ceiling w)) = 0%nat))) FEDERATION_METADATA_WIDENED $
  Ok (statement, mkWalk (narrowed_by (es_metadata statement) (wk_ceiling w)) (N.min (wk_expires_at w) (es_exp statement))
                   (Some (es_sub statement))).
(** The chain from the anchor's end; the last statement is the leaf's. *)
Fixpoint descend (now leeway : N) (w : Walk) (keys : IssuerKeys) (down : list string) : result (EntityStatement * Walk) :=
  match down with
  | [] => Err FEDERATION_CHAIN_INVALID
  | jws :: rest =>
    let? (statement, w') := walk_step now leeway w keys jws in
    match rest with
    | [] => guard_err (negb (is_self_signed statement)) FEDERATION_CHAIN_INVALID $ Ok (statement, w')
    | _ => let? keys' := statement_keys statement in descend now leeway w' keys' rest
    end
  end.

Definition resolve (chain : list string) (anchors : AnchorSet) (now leeway : N) : result Resolved :=
  match last chain with
  | None => Err FEDERATION_CHAIN_INVALID
  | Some top =>
    guard_err (MAX_CHAIN_LEN <? len chain)%N FEDERATION_CHAIN_INVALID $
    let? iss := peek_iss top in
    let? anchor := ok_or (anchor_get anchors iss) FEDERATION_ANCHOR_UNKNOWN in
    let? keys := anchor_keys anchor in
    let? (leaf, w) := descend now leeway (mkWalk (ta_metadata anchor) u64_max None) keys (rev chain) in
    Ok (mkResolved (es_sub leaf) (es_jwks leaf) (wk_ceiling w) (ta_entity anchor) (wk_expires_at w) (len chain) (is_stale anchor now))
  end.
End Resolve.

(** ** What a resolution establishes *)

(** The sets a superior may bound. *)
Inductive Scope := Capabilities | Jurisdictions | DataClasses.
Definition scope_of (k : Scope) (m : FederationMetadata) : gset string :=
  match k with Capabilities => fm_capabilities m | Jurisdictions => fm_jurisdictions m | DataClasses => fm_data_classes m end.

(** A ceiling named somewhere above bounds the value that comes out. *)
Definition at_most (out named : option N) : Prop := ∀ t, named = Some t → ∃ x, out = Some x ∧ (x ≤ t)%N.
(** The zone a metadata names, if it is one. *)
Definition named_zone (m : FederationMetadata) : option ZoneId :=
  z ← fm_zone m; match ZoneId_new z with Ok id => Some id | Err _ => None end.

Lemma extra_of_nil w mine theirs : extra_of w mine theirs = [] ↔ (theirs ≠ ∅ → mine ⊆ theirs).
Proof.
  unfold extra_of. case_bool_decide as Ht; [split; [done|]; done|]. case_bool_decide as Hm.
  - split; [|done]. intros _ _ x Hx. destruct (decide (x ∈ theirs)); [done|]. assert (x ∈ mine ∖ theirs) as Hd by set_solver.
    rewrite Hm in Hd. set_solver.
  - split; [done|]. intros Hsub. exfalso. apply Hm. apply leibniz_equiv. specialize (Hsub Ht). set_solver.
Qed.
Lemma narrow_within mine theirs : (theirs ≠ ∅ → mine ⊆ theirs) → narrow mine theirs = mine.
Proof. intros Hsub. unfold narrow. case_bool_decide; [done|]. apply leibniz_equiv. specialize (Hsub ltac:(done)). set_solver. Qed.

Lemma narrowed_scope k m c : widens m c = [] →
  scope_of k (narrowed_by m c) = scope_of k m ∧ (scope_of k c ≠ ∅ → scope_of k m ⊆ scope_of k c).
Proof.
  unfold widens. intros (H1 & (H2 & (H3 & _)%app_nil)%app_nil)%app_nil. rewrite extra_of_nil in H1, H2, H3.
  destruct k; cbn [scope_of narrowed_by fm_capabilities fm_jurisdictions fm_data_classes]; (split; [by apply narrow_within|done]).
Qed.
Lemma min_opt_at_most a b : at_most (min_opt a b) a ∧ at_most (min_opt a b) b.
Proof. unfold at_most, min_opt. destruct a, b; split; intros t; try done; intros [= <-]; eexists; (split; [done|]); lia. Qed.
Lemma at_most_trans a b c : at_most a b → at_most b c → at_most a c.
Proof. intros Hab Hbc t Ht. destruct (Hbc t Ht) as (x & Hx & ?). destruct (Hab x Hx) as (y & Hy & ?). exists y. split; [done|lia]. Qed.
Lemma named_zone_Some m id : named_zone m = Some id ↔ ∃ z, fm_zone m = Some z ∧ ZoneId_new z = Ok id.
Proof.
  unfold named_zone. split.
  - intros (z & Hz & Hid)%bind_Some. exists z. split; [done|]. destruct (ZoneId_new z); by simplify_eq.
  - intros (z & -> & Hid). cbn. by rewrite Hid.
Qed.
(** Under a placed superior the placement stays inside it. *)
Lemma narrowed_zone m c t : named_zone c = Some t →
  ∃ z, named_zone (narrowed_by m c) = Some z ∧ contains t z = true.
Proof.
  intros (zt & Ht & Hn)%named_zone_Some. setoid_rewrite named_zone_Some. cbn [narrowed_by fm_zone]. rewrite Ht. unfold narrow_zone.
  destruct (fm_zone m) as [zm|]; [|exists t; split; [by exists zt|apply contains_refl]].
  rewrite Hn. destruct (ZoneId_new zm) as [im|] eqn:Em; [|exists t; split; [by exists zt|apply contains_refl]].
  destruct (contains t im) eqn:Ec; [by exists im; split; [exists zm|]|exists t; split; [by exists zt|apply contains_refl]].
Qed.

Section Sound.
Context `{Jose, SerdeParse, StatementSerde} (now leeway : N).

(** The statement carries a signature that verifies under the named key of [keys], by the
    algorithm that key is held for, and names an asymmetric algorithm itself. *)
Definition signed_under (keys : IssuerKeys) (jws : string) (s : EntityStatement) : Prop :=
  ∃ header alg kid expected key v, header_of jws = Ok header ∧ header_text header "alg" = Some alg ∧ alg ∈ ACCEPTED_ALG_NAMES ∧
    header_text header "kid" = Some kid ∧ keys !! kid = Some (expected, key) ∧ jwt_decode jws key expected = Some v ∧
    statement_from_value v = Some s.
Lemma verify_statement_ok jws keys s : verify_statement jws keys = Ok s → signed_under keys jws s.
Proof.
  unfold verify_statement. intros (h & Hh & Hk)%result_bind_ok. apply result_bind_ok in Hk as (alg & Halg%ok_or_ok & Hk).
  rewrite guard_err_ok, negb_false_iff in Hk. destruct Hk as [Hin Hk]. unfold str_in in Hin. rewrite bool_decide_eq_true in Hin.
  apply result_bind_ok in Hk as (kid & Hkid%ok_or_ok & Hk). destruct (verify_detached _ _ _ _) as [s'|] eqn:Hv; [|done].
  injection Hk as ->. unfold verify_detached in Hv.
  apply result_bind_ok in Hv as (? & _ & Hv). rewrite guard_err_ok in Hv. destruct Hv as [_ Hv].
  apply result_bind_ok in Hv as ([ea key] & Hkey%ok_or_ok & Hv). apply ok_or_ok in Hv.
  destruct (jwt_decode jws key ea) as [v|] eqn:Hd; [|done]. by exists h, alg, kid, ea, key, v.
Qed.

(** The keys the [i]-th statement from the top is judged by: the anchor's, or those the
    statement above it asserts. *)
Definition judged_by (above : IssuerKeys) (ss : list EntityStatement) (i : nat) (keys : IssuerKeys) : Prop :=
  match i with
  | O => keys = above
  | S j => ∃ up, ss !! j = Some up ∧ statement_keys up = Ok keys
  end.
(** It is by or about the subject the statement above it names. *)
Definition follows (expected : option string) (ss : list EntityStatement) (i : nat) (s : EntityStatement) : Prop :=
  match i with
  | O => ∀ e, expected = Some e → es_iss s = e ∨ es_sub s = e
  | S j => ∃ up, ss !! j = Some up ∧ (es_iss s = es_sub up ∨ es_sub s = es_sub up)
  end.
Definition linked (above : IssuerKeys) (expected : option string) (down : list string) (ss : list EntityStatement) : Prop :=
  length ss = length down ∧
  ∀ i jws s, down !! i = Some jws → ss !! i = Some s →
    is_current s now leeway = true ∧ follows expected ss i s ∧ ∃ keys, judged_by above ss i keys ∧ signed_under keys jws s.

(** What the walk below a ceiling keeps. *)
Definition bounded_by (w w' : Walk) (ss : list EntityStatement) (leaf : EntityStatement) : Prop :=
  (wk_expires_at w' ≤ wk_expires_at w)%N ∧ (∀ s, s ∈ ss → (wk_expires_at w' ≤ es_exp s)%N) ∧
  (∀ k, scope_of k (wk_ceiling w') = scope_of k (es_metadata leaf)) ∧
  (∀ k, (∀ s, s ∈ ss → scope_of k (es_metadata s) ≠ ∅) →
     (∀ s, s ∈ ss → scope_of k (es_metadata leaf) ⊆ scope_of k (es_metadata s)) ∧
     (scope_of k (wk_ceiling w) ≠ ∅ → scope_of k (es_metadata leaf) ⊆ scope_of k (wk_ceiling w))) ∧
  (∀ m, m ∈ wk_ceiling w :: (es_metadata <$> ss) →
     at_most (fm_max_ttl_secs (wk_ceiling w')) (fm_max_ttl_secs m) ∧
     at_most (fm_max_delegation_depth (wk_ceiling w')) (fm_max_delegation_depth m)) ∧
  (∀ t, named_zone (wk_ceiling w) = Some t → ∃ z, named_zone (wk_ceiling w') = Some z ∧ contains t z = true).

Lemma walk_step_ok w keys jws s w' : walk_step now leeway w keys jws = Ok (s, w') →
  is_current s now leeway = true ∧ (∀ e, wk_expected_sub w = Some e → es_iss s = e ∨ es_sub s = e) ∧ signed_under keys jws s ∧
  widens (es_metadata s) (wk_ceiling w) = [] ∧
  w' = mkWalk (narrowed_by (es_metadata s) (wk_ceiling w)) (N.min (wk_expires_at w) (es_exp s)) (Some (es_sub s)).
Proof.
  unfold walk_step. intros (s' & Hs%verify_statement_ok & Hk)%result_bind_ok. rewrite !guard_err_ok, !negb_false_iff, bool_decide_eq_true in Hk.
  destruct Hk as (Hc & He & Hw%nil_length_inv & [= <- <-]). split; [done|]. split; [|done]. intros e Hexp. rewrite Hexp in He.
  apply andb_false_iff in He. rewrite !negb_false_iff, !bool_decide_eq_true in He. done.
Qed.

Lemma bounded_step w s w1 w' ss leaf :
  widens (es_metadata s) (wk_ceiling w) = [] →
  w1 = mkWalk (narrowed_by (es_metadata s) (wk_ceiling w)) (N.min (wk_expires_at w) (es_exp s)) (Some (es_sub s)) →
  bounded_by w1 w' ss leaf → bounded_by w w' (s :: ss) leaf.
Proof.
  intros Hw -> (He & Hes & Hk & Hks & Hm & Hz). cbn [wk_expires_at wk_ceiling] in *.
  pose proof (λ k, narrowed_scope k _ _ Hw) as Hn. set (c := narrowed_by (es_metadata s) (wk_ceiling w)) in *.
  assert (∀ k, (∀ x, x ∈ s :: ss → scope_of k (es_metadata x) ≠ ∅) → (∀ x, x ∈ ss → scope_of k (es_metadata leaf) ⊆ scope_of k (es_metadata x)) ∧
    scope_of k (es_metadata leaf) ⊆ scope_of k (es_metadata s)) as Hdown.
  { intros k Hall. destruct (Hks k) as [Hss Hc]; [intros y Hy; apply Hall; by right|]. split; [done|].
    rewrite <-(proj1 (Hn k)). apply Hc. rewrite (proj1 (Hn k)). apply Hall. by left. }
  split; [lia|]. split; [intros y [->|Hy]%elem_of_cons; [lia|by apply Hes]|]. split; [done|]. split; [|split].
  - intros k Hall. destruct (Hdown k Hall) as [Hss Hs]. split; [by intros y [->|Hy]%elem_of_cons; [|by apply Hss]|].
    intros Hne. trans (scope_of k (es_metadata s)); [done|]. by apply Hn.
  - destruct (Hm c ltac:(by left)) as [Ht Hd]. intros m [->|[->|Hx]%elem_of_cons]%elem_of_cons.
    + split; (eapply at_most_trans; [done|]); apply min_opt_at_most.
    + split; (eapply at_most_trans; [done|]); apply min_opt_at_most.
    + apply Hm. by right.
  - intros t (z & Hz1 & Hc)%(narrowed_zone (es_metadata s)). destruct (Hz z Hz1) as (z' & Hz' & Hc'). exists z'. split; [done|].
    by eapply contains_trans.
Qed.
Lemma bounded_leaf w s w1 :
  widens (es_metadata s) (wk_ceiling w) = [] →
  w1 = mkWalk (narrowed_by (es_metadata s) (wk_ceiling w)) (N.min (wk_expires_at w) (es_exp s)) (Some (es_sub s)) → bounded_by w w1 [s] s.
Proof.
  intros Hw ->. eapply bounded_step; [done|done|]. unfold bounded_by. cbn [wk_ceiling wk_expires_at]. split; [done|]. split; [intros y Hy%not_elem_of_nil; done|].
  split; [intros k; by apply narrowed_scope|]. split; [|split].
  - intros k _. split; [intros y Hy%not_elem_of_nil; done|]. intros _. by rewrite (proj1 (narrowed_scope k _ _ Hw)).
  - intros m [->|Hx%not_elem_of_nil]%elem_of_cons; [|done]. by split; intros t ->; exists t.
  - intros t Ht. exists t. split; [done|apply contains_refl].
Qed.

Lemma descend_ok w keys down leaf w' : descend now leeway w keys down = Ok (leaf, w') →
  ∃ ss, linked keys (wk_expected_sub w) down ss ∧ last ss = Some leaf ∧ is_self_signed leaf = true ∧ bounded_by w w' ss leaf.
Proof.
  revert w keys. induction down as [|jws rest IH]; intros w keys; [done|]. cbn [descend].
  intros ([s w1] & (Hc & He & Hs & Hw & Hw1)%walk_step_ok & Hk)%result_bind_ok. destruct rest as [|next rest].
  - rewrite guard_err_ok, negb_false_iff in Hk. destruct Hk as [Hself [= <- <-]]. exists [s]. split; [|split; [done|split; [done|]]].
    2:{ by apply bounded_leaf. }
    split; [done|]. intros [|i] j x; [|done]. intros [= <-] [= <-]. split; [done|]. split; [done|]. by exists keys.
  - apply result_bind_ok in Hk as (keys' & Hkeys & Hk). destruct (IH _ _ Hk) as (ss & [Hlen Hall] & Hlast & Hself & Hb).
    exists (s :: ss). split; [|split; [by destruct ss|split; [done|by eapply bounded_step]]].
    split; [cbn; by rewrite Hlen|]. intros [|i] j x; cbn [lookup]; intros Hj Hx.
    + cbn in Hj, Hx. injection Hj as <-. injection Hx as <-. split; [done|]. split; [done|]. by exists keys.
    + change (ss !! i = Some x) in Hx. destruct (Hall i j x Hj Hx) as (Hcur & Hf & ks & Hjud & Hsig). split; [done|].
      subst w1. cbn [wk_expected_sub] in *. split.
      * destruct i as [|i]; cbn in Hf |- *; [|done]. exists s. split; [done|]. by apply Hf.
      * exists ks. split; [|done]. destruct i as [|i]; cbn in Hjud |- *; [|done]. exists s. by rewrite Hjud.
Qed.

(** C6: what a resolved chain establishes.  Its top statement names a configured anchor and
    verifies under the keys configured for it; every further statement verifies under the keys
    the one above it asserts, is current, and is by or about the subject named above; the last
    is self-signed, and the subject and its keys are that statement's own.  The resolution
    expires with the first of them.  Its lifetime and delegation ceilings are at most any
    ceiling the anchor or a statement names, and under a placed anchor its zone is inside the
    placement.  Of capabilities, jurisdictions and data classes it has exactly those the leaf
    states: these lie within every statement's, and within the anchor's, provided no statement
    of the chain leaves the set out. *)
Theorem resolve_sound chain anchors r :
  resolve chain anchors now leeway = Ok r →
  ∃ top iss anchor keys ss leaf, last chain = Some top ∧ (len chain ≤ MAX_CHAIN_LEN)%N ∧
    peek_iss top = Ok iss ∧ anchor ∈ anchors ∧ ta_entity anchor = iss ∧ anchor_keys anchor = Ok keys ∧
    linked keys None (rev chain) ss ∧ last ss = Some leaf ∧ es_iss leaf = es_sub leaf ∧
    rs_subject r = es_sub leaf ∧ rs_jwks r = es_jwks leaf ∧ rs_anchor r = iss ∧ rs_anchor_stale r = is_stale anchor now ∧
    (∀ s, s ∈ ss → (rs_expires_at r ≤ es_exp s)%N) ∧
    (∀ m, m ∈ ta_metadata anchor :: (es_metadata <$> ss) →
       at_most (pt_max_ttl_secs (partner_terms r)) (fm_max_ttl_secs m) ∧
       at_most (fm_max_delegation_depth (rs_metadata r)) (fm_max_delegation_depth m)) ∧
    at_most (pt_max_delegation_depth (partner_terms r)) (Some 1%N) ∧
    (∀ t, named_zone (ta_metadata anchor) = Some t → contains t (pt_zone (partner_terms r)) = true) ∧
    (∀ k, scope_of k (rs_metadata r) = scope_of k (es_metadata leaf) ∧
       ((∀ s, s ∈ ss → scope_of k (es_metadata s) ≠ ∅) →
        (∀ s, s ∈ ss → scope_of k (rs_metadata r) ⊆ scope_of k (es_metadata s)) ∧
        (scope_of k (ta_metadata anchor) ≠ ∅ → scope_of k (rs_metadata r) ⊆ scope_of k (ta_metadata anchor)))).
Proof.
  unfold resolve. destruct (last chain) as [top|] eqn:Htop; [|done]. rewrite guard_err_ok, N.ltb_ge.
  intros (Hlen & (iss & Hiss & Hk)%result_bind_ok). apply result_bind_ok in Hk as (anchor & Hanchor%ok_or_ok & Hk).
  apply result_bind_ok in Hk as (keys & Hkeys & Hk). apply result_bind_ok in Hk as ([leaf w] & Hd & [= <-]).
  apply find_some in Hanchor as [Hin%list_elem_of_In Hent]. apply bool_decide_eq_true in Hent.
  destruct (descend_ok _ _ _ _ _ Hd) as (ss & Hlink & Hlast & Hself & He & Hes & Hk & Hks & Hm & Hz). cbn [wk_ceiling wk_expected_sub] in *.
  exists top, iss, anchor, keys, ss, leaf. unfold is_self_signed in Hself. apply bool_decide_eq_true in Hself.
  do 9 (split; [done|]). do 4 (split; [done|]). split; [exact Hes|]. split; [exact Hm|]. split.
  { intros t [= <-]. eexists. split; [reflexivity|]. cbn. destruct (fm_max_delegation_depth _); case_bool_decide; lia. }
  split.
  { intros t Ht. destruct (Hz t Ht) as (z & (zs & Hzs & Hzn)%named_zone_Some & Hc). unfold partner_terms, resolved_zone. cbn.
    by rewrite Hzs, Hzn. }
  intros k. cbn [rs_metadata]. split; [apply Hk|]. rewrite Hk. apply Hks.
Qed.
End Sound.

Module FederateExamples.
(** A bank accepts a partner for balances, for an hour; the partner's registrar names no
    capability and no zone. *)
Definition bank : TrustAnchor :=
  mkTrustAnchor "bank" {[ "k" := "kb" ]} (mkFederationMetadata None {[ "balance" ]} ∅ ∅ (Some 3600%N) None) 0 0.
Definition about_partner : EntityStatement :=
  mkEntityStatement "bank" "partner" 0 900 {[ "k" := "kp" ]} FederationMetadata_default [].
Definition partner : EntityStatement :=
  mkEntityStatement "partner" "partner" 0 500 {[ "k" := "other" ]}
    (mkFederationMetadata (Some "internal.core") {[ "transfer" ]} ∅ ∅ None (Some 9%N)) [].

(** A compact form is [h.<iss>.<statement>]; a statement is signed by the key its table row names. *)
Definition statement (jws : string) : option (string * EntityStatement) :=
  match split_on dot jws !! 2%nat with
  | Some "top" => Some ("kb", about_partner)
  | Some "leaf" => Some ("kp", partner)
  | _ => None
  end.
#[export] Instance parse : SerdeParse := λ s,
  if bool_decide (s = "h") then Some (VObject [("alg", VString "ES256"); ("kid", VString "k")]) else Some (VObject [("iss", VString s)]).
Definition no_key (s : string) : option unit := None.
#[export] Instance jose : Jose := {|
  EncodingKey := unit; DecodingKey := string;
  encoding_from_ec_pem := no_key; encoding_from_ed_pem := no_key;
  decoding_from_ec_pem := Some; decoding_from_ed_pem := Some;
  decoding_from_jwk _ := None; jwkset_from_str _ := None; crypto_sign _ _ _ := None;
  b64url_encode := id; b64url_decode := Some;
  header_to_vec _ := ""; decode_header _ := None; payload_to_vec _ := ""; payload_from_value _ := None;
  jwt_decode jws key _ := match statement jws with
                          | Some (signer, _) => if bool_decide (signer = key) then Some (VString jws) else None
                          | None => None
                          end
|}.
#[export] Instance serde : StatementSerde := λ v, jws ← as_str v; snd <$> statement jws.

Definition chain : list string := ["h.partner.leaf"; "h.bank.top"].
Definition resolved : Resolved :=
  mkResolved "partner" {[ "k" := "other" ]}
    (mkFederationMetadata (Some "internal.core") {[ "transfer" ]} ∅ ∅ (Some 3600%N) (Some 9%N)) "bank" 500 2 false.
Lemma resolved_ok : resolve chain [bank] 100 60 = Ok resolved.
Proof. vm_compute. reflexivity. Qed.

Lemma resolve_sound_witness :
  resolve chain [bank] 100 60 = Ok resolved ∧ at_most (pt_max_delegation_depth (partner_terms resolved)) (Some 1%N) ∧
  ∃ leaf, rs_subject resolved = es_sub leaf ∧ es_iss leaf = es_sub leaf.
Proof.
  split; [exact resolved_ok|].
  destruct (resolve_sound 100 60 chain [bank] resolved resolved_ok) as
    (top & iss & a & keys & ss & leaf & _ & _ & _ & _ & _ & _ & _ & _ & Hself & Hsub & _ & _ & _ & _ & _ & Hd & _).
  split; [exact Hd|]. exists leaf. split; [exact Hsub|exact Hself].
Defined.

(** A superior that leaves a set out lifts the set above it: the partner is resolved for
    transfers under an anchor that permits balances only. *)
Lemma silent_superior_lifts_ceiling :
  resolve chain [bank] 100 60 = Ok resolved ∧ fm_capabilities (ta_metadata bank) = {[ "balance" ]} ∧
  "transfer" ∈ fm_capabilities (rs_metadata resolved).
Proof. split; [exact resolved_ok|]. split; [done|]. cbn. set_solver. Qed.
(** Under superiors that place nobody, a partner places itself in an internal zone. *)
Lemma unplaced_partner_is_internal :
  resolve chain [bank] 100 60 = Ok resolved ∧ fm_zone (ta_metadata bank) = None ∧ trust_level (pt_zone (partner_terms resolved)) = Internal.
Proof. split; [exact resolved_ok|]. split; [done|]. vm_compute. reflexivity. Qed.
(** The keys that come out are the leaf's own statement's, not those vouched for above it. *)
Lemma resolved_keys_unvouched :
  resolve chain [bank] 100 60 = Ok resolved ∧ es_jwks about_partner = {[ "k" := "kp" ]} ∧ rs_jwks resolved = {[ "k" := "other" ]}.
Proof. by split; [exact resolved_ok|]. Qed.
End FederateExamples.
