(* ===== verification/Broker.v ===== *)
(** * Broker: mediated capability discovery ([crates/wc-control/src/broker.rs], and
    [discover_cmd] of the command line)

    An asker learns who offers a capability it could be connected to.  The estate is a hash
    map, whose values come in no particular order: candidates are the values of a [gmap], and
    the answer is sorted.  The Unicode tables behind [char::is_alphanumeric] and
    [str::to_lowercase] are the parameter [CharTables].  A [Duration] is its nanoseconds;
    waiting is not modelled. *)

From S2P Require Import Prelude Window Text Errors Model Canon Contract Artifact Store Std Policy.

(** ** Capability keys *)

Definition STOP_WORDS : list string :=
  ["a"; "an"; "and"; "by"; "for"; "from"; "in"; "of"; "on"; "or"; "the"; "to"; "with"; "get";
   "set"; "do"; "make"; "run"; "mcp"; "api"; "v1"; "v2"; "tool"; "tools"; "service"].

Record CapKey := mkCapKey { key_str : string }.
#[global] Instance CapKey_eq_dec : EqDecision CapKey.
Proof. solve_decision. Defined.

(** [str::split] on a test of the character. *)
Fixpoint split_chars (p : N → bool) (l : list N) : list (list N) :=
  match l with
  | [] => [[]]
  | c :: l =>
    if p c then [] :: split_chars p l
    else match split_chars p l with
         | w :: ws => (c :: w) :: ws
         | [] => [[c]]
         end
  end.

Definition key_empty (k : CapKey) : bool := bool_decide (key_str k = "").
Definition tokens (k : CapKey) : list string := filterb (λ t, negb (bool_decide (t = ""))) (split_on dot (key_str k)).
Definition satisfies (k query : CapKey) : bool := negb (key_empty query) && forallb (λ t, str_in t (tokens k)) (tokens query).

Section Keys.
Context `{CharTables}.

(** One token of [CapKey::normalise]: the parts so far, in order, are also the ones seen. *)
Definition normalise_token (parts : list string) (token : string) : list string :=
  let lower := to_lowercase token in
  if str_in lower STOP_WORDS || (str_len lower <? 2)%N then parts else if str_in lower parts then parts else parts ++ [lower].
Definition raw_tokens (text : string) : list string :=
  filterb (λ t, negb (bool_decide (t = ""))) (map from_chars (split_chars (λ c, negb (is_alphanumeric c)) (chars text))).
Definition normalise (text : string) : CapKey := mkCapKey (join "." (foldl normalise_token [] (raw_tokens text))).

Definition item_names (e : Entity) : list string := (map_to_list (pin_items (ent_pin e))).*1.
Definition capability_keys (e : Entity) : list CapKey :=
  mkCapKey <$> sort_dedup (key_str <$> filterb (λ k, negb (key_empty k))
    (map normalise (item_names e ++ match ent_service e with Some s => [s] | None => [] end ++ ent_data_classes e))).
End Keys.

(** ** Budgets *)

Record DiscoveryLimits := mkDiscoveryLimits {
  dl_per_minute : N;
  dl_per_day : N;
  dl_max_matches : N;
  dl_latency_floor_ms : N
}.
Definition DiscoveryLimits_default : DiscoveryLimits := mkDiscoveryLimits 30 300 20 25.
Definition validate_limits (l : DiscoveryLimits) : result unit :=
  guard_err ((dl_per_minute l =? 0)%N || (dl_per_day l =? 0)%N) CONFIG_INVALID $
  guard_err (dl_per_day l <? dl_per_minute l)%N CONFIG_INVALID $
  guard_err (dl_max_matches l =? 0)%N CONFIG_INVALID $
  Ok tt.

Record Spend := mkSpend { sp_minute : N; sp_in_minute : N; sp_day : N; sp_in_day : N }.
Definition Spend_default : Spend := mkSpend 0 0 0 0.
Abbreviation Throttle := (gmap string Spend).
Definition Throttle_new : Throttle := ∅.

(** The counters brought to the minute and the day of [now]. *)
Definition roll (s : Spend) (now : N) : Spend :=
  mkSpend (now / 60) (if (sp_minute s =? now / 60)%N then sp_in_minute s else 0)
    (now / 86400) (if (sp_day s =? now / 86400)%N then sp_in_day s else 0).
Definition charge (t : Throttle) (asker : EntityId) (limits : DiscoveryLimits) (now : N) : Throttle * bool :=
  let s := roll (default Spend_default (t !! entity_str asker)) now in
  if (dl_per_minute limits <=? sp_in_minute s)%N || (dl_per_day limits <=? sp_in_day s)%N
  then (<[entity_str asker := s]> t, false)
  else (<[entity_str asker := mkSpend (sp_minute s) (sp_in_minute s + 1) (sp_day s) (sp_in_day s + 1)]> t, true).

(** ** Padding *)

Record Padded := mkPadded { pd_elapsed : N; pd_added : N; pd_exceeded : bool }.
Definition Padding_new (floor_ms : N) : N := floor_ms * 1000000.
Definition pad_plan (floor elapsed : N) : Padded :=
  if (floor <=? elapsed)%N then mkPadded elapsed 0 true else mkPadded elapsed (floor - elapsed) false.

(** ** Queries *)

Record Query := mkQuery { qu_capability : string; qu_jurisdiction : option string; qu_data_class : option string }.
Record CapabilitySummary := mkCapabilitySummary {
  cs_entity : string;
  cs_capability : string;
  cs_tier : N;
  cs_zone : string;
  cs_owner : string;
  cs_service : option string;
  cs_likely_decision : string
}.
#[global] Instance CapabilitySummary_eq_dec : EqDecision CapabilitySummary.
Proof. solve_decision. Defined.
Record DiscoverResult := mkDiscoverResult { dr_matches : list CapabilitySummary; dr_truncated : bool; dr_considered : N }.
Record BrokerCtx := mkBrokerCtx {
  bc_projection : Projection;
  bc_policy : ConnectPolicy;
  bc_standing : StandingState;
  bc_limits : DiscoveryLimits;
  bc_now : N
}.

(** The widest request for a candidate, and what policy makes of it; [None] is never. *)
Definition widest_request (asker candidate : Entity) : ConnRequest :=
  mkConnRequest (mkSurface (sort_strings ((map_to_list (pin_items (ent_pin candidate))).*1)) [] [])
    (mkTerms (ent_data_classes candidate) (ent_jurisdictions candidate) None None None None Delegation_default EvidenceTerms_default false false)
    86400 "" (ent_owner asker).
Definition eligibility (asker candidate : Entity) (policy : ConnectPolicy) (standing : StandingState) (now : N) : option string :=
  match evaluate policy (widest_request asker candidate) asker candidate standing now with
  | Ok ev =>
    match ce_decision ev with
    | Allow => Some "auto-approve"
    | RequireApproval => Some (match ce_approver_role ev with Some role => "needs " +:+ role | None => "needs approval" end)
    | Deny => None
    end
  | Err _ => None
  end.

Definition named_in (wanted : option string) (l : list string) : bool :=
  match wanted with Some w => existsb (λ x, eq_ignore_ascii_case x w) l | None => true end.

(** By risk tier, then by name. *)
Definition summary_le (a b : CapabilitySummary) : Prop :=
  (cs_tier a < cs_tier b)%N ∨ cs_tier a = cs_tier b ∧ String.le (cs_entity a) (cs_entity b).
#[global] Instance summary_le_dec : RelDecision summary_le.
Proof. intros a b. unfold summary_le. apply _. Defined.

Section Discover.
Context `{CharTables}.

(** The capability under which an entity is a candidate. *)
Definition candidate (query : Query) (asker : EntityId) (e : Entity) : option CapKey :=
  if bool_decide (ent_id e = asker) || negb (bool_decide (ent_lifecycle e = Active)) then None
  else if negb (named_in (qu_jurisdiction query) (ent_jurisdictions e)) then None
  else if negb (named_in (qu_data_class query) (ent_data_classes e)) then None
  else find (λ k, satisfies k (normalise (qu_capability query))) (capability_keys e).
Definition summary (ctx : BrokerCtx) (asking : Entity) (e : Entity) (k : CapKey) : option CapabilitySummary :=
  (λ d, mkCapabilitySummary (entity_str (ent_id e)) (key_str k) (tier_u8 (ent_tier e)) (zone_str (ent_zone e))
          (human_str (ent_owner e)) (ent_service e) d) <$> eligibility asking e (bc_policy ctx) (bc_standing ctx) (bc_now ctx).

(** Candidates, those eligible shaped, in order, cut at the cap. *)
Definition answer (query : Query) (asker : EntityId) (asking : Entity) (ctx : BrokerCtx) : DiscoverResult :=
  let candidates := omap (λ e, (λ k, (e, k)) <$> candidate query asker e) ((map_to_list (pr_entities (bc_projection ctx))).*2) in
  let matches := merge_sort summary_le (omap (λ c, summary ctx asking c.1 c.2) candidates) in
  mkDiscoverResult (take (N.to_nat (dl_max_matches (bc_limits ctx))) matches)
    (dl_max_matches (bc_limits ctx) <? len matches)%N (len candidates).

Definition discover (query : Query) (asker : EntityId) (ctx : BrokerCtx) : stateR Throttle DiscoverResult Code := λ throttle,
  match pr_entities (bc_projection ctx) !! asker with
  | None => (throttle, Err ASKER_NOT_ATTESTED)
  | Some asking =>
    if negb (bool_decide (ent_lifecycle asking = Active)) || bool_decide (ent_posture asking = Quarantined)
    then (throttle, Err ASKER_NOT_ATTESTED)
    else
      let '(throttle, granted) := charge throttle asker (bc_limits ctx) (bc_now ctx) in
      (throttle, Ok (
        if negb granted then mkDiscoverResult [] true 0
        else if key_empty (normalise (qu_capability query)) then mkDiscoverResult [] false 0
        else answer query asker asking ctx))
  end.

(** [connect discover]: the throttle is made for the one query. *)
Definition discover_command (query : Query) (asker : EntityId) (ctx : BrokerCtx) (limit : option N) : result DiscoverResult :=
  let limits := mkDiscoveryLimits 30 300 (N.min (default 20%N limit) 1000) 25 in
  let? _ := validate_limits limits in
  (discover query asker (mkBrokerCtx (bc_projection ctx) (bc_policy ctx) (bc_standing ctx) limits (bc_now ctx)) Throttle_new).2.
End Discover.

(** ** What an answer tells *)

Lemma omap_omap {A B C} (f : A → option B) (g : B → option C) (l : list A) : omap g (omap f l) = omap (λ x, y ← f x; g y) l.
Proof. induction l as [|x l IH]; [done|]. cbn. destruct (f x); cbn; [|done]. destruct (g b); cbn; by rewrite IH. Qed.
(** An [omap] that keeps a label of what it keeps. *)
Lemma omap_labels {A B K} (f : A → option B) (g : A → K) (h : B → K) (l : list A) :
  (∀ x y, f x = Some y → h y = g x) → sublist (h <$> omap f l) (g <$> l).
Proof.
  intros Hf. induction l as [|x l IH]; [constructor|]. cbn. destruct (f x) as [y|] eqn:E; cbn; [|by constructor].
  rewrite (Hf _ _ E). by constructor.
Qed.

#[global] Instance summary_le_total : Total summary_le.
Proof.
  intros a b. unfold summary_le. destruct (N.lt_trichotomy (cs_tier a) (cs_tier b)) as [|[|]]; [by left; left| |by right; left].
  destruct (total String.le (cs_entity a) (cs_entity b)); [left|right]; right; done.
Qed.
#[global] Instance summary_le_trans : Transitive summary_le.
Proof.
  intros a b c. unfold summary_le. intros [?|[E ?]] [?|[E' ?]]; [left; lia|left; lia|left; lia|].
  right. split; [congruence|]. by trans (cs_entity b).
Qed.
Lemma summary_le_antisym a b : summary_le a b → summary_le b a → cs_entity a = cs_entity b.
Proof. unfold summary_le. intros [?|[E ?]] [?|[E' ?]]; [lia..|]. by apply (anti_symm String.le). Qed.

Lemma NoDup_label {A K} (f : A → K) (l : list A) x y : NoDup (f <$> l) → x ∈ l → y ∈ l → f x = f y → x = y.
Proof.
  intros Hn [i Hi]%list_elem_of_lookup_1 [j Hj]%list_elem_of_lookup_1 Hf.
  assert (i = j) as ->; [|congruence]. apply (NoDup_lookup _ _ _ (f x) Hn); rewrite list_lookup_fmap; [by rewrite Hi|by rewrite Hj, Hf].
Qed.
(** Answers that name each entity once are determined by what is in them, not by the order
    the estate was read in. *)
Lemma sort_matches_ext l l' :
  NoDup (cs_entity <$> l) → NoDup (cs_entity <$> l') → (∀ m, m ∈ l ↔ m ∈ l') → merge_sort summary_le l = merge_sort summary_le l'.
Proof.
  intros Hl Hl' Hin. assert (l ≡ₚ l') as Hp by (apply NoDup_Permutation; [by eapply NoDup_fmap_1..|done]).
  apply (StronglySorted_unique_strong summary_le).
  - intros x y. rewrite !merge_sort_Permutation. intros Hx Hy Hxy Hyx. apply (NoDup_label cs_entity l); [done|done|by apply Hin|].
    by apply summary_le_antisym.
  - apply StronglySorted_merge_sort; apply _.
  - apply StronglySorted_merge_sort; apply _.
  - by rewrite !merge_sort_Permutation.
Qed.

Section Answers.
Context `{CharTables}.

(** What an asker may learn of one entity. *)
Definition visible (query : Query) (asker : EntityId) (ctx : BrokerCtx) (asking e : Entity) : option CapabilitySummary :=
  k ← candidate query asker e; summary ctx asking e k.

(** A party is in an asker's reach when it is active and policy, asked for everything the
    party declares, does not refuse. *)
Definition in_reach (ctx : BrokerCtx) (asking e : Entity) : Prop :=
  ent_lifecycle e = Active ∧
  ∃ ev, evaluate (bc_policy ctx) (widest_request asking e) asking e (bc_standing ctx) (bc_now ctx) = Ok ev ∧ ce_decision ev ≠ Deny.

(** Two estates that look alike to an asker: the same about itself, under the same policy, and
    with the same parties in its reach.  Whoever is out of reach may be missing from the one,
    or registered there as something else. *)
Record looks_alike (asker : EntityId) (c c' : BrokerCtx) : Prop := mkAlike {
  la_self : pr_entities (bc_projection c) !! asker = pr_entities (bc_projection c') !! asker;
  la_terms : bc_policy c = bc_policy c' ∧ bc_standing c = bc_standing c' ∧ bc_limits c = bc_limits c' ∧ bc_now c = bc_now c';
  la_reach id asking e :
    pr_entities (bc_projection c) !! asker = Some asking → in_reach c asking e →
    pr_entities (bc_projection c) !! id = Some e ↔ pr_entities (bc_projection c') !! id = Some e
}.
Lemma in_reach_alike asker c c' asking e : looks_alike asker c c' → in_reach c asking e ↔ in_reach c' asking e.
Proof. intros [_ (Hp & Hs & _ & Hn) _]. unfold in_reach. by rewrite Hp, Hs, Hn. Qed.
#[global] Instance looks_alike_equiv asker : Equivalence (looks_alike asker).
Proof.
  split.
  - intros c. by split.
  - intros c c' Ha. pose proof Ha as [Hs (? & ? & ? & ?) Hr]. split; [done|done|]. intros id asking e Hself Hin.
    symmetry. apply (Hr id asking); [by rewrite Hs|]. by apply (in_reach_alike _ _ _ _ _ Ha).
  - intros c c' c'' Ha Ha'. pose proof Ha as [Hs (? & ? & ? & ?) Hr]. pose proof Ha' as [Hs' (? & ? & ? & ?) Hr'].
    split; [congruence|repeat split; congruence|]. intros id asking e Hself Hin. rewrite (Hr id asking e) by done.
    apply (Hr' id asking); [by rewrite <-Hs|]. by apply (in_reach_alike _ _ _ _ _ Ha).
Qed.

(** Only what is in reach is visible, and what is visible of it depends on nothing else. *)
Lemma visible_in_reach query asker ctx asking e s : visible query asker ctx asking e = Some s → in_reach ctx asking e.
Proof.
  unfold visible, candidate, summary, eligibility, in_reach. intros (k & Hk & Hs)%bind_Some.
  destruct (bool_decide (ent_id e = asker) || _) eqn:El; [done|]. bool_facts. split; [done|].
  destruct (evaluate _ _ _ _ _ _) as [ev|]; [|done]. exists ev. split; [done|]. by destruct (ce_decision ev).
Qed.
Lemma visible_alike query asker ctx ctx' asking e : looks_alike asker ctx ctx' →
  visible query asker ctx asking e = visible query asker ctx' asking e.
Proof. intros [_ (Hp & Hs & _ & Hn) _]. unfold visible, summary. by rewrite Hp, Hs, Hn. Qed.

Lemma visible_entity query asker ctx asking e s : visible query asker ctx asking e = Some s → cs_entity s = entity_str (ent_id e).
Proof. unfold visible, summary. intros (k & _ & Hs)%bind_Some. destruct (eligibility _ _ _ _ _); [|done]. by injection Hs as <-. Qed.

Definition filed_entities (p : Projection) : Prop := ∀ id e, pr_entities p !! id = Some e → ent_id e = id.
Lemma values_ids p : filed_entities p → ent_id <$> (map_to_list (pr_entities p)).*2 = (map_to_list (pr_entities p)).*1.
Proof.
  intros Hf. rewrite <-list_fmap_compose. apply list_fmap_ext. intros i [id e] He%list_elem_of_lookup_2%elem_of_map_to_list. by apply Hf.
Qed.
Lemma elem_of_estate p e : filed_entities p → e ∈ (map_to_list (pr_entities p)).*2 ↔ pr_entities p !! ent_id e = Some e.
Proof.
  intros Hf. rewrite list_elem_of_fmap. split.
  - intros ([id x] & -> & Hx%elem_of_map_to_list). cbn. by rewrite (Hf _ _ Hx).
  - intros He. exists (ent_id e, e). split; [done|]. by apply elem_of_map_to_list.
Qed.
Lemma visible_once query asker ctx asking :
  filed_entities (bc_projection ctx) →
  NoDup (cs_entity <$> omap (visible query asker ctx asking) ((map_to_list (pr_entities (bc_projection ctx))).*2)).
Proof.
  intros Hf. eapply sublist_NoDup; [|by apply (omap_labels _ (λ e, entity_str (ent_id e))), visible_entity].
  rewrite (list_fmap_compose ent_id entity_str), values_ids by done. apply NoDup_fmap_2; [|apply NoDup_fst_map_to_list].
  intros [a] [b]. by intros [= ->].
Qed.
Lemma elem_of_visible query asker ctx asking s :
  filed_entities (bc_projection ctx) →
  s ∈ omap (visible query asker ctx asking) ((map_to_list (pr_entities (bc_projection ctx))).*2) ↔
  ∃ id, pr_entities (bc_projection ctx) !! id ≫= visible query asker ctx asking = Some s.
Proof.
  intros Hf. rewrite list_elem_of_omap. split.
  - intros (e & He & Hs). apply (elem_of_estate _ e Hf) in He. exists (ent_id e). by rewrite He.
  - intros (id & (e & He & Hs)%bind_Some). exists e. split; [|done]. apply (elem_of_estate _ e Hf). by rewrite (Hf _ _ He).
Qed.

(** The answer: all that is visible, by tier and name, cut at the cap. *)
Definition all_visible (query : Query) (asker : EntityId) (ctx : BrokerCtx) (asking : Entity) : list CapabilitySummary :=
  merge_sort summary_le (omap (visible query asker ctx asking) ((map_to_list (pr_entities (bc_projection ctx))).*2)).
Lemma answer_eq query asker asking ctx :
  dr_matches (answer query asker asking ctx) = take (N.to_nat (dl_max_matches (bc_limits ctx))) (all_visible query asker ctx asking) ∧
  dr_truncated (answer query asker asking ctx) = (dl_max_matches (bc_limits ctx) <? len (all_visible query asker ctx asking))%N.
Proof.
  unfold answer, all_visible. cbn [dr_matches dr_truncated]. rewrite omap_omap.
  assert (∀ l, omap (λ x, y ← (λ k, (x, k)) <$> candidate query asker x; summary ctx asking y.1 y.2) l = omap (visible query asker ctx asking) l) as ->.
  { intros l. induction l as [|e l IH]; [done|]. cbn. rewrite IH. unfold visible. by destruct (candidate query asker e). }
  done.
Qed.
Lemma alike_visible query asker ctx ctx' asking :
  filed_entities (bc_projection ctx) → filed_entities (bc_projection ctx') → looks_alike asker ctx ctx' →
  pr_entities (bc_projection ctx) !! asker = Some asking → all_visible query asker ctx asking = all_visible query asker ctx' asking.
Proof.
  intros Hf Hf' Ha Hself. apply sort_matches_ext; [by apply visible_once..|]. intros m. rewrite !elem_of_visible by done.
  split; intros (id & (e & He & Hv)%bind_Some); exists id; apply bind_Some; exists e.
  - split; [|by rewrite <-(visible_alike _ _ _ _ _ _ Ha)]. by apply (la_reach _ _ _ Ha id asking e Hself), He; eapply visible_in_reach.
  - rewrite <-(visible_alike _ _ _ _ _ _ Ha) in Hv. split; [|done].
    by apply (la_reach _ _ _ Ha id asking e Hself), He; eapply visible_in_reach.
Qed.

(** The asker is registered, active and not quarantined. *)
Definition may_ask (p : Projection) (asker : EntityId) : Prop :=
  ∃ e, pr_entities p !! asker = Some e ∧ ent_lifecycle e = Active ∧ ent_posture e ≠ Quarantined.
Lemma all_visible_sorted query asker ctx asking : StronglySorted summary_le (all_visible query asker ctx asking).
Proof. apply StronglySorted_merge_sort; apply _. Qed.
Lemma take_least {A} (R : A → A → Prop) n (l : list A) x y : StronglySorted R l → x ∈ take n l → y ∈ drop n l → R x y.
Proof.
  intros Hs Hx Hy. rewrite <-(take_drop n l) in Hs. by eapply StronglySorted_app_1_elem_of.
Qed.

(** An answer that gives, in order, what comes first of what may be shown. *)
Definition shown (query : Query) (asker : EntityId) (ctx : BrokerCtx) (asking : Entity) (s : CapabilitySummary) : Prop :=
  ∃ id e, pr_entities (bc_projection ctx) !! id = Some e ∧ visible query asker ctx asking e = Some s.
Definition gives_first (query : Query) (asker : EntityId) (ctx : BrokerCtx) (asking : Entity) (a : DiscoverResult) : Prop :=
  (len (dr_matches a) ≤ dl_max_matches (bc_limits ctx))%N ∧ StronglySorted summary_le (dr_matches a) ∧
  (∀ s, s ∈ dr_matches a → shown query asker ctx asking s) ∧
  (∀ s s', s ∈ dr_matches a → shown query asker ctx asking s' → s' ∉ dr_matches a → summary_le s s').
Lemma gives_none query asker ctx asking cut n : gives_first query asker ctx asking (mkDiscoverResult [] cut n).
Proof.
  split; [apply N.le_0_l|]. split; [constructor|]. split; [intros s Hs|intros s s' Hs]; by apply not_elem_of_nil in Hs.
Qed.
Lemma answer_gives_first query asker ctx asking :
  filed_entities (bc_projection ctx) →
  gives_first query asker ctx asking (answer query asker asking ctx) ∧
  (dr_truncated (answer query asker asking ctx) = false →
   ∀ s, shown query asker ctx asking s → s ∈ dr_matches (answer query asker asking ctx)).
Proof.
  intros Hf. unfold gives_first. destruct (answer_eq query asker asking ctx) as [-> ->]. set (all := all_visible query asker ctx asking). set (n := N.to_nat _).
  assert (∀ s, s ∈ all ↔ shown query asker ctx asking s) as Hall.
  { intros s. unfold all, all_visible, shown. rewrite merge_sort_Permutation, elem_of_visible by done.
    split; [intros (id & (e & ? & ?)%bind_Some); by exists id, e|intros (id & e & He & ?); exists id; by rewrite He]. }
  pose proof (all_visible_sorted query asker ctx asking) as Hsorted. fold all in Hsorted. split; [split; [|split; [|split]]|].
  - unfold len. rewrite length_take. lia.
  - rewrite <-(take_drop n all) in Hsorted. by eapply StronglySorted_app_1_l.
  - intros s [i [Hi _]]%elem_of_take. apply Hall. by eapply list_elem_of_lookup_2.
  - intros s s' Hs Hs'%Hall Hnot. eapply take_least; [exact Hsorted|exact Hs|]. rewrite <-(take_drop n all), elem_of_app in Hs'. tauto.
  - intros Hle%N.ltb_ge s Hs%Hall. rewrite take_ge; [done|]. unfold len in Hle. lia.
Qed.

(** Empty and cut short is what an asker over budget gets, and nobody else. *)
Lemma over_budget_answer query asker ctx throttle t a :
  (1 ≤ dl_max_matches (bc_limits ctx))%N → discover query asker ctx throttle = (t, Ok a) →
  dr_matches a = [] ∧ dr_truncated a = true ↔ (charge throttle asker (bc_limits ctx) (bc_now ctx)).2 = false.
Proof.
  intros Hcap. unfold discover. destruct (pr_entities (bc_projection ctx) !! asker) as [asking|]; [|done]. destruct (_ || _); [done|].
  destruct (charge _ _ _ _) as [t' granted]. cbn [snd]. intros [= _ <-]. destruct granted; cbn [negb]; [|done].
  split; [|done]. destruct (key_empty _); [by intros [_ ?]|].
  destruct (answer_eq query asker asking ctx) as [-> ->].
  intros [Hnil Hlt%N.ltb_lt]. apply (f_equal length) in Hnil. rewrite length_take in Hnil. unfold len in Hlt. cbn in Hnil. lia.
Qed.

(** What discovery answers.  Only a registered, active, unquarantined asker is answered;
    the answer is empty and cut short exactly when the asker's budget is spent; otherwise it
    holds, by tier and name, the first of the matching active entities that policy would
    connect the asker to for everything they declare -- all of them unless it says it was cut
    short, and then none of those left out comes before one given. *)
Theorem discover_exact query asker ctx throttle t r :
  filed_entities (bc_projection ctx) → (1 ≤ dl_max_matches (bc_limits ctx))%N → discover query asker ctx throttle = (t, r) →
  (r = Err ASKER_NOT_ATTESTED ↔ ¬ may_ask (bc_projection ctx) asker) ∧
  (∀ e, r = Err e → e = ASKER_NOT_ATTESTED ∧ t = throttle) ∧
  ∀ a, r = Ok a → t = (charge throttle asker (bc_limits ctx) (bc_now ctx)).1 ∧
    (dr_matches a = [] ∧ dr_truncated a = true ↔ (charge throttle asker (bc_limits ctx) (bc_now ctx)).2 = false) ∧
    ∃ asking, pr_entities (bc_projection ctx) !! asker = Some asking ∧ gives_first query asker ctx asking a ∧
      (key_empty (normalise (qu_capability query)) = false → dr_truncated a = false →
       ∀ s, shown query asker ctx asking s → s ∈ dr_matches a).
Proof.
  intros Hf Hcap Hd. pose proof (λ a, over_budget_answer query asker ctx throttle t a Hcap) as Hover. rewrite Hd in Hover.
  revert Hd. unfold discover, may_ask. destruct (pr_entities (bc_projection ctx) !! asker) as [asking|] eqn:Ha.
  2:{ intros [= <- <-]. split; [split; [by intros _ (? & ? & _)|done]|]. by split; [intros e [= <-]|]. }
  destruct (_ || _) eqn:Eatt.
  { intros [= <- <-]. split; [split; [intros _ (? & [= <-] & Hl & Hq)|done]|by split; [intros e [= <-]|]].
    rewrite Hl, (bool_decide_eq_false_2 _ Hq), bool_decide_eq_true_2 in Eatt by done. done. }
  bool_facts. destruct (charge _ _ _ _) as [t' granted] eqn:Ech. cbn [fst snd]. intros [= <- <-].
  split; [split; [by destruct granted, (key_empty _)|intros []; by exists asking]|]. split; [done|]. intros a [= <-]. split; [done|].
  split; [by apply Hover|]. exists asking. split; [done|]. destruct granted; cbn [negb]; [|by split; [apply gives_none|]].
  destruct (key_empty _) eqn:Ekey; [by split; [apply gives_none|]|]. destruct (answer_gives_first query asker ctx asking Hf) as [Hgood Hfull]. by split.
Qed.

(** C28: discovery hides whom the asker could not connect to.  Two estates with the same
    parties in the asker's reach -- active, and not refused to it by policy when asked for
    everything they declare -- give it the same answer, truncation and refusals included, and
    leave its budget alike: a party policy refuses it may be in the one, and missing or
    another in the other.  The count of candidates is for operators and not part of the answer. *)
Theorem discover_hides query asker ctx ctx' throttle :
  filed_entities (bc_projection ctx) → filed_entities (bc_projection ctx') → looks_alike asker ctx ctx' →
  (discover query asker ctx throttle).1 = (discover query asker ctx' throttle).1 ∧
  match (discover query asker ctx throttle).2, (discover query asker ctx' throttle).2 with
  | Ok r, Ok r' => dr_matches r = dr_matches r' ∧ dr_truncated r = dr_truncated r'
  | Err e, Err e' => e = e'
  | _, _ => False
  end.
Proof.
  intros Hf Hf' Halike. pose proof Halike as [Hself (_ & _ & Hlim & Hnow) _]. unfold discover. rewrite <-Hself, <-Hlim, <-Hnow.
  destruct (pr_entities (bc_projection ctx) !! asker) as [asking|] eqn:Ha; [|done].
  destruct (_ || _); [done|]. destruct (charge _ _ _ _) as [t granted]. split; [done|]. cbn [snd].
  destruct granted; cbn [negb]; [|done]. destruct (key_empty _); [done|].
  destruct (answer_eq query asker asking ctx) as [-> ->]. destruct (answer_eq query asker asking ctx') as [-> ->].
  by rewrite (alike_visible _ _ _ _ _ Hf Hf' Halike Ha), Hlim.
Qed.
End Answers.

(** ** Budgets hold *)

Definition charge_at (limits : DiscoveryLimits) (t : Throttle) (asker : string) (now : N) : Throttle * bool :=
  charge t (mkEntityId asker) limits now.
Lemma charge_other limits t asker k now : k ≠ asker → (charge_at limits t asker now).1 !! k = t !! k.
Proof. intros Hk. unfold charge_at, charge. destruct (_ || _); cbn [fst entity_str]; by rewrite lookup_insert_ne. Qed.
#[global] Instance minute_window limits :
  FixedWindow Spend_default 60 (dl_per_minute limits) sp_minute sp_in_minute (charge_at limits).
Proof.
  split; [|intros; by apply charge_other]. intros t asker now. unfold charge_at, charge, counter. cbn [entity_str].
  destruct (_ || _) eqn:E; cbn [fst snd]; rewrite lookup_insert_eq; cbn [from_option id].
  - split; [reflexivity|]. split; [reflexivity|done].
  - apply orb_false_iff in E as [Em%N.leb_gt Ed%N.leb_gt]. split; [reflexivity|]. split; [reflexivity|]. intros _. assumption.
Qed.
#[global] Instance day_window limits :
  FixedWindow Spend_default 86400 (dl_per_day limits) sp_day sp_in_day (charge_at limits).
Proof.
  split; [|intros; by apply charge_other]. intros t asker now. unfold charge_at, charge, counter. cbn [entity_str].
  destruct (_ || _) eqn:E; cbn [fst snd]; rewrite lookup_insert_eq; cbn [from_option id].
  - split; [reflexivity|]. split; [reflexivity|done].
  - apply orb_false_iff in E as [Em%N.leb_gt Ed%N.leb_gt]. split; [reflexivity|]. split; [reflexivity|]. intros _. assumption.
Qed.

(** A budget is never overspent.  Charges made in the order of the clock, by any askers
    interleaved, from a fresh throttle: of one asker no more are granted in any minute than
    the limit of a minute, and in any day than the limit of a day. *)
Theorem throttle_bounds limits events asker :
  in_order events →
  (∀ m, (len (filterb (in_window 60 asker m) (granted (charge_at limits) Throttle_new events)) ≤ dl_per_minute limits)%N) ∧
  (∀ d, (len (filterb (in_window 86400 asker d) (granted (charge_at limits) Throttle_new events)) ≤ dl_per_day limits)%N).
Proof.
  intros Hs. unfold Throttle_new. split; intros w.
  - etrans; [apply (granted_bounded Spend_default 60 (dl_per_minute limits) sp_minute sp_in_minute (charge_at limits)); [exact Hs|]|by apply left_in_empty].
    intros e _. by apply behind_empty.
  - etrans; [apply (granted_bounded Spend_default 86400 (dl_per_day limits) sp_day sp_in_day (charge_at limits)); [exact Hs|]|by apply left_in_empty].
    intros e _. by apply behind_empty.
Qed.

(** A fresh throttle grants the first query. *)
Lemma fresh_charge asker limits now : (0 < dl_per_minute limits)%N → (0 < dl_per_day limits)%N → (charge Throttle_new asker limits now).2 = true.
Proof.
  intros Hm Hd. unfold charge, Throttle_new. rewrite lookup_empty. cbn [from_option id].
  assert (∀ c : bool, (if c then 0 else 0)%N = 0%N) as E by by intros []. unfold roll. cbn [sp_minute sp_in_minute sp_day sp_in_day Spend_default].
  rewrite !E. rewrite (proj2 (N.leb_gt _ _) Hm), (proj2 (N.leb_gt _ _) Hd). done.
Qed.
(** [connect discover] makes its throttle anew: no query of it is ever over budget. *)
Lemma command_unthrottled `{CharTables} query asker ctx limit r :
  filed_entities (bc_projection ctx) → discover_command query asker ctx limit = Ok r → ¬ (dr_matches r = [] ∧ dr_truncated r = true).
Proof.
  intros Hf. unfold discover_command. intros (? & Hv & Hk)%result_bind_ok. unfold validate_limits in Hv. rewrite !guard_err_ok in Hv.
  destruct Hv as (_ & _ & Hcap%N.eqb_neq & _). destruct (discover _ _ _ _) as [t o] eqn:Hd. cbn in Hk. subst o.
  apply over_budget_answer in Hd as Hover; [|by apply N.neq_0_lt_0 in Hcap; cbn in *; lia].
  rewrite Hover. by rewrite fresh_charge.
Qed.

Module BrokerExamples.
Import PolicyExamples.
#[export] Instance ascii_tables : CharTables := {| is_alphanumeric := is_ascii_alphanumeric; to_lowercase s := s |}.

(** The agent may ask for the ledger; nothing is permitted with the vault. *)
Definition guarded : ConnectPolicy :=
  mkConnectPolicy Deny "v1" [internal; pay] [] false false
    [mkConnRule None (Some "public*") None None None None None None Deny None false None None None false; reads] StandingLimits_default.
Definition vault : Entity := party "spiffe://acme/vault" "public.ads" {["read" := "sha256:r"]}.
Definition estate : gmap EntityId Entity := {[ ent_id agent := agent; ent_id ledger := ledger ]}.
Definition with_vault : gmap EntityId Entity := <[ent_id vault := vault]> estate.
Definition ctx_of (p : ConnectPolicy) (m : gmap EntityId Entity) : BrokerCtx :=
  mkBrokerCtx (with_entities Projection_default m) p (mkStandingState 0 0 0) DiscoveryLimits_default 100.
Definition reading : Query := mkQuery "read" None None.
Definition found : CapabilitySummary :=
  mkCapabilitySummary "spiffe://acme/ledger" "read" 3 "internal.pay" "pat@acme" None "needs approval".
Lemma filed_estate p m : forallb (λ x, bool_decide (ent_id x.2 = x.1)) (map_to_list m) = true → filed_entities (bc_projection (ctx_of p m)).
Proof.
  intros Hall. rewrite forallb_forall in Hall. intros id e He. cbn in He. apply elem_of_map_to_list, list_elem_of_In in He. specialize (Hall _ He).
  by apply bool_decide_eq_true in Hall.
Qed.
Lemma answered : (discover reading (ent_id agent) (ctx_of guarded with_vault) Throttle_new).2 = Ok (mkDiscoverResult [found] false 2).
Proof. vm_compute. reflexivity. Qed.
Lemma vault_unseen : looks_alike (ent_id agent) (ctx_of guarded with_vault) (ctx_of guarded estate).
Proof.
  split; [vm_compute; reflexivity|done|]. intros id asking e Ha Hreach. vm_compute in Ha. injection Ha as <-.
  cbn [bc_projection ctx_of with_entities pr_entities]. unfold with_vault. destruct (decide (id = ent_id vault)) as [->|Hne].
  - rewrite lookup_insert_eq. assert (estate !! ent_id vault = None) as -> by (vm_compute; reflexivity). split; [|done].
    intros [= <-]. exfalso. destruct Hreach as (_ & ev & Hev & Hd). apply Hd. vm_compute in Hev. by injection Hev as <-.
  - by rewrite lookup_insert_ne.
Qed.
Lemma discover_hides_witness :
  (discover reading (ent_id agent) (ctx_of guarded with_vault) Throttle_new).2 = Ok (mkDiscoverResult [found] false 2) ∧
  (discover reading (ent_id agent) (ctx_of guarded with_vault) Throttle_new).1 =
  (discover reading (ent_id agent) (ctx_of guarded estate) Throttle_new).1.
Proof.
  split; [exact answered|].
  refine (proj1 (discover_hides reading (ent_id agent) (ctx_of guarded with_vault) (ctx_of guarded estate) Throttle_new _ _ vault_unseen));
    apply filed_estate; vm_compute; reflexivity.
Defined.
Lemma discover_exact_witness :
  found ∈ dr_matches (mkDiscoverResult [found] false 2) ∧
  ∃ asking, shown reading (ent_id agent) (ctx_of guarded with_vault) asking found.
Proof.
  split; [apply list_elem_of_here|].
  assert (discover reading (ent_id agent) (ctx_of guarded with_vault) Throttle_new =
    ((discover reading (ent_id agent) (ctx_of guarded with_vault) Throttle_new).1, Ok (mkDiscoverResult [found] false 2))) as Hd.
  { rewrite <-answered. apply surjective_pairing. }
  assert (filed_entities (bc_projection (ctx_of guarded with_vault))) as Hf by (apply filed_estate; vm_compute; reflexivity).
  assert (1 ≤ dl_max_matches (bc_limits (ctx_of guarded with_vault)))%N as Hc by (vm_compute; discriminate).
  destruct (discover_exact reading (ent_id agent) (ctx_of guarded with_vault) Throttle_new _ _ Hf Hc Hd) as (_ & _ & Hok).
  destruct (Hok _ eq_refl) as (_ & _ & asking & _ & (_ & _ & Hshown & _) & _). exists asking. apply Hshown. apply list_elem_of_here.
Defined.
Definition tight : DiscoveryLimits := mkDiscoveryLimits 1 2 20 25.
Lemma throttle_bounds_witness :
  granted (charge_at tight) Throttle_new [("a", 3); ("a", 9); ("a", 70); ("a", 130)]%N = [("a", 3); ("a", 70)]%N ∧
  (len (filterb (in_window 60 "a" 0) (granted (charge_at tight) Throttle_new [("a", 3); ("a", 9); ("a", 70); ("a", 130)]%N)) ≤ 1)%N.
Proof.
  split; [vm_compute; reflexivity|].
  refine (proj1 (throttle_bounds tight _ "a" _) 0%N).
  repeat first [apply SSorted_nil|apply SSorted_cons|apply Forall_nil_2|apply Forall_cons_2]; vm_compute; discriminate.
Defined.

(** Eligibility asks for everything a candidate declares: one the asker may read from is
    hidden where policy refuses the writes it also offers. *)
Definition no_writes : ConnectPolicy :=
  mkConnectPolicy RequireApproval "v1" [internal] [] false false
    [mkConnRule None None None None (Some (mkSurfaceMatch (Some true) None)) None None None Deny None false None None None false] StandingLimits_default.
Definition journal : Entity := party "spiffe://acme/journal" "internal.pay" {["read" := "sha256:r"; "write" := "sha256:w"]}.
Lemma readable_is_hidden :
  (discover reading (ent_id agent) (ctx_of no_writes {[ ent_id agent := agent; ent_id journal := journal ]}) Throttle_new).2 =
    Ok (mkDiscoverResult [] false 1) ∧
  ce_decision <$> (match evaluate no_writes ask agent journal (mkStandingState 0 0 0) 100 with Ok ev => Some ev | Err _ => None end) =
    Some RequireApproval.
Proof. split; vm_compute; reflexivity. Qed.
End BrokerExamples.
