(* ===== verification/Assure.v ===== *)
(** * Assure: re-attestation schedule, drift and posture ([crates/wc-control/src/assurance.rs])

    The schedule is a priority queue and a limiter per endpoint; drift is the new surface held
    against the pin and what is contracted on it; the posture score is a sum of deductions.
    A [BinaryHeap<Reverse<Task>>] is its tasks in the order it gives them back.  SHA-256 over
    bytes is the parameter [RawDigest].  Why a drift is what it is, and why points were
    deducted, are inductive types in place of prose. *)

From Stdlib Require Import ZArith.
From Stdlib Require Import Floats.SpecFloat.
From S2P Require Import Prelude Window Rekor Text Errors Model Json Contract Std Store.

(** ** Configuration *)

Record AssuranceCfg := mkAssuranceCfg {
  ac_workers : N;
  ac_reattest_every : gmap N N;
  ac_jitter : spec_float;
  ac_per_endpoint_per_minute : N;
  ac_benign_burst : N;
  ac_benign_window : N;
  ac_expiry_warnings : list N;
  ac_attested_at : N
}.
(** 0.1 *)
Definition AssuranceCfg_default : AssuranceCfg :=
  mkAssuranceCfg 8 ∅ (f64_of_decimal false 1 (-1)) 4 3 (7 * 86400) [30 * 86400; 7 * 86400; 86400]%N 85.

Definition check_interval (_ : unit) (e : N * N) : result unit :=
  let? _ := Tier_new e.1 in guard_err (e.2 =? 0)%N CONFIG_INVALID $ Ok tt.
(** Each interval is checked by itself, and the first that fails decides: they are read in the order of the tiers. *)
Definition tier_le (a b : N * N) : Prop := (a.1 ≤ b.1)%N.
#[global] Instance tier_le_dec : RelDecision tier_le.
Proof. intros a b. unfold tier_le. apply _. Defined.
Definition tiers_in_order (m : gmap N N) : list (N * N) := merge_sort tier_le (map_to_list m).
Definition validate_cfg (c : AssuranceCfg) : result unit :=
  guard_err (ac_workers c =? 0)%N CONFIG_INVALID $
  guard_err (negb (SFleb (f64_of_Z 0) (ac_jitter c) && SFltb (ac_jitter c) (f64_of_decimal false 5 (-1)))) CONFIG_INVALID $
  guard_err (ac_per_endpoint_per_minute c =? 0)%N CONFIG_INVALID $
  guard_err (ac_attested_at c =? 0)%N CONFIG_INVALID $
  foldR check_interval tt (tiers_in_order (ac_reattest_every c)).

Definition base_interval (c : AssuranceCfg) (tier : Tier) : N :=
  default (reattest_interval_secs tier) (ac_reattest_every c !! tier_u8 tier).
Definition interval_for (c : AssuranceCfg) (tier : Tier) (benign_drifts : N) : N :=
  let base := base_interval c tier in
  if (ac_benign_burst c <? benign_drifts)%N then N.max (base / 2) 60 else base.

(** ** Jitter *)

Definition i64_max : Z := 9223372036854775807.
(** [f64::round] and [as i64]: half away from zero, saturating. *)
Definition round_magnitude (m : positive) (e : Z) : Z :=
  if (0 <=? e)%Z then (Z.pos m * 2 ^ e)%Z else ((2 * Z.pos m + 2 ^ (- e)) / (2 * 2 ^ (- e)))%Z.
Definition f64_round_as_i64 (f : spec_float) : Z :=
  match f with
  | S754_zero _ | S754_nan => 0%Z
  | S754_infinity s => if s then (- i64_max - 1)%Z else i64_max
  | S754_finite s m e =>
    if s then Z.max (- i64_max - 1) (- round_magnitude m e) else Z.min i64_max (round_magnitude m e)
  end.

Section Jitter.
Context `{RawDigest}.

Definition first_16 (digest : string) : Z :=
  match bytes digest with
  | a :: b :: _ => Z.lor (Z.shiftl (Z.of_N a) 8) (Z.of_N b)
  | _ => 0%Z
  end.
Definition jitter_span (interval : N) (fraction : spec_float) : Z :=
  f64_round_as_i64 (SFmul 53 1024 (f64_of_N interval) fraction).
Definition jitter_offset (id : EntityId) (interval : N) (fraction : spec_float) : Z :=
  if (interval =? 0)%N || SFleb fraction (f64_of_Z 0) then 0%Z
  else
    let span := jitter_span interval fraction in
    if (span =? 0)%Z then 0%Z else (Z.quot (first_16 (sha256_bytes (entity_str id)) * (2 * span)) 65535 - span)%Z.
End Jitter.

(** ** Tasks *)

Inductive TaskKind := Reattest | ExpiryWarn (secs : N) | CredExpiry | PostureRescore | FederationRefresh.
#[global] Instance TaskKind_eq_dec : EqDecision TaskKind.
Proof. solve_decision. Defined.
Record Task := mkTask { tk_due_at : N; tk_kind : TaskKind; tk_target : EntityId; tk_endpoint : option string }.
#[global] Instance Task_eq_dec : EqDecision Task.
Proof. solve_decision. Defined.

(** The derived order: by due time, then kind, then target, then endpoint. *)
Definition kind_rank (k : TaskKind) : N * N :=
  match k with Reattest => (0, 0) | ExpiryWarn s => (1, s) | CredExpiry => (2, 0) | PostureRescore => (3, 0) | FederationRefresh => (4, 0) end%N.
Definition endpoint_le (a b : option string) : Prop :=
  match a, b with None, _ => True | Some _, None => False | Some x, Some y => String.le x y end.
Definition then_by (lt eq rest : Prop) : Prop := lt ∨ eq ∧ rest.
Definition task_le (a b : Task) : Prop :=
  then_by (tk_due_at a < tk_due_at b)%N (tk_due_at a = tk_due_at b) $
  then_by ((kind_rank (tk_kind a)).1 < (kind_rank (tk_kind b)).1)%N ((kind_rank (tk_kind a)).1 = (kind_rank (tk_kind b)).1) $
  then_by ((kind_rank (tk_kind a)).2 < (kind_rank (tk_kind b)).2)%N ((kind_rank (tk_kind a)).2 = (kind_rank (tk_kind b)).2) $
  then_by (String.le (entity_str (tk_target a)) (entity_str (tk_target b)) ∧ tk_target a ≠ tk_target b) (tk_target a = tk_target b) $
  endpoint_le (tk_endpoint a) (tk_endpoint b).
#[global] Instance task_le_dec : RelDecision task_le.
Proof. intros a b. unfold task_le, then_by, endpoint_le. destruct (tk_endpoint a), (tk_endpoint b); apply _. Defined.

Inductive Deferral := EndpointRateLimited (endpoint : string) (started : N) | TickBudget.
Record Deferred := mkDeferred { df_task : Task; df_reason : Deferral }.
Record TickReport := mkTickReport { tr_due : list Task; tr_deferred : list Deferred; tr_pending : N; tr_workers : N }.
Definition is_clean (r : TickReport) : bool := bool_decide (length (tr_deferred r) = 0%nat).

(** ** The scheduler *)

Abbreviation Windows := (gmap string (N * N)).
Record Scheduler := mkScheduler { sc_cfg : AssuranceCfg; sc_queue : list Task; sc_windows : Windows }.
Definition Scheduler_new (cfg : AssuranceCfg) : result Scheduler := let? _ := validate_cfg cfg in Ok (mkScheduler cfg [] ∅).

(** [BinaryHeap::push]: the queue is kept in the order it is popped. *)
Fixpoint heap_push (t : Task) (q : list Task) : list Task :=
  match q with
  | [] => [t]
  | x :: q' => if decide (task_le t x) then t :: q else x :: heap_push t q'
  end.
Definition push (s : Scheduler) (t : Task) : Scheduler := mkScheduler (sc_cfg s) (heap_push t (sc_queue s)) (sc_windows s).

Definition saturating_add_signed (a : N) (b : Z) : N := Z.to_N (Z.min (Z.of_N u64_max) (Z.of_N a + b)).
Definition reattest_task (e : Entity) (due_at : N) : Task := mkTask due_at Reattest (ent_id e) (ent_endpoint e).
Definition schedule_reattest `{RawDigest} (s : Scheduler) (e : Entity) (benign_drifts now : N) : Scheduler :=
  let interval := interval_for (sc_cfg s) (ent_tier e) benign_drifts in
  let offset := jitter_offset (ent_id e) interval (ac_jitter (sc_cfg s)) in
  let base := N.max (ent_reattested_at e) now in
  push s (reattest_task e (saturating_add_signed (saturating_add_u64 base interval) offset)).
Definition is_due (e : Entity) (now : N) : bool := bool_decide (ent_lifecycle e = Active) && reattest_overdue e now.
Definition enqueue_due (s : Scheduler) (proj : Projection) (now : N) : Scheduler * N :=
  let due := filterb (λ e, is_due e now) ((map_to_list (pr_entities proj)).*2) in
  (foldl (λ s e, push s (reattest_task e now)) s due, len due).

(** [None]: the slot is taken; [Some started]: the window is full. *)
Definition take_slot (cap : N) (w : Windows) (endpoint : option string) (now : N) : Windows * option N :=
  match endpoint with
  | None => (w, None)
  | Some e =>
    let window := (now / 60)%N in
    let entry := default (window, 0)%N (w !! e) in
    let entry := if (entry.1 =? window)%N then entry else (window, 0)%N in
    if (cap <=? entry.2)%N then (<[e := entry]> w, Some entry.2) else (<[e := (entry.1, entry.2 + 1)%N]> w, None)
  end.

(** The loop of a tick: what is due, what is held back, and the tasks not yet due. *)
Fixpoint tick_loop (cap now budget : N) (w : Windows) (q : list Task) (due : list Task) (deferred : list Deferred)
    : Windows * list Task * list Deferred * list Task :=
  match q with
  | [] => (w, due, deferred, [])
  | task :: rest =>
    if (now <? tk_due_at task)%N then (w, due, deferred, q)
    else if (budget <=? len due)%N then tick_loop cap now budget w rest due (deferred ++ [mkDeferred task TickBudget])
    else
      match take_slot cap w (tk_endpoint task) now with
      | (w, None) => tick_loop cap now budget w rest (due ++ [task]) deferred
      | (w, Some started) =>
        tick_loop cap now budget w rest due
          (deferred ++ [mkDeferred task (EndpointRateLimited (default "" (tk_endpoint task)) started)])
      end
  end.
Definition tick (s : Scheduler) (now budget : N) : Scheduler * TickReport :=
  let '(w, due, deferred, rest) := tick_loop (ac_per_endpoint_per_minute (sc_cfg s)) now budget (sc_windows s) (sc_queue s) [] [] in
  let queue := foldl (λ q d, heap_push (df_task d) q) rest deferred in
  (mkScheduler (sc_cfg s) queue w,
   mkTickReport due deferred (len queue - len deferred) (ac_workers (sc_cfg s))).

(** ** Drift *)

Inductive Contracted := Known (items : list string) | Unknown.
Definition from_contracts (contracts : list ContractRecord) : Contracted :=
  Known (sort_dedup (flat_map (λ c, Surface_items (rec_surface c)) contracts)).
Definition is_contracted (c : Contracted) (item : string) : bool := match c with Known set => str_in item set | Unknown => true end.

Record DriftInputs := mkDriftInputs {
  di_old : Pin;
  di_new : Pin;
  di_contracted : Contracted;
  di_endpoint_changed : bool;
  di_identity_ok : option bool;
  di_card_ok : option bool;
  di_provenance_ok : option bool;
  di_screening_blocked : bool
}.
Inductive DriftClass := DriftNone | Benign | Material.
#[global] Instance DriftClass_eq_dec : EqDecision DriftClass.
Proof. solve_decision. Defined.
Inductive DriftReason :=
| ContractedRemoved (items : list string)
| ContractedChanged (items : list string)
| EndpointChanged
| IdentityLost
| CardLost
| ProvenanceLost
| ScreeningBlocked
| ContractedUnresolved
| ManifestOnly
| Uncontracted (added removed changed : list string).
Record DriftVerdict := mkDriftVerdict {
  dv_class : DriftClass;
  dv_diff : PinDiff;
  dv_contracted_removed : list string;
  dv_contracted_changed : list string;
  dv_reasons : list DriftReason;
  dv_auto_repin : bool
}.
Definition suspends (v : DriftVerdict) : bool := bool_decide (dv_class v = Material).

Definition when (b : bool) (r : DriftReason) : list DriftReason := if b then [r] else [].
Definition lost (o : option bool) : bool := bool_decide (o = Some false).
Definition material_reasons (i : DriftInputs) (diff : PinDiff) (removed changed : list string) : list DriftReason :=
  when (negb (bool_decide (removed = []))) (ContractedRemoved removed) ++
  when (negb (bool_decide (changed = []))) (ContractedChanged changed) ++
  when (di_endpoint_changed i) EndpointChanged ++
  when (lost (di_identity_ok i)) IdentityLost ++
  when (lost (di_card_ok i)) CardLost ++
  when (lost (di_provenance_ok i)) ProvenanceLost ++
  when (di_screening_blocked i) ScreeningBlocked ++
  when (match di_contracted i with Unknown => negb (PinDiff_is_empty diff) | Known _ => false end) ContractedUnresolved.
Definition classify_drift (i : DriftInputs) : DriftVerdict :=
  let diff := Pin_diff (di_old i) (di_new i) in
  let removed := filterb (is_contracted (di_contracted i)) (diff_removed diff) in
  let changed := filterb (is_contracted (di_contracted i)) (diff_changed diff) in
  let reasons := material_reasons i diff removed changed in
  let '(class, reasons) :=
    match reasons with
    | _ :: _ => (Material, reasons)
    | [] =>
      if PinDiff_is_empty diff then
        if bool_decide (pin_manifest (di_old i) = pin_manifest (di_new i)) then (DriftNone, [])
        else (Benign, [ManifestOnly])
      else (Benign, [Uncontracted (diff_added diff) (diff_removed diff) (diff_changed diff)])
    end in
  mkDriftVerdict class diff removed changed reasons (negb (bool_decide (class = Material))).
Definition contracts_to_suspend (manifest : string) (proj : Projection) : list string :=
  sort_strings (cid_str <$> elements (default ∅ (pr_by_pin proj !! manifest))).

(** ** Posture *)

Record Signals := mkSignals {
  sg_identity_ok : option bool;
  sg_provenance_ok : option bool;
  sg_open_material_drift : bool;
  sg_benign_drifts : N;
  sg_intervals_overdue : N;
  sg_owner_orphaned : bool;
  sg_credential_expires_in : option Z;
  sg_denied_percentile : option N;
  sg_screening_flags : N
}.
Definition Signals_default : Signals := mkSignals None None false 0 0 false None None 0.
Inductive DeductionReason :=
| IdentityNeverVerified | IdentityUnverifiable | ProvenanceNeverVerified | ProvenanceUnverifiable | OpenMaterialDrift
| BenignDrifts (n : N) | Restless | OverdueOne | OverdueThree | OwnerOrphaned | CredentialExpired | CredentialExpiring
| DeniedRate (p : N) | ScreeningFlags (n : N).
Record Deduction := mkDeduction { dd_points : N; dd_reason : DeductionReason }.
Record PostureScore := mkPostureScore { ps_score : N; ps_state : Posture; ps_deductions : list Deduction; ps_unattested : bool }.

Definition deduct (points : N) (reason : DeductionReason) : list Deduction :=
  if (0 <? points)%N then [mkDeduction points reason] else [].
Definition verified (o : option bool) : bool := bool_decide (o = Some true).
Definition u32_max : N := 4294967295.
Definition deductions (s : Signals) (cfg : AssuranceCfg) : list Deduction :=
  (if verified (sg_identity_ok s) then []
   else deduct 30 (if bool_decide (sg_identity_ok s = None) then IdentityNeverVerified else IdentityUnverifiable)) ++
  (if verified (sg_provenance_ok s) then []
   else deduct 25 (if bool_decide (sg_provenance_ok s = None) then ProvenanceNeverVerified else ProvenanceUnverifiable)) ++
  (if sg_open_material_drift s then deduct 20 OpenMaterialDrift else []) ++
  (if (0 <? sg_benign_drifts s)%N
   then deduct (N.min (N.min u32_max (8 * sg_benign_drifts s)) 24) (BenignDrifts (sg_benign_drifts s)) ++
        (if (ac_benign_burst cfg <? sg_benign_drifts s)%N then deduct 10 Restless else [])
   else []) ++
  (if (sg_intervals_overdue s =? 0)%N then []
   else if (sg_intervals_overdue s <=? 3)%N then deduct 15 OverdueOne else deduct 30 OverdueThree) ++
  (if sg_owner_orphaned s then deduct 20 OwnerOrphaned else []) ++
  match sg_credential_expires_in s with
  | Some secs => if (secs <=? 0)%Z then deduct 25 CredentialExpired
                 else if (secs <=? 7 * 86400)%Z then deduct 10 CredentialExpiring else []
  | None => []
  end ++
  match sg_denied_percentile s with Some p => deduct (N.min (2 * p / 10) 20) (DeniedRate p) | None => [] end ++
  (if (0 <? sg_screening_flags s)%N
   then deduct (N.min (N.min u32_max (5 * sg_screening_flags s)) 15) (ScreeningFlags (sg_screening_flags s)) else []).
Definition total_points (l : list Deduction) : N := foldr (λ d n, dd_points d + n)%N 0%N l.
Definition score (e : Entity) (s : Signals) (cfg : AssuranceCfg) : PostureScore :=
  let l := deductions s cfg in
  let points := N.min (saturating_sub 100 (total_points l)) 100 in
  let unattested := negb (verified (sg_identity_ok s)) || negb (verified (sg_provenance_ok s)) in
  mkPostureScore points
    (if bool_decide (ent_posture e = Quarantined) then Quarantined
     else if unattested then Unattested
     else if (ac_attested_at cfg <=? points)%N then Attested else Degraded)
    l unattested.

(** [connect posture --score]: the signals the deployment observes. *)
Definition observed_signals (e : Entity) (now : N) : Signals :=
  let attested := bool_decide (ent_posture e = Attested) in
  let intervals := if (ent_reattest_every e =? 0)%N || (ent_reattested_at e =? 0)%N then 0%N
                   else N.min (saturating_sub (saturating_sub now (ent_reattested_at e) / ent_reattest_every e) 1) u32_max in
  mkSignals (if attested then Some true else None) (if attested then Some true else None) false 0 intervals false None None 0.

(** ** Lemmas: the queue *)

Lemma then_by_N_trans (f : Task → N) (R : Task → Task → Prop) :
  Transitive R → Transitive (λ a b, then_by (f a < f b)%N (f a = f b) (R a b)).
Proof.
  unfold then_by. intros HR a b c [?|[E ?]] [?|[E' ?]]; [left; lia..|]. right. split; [congruence|]. by eapply HR.
Qed.
Lemma then_by_N_total (f : Task → N) (R : Task → Task → Prop) :
  Total R → Total (λ a b, then_by (f a < f b)%N (f a = f b) (R a b)).
Proof.
  unfold then_by. intros HR a b. destruct (N.lt_trichotomy (f a) (f b)) as [?|[E|?]]; [by left; left| |by right; left].
  destruct (HR a b); [left|right]; by right.
Qed.
Lemma endpoint_le_trans : Transitive endpoint_le.
Proof. intros [x|] [y|] [z|]; cbn; try done. intros ??. by trans y. Qed.
Lemma endpoint_le_total : Total endpoint_le.
Proof. intros [x|] [y|]; cbn; [|by auto..]. apply (total String.le). Qed.

Definition target_le (a b : Task) : Prop :=
  then_by (String.le (entity_str (tk_target a)) (entity_str (tk_target b)) ∧ tk_target a ≠ tk_target b) (tk_target a = tk_target b)
    (endpoint_le (tk_endpoint a) (tk_endpoint b)).
Lemma entity_le_antisym a b : String.le (entity_str a) (entity_str b) → String.le (entity_str b) (entity_str a) → a = b.
Proof. intros H1 H2. destruct a, b. cbn in *. f_equal. by apply (anti_symm String.le). Qed.
Lemma target_le_trans : Transitive target_le.
Proof.
  unfold target_le, then_by. intros a b c [[L N]|[E R]] [[L' N']|[E' R']].
  - left. split; [by trans (entity_str (tk_target b))|]. intros Hac. apply N, entity_le_antisym; [done|]. by rewrite Hac.
  - left. by rewrite <-E'.
  - left. by rewrite E.
  - right. split; [congruence|]. by eapply endpoint_le_trans.
Qed.
Lemma target_le_total : Total target_le.
Proof.
  unfold target_le, then_by. intros a b. destruct (decide (tk_target a = tk_target b)) as [E|Hne].
  - destruct (endpoint_le_total (tk_endpoint a) (tk_endpoint b)); [left|right]; right; by split.
  - destruct (total String.le (entity_str (tk_target a)) (entity_str (tk_target b))); [left|right]; left; split; congruence.
Qed.
#[global] Instance task_le_trans : Transitive task_le.
Proof. exact (then_by_N_trans tk_due_at _ (then_by_N_trans _ _ (then_by_N_trans _ _ target_le_trans))). Qed.
#[global] Instance task_le_total : Total task_le.
Proof. exact (then_by_N_total tk_due_at _ (then_by_N_total _ _ (then_by_N_total _ _ target_le_total))). Qed.
Lemma task_le_due a b : task_le a b → (tk_due_at a ≤ tk_due_at b)%N.
Proof. unfold task_le, then_by. intros [?|[-> _]]; lia. Qed.

Lemma heap_push_perm t q : heap_push t q ≡ₚ t :: q.
Proof. induction q as [|x q IH]; [done|]. cbn. case_decide; [done|]. rewrite IH. apply Permutation_swap. Qed.
Lemma heap_push_sorted t q : StronglySorted task_le q → StronglySorted task_le (heap_push t q).
Proof.
  induction 1 as [|x q Hs IH Hall]; cbn; [repeat constructor|]. case_decide as Hle.
  - constructor; [by constructor|]. constructor; [done|]. eapply Forall_impl; [done|]. intros y Hy. by trans x.
  - constructor; [done|]. rewrite heap_push_perm. constructor; [|done]. by destruct (total task_le t x).
Qed.
Lemma push_all_perm (ts q : list Task) : foldl (λ q t, heap_push t q) q ts ≡ₚ ts ++ q.
Proof.
  revert q. induction ts as [|t ts IH]; intros q; [done|]. cbn. rewrite IH, heap_push_perm. by rewrite Permutation_middle.
Qed.
Lemma push_all_sorted (ts q : list Task) : StronglySorted task_le q → StronglySorted task_le (foldl (λ q t, heap_push t q) q ts).
Proof. revert q. induction ts as [|t ts IH]; intros q Hq; [done|]. cbn. by apply IH, heap_push_sorted. Qed.

(** ** Endpoint limits *)

Definition slot_at (cap : N) (w : Windows) (endpoint : string) (now : N) : Windows * bool :=
  let r := take_slot cap w (Some endpoint) now in (r.1, bool_decide (r.2 = None)).
#[global] Instance slot_window cap : FixedWindow (0, 0)%N 60 cap fst snd (slot_at cap).
Proof.
  split.
  - intros w e now. unfold slot_at, take_slot, counter, rolled.
    assert (∀ o : option (N * N), (let entry := default (now / 60, 0)%N o in if (entry.1 =? now / 60)%N then entry else (now / 60, 0)%N) =
      (now / 60, if ((default (0, 0)%N o).1 =? now / 60)%N then (default (0, 0)%N o).2 else 0)%N) as Hentry.
    { intros [[c u]|]; cbn [from_option id fst snd]; [destruct (N.eqb_spec c (now / 60)); by subst|]. rewrite N.eqb_refl. by repeat case_match. }
    cbv zeta in *. rewrite Hentry. cbn [fst snd]. destruct (_ <=? _)%N eqn:E; cbn [fst snd]; rewrite lookup_insert_eq; cbn [from_option id fst snd].
    + done.
    + split; [done|]. split; [done|]. intros _. by apply N.leb_gt.
  - intros w e k now Hk. unfold slot_at, take_slot. destruct (_ <=? _)%N; cbn [fst]; by rewrite lookup_insert_ne.
Qed.

Notation slots_behind w now := (behind (0, 0)%N 60 fst w now).
Notation slots_left cap w e m := (left_in (0, 0)%N cap fst snd w e m).
(** A task started at [now] that counts against [e] in minute [m]. *)
Definition against (e : string) (m now : N) (t : Task) : bool := bool_decide (tk_endpoint t = Some e) && (now / 60 =? m)%N.

Lemma take_slot_behind cap w o now : slots_behind w now → slots_behind (take_slot cap w o now).1 now.
Proof. intros Hb. destruct o as [e|]; [|done]. exact (attempt_behind (0, 0)%N 60 cap fst snd (slot_at cap) w e now Hb). Qed.
Lemma take_slot_left cap w t now e m : slots_behind w now →
  ((if bool_decide ((take_slot cap w (tk_endpoint t) now).2 = None) && against e m now t then 1 else 0) +
   slots_left cap (take_slot cap w (tk_endpoint t) now).1 e m ≤ slots_left cap w e m)%N.
Proof.
  intros Hb. unfold against. destruct (tk_endpoint t) as [x|]; [|rewrite (bool_decide_eq_false_2 (None = Some e)) by done; cbn [andb]; rewrite andb_false_r; done].
  pose proof (attempt_left (0, 0)%N 60 cap fst snd (slot_at cap) w e x m now Hb) as Hl. unfold slot_at, counts in Hl. cbn [fst snd] in Hl.
  assert (bool_decide (Some x = Some e) = bool_decide (x = e)) as -> by by apply bool_decide_ext; split; congruence. exact Hl.
Qed.

(** ** One tick *)

Section TickLoop.
Context (cap now budget : N).

(** Why a task was held back, when [n] had been started. *)
Definition held_rightly (d : Deferred) (n : N) : Prop :=
  match df_reason d with
  | TickBudget => (budget ≤ n)%N
  | EndpointRateLimited e started => tk_endpoint (df_task d) = Some e ∧ (cap ≤ started)%N
  end.

Lemma take_slot_full w o w' started : take_slot cap w o now = (w', Some started) → ∃ e, o = Some e ∧ (cap ≤ started)%N.
Proof. destruct o as [e|]; [|done]. cbn. destruct (_ <=? _)%N eqn:E; [|done]. intros [= _ <-]. exists e. split; [done|]. by apply N.leb_le. Qed.

Lemma tick_loop_ok q w due deferred w' due' deferred' rest :
  tick_loop cap now budget w q due deferred = (w', due', deferred', rest) →
  ∃ d f, due' = due ++ d ∧ deferred' = deferred ++ f ∧ q ≡ₚ d ++ (df_task <$> f) ++ rest ∧ d `sublist_of` q ∧ rest `sublist_of` q ∧
    (∀ t, t ∈ d → (tk_due_at t ≤ now)%N) ∧ (∀ x, x ∈ f → (tk_due_at (df_task x) ≤ now)%N ∧ held_rightly x (len due')) ∧
    (∀ t, head rest = Some t → (now < tk_due_at t)%N) ∧ (len due' ≤ N.max budget (len due))%N.
Proof.
  revert w due deferred. induction q as [|t q IH]; intros w due deferred; cbn [tick_loop].
  { intros [= <- <- <- <-]. exists [], []. rewrite !app_nil_r. repeat (split; [done|]). split; [set_solver|]. split; [set_solver|]. split; [done|lia]. }
  destruct (N.ltb_spec now (tk_due_at t)) as [Hlater|Hdue].
  { intros [= <- <- <- <-]. exists [], []. rewrite !app_nil_r. split; [done|]. split; [done|]. split; [done|]. split; [apply sublist_nil_l|].
    split; [done|]. split; [set_solver|]. split; [set_solver|]. split; [by intros x [= <-]|lia]. }
  destruct (N.leb_spec budget (len due)) as [Hspent|Hroom].
  - intros (d & f & -> & -> & Hp & Hd & Hr & Hdd & Hf & Hh & Hl)%IH. exists d, (mkDeferred t TickBudget :: f). rewrite <-app_assoc.
    split; [done|]. split; [done|]. split; [cbn; rewrite Hp; by rewrite Permutation_middle|]. do 2 (split; [by constructor|]). split; [done|].
    split; [|done]. intros x [->|Hx]%elem_of_cons; [|by apply Hf]. split; [done|]. cbn. unfold len in *. rewrite length_app. lia.
  - destruct (take_slot cap w (tk_endpoint t) now) as [w1 [started|]] eqn:Hslot.
    + intros (d & f & -> & -> & Hp & Hd & Hr & Hdd & Hf & Hh & Hl)%IH.
      exists d, (mkDeferred t (EndpointRateLimited (default "" (tk_endpoint t)) started) :: f). rewrite <-app_assoc.
      split; [done|]. split; [done|]. split; [cbn; rewrite Hp; by rewrite Permutation_middle|]. do 2 (split; [by constructor|]). split; [done|].
      split; [|done]. intros x [->|Hx]%elem_of_cons; [|by apply Hf]. split; [done|].
      apply take_slot_full in Hslot as (e & He & Hcap). unfold held_rightly. cbn. by rewrite He.
    + intros (d & f & -> & -> & Hp & Hd & Hr & Hdd & Hf & Hh & Hl)%IH. exists (t :: d), f.
      split; [by rewrite <-app_assoc|]. split; [done|]. split; [cbn; by rewrite Hp|]. do 2 (split; [by constructor|]).
      split; [by intros x [->|Hx]%elem_of_cons; [|by apply Hdd]|]. split; [done|]. split; [done|].
      unfold len in *. rewrite (length_app due) in Hl. cbn [length] in Hl. lia.
Qed.

Lemma tick_loop_left q w due deferred w' due' deferred' rest e m :
  tick_loop cap now budget w q due deferred = (w', due', deferred', rest) → slots_behind w now →
  slots_behind w' now ∧
  (len (filterb (against e m now) due') + slots_left cap w' e m ≤ len (filterb (against e m now) due) + slots_left cap w e m)%N.
Proof.
  revert w due deferred. induction q as [|t q IH]; intros w due deferred; cbn [tick_loop]; [by intros [= <- <- <- <-]|].
  destruct (_ <? _)%N; [by intros [= <- <- <- <-]|]. destruct (_ <=? _)%N; [by apply IH|].
  intros Hk Hb. pose proof (take_slot_behind cap w (tk_endpoint t) now Hb) as Hb1. pose proof (take_slot_left cap w t now e m Hb) as Hl1.
  destruct (take_slot cap w (tk_endpoint t) now) as [w1 [started|]]; cbn [fst snd] in *; destruct (IH _ _ _ Hk Hb1) as [Hb2 Hl2]; (split; [done|]).
  - cbn [bool_decide andb] in Hl1. lia.
  - rewrite bool_decide_eq_true_2 in Hl1 by done. cbn [andb] in Hl1. rewrite List.filter_app in Hl2. cbn [List.filter] in Hl2.
    destruct (against e m now t); unfold len in *; rewrite ?length_app in Hl2; cbn [length] in Hl2; lia.
Qed.
End TickLoop.

Lemma sublist_sorted {A} (R : A → A → Prop) (l l' : list A) : l `sublist_of` l' → StronglySorted R l' → StronglySorted R l.
Proof.
  induction 1 as [|x l l' Hs IH|x l l' Hs IH]; [done| |by intros [? _]%StronglySorted_inv; apply IH].
  intros [Hl Hx]%StronglySorted_inv. constructor; [by apply IH|]. rewrite Forall_forall in Hx |- *. intros y Hy. apply Hx. by eapply elem_of_sublist.
Qed.

(** A tick loses nothing and says what it held back.  The tasks it releases and the tasks
    left in the queue are the tasks that were there; those released are due, in order, and at
    most the budget; every task that is due and not released is reported with a reason that
    holds -- the tick's budget was spent, or its endpoint's limit was reached -- and stays
    queued; what it reports as pending is the number of tasks not yet due. *)
Theorem tick_exact s now budget s' r :
  StronglySorted task_le (sc_queue s) → tick s now budget = (s', r) →
  StronglySorted task_le (sc_queue s') ∧ sc_cfg s' = sc_cfg s ∧ sc_queue s ≡ₚ tr_due r ++ sc_queue s' ∧
  StronglySorted task_le (tr_due r) ∧ (∀ t, t ∈ tr_due r → (tk_due_at t ≤ now)%N) ∧ (len (tr_due r) ≤ budget)%N ∧
  (∀ t, t ∈ sc_queue s' ∧ (tk_due_at t ≤ now)%N ↔ ∃ d, d ∈ tr_deferred r ∧ df_task d = t) ∧
  (∀ d, d ∈ tr_deferred r → held_rightly (ac_per_endpoint_per_minute (sc_cfg s)) budget d (len (tr_due r))) ∧
  tr_pending r = len (filterb (λ t, (now <? tk_due_at t)%N) (sc_queue s')).
Proof.
  intros Hs. unfold tick. destruct (tick_loop _ _ _ _ _ _ _) as [[[w due] deferred] rest] eqn:Hl.
  apply tick_loop_ok in Hl as (d & f & -> & -> & Hp & Hd & Hrest & Hdue & Hf & Hhead & Hlen). cbn [app] in *.
  intros [= <- <-]. cbn [sc_queue sc_cfg tr_due tr_deferred tr_pending].
  assert (foldl (λ q d0, heap_push (df_task d0) q) rest f = foldl (λ q t, heap_push t q) rest (df_task <$> f)) as ->.
  { clear. revert rest. induction f as [|x f IH]; intros rest; [done|]. apply IH. }
  pose proof (sublist_sorted _ _ _ Hrest Hs) as Hrs.
  assert (∀ t, t ∈ rest → (now < tk_due_at t)%N) as Hlater.
  { destruct rest as [|x rest]; [set_solver|]. specialize (Hhead x eq_refl). apply StronglySorted_inv in Hrs as [_ Hx].
    rewrite Forall_forall in Hx. intros t [->|Ht]%elem_of_cons; [done|]. specialize (Hx t Ht). apply task_le_due in Hx. lia. }
  split; [by apply push_all_sorted|]. split; [done|]. split; [by rewrite push_all_perm|]. split; [by eapply sublist_sorted|].
  split; [done|]. split; [unfold len in *; cbn in Hlen; lia|]. split; [|split; [intros x Hx; by apply Hf|]].
  - intros t. rewrite push_all_perm, elem_of_app, list_elem_of_fmap. split.
    + intros [[(x & -> & Hx)|Hr] Hle]; [by exists x|]. specialize (Hlater t Hr). lia.
    + intros (x & Hx & <-). split; [left; by exists x|]. by apply Hf.
  - assert (filterb (λ t, (now <? tk_due_at t)%N) (df_task <$> f) = []) as Hnil.
    { apply filterb_nil. intros t (x & -> & Hx)%list_elem_of_fmap. apply N.ltb_ge. by apply Hf. }
    rewrite push_all_perm, List.filter_app, Hnil, filterb_all.
    + unfold len. rewrite length_app, length_fmap. cbn. lia.
    + intros t Ht. by apply N.ltb_lt, Hlater.
Qed.

(** ** Sessions of the scheduler *)

Inductive Op := OpPush (t : Task) | OpEnqueue (proj : Projection) (now : N) | OpSchedule (e : Entity) (benign now : N) | OpTick (now budget : N).
Section Session.
Context `{RawDigest}.
Definition run_op (s : Scheduler) (o : Op) : Scheduler * list (Task * N) :=
  match o with
  | OpPush t => (push s t, [])
  | OpEnqueue proj now => ((enqueue_due s proj now).1, [])
  | OpSchedule e benign now => (schedule_reattest s e benign now, [])
  | OpTick now budget => let '(s, r) := tick s now budget in (s, (λ t, (t, now)) <$> tr_due r)
  end.
(** The tasks a session starts, and when. *)
Fixpoint run (s : Scheduler) (ops : list Op) : list (Task * N) :=
  match ops with [] => [] | o :: ops => let '(s, started) := run_op s o in started ++ run s ops end.
Definition op_time (o : Op) : option N := match o with OpTick now _ => Some now | _ => None end.
Definition ticks_in_order (ops : list Op) : Prop := StronglySorted N.le (omap op_time ops).
Definition against_at (e : string) (m : N) (x : Task * N) : bool := against e m x.2 x.1.

Lemma push_all_windows ts s : sc_windows (foldl (λ s e, push s e) s ts) = sc_windows s ∧ sc_cfg (foldl (λ s e, push s e) s ts) = sc_cfg s.
Proof. revert s. induction ts as [|t ts IH]; intros s; [done|]. cbn. by destruct (IH (push s t)) as [-> ->]. Qed.
Lemma enqueue_windows s proj now : sc_windows (enqueue_due s proj now).1 = sc_windows s ∧ sc_cfg (enqueue_due s proj now).1 = sc_cfg s.
Proof.
  unfold enqueue_due. cbn [fst]. generalize (filterb (λ e, is_due e now) ((map_to_list (pr_entities proj)).*2)). intros l.
  revert s. induction l as [|x l IH]; intros s; [done|]. cbn. by destruct (IH (push s (reattest_task x now))) as [-> ->].
Qed.
Lemma tick_starts s now budget e m : slots_behind (sc_windows s) now →
  let r := tick s now budget in
  sc_cfg r.1 = sc_cfg s ∧ slots_behind (sc_windows r.1) now ∧
  (len (filterb (against e m now) (tr_due r.2)) + slots_left (ac_per_endpoint_per_minute (sc_cfg s)) (sc_windows r.1) e m ≤
   slots_left (ac_per_endpoint_per_minute (sc_cfg s)) (sc_windows s) e m)%N.
Proof.
  intros Hb. unfold tick. destruct (tick_loop _ _ _ _ _ _ _) as [[[w due] deferred] rest] eqn:Hl. cbn.
  by apply (tick_loop_left _ _ _ _ _ _ _ _ _ _ _ e m) in Hl as [Hb' Hle].
Qed.
Lemma filter_starts e m now (l : list Task) :
  filterb (against_at e m) ((λ t, (t, now)) <$> l) = (λ t, (t, now)) <$> filterb (against e m now) l.
Proof. induction l as [|t l IH]; [done|]. cbn. unfold against_at at 1. cbn. rewrite IH. by destruct (against e m now t). Qed.

Lemma run_bounded s ops e m :
  ticks_in_order ops → (∀ t, t ∈ omap op_time ops → slots_behind (sc_windows s) t) →
  (len (filterb (against_at e m) (run s ops)) ≤ slots_left (ac_per_endpoint_per_minute (sc_cfg s)) (sc_windows s) e m)%N.
Proof.
  revert s. induction ops as [|o ops IH]; intros s Ho Hb; [apply N.le_0_l|]. cbn [run].
  destruct o as [t|proj now|en benign now|now budget]; cbn [run_op app].
  - exact (IH (push s t) Ho Hb).
  - destruct (enqueue_windows s proj now) as [Ew Ec]. rewrite <-Ec, <-Ew. apply IH; [done|]. by rewrite Ew.
  - exact (IH (schedule_reattest s en benign now) Ho Hb).
  - unfold ticks_in_order in Ho. cbn in Ho, Hb. apply StronglySorted_inv in Ho as [Ho Hlater]. rewrite Forall_forall in Hlater.
    pose proof (tick_starts s now budget e m (Hb now ltac:(by left))) as (Ec & Hb' & Hl). destruct (tick s now budget) as [s1 r]. cbn [fst snd] in *.
    assert (len (filterb (against_at e m) (run s1 ops)) ≤ slots_left (ac_per_endpoint_per_minute (sc_cfg s1)) (sc_windows s1) e m)%N as Hrest.
    { apply IH; [done|]. intros t Ht. eapply behind_mono; [|exact Hb']. by apply Hlater. }
    rewrite List.filter_app, filter_starts. rewrite Ec in Hrest. unfold len in *. rewrite length_app, length_fmap. lia.
Qed.

(** Assurance cannot become a denial of service.  Whatever is queued and whenever it
    ticks, as long as the clock does not go back, a scheduler starts no more tasks against one
    endpoint in any minute than its limit. *)
Theorem endpoint_starts_bounded cfg s ops e m :
  Scheduler_new cfg = Ok s → ticks_in_order ops →
  (len (filterb (against_at e m) (run s ops)) ≤ ac_per_endpoint_per_minute cfg)%N.
Proof.
  unfold Scheduler_new. intros (? & _ & [= <-])%result_bind_ok Ho. etrans; [apply run_bounded; [done|]|by apply left_in_empty].
  intros t _. by apply behind_empty.
Qed.
End Session.

(** ** Drift and the contracts pinned to the old surface *)

Lemma when_nil b r : when b r = [] ↔ b = false.
Proof. by destruct b. Qed.
Lemma material_reasons_nil i diff removed changed :
  material_reasons i diff removed changed = [] ↔
  removed = [] ∧ changed = [] ∧ di_endpoint_changed i = false ∧ di_identity_ok i ≠ Some false ∧ di_card_ok i ≠ Some false ∧
  di_provenance_ok i ≠ Some false ∧ di_screening_blocked i = false ∧ (di_contracted i = Unknown → PinDiff_is_empty diff = true).
Proof.
  unfold material_reasons, lost. rewrite !app_nil, !when_nil, !negb_false_iff, !bool_decide_eq_true, !bool_decide_eq_false.
  destruct (di_contracted i); rewrite ?negb_false_iff; naive_solver.
Qed.

(** Every item that is contracted, if any is known to be, is presented as it was. *)
Definition keeps_contracted (i : DriftInputs) : Prop :=
  ∀ item h, is_contracted (di_contracted i) item = true → pin_items (di_old i) !! item = Some h → pin_items (di_new i) !! item = Some h.
Lemma diffs_nil i :
  let diff := Pin_diff (di_old i) (di_new i) in
  filterb (is_contracted (di_contracted i)) (diff_removed diff) = [] ∧ filterb (is_contracted (di_contracted i)) (diff_changed diff) = [] ↔
  keeps_contracted i.
Proof.
  cbv zeta. destruct (pin_diff_exact (di_old i) (di_new i)) as (_ & Hr & Hc & _). rewrite !filterb_nil. unfold keeps_contracted. split.
  - intros [Hrem Hch] item h Hcon Hold. destruct (pin_items (di_new i) !! item) as [h'|] eqn:Hnew.
    + destruct (decide (h = h')) as [->|Hne]; [done|]. specialize (Hch item). rewrite Hcon in Hch. by rewrite Hc in Hch; discriminate Hch; exists h, h'.
    + specialize (Hrem item). rewrite Hcon in Hrem. rewrite Hr in Hrem. discriminate Hrem. split; [by exists h|done].
  - intros Hkeep. split; intros item.
    + rewrite Hr. intros [[h Hold] Hnew]. apply not_true_iff_false. intros Hcon. by rewrite (Hkeep _ _ Hcon Hold) in Hnew.
    + rewrite Hc. intros (v & w & Hold & Hnew & Hne). apply not_true_iff_false. intros Hcon. rewrite (Hkeep _ _ Hcon Hold) in Hnew. congruence.
Qed.

(** The reasons a drift is held to be material. *)
Definition reasons_of (i : DriftInputs) : list DriftReason :=
  let diff := Pin_diff (di_old i) (di_new i) in
  material_reasons i diff (filterb (is_contracted (di_contracted i)) (diff_removed diff)) (filterb (is_contracted (di_contracted i)) (diff_changed diff)).
Lemma classify_class i : let v := classify_drift i in
  dv_auto_repin v = negb (bool_decide (dv_class v = Material)) ∧
  match reasons_of i with
  | _ :: _ => dv_class v = Material
  | [] => dv_class v = if PinDiff_is_empty (Pin_diff (di_old i) (di_new i)) && bool_decide (pin_manifest (di_old i) = pin_manifest (di_new i))
                       then DriftNone else Benign
  end.
Proof.
  cbv zeta. unfold classify_drift. cbv zeta. fold (reasons_of i). destruct (reasons_of i) as [|r rs]; [|done].
  destruct (PinDiff_is_empty _); [|done]. by case_bool_decide.
Qed.

Lemma digest_entries_kept m m' names body :
  (∀ k h, k ∈ names → m !! k = Some h → m' !! k = Some h) → digest_entries m names = Ok body → digest_entries m' names = Ok body.
Proof.
  revert body. induction names as [|k names IH]; intros body Hm; [done|]. cbn. rewrite !result_bind_ok.
  intros (h & Hh%ok_or_ok & Hx). apply result_bind_ok in Hx as (rest & Hrest & [= <-]). exists h. split.
  { apply ok_or_ok. apply Hm; [by left|done]. }
  rewrite result_bind_ok. exists rest. split; [|done]. apply IH; [|done]. intros k' h' Hk'. apply Hm. by right.
Qed.

(** Drift is classified by what is contracted.  It is not material exactly when every
    contracted item is presented as it was, the endpoint stayed, no attestation stopped
    verifying, the text does not screen as poisoned, and -- while what is contracted is
    unknown -- no item changed at all; it is nothing exactly when, besides, items and manifest
    are the same.  A new surface is adopted by itself exactly when the drift is not material,
    and then every contract for contracted items keeps its digest: check 8 passes on the new
    surface as it did on the old, unless the canonicalisation itself changed. *)
Theorem drift_exact `{Sha256} i :
  let v := classify_drift i in
  (dv_class v ≠ Material ↔
     keeps_contracted i ∧ di_endpoint_changed i = false ∧ di_identity_ok i ≠ Some false ∧ di_card_ok i ≠ Some false ∧
     di_provenance_ok i ≠ Some false ∧ di_screening_blocked i = false ∧
     (di_contracted i = Unknown → pin_items (di_old i) = pin_items (di_new i))) ∧
  (dv_class v = DriftNone ↔
     dv_class v ≠ Material ∧ pin_items (di_old i) = pin_items (di_new i) ∧ pin_manifest (di_old i) = pin_manifest (di_new i)) ∧
  (dv_auto_repin v = true ↔ dv_class v ≠ Material) ∧ suspends v = negb (dv_auto_repin v) ∧
  (dv_auto_repin v = true → pin_alg (di_old i) = pin_alg (di_new i) →
   ∀ names d, (∀ n, n ∈ names → is_contracted (di_contracted i) n = true) →
     Pin_surface_digest (di_old i) names = Ok d → Pin_surface_digest (di_new i) names = Ok d).
Proof.
  cbv zeta. destruct (classify_class i) as (Hauto & Hclass). pose proof (diffs_nil i) as Hdn. cbv zeta in Hdn.
  destruct (pin_diff_exact (di_old i) (di_new i)) as (_ & _ & _ & Hempty).
  assert (reasons_of i = [] ↔ keeps_contracted i ∧ di_endpoint_changed i = false ∧ di_identity_ok i ≠ Some false ∧
    di_card_ok i ≠ Some false ∧ di_provenance_ok i ≠ Some false ∧ di_screening_blocked i = false ∧
    (di_contracted i = Unknown → pin_items (di_old i) = pin_items (di_new i))) as Hnil.
  { unfold reasons_of. cbv zeta. rewrite material_reasons_nil, Hempty, <-Hdn. tauto. }
  assert (dv_class (classify_drift i) ≠ Material ↔ reasons_of i = []) as Hmat.
  { destruct (reasons_of i); rewrite Hclass; [by destruct (_ && _)|done]. }
  assert (dv_auto_repin (classify_drift i) = true ↔ dv_class (classify_drift i) ≠ Material) as Hrepin.
  { by rewrite Hauto, negb_true_iff, bool_decide_eq_false. }
  split; [by rewrite Hmat|]. split; [|split; [done|split]].
  - rewrite Hmat. destruct (reasons_of i) as [|r rs]; rewrite Hclass; [|split; [done|by intros [? _]]].
    destruct (PinDiff_is_empty _) eqn:Ed; cbn [andb]; [case_bool_decide|]; (split; [|done || (intros (_ & Hi & ?); exfalso)]); try done.
    + intros _. split; [done|]. split; [by apply Hempty|done].
    + apply Hempty in Hi. congruence.
  - unfold suspends. rewrite Hauto. by rewrite negb_involutive.
  - intros Hr Halg names d Hcon. apply Hrepin, Hmat, Hnil in Hr as [Hkeep _]. unfold Pin_surface_digest. rewrite !result_bind_ok.
    intros (body & Hbody & [= <-]). exists body. rewrite Halg. split; [|done]. eapply digest_entries_kept; [|exact Hbody].
    intros k h Hk Hold. apply Hkeep; [|done]. apply Hcon. by rewrite elem_of_sort_dedup in Hk.
Qed.

(** ** The posture score *)

(** [s'] is at least as bad as [s] in every signal. *)
Record worse (s s' : Signals) : Prop := mkWorse {
  wo_identity : sg_identity_ok s' = Some true → sg_identity_ok s = Some true;
  wo_provenance : sg_provenance_ok s' = Some true → sg_provenance_ok s = Some true;
  wo_drift : sg_open_material_drift s = true → sg_open_material_drift s' = true;
  wo_benign : (sg_benign_drifts s ≤ sg_benign_drifts s')%N;
  wo_overdue : (sg_intervals_overdue s ≤ sg_intervals_overdue s')%N;
  wo_orphaned : sg_owner_orphaned s = true → sg_owner_orphaned s' = true;
  wo_credential : ∀ x, sg_credential_expires_in s = Some x → ∃ y, sg_credential_expires_in s' = Some y ∧ (y ≤ x)%Z;
  wo_denied : ∀ x, sg_denied_percentile s = Some x → ∃ y, sg_denied_percentile s' = Some y ∧ (x ≤ y)%N;
  wo_flags : (sg_screening_flags s ≤ sg_screening_flags s')%N
}.

Lemma total_points_app l l' : total_points (l ++ l') = (total_points l + total_points l')%N.
Proof. unfold total_points. induction l as [|d l IH]; [done|]. cbn. rewrite IH. lia. Qed.
Lemma total_deduct n r : total_points (deduct n r) = n.
Proof. unfold deduct. destruct (N.ltb_spec 0 n); cbn; lia. Qed.
Lemma total_if (b : bool) l l' : total_points (if b then l else l') = if b then total_points l else total_points l'.
Proof. by destruct b. Qed.
(** The score is what is left of a hundred. *)
Definition points_of (s : Signals) (cfg : AssuranceCfg) : N :=
  (if verified (sg_identity_ok s) then 0 else 30) + ((if verified (sg_provenance_ok s) then 0 else 25) +
  ((if sg_open_material_drift s then 20 else 0) +
  ((if 0 <? sg_benign_drifts s then N.min (N.min u32_max (8 * sg_benign_drifts s)) 24 +
      (if ac_benign_burst cfg <? sg_benign_drifts s then 10 else 0) else 0) +
  ((if sg_intervals_overdue s =? 0 then 0 else if sg_intervals_overdue s <=? 3 then 15 else 30) +
  ((if sg_owner_orphaned s then 20 else 0) +
  (match sg_credential_expires_in s with
   | Some secs => if (secs <=? 0)%Z then 25 else if (secs <=? 7 * 86400)%Z then 10 else 0
   | None => 0
   end +
  (match sg_denied_percentile s with Some p => N.min (2 * p / 10) 20 | None => 0 end +
  (if 0 <? sg_screening_flags s then N.min (N.min u32_max (5 * sg_screening_flags s)) 15 else 0))))))))%N.
Lemma total_points_of s cfg : total_points (deductions s cfg) = points_of s cfg.
Proof.
  unfold deductions, points_of. rewrite !total_points_app, !total_if. cbn [total_points foldr].
  rewrite !total_points_app, !total_if, !total_deduct. cbn [total_points foldr].
  repeat f_equal; repeat case_match; rewrite ?total_deduct; done.
Qed.
Lemma div_mono a b : (a ≤ b)%N → (2 * a / 10 ≤ 2 * b / 10)%N.
Proof. intros. apply N.Div0.div_le_mono. lia. Qed.
Lemma points_worse s s' cfg : worse s s' → (points_of s cfg ≤ points_of s' cfg)%N.
Proof.
  intros [Hi Hp Hd Hb Ho Hor Hc Hde Hf]. unfold points_of, verified. repeat apply N.add_le_mono.
  - repeat case_bool_decide; lia || naive_solver.
  - repeat case_bool_decide; lia || naive_solver.
  - destruct (sg_open_material_drift s); [by rewrite Hd|apply N.le_0_l].
  - repeat match goal with |- context [(?a <? ?b)%N] => destruct (N.ltb_spec a b) end; unfold u32_max; lia.
  - repeat match goal with |- context [(?a =? ?b)%N] => destruct (N.eqb_spec a b) | |- context [(?a <=? ?b)%N] => destruct (N.leb_spec a b) end; lia.
  - destruct (sg_owner_orphaned s); [by rewrite Hor|apply N.le_0_l].
  - destruct (sg_credential_expires_in s) as [x|]; [|apply N.le_0_l]. destruct (Hc x eq_refl) as (y & -> & Hy).
    repeat match goal with |- context [(?a <=? ?b)%Z] => destruct (Z.leb_spec a b) end; lia.
  - destruct (sg_denied_percentile s) as [x|]; [|apply N.le_0_l]. destruct (Hde x eq_refl) as (y & -> & Hy). pose proof (div_mono x y Hy). lia.
  - repeat match goal with |- context [(?a <? ?b)%N] => destruct (N.ltb_spec a b) end; unfold u32_max; lia.
Qed.

(** The posture score explains itself, degrades only, and never cuts.  It is a hundred
    less the deductions it lists; worse signals never raise it, nor make a party attested;
    a party is attested exactly when it is not quarantined, identity and provenance were
    verified and the score reaches the threshold; and quarantine is neither entered nor left
    by a score. *)
Theorem score_monotone e s s' cfg : worse s s' →
  let p := score e s cfg in let p' := score e s' cfg in
  (ps_score p ≤ 100)%N ∧ ps_score p = (100 - total_points (ps_deductions p))%N ∧ (ps_score p' ≤ ps_score p)%N ∧
  (ps_state p' = Attested → ps_state p = Attested) ∧
  (ps_state p = Attested ↔ ent_posture e ≠ Quarantined ∧ sg_identity_ok s = Some true ∧ sg_provenance_ok s = Some true ∧
     (ac_attested_at cfg ≤ ps_score p)%N) ∧
  (ps_state p = Quarantined ↔ ent_posture e = Quarantined).
Proof.
  intros Hw. cbv zeta.
  assert (∀ s, ps_score (score e s cfg) = (100 - points_of s cfg)%N) as Hscore.
  { intros x. unfold score. cbn [ps_score]. rewrite total_points_of. unfold saturating_sub. lia. }
  assert (∀ s, ps_state (score e s cfg) = Attested ↔ ent_posture e ≠ Quarantined ∧ sg_identity_ok s = Some true ∧ sg_provenance_ok s = Some true ∧
     (ac_attested_at cfg ≤ ps_score (score e s cfg))%N) as Hatt.
  { intros x. rewrite Hscore. unfold score. cbn [ps_state]. rewrite total_points_of. unfold verified.
    replace (N.min (saturating_sub 100 (points_of x cfg)) 100) with (100 - points_of x cfg)%N by (unfold saturating_sub; lia).
    repeat case_bool_decide; cbn [negb orb]; try naive_solver. destruct (N.leb_spec (ac_attested_at cfg) (100 - points_of x cfg)); naive_solver lia. }
  pose proof (points_worse s s' cfg Hw) as Hpts. rewrite !Hscore. split; [lia|]. split.
  { unfold score. cbn [ps_deductions]. by rewrite total_points_of. }
  split; [lia|]. split.
  { rewrite !Hatt, !Hscore. destruct Hw as [Hi Hp]. intros (? & ? & ? & ?). repeat split; [done|auto|auto|lia]. }
  split; [by rewrite Hatt, Hscore|]. unfold score. cbn [ps_state]. repeat case_match; bool_facts; naive_solver.
Qed.

(** ** Bounds *)

(** Jitter stays within its span. *)
Lemma jitter_bounded `{RawDigest} id interval fraction :
  (0 ≤ jitter_span interval fraction)%Z →
  (- jitter_span interval fraction ≤ jitter_offset id interval fraction ≤ jitter_span interval fraction)%Z.
Proof.
  intros Hs. unfold jitter_offset. destruct (_ || _); [lia|]. cbv zeta. set (span := jitter_span interval fraction) in *.
  destruct (Z.eqb_spec span 0); [lia|].
  assert (0 ≤ first_16 (sha256_bytes (entity_str id)) ≤ 65535)%Z as Hraw.
  { unfold first_16. pose proof (λ b, bytes_lt (sha256_bytes (entity_str id)) b) as Hb.
    destruct (bytes _) as [|a [|b l]]; [lia..|].
    assert (a < 256)%N by (apply Hb; by left). assert (b < 256)%N by (apply Hb; right; by left).
    rewrite Z.shiftl_mul_pow2 by lia. change (2 ^ 8)%Z with 256%Z.
    assert (Z.lor (Z.of_N a * 256) (Z.of_N b) = Z.of_N a * 256 + Z.of_N b)%Z as ->; [|lia].
    assert (Z.land (Z.of_N a * 256) (Z.of_N b) = 0)%Z as Hland; [|by rewrite (Z.add_nocarry_lxor _ _ Hland), (Z.lxor_lor _ _ Hland)].
    apply Z.bits_inj'. intros k Hk. rewrite Z.land_spec, Z.bits_0. change 256%Z with (2 ^ 8)%Z.
    destruct (Z.lt_ge_cases k 8); [by rewrite Z.mul_pow2_bits_low|].
    assert (Z.testbit (Z.of_N b) k = false) as ->; [|apply andb_false_r].
    destruct (N.eq_dec b 0) as [->|]; [apply Z.bits_0|]. apply Z.bits_above_log2; [lia|].
    eapply Z.lt_le_trans; [|done]. apply Z.log2_lt_pow2; lia. }
  rewrite Z.quot_div_nonneg by lia. split.
  - assert (0 ≤ first_16 (sha256_bytes (entity_str id)) * (2 * span) / 65535)%Z by (apply Z.div_pos; lia). lia.
  - assert (first_16 (sha256_bytes (entity_str id)) * (2 * span) / 65535 ≤ 2 * span)%Z; [|lia].
    apply Z.div_le_upper_bound; [lia|]. apply Z.mul_le_mono_nonneg_r; lia.
Qed.
(** Restlessness is to halve the interval; below a minute it lengthens it. *)
Lemma restless_slows_short_intervals cfg tier n :
  (ac_benign_burst cfg < n)%N → (base_interval cfg tier < 60)%N → (interval_for cfg tier 0 < interval_for cfg tier n)%N.
Proof.
  intros Hn Hb. unfold interval_for. rewrite (proj2 (N.ltb_lt _ _) Hn). rewrite (proj2 (N.ltb_ge _ _)) by lia. lia.
Qed.
(** A degraded party is shown as never attested. *)
Lemma degraded_shown_unattested e now cfg :
  ent_posture e = Degraded → ps_state (score e (observed_signals e now) cfg) = Unattested.
Proof. intros Hp. unfold score, observed_signals. rewrite Hp. done. Qed.

Module AssureExamples.
Import TestSha.
#[export] Instance raw : RawDigest := λ s, s.
Definition id (s : string) : EntityId := mkEntityId s.
Definition task (due : N) (who : string) : Task := mkTask due Reattest (id who) (Some "https://mcp").
Definition cfg : AssuranceCfg := mkAssuranceCfg 8 ∅ (f64_of_decimal false 1 (-1)) 2 3 (7 * 86400) [] 85.
Definition queued : Scheduler := foldl push (mkScheduler cfg [] ∅) [task 5 "c"; task 5 "a"; task 90 "d"; task 4 "b"].
Definition ticked : Scheduler * TickReport := tick queued 10 5.
Lemma tick_exact_witness :
  tr_due (ticked.2) = [task 4 "b"; task 5 "a"] ∧ sc_queue (ticked.1) = [task 5 "c"; task 90 "d"] ∧ tr_pending (ticked.2) = 1%N ∧
  sc_queue queued ≡ₚ tr_due (ticked.2) ++ sc_queue (ticked.1).
Proof.
  split; [vm_compute; reflexivity|]. split; [vm_compute; reflexivity|]. split; [vm_compute; reflexivity|].
  refine (proj1 (proj2 (proj2 (tick_exact queued 10 5 ticked.1 ticked.2 _ _)))).
  - do 4 apply heap_push_sorted. apply SSorted_nil.
  - apply surjective_pairing.
Defined.
Definition fresh : Scheduler := mkScheduler cfg [] ∅.
Definition session : list Op :=
  [OpPush (task 1 "a"); OpPush (task 1 "b"); OpPush (task 1 "c"); OpTick 10 9; OpTick 20 9; OpTick 70 9].
Lemma endpoint_starts_bounded_witness :
  run fresh session = [(task 1 "a", 10); (task 1 "b", 10); (task 1 "c", 70)]%N ∧
  (len (filterb (against_at "https://mcp" 0) (run fresh session)) ≤ 2)%N.
Proof.
  split; [vm_compute; reflexivity|].
  refine (endpoint_starts_bounded cfg fresh session "https://mcp" 0 _ _); [vm_compute; reflexivity|].
  unfold ticks_in_order. cbn. repeat first [apply SSorted_nil|apply SSorted_cons|apply Forall_nil_2|apply Forall_cons_2]; vm_compute; discriminate.
Defined.

Definition party : Entity :=
  mkEntity (id "spiffe://bank/mcp") McpServer (mkHumanRef "pat@bank") None (mkTier 3) (mkZoneId "internal") (Pin_empty 0) []
    Attested 100 Active [] [] None 0 10 10 10 0 ENTITY_SCHEMA.
Definition healthy : Signals := mkSignals (Some true) (Some true) false 0 0 false None None 0.
Definition drifting : Signals := mkSignals (Some true) (Some true) false 2 0 false (Some 3600%Z) None 0.
Lemma score_monotone_witness :
  ps_state (score party healthy cfg) = Attested ∧ ps_state (score party drifting cfg) = Degraded ∧
  (ps_score (score party drifting cfg) ≤ ps_score (score party healthy cfg))%N.
Proof.
  split; [vm_compute; reflexivity|]. split; [vm_compute; reflexivity|].
  refine (proj1 (proj2 (proj2 (score_monotone party healthy drifting cfg _)))).
  split; cbn; try (vm_compute; discriminate); try (intros; discriminate); try exact (λ x, x).
Defined.

(** The same items under another canonicalisation are adopted by themselves, and no contract's
    digest survives: the digest is over the algorithm's name too. *)
Definition before : Pin := mkPin PIN_ALG "sha256:m" {[ "read" := "sha256:r" ]} 10.
Definition upgraded : Pin := mkPin "wcs2" "sha256:n" {[ "read" := "sha256:r" ]} 20.
Definition upgrade : DriftInputs := mkDriftInputs before upgraded (Known ["read"]) false (Some true) None None false.
Lemma upgrade_breaks_contracts :
  dv_auto_repin (classify_drift upgrade) = true ∧ Pin_surface_digest before ["read"] ≠ Pin_surface_digest upgraded ["read"].
Proof. split; vm_compute; [reflexivity|discriminate]. Qed.
End AssureExamples.
