(* ===== verification/Blast.v ===== *)
(** * Blast: what stops if a party is cut ([crates/wc-control/src/assurance.rs], [blast_radius])

    Two breadth-first walks over the contracts on file, one along calls and one against them,
    down to a bound on the hops.  A [HashSet] of contracts is visited in no particular order:
    what a walk reports is shown to depend on distances alone.  A report's sentence for the
    operator is not modelled. *)

From S2P Require Import Prelude Text Errors Model Contract Store.

Record BlastNode := mkBlastNode {
  bn_id : EntityId;
  bn_depth : N;
  bn_tier : N;
  bn_zone : string;
  bn_owner : string;
  bn_service : option string;
  bn_data_classes : list string
}.
Record BlastReport := mkBlastReport {
  br_subject : EntityId;
  br_max_depth : N;
  br_forward : list BlastNode;
  br_reverse : list BlastNode;
  br_cut_set : list string;
  br_impacted_services : list string;
  br_truncated : bool;
  br_dangling : list string
}.
Definition DEFAULT_BLAST_DEPTH : N := 3.

(** Every distinct party of both lists, the first mention kept. *)
Definition add_node (acc : list BlastNode) (n : BlastNode) : list BlastNode :=
  if existsb (λ m, bool_decide (bn_id m = bn_id n)) acc then acc else acc ++ [n].
Definition nodes (r : BlastReport) : list BlastNode := foldl add_node [] (br_forward r ++ br_reverse r).

(** ** The walk *)

(** What both walks add to. *)
Record Tally := mkTally { ty_cut : gset string; ty_services : gset string; ty_dangling : gset string; ty_truncated : bool }.
Record Sweep := mkSweep { sw_seen : gset EntityId; sw_queue : list (EntityId * N); sw_out : list BlastNode; sw_tally : Tally }.

Definition cut_also (s : string) (t : Tally) : Tally := mkTally ({[s]} ∪ ty_cut t) (ty_services t) (ty_dangling t) (ty_truncated t).
Definition serve_also (s : option string) (t : Tally) : Tally :=
  mkTally (ty_cut t) (match s with Some s => {[s]} ∪ ty_services t | None => ty_services t end) (ty_dangling t) (ty_truncated t).
Definition dangle_also (s : string) (t : Tally) : Tally := mkTally (ty_cut t) (ty_services t) ({[s]} ∪ ty_dangling t) (ty_truncated t).
Definition truncate_if (b : bool) (t : Tally) : Tally := mkTally (ty_cut t) (ty_services t) (ty_dangling t) (b || ty_truncated t).

Section Walk.
Context (max_depth : N) (proj : Projection) (outward : bool).

Definition contracts_at (id : EntityId) : gset Cid :=
  default ∅ ((if outward then pr_by_caller proj else pr_by_callee proj) !! id).
Definition far_end (r : ContractRecord) : EntityId := if outward then rec_callee r else rec_caller r.
Definition has_further_edges (id : EntityId) : bool := negb (bool_decide (contracts_at id = ∅)).
Definition node_of (id : EntityId) (depth : N) (e : Entity) : BlastNode :=
  mkBlastNode id depth (tier_u8 (ent_tier e)) (zone_str (ent_zone e)) (human_str (ent_owner e)) (ent_service e) (ent_data_classes e).

(** A party met for the first time. *)
Definition meet (next : EntityId) (next_depth : N) (s : Sweep) : Sweep :=
  let seen := {[next]} ∪ sw_seen s in
  let '(out, tally) :=
    match pr_entities proj !! next with
    | Some e => (sw_out s ++ [node_of next next_depth e], serve_also (ent_service e) (sw_tally s))
    | None => (sw_out s, dangle_also (entity_str next) (sw_tally s))
    end in
  if (next_depth <? max_depth)%N then mkSweep seen (sw_queue s ++ [(next, next_depth)]) out tally
  else mkSweep seen (sw_queue s) out (truncate_if (has_further_edges next) tally).
Definition follow (depth : N) (s : Sweep) (cid : Cid) : Sweep :=
  match pr_contracts proj !! cid with
  | None => mkSweep (sw_seen s) (sw_queue s) (sw_out s) (dangle_also (cid_str cid) (sw_tally s))
  | Some record =>
    let s := mkSweep (sw_seen s) (sw_queue s) (sw_out s) (cut_also (cid_str (rec_cid record)) (sw_tally s)) in
    let next := far_end record in
    if (max_depth <? depth + 1)%N then mkSweep (sw_seen s) (sw_queue s) (sw_out s) (truncate_if true (sw_tally s))
    else if bool_decide (next ∈ sw_seen s) then s
    else meet next (depth + 1) s
  end.
Definition visit (current : EntityId) (depth : N) (s : Sweep) : Sweep :=
  foldl (follow depth) s (elements (contracts_at current)).
Fixpoint sweep (fuel : nat) (s : Sweep) : Sweep :=
  match fuel, sw_queue s with
  | S fuel, (current, depth) :: rest => sweep fuel (visit current depth (mkSweep (sw_seen s) rest (sw_out s) (sw_tally s)))
  | _, _ => s
  end.

Definition node_le (a b : BlastNode) : Prop :=
  (bn_depth a < bn_depth b)%N ∨ bn_depth a = bn_depth b ∧ String.le (entity_str (bn_id a)) (entity_str (bn_id b)).
#[global] Instance node_le_dec : RelDecision node_le.
Proof. intros a b. unfold node_le. apply _. Defined.

Definition traverse (subject : EntityId) (tally : Tally) : list BlastNode * Tally :=
  let s := sweep (S (size (pr_contracts proj))) (mkSweep {[subject]} [(subject, 0%N)] [] tally) in
  (merge_sort node_le (sw_out s), sw_tally s).
End Walk.

Definition blast_radius (subject : EntityId) (max_depth : N) (proj : Projection) : BlastReport :=
  let max_depth := N.max max_depth 1 in
  let '(forward, tally) := traverse max_depth proj true subject (mkTally ∅ ∅ ∅ false) in
  let '(reverse, tally) := traverse max_depth proj false subject tally in
  let tally := match pr_entities proj !! subject with Some e => serve_also (ent_service e) tally | None => tally end in
  mkBlastReport subject max_depth forward reverse (sort_strings (elements (ty_cut tally)))
    (sort_strings (elements (ty_services tally))) (ty_truncated tally) (sort_strings (elements (ty_dangling tally))).

(** [connect blast-radius]: the report, and whether it is the whole radius. *)
Definition blast_radius_cmd (subject : EntityId) (depth : option N) (proj : Projection) : result BlastReport * option BlastReport :=
  match pr_entities proj !! subject with
  | None => (Err ENTITY_NOT_FOUND, None)
  | Some _ =>
    let report := blast_radius subject (N.min (default DEFAULT_BLAST_DEPTH depth) 255) proj in
    (if br_truncated report then Err BLAST_DEPTH_TRUNCATED else Ok report, Some report)
  end.

(** ** Distances *)

Section Distance.
Context (proj : Projection) (outward : bool) (subject : EntityId).

Inductive reach : N → EntityId → Prop :=
| reach_self : reach 0 subject
| reach_step n a cid r : reach n a → cid ∈ contracts_at proj outward a → pr_contracts proj !! cid = Some r →
    reach (n + 1) (far_end outward r).
Definition at_distance (n : N) (b : EntityId) : Prop := reach n b ∧ ∀ m, reach m b → (n ≤ m)%N.
Definition within (d : N) (n : N) (b : EntityId) : Prop := at_distance n b ∧ (n ≤ d)%N.
(** A contract on file under a party that a walk to depth [d] looks behind. *)
Definition crossed (d : N) (a : EntityId) (cid : Cid) : Prop := ∃ n, at_distance n a ∧ (n < d)%N ∧ cid ∈ contracts_at proj outward a.

Lemma at_distance_self : at_distance 0 subject.
Proof. split; [constructor|lia]. Qed.
Lemma at_distance_unique n m b : at_distance n b → at_distance m b → n = m.
Proof. intros [H1 H2] [H3 H4]. apply N.le_antisymm; auto. Qed.
End Distance.

(** ** The walk visits every party at its distance

    [D] is the depth each party was met at, [P] the contracts followed, [n] the depth being
    worked on and [open] the party being worked on. *)

Section Walked.
Context (d : N) (proj : Projection) (outward : bool) (subject : EntityId) (t0 : Tally).
Context (Hd : (1 ≤ d)%N).
Abbreviation depths := (gmap EntityId N).

(** A party shown as a node, the service it brings, and the name of one that is not registered. *)
Definition shown_as (x : BlastNode) (b : EntityId) (k : N) : Prop := ∃ e, pr_entities proj !! b = Some e ∧ x = node_of b k e.
Definition brings (x : string) (b : EntityId) (_ : N) : Prop := ∃ e, pr_entities proj !! b = Some e ∧ ent_service e = Some x.
Definition missing (x : string) (b : EntityId) (_ : N) : Prop := pr_entities proj !! b = None ∧ x = entity_str b.
(** A contract on file by its id, and a reference to none. *)
Definition cuts (x : string) (cid : Cid) : Prop := ∃ r, pr_contracts proj !! cid = Some r ∧ x = cid_str (rec_cid r).
Definition unfiled (x : string) (cid : Cid) : Prop := pr_contracts proj !! cid = None ∧ x = cid_str cid.

Definition unmet_or (D : depths) (b : EntityId) (k : N) : Prop := D !! b = Some k ∧ b ≠ subject.
Record tallied (D : depths) (P : EntityId * Cid → Prop) (out : list BlastNode) (t : Tally) : Prop := mkTallied {
  td_out x : x ∈ out ↔ ∃ b k, unmet_or D b k ∧ shown_as x b k;
  td_once : NoDup (bn_id <$> out);
  td_cut x : x ∈ ty_cut t ↔ x ∈ ty_cut t0 ∨ ∃ a cid, P (a, cid) ∧ cuts x cid;
  td_services x : x ∈ ty_services t ↔ x ∈ ty_services t0 ∨ ∃ b k, unmet_or D b k ∧ brings x b k;
  td_dangling x : x ∈ ty_dangling t ↔ x ∈ ty_dangling t0 ∨ (∃ b k, unmet_or D b k ∧ missing x b k) ∨
    ∃ a cid, P (a, cid) ∧ unfiled x cid;
  td_truncated : ty_truncated t = true ↔ ty_truncated t0 = true ∨ ∃ b, D !! b = Some d ∧ contracts_at proj outward b ≠ ∅
}.
(** A contract followed from a party met by depth [n], its far end met no later than one hop on. *)
Definition near_edge (D : depths) (n : N) (a : EntityId) (cid : Cid) : Prop := ∃ k, D !! a = Some k ∧ (k < d)%N ∧ (k ≤ n)%N ∧
  cid ∈ contracts_at proj outward a ∧ ∀ r, pr_contracts proj !! cid = Some r → ∃ m, D !! far_end outward r = Some m ∧ (m ≤ k + 1)%N.
Record walked (D : depths) (P : EntityId * Cid → Prop) (n : N) (open : EntityId → Prop) (s : Sweep) : Prop := mkWalked {
  wd_seen b : b ∈ sw_seen s ↔ is_Some (D !! b);
  wd_subject : D !! subject = Some 0%N;
  wd_reach b k : D !! b = Some k → reach proj outward subject k b ∧ (k ≤ d)%N ∧ (k ≤ n + 1)%N;
  wd_queue b k : (b, k) ∈ sw_queue s → D !! b = Some k ∧ (k < d)%N ∧ (n ≤ k)%N;
  wd_sorted : StronglySorted (λ x y, x.2 ≤ y.2)%N (sw_queue s);
  wd_edges a cid : P (a, cid) → near_edge D n a cid;
  wd_all b k : D !! b = Some k → k = d ∨ (b, k) ∈ sw_queue s ∨ open b ∨ ∀ cid, cid ∈ contracts_at proj outward b → P (b, cid);
  wd_tally : tallied D P (sw_out s) (sw_tally s)
}.

(** What is asked of a party met at [k] by one more party. *)
Lemma unmet_insert (D : depths) next n b k : D !! next = None → next ≠ subject →
  unmet_or (<[next := n]> D) b k ↔ b = next ∧ k = n ∨ unmet_or D b k.
Proof.
  intros Hn Hs. unfold unmet_or. rewrite lookup_insert_Some. split.
  - intros [[[-> ->]|[? ?]] ?]; auto.
  - intros [[-> ->]|[Hb ?]]; [by split; [left|]|]. split; [|done]. right. split; [|done]. intros ->. congruence.
Qed.
Lemma has_further_spec b : has_further_edges proj outward b = true ↔ contracts_at proj outward b ≠ ∅.
Proof. unfold has_further_edges. by rewrite negb_true_iff, bool_decide_eq_false. Qed.
Lemma truncated_insert (D : depths) next k : D !! next = None →
  (∃ b, <[next := k]> D !! b = Some d ∧ contracts_at proj outward b ≠ ∅) ↔
  (k = d ∧ contracts_at proj outward next ≠ ∅) ∨ ∃ b, D !! b = Some d ∧ contracts_at proj outward b ≠ ∅.
Proof.
  intros Hn. split.
  - intros (b & [[<- ->]|[? ?]]%lookup_insert_Some & ?); eauto.
  - intros [[-> ?]|(b & Hb & ?)]; [exists next; by rewrite lookup_insert_eq|].
    exists b. rewrite lookup_insert_ne by congruence. done.
Qed.
Lemma met_ex (D : depths) next k (R : EntityId → N → Prop) : D !! next = None → next ≠ subject →
  (∃ b j, unmet_or (<[next := k]> D) b j ∧ R b j) ↔ R next k ∨ ∃ b j, unmet_or D b j ∧ R b j.
Proof.
  intros Hn Hs. split.
  - intros (b & j & [[-> ->]|Hb]%unmet_insert & HR); eauto.
  - intros [HR|(b & j & Hb & HR)]; [exists next, k|exists b, j]; rewrite unmet_insert by done; auto.
Qed.

(** How [meet] ends, the flag at the bound included. *)
Lemma met_end next k s (Hk : (k ≤ d)%N) out t (R : list BlastNode → Tally → Prop) :
  R out (truncate_if (bool_decide (k = d) && has_further_edges proj outward next) t) →
  let s' := if (k <? d)%N then mkSweep ({[next]} ∪ sw_seen s) (sw_queue s ++ [(next, k)]) out t
            else mkSweep ({[next]} ∪ sw_seen s) (sw_queue s) out (truncate_if (has_further_edges proj outward next) t) in
  R (sw_out s') (sw_tally s').
Proof.
  destruct (N.ltb_spec k d); cbn [sw_out sw_tally];
    [rewrite bool_decide_eq_false_2 by lia; by destruct t|rewrite bool_decide_eq_true_2 by lia; done].
Qed.

Lemma meet_tallied D P s next k : D !! next = None → next ≠ subject → (k ≤ d)%N → tallied D P (sw_out s) (sw_tally s) →
  let s' := meet d proj outward next k s in tallied (<[next := k]> D) P (sw_out s') (sw_tally s').
Proof.
  intros Hn Hs Hk [H1 H2 H3 H4 H5 H6].
  assert (∀ out t, (∀ x, x ∈ out ↔ x ∈ sw_out s ∨ shown_as x next k) → NoDup (bn_id <$> out) → ty_cut t = ty_cut (sw_tally s) →
    (∀ x, x ∈ ty_services t ↔ x ∈ ty_services (sw_tally s) ∨ brings x next k) →
    (∀ x, x ∈ ty_dangling t ↔ x ∈ ty_dangling (sw_tally s) ∨ missing x next k) → ty_truncated t = ty_truncated (sw_tally s) →
    tallied (<[next := k]> D) P out (truncate_if (bool_decide (k = d) && has_further_edges proj outward next) t)) as Hmet.
  { intros out t E1 E2 E3 E4 E5 E6. split; cbn [ty_cut ty_services ty_dangling ty_truncated truncate_if]; [|done|by rewrite E3| | |].
    - intros x. rewrite E1, H1, (met_ex D next k (shown_as x)) by done. tauto.
    - intros x. rewrite E4, H4, (met_ex D next k (brings x)) by done. tauto.
    - intros x. rewrite E5, H5, (met_ex D next k (missing x)) by done. tauto.
    - rewrite orb_true_iff, andb_true_iff, bool_decide_eq_true, has_further_spec, truncated_insert, E6, H6 by done. tauto. }
  unfold meet. destruct (pr_entities proj !! next) as [e|] eqn:He.
  - apply (met_end next k s Hk (sw_out s ++ [node_of next k e]) (serve_also (ent_service e) (sw_tally s))), Hmet; [| |done| | |done].
    + intros x. rewrite elem_of_app, list_elem_of_singleton. unfold shown_as. naive_solver.
    + rewrite fmap_app, NoDup_app. split_and!; [done| |apply NoDup_singleton].
      intros b (x & -> & (b' & j & [Hb _] & e' & _ & ->)%H1)%list_elem_of_fmap. cbn. rewrite list_elem_of_singleton. congruence.
    + intros x. unfold brings, serve_also. cbn. destruct (ent_service e) eqn:Es; rewrite ?elem_of_union, ?elem_of_singleton; naive_solver.
    + intros x. unfold missing. naive_solver.
  - apply (met_end next k s Hk (sw_out s) (dangle_also (entity_str next) (sw_tally s))), Hmet; [|done|done| | |done].
    + intros x. unfold shown_as. naive_solver.
    + intros x. unfold brings. naive_solver.
    + intros x. unfold missing, dangle_also. cbn. rewrite elem_of_union, elem_of_singleton. naive_solver.
Qed.

(** Following one contract of the party worked on. *)
Definition also (P : EntityId * Cid → Prop) (a : EntityId) (cid : Cid) : EntityId * Cid → Prop := λ x, P x ∨ x = (a, cid).
Lemma also_ex P a0 c0 (R : Cid → Prop) : (∃ a c, also P a0 c0 (a, c) ∧ R c) ↔ R c0 ∨ ∃ a c, P (a, c) ∧ R c.
Proof.
  unfold also. split.
  - intros (a & c & [Hp|[= -> ->]] & HR); [right; by exists a, c|by left].
  - intros [HR|(a & c & Hp & HR)]; [exists a0, c0; by split; [right|]|exists a, c; by split; [left|]].
Qed.
Lemma edge_tallied D P a cid out t : tallied D P out t →
  tallied D (also P a cid) out
    match pr_contracts proj !! cid with Some r => cut_also (cid_str (rec_cid r)) t | None => dangle_also (cid_str cid) t end.
Proof.
  intros [H1 H2 H3 H4 H5 H6].
  assert (∀ x, (∃ a' c, also P a cid (a', c) ∧ cuts x c) ↔ cuts x cid ∨ ∃ a' c, P (a', c) ∧ cuts x c) as Hcuts by (intros x; apply also_ex).
  assert (∀ x, (∃ a' c, also P a cid (a', c) ∧ unfiled x c) ↔ unfiled x cid ∨ ∃ a' c, P (a', c) ∧ unfiled x c) as Hun by (intros x; apply also_ex).
  destruct (pr_contracts proj !! cid) as [r|] eqn:Hc; (split; cbn [ty_cut ty_services ty_dangling ty_truncated cut_also dangle_also]; [done|done| |done| |done]);
    intros x; rewrite ?Hcuts, ?Hun, ?elem_of_union, ?elem_of_singleton, ?H3, ?H5.
  - assert (cuts x cid ↔ x = cid_str (rec_cid r)) as ->; [|tauto]. unfold cuts. rewrite Hc. naive_solver.
  - assert (¬ unfiled x cid) by (unfold unfiled; rewrite Hc; naive_solver). tauto.
  - assert (¬ cuts x cid) by (unfold cuts; rewrite Hc; naive_solver). tauto.
  - assert (unfiled x cid ↔ x = cid_str cid) as ->; [|tauto]. unfold unfiled. rewrite Hc. naive_solver.
Qed.
Lemma also_edges (D D' : depths) P n cur cid :
  (∀ a c, P (a, c) → near_edge D n a c) → D ⊆ D' → D !! cur = Some n → (n < d)%N → cid ∈ contracts_at proj outward cur →
  (∀ r, pr_contracts proj !! cid = Some r → ∃ m, D' !! far_end outward r = Some m ∧ (m ≤ n + 1)%N) →
  ∀ a c, also P cur cid (a, c) → near_edge D' n a c.
Proof.
  intros Hold Hsub Hcur Hn Hcid Hnew a c [Hac|[= -> ->]].
  - destruct (Hold a c Hac) as (k & Ha & Hkd & Hkn & Hin & Hr). exists k. split_and!; [by eapply lookup_weaken|done|done|done|].
    intros r (m & Hm & ?)%Hr. exists m. split; [by eapply lookup_weaken|done].
  - exists n. split_and!; [by eapply lookup_weaken|done|lia|done|done].
Qed.
Lemma meet_frame next k s :
  sw_seen (meet d proj outward next k s) = {[next]} ∪ sw_seen s ∧
  sw_queue (meet d proj outward next k s) = sw_queue s ++ (if (k <? d)%N then [(next, k)] else []).
Proof. unfold meet. destruct (pr_entities proj !! next); destruct (k <? d)%N; cbn; by rewrite ?app_nil_r. Qed.
Lemma follow_walked D P s cur n cid :
  walked D P n (eq cur) s → D !! cur = Some n → (n < d)%N → cid ∈ contracts_at proj outward cur →
  ∃ D', D ⊆ D' ∧ walked D' (also P cur cid) n (eq cur) (follow d proj outward n s cid).
Proof.
  intros [W1 W2 W3 W4 W5 W6 W7 W8] Hcur Hn Hcid. pose proof (edge_tallied _ _ cur cid _ _ W8) as Ht. unfold follow.
  pose proof (λ D' HD, also_edges D D' P n cur cid W6 HD Hcur Hn Hcid) as Hedges.
  assert (∀ b k, D !! b = Some k → k = d ∨ (b, k) ∈ sw_queue s ∨ cur = b ∨ ∀ c, c ∈ contracts_at proj outward b → also P cur cid (b, c)) as Hall.
  { intros b k [?|[?|[?|Hp]]]%W7; [by left|by right; left|by right; right; left|]. right; right; right. intros c Hc. left. by apply Hp. }
  destruct (pr_contracts proj !! cid) as [r|] eqn:Hr; cycle 1.
  { exists D. split; [done|]. split; cbn; try done. by apply (Hedges D). }
  replace (d <? n + 1)%N with false by (symmetry; apply N.ltb_ge; lia). cbn [sw_seen sw_queue sw_out sw_tally].
  destruct (decide (far_end outward r ∈ sw_seen s)) as [Hin|Hout]; [rewrite bool_decide_eq_true_2 by done|rewrite bool_decide_eq_false_2 by done].
  { exists D. split; [done|]. split; cbn; try done. apply (Hedges D); [done|]. intros r' [= <-].
    apply W1 in Hin as [m Hm]. exists m. split; [done|]. by apply W3 in Hm as (_ & _ & ?). }
  set (next := far_end outward r) in *.
  assert (D !! next = None) as Hnew by (apply eq_None_not_Some; by rewrite <-W1).
  assert (next ≠ subject) as Hsub by congruence.
  assert (D ⊆ <[next := n + 1]> D)%N as HD by by apply insert_subseteq.
  exists (<[next := n + 1]> D)%N. split; [done|].
  set (s1 := mkSweep _ _ _ _). pose proof (meet_tallied D (also P cur cid) s1 next (n + 1) Hnew Hsub ltac:(lia) Ht) as Ht'.
  destruct (meet_frame next (n + 1) s1) as [Es Eq]. cbn [s1 sw_seen sw_queue] in Es, Eq.
  split.
  - intros b. rewrite Es, elem_of_union, elem_of_singleton, W1, lookup_insert_is_Some. destruct (decide (next = b)); naive_solver.
  - by apply lookup_insert_Some; right.
  - intros b k [[<- <-]|[_ Hb]]%lookup_insert_Some; [|by apply W3]. split_and!; [|lia|lia].
    eapply reach_step; [by apply W3|done|done].
  - rewrite Eq. intros b k [Hq|Hb]%elem_of_app.
    + apply W4 in Hq as (Hk & ? & ?). split; [by eapply lookup_weaken|done].
    + destruct (N.ltb_spec (n + 1) d); [apply list_elem_of_singleton in Hb as [= -> ->]|by apply elem_of_nil in Hb].
      rewrite lookup_insert_eq. split_and!; [done|done|lia].
  - rewrite Eq. destruct (n + 1 <? d)%N; [|by rewrite app_nil_r]. apply StronglySorted_app_2; [|done|repeat constructor].
    intros [b k] y Hb ->%list_elem_of_singleton. cbn. apply W4 in Hb as (Hb & _). by apply W3 in Hb as (_ & _ & ?).
  - apply Hedges; [done|]. intros r' [= <-]. exists (n + 1)%N. rewrite lookup_insert_eq. split; [done|lia].
  - rewrite Eq. intros b k [[<- <-]|[_ Hb]]%lookup_insert_Some; rewrite elem_of_app.
    + destruct (N.ltb_spec (n + 1) d); [right; left; right; by apply list_elem_of_singleton|left; lia].
    + destruct (Hall b k Hb) as [?|[?|?]]; auto.
  - done.
Qed.

Lemma visit_walked l D P s cur n :
  walked D P n (eq cur) s → D !! cur = Some n → (n < d)%N → (∀ c, c ∈ l → c ∈ contracts_at proj outward cur) →
  ∃ D' P', D ⊆ D' ∧ (∀ x, P x → P' x) ∧ (∀ c, c ∈ l → P' (cur, c)) ∧
    walked D' P' n (eq cur) (foldl (follow d proj outward n) s l).
Proof.
  revert D P s. induction l as [|c l IH]; intros D P s Hw Hcur Hn Hl.
  { exists D, P. split_and!; [done|done|by intros ? ?%elem_of_nil|done]. }
  destruct (follow_walked D P s cur n c Hw Hcur Hn) as (D1 & HD1 & Hw1); [apply Hl; by left|].
  destruct (IH D1 _ _ Hw1) as (D2 & P2 & HD2 & HP2 & Hl2 & Hw2); [by eapply lookup_weaken|done|intros ? ?; apply Hl; by right|].
  exists D2, P2. split_and!; [by etrans|intros x ?; apply HP2; by left| |done].
  intros x [->|Hx]%elem_of_cons; [apply HP2; by right|by apply Hl2].
Qed.

(** One round: the party at the head of the queue. *)
Definition popped (s : Sweep) (rest : list (EntityId * N)) : Sweep := mkSweep (sw_seen s) rest (sw_out s) (sw_tally s).
Definition nobody (_ : EntityId) : Prop := False.
Lemma round_walked D P s n cur k rest :
  walked D P n nobody s → sw_queue s = (cur, k) :: rest →
  ∃ D' P', walked D' P' k nobody (visit d proj outward cur k (popped s rest)).
Proof.
  intros [W1 W2 W3 W4 W5 W6 W7 W8] Hq. rewrite Hq in W4, W5, W7.
  destruct (W4 cur k) as (Hcur & Hkd & Hnk); [by left|]. apply StronglySorted_cons in W5 as [Hhd W5].
  destruct (visit_walked (elements (contracts_at proj outward cur)) D P (popped s rest) cur k) as (D' & P' & HD & HP & Hl & [V1 V2 V3 V4 V5 V6 V7 V8]);
    [|done|done|by intros c ?%elem_of_elements|].
  { split; cbn; [done|done| | |done| | |done].
    - intros b j Hb. destruct (W3 b j Hb) as (? & ? & ?). split_and!; [done|done|lia].
    - intros b j Hb. destruct (W4 b j) as (? & ? & ?); [by right|]. split_and!; [done|done|].
      rewrite Forall_forall in Hhd. apply (Hhd _ Hb).
    - intros a c (j & ? & ? & ? & ? & ?)%W6. exists j. split_and!; [done|done|lia|done..].
    - intros b j [?|[[[= -> ->]|?]%elem_of_cons|[[]|?]]]%W7; auto. }
  exists D', P'. unfold visit. split; try done.
  intros b j [?|[?|[<-|?]]]%V7; auto. right; right; right. intros c Hc. apply Hl. by apply elem_of_elements.
Qed.

(** *** The queue runs dry *)

Definition ends : gset EntityId := list_to_set (far_end outward <$> (map_to_list (pr_contracts proj)).*2).
Definition measure (s : Sweep) : nat := length (sw_queue s) + size (ends ∖ sw_seen s).
Lemma follow_measure n s cid : (n < d)%N → measure (follow d proj outward n s cid) ≤ measure s.
Proof.
  intros Hn. unfold follow. destruct (pr_contracts proj !! cid) as [r|] eqn:Hr; [|done].
  replace (d <? n + 1)%N with false by (symmetry; apply N.ltb_ge; lia). cbn [sw_seen].
  case_bool_decide as Hin; [done|]. set (s1 := mkSweep _ _ _ _). unfold measure.
  destruct (meet_frame (far_end outward r) (n + 1) s1) as [-> ->]. cbn [s1 sw_seen sw_queue]. rewrite length_app.
  assert (size (ends ∖ ({[far_end outward r]} ∪ sw_seen s)) < size (ends ∖ sw_seen s)) as Hlt.
  { assert (far_end outward r ∈ ends) as He.
    { apply elem_of_list_to_set, list_elem_of_fmap. exists r. split; [done|].
      apply list_elem_of_fmap. exists (cid, r). split; [done|]. by apply elem_of_map_to_list. }
    apply subset_size. clear -Hin He. set_solver. }
  destruct (n + 1 <? d)%N; cbn; lia.
Qed.
Lemma visit_measure cur n s : (n < d)%N → measure (visit d proj outward cur n s) ≤ measure s.
Proof.
  intros Hn. unfold visit. generalize (elements (contracts_at proj outward cur)). intros l. revert s.
  induction l as [|c l IH]; intros s; [done|]. cbn. etrans; [apply IH|by apply follow_measure].
Qed.
Lemma sweep_done fuel D P n s : walked D P n nobody s → measure s ≤ fuel →
  ∃ D' P' n', walked D' P' n' nobody (sweep d proj outward fuel s) ∧ sw_queue (sweep d proj outward fuel s) = [].
Proof.
  revert D P n s. induction fuel as [|fuel IH]; intros D P n s Hw Hm.
  { exists D, P, n. split; [done|]. unfold measure in Hm. cbn. destruct (sw_queue s); [done|cbn in Hm; lia]. }
  cbn [sweep]. destruct (sw_queue s) as [|[cur k] rest] eqn:Hq; [by exists D, P, n|].
  destruct (round_walked D P s n cur k rest Hw Hq) as (D' & P' & Hw').
  assert (k < d)%N as Hk by (apply (wd_queue _ _ _ _ _ Hw cur k); rewrite Hq; by left).
  apply (IH _ _ _ _ Hw'). pose proof (visit_measure cur k (popped s rest) Hk) as Hv.
  unfold measure at 1 in Hm. rewrite Hq in Hm. unfold measure at 2 in Hv. cbn in Hv, Hm. lia.
Qed.

(** *** What a finished walk has met *)

Abbreviation hops := (reach proj outward subject).
Lemma finished_near D P n s m b : walked D P n nobody s → sw_queue s = [] → hops m b → (m ≤ d)%N → ∃ k, D !! b = Some k ∧ (k ≤ m)%N.
Proof.
  intros [W1 W2 W3 W4 W5 W6 W7 W8] Hq. induction 1 as [|m a cid r _ IH Hcid Hr]; intros Hm; [exists 0%N; by split|].
  destruct IH as (k & Ha & Hk); [lia|].
  destruct (W7 a k Ha) as [->|[Hin|[[]|Hp]]]; [lia|rewrite Hq in Hin; by apply elem_of_nil in Hin|].
  destruct (W6 a cid (Hp cid Hcid)) as (k' & Ha' & _ & _ & _ & Hfar). destruct (Hfar r Hr) as (j & Hj & ?).
  exists j. split; [done|]. rewrite Ha in Ha'. injection Ha' as [= <-]. lia.
Qed.
Lemma finished_within D P n s b k : walked D P n nobody s → sw_queue s = [] → D !! b = Some k ↔ within proj outward subject d k b.
Proof.
  intros Hw Hq. split.
  - intros Hb. destruct (wd_reach _ _ _ _ _ Hw b k Hb) as (Hr & Hk & _). split; [|done]. split; [done|]. intros m Hm.
    destruct (N.le_gt_cases m d) as [Hle|]; [|lia]. destruct (finished_near D P n s m b Hw Hq Hm Hle) as (j & Hj & ?). by simplify_eq.
  - intros [[Hr Hmin] Hk]. destruct (finished_near D P n s k b Hw Hq Hr Hk) as (j & Hj & ?). rewrite Hj. f_equal.
    apply N.le_antisymm; [done|]. by apply Hmin, (wd_reach _ _ _ _ _ Hw).
Qed.
Lemma finished_crossed D P n s a cid : walked D P n nobody s → sw_queue s = [] → P (a, cid) ↔ crossed proj outward subject d a cid.
Proof.
  intros Hw Hq. split.
  - intros (k & Ha & Hk & _ & Hin & _)%(wd_edges _ _ _ _ _ Hw). apply (finished_within D P n s) in Ha as [Ha _]; [|done..]. by exists k.
  - intros (k & Ha & Hk & Hin). assert (D !! a = Some k) as HD by (apply (finished_within D P n s); [done..|split; [done|lia]]).
    destruct (wd_all _ _ _ _ _ Hw a k HD) as [->|[Hq'|[[]|Hp]]]; [lia|rewrite Hq in Hq'; by apply elem_of_nil in Hq'|by apply Hp].
Qed.

Definition met (b : EntityId) (k : N) : Prop := within proj outward subject d k b ∧ b ≠ subject.
(** What a walk reports, over the distances alone. *)
Record surveyed (out : list BlastNode) (t : Tally) : Prop := mkSurveyed {
  sv_out x : x ∈ out ↔ ∃ b k, met b k ∧ shown_as x b k;
  sv_once : NoDup (bn_id <$> out);
  sv_sorted : StronglySorted node_le out;
  sv_cut x : x ∈ ty_cut t ↔ x ∈ ty_cut t0 ∨ ∃ a cid, crossed proj outward subject d a cid ∧ cuts x cid;
  sv_services x : x ∈ ty_services t ↔ x ∈ ty_services t0 ∨ ∃ b k, met b k ∧ brings x b k;
  sv_dangling x : x ∈ ty_dangling t ↔ x ∈ ty_dangling t0 ∨ (∃ b k, met b k ∧ missing x b k) ∨
    ∃ a cid, crossed proj outward subject d a cid ∧ unfiled x cid;
  sv_truncated : ty_truncated t = true ↔ ty_truncated t0 = true ∨ ∃ b, at_distance proj outward subject d b ∧ contracts_at proj outward b ≠ ∅
}.
#[local] Instance node_le_total : Total node_le.
Proof.
  intros a b. unfold node_le. destruct (N.lt_trichotomy (bn_depth a) (bn_depth b)) as [?|[E|?]]; [by left; left| |by right; left].
  destruct (total String.le (entity_str (bn_id a)) (entity_str (bn_id b))); [left|right]; right; by split.
Qed.
#[local] Instance node_le_trans : Transitive node_le.
Proof.
  intros a b c. unfold node_le. intros [?|[? H1]] [?|[? H2]]; [left; lia|left; lia|left; lia|right]. split; [lia|by etrans].
Qed.
Lemma started : walked {[subject := 0%N]} (λ _, False) 0 nobody (mkSweep {[subject]} [(subject, 0%N)] [] t0).
Proof.
  assert (∀ b k, ({[subject := 0%N]} : depths) !! b = Some k ↔ b = subject ∧ k = 0%N) as Hsingle.
  { intros b k. rewrite lookup_singleton_Some. naive_solver. }
  split; cbn; try done.
  - intros b. rewrite elem_of_singleton. split; [intros ->; exists 0%N; by apply Hsingle|by intros [k [-> _]%Hsingle]].
  - by apply Hsingle.
  - intros b k [-> ->]%Hsingle. split_and!; [constructor|lia|lia].
  - intros b k [= -> ->]%list_elem_of_singleton. split_and!; [by apply Hsingle|lia|lia].
  - repeat constructor.
  - intros b k [-> ->]%Hsingle. right; left. by apply list_elem_of_singleton.
  - assert (∀ b k, ¬ unmet_or {[subject := 0%N]} b k) as Hno by (intros b k [[-> _]%Hsingle Hs]; by apply Hs).
    split; cbn; [|constructor| | | |].
    + intros x. split; [by intros ?%elem_of_nil|intros (b & k & []%Hno & _)].
    + naive_solver.
    + intros x. split; [by left|]. intros [?|(b & k & []%Hno & _)]; done.
    + intros x. split; [by left|]. intros [?|[(b & k & []%Hno & _)|(a & c & [] & _)]]; done.
    + split; [by left|]. intros [?|(b & [-> E]%Hsingle & _)]; [done|lia].
Qed.
Lemma finished_surveyed D P n s : walked D P n nobody s → sw_queue s = [] → surveyed (merge_sort node_le (sw_out s)) (sw_tally s).
Proof.
  intros Hw Hq. pose proof (λ b k, finished_within D P n s b k Hw Hq) as HD. pose proof (λ a c, finished_crossed D P n s a c Hw Hq) as HP.
  destruct (wd_tally _ _ _ _ _ Hw) as [H1 H2 H3 H4 H5 H6]. unfold unmet_or in *.
  assert (∀ b, D !! b = Some d ↔ at_distance proj outward subject d b) as Hat by (intros b; rewrite HD; unfold within; naive_solver lia).
  split.
  - intros x. rewrite merge_sort_Permutation, H1. unfold met. by setoid_rewrite HD.
  - by rewrite merge_sort_Permutation.
  - apply StronglySorted_merge_sort; apply _.
  - intros x. rewrite H3. by setoid_rewrite HP.
  - intros x. rewrite H4. unfold met. by setoid_rewrite HD.
  - intros x. rewrite H5. unfold met. setoid_rewrite HD. by setoid_rewrite HP.
  - rewrite H6. by setoid_rewrite Hat.
Qed.
Lemma size_list_to_set_le (l : list EntityId) : size (list_to_set l : gset EntityId) ≤ length l.
Proof.
  apply (submseteq_length (elements (list_to_set l : gset EntityId))), NoDup_submseteq; [apply NoDup_elements|].
  intros x. by rewrite elem_of_elements, elem_of_list_to_set.
Qed.
Lemma start_measure : measure (mkSweep {[subject]} [(subject, 0%N)] [] t0) ≤ S (size (pr_contracts proj)).
Proof.
  unfold measure. cbn [sw_queue sw_seen length]. apply le_n_S. etrans; [apply subseteq_size, subseteq_difference_l; reflexivity|].
  unfold ends. etrans; [apply size_list_to_set_le|]. by rewrite !length_fmap, length_map_to_list.
Qed.
Lemma traverse_surveyed : surveyed (traverse d proj outward subject t0).1 (traverse d proj outward subject t0).2.
Proof.
  unfold traverse. cbn [fst snd]. destruct (sweep_done _ _ _ _ _ started start_measure) as (D & P & n & Hw & Hq).
  by eapply finished_surveyed.
Qed.
Lemma reach_within n b : hops n b → (n ≤ d)%N → ∃ k, within proj outward subject d k b.
Proof.
  destruct (sweep_done _ _ _ _ _ started start_measure) as (D & P & m & Hw & Hq). intros Hr Hn.
  destruct (finished_near D P m _ n b Hw Hq Hr Hn) as (k & Hk & _). exists k. by eapply finished_within.
Qed.
(** Where no party at the bound has contracts beyond, there is nothing beyond. *)
Lemma nothing_beyond n b : (∀ a, at_distance proj outward subject d a → contracts_at proj outward a = ∅) → hops n b →
  ∃ k, within proj outward subject d k b.
Proof.
  intros Hend. induction 1 as [|n a cid r _ IH Hcid Hr]; [exists 0%N; split; [apply at_distance_self|lia]|].
  destruct IH as (k & [Hk Hkd]). destruct (decide (k = d)) as [->|Hne].
  - apply Hend in Hk. rewrite Hk in Hcid. by apply not_elem_of_empty in Hcid.
  - apply (reach_within (k + 1)); [|lia]. eapply reach_step; [apply Hk|done|done].
Qed.
End Walked.

(** ** What the report says *)

Lemma two_ways (R : bool → Prop) : (∃ b, R b) ↔ R true ∨ R false.
Proof. split; [intros [[] ?]; auto|intros [?|?]; eauto]. Qed.
Lemma radius_surveyed subject depth proj : let r := blast_radius subject depth proj in let d := N.max depth 1 in
  ∃ t1 t2, surveyed d proj true subject (mkTally ∅ ∅ ∅ false) (br_forward r) t1 ∧ surveyed d proj false subject t1 (br_reverse r) t2 ∧
    (∀ x, x ∈ br_cut_set r ↔ x ∈ ty_cut t2) ∧ (∀ x, x ∈ br_impacted_services r ↔ brings proj x subject 0 ∨ x ∈ ty_services t2) ∧
    (∀ x, x ∈ br_dangling r ↔ x ∈ ty_dangling t2) ∧ br_truncated r = ty_truncated t2.
Proof.
  intros r d. assert (1 ≤ d)%N as Hd by lia.
  pose proof (traverse_surveyed d proj true subject (mkTally ∅ ∅ ∅ false) Hd) as H1.
  pose proof (traverse_surveyed d proj false subject (traverse d proj true subject (mkTally ∅ ∅ ∅ false)).2 Hd) as H2.
  subst r. unfold blast_radius. fold d. destruct (traverse d proj true _ _) as [forward t1]. cbn [snd fst] in *.
  destruct (traverse d proj false _ _) as [reverse t2]. cbn [snd fst] in *. exists t1, t2. cbv zeta. cbn [br_forward br_reverse br_cut_set br_impacted_services br_dangling br_truncated].
  unfold brings. destruct (pr_entities proj !! subject) as [e|]; split_and!; try done; intros x; rewrite elem_of_sort_strings, elem_of_elements; try done.
  - cbn. destruct (ent_service e) eqn:Es; rewrite ?elem_of_union, ?elem_of_singleton; naive_solver.
  - naive_solver.
Qed.

(** C34: a report is a matter of distances alone, in whatever order contracts are visited:
    each direction lists once, by distance and id, exactly the registered parties within the
    bound; the cut set is the contracts on file of parties nearer than the bound; impacted
    services and dangling references are exactly those met; the radius is marked truncated
    exactly when a party at the bound has contracts further on, and an unmarked report has
    every party that can be reached at all. *)
Theorem radius_exact subject depth proj : let r := blast_radius subject depth proj in let d := N.max depth 1 in
  (∀ outward, let l := if outward : bool then br_forward r else br_reverse r in
     StronglySorted node_le l ∧ NoDup (bn_id <$> l) ∧
     ∀ x, x ∈ l ↔ ∃ b k, met d proj outward subject b k ∧ shown_as proj x b k) ∧
  (∀ x, x ∈ br_cut_set r ↔ ∃ outward a cid, crossed proj outward subject d a cid ∧ cuts proj x cid) ∧
  (∀ x, x ∈ br_impacted_services r ↔ brings proj x subject 0 ∨ ∃ outward b k, met d proj outward subject b k ∧ brings proj x b k) ∧
  (∀ x, x ∈ br_dangling r ↔ ∃ outward, (∃ b k, met d proj outward subject b k ∧ missing proj x b k) ∨
     ∃ a cid, crossed proj outward subject d a cid ∧ unfiled proj x cid) ∧
  (br_truncated r = true ↔ ∃ outward b, at_distance proj outward subject d b ∧ contracts_at proj outward b ≠ ∅) ∧
  (br_truncated r = false → ∀ outward n b, reach proj outward subject n b → ∃ k, within proj outward subject d k b).
Proof.
  intros r d. destruct (radius_surveyed subject depth proj) as (t1 & t2 & [F1 F2 F3 F4 F5 F6 F7] & [R1 R2 R3 R4 R5 R6 R7] & E1 & E2 & E3 & E4).
  fold r d in F1, F2, F3, F4, F5, F6, F7, R1, R2, R3, R4, R5, R6, R7, E1, E2, E3, E4. cbn in F4, F5, F6, F7.
  assert (br_truncated r = true ↔ ∃ outward b, at_distance proj outward subject d b ∧ contracts_at proj outward b ≠ ∅) as Ht.
  { rewrite E4, R7, F7, two_ways. naive_solver. }
  split_and!.
  - intros []; cbv zeta; split_and!; done.
  - intros x. rewrite E1, R4, F4, two_ways, elem_of_empty. tauto.
  - intros x. rewrite E2, R5, F5, two_ways, elem_of_empty. tauto.
  - intros x. rewrite E3, R6, F6, two_ways, elem_of_empty. tauto.
  - done.
  - intros Hf outward n b Hr. apply (nothing_beyond d proj outward subject (mkTally ∅ ∅ ∅ false)) with n; [lia| |done].
    intros a Ha. destruct (decide (contracts_at proj outward a = ∅)) as [?|Hne]; [done|].
    assert (br_truncated r = true) by (apply Ht; eauto). congruence.
Qed.

(** Every party of either list once. *)
Lemma add_node_spec acc n : NoDup (bn_id <$> acc) →
  NoDup (bn_id <$> add_node acc n) ∧ ∀ b, b ∈ bn_id <$> add_node acc n ↔ b ∈ bn_id <$> acc ∨ b = bn_id n.
Proof.
  intros Hnd. unfold add_node. destruct (existsb _ acc) eqn:E.
  - split; [done|]. intros b. split; [by left|]. intros [? | ->]; [done|].
    apply existsb_True in E as (m & Hm & E%bool_decide_eq_true). rewrite <-E. by apply list_elem_of_fmap_2.
  - rewrite fmap_app. split.
    + apply NoDup_app. split_and!; [done| |apply NoDup_singleton]. intros b (m & -> & Hm)%list_elem_of_fmap Heq%list_elem_of_singleton.
      eapply existsb_False in E; [|exact Hm]. by apply bool_decide_eq_false in E.
    + intros b. rewrite elem_of_app, list_elem_of_fmap. cbn. by rewrite list_elem_of_singleton.
Qed.
Lemma nodes_once r : NoDup (bn_id <$> nodes r) ∧ ∀ b, b ∈ bn_id <$> nodes r ↔ b ∈ bn_id <$> (br_forward r ++ br_reverse r).
Proof.
  unfold nodes. generalize (br_forward r ++ br_reverse r). intros l.
  assert (∀ acc, NoDup (bn_id <$> acc) → NoDup (bn_id <$> foldl add_node acc l) ∧
    ∀ b, b ∈ bn_id <$> foldl add_node acc l ↔ b ∈ bn_id <$> acc ∨ b ∈ bn_id <$> l) as Hgen.
  { induction l as [|n l IH]; intros acc Hacc; cbn [foldl].
    - split; [done|]. intros b. split; [by left|]. intros [?|Hn]; [done|by apply elem_of_nil in Hn].
    - destruct (add_node_spec acc n Hacc) as [H1 H2]. destruct (IH _ H1) as [H3 H4]. split; [done|].
      intros b. rewrite H4, H2, fmap_cons, elem_of_cons. tauto. }
  destruct (Hgen [] (NoDup_nil_2)) as [? Hb]. split; [done|]. intros b. rewrite Hb. split; [|by right]. intros [Hn|?]; [by apply elem_of_nil in Hn|done].
Qed.

Module BlastExamples.

Definition id (s : string) : EntityId := mkEntityId ("spiffe://bank/" ++ s).
Definition party (s : string) (service : string) : Entity :=
  mkEntity (id s) McpServer (mkHumanRef "pat@bank") (Some service) (mkTier 3) (mkZoneId "internal") (Pin_empty 0) []
    Attested 100 Active [] [] None 0 10 10 10 0 ENTITY_SCHEMA.
Definition between (cid : string) (status : ContractStatus) (caller callee : EntityId) : ContractRecord :=
  mkContractRecord (mkCid cid) (mkJti cid) caller callee (mkZoneId "internal") (mkZoneId "internal")
    (mkTier 3) "sha256:m" "sha256:d" (mkSurface ["read"] [] []) Terms_default ["warden:mediator"]
    "sha256:j" status (mkApprovalRef None None None StandingPolicy None []) "v1" 20 4000 None 2.
Definition file (p : Projection) (c : ContractRecord) : Projection :=
  index_contract (with_contracts p (<[rec_cid c := c]> (pr_contracts p))) c.
(** a calls b, b calls c, c calls a; an old contract of a to an unregistered party is revoked. *)
Definition estate : Projection :=
  foldl file (with_entities Projection_default {[ id "a" := party "a" "Loans"; id "b" := party "b" "Ledger"; id "c" := party "c" "Audit" ]})
    [between "k1" CActive (id "a") (id "b"); between "k2" CActive (id "b") (id "c"); between "k3" CActive (id "c") (id "a");
     between "k0" CRevoked (id "a") (id "gone")].
Definition report : BlastReport := blast_radius (id "a") 3 estate.
Lemma report_ok :
  (bn_id <$> br_forward report) = [id "b"; id "c"] ∧ (bn_id <$> br_reverse report) = [id "c"; id "b"] ∧
  br_impacted_services report = ["Audit"; "Ledger"; "Loans"] ∧ br_dangling report = ["spiffe://bank/gone"] ∧ br_truncated report = false.
Proof. vm_compute. split_and!; reflexivity. Qed.
(** The cut set is described as the contracts that would be revoked: it has contracts between other parties, which
    quarantining the subject leaves alone, and contracts revoked before. *)
Lemma cut_set_has_others :
  br_cut_set report = ["k0"; "k1"; "k2"; "k3"] ∧ contracts_for estate (id "a") = [mkCid "k0"; mkCid "k1"; mkCid "k3"] ∧
  rec_status <$> pr_contracts estate !! mkCid "k0" = Some CRevoked.
Proof. vm_compute. split_and!; reflexivity. Qed.
(** The command answers a bounded report with an error beside it. *)
Lemma truncated_command :
  (blast_radius_cmd (id "a") (Some 1%N) estate).1 = Err BLAST_DEPTH_TRUNCATED ∧ (blast_radius_cmd (id "x") None estate).1 = Err ENTITY_NOT_FOUND.
Proof. vm_compute. split; reflexivity. Qed.
End BlastExamples.
