(* ===== verification/Keys.v ===== *)
(** * Keys: the issuer keyring and its rotation ([crates/wc-control/src/keys.rs])

    The ring, its operations and the [keys] commands of the command line, which load the ring
    from its file, change it and write it back.  TOML is third-party code: [KeyringToml].  A
    write that fails leaves in the file whatever it leaves: each command takes the disk's
    answer as an argument. *)

From Stdlib Require Import ZArith.
From S2P Require Import Prelude Text Errors Model Json Canon Contract Artifact Log Store Std Rekor.

(** ** Entries *)

Definition RETIREMENT_MARGIN_SECS : N := 7 * 86400.
Definition DEFAULT_ROTATE_EVERY_SECS : N := 90 * 86400.

Inductive KeyState := Active | Retiring | Retired.
#[global] Instance KeyState_eq_dec : EqDecision KeyState.
Proof. solve_decision. Defined.

Definition verifies (s : KeyState) : bool := match s with Active | Retiring => true | Retired => false end.
Definition KeyState_as_str (s : KeyState) : string :=
  match s with Active => "active" | Retiring => "retiring" | Retired => "retired" end.

Record KeyEntry := mkKeyEntry {
  key_kid : string;
  key_alg : string;
  key_public_pem : string;
  key_private_ref : option string;
  key_state : KeyState;
  key_activated_at : N;
  key_retiring_at : option N;
  key_last_contract_exp : option N;
  key_retired_at : option N
}.

Definition safe_to_retire_at (k : KeyEntry) : option N :=
  (λ exp, saturating_add_u64 exp RETIREMENT_MARGIN_SECS) <$> key_last_contract_exp k.

Definition parse_alg (alg : string) : result Algorithm :=
  if bool_decide (alg = "ES256") then Ok ES256
  else if bool_decide (alg = "ES384") then Ok ES384
  else if bool_decide (alg = "EdDSA") || bool_decide (alg = "Ed25519") then Ok EdDSA
  else Err ALG_NOT_ASYMMETRIC.
Definition algorithm (k : KeyEntry) : result Algorithm := parse_alg (key_alg k).

(** ** The ring *)

Record Keyring := mkKeyring { rotate_every : N; ring_keys : list KeyEntry }.
Definition Keyring_default : Keyring := mkKeyring DEFAULT_ROTATE_EVERY_SECS [].

(** [toml::from_str::<Keyring>] and [toml::to_string_pretty]. *)
Class KeyringToml := {
  toml_from_str : string → option Keyring;
  toml_to_string : Keyring → option string
}.

(** The loop of [validate]; [seen] is its set. *)
Fixpoint validate_keys (seen : gset string) (keys : list KeyEntry) : result unit :=
  match keys with
  | [] => Ok tt
  | k :: keys =>
    guard_err (bool_decide (trim_text (key_kid k) = "")) CONFIG_INVALID $
    guard_err (bool_decide (key_kid k ∈ seen)) CONFIG_INVALID $
    let? _ := algorithm k in
    validate_keys ({[key_kid k]} ∪ seen) keys
  end.
Definition is_active (k : KeyEntry) : bool := bool_decide (key_state k = Active).
Definition validate (r : Keyring) : result unit :=
  let? _ := validate_keys ∅ (ring_keys r) in
  guard_err (1 <? len (filterb is_active (ring_keys r)))%N CONFIG_INVALID $ Ok tt.

Definition active (r : Keyring) : result KeyEntry := ok_or (find is_active (ring_keys r)) CONFIG_INVALID.
Definition has_kid (kid : string) (k : KeyEntry) : bool := bool_decide (key_kid k = kid).
Definition get (r : Keyring) (kid : string) : option KeyEntry := find (has_kid kid) (ring_keys r).
Definition verifying (r : Keyring) : list KeyEntry := filterb (λ k, verifies (key_state k)) (ring_keys r).

Section Verifiers.
Context `{Jose}.
Definition add_verifier (keys : IssuerKeys) (entry : KeyEntry) : result IssuerKeys :=
  let? alg := algorithm entry in
  match alg with
  | EdDSA => add_ed_pem keys (key_kid entry) (key_public_pem entry)
  | other => add_ec_pem keys (key_kid entry) (key_public_pem entry) other
  end.
Definition verifiers (r : Keyring) : result IssuerKeys := foldR add_verifier IssuerKeys_new (verifying r).
End Verifiers.

(** [iter_mut().find(..)], then an assignment through the reference. *)
Fixpoint update_first (p : KeyEntry → bool) (f : KeyEntry → KeyEntry) (l : list KeyEntry) : list KeyEntry :=
  match l with [] => [] | k :: l => if p k then f k :: l else k :: update_first p f l end.

(** The operations that change the ring: the ring after, and the answer. *)
Definition add (entry : KeyEntry) : stateR Keyring unit Code := λ r,
  if bool_decide (is_Some (get r (key_kid entry))) then (r, Err CONFIG_INVALID)
  else let r := mkKeyring (rotate_every r) (ring_keys r ++ [entry]) in (r, validate r).

Record Rotation := mkRotation { now_active : string; now_retiring : option string }.

Definition activate (now : N) (k : KeyEntry) : KeyEntry :=
  mkKeyEntry (key_kid k) (key_alg k) (key_public_pem k) (key_private_ref k) Active now None
    (key_last_contract_exp k) (key_retired_at k).
Definition start_retiring (now : N) (k : KeyEntry) : KeyEntry :=
  mkKeyEntry (key_kid k) (key_alg k) (key_public_pem k) (key_private_ref k) Retiring (key_activated_at k) (Some now)
    (key_last_contract_exp k) (key_retired_at k).
Definition rotate_key (kid : string) (now : N) (k : KeyEntry) : KeyEntry :=
  if has_kid kid k then activate now k
  else if is_active k then start_retiring now k else k.

Definition rotate_to (kid : string) (now : N) : stateR Keyring Rotation Code := λ r,
  match get r kid with
  | None => (r, Err CONFIG_INVALID)
  | Some k =>
    if bool_decide (key_state k = Retired) then (r, Err CONFIG_INVALID)
    else
      let previous := key_kid <$> find (λ k, is_active k && negb (has_kid kid k)) (ring_keys r) in
      let r := mkKeyring (rotate_every r) (map (rotate_key kid now) (ring_keys r)) in
      (r, let? _ := validate r in Ok (mkRotation kid previous))
  end.

Definition set_exp (exp : N) (k : KeyEntry) : KeyEntry :=
  mkKeyEntry (key_kid k) (key_alg k) (key_public_pem k) (key_private_ref k) (key_state k) (key_activated_at k)
    (key_retiring_at k) (Some (from_option (λ e, N.max e exp) exp (key_last_contract_exp k))) (key_retired_at k).
Definition note_signed (kid : string) (exp : N) (r : Keyring) : Keyring :=
  mkKeyring (rotate_every r) (update_first (has_kid kid) (set_exp exp) (ring_keys r)).

Definition set_retired (now : N) (k : KeyEntry) : KeyEntry :=
  mkKeyEntry (key_kid k) (key_alg k) (key_public_pem k) (key_private_ref k) Retired (key_activated_at k)
    (key_retiring_at k) (key_last_contract_exp k) (Some now).
Definition retire (kid : string) (now : N) : stateR Keyring unit Code := λ r,
  match get r kid with
  | None => (r, Err CONFIG_INVALID)
  | Some k =>
    match key_state k with
    | Active => (r, Err CONFIG_INVALID)
    | Retired => (r, Ok tt)
    | Retiring =>
      match safe_to_retire_at k with
      | None => (r, Err CONFIG_INVALID)
      | Some safe_at =>
        if (now <? safe_at)%N then (r, Err CONFIG_INVALID)
        else (mkKeyring (rotate_every r) (update_first (has_kid kid) (set_retired now) (ring_keys r)), Ok tt)
      end
    end
  end.

Definition rotation_due (r : Keyring) (now : N) : bool :=
  match active r with
  | Ok k => (0 <? rotate_every r)%N && (rotate_every r <? saturating_sub now (key_activated_at k))%N
  | Err _ => false
  end.
Definition retirable (r : Keyring) (now : N) : list KeyEntry :=
  filterb (λ k, bool_decide (key_state k = Retiring) &&
                match safe_to_retire_at k with Some at_ => (at_ <=? now)%N | None => false end) (ring_keys r).

(** ** JWKs *)

Section Jwk.
Context `{NoteCrypto}.

(** [der[der.len() - n..]], where there are that many bytes. *)
Definition der_tail (n : nat) (der : string) : result string :=
  guard_err (bool_decide (String.length der < n)%nat) CONFIG_INVALID $ Ok (bytes_drop (String.length der - n) der).

Definition jwk_from_pem (kid alg pem : string) : result Value :=
  let body := join "" (filterb (λ l, negb (starts_with "-----" l)) (file_lines pem)) in
  let? der := ok_or (std_decode (trim_text body)) CONFIG_INVALID in
  let ec (crv : string) (coord_len : nat) :=
    let? point := der_tail (1 + 2 * coord_len) der in
    guard_err (negb (starts_with (String "004" "") point)) CONFIG_INVALID $
    Ok (json_object [("kty", VString "EC"); ("crv", VString crv); ("kid", VString kid); ("alg", VString alg);
                     ("use", VString "sig");
                     ("x", VString (url_encode (bytes_take coord_len (bytes_drop 1 point))));
                     ("y", VString (url_encode (bytes_drop (1 + coord_len) point)))]) in
  if bool_decide (alg = "ES256") then ec "P-256" 32%nat
  else if bool_decide (alg = "ES384") then ec "P-384" 48%nat
  else if bool_decide (alg = "EdDSA") || bool_decide (alg = "Ed25519") then
    let? x := der_tail 32 der in
    Ok (json_object [("kty", VString "OKP"); ("crv", VString "Ed25519"); ("kid", VString kid); ("alg", VString "EdDSA");
                     ("use", VString "sig"); ("x", VString (url_encode x))])
  else Err ALG_NOT_ASYMMETRIC.

(** The document [jwks] prints. *)
Definition jwks (r : Keyring) : result Value :=
  let? entries := mapR (λ k, jwk_from_pem (key_kid k) (key_alg k) (key_public_pem k)) (verifying r) in
  Ok (json_object [("keys", VArray entries)]).
End Jwk.

(** ** The commands

    The keyring file is a text, or absent.  [load_keyring] is of the command line. *)

Section Commands.
Context `{KeyringToml, NoteCrypto}.

Definition Keyring_parse (text : string) : result Keyring :=
  let? ring := ok_or (toml_from_str text) CONFIG_INVALID in
  let? _ := validate ring in
  Ok ring.

Definition load_keyring (file : option string) : result Keyring :=
  match file with Some text => Keyring_parse text | None => Ok Keyring_default end.

(** [std::fs::write]: [None] if it succeeds, or what a failed write leaves of the file. *)
Definition save (r : Keyring) (io : option (option string)) : stateR (option string) unit Code := λ file,
  match (let? _ := validate r in ok_or (toml_to_string r) CONFIG_INVALID) with
  | Err e => (file, Err e)
  | Ok text => match io with None => (Some text, Ok tt) | Some leftover => (leftover, Err CONFIG_INVALID) end
  end.

(** Load the ring, change it, save it: what the four commands share. *)
Definition with_ring {T} (change : Keyring → result (Keyring * T)) (io : option (option string))
    : stateR (option string) T Code := λ file,
  match (let? r := load_keyring file in change r) with
  | Err e => (file, Err e)
  | Ok (r, t) => let '(file, saved) := save r io file in (file, let? _ := saved in Ok t)
  end.
Definition changed {T} (m : stateR Keyring T Code) (r : Keyring) : result (Keyring * T) :=
  let '(r, t) := m r in let? t := t in Ok (r, t).

Definition new_entry (first : bool) (kid alg public_pem : string) (private_ref : option string) (now : N) : KeyEntry :=
  mkKeyEntry kid alg public_pem private_ref (if first then Active else Retiring) (if first then now else 0%N) None None None.
Definition keys_add (kid : string) (alg : option string) (public_pem : string) (private_ref : option string) (now : N)
    : option (option string) → stateR (option string) unit Code := with_ring (λ r,
  let first := match ring_keys r with [] => true | _ => false end in
  let entry := new_entry first kid (default "ES256" alg) public_pem private_ref now in
  let? _ := jwk_from_pem (key_kid entry) (key_alg entry) (key_public_pem entry) in
  changed (add entry) r).
Definition keys_rotate (kid : string) (now : N)
    : option (option string) → stateR (option string) Rotation Code := with_ring (changed (rotate_to kid now)).
Definition keys_retire (kid : string) (now : N)
    : option (option string) → stateR (option string) unit Code := with_ring (changed (retire kid now)).
Definition keys_note (kid : string) (exp : N)
    : option (option string) → stateR (option string) unit Code := with_ring (λ r,
  match get r kid with None => Err CONFIG_INVALID | Some _ => Ok (note_signed kid exp r, tt) end).
Definition keys_jwks (file : option string) : result Value := let? r := load_keyring file in jwks r.
End Commands.

(** ** Lemmas: a valid ring *)

Definition ring_kids (r : Keyring) : list string := map key_kid (ring_keys r).
Definition entry_ok (k : KeyEntry) : Prop := trim_text (key_kid k) ≠ "" ∧ is_ok (algorithm k).

Lemma validate_keys_ok seen keys :
  validate_keys seen keys = Ok tt ↔
  Forall entry_ok keys ∧ NoDup (map key_kid keys) ∧ (∀ kid, kid ∈ map key_kid keys → kid ∉ seen).
Proof.
  revert seen. induction keys as [|k keys IH]; intros seen; cbn [validate_keys map].
  - split; [|done]. intros _. split; [constructor|]. split; [constructor|set_solver].
  - rewrite !guard_err_ok, !bool_decide_eq_false, result_bind_ok, Forall_cons, NoDup_cons. unfold entry_ok at 1.
    destruct (algorithm k) as [a|e]; cbn [is_ok].
    + split.
      * intros (Ht & Hs & x & [= <-] & (HF & Hnd & Hdis)%IH). set_solver.
      * intros (((Ht & _) & HF) & (Hk & Hnd) & Hdis). split; [done|]. split; [set_solver|].
        exists a. split; [done|]. apply IH. set_solver.
    + split; [by intros (_ & _ & x & ? & _)|by intros (((_ & []) & _) & _)].
Qed.

Definition ring_ok (r : Keyring) : Prop :=
  Forall entry_ok (ring_keys r) ∧ NoDup (ring_kids r) ∧ (length (filterb is_active (ring_keys r)) ≤ 1)%nat.
Lemma validate_ok r : validate r = Ok tt ↔ ring_ok r.
Proof.
  unfold validate, ring_ok, ring_kids. rewrite result_bind_ok. setoid_rewrite guard_err_ok. unfold len. split.
  - intros ([] & (HF & Hnd & _)%validate_keys_ok & Hl & _). rewrite N.ltb_ge in Hl. split; [done|]. split; [done|lia].
  - intros (HF & Hnd & Hl). exists tt. rewrite validate_keys_ok, N.ltb_ge. split; [set_solver|]. split; [lia|done].
Qed.

Lemma find_some_kid kid l k : find (has_kid kid) l = Some k → k ∈ l ∧ key_kid k = kid.
Proof. intros [Hin Hk]%find_some. unfold has_kid in Hk. rewrite bool_decide_eq_true in Hk. by rewrite list_elem_of_In. Qed.
Lemma find_kid_unique kid l k :
  NoDup (map key_kid l) → k ∈ l → key_kid k = kid → find (has_kid kid) l = Some k.
Proof.
  induction l as [|x l IH]; [set_solver|]. intros [Hx Hnd]%NoDup_cons [->|Hk]%elem_of_cons E; cbn [find]; unfold has_kid at 1.
  - by rewrite bool_decide_eq_true_2.
  - rewrite bool_decide_eq_false_2; [by apply IH|]. intros E'. apply Hx. rewrite E', <-E.
    apply list_elem_of_In, in_map, list_elem_of_In, Hk.
Qed.
Lemma get_iff r kid k : ring_ok r → get r kid = Some k ↔ k ∈ ring_keys r ∧ key_kid k = kid.
Proof. intros (_ & Hnd & _). split; [apply find_some_kid|intros []; by apply find_kid_unique]. Qed.

(** A change of keys that keeps every kid. *)
Lemma find_map_kid kid (f : KeyEntry → KeyEntry) l :
  (∀ k, key_kid (f k) = key_kid k) → find (has_kid kid) (map f l) = f <$> find (has_kid kid) l.
Proof.
  intros Hf. induction l as [|k l IH]; [done|]. cbn [map find]. unfold has_kid at 1 3. rewrite Hf. by case_bool_decide.
Qed.
Lemma update_first_map kid f l :
  NoDup (map key_kid l) → update_first (has_kid kid) f l = map (λ k, if has_kid kid k then f k else k) l.
Proof.
  induction l as [|k l IH]; [done|]. intros [Hk Hnd]%NoDup_cons. cbn [update_first map]. destruct (has_kid kid k) eqn:E.
  - f_equal. rewrite <-(map_id l) at 1. apply map_ext_in. intros x Hx. unfold has_kid in *. rewrite bool_decide_eq_true in E.
    case_bool_decide as E'; [|done]. destruct Hk. rewrite E, <-E'. by apply list_elem_of_In, in_map.
  - f_equal. by apply IH.
Qed.
Lemma map_ring_ok (f : KeyEntry → KeyEntry) r every :
  ring_ok r → (∀ k, key_kid (f k) = key_kid k ∧ key_alg (f k) = key_alg k) →
  (length (filterb is_active (map f (ring_keys r))) ≤ 1)%nat → ring_ok (mkKeyring every (map f (ring_keys r))).
Proof.
  intros (HF & Hnd & _) Hf Hl. unfold ring_ok, ring_kids in *. cbn [ring_keys]. rewrite map_map.
  rewrite (map_ext _ _ (λ k, proj1 (Hf k))). split; [|done]. rewrite Forall_map. eapply Forall_impl; [exact HF|].
  intros k. unfold entry_ok, algorithm. simpl. by rewrite !(proj1 (Hf k)), (proj2 (Hf k)).
Qed.
Lemma length_filterb_map (f : KeyEntry → KeyEntry) (p q : KeyEntry → bool) l :
  (∀ k, k ∈ l → p (f k) = true → q k = true) → (length (filterb p (map f l)) ≤ length (filterb q l))%nat.
Proof.
  induction l as [|k l IH]; [done|]. intros Hpq. cbn [map filterb]. assert (∀ x, x ∈ l → p (f x) = true → q x = true) as Hl by set_solver.
  specialize (IH Hl). destruct (p (f k)) eqn:E; [rewrite (Hpq k) by set_solver; simpl; lia|]. destruct (q k); simpl; lia.
Qed.
Lemma length_filterb_kid kid l : NoDup (map key_kid l) → (length (filterb (has_kid kid) l) ≤ 1)%nat.
Proof.
  induction l as [|k l IH]; [simpl; lia|]. intros [Hk Hnd]%NoDup_cons. cbn [filterb]. unfold has_kid at 1. case_bool_decide as E; [|by apply IH].
  assert (filterb (has_kid kid) l = []) as ->; [|done]. apply filterb_nil. intros x Hx. unfold has_kid.
  apply bool_decide_eq_false. intros E'. apply Hk. rewrite E, <-E'. apply list_elem_of_In, in_map, list_elem_of_In, Hx.
Qed.

(** ** What a session may do to a key

    [evolves upto]: changes made at instants up to [upto]. *)

Definition exp_le (a b : option N) : Prop := ∀ x, a = Some x → ∃ y, b = Some y ∧ (x ≤ y)%N.
Record key_evolves (upto : N) (k k' : KeyEntry) : Prop := {
  ev_kid : key_kid k' = key_kid k;
  ev_alg : key_alg k' = key_alg k;
  ev_pem : key_public_pem k' = key_public_pem k;
  ev_exp : exp_le (key_last_contract_exp k) (key_last_contract_exp k');
  ev_final : key_state k = Retired → key_state k' = Retired;
  ev_safe : key_state k' = Retired → key_state k = Retired ∨
    (∃ e, key_last_contract_exp k' = Some e) ∧ ∀ safe, safe_to_retire_at k = Some safe → (safe ≤ upto)%N
}.
Definition evolves (upto : N) (r r' : Keyring) : Prop :=
  ∀ kid k, get r kid = Some k → ∃ k', get r' kid = Some k' ∧ key_evolves upto k k'.

Lemma exp_le_refl a : exp_le a a.
Proof. intros x ->. by exists x. Qed.
Lemma safe_mono k k' safe :
  exp_le (key_last_contract_exp k) (key_last_contract_exp k') → safe_to_retire_at k = Some safe →
  ∃ safe', safe_to_retire_at k' = Some safe' ∧ (safe ≤ safe')%N.
Proof.
  unfold safe_to_retire_at. intros Hle (e & He & ->)%fmap_Some. destruct (Hle e He) as (e' & -> & ?).
  eexists. split; [done|]. unfold saturating_add_u64. lia.
Qed.
Lemma key_evolves_refl upto k : key_evolves upto k k.
Proof. split; [done..|apply exp_le_refl|done|by left]. Qed.
Lemma key_evolves_trans upto a b c : key_evolves upto a b → key_evolves upto b c → key_evolves upto a c.
Proof.
  intros H1 H2. split; [by etrans; [apply H2|apply H1]..| | |].
  - intros x (y & Hy & ?)%(ev_exp _ _ _ H1). destruct (ev_exp _ _ _ H2 _ Hy) as (z & Hz & ?). exists z. split; [done|lia].
  - intros ?. by apply H2, H1.
  - intros Hc. destruct (ev_safe _ _ _ H2 Hc) as [Hb|[Hexp Hsafe]].
    + destruct (ev_safe _ _ _ H1 Hb) as [|[(e & He) Hs]]; [by left|right]. split; [|done].
      destruct (ev_exp _ _ _ H2 _ He) as (z & Hz & _). by exists z.
    + right. split; [done|]. intros safe (safe' & Hs' & ?)%(safe_mono _ _ _ (ev_exp _ _ _ H1)). specialize (Hsafe _ Hs'). lia.
Qed.
#[global] Instance evolves_preorder upto : PreOrder (evolves upto).
Proof.
  split.
  - intros r kid k Hk. exists k. split; [done|]. apply key_evolves_refl.
  - intros a b c H1 H2 kid k (k' & Hk' & E1)%H1. apply H2 in Hk' as (k'' & ? & E2).
    exists k''. split; [done|]. by eapply key_evolves_trans.
Qed.

Lemma evolves_map upto f r every :
  (∀ k, k ∈ ring_keys r → key_evolves upto k (f k)) → (∀ k, key_kid (f k) = key_kid k) →
  evolves upto r (mkKeyring every (map f (ring_keys r))).
Proof.
  intros Hf Hkid kid k Hk. exists (f k). unfold get in *. cbn [ring_keys]. rewrite find_map_kid by done.
  rewrite Hk. split; [done|]. apply Hf. by apply find_some_kid in Hk as [? _].
Qed.

(** What every change keeps: a valid ring, and keys that evolve. *)
Definition good_change (upto : N) (r r' : Keyring) : Prop := ring_ok r' ∧ evolves upto r r'.

Lemma add_good upto r entry r' : add entry r = (r', Ok tt) → good_change upto r r'.
Proof.
  unfold add. case_bool_decide as Hn; [done|]. intros [= <- Hv]. split; [by apply validate_ok|].
  intros kid k Hk. exists k. split; [|apply key_evolves_refl]. unfold get in *. cbn [ring_keys].
  clear Hv Hn. induction (ring_keys r) as [|x l IH]; [done|]. simpl in *. by destruct (has_kid kid x); [|apply IH].
Qed.

Lemma rotate_ring_ok r kid now : ring_ok r → ring_ok (mkKeyring (rotate_every r) (map (rotate_key kid now) (ring_keys r))).
Proof.
  intros Hr. apply map_ring_ok; [done| |].
  - intros k. unfold rotate_key. by destruct (has_kid kid k), (is_active k).
  - etrans; [apply (length_filterb_map _ _ (has_kid kid))|apply length_filterb_kid, Hr].
    intros k _. unfold rotate_key. destruct (has_kid kid k) eqn:E; [done|]. destruct (is_active k) eqn:E'; [done|]. congruence.
Qed.
Lemma rotate_good upto r kid now r' rot :
  ring_ok r → rotate_to kid now r = (r', Ok rot) → good_change upto r r'.
Proof.
  intros Hr. unfold rotate_to. destruct (get r kid) as [k|] eqn:Hk; [|done]. case_bool_decide as Hst; [done|].
  intros [= <- _]. split; [by apply rotate_ring_ok|]. apply evolves_map.
  - intros x Hx. unfold rotate_key. destruct (has_kid kid x) eqn:E.
    + assert (x = k) as ->.
      { unfold has_kid in E. rewrite bool_decide_eq_true in E. assert (get r kid = Some x) by (by apply get_iff). congruence. }
      split; try done. apply exp_le_refl.
    + destruct (is_active x) eqn:E'; [|apply key_evolves_refl]. unfold is_active in E'. rewrite bool_decide_eq_true in E'.
      split; try done; [apply exp_le_refl|by rewrite E'].
  - intros x. unfold rotate_key. by destruct (has_kid kid x), (is_active x).
Qed.

(** An assignment to the entry of one kid. *)
Lemma update_good upto r kid f :
  ring_ok r → (∀ k, key_kid (f k) = key_kid k ∧ key_alg (f k) = key_alg k) →
  (∀ k, is_active (f k) = true → is_active k = true) →
  (∀ k, get r kid = Some k → key_evolves upto k (f k)) →
  good_change upto r (mkKeyring (rotate_every r) (update_first (has_kid kid) f (ring_keys r))).
Proof.
  intros Hr Hf Ha Hev. rewrite update_first_map by apply Hr. split.
  - apply map_ring_ok; [done| |].
    + intros k. destruct (has_kid kid k); [apply Hf|done].
    + etrans; [apply length_filterb_map|apply Hr]. intros k _. destruct (has_kid kid k); [apply Ha|done].
  - apply evolves_map.
    + intros k Hk. destruct (has_kid kid k) eqn:E; [|apply key_evolves_refl]. apply Hev, get_iff; [done|].
      unfold has_kid in E. by rewrite bool_decide_eq_true in E.
    + intros k. destruct (has_kid kid k); [apply Hf|done].
Qed.

Lemma note_good upto r kid exp : ring_ok r → good_change upto r (note_signed kid exp r).
Proof.
  intros Hr. apply update_good; [done|done|done|]. intros k _. split; try done.
  - intros x Hx. exists (N.max x exp). unfold set_exp. cbn [key_last_contract_exp]. rewrite Hx. split; [done|lia].
  - by left.
Qed.
Lemma retire_good upto r kid now r' :
  ring_ok r → (now ≤ upto)%N → retire kid now r = (r', Ok tt) → good_change upto r r'.
Proof.
  intros Hr Hnow. unfold retire. destruct (get r kid) as [k|] eqn:Hk; [|done].
  destruct (key_state k) eqn:Hst; [done| |by intros [= <-]].
  destruct (safe_to_retire_at k) as [safe|] eqn:Hs; [|done]. destruct (now <? safe)%N eqn:Hlt; [done|]. intros [= <-].
  apply update_good; [done|done|done|]. intros x Hx. assert (x = k) as -> by congruence. split; try done; [apply exp_le_refl|].
  intros _. right. bool_facts. split; [|intros ? [= <-]%(eq_trans (eq_sym Hs)); lia].
  unfold safe_to_retire_at in Hs. apply fmap_Some in Hs as (e & He & _). by exists e.
Qed.

(** ** Sessions of commands *)

(** [toml] reads back the ring it printed. *)
Class KeyringTomlLaws `{KeyringToml} : Prop :=
  toml_roundtrip r text : toml_to_string r = Some text → toml_from_str text = Some r.

Inductive KeyCmd :=
| CmdAdd (kid : string) (alg : option string) (public_pem : string) (private_ref : option string)
| CmdRotate (kid : string)
| CmdRetire (kid : string)
| CmdNote (kid : string) (exp : N).
(** One command: what it does, when, and what the disk answers. *)
Record KeyStep := mkKeyStep { ks_cmd : KeyCmd; ks_now : N; ks_io : option (option string) }.

Section Sessions.
Context `{KeyringTomlLaws, NoteCrypto}.

Definition run_step (s : KeyStep) (file : option string) : option string :=
  match ks_cmd s with
  | CmdAdd kid alg pem ref => (keys_add kid alg pem ref (ks_now s) (ks_io s) file).1
  | CmdRotate kid => (keys_rotate kid (ks_now s) (ks_io s) file).1
  | CmdRetire kid => (keys_retire kid (ks_now s) (ks_io s) file).1
  | CmdNote kid exp => (keys_note kid exp (ks_io s) file).1
  end.
Definition run_session (ss : list KeyStep) (file : option string) : option string :=
  fold_left (λ file s, run_step s file) ss file.
(** Every write of the session succeeds, or fails without touching the file. *)
Fixpoint writes_whole (ss : list KeyStep) (file : option string) : Prop :=
  match ss with
  | [] => True
  | s :: ss => (ks_io s = None ∨ ks_io s = Some file) ∧ writes_whole ss (run_step s file)
  end.

Lemma load_ok file r : load_keyring file = Ok r → ring_ok r.
Proof.
  destruct file as [text|]; cbn [load_keyring].
  - unfold Keyring_parse. intros (ring & _ & ([] & Hv & [= <-])%result_bind_ok)%result_bind_ok. by apply validate_ok.
  - intros [= <-]. apply validate_ok. reflexivity.
Qed.
Lemma load_saved r text : toml_to_string r = Some text → ring_ok r → load_keyring (Some text) = Ok r.
Proof.
  intros Ht Hr%validate_ok. cbn [load_keyring]. unfold Keyring_parse. rewrite (toml_roundtrip _ _ Ht). cbn. by rewrite Hr.
Qed.

(** A command leaves the file as it was, or holding what the ring changed to. *)
Lemma with_ring_file {T} (change : Keyring → result (Keyring * T)) io file file' out r :
  with_ring change io file = (file', out) → (io = None ∨ io = Some file) → load_keyring file = Ok r →
  (file' = file ∧ ¬ is_ok out) ∨
  ∃ r' t, out = Ok t ∧ change r = Ok (r', t) ∧ load_keyring file' = Ok r'.
Proof.
  unfold with_ring. intros Hw Hio Hl. rewrite Hl in Hw. cbn [result_bind] in Hw.
  destruct (change r) as [[r' t]|e] eqn:Hc; [|injection Hw as <- <-; left; by split; [|intros []]]. unfold save in Hw.
  destruct (validate r') as [[]|e] eqn:Hv; cbn [result_bind] in Hw; [|injection Hw as <- <-; left; by split; [|intros []]].
  destruct (toml_to_string r') as [text|] eqn:Ht; cbn [ok_or] in Hw; [|injection Hw as <- <-; left; by split; [|intros []]].
  destruct Hio as [-> | ->]; injection Hw as <- <-.
  - right. exists r', t. split; [done|]. split; [done|]. apply load_saved; [done|by apply validate_ok].
  - left. by split; [|intros []].
Qed.

Lemma changed_ok {T} (m : stateR Keyring T Code) r r' t : changed m r = Ok (r', t) ↔ m r = (r', Ok t).
Proof.
  unfold changed. destruct (m r) as [r1 [a|e]]; simpl; split; [intros [= <- <-]|intros [= -> ->]|..]; done.
Qed.

Lemma step_good upto s file r :
  (ks_io s = None ∨ ks_io s = Some file) → (ks_now s ≤ upto)%N → load_keyring file = Ok r →
  ∃ r', load_keyring (run_step s file) = Ok r' ∧ good_change upto r r'.
Proof.
  intros Hio Hnow Hl. assert (Hr := load_ok _ _ Hl). assert (good_change upto r r) as Hsame by by split.
  assert (∀ T (change : Keyring → result (Keyring * T)),
    (∀ r' t, change r = Ok (r', t) → good_change upto r r') →
    ∃ r', load_keyring (with_ring change (ks_io s) file).1 = Ok r' ∧ good_change upto r r') as Hmain.
  { intros T change Hg. destruct (with_ring change (ks_io s) file) as [file' out] eqn:Hw.
    destruct (with_ring_file _ _ _ _ _ _ Hw Hio Hl) as [[-> _]|(r' & t & _ & Hc & Hl')]; [by exists r|]. exists r'. by eauto. }
  unfold run_step. destruct (ks_cmd s); apply Hmain; intros r' t Hc.
  - apply result_bind_ok in Hc as (v & _ & Hc). destruct t. eapply add_good. by apply changed_ok.
  - eapply rotate_good; [done|]. by apply changed_ok.
  - destruct t. eapply retire_good; [done..|]. by apply changed_ok.
  - destruct (get r kid); [|done]. injection Hc as <- _. by apply note_good.
Qed.

Lemma session_good upto ss file r :
  writes_whole ss file → Forall (λ s, (ks_now s ≤ upto)%N) ss → load_keyring file = Ok r →
  ∃ r', load_keyring (run_session ss file) = Ok r' ∧ good_change upto r r'.
Proof.
  revert file r. induction ss as [|s ss IH]; intros file r Hw Hs Hl.
  - exists r. split; [done|]. split; [by eapply load_ok|done].
  - destruct Hw as [Hio Hw]. apply Forall_cons in Hs as [Hnow Hs].
    destruct (step_good upto s file r Hio Hnow Hl) as (r1 & Hl1 & _ & Hev1).
    destruct (IH _ _ Hw Hs Hl1) as (r2 & Hl2 & Hok & Hev2). exists r2. split; [done|]. split; [done|]. by etrans.
Qed.
End Sessions.

(** *** The verifiers built from a ring *)

Section VerifiersOk.
Context `{Jose}.

Definition decoding (alg : Algorithm) (pem : string) : option DecodingKey :=
  match alg with EdDSA => decoding_from_ed_pem pem | _ => decoding_from_ec_pem pem end.
Lemma add_verifier_ok keys k keys' :
  add_verifier keys k = Ok keys' ↔
  ∃ alg dk, algorithm k = Ok alg ∧ decoding alg (key_public_pem k) = Some dk ∧ keys' = <[key_kid k := (alg, dk)]> keys.
Proof.
  unfold add_verifier, decoding. rewrite result_bind_ok. split.
  - intros (alg & Ha & Hk). exists alg. destruct alg; apply result_bind_ok in Hk as (dk & ?%ok_or_ok & [= <-]); eauto.
  - intros (alg & dk & Ha & Hd & ->). exists alg. split; [done|].
    destruct alg; unfold add_ed_pem, add_ec_pem; rewrite Hd; done.
Qed.
Lemma add_verifiers_exact l acc keys :
  NoDup (map key_kid l) → foldR add_verifier acc l = Ok keys →
  (∀ k, k ∈ l → ∃ alg dk, algorithm k = Ok alg ∧ decoding alg (key_public_pem k) = Some dk ∧ keys !! key_kid k = Some (alg, dk)) ∧
  (∀ kid, kid ∉ map key_kid l → keys !! kid = acc !! kid).
Proof.
  revert acc. induction l as [|k l IH]; intros acc Hnd Hf; cbn [foldR map] in *.
  - injection Hf as <-. split; [set_solver|done].
  - apply NoDup_cons in Hnd as [Hk Hnd]. apply result_bind_ok in Hf as (acc' & (alg & dk & Ha & Hd & ->)%add_verifier_ok & Hf).
    destruct (IH _ Hnd Hf) as [Hin Hout]. split.
    + intros x [->|Hx]%elem_of_cons; [|by apply Hin]. exists alg, dk. split; [done|]. split; [done|].
      rewrite Hout by done. exact (lookup_insert_eq (M := gmap string) acc (key_kid k) (alg, dk)).
    + intros kid [Hne Hn]%not_elem_of_cons. rewrite Hout by done. by apply (lookup_insert_ne (M := gmap string) acc).
Qed.
Lemma kids_filter_nodup (p : KeyEntry → bool) l : NoDup (map key_kid l) → NoDup (map key_kid (filterb p l)).
Proof.
  induction l as [|k l IH]; [done|]. cbn [map filterb]. intros [Hk Hnd]%NoDup_cons. specialize (IH Hnd).
  destruct (p k); [|done]. cbn [map]. apply NoDup_cons. split; [|done].
  intros (x & E & Hx)%list_elem_of_In%in_map_iff. apply Hk. rewrite <-E. apply list_elem_of_In, in_map.
  by apply filter_In in Hx as [? _].
Qed.
Lemma verifiers_exact r keys kid :
  ring_ok r → verifiers r = Ok keys →
  match get r kid with
  | Some k =>
    if verifies (key_state k)
    then ∃ alg dk, algorithm k = Ok alg ∧ decoding alg (key_public_pem k) = Some dk ∧ keys !! kid = Some (alg, dk)
    else keys !! kid = None
  | None => keys !! kid = None
  end.
Proof.
  intros Hr Hv. apply add_verifiers_exact in Hv as [Hin Hout]; [|apply kids_filter_nodup, Hr].
  destruct (get r kid) as [k|] eqn:Hk.
  - pose proof Hk as [Hkin Hkid]%get_iff; [|done]. destruct (verifies (key_state k)) eqn:Hs.
    + destruct (Hin k) as (alg & dk & Ha & Hd & Hl); [by apply elem_of_filterb|]. rewrite Hkid in Hl. by exists alg, dk.
    + rewrite Hout; [done|]. intros (x & <- & Hx%list_elem_of_In)%list_elem_of_In%in_map_iff.
      apply elem_of_filterb in Hx as [Hx Hsx].
      assert (get r (key_kid x) = Some x) by (by apply get_iff). congruence.
  - rewrite Hout; [done|]. intros (x & <- & Hx%list_elem_of_In)%list_elem_of_In%in_map_iff.
    apply elem_of_filterb in Hx as [Hx _]. assert (get r (key_kid x) = Some x) by (by apply get_iff). congruence.
Qed.
End VerifiersOk.

(** *** Lists with one key of a kind *)

Lemma filterb_map_unique (f : KeyEntry → KeyEntry) (p q : KeyEntry → bool) l k :
  (length (filterb q l) ≤ 1)%nat → (∀ x, p (f x) = q x) → In k l ∧ q k = true → filterb p (map f l) = [f k].
Proof.
  intros Hl Hpq [Hk Hq]. induction l as [|x l IH]; [done|]. cbn [map filterb] in *. rewrite Hpq. destruct (q x) eqn:E.
  - simpl in Hl. destruct (filterb q l) as [|y l'] eqn:El; [|simpl in Hl; lia].
    assert (∀ y, y ∈ l → q y = false) as Hnone by by apply filterb_nil.
    destruct Hk as [->|Hk%list_elem_of_In]; [|apply Hnone in Hk; congruence]. f_equal.
    apply filterb_nil. intros y (z & <- & Hz%list_elem_of_In)%list_elem_of_In%in_map_iff. rewrite Hpq. by apply Hnone.
  - destruct Hk as [->|Hk]; [congruence|]. by apply IH.
Qed.
Lemma find_filterb (p : KeyEntry → bool) r k :
  filterb p (ring_keys r) = [k] → ok_or (find p (ring_keys r)) CONFIG_INVALID = Ok k.
Proof.
  intros E. apply ok_or_ok. destruct (find p (ring_keys r)) as [x|] eqn:Hf.
  - apply find_some, filter_In in Hf. rewrite E in Hf. by destruct Hf as [->|[]].
  - assert (k ∈ filterb p (ring_keys r)) as Hk by (rewrite E; set_solver). apply elem_of_filterb in Hk as [Hk Hp].
    apply list_elem_of_In in Hk. by rewrite (find_none _ _ Hf _ Hk) in Hp.
Qed.
Lemma verifying_map f r every :
  (∀ k, k ∈ ring_keys r → key_kid (f k) = key_kid k ∧ verifies (key_state (f k)) = verifies (key_state k)) →
  map key_kid (verifying (mkKeyring every (map f (ring_keys r)))) = map key_kid (verifying r).
Proof.
  unfold verifying. cbn [ring_keys]. induction (ring_keys r) as [|k l IH]; [done|]. intros Hf. cbn [map filterb].
  destruct (Hf k) as [Hkid ->]; [set_solver|]. assert (IH' := IH (λ x Hx, Hf x ltac:(set_solver))).
  destruct (verifies (key_state k)); [|done]. cbn [map]. by rewrite Hkid, IH'.
Qed.
Lemma other_active r kid x :
  ring_ok r →
  key_kid <$> find (λ k, is_active k && negb (has_kid kid k)) (ring_keys r) = Some x ↔
  x ≠ kid ∧ ∃ a, active r = Ok a ∧ key_kid a = x.
Proof.
  intros (_ & _ & Hl). unfold active. setoid_rewrite ok_or_ok. unfold has_kid. induction (ring_keys r) as [|k l IH]; [naive_solver|].
  cbn [find filterb] in *. destruct (is_active k); cbn [andb]; [|by apply IH]. simpl in Hl.
  assert (∀ y, y ∈ l → is_active y = false) as Hnone by (apply filterb_nil; destruct (filterb is_active l); simpl in *; [done|lia]).
  case_bool_decide as E; cbn [negb].
  - destruct (find _ l) as [y|] eqn:Hf.
    + apply find_some in Hf as [Hy%list_elem_of_In [Ha _]%andb_true_iff]. rewrite Hnone in Ha; done.
    + simpl. split; [done|]. intros (Hne & a & [= <-] & <-). done.
  - simpl. split; [intros [= <-]; eauto|]. intros (_ & a & [= <-] & <-). done.
Qed.

(** ** Theorems *)

Section Guarantees.
Context `{KeyringTomlLaws, NoteCrypto, Jose}.

(** Whatever the [keys] commands do, the keyring file stays loadable and keeps every key.
    After any session from a loadable keyring, at any instants, with writes that succeed or
    leave the file alone, the file loads: one kid names one key, at most one key signs, every
    key is still there under its algorithm and public half, the expiry recorded for it only
    moved outward, and a key that was retired is still retired and absent from the verifiers
    built from the ring. *)
Theorem keyring_session_invariant ss file r :
  writes_whole ss file → load_keyring file = Ok r →
  ∃ r', load_keyring (run_session ss file) = Ok r' ∧ NoDup (ring_kids r') ∧
    (length (filterb is_active (ring_keys r')) ≤ 1)%nat ∧
    ∀ kid k, get r kid = Some k → ∃ k', get r' kid = Some k' ∧
      key_alg k' = key_alg k ∧ key_public_pem k' = key_public_pem k ∧
      exp_le (key_last_contract_exp k) (key_last_contract_exp k') ∧
      (key_state k = Retired → key_state k' = Retired ∧ ∀ keys, verifiers r' = Ok keys → keys !! kid = None).
Proof.
  intros Hw Hl. destruct (session_good (foldr N.max 0%N (map ks_now ss)) ss file r Hw) as (r' & Hl' & Hok & Hev); [|done|].
  { clear. induction ss as [|s ss IH]; [constructor|]. cbn [map foldr]. constructor; [lia|]. eapply Forall_impl; [exact IH|]. simpl. lia. }
  exists r'. split; [done|]. split; [apply Hok|]. split; [apply Hok|]. intros kid k (k' & Hk' & E)%Hev.
  exists k'. split; [done|]. split; [apply E|]. split; [apply E|]. split; [apply E|]. intros Hret%E. split; [done|].
  intros keys Hv. apply (verifiers_exact _ _ kid) in Hv; [|done]. by rewrite Hk', Hret in Hv.
Qed.

(** C30: a key is not retired while a contract recorded for it lives.  Once the expiry of a
    contract is noted for a key that is not retired, then through any session of [keys]
    commands, as long as the clock is before that expiry plus the seven days' margin, the
    keyring loads, the key is there with the same public half and still verifies, and the
    verifiers built from the ring hold it under its kid. *)
Theorem noted_key_verifies kid exp ss file r k file' :
  load_keyring file = Ok r → get r kid = Some k → key_state k ≠ Retired →
  keys_note kid exp None file = (file', Ok tt) →
  writes_whole ss file' → Forall (λ s, ks_now s < saturating_add_u64 exp RETIREMENT_MARGIN_SECS)%N ss →
  ∃ r' k', load_keyring (run_session ss file') = Ok r' ∧ get r' kid = Some k' ∧ verifies (key_state k') = true ∧
    key_public_pem k' = key_public_pem k ∧
    ∀ keys, verifiers r' = Ok keys →
      ∃ alg dk, algorithm k = Ok alg ∧ decoding alg (key_public_pem k) = Some dk ∧ keys !! kid = Some (alg, dk).
Proof.
  intros Hl Hk Hst Hnote Hw Hs. assert (Hr := load_ok _ _ Hl). set (safe := saturating_add_u64 exp RETIREMENT_MARGIN_SECS) in *.
  unfold keys_note in Hnote.
  destruct (with_ring_file _ _ _ _ _ _ Hnote (or_introl eq_refl) Hl) as [[_ []]|(r1 & t & _ & Hc & Hl1)]; [done|].
  rewrite Hk in Hc. injection Hc as <- _.
  assert (get (note_signed kid exp r) kid = Some (set_exp exp k)) as Hk1.
  { unfold get, note_signed. cbn [ring_keys]. rewrite update_first_map by apply Hr.
    rewrite find_map_kid by (intros x; by destruct (has_kid kid x)). unfold get in Hk. rewrite Hk. cbn.
    apply find_some in Hk as [_ ->]. done. }
  destruct (session_good (safe - 1) ss file' (note_signed kid exp r) Hw) as (r' & Hl' & Hok & Hev); [|done|].
  { eapply Forall_impl; [exact Hs|]. simpl. lia. }
  destruct (Hev _ _ Hk1) as (k' & Hk' & E). exists r', k'. split; [done|]. split; [done|].
  assert (verifies (key_state k') = true) as Hver.
  { destruct (key_state k') eqn:Hst'; [done..|]. destruct (ev_safe _ _ _ E Hst') as [|[_ Hsafe]]; [done|].
    destruct (safe_mono (mkKeyEntry "" "" "" None Active 0 None (Some exp) None) (set_exp exp k) safe) as (safe' & Hs' & ?).
    - intros x [= <-]. cbn. destruct (key_last_contract_exp k) as [e|]; cbn; eexists; (split; [done|]); lia.
    - done.
    - specialize (Hsafe _ Hs'). assert (0 < safe)%N by (unfold safe, saturating_add_u64, RETIREMENT_MARGIN_SECS, u64_max; lia). lia. }
  split; [done|]. split; [apply E|]. intros keys Hv. apply (verifiers_exact _ _ kid) in Hv; [|done]. rewrite Hk', Hver in Hv.
  unfold algorithm in *. rewrite (ev_alg _ _ _ E), (ev_pem _ _ _ E) in Hv. exact Hv.
Qed.

(** A rotation promotes one key and stops no verification.  On a valid ring, rotating to a
    key that is not retired succeeds: that key and no other signs from now on, the answer
    names the key that stopped signing, and exactly the kids that verified before verify
    after; a kid that is unknown or retired is refused and the ring unchanged. *)
Theorem rotation_exact r kid now :
  validate r = Ok tt →
  match get r kid with
  | Some k =>
    if bool_decide (key_state k = Retired) then rotate_to kid now r = (r, Err CONFIG_INVALID)
    else ∃ r' previous, rotate_to kid now r = (r', Ok (mkRotation kid previous)) ∧
      active r' = Ok (activate now k) ∧ filterb is_active (ring_keys r') = [activate now k] ∧
      map key_kid (verifying r') = map key_kid (verifying r) ∧
      (∀ x, previous = Some x ↔ x ≠ kid ∧ ∃ a, active r = Ok a ∧ key_kid a = x)
  | None => rotate_to kid now r = (r, Err CONFIG_INVALID)
  end.
Proof.
  intros Hr%validate_ok. destruct (get r kid) as [k|] eqn:Hk; unfold rotate_to; rewrite Hk; [|done].
  case_bool_decide as Hst; [done|]. set (f := rotate_key kid now). set (r' := mkKeyring _ _).
  assert (validate r' = Ok tt) as Hv by (apply validate_ok; by apply rotate_ring_ok).
  rewrite Hv. cbn [result_bind]. eexists r', _. split; [reflexivity|].
  assert (f k = activate now k) as Hfk.
  { unfold f, rotate_key. by apply find_some in Hk as [_ ->]. }
  assert (filterb is_active (map f (ring_keys r)) = [activate now k]) as Hact.
  { rewrite <-Hfk. apply (filterb_map_unique f is_active (has_kid kid)); [apply length_filterb_kid, Hr| |by apply find_some in Hk].
    intros x. unfold f, rotate_key. destruct (has_kid kid x) eqn:E; [done|]. by destruct (is_active x) eqn:E'. }
  split; [by apply find_filterb|]. split; [done|]. split.
  - apply verifying_map. intros x Hx. unfold f, rotate_key. destruct (has_kid kid x) eqn:E.
    + assert (get r kid = Some x) as Hx'.
      { apply get_iff; [done|]. unfold has_kid in E. by rewrite bool_decide_eq_true in E. }
      assert (x = k) as -> by congruence. split; [done|]. by destruct (key_state k).
    + destruct (is_active x) eqn:E'; [|done]. split; [done|]. unfold is_active in E'. rewrite bool_decide_eq_true in E'. by rewrite E'.
  - intros x. apply other_active, Hr.
Qed.
End Guarantees.

(** ** A concrete keyring *)

Module KeysExamples.
#[export] Instance KeyEntry_eq_dec : EqDecision KeyEntry.
Proof. solve_decision. Defined.
#[export] Instance Keyring_eq_dec : EqDecision Keyring.
Proof. solve_decision. Defined.

Definition key (kid : string) (s : KeyState) (exp : option N) : KeyEntry :=
  mkKeyEntry kid "ES256" "pem" None s 10 None exp None.
Definition ring : Keyring := mkKeyring 100 [key "2026-01" Active None; key "2026-02" Retiring None].
Definition noted : Keyring := note_signed "2026-01" 1000 ring.
Definition rotated : Keyring := (rotate_to "2026-02" 50 noted).1.

(** A printer that knows three rings. *)
#[export] Instance toml : KeyringToml := {
  toml_from_str s :=
    if bool_decide (s = "ring") then Some ring else if bool_decide (s = "noted") then Some noted
    else if bool_decide (s = "rotated") then Some rotated else None;
  toml_to_string r :=
    if bool_decide (r = ring) then Some "ring" else if bool_decide (r = noted) then Some "noted"
    else if bool_decide (r = rotated) then Some "rotated" else None
}.
#[export] Instance toml_laws : KeyringTomlLaws.
Proof.
  intros r text. unfold toml_to_string, toml_from_str, toml.
  case_bool_decide as E; [intros [= <-]; by rewrite E|]. case_bool_decide as E1; [intros [= <-]; by rewrite E1|].
  case_bool_decide as E2; [intros [= <-]; by rewrite E2|done].
Qed.

(** Rotate, then try to retire the old key too early. *)
Definition session : list KeyStep :=
  [mkKeyStep (CmdRotate "2026-02") 50 None; mkKeyStep (CmdRetire "2026-01") 2000 None].

Section Witnesses.
#[local] Existing Instance RekorExamples.crypto.
#[local] Existing Instance TestJose.jose.

Lemma keyring_session_invariant_witness :
  ∃ r', load_keyring (run_session session (Some "noted")) = Ok r' ∧ NoDup (ring_kids r').
Proof.
  destruct (keyring_session_invariant session (Some "noted") noted) as (r' & Hl & Hnd & _).
  - split; [by left|]. split; [by left|done].
  - vm_compute. reflexivity.
  - by exists r'.
Defined.

Lemma noted_key_verifies_witness :
  ∃ r' k', load_keyring (run_session session (Some "noted")) = Ok r' ∧ get r' "2026-01" = Some k' ∧ verifies (key_state k') = true.
Proof.
  destruct (noted_key_verifies "2026-01" 1000 session (Some "ring") ring (key "2026-01" Active None) (Some "noted"))
    as (r' & k' & Hl & Hk & Hv & _).
  - vm_compute. reflexivity.
  - reflexivity.
  - discriminate.
  - vm_compute. reflexivity.
  - split; [by left|]. split; [by left|done].
  - repeat constructor.
  - by exists r', k'.
Defined.

Lemma rotation_exact_witness :
  ∃ r' previous, rotate_to "2026-02" 50 ring = (r', Ok (mkRotation "2026-02" previous)) ∧
    active r' = Ok (activate 50 (key "2026-02" Retiring None)).
Proof.
  pose proof (rotation_exact ring "2026-02" 50 ltac:(vm_compute; reflexivity)) as Hr.
  change (get ring "2026-02") with (Some (key "2026-02" Retiring None)) in Hr.
  cbv beta iota in Hr. rewrite bool_decide_eq_false_2 in Hr by done.
  destruct Hr as (r' & previous & Hrot & Ha & _). by exists r', previous.
Defined.
End Witnesses.
End KeysExamples.
