(* ===== verification/Contain.v ===== *)
(** * Contain: the revocation feed, the ACK ledger and containment orders
    ([crates/wc-control/src/contain.rs])

    The feed is a file of signed lines and the events of the process that has it open; a
    write does what the disk answers.  serde's printers and readers are the parameter
    [FeedSerde]; TOML is [MediatorToml]; a push is a function of the mediator and the
    sequence, whose attempts are answered by the network. *)

From Stdlib Require Import ZArith.
From S2P Require Import Prelude Text Errors Model Json Canon Contract Artifact Log Store Std Chain.

(** ** Revocation events *)

Inductive Revoked := Party (id : EntityId) | Connection (cid : Cid) | RevokedArtifact (jti : Jti).
#[global] Instance Revoked_eq_dec : EqDecision Revoked.
Proof. solve_decision. Defined.

Definition target (r : Revoked) : string :=
  match r with Party id => entity_str id | Connection cid => cid_str cid | RevokedArtifact jti => jti_str jti end.
Definition Revoked_kind (r : Revoked) : string :=
  match r with Party _ => "party" | Connection _ => "cid" | RevokedArtifact _ => "jti" end.

Record RevocationEvent := mkRevocationEvent {
  rev_seq : N;
  rev_revoked : Revoked;
  rev_reason : string;
  rev_actor : string;
  rev_at : N;
  rev_until : option N
}.
#[global] Instance RevocationEvent_eq_dec : EqDecision RevocationEvent.
Proof. solve_decision. Defined.

Definition applies_at (e : RevocationEvent) (now : N) : bool :=
  match rev_until e with None => true | Some until => (now <? until)%N end.

Record SignedRevocation := mkSignedRevocation { sr_event : RevocationEvent; sr_jws : string; sr_kid : string }.

(** [to_vec(&event)] and [from_value::<RevocationEvent>]; [to_string(&entry)] and [from_str]. *)
Class FeedSerde := {
  event_to_vec : RevocationEvent → string;
  event_from_value : Value → option RevocationEvent;
  signed_to_string : SignedRevocation → string;
  signed_from_str : string → option SignedRevocation
}.

(** ** The feed *)

(** The file, if there is one, and the events in memory. *)
Record RevocationFeed := mkFeed { fd_file : option string; fd_events : list SignedRevocation }.

Fixpoint numbered (expected : N) (events : list SignedRevocation) : bool :=
  match events with
  | [] => true
  | e :: events => (rev_seq (sr_event e) =? expected)%N && numbered (expected + 1) events
  end.

Definition next_seq (f : RevocationFeed) : N := (len (fd_events f) + 1)%N.

(** The file after [create_dir_all], [open], [writeln!] and [sync_all], and their answer. *)
Definition write_line (file : option string) (line : string) (io : AppendIo) : option string * result unit :=
  if negb (ap_open io) then (file, Err REVOCATION_FEED_UNWRITABLE)
  else
    let text := default "" file in
    match ap_write io with
    | Torn prefix => (Some (text +:+ prefix), Err REVOCATION_FEED_UNWRITABLE)
    | Written => (Some (text +:+ (line +:+ LFs)), if ap_sync io then Ok tt else Err REVOCATION_FEED_UNWRITABLE)
    end.
Definition append_ok : AppendIo := mkAppendIo true Written true.

Definition since (f : RevocationFeed) (n : N) : list SignedRevocation :=
  filterb (λ e, n <? rev_seq (sr_event e))%N (fd_events f).

Section Feed.
Context `{FeedSerde, Sha256, Jose, SerdeParse}.

Definition feed_open (file : option string) : result RevocationFeed :=
  let? events :=
    match file with
    | Some text => mapR (λ line, ok_or (signed_from_str line) REVOCATION_FEED_UNWRITABLE) (filled_lines text)
    | None => Ok []
    end in
  guard_err (negb (numbered 1 events)) REVOCATION_FEED_UNWRITABLE $ Ok (mkFeed file events).

Definition sign_event (event : RevocationEvent) (key : IssuerKey) : result SignedRevocation :=
  let? jws := map_err (λ _, REVOCATION_FEED_UNWRITABLE) (sign_detached (event_to_vec event) key) in
  Ok (mkSignedRevocation event jws (ik_kid key)).

Definition append (revoked : Revoked) (reason actor : string) (now : N) (key : IssuerKey) (io : AppendIo)
    : stateR RevocationFeed SignedRevocation Code := λ f,
  match sign_event (mkRevocationEvent (next_seq f) revoked reason actor now None) key with
  | Err e => (f, Err e)
  | Ok entry =>
    let '(file, written) := write_line (fd_file f) (signed_to_string entry) io in
    match written with
    | Err e => (mkFeed file (fd_events f), Err e)
    | Ok _ => (mkFeed file (fd_events f ++ [entry]), Ok entry)
    end
  end.

Definition head_digest (f : RevocationFeed) : string :=
  "sha256:" +:+ sha256_hex (join "" (map sr_jws (fd_events f))).

Definition verify_entry (keys : IssuerKeys) (entry : SignedRevocation) : result unit :=
  let? decoded := map_err (λ _, REVOCATION_FEED_UNWRITABLE)
    (verify_detached event_from_value (sr_jws entry) (sr_kid entry) keys) in
  guard_err (negb (bool_decide (decoded = sr_event entry))) REVOCATION_FEED_UNWRITABLE $ Ok tt.
Definition verify (f : RevocationFeed) (keys : IssuerKeys) : result N :=
  let? _ := mapR (verify_entry keys) (fd_events f) in Ok (len (fd_events f)).
End Feed.

(** ** Mediators *)

Record MediatorTarget := mkMediatorTarget { mt_id : string; mt_push_url : option string; mt_poll_interval : N }.
Definition default_poll_interval : N := 5.
Abbreviation MediatorSet := (list MediatorTarget).

(** [toml::from_str::<MediatorSet>]. *)
Class MediatorToml := mediators_from_toml : string → option MediatorSet.

Fixpoint check_mediators (seen : gset string) (ms : MediatorSet) : result unit :=
  match ms with
  | [] => Ok tt
  | m :: ms =>
    guard_err (bool_decide (mt_id m ∈ seen)) CONFIG_INVALID $
    guard_err (mt_poll_interval m =? 0)%N CONFIG_INVALID $
    check_mediators ({[mt_id m]} ∪ seen) ms
  end.
Definition MediatorSet_parse `{MediatorToml} (text : string) : result MediatorSet :=
  let? set := ok_or (mediators_from_toml text) CONFIG_INVALID in
  let? _ := check_mediators ∅ set in
  Ok set.
Definition mediator_get (ms : MediatorSet) (id : string) : option MediatorTarget :=
  find (λ m, bool_decide (mt_id m = id)) ms.
Definition worst_poll_interval (ms : MediatorSet) : N :=
  match ms with [] => default_poll_interval | _ => foldr N.max 0%N (map mt_poll_interval ms) end.

(** ** Push *)

Inductive PushOutcome := Accepted | PullOnly | PushFailed (attempts : N).
Definition reached (p : PushOutcome) : bool := match p with Accepted => true | _ => false end.

(** [Push::notify]. *)
Definition Push : Type := MediatorTarget → N → PushOutcome.
Definition NoPush : Push := λ _ _, PullOnly.
(** One answer per attempt: the HTTP status, or no answer. *)
Fixpoint push_attempts (answers : list (option N)) (attempts : N) : PushOutcome :=
  match answers with
  | [] => PushFailed attempts
  | Some status :: answers =>
    if ((200 <=? status) && (status <? 300))%N then Accepted else push_attempts answers attempts
  | None :: answers => push_attempts answers attempts
  end.
Definition HttpPush (attempts : N) (answer : MediatorTarget → nat → option N) : Push := λ m _,
  match mt_push_url m with
  | None => PullOnly
  | Some _ =>
    let attempts := N.max attempts 1 in push_attempts (map (answer m) (seq 1 (N.to_nat attempts))) attempts
  end.

(** ** The ACK ledger *)

Record Confirmation := mkConfirmation {
  cn_mediator : string;
  cn_feed_seq : N;
  cn_revoked : list string;
  cn_aborted : N;
  cn_at : N
}.
Record Order := mkOrder {
  or_feed_seq : N;
  or_target : string;
  or_expected : list string;
  or_at : N;
  or_deadline_at : N
}.
Record AckLedger := mkLedger { lg_confirmed : gmap string Confirmation; lg_orders : list Order }.
Definition AckLedger_default : AckLedger := mkLedger ∅ [].

Inductive AckState :=
| Confirmed (c : Confirmation)
| Waiting (seconds_left : N)
| Overdue (seconds_late : N) (last_seq : option N).
Definition is_confirmed (s : AckState) : bool := match s with Confirmed _ => true | _ => false end.

(** [sort_by_key], which is stable: an order goes in before the first with a greater key. *)
Fixpoint insert_order (o : Order) (l : list Order) : list Order :=
  match l with
  | [] => [o]
  | p :: l => if (or_feed_seq o <? or_feed_seq p)%N then o :: p :: l else p :: insert_order o l
  end.
Definition sort_orders (l : list Order) : list Order := foldl (λ acc o, insert_order o acc) [] l.

Definition expect (o : Order) (l : AckLedger) : AckLedger :=
  mkLedger (lg_confirmed l)
    (sort_orders (filterb (λ p, negb (or_feed_seq p =? or_feed_seq o)%N) (lg_orders l) ++ [o])).

Definition record (c : Confirmation) (l : AckLedger) : AckLedger :=
  match lg_confirmed l !! cn_mediator c with
  | Some existing =>
    if (cn_feed_seq c <=? cn_feed_seq existing)%N then l
    else mkLedger (<[cn_mediator c := c]> (lg_confirmed l)) (lg_orders l)
  | None => mkLedger (<[cn_mediator c := c]> (lg_confirmed l)) (lg_orders l)
  end.

(** One mediator's state for one order. *)
Definition ack_state (l : AckLedger) (o : Order) (now : N) (mediator : string) : AckState :=
  let other := lg_confirmed l !! mediator in
  match other with
  | Some c =>
    if (or_feed_seq o <=? cn_feed_seq c)%N then Confirmed c
    else if (or_deadline_at o <=? now)%N then Overdue (now - or_deadline_at o) (Some (cn_feed_seq c))
    else Waiting (or_deadline_at o - now)
  | None =>
    if (or_deadline_at o <=? now)%N then Overdue (now - or_deadline_at o) None else Waiting (or_deadline_at o - now)
  end.
Definition state_of (l : AckLedger) (o : Order) (now : N) : gmap string AckState :=
  list_to_map (map (λ m, (m, ack_state l o now m)) (or_expected o)).
Definition outstanding (l : AckLedger) (now : N) : list (Order * gmap string AckState) :=
  filterb (λ p, existsb (λ s, negb (is_confirmed s.2)) (map_to_list p.2))
    (map (λ o, (o, state_of l o now)) (lg_orders l)).

Definition all_confirmed (l : AckLedger) (o : Order) : bool :=
  forallb (λ m, match lg_confirmed l !! m with Some c => (or_feed_seq o <=? cn_feed_seq c)%N | None => false end)
    (or_expected o).
Definition retire_confirmed (l : AckLedger) : AckLedger * N :=
  let kept := filterb (λ o, negb (all_confirmed l o)) (lg_orders l) in
  (mkLedger (lg_confirmed l) kept, (len (lg_orders l) - len kept)%N).

(** ** Containment *)

Record MediatorResult := mkMediatorResult {
  mr_mediator : string;
  mr_push : PushOutcome;
  mr_ack : AckState;
  mr_bounded_by : N
}.
Record ContainmentReport := mkContainmentReport {
  cr_target : string;
  cr_feed_seq : N;
  cr_revoked : list string;
  cr_mediators : list MediatorResult;
  cr_deadline_at : N;
  cr_bounded_by : N
}.
Definition report_confirmed (r : ContainmentReport) : list MediatorResult :=
  filterb (λ m, is_confirmed (mr_ack m)) (cr_mediators r).
Definition unconfirmed (r : ContainmentReport) : list MediatorResult :=
  filterb (λ m, negb (is_confirmed (mr_ack m))) (cr_mediators r).
Definition fully_confirmed (r : ContainmentReport) : bool :=
  negb (bool_decide (len (cr_mediators r) = 0%N)) && bool_decide (len (unconfirmed r) = 0%N).

Definition DEFAULT_ACK_DEADLINE : N := 60.

Record ContainState := mkContainState { ct_feed : RevocationFeed; ct_ledger : AckLedger }.

Section Containment.
Context `{FeedSerde, Jose, SerdeParse}.

(** [matches!(&revoked, Revoked::Connection { cid: ordered } if ordered == cid)]. *)
Definition restates (revoked : Revoked) (cid : Cid) : bool :=
  match revoked with Connection ordered => bool_decide (ordered = cid) | _ => false end.

(** The loop over the affected connections; the disk answers by sequence number. *)
Fixpoint append_connections (revoked : Revoked) (contracts : list Cid) (reason actor : string) (now : N)
    (key : IssuerKey) (io : N → AppendIo) : stateR RevocationFeed unit Code := λ f,
  match contracts with
  | [] => (f, Ok tt)
  | cid :: contracts =>
    if restates revoked cid then append_connections revoked contracts reason actor now key io f
    else bindS (append (Connection cid) reason actor now key (io (next_seq f)))
           (λ _, append_connections revoked contracts reason actor now key io) f
  end.

(** [ack_deadline] is a [u32]. *)
Definition contain (revoked : Revoked) (contracts : list Cid) (reason actor : string) (now : N)
    (mediators : MediatorSet) (push : Push) (key : IssuerKey) (ack_deadline : N) (io : N → AppendIo)
    : stateR ContainState ContainmentReport Code := λ st,
  let '(feed, appended) :=
    bindS (append revoked reason actor now key (io (next_seq (ct_feed st))))
      (λ _, append_connections revoked contracts reason actor now key io) (ct_feed st) in
  match appended with
  | Err e => (mkContainState feed (ct_ledger st), Err e)
  | Ok _ =>
    let head_seq := (next_seq feed - 1)%N in
    let deadline_at := u64_add now ack_deadline in
    let order := mkOrder head_seq (target revoked) (map mt_id mediators) now deadline_at in
    let ledger := expect order (ct_ledger st) in
    let states := state_of ledger order now in
    let results := map (λ m, mkMediatorResult (mt_id m) (push m head_seq)
                              (default (Waiting ack_deadline) (states !! mt_id m)) (mt_poll_interval m)) mediators in
    (mkContainState feed ledger,
     Ok (mkContainmentReport (target revoked) head_seq (map cid_str contracts) results deadline_at
           (worst_poll_interval mediators)))
  end.
End Containment.

(** ** Laws

    An identifier read from text is valid ([serde(try_from)]), and numbers are machine
    integers; an entry is printed on one line and read back unchanged; what the revocation
    key signs verifies, under its kid, to the event that was signed. *)

Definition Revoked_valid (r : Revoked) : Prop :=
  match r with
  | Party id => EntityId_new (entity_str id) = Ok id
  | Connection cid => Cid_new (cid_str cid) = Ok cid
  | RevokedArtifact jti => Jti_new (jti_str jti) = Ok jti
  end.
Definition event_wf (e : RevocationEvent) : Prop :=
  Revoked_valid (rev_revoked e) ∧ is_u64 (rev_seq e) ∧ is_u64 (rev_at e) ∧
  match rev_until e with Some u => is_u64 u | None => True end.

Class FeedSerdeLaws `{FeedSerde} : Prop := {
  signed_roundtrip e : event_wf (sr_event e) → signed_from_str (signed_to_string e) = Some e;
  signed_plain e : plain_line (signed_to_string e)
}.

Definition signs_events `{FeedSerde, Jose, SerdeParse} (key : IssuerKey) (keys : IssuerKeys) : Prop :=
  ∀ e, ∃ jws, sign_detached (event_to_vec e) key = Ok jws ∧ verify_detached event_from_value jws (ik_kid key) keys = Ok e.

(** ** Lemmas: the feed *)

Section FeedLemmas.
Context `{FeedSerdeLaws, Sha256, Jose, SerdeParse}.

(** The file is the events in memory, one per line, numbered from one. *)
Definition feed_holds (f : RevocationFeed) : Prop :=
  default "" (fd_file f) = text_lines (map signed_to_string (fd_events f)) ∧
  numbered 1 (fd_events f) = true ∧ Forall (λ e, event_wf (sr_event e)) (fd_events f).

Lemma numbered_app n l l' : numbered n (l ++ l') = numbered n l && numbered (n + len l) l'.
Proof.
  revert n. induction l as [|e l IH]; intros n; [by rewrite N.add_0_r|]. cbn [numbered app]. rewrite IH, andb_assoc.
  do 2 f_equal. unfold len. simpl. lia.
Qed.
Lemma numbered_lookup n l i e : numbered n l = true → l !! i = Some e → rev_seq (sr_event e) = (n + N.of_nat i)%N.
Proof.
  revert n i. induction l as [|x l IH]; intros n i Hn Hi; [done|]. cbn [numbered] in Hn.
  apply andb_true_iff in Hn as [Hx%N.eqb_eq Hn]. destruct i as [|i]; cbn in Hi.
  - injection Hi as <-. lia.
  - rewrite (IH _ _ Hn Hi). lia.
Qed.

Lemma plain_events l : Forall plain_line (map signed_to_string l).
Proof. apply Forall_forall. intros w (e & <- & _)%list_elem_of_In%in_map_iff. apply signed_plain. Qed.
Lemma read_events l :
  Forall (λ e, event_wf (sr_event e)) l →
  mapR (λ line, ok_or (signed_from_str line) REVOCATION_FEED_UNWRITABLE) (map signed_to_string l) = Ok l.
Proof. induction 1 as [|e l He _ IH]; [done|]. cbn [map mapR]. rewrite signed_roundtrip by done. cbn. by rewrite IH. Qed.

Lemma open_text text l :
  text = text_lines (map signed_to_string l) → Forall (λ e, event_wf (sr_event e)) l →
  feed_open (Some text) = if numbered 1 l then Ok (mkFeed (Some text) l) else Err REVOCATION_FEED_UNWRITABLE.
Proof.
  intros -> Hl. unfold feed_open. rewrite filled_text_lines by apply plain_events.
  rewrite read_events by done. cbn. by destruct (numbered 1 l).
Qed.

Lemma append_result revoked reason actor now key io f keys :
  signs_events key keys →
  let event := mkRevocationEvent (next_seq f) revoked reason actor now None in
  ∃ entry, sr_event entry = event ∧ sr_kid entry = ik_kid key ∧
    verify_detached event_from_value (sr_jws entry) (ik_kid key) keys = Ok event ∧
    append revoked reason actor now key io f =
      (let '(file, written) := write_line (fd_file f) (signed_to_string entry) io in
       match written with
       | Err e => (mkFeed file (fd_events f), Err e)
       | Ok _ => (mkFeed file (fd_events f ++ [entry]), Ok entry)
       end).
Proof.
  intros Hs event. destruct (Hs event) as (jws & Hj & Hv). exists (mkSignedRevocation event jws (ik_kid key)).
  split; [done|]. split; [done|]. split; [done|]. unfold append, sign_event. subst event. by rewrite Hj.
Qed.

Lemma file_snoc file events entry :
  default "" file = text_lines (map signed_to_string events) →
  default "" file +:+ (signed_to_string entry +:+ LFs) = text_lines (map signed_to_string (events ++ [entry])).
Proof. intros ->. by rewrite text_lines_snoc, map_app. Qed.

(** An append that succeeds leaves a feed its file would be read back to. *)
Lemma feed_append_holds revoked reason actor now key io f f' entry :
  feed_holds f → Revoked_valid revoked → is_u64 now → is_u64 (next_seq f) →
  append revoked reason actor now key io f = (f', Ok entry) →
  feed_holds f' ∧ fd_events f' = fd_events f ++ [entry] ∧ sr_kid entry = ik_kid key ∧
  sr_event entry = mkRevocationEvent (next_seq f) revoked reason actor now None ∧
  is_Some (fd_file f').
Proof.
  intros (Htext & Hnum & Hwf) Hval Hnow Hseq. unfold append. destruct (sign_event _ _) as [e|] eqn:Hsig; [|done].
  unfold sign_event in Hsig. apply result_bind_ok in Hsig as (jws & _ & [= <-]). set (entry' := mkSignedRevocation _ _ _).
  unfold write_line. destruct (ap_open io); cbn [negb]; [|done]. destruct (ap_write io); [|done].
  destruct (ap_sync io); [|done]. intros [= <- <-]. cbn [fd_file fd_events]. split; [|done]. unfold feed_holds. cbn [fd_file fd_events].
  split; [by apply file_snoc|]. split.
  - rewrite numbered_app, Hnum. cbn [numbered andb]. rewrite andb_true_r. apply N.eqb_eq. cbn. unfold next_seq. lia.
  - apply Forall_app. split; [done|]. constructor; [|constructor]. done.
Qed.

Lemma feed_reopens f : feed_holds f → is_Some (fd_file f) → feed_open (fd_file f) = Ok f.
Proof.
  intros (Htext & Hnum & Hwf) [text Ht]. destruct f as [file events]. cbn [fd_file fd_events] in *. subst file.
  by rewrite (open_text _ events) by done; rewrite Hnum.
Qed.

Lemma since_drop f n : numbered 1 (fd_events f) = true → since f n = drop (N.to_nat n) (fd_events f).
Proof.
  unfold since. intros Hnum. replace (N.to_nat n) with (N.to_nat (n + 1) - 1)%nat by lia.
  assert (∀ l m, numbered m l = true → (m ≤ n + 1)%N →
    filterb (λ e, n <? rev_seq (sr_event e))%N l = drop (N.to_nat (n + 1) - N.to_nat m)%nat l) as Hgen.
  { intros l. induction l as [|e l IH]; intros m Hm Hle; [by rewrite drop_nil|]. cbn [numbered filterb] in *.
    apply andb_true_iff in Hm as [He%N.eqb_eq Hm]. rewrite He. destruct (n <? m)%N eqn:Hlt; bool_facts.
    - replace (N.to_nat (n + 1) - N.to_nat m)%nat with 0%nat by lia. cbn [drop]. f_equal.
      apply filterb_all. intros x [i Hi]%list_elem_of_lookup. rewrite (numbered_lookup _ _ _ _ Hm Hi). apply N.ltb_lt. lia.
    - rewrite (IH (m + 1)%N) by (done || lia). replace (N.to_nat (n + 1) - N.to_nat m)%nat with (S (N.to_nat (n + 1) - N.to_nat (m + 1)))%nat by lia. done. }
  rewrite (Hgen _ 1%N Hnum) by lia. f_equal.
Qed.
End FeedLemmas.

(** ** Theorems: the feed *)

(** One order to append. *)
Record FeedOrder := mkFeedOrder { fo_revoked : Revoked; fo_reason : string; fo_actor : string; fo_at : N }.
Definition fo_valid (o : FeedOrder) : Prop := Revoked_valid (fo_revoked o) ∧ is_u64 (fo_at o).
Definition fo_event (seq : N) (o : FeedOrder) : RevocationEvent :=
  mkRevocationEvent seq (fo_revoked o) (fo_reason o) (fo_actor o) (fo_at o) None.

Section FeedTheorems.
Context `{FeedSerdeLaws, Sha256, Jose, SerdeParse}.

Fixpoint append_all (key : IssuerKey) (orders : list FeedOrder) : stateR RevocationFeed (list SignedRevocation) Code := λ f,
  match orders with
  | [] => (f, Ok [])
  | o :: orders =>
    bindS (append (fo_revoked o) (fo_reason o) (fo_actor o) (fo_at o) key append_ok)
      (λ e, bindS (append_all key orders) (λ es, retS (e :: es))) f
  end.

Lemma append_all_holds key keys orders f :
  signs_events key keys → feed_holds f → Forall fo_valid orders → (len (fd_events f) + len orders < u64_max)%N →
  ∃ f' entries, append_all key orders f = (f', Ok entries) ∧ feed_holds f' ∧ fd_events f' = fd_events f ++ entries ∧
    (orders ≠ [] → is_Some (fd_file f')) ∧
    map sr_event entries = imap (λ i o, fo_event (len (fd_events f) + N.of_nat i + 1) o) orders ∧
    Forall (λ e, verify_entry keys e = Ok tt) entries.
Proof.
  intros Hs. revert f. induction orders as [|o orders IH]; intros f Hf Ho Hlen.
  - exists f, []. split; [done|]. split; [done|]. split; [by rewrite app_nil_r|]. split; [done|]. split; [done|constructor].
  - apply Forall_cons in Ho as [[Hval Hat] Ho].
    destruct (append_result (fo_revoked o) (fo_reason o) (fo_actor o) (fo_at o) key append_ok f keys Hs) as (entry & He & Hkid & Hv & Happ).
    cbn in Happ. assert (len (o :: orders) = len orders + 1)%N as Hlo by (unfold len; simpl; lia).
    destruct (feed_append_holds _ _ _ _ _ _ _ _ _ Hf Hval Hat ltac:(unfold is_u64, next_seq; lia) Happ) as (Hf' & Hev & _ & _ & Hfile).
    set (f1 := mkFeed _ _) in *. assert (len (fd_events f1) = len (fd_events f) + 1)%N as Hl1 by (rewrite Hev; unfold len; rewrite length_app; simpl; lia).
    destruct (IH f1 Hf' Ho ltac:(lia)) as (f2 & entries & Hrun & Hf2 & Hev2 & Hfile2 & Hmap & Hver).
    exists f2, (entry :: entries). cbn [append_all]. unfold bindS. rewrite Happ, Hrun. cbn. split; [done|]. split; [done|].
    split; [by rewrite Hev2, Hev, <-app_assoc|]. split.
    { intros _. destruct orders; [|by apply Hfile2]. cbn in Hrun. by injection Hrun as <- _. }
    split.
    + unfold next_seq in He. rewrite He, Hmap, Hl1. f_equal; [by rewrite N.add_0_r|].
      apply imap_ext. intros i x _. unfold compose. f_equal. lia.
    + constructor; [|done]. unfold verify_entry. rewrite Hkid, Hv. cbn. rewrite bool_decide_eq_true_2 by done. done.
Qed.

(** A revocation feed is read back as it was written.  Any run of orders appended to a new
    feed, with the revocation key, leaves a file that opens to the same feed: the events are
    the orders, numbered from one without a hole, every signature verifies to its event under
    the key's kid, and a mediator that asks for what follows any sequence gets exactly the
    events after it. *)
Theorem feed_reads_back key keys orders :
  signs_events key keys → Forall fo_valid orders → (len orders < u64_max)%N →
  ∃ f entries, append_all key orders (mkFeed None []) = (f, Ok entries) ∧
    feed_open (fd_file f) = Ok f ∧ fd_events f = entries ∧
    map sr_event entries = imap (λ i o, fo_event (N.of_nat i + 1) o) orders ∧
    verify f keys = Ok (len orders) ∧ ∀ n, since f n = drop (N.to_nat n) entries.
Proof.
  intros Hs Ho Hlen. destruct (append_all_holds key keys orders (mkFeed None [])) as (f & entries & Hrun & Hf & Hev & Hfile & Hmap & Hver);
    [done|by repeat split|done|done|]. cbn in Hev.
  exists f, entries. split; [done|]. split.
  { destruct orders as [|o orders]; [cbn in Hrun; by injection Hrun as <- <-|]. apply feed_reopens; [done|by apply Hfile]. }
  split; [done|]. split; [done|]. split.
  - unfold verify. assert (mapR (verify_entry keys) (fd_events f) = Ok (replicate (length entries) tt)) as ->.
    { rewrite Hev. clear -Hver. induction Hver as [|e l He _ IH]; [done|]. cbn [mapR]. rewrite He. cbn. by rewrite IH. }
    cbn. f_equal. apply (f_equal length) in Hmap. rewrite length_map, length_imap in Hmap. unfold len. by rewrite Hev, Hmap.
  - intros n. rewrite <-Hev. by apply since_drop, Hf.
Qed.

(** After a flush that failed the feed takes further orders and cannot be opened again.
    When the line of an order reached the file and only the flush failed, the order is
    refused; the next order is accepted under the same sequence number, and from then on the
    file is refused as gapped, so nothing further can be cut or served from it. *)
Theorem failed_flush_loses_feed key keys o1 o2 f :
  signs_events key keys → feed_holds f → fo_valid o1 → fo_valid o2 → is_u64 (next_seq f) →
  ∃ f1 f2 entry,
    append (fo_revoked o1) (fo_reason o1) (fo_actor o1) (fo_at o1) key (mkAppendIo true Written false) f
      = (f1, Err REVOCATION_FEED_UNWRITABLE) ∧
    append (fo_revoked o2) (fo_reason o2) (fo_actor o2) (fo_at o2) key append_ok f1 = (f2, Ok entry) ∧
    rev_seq (sr_event entry) = next_seq f ∧
    feed_open (fd_file f1) = Ok (mkFeed (fd_file f1) (fd_events f1 ++ [mkSignedRevocation (fo_event (next_seq f) o1)
      (match sign_detached (event_to_vec (fo_event (next_seq f) o1)) key with Ok jws => jws | Err _ => "" end) (ik_kid key)])) ∧
    feed_open (fd_file f2) = Err REVOCATION_FEED_UNWRITABLE.
Proof.
  intros Hs Hf [Hv1 Ha1] [Hv2 Ha2] Hseq. destruct Hf as (Htext & Hnum & Hwf).
  destruct (Hs (fo_event (next_seq f) o1)) as (jws & Hj & _). set (e1 := mkSignedRevocation (fo_event (next_seq f) o1) jws (ik_kid key)).
  set (f1 := mkFeed (Some (default "" (fd_file f) +:+ (signed_to_string e1 +:+ LFs))) (fd_events f)).
  destruct (append_result (fo_revoked o2) (fo_reason o2) (fo_actor o2) (fo_at o2) key append_ok f1 keys Hs) as (e2 & He2 & _ & _ & Happ2).
  cbn in Happ2. eexists f1, _, e2. split; [|split; [exact Happ2|split; [by rewrite He2|]]].
  { unfold append, sign_event. change (mkRevocationEvent _ _ _ _ _ _) with (fo_event (next_seq f) o1). rewrite Hj. done. }
  rewrite Hj. fold e1. cbn [fd_file fd_events f1].
  pose proof (file_snoc _ _ e1 Htext) as Ht1. assert (event_wf (sr_event e1)) as Hw1 by done.
  assert (event_wf (sr_event e2)) as Hw2 by (rewrite He2; done).
  assert (numbered 1 (fd_events f ++ [e1]) = true) as Hn1.
  { rewrite numbered_app, Hnum. cbn. rewrite andb_true_r. apply N.eqb_eq. unfold next_seq. lia. }
  split.
  - rewrite (open_text _ (fd_events f ++ [e1])); [by rewrite Hn1|done|]. apply Forall_app. split; [done|]. by constructor.
  - rewrite (open_text _ ((fd_events f ++ [e1]) ++ [e2])); [|by apply (file_snoc (Some _))|].
    + rewrite numbered_app, Hn1. cbn [numbered andb]. rewrite He2. cbn [rev_seq]. destruct (_ =? _)%N eqn:E; [|done].
      apply N.eqb_eq in E. unfold len in E. rewrite length_app in E. simpl in E. unfold next_seq, len in E. simpl in E. lia.
    + apply Forall_app. split; [|by constructor]. apply Forall_app. split; [done|]. by constructor.
Qed.
End FeedTheorems.

(** ** Lemmas: the ledger *)

Lemma elem_of_insert_order o l x : x ∈ insert_order o l ↔ x = o ∨ x ∈ l.
Proof.
  induction l as [|p l IH]; cbn [insert_order]; [set_solver|]. destruct (_ <? _)%N; [set_solver|].
  rewrite !elem_of_cons, IH. tauto.
Qed.
Lemma elem_of_sort_orders l x : x ∈ sort_orders l ↔ x ∈ l.
Proof.
  unfold sort_orders. assert (∀ acc, x ∈ foldl (λ acc o, insert_order o acc) acc l ↔ x ∈ acc ∨ x ∈ l) as Hg; [|rewrite Hg; set_solver].
  induction l as [|o l IH]; intros acc; cbn [foldl]; [set_solver|]. rewrite IH, elem_of_insert_order, elem_of_cons. tauto.
Qed.
Lemma elem_of_expect o l x :
  x ∈ lg_orders (expect o l) ↔ x = o ∨ x ∈ lg_orders l ∧ or_feed_seq x ≠ or_feed_seq o.
Proof.
  unfold expect. cbn [lg_orders]. rewrite elem_of_sort_orders, elem_of_app, elem_of_filterb, list_elem_of_singleton, negb_true_iff, N.eqb_neq.
  tauto.
Qed.

Definition confirms (l : AckLedger) (seq : N) (m : string) : Prop :=
  ∃ c, lg_confirmed l !! m = Some c ∧ (seq ≤ cn_feed_seq c)%N.
Lemma ack_state_confirmed l o now m : is_confirmed (ack_state l o now m) = true ↔ confirms l (or_feed_seq o) m.
Proof.
  unfold ack_state, confirms. destruct (lg_confirmed l !! m) as [c|]; cbv zeta.
  - destruct (or_feed_seq o <=? cn_feed_seq c)%N eqn:E; bool_facts.
    + split; [intros _; by exists c|done].
    + destruct (_ <=? _)%N; (split; [done|intros (c' & [= <-] & ?); lia]).
  - destruct (_ <=? _)%N; (split; [done|by intros (c' & ? & _)]).
Qed.
Lemma all_confirmed_iff l o : all_confirmed l o = true ↔ ∀ m, m ∈ or_expected o → confirms l (or_feed_seq o) m.
Proof.
  unfold all_confirmed, confirms. rewrite forallb_True. apply forall_proper. intros m. apply forall_proper. intros _.
  destruct (lg_confirmed l !! m) as [c|].
  - rewrite N.leb_le. split; [intros; by exists c|by intros (? & [= <-] & ?)].
  - split; [done|by intros (? & ? & _)].
Qed.
Lemma lookup_state_of l o now m :
  state_of l o now !! m = if bool_decide (m ∈ or_expected o) then Some (ack_state l o now m) else None.
Proof.
  unfold state_of. generalize (or_expected o). intros ms. induction ms as [|x ms IH]; [done|]. cbn [map list_to_map foldr].
  destruct (decide (x = m)) as [->|Hne].
  - change (list_to_map (M := gmap string AckState) ((m, ack_state l o now m) :: ?r)) with (<[m := ack_state l o now m]> (list_to_map (M := gmap string AckState) r)).
    rewrite lookup_insert_eq, bool_decide_eq_true_2; [done|set_solver].
  - change (list_to_map (M := gmap string AckState) ((x, ?s) :: ?r)) with (<[x := s]> (list_to_map (M := gmap string AckState) r)).
    rewrite lookup_insert_ne, IH by done. do 2 case_bool_decide; set_solver.
Qed.
Lemma elem_of_outstanding l now o :
  (o, state_of l o now) ∈ outstanding l now ↔ o ∈ lg_orders l ∧ all_confirmed l o = false.
Proof.
  unfold outstanding. rewrite elem_of_filterb, existsb_True. split.
  - intros [(p & [= ->] & Hp)%list_elem_of_fmap ([m s] & Hs & Hn)]. split; [done|].
    apply elem_of_map_to_list in Hs. cbn [fst snd] in Hs. rewrite lookup_state_of in Hs. case_bool_decide as Hm; [|done]. injection Hs as <-.
    apply not_true_iff_false. rewrite all_confirmed_iff. intros Hall. apply Hall, (ack_state_confirmed _ _ now) in Hm.
    cbn in Hn. by rewrite Hm in Hn.
  - intros [Ho Hall]. split; [apply list_elem_of_In, (in_map (λ o, (o, state_of l o now))), list_elem_of_In, Ho|].
    destruct (existsb (λ m, negb (is_confirmed (ack_state l o now m))) (or_expected o)) eqn:E.
    + apply existsb_True in E as (m & Hm & Hn). exists (m, ack_state l o now m). split; [|done].
      apply elem_of_map_to_list. cbn. by rewrite lookup_state_of, bool_decide_eq_true_2.
    + rewrite existsb_False in E. apply not_true_iff_false in Hall. exfalso. apply Hall, all_confirmed_iff. intros m Hm%E.
      apply (ack_state_confirmed _ _ now). by apply negb_false_iff.
Qed.

(** ** Theorems: the ledger *)

Inductive LedgerOp := OpExpect (o : Order) | OpRecord (c : Confirmation) | OpRetire.
Definition run_ledger_op (l : AckLedger) (op : LedgerOp) : AckLedger :=
  match op with OpExpect o => expect o l | OpRecord c => record c l | OpRetire => (retire_confirmed l).1 end.

Definition confirmed_le (l l' : AckLedger) : Prop := ∀ seq m, confirms l seq m → confirms l' seq m.
Lemma record_le c l : confirmed_le l (record c l).
Proof.
  intros seq m (d & Hd & ?). unfold record, confirms. destruct (lg_confirmed l !! cn_mediator c) as [x|] eqn:E.
  - destruct (cn_feed_seq c <=? cn_feed_seq x)%N eqn:Hle; bool_facts; [by exists d|]. cbn.
    destruct (decide (cn_mediator c = m)) as [<-|]; [|rewrite lookup_insert_ne by done; by exists d].
    rewrite lookup_insert_eq. exists c. split; [done|]. rewrite E in Hd. injection Hd as ->. lia.
  - cbn. rewrite lookup_insert_ne by congruence. by exists d.
Qed.
Lemma run_ledger_op_le l op : confirmed_le l (run_ledger_op l op).
Proof. destruct op; [by intros ? ?|apply record_le|by intros ? ?]. Qed.

(** An order stays visible until every mediator it expects has confirmed it.  Whatever is
    recorded, expected for other sequences and retired afterwards, a mediator's confirmed
    sequence never moves back; the order is dropped only if every expected mediator confirmed
    its sequence or a later one; and until then it is listed as outstanding, each mediator
    that has not confirmed being waiting before the deadline and overdue from it on. *)
Theorem unconfirmed_order_stays ops l o now :
  o ∈ lg_orders l → (∀ o', OpExpect o' ∈ ops → or_feed_seq o' ≠ or_feed_seq o) →
  let l' := fold_left run_ledger_op ops l in
  confirmed_le l l' ∧
  (o ∈ lg_orders l' ∨ ∀ m, m ∈ or_expected o → confirms l' (or_feed_seq o) m) ∧
  ((∃ m, m ∈ or_expected o ∧ ¬ confirms l' (or_feed_seq o) m) →
    (o, state_of l' o now) ∈ outstanding l' now ∧
    ∀ m, m ∈ or_expected o → ¬ confirms l' (or_feed_seq o) m →
      state_of l' o now !! m =
        Some (if (or_deadline_at o <=? now)%N then Overdue (now - or_deadline_at o) (cn_feed_seq <$> lg_confirmed l' !! m)
              else Waiting (or_deadline_at o - now))).
Proof.
  intros Ho Hne l'. assert (confirmed_le l l' ∧ (o ∈ lg_orders l' ∨ ∀ m, m ∈ or_expected o → confirms l' (or_feed_seq o) m)) as [Hle Hin].
  { assert (o ∈ lg_orders l ∨ ∀ m, m ∈ or_expected o → confirms l (or_feed_seq o) m) as Hstart by by left.
    clear Ho. subst l'. revert l Hstart. induction ops as [|op ops IH]; intros l Hstart; cbn [fold_left]; [by split; [intros ? ?|]|].
    destruct (IH ltac:(set_solver) (run_ledger_op l op)) as [Hle Hin].
    - destruct Hstart as [Ho|Hc]; [|right; intros m Hm; by apply run_ledger_op_le, Hc]. destruct op as [o'|c|]; cbn [run_ledger_op].
      + left. apply elem_of_expect. right. split; [done|]. intros E. by apply (Hne o'); [left|].
      + left. unfold record. repeat case_match; done.
      + destruct (all_confirmed l o) eqn:E; [right; cbn; by apply all_confirmed_iff|]. left. cbn. apply elem_of_filterb. by rewrite E.
    - split; [|done]. intros seq m Hc. by apply Hle, run_ledger_op_le. }
  split; [done|]. split; [done|]. intros (m & Hm & Hno). split.
  - apply elem_of_outstanding. destruct Hin as [Hin|Hall]; [|by destruct Hno; apply Hall]. split; [done|].
    apply not_true_iff_false. rewrite all_confirmed_iff. intros Hall. by apply Hno, Hall.
  - intros x Hx Hnx. rewrite lookup_state_of, bool_decide_eq_true_2 by done. f_equal. unfold ack_state.
    destruct (lg_confirmed l' !! x) as [c|] eqn:E; [|by destruct (_ <=? _)%N]. destruct (or_feed_seq o <=? cn_feed_seq c)%N eqn:Hc; [|by destruct (_ <=? _)%N].
    destruct Hnx. exists c. bool_facts. by split.
Qed.

(** ** Theorems: containment orders *)

Section ContainTheorems.
Context `{FeedSerde, Jose, SerdeParse}.

Lemma append_grows revoked reason actor now key io f f' entry :
  append revoked reason actor now key io f = (f', Ok entry) →
  fd_events f' = fd_events f ++ [entry] ∧ sr_event entry = mkRevocationEvent (next_seq f) revoked reason actor now None.
Proof.
  unfold append. destruct (sign_event _ _) as [e|] eqn:Hs; [|done]. unfold sign_event in Hs.
  apply result_bind_ok in Hs as (jws & _ & [= <-]). destruct (write_line _ _ _) as [file [[]|]]; [|done]. by intros [= <- <-].
Qed.
Lemma append_connections_grows revoked contracts reason actor now key io f f' :
  append_connections revoked contracts reason actor now key io f = (f', Ok tt) →
  ∃ rows, fd_events f' = fd_events f ++ rows ∧
    map sr_event rows = imap (λ i c, mkRevocationEvent (next_seq f + N.of_nat i) (Connection c) reason actor now None)
                          (filterb (λ c, negb (restates revoked c)) contracts).
Proof.
  revert f. induction contracts as [|c contracts IH]; intros f; cbn [append_connections filterb].
  - intros [= <-]. exists []. by rewrite app_nil_r.
  - destruct (restates revoked c); cbn [negb]; [apply IH|]. unfold bindS.
    destruct (append _ _ _ _ _ _ f) as [f1 [entry|]] eqn:Ha; [|done]. apply append_grows in Ha as [He Hev].
    intros (rows & Hr & Hm)%IH. exists (entry :: rows). rewrite Hr, He, <-app_assoc. split; [done|]. cbn. rewrite Hev, Hm. f_equal.
    + by rewrite N.add_0_r.
    + apply imap_ext. intros i x _. unfold compose. f_equal. unfold next_seq. rewrite He. unfold len. rewrite length_app. simpl. lia.
Qed.

Lemma forallb_filter_nil {A} (p : A → bool) l :
  bool_decide (len (filterb (λ x, negb (p x)) l) = 0%N) = true ↔ ∀ x, x ∈ l → p x = true.
Proof.
  rewrite bool_decide_eq_true. rewrite <-forallb_True. unfold len. induction l as [|x l IH]; [done|]. cbn [filterb forallb].
  destruct (p x); cbn [negb andb]; [done|]. simpl. split; [lia|done].
Qed.
Lemma worst_bounds ms m : m ∈ ms → (mt_poll_interval m ≤ worst_poll_interval ms)%N.
Proof.
  intros Hm. unfold worst_poll_interval. destruct ms as [|x ms]; [set_solver|]. revert Hm. generalize (x :: ms). clear x ms.
  intros l Hm. induction l as [|x l IH]; [set_solver|]. cbn [map foldr]. apply elem_of_cons in Hm as [->|Hm]; [lia|]. specialize (IH Hm). lia.
Qed.

(** A containment report says what was confirmed and no more.  If an order is contained,
    the feed gained the order and then each affected connection that does not restate it, one
    after the other, and the report names the last of them; every known mediator is listed,
    in order; one is reported confirmed exactly if the ledger holds its confirmation of that
    sequence or a later one, whatever the pushes answered; the report is fully confirmed only
    with at least one mediator and all of them confirmed; nothing confirms later than the
    stated bound; and the order is on the ledger.  If an append failed the ledger is as it was. *)
Theorem contain_reports_exactly revoked contracts reason actor now mediators push key ack_deadline io st :
  match contain revoked contracts reason actor now mediators push key ack_deadline io st with
  | (st', Ok report) =>
    ∃ rows, fd_events (ct_feed st') = fd_events (ct_feed st) ++ rows ∧
      map (λ e, rev_revoked (sr_event e)) rows = revoked :: map Connection (filterb (λ c, negb (restates revoked c)) contracts) ∧
      (∀ i e, rows !! i = Some e → rev_seq (sr_event e) = (next_seq (ct_feed st) + N.of_nat i)%N) ∧
      cr_feed_seq report = len (fd_events (ct_feed st')) ∧
      map mr_mediator (cr_mediators report) = map mt_id mediators ∧
      (∀ m, m ∈ cr_mediators report →
        (is_confirmed (mr_ack m) = true ↔ confirms (ct_ledger st) (cr_feed_seq report) (mr_mediator m)) ∧
        (mr_bounded_by m ≤ cr_bounded_by report)%N) ∧
      (fully_confirmed report = true ↔
        mediators ≠ [] ∧ ∀ m, m ∈ mediators → confirms (ct_ledger st) (cr_feed_seq report) (mt_id m)) ∧
      ∃ o, o ∈ lg_orders (ct_ledger st') ∧ or_feed_seq o = cr_feed_seq report ∧ or_expected o = map mt_id mediators ∧
        or_target o = target revoked ∧ or_deadline_at o = u64_add now ack_deadline
  | (st', Err _) => ct_ledger st' = ct_ledger st
  end.
Proof.
  unfold contain. unfold bindS at 1. destruct (append revoked reason actor now key _ (ct_feed st)) as [f1 [entry|e]] eqn:Ha; [|done].
  destruct (append_connections revoked contracts reason actor now key io f1) as [f2 [[]|e]] eqn:Hc; [|done]. cbv zeta.
  apply append_grows in Ha as [Ha Hev]. apply append_connections_grows in Hc as (rows & Hrows & Hmap).
  set (head_seq := (next_seq f2 - 1)%N). set (o := mkOrder head_seq _ _ _ _). cbn [ct_feed ct_ledger cr_feed_seq cr_mediators cr_bounded_by].
  assert (head_seq = len (fd_events f2)) as Hhead by (unfold head_seq, next_seq; lia).
  assert (next_seq f1 = next_seq (ct_feed st) + 1)%N as Hn1 by (unfold next_seq; rewrite Ha; unfold len; rewrite length_app; simpl; lia).
  assert (∀ m, m ∈ mediators → default (Waiting ack_deadline) (state_of (expect o (ct_ledger st)) o now !! mt_id m)
            = ack_state (ct_ledger st) o now (mt_id m)) as Hstate.
  { intros m Hm. rewrite lookup_state_of, bool_decide_eq_true_2; [done|]. cbn. by apply list_elem_of_In, in_map, list_elem_of_In. }
  assert (map rev_revoked (map sr_event rows) = map Connection (filterb (λ c, negb (restates revoked c)) contracts)) as Hconn.
  { rewrite Hmap. generalize (next_seq f1). generalize (filterb (λ c, negb (restates revoked c)) contracts). intros cs.
    induction cs as [|c cs IH]; intros n; [done|]. cbn [imap map]. f_equal. rewrite <-(IH (n + 1)%N). f_equal. apply imap_ext.
    intros i x _. unfold compose. f_equal. lia. }
  exists (entry :: rows). split; [by rewrite Hrows, Ha, <-app_assoc|]. split; [cbn [map]; by rewrite Hev, <-Hconn, map_map|]. split.
  { intros [|i] e Hi; [cbn in Hi; injection Hi as <-; rewrite Hev; cbn; lia|]. change (rows !! i = Some e) in Hi.
    assert (map sr_event rows !! i = Some (sr_event e)) as Hl by (change (map sr_event rows) with (sr_event <$> rows); rewrite list_lookup_fmap; by rewrite Hi).
    rewrite Hmap, list_lookup_imap in Hl. apply fmap_Some in Hl as (c & _ & ->). cbn. lia. }
  split; [done|]. split; [by rewrite map_map|]. split.
  { intros x (m & <- & Hm%list_elem_of_In)%list_elem_of_In%in_map_iff. cbn. split; [|by apply worst_bounds].
    by rewrite Hstate, ack_state_confirmed by done. }
  split.
  - unfold fully_confirmed. cbn [cr_mediators]. rewrite andb_true_iff. unfold unconfirmed. cbn [cr_mediators].
    rewrite (forallb_filter_nil (λ m, is_confirmed (mr_ack m))), negb_true_iff, bool_decide_eq_false. unfold len. rewrite length_map. split.
    + intros [Hne Hall]. split; [by intros ->|]. intros m Hm. apply (ack_state_confirmed _ o now). rewrite <-Hstate by done.
      apply (Hall (mkMediatorResult (mt_id m) (push m head_seq) _ (mt_poll_interval m))).
      apply list_elem_of_In, in_map_iff. exists m. split; [reflexivity|by apply list_elem_of_In].
    + intros [Hne Hall]. split; [destruct mediators; [done|simpl; lia]|].
      intros x (m & <- & Hm%list_elem_of_In)%list_elem_of_In%in_map_iff. cbn. rewrite Hstate by done. apply ack_state_confirmed, Hall, Hm.
  - exists o. split; [apply elem_of_expect; by left|]. done.
Qed.
End ContainTheorems.

(** ** A concrete feed *)

Module ContainExamples.
Import ChainExamples.

Definition revoked_code (r : Revoked) : N * string :=
  match r with Party id => (0, entity_str id) | Connection cid => (1, cid_str cid) | RevokedArtifact jti => (2, jti_str jti) end%N.
Definition revoked_of (c : N * string) : Revoked :=
  match c.1 with 0%N => Party (mkEntityId c.2) | 1%N => Connection (mkCid c.2) | _ => RevokedArtifact (mkJti c.2) end.
Definition event_code (e : RevocationEvent) :=
  (rev_seq e, revoked_code (rev_revoked e), rev_reason e, rev_actor e, rev_at e, rev_until e).
Definition event_of (c : N * (N * string) * string * string * N * option N) : RevocationEvent :=
  let '(seq, r, reason, actor, at_, until) := c in mkRevocationEvent seq (revoked_of r) reason actor at_ until.
Definition scan_event (s : string) : option RevocationEvent := event_of <$> scan s.
Definition scan_signed (s : string) : option SignedRevocation :=
  (λ c : (N * (N * string) * string * string * N * option N) * string * string, mkSignedRevocation (event_of c.1.1) c.1.2 c.2) <$> scan s.

#[export] Instance feed_serde : FeedSerde := {|
  event_to_vec e := print (event_code e);
  event_from_value v := match v with VString s => scan_event s | _ => None end;
  signed_to_string e := print (event_code (sr_event e), sr_jws e, sr_kid e);
  signed_from_str := scan_signed
|}.

Lemma event_of_code e : event_of (event_code e) = e.
Proof. by destruct e as [? [[]|[]|[]] ? ? ? ?]. Qed.
Lemma scan_event_print e : scan_event (print (event_code e)) = Some e.
Proof. unfold scan_event. rewrite scan_print. change (Some (event_of (event_code e)) = Some e). by rewrite event_of_code. Qed.

#[export] Instance feed_laws : FeedSerdeLaws.
Proof.
  split.
  - intros [e jws kid] _. cbn [signed_from_str signed_to_string feed_serde]. unfold scan_signed. rewrite scan_print.
    change (Some (mkSignedRevocation (event_of (event_code e)) jws kid) = Some (mkSignedRevocation e jws kid)). by rewrite event_of_code.
  - intros e. split; [apply print_one_line|done].
Qed.

(** A header is [H]; a payload is its own text. *)
#[export] Instance feed_parse : SerdeParse := λ s,
  if bool_decide (s = "H") then Some (VObject [("alg", VString "ES256")]) else Some (VString s).
Definition feed_key : IssuerKey := mkIssuerKey "rev" ES256 Local (λ _, Ok sig).
Definition feed_keys : IssuerKeys := {[ "rev" := (ES256, pub) ]}.

Definition jws_of (body : string) : string := compact (TestSha.hex_encode "H") (TestSha.hex_encode body) (TestSha.hex_encode sig).
Lemma split_jws body : split_on dot (jws_of body) = [TestSha.hex_encode "H"; TestSha.hex_encode body; TestSha.hex_encode sig].
Proof. apply split_compact; apply TestJose.hex_no_dot. Qed.
Lemma jws_verifies {T} (parse : Value → option T) body x :
  parse (VString body) = Some x → verify_detached parse (jws_of body) "rev" feed_keys = Ok x.
Proof.
  intros Hp. unfold verify_detached.
  assert (header_alg (jws_of body) = Ok "ES256") as ->.
  { unfold header_alg. rewrite split_jws. vm_compute. reflexivity. }
  cbn [result_bind]. assert (jwt_decode (jws_of body) pub ES256 = Some (VString body)) as Hd.
  { cbn [jwt_decode jose]. unfold decode_jws. rewrite split_jws. cbn [lookup list_lookup mbind option_bind].
    by rewrite TestJose.hex_roundtrip. }
  change (feed_keys !! "rev") with (Some (ES256, pub)). unfold guard_err. cbn [negb str_in]. cbn [ok_or result_bind].
  rewrite Hd, Hp. reflexivity.
Qed.
Lemma feed_key_signs : signs_events feed_key feed_keys.
Proof. intros e. exists (jws_of (event_to_vec e)). split; [done|]. apply jws_verifies. apply scan_event_print. Qed.

Definition orders : list FeedOrder :=
  [mkFeedOrder (Party (mkEntityId "spiffe://bank/agent")) "incident" "sam" 10;
   mkFeedOrder (Connection (mkCid "conn_0123abcd")) "incident" "sam" 10].

Lemma feed_reads_back_witness :
  ∃ f entries, append_all feed_key orders (mkFeed None []) = (f, Ok entries) ∧ feed_open (fd_file f) = Ok f ∧
    verify f feed_keys = Ok 2%N.
Proof.
  destruct (feed_reads_back feed_key feed_keys orders feed_key_signs) as (f & entries & Hrun & Hopen & _ & _ & Hver & _).
  - repeat constructor; vm_compute; congruence.
  - reflexivity.
  - exists f, entries. split; [exact Hrun|]. split; [exact Hopen|exact Hver].
Defined.

Lemma failed_flush_loses_feed_witness :
  ∃ f1 f2 entry,
    append (fo_revoked (mkFeedOrder (Connection (mkCid "conn_0123abcd")) "" "" 1)) "" "" 1 feed_key append_ok f1 = (f2, Ok entry) ∧
    feed_open (fd_file f2) = Err REVOCATION_FEED_UNWRITABLE.
Proof.
  destruct (failed_flush_loses_feed feed_key feed_keys (mkFeedOrder (Connection (mkCid "conn_0123abcd")) "" "" 1)
              (mkFeedOrder (Connection (mkCid "conn_0123abcd")) "" "" 1) (mkFeed None []) feed_key_signs)
    as (f1 & f2 & entry & _ & Happ & _ & _ & Hopen).
  - repeat split. constructor.
  - split; vm_compute; congruence.
  - split; vm_compute; congruence.
  - vm_compute. congruence.
  - exists f1, f2, entry. split; [exact Happ|exact Hopen].
Defined.

Definition order : Order := mkOrder 2 "spiffe://bank/agent" ["m1"; "m2"] 10 70.
Lemma unconfirmed_order_stays_witness :
  let l := fold_left run_ledger_op [OpRecord (mkConfirmation "m1" 3 [] 0 20); OpRetire] (expect order AckLedger_default) in
  (order, state_of l order 100) ∈ outstanding l 100.
Proof.
  intros l.
  destruct (unconfirmed_order_stays [OpRecord (mkConfirmation "m1" 3 [] 0 20); OpRetire] (expect order AckLedger_default) order 100)
    as (_ & _ & Hout).
  - by left.
  - intros o' Ho. repeat (apply elem_of_cons in Ho as [Ho|Ho]; [discriminate|]). by apply not_elem_of_nil in Ho.
  - apply Hout. exists "m2". split; [right; left|]. intros (c & Hc & _). vm_compute in Hc. discriminate.
Defined.
End ContainExamples.
