(* ===== verification/Bundle.v ===== *)
(** * Bundle: air-gapped contract bundles ([crates/wc-control/src/bundle.rs])

    The envelope, its digest, cutting and signing one, verifying one, and the two commands
    over them ([bundle_export], [bundle_verify] of [wc-cli/src/main.rs]) but their printing.
    serde is the parameter [BundleSerde]; the signing key is an argument, whatever holds it. *)

From S2P Require Import Prelude Text Errors Model Json Canon Contract Artifact Log Store Std Chain Evidence Rekor Admission Policy Keys Contain.

#[local] Open Scope N_scope.

Definition BUNDLE_SCHEMA : N := 1.
Definition MAX_BUNDLE_TTL_SECS : N := 14 * 86400.

(** ** The envelope *)

Record BundleBody := mkBundleBody {
  bd_schema : N;
  bd_mediator_id : string;
  bd_issued_at : N;
  bd_exp : N;
  bd_contracts : list string;
  bd_jwks : string;
  bd_revocations : list Value;
  bd_revocation_head : string
}.
(** [serde_json::to_value(body)]. *)
Definition body_document (b : BundleBody) : Value :=
  json_object
    [("schema", num (bd_schema b)); ("mediator_id", VString (bd_mediator_id b)); ("issued_at", num (bd_issued_at b));
     ("exp", num (bd_exp b)); ("contracts", strings_value (bd_contracts b)); ("jwks", VString (bd_jwks b));
     ("revocations", VArray (bd_revocations b)); ("revocation_head", VString (bd_revocation_head b))].
Record BundleClaims := mkBundleClaims { bc_digest : string; bc_mediator_id : string; bc_exp : N; bc_iat : N }.
Record Bundle := mkBundle { bu_body : BundleBody; bu_jws : string; bu_kid : string }.
Record Imported := mkImported {
  im_mediator_id : string;
  im_contracts : list string;
  im_rejected : list (N * Code);
  im_revocations : N;
  im_revocation_head : string;
  im_exp : N;
  im_remaining : N
}.
Definition imported_is_clean (i : Imported) : bool := bool_decide (im_rejected i = []).
Record ExportRequest := mkExportRequest {
  er_mediator_id : string;
  er_contracts : list string;
  er_jwks : string;
  er_revocations : list Value;
  er_revocation_head : string;
  er_ttl_secs : N
}.

(** [to_vec(&claims)] and [from_value::<BundleClaims>]; [to_string_pretty(bundle)] and [from_str::<Bundle>];
    [to_value(&event)] of a revocation event; [to_string_pretty] of a JSON document. *)
Class BundleSerde := {
  bundle_claims_to_vec : BundleClaims → string;
  bundle_claims_from_value : Value → option BundleClaims;
  bundle_to_pretty : Bundle → option string;
  bundle_from_str : string → option Bundle;
  event_to_value : RevocationEvent → Value;
  value_to_pretty : Value → option string
}.

Section Bundles.
Context `{SerdeJson, Sha256, Jose, SerdeParse, BundleSerde}.

Definition body_digest (b : BundleBody) : string := "sha256:" +:+ sha256_hex (canonical_json (body_document b)).

Definition export (request : ExportRequest) (now : N) (key : IssuerKey) : result Bundle :=
  guard_err (bool_decide (trim_text (er_mediator_id request) = "")) EXPORT_FAILED $
  guard_err ((er_ttl_secs request =? 0) || (MAX_BUNDLE_TTL_SECS <? er_ttl_secs request)) EXPORT_FAILED $
  guard_err (bool_decide (trim_text (er_jwks request) = "")) EXPORT_FAILED $
  let body := mkBundleBody BUNDLE_SCHEMA (er_mediator_id request) now (saturating_add_u64 now (er_ttl_secs request))
    (er_contracts request) (er_jwks request) (er_revocations request) (er_revocation_head request) in
  let claims := mkBundleClaims (body_digest body) (bd_mediator_id body) (bd_exp body) (bd_issued_at body) in
  let? jws := map_err (λ _, EXPORT_FAILED) (sign_detached (bundle_claims_to_vec claims) key) in
  Ok (mkBundle body jws (ik_kid key)).
Definition to_bytes (b : Bundle) : result string := ok_or (bundle_to_pretty b) EXPORT_FAILED.

(** The loop of [import] over the contracts: those that verify, and where the others stand. *)
Fixpoint judge_contracts (trust : Trust) (now i : N) (contracts : list string) : list string * list (N * Code) :=
  match contracts with
  | [] => ([], [])
  | jws :: contracts =>
    let '(verified, rejected) := judge_contracts trust now (i + 1) contracts in
    match verify_artifact jws (VerifyOpts_trusting trust now) with
    | Ok _ => (jws :: verified, rejected)
    | Err e => (verified, (i, e) :: rejected)
    end
  end.
Definition import (text : string) (envelope_keys : IssuerKeys) (trust : Trust) (now : N) : result Imported :=
  let? bundle := ok_or (bundle_from_str text) EXPORT_FAILED in
  let body := bu_body bundle in
  guard_err (negb (bd_schema body =? BUNDLE_SCHEMA)) SCHEMA_UNKNOWN $
  let? claims := map_err (λ _, SIGNATURE_INVALID) (verify_detached bundle_claims_from_value (bu_jws bundle) (bu_kid bundle) envelope_keys) in
  guard_err (negb (bool_decide (bc_digest claims = body_digest body))) SIGNATURE_INVALID $
  guard_err (negb (bool_decide (bc_mediator_id claims = bd_mediator_id body)) || negb (bc_exp claims =? bd_exp body)) SIGNATURE_INVALID $
  guard_err (negb (bool_decide (bd_mediator_id body = tr_mediator_id trust))) AUDIENCE_MISMATCH $
  guard_err (bd_exp body <=? now) CONTRACT_EXPIRED $
  guard_err (now <? saturating_sub (bd_issued_at body) 300) CONTRACT_EXPIRED $
  let '(verified, rejected) := judge_contracts trust now 0 (bd_contracts body) in
  Ok (mkImported (bd_mediator_id body) verified rejected (len (bd_revocations body)) (bd_revocation_head body) (bd_exp body)
        (saturating_sub (bd_exp body) now)).
Definition import_file (file : option string) (envelope_keys : IssuerKeys) (trust : Trust) (now : N) : result Imported :=
  let? text := ok_or file EXPORT_FAILED in import text envelope_keys trust now.
Definition audiences (b : Bundle) : gset string := {[bd_mediator_id (bu_body b)]}.

(** ** The commands *)

Context `{FeedSerde, KeyringToml, NoteCrypto}.

(** The records of the projection, in the order of their ids. *)
Definition contracts_in_order (p : Projection) : list ContractRecord :=
  omap (λ cid, pr_contracts p !! cid) (sort_cids (elements (dom (pr_contracts p)))).
(** What each live contract for this mediator has on file: its artifact, or its id if there is none. *)
Fixpoint collect_artifacts (s : Store) (mediator : string) (now : N) (records : list ContractRecord) : list string * list Cid :=
  match records with
  | [] => ([], [])
  | record :: records =>
    let '(contracts, missing) := collect_artifacts s mediator now records in
    if negb (ContractRecord_is_live record now) || negb (str_in mediator (rec_aud record)) then (contracts, missing)
    else match read_artifact s (cid_str (rec_cid record)) mediator with
         | Some jws => (jws :: contracts, missing)
         | None => (contracts, rec_cid record :: missing)
         end
  end.
Definition revocation_value (e : SignedRevocation) : Value :=
  json_object [("event", event_to_value (sr_event e)); ("jws", VString (sr_jws e)); ("kid", VString (sr_kid e))].
(** [keyring] is what the flag names, if it is given; [feed] the feed file, if it exists. *)
Definition bundle_export (s : Store) (mediator : string) (key : IssuerKey) (ttl : option string) (keyring : option (option string))
    (feed : option string) (now : N) : result string :=
  let ttl := default (7 * 86400) (ttl ≫= parse_duration) in
  let '(contracts, missing) := collect_artifacts s mediator now (contracts_in_order (st_projection s)) in
  guard_err (negb (bool_decide (missing = []))) EXPORT_FAILED $
  let? keyring := ok_or keyring EXPORT_FAILED in
  let? text := ok_or keyring CONFIG_INVALID in
  let? ring := Keyring_parse text in
  let? document := jwks ring in
  let? jwks := ok_or (value_to_pretty document) CONFIG_INVALID in
  let? feed := feed_open feed in
  let? bundle := export (mkExportRequest mediator contracts jwks (map revocation_value (fd_events feed)) (head_digest feed) ttl) now key in
  to_bytes bundle.
Definition bundle_verify (file : option string) (mediator kid : string) (envelope_pub : option string) (issuer_pub : option (option string))
    (issuer : string) (now : N) : result Imported :=
  let? pem := ok_or envelope_pub CONFIG_INVALID in
  let? envelope := add_ec_pem IssuerKeys_new kid pem ES256 in
  let? pem := ok_or (default (Some pem) issuer_pub) CONFIG_INVALID in
  let? contract_keys := add_ec_pem IssuerKeys_new kid pem ES256 in
  let? imported := import_file file envelope (mkTrust contract_keys mediator issuer) now in
  guard_err (negb (imported_is_clean imported)) SIGNATURE_INVALID $ Ok imported.
End Bundles.

(** ** What an import stands for *)

Section BundleSound.
Context `{SerdeJsonLaws, Sha256, Jose, SerdeParse, BundleSerde, FeedSerde, KeyringToml, NoteCrypto}.

Definition verifies (trust : Trust) (now : N) (jws : string) : bool := is_ok (verify_artifact jws (VerifyOpts_trusting trust now)).

Lemma judge_verified trust now i contracts : (judge_contracts trust now i contracts).1 = filterb (verifies trust now) contracts.
Proof.
  revert i. induction contracts as [|jws contracts IH]; intros i; [done|]. cbn [judge_contracts List.filter].
  specialize (IH (i + 1)). destruct (judge_contracts trust now (i + 1) contracts) as [v r]. cbn [fst] in IH. subst v. unfold verifies.
  by destruct (verify_artifact _ _).
Qed.
Lemma judge_rejected trust now i contracts n e : (n, e) ∈ (judge_contracts trust now i contracts).2 ↔
  i ≤ n ∧ ∃ jws, contracts !! N.to_nat (n - i) = Some jws ∧ verify_artifact jws (VerifyOpts_trusting trust now) = Err e.
Proof.
  revert i. induction contracts as [|jws contracts IH]; intros i; cbn [judge_contracts].
  { split; [by intros ?%elem_of_nil|]. by intros (_ & ? & [=] & _). }
  specialize (IH (i + 1)). destruct (judge_contracts trust now (i + 1) contracts) as [v r]. cbn [snd] in IH.
  assert (i ≤ n ∧ (∃ j, (jws :: contracts) !! N.to_nat (n - i) = Some j ∧ verify_artifact j (VerifyOpts_trusting trust now) = Err e) ↔
    (n = i ∧ verify_artifact jws (VerifyOpts_trusting trust now) = Err e) ∨ (n, e) ∈ r) as ->.
  { rewrite IH. split.
    - intros (Hle & j & Hj & He). destruct (decide (n = i)) as [-> |Hne].
      + rewrite N.sub_diag in Hj. injection Hj as <-. by left.
      + right. split; [lia|]. exists j. split; [|done]. replace (N.to_nat (n - i)) with (S (N.to_nat (n - (i + 1)))) in Hj by lia. done.
    - intros [[-> He]|(Hle & j & Hj & He)].
      + split; [done|]. exists jws. by rewrite N.sub_diag.
      + split; [lia|]. exists j. split; [|done]. by replace (N.to_nat (n - i)) with (S (N.to_nat (n - (i + 1)))) by lia. }
  destruct (verify_artifact jws _) as [c|e'] eqn:Hv; cbn [snd].
  - split; [by right|]. by intros [[_ ?]|?].
  - rewrite elem_of_cons. split; [|naive_solver]. intros [[= -> ->]|?]; [by left|by right].
Qed.

(** The signature of an envelope, and what it says of the body. *)
Definition sealed (keys : IssuerKeys) (b : Bundle) : Prop :=
  ∃ claims, verify_detached bundle_claims_from_value (bu_jws b) (bu_kid b) keys = Ok claims ∧
    bc_digest claims = body_digest (bu_body b) ∧ bc_mediator_id claims = bd_mediator_id (bu_body b) ∧ bc_exp claims = bd_exp (bu_body b).
(** What an import yields of a body. *)
Definition outcome (trust : Trust) (now : N) (b : BundleBody) : Imported :=
  mkImported (bd_mediator_id b) (filterb (verifies trust now) (bd_contracts b)) (judge_contracts trust now 0 (bd_contracts b)).2
    (len (bd_revocations b)) (bd_revocation_head b) (bd_exp b) (saturating_sub (bd_exp b) now).

Lemma import_exact text keys trust now out : import text keys trust now = Ok out ↔
  ∃ b, bundle_from_str text = Some b ∧ bd_schema (bu_body b) = BUNDLE_SCHEMA ∧ sealed keys b ∧
    bd_mediator_id (bu_body b) = tr_mediator_id trust ∧ now < bd_exp (bu_body b) ∧ bd_issued_at (bu_body b) ≤ now + 300 ∧
    out = outcome trust now (bu_body b).
Proof.
  unfold import, outcome. split.
  - intros (b & Hb%ok_or_ok & [Hsch%negb_false_iff%N.eqb_eq Hr]%guard_err_ok)%result_bind_ok. exists b.
    apply result_bind_ok in Hr as (claims & Hv & Hr). rewrite !guard_err_ok, orb_false_iff, !negb_false_iff, !bool_decide_eq_true in Hr.
    destruct Hr as (Hd & [Hm He%N.eqb_eq] & Ha & Hx%N.leb_gt & Hi%N.ltb_ge & Hr). unfold saturating_sub in Hi.
    split_and!; try done; [|lia|].
    + exists claims. destruct (verify_detached _ _ _ _); [|done]. by injection Hv as ->.
    + destruct (judge_contracts trust now 0 (bd_contracts (bu_body b))) as [v r] eqn:Hj. injection Hr as <-. f_equal.
      by rewrite <-(judge_verified trust now 0), Hj.
  - intros (b & -> & Hsch & (claims & Hv & Hd & Hm & He) & Ha & Hx & Hi & ->). cbn [ok_or result_bind].
    rewrite Hsch, Hv. cbn [negb map_err result_bind guard_err]. change (negb (BUNDLE_SCHEMA =? BUNDLE_SCHEMA)) with false.
    unfold guard_err. rewrite Hd, Hm, He, Ha, !bool_decide_eq_true_2, N.eqb_refl by done. cbn [negb orb].
    rewrite (proj2 (N.leb_gt _ _)) by lia. unfold saturating_sub. rewrite (proj2 (N.ltb_ge _ _)) by lia.
    pose proof (judge_verified trust now 0 (bd_contracts (bu_body b))) as Hj.
    destruct (judge_contracts trust now 0 (bd_contracts (bu_body b))) as [v r]. cbn [fst snd] in *. by rewrite Hj.
Qed.

(** A document of a body is well formed, and of that body alone. *)
Definition body_fits (b : BundleBody) : Prop :=
  bd_schema b ≤ u64_max ∧ bd_issued_at b ≤ u64_max ∧ bd_exp b ≤ u64_max ∧ Forall (λ v, value_wf v = true) (bd_revocations b).
Lemma body_document_wf b : body_fits b → value_wf (body_document b) = true.
Proof.
  intros (Hs & Hi & Hx & Hr). apply json_object_wf. intros e Hin.
  repeat (apply elem_of_cons in Hin as [->|Hin]; [first [done | apply strings_value_wf | by apply N.leb_le | idtac]|]).
  - cbn [snd value_wf]. apply forallb_forall. intros v Hv%list_elem_of_In. by eapply Forall_forall in Hr.
  - by apply not_elem_of_nil in Hin.
Qed.
Lemma body_document_inj b b' : body_document b = body_document b' → b = b'.
Proof.
  destruct b, b'. unfold body_document. cbn [bd_schema bd_mediator_id bd_issued_at bd_exp bd_contracts bd_jwks bd_revocations bd_revocation_head].
  intros Hd. cbv -[strings_value] in Hd. injection Hd as Hc -> -> -> -> -> -> ->. apply map_VString_inj in Hc. by subst.
Qed.
Lemma body_digest_inj b b' : body_fits b → body_fits b' → body_digest b = body_digest b' → b = b' ∨ sha256_collision.
Proof.
  intros Hb Hb' Hd. apply sha256_tagged_inj in Hd as [Hd|?]; [left|by right]. apply body_document_inj.
  by apply canonical_json_inj; [apply body_document_wf..|].
Qed.

(** C17: a bundle is sealed whole, and stops whole.  What an import yields is of one body that the
    envelope's key signed for this mediator, and only before its expiry, whatever the expiry of the
    contracts inside; the contracts are those of the body that verify as any other artifact does, in
    order, and every other is reported by its place and code.  Whatever else the same signature is
    put on -- other contracts, a longer life, fewer revocations -- is refused, up to a collision. *)
Theorem import_sealed text keys trust now out : import text keys trust now = Ok out →
  ∃ b, bundle_from_str text = Some b ∧ sealed keys b ∧ im_mediator_id out = tr_mediator_id trust ∧ now < im_exp out ∧
    im_exp out = bd_exp (bu_body b) ∧ im_remaining out = im_exp out - now ∧
    im_contracts out = filterb (verifies trust now) (bd_contracts (bu_body b)) ∧
    (∀ i e, (i, e) ∈ im_rejected out ↔ ∃ jws, bd_contracts (bu_body b) !! N.to_nat i = Some jws ∧
       verify_artifact jws (VerifyOpts_trusting trust now) = Err e) ∧
    im_revocations out = len (bd_revocations (bu_body b)) ∧
    ∀ text' b' trust' now' out', bundle_from_str text' = Some b' → bu_jws b' = bu_jws b → bu_kid b' = bu_kid b →
      import text' keys trust' now' = Ok out' → body_fits (bu_body b) → body_fits (bu_body b') →
      bu_body b' = bu_body b ∨ sha256_collision.
Proof.
  intros (b & Hb & _ & Hseal & Ha & Hx & _ & ->)%import_exact. exists b. cbn. split_and!; try done.
  - intros i e. rewrite judge_rejected, N.sub_0_r. naive_solver lia.
  - intros text' b' trust' now' out' Hb' Hj Hk (b0 & Hb0 & _ & Hseal' & _)%import_exact Hf Hf'. rewrite Hb' in Hb0.
    injection Hb0 as <-. destruct Hseal as (claims & Hv & Hd & _), Hseal' as (claims' & Hv' & Hd' & _).
    rewrite Hj, Hk, Hv in Hv'. injection Hv' as <-. apply body_digest_inj; [done|done|]. by rewrite <-Hd, <-Hd'.
Qed.

(** ** From the store of the control plane to the mediator *)

Definition addressed (s : Store) (mediator : string) (now : N) (record : ContractRecord) : Prop :=
  (∃ cid, pr_contracts (st_projection s) !! cid = Some record) ∧ ContractRecord_is_live record now = true ∧ mediator ∈ rec_aud record.

Lemma contracts_in_order_complete p cid record : pr_contracts p !! cid = Some record → record ∈ contracts_in_order p.
Proof.
  intros Hc. unfold contracts_in_order. apply list_elem_of_omap. exists cid. split; [|done].
  apply elem_of_sort_cids. apply elem_of_elements. by apply elem_of_dom_2 in Hc.
Qed.
Lemma collect_complete s mediator now records record : record ∈ records → ContractRecord_is_live record now = true →
  mediator ∈ rec_aud record → (collect_artifacts s mediator now records).2 = [] →
  ∃ jws, read_artifact s (cid_str (rec_cid record)) mediator = Some jws ∧ jws ∈ (collect_artifacts s mediator now records).1.
Proof.
  intros Hin Hlive Haud. induction records as [|r records IH]; [by apply elem_of_nil in Hin|]. cbn [collect_artifacts].
  destruct (collect_artifacts s mediator now records) as [contracts missing]. cbn [fst snd] in IH.
  apply elem_of_cons in Hin as [<- |Hin].
  - rewrite Hlive. unfold str_in. rewrite bool_decide_eq_true_2 by done. cbn [negb orb].
    destruct (read_artifact s _ mediator) as [jws|]; [|done]. intros _. exists jws. split; [done|left].
  - specialize (IH Hin). destruct (negb _ || negb _); [done|]. destruct (read_artifact s (cid_str (rec_cid r)) mediator) as [jws|]; [|done].
    cbn [fst snd]. intros Hm. destruct (IH Hm) as (jws' & Hr & Hj). exists jws'. split; [done|by right].
Qed.

(** The key signs bundles that [keys] verifies, and a bundle reads back as it was written. *)
Definition signs_bundles (key : IssuerKey) (keys : IssuerKeys) : Prop :=
  ∀ claims jws, sign_detached (bundle_claims_to_vec claims) key = Ok jws →
    verify_detached bundle_claims_from_value jws (ik_kid key) keys = Ok claims.
Definition bundles_read_back : Prop := ∀ b text, bundle_to_pretty b = Some text → bundle_from_str text = Some b.

Lemma export_ok request now key b : export request now key = Ok b → ∀ keys, signs_bundles key keys →
  sealed keys b ∧ bd_schema (bu_body b) = BUNDLE_SCHEMA ∧ bd_mediator_id (bu_body b) = er_mediator_id request ∧
  bd_issued_at (bu_body b) = now ∧ bd_exp (bu_body b) = saturating_add_u64 now (er_ttl_secs request) ∧
  bd_contracts (bu_body b) = er_contracts request ∧ er_ttl_secs request ≤ MAX_BUNDLE_TTL_SECS.
Proof.
  unfold export. cbv zeta. intros [_ [Ht%orb_false_iff [_ (jws & Hs & [= <-])%result_bind_ok]%guard_err_ok]%guard_err_ok]%guard_err_ok keys Hkey.
  destruct Ht as [_ Ht%N.ltb_ge]. split_and!; [|done..]. destruct (sign_detached _ key) as [j|] eqn:E; [|done]. injection Hs as ->.
  eexists. split; [by apply Hkey, E|]. done.
Qed.

(** C16: what is carried in arrives.  A bundle that is cut holds every contract that was live and
    addressed to the mediator, by the artifact on file, or nothing is written; and until it expires,
    at most fourteen days later, an import for that mediator yields each of those that verifies.
    From its expiry on the whole of it is refused. *)
Theorem bundle_delivers s mediator key ttl keyring feed now text keys trust now' :
  signs_bundles key keys → bundles_read_back → bundle_export s mediator key ttl keyring feed now = Ok text →
  tr_mediator_id trust = mediator → now ≤ now' + 300 →
  match import text keys trust now' with
  | Ok out => now' < im_exp out ∧ im_exp out ≤ now + MAX_BUNDLE_TTL_SECS ∧
      ∀ record, addressed s mediator now record →
      ∃ jws, read_artifact s (cid_str (rec_cid record)) mediator = Some jws ∧ (verifies trust now' jws = true → jws ∈ im_contracts out)
  | Err e => e = CONTRACT_EXPIRED ∧ saturating_add_u64 now (default (7 * 86400) (ttl ≫= parse_duration)) ≤ now'
  end.
Proof.
  intros Hkey Hback. unfold bundle_export. cbv zeta.
  destruct (collect_artifacts s mediator now (contracts_in_order (st_projection s))) as [contracts missing] eqn:Hcol.
  rewrite guard_err_ok, negb_false_iff, bool_decide_eq_true. intros [Hmiss Hr].
  apply result_bind_ok in Hr as (? & _ & (? & _ & (ring & _ & (doc & _ & Hr)%result_bind_ok)%result_bind_ok)%result_bind_ok).
  apply result_bind_ok in Hr as (j & _ & (fd & _ & (b & Hb & Hto%ok_or_ok)%result_bind_ok)%result_bind_ok).
  intros Htr Hnow. destruct (export_ok _ _ _ _ Hb keys Hkey) as (Hseal & Hsch & Hmed & Hat & Hexp & Hcon & Httl).
  cbn [er_mediator_id er_ttl_secs er_contracts] in *. apply Hback in Hto.
  destruct (N.ltb_spec now' (bd_exp (bu_body b))) as [Hlt|Hge].
  - assert (import text keys trust now' = Ok (outcome trust now' (bu_body b))) as ->.
    { apply import_exact. exists b. split_and!; try done; [by rewrite Hmed|by rewrite Hat]. }
    cbn [outcome im_exp im_contracts]. split; [done|]. split; [rewrite Hexp; unfold saturating_add_u64; lia|].
    intros record ((cid & Hc) & Hlive & Haud).
    destruct (collect_complete s mediator now _ record (contracts_in_order_complete _ _ _ Hc) Hlive Haud) as (jws & Hj & Hin); [by rewrite Hcol|].
    exists jws. split; [done|]. intros Hver. rewrite Hcol in Hin. rewrite Hcon. apply list_elem_of_In, List.filter_In.
    split; [by apply list_elem_of_In|done].
  - unfold import. rewrite Hto. cbn [ok_or result_bind]. rewrite Hsch. change (negb (BUNDLE_SCHEMA =? BUNDLE_SCHEMA)) with false.
    destruct Hseal as (claims & Hv & Hd & Hm & He). rewrite Hv. cbn [map_err result_bind]. unfold guard_err.
    rewrite Hd, Hm, He, Hmed, Htr, !bool_decide_eq_true_2, N.eqb_refl by done. cbn [negb orb].
    rewrite (proj2 (N.leb_le _ _) Hge). split; [done|]. by rewrite <-Hexp.
Qed.

(** The command holds the contracts' key under the name of the envelope's: whatever it verifies was
    signed under that name, and a bundle that spans a rotation of the issuer's key never verifies. *)
Lemma bundle_verify_one_kid file mediator kid envelope_pub issuer_pub issuer now out :
  bundle_verify file mediator kid envelope_pub issuer_pub issuer now = Ok out →
  im_rejected out = [] ∧ ∀ jws, jws ∈ im_contracts out → ∃ header, decode_header jws = Some header ∧ hdr_kid header = Some kid ∧ hdr_alg header = ES256.
Proof.
  unfold bundle_verify. intros (pem & _ & (envelope & _ & (pem' & _ & (ks & Hks & Hr)%result_bind_ok)%result_bind_ok)%result_bind_ok)%result_bind_ok.
  apply result_bind_ok in Hr as (i & Hi & [Hc%negb_false_iff%bool_decide_eq_true [= ->]]%guard_err_ok). split; [done|].
  unfold import_file in Hi. apply result_bind_ok in Hi as (text & _ & (b & _ & _ & _ & _ & _ & _ & ->)%import_exact).
  intros jws. cbn. intros [_ Hv]%list_elem_of_In%List.filter_In. unfold verifies in Hv.
  destruct (verify_artifact jws _) as [vc|] eqn:E; [|done]. clear Hv. unfold verify_artifact in E.
  apply guard_err_ok in E as [_ (alg & _ & [_ (header & Hh%ok_or_ok & E)%result_bind_ok]%guard_err_ok)%result_bind_ok].
  apply result_bind_ok in E as (kid' & Hk%ok_or_ok & ([ea key] & Hkey%ok_or_ok & [Ha%negb_false_iff%bool_decide_eq_true _]%guard_err_ok)%result_bind_ok).
  exists header. split; [done|]. cbn in Hkey. unfold add_ec_pem in Hks. apply result_bind_ok in Hks as (dk & _ & [= <-]).
  change ((<[kid := (ES256, dk)]> (∅ : gmap string (Algorithm * DecodingKey))) !! kid' = Some (ea, key)) in Hkey.
  apply lookup_insert_Some in Hkey as [[-> [= <- <-]]|[_ ?]]; [|done]. done.
Qed.
End BundleSound.

(** ** A concrete bundle *)
Module BundleExamples.
Import TestPrinter ChainExamples ContainExamples.

Definition envelope_header : Value := VObject [("alg", VString "ES256")].
(** A header is [H]; the payload [P] is the contract's, and any other is its own text. *)
#[export] Instance parse : SerdeParse := λ s,
  if bool_decide (s = "H") then Some envelope_header
  else if bool_decide (s = "P") then Some (VObject [("schema", VNumber (PosInt 1))])
  else Some (VString s).
Definition decode (jws key : string) (alg : Algorithm) : option Value :=
  match split_on dot jws with
  | [_; body; _] => raw ← TestJose.hex_decode body; parse raw
  | _ => None
  end.
#[export] Instance jose : Jose := {|
  EncodingKey := unit; DecodingKey := string;
  encoding_from_ec_pem _ := None; encoding_from_ed_pem _ := None;
  decoding_from_ec_pem s := Some s; decoding_from_ed_pem _ := None; decoding_from_jwk _ := None; jwkset_from_str _ := None;
  crypto_sign _ _ _ := None; b64url_encode := TestSha.hex_encode; b64url_decode := TestJose.hex_decode;
  header_to_vec _ := "H"; decode_header _ := Some (mkHeader ES256 (Some "k") None);
  payload_to_vec _ := "P"; payload_from_value _ := Some TestJose.contract; jwt_decode := decode
|}.
#[export] Instance ring_toml : KeyringToml := {| toml_from_str _ := Some Keyring_default; toml_to_string _ := None |}.
#[export] Instance note : NoteCrypto := RekorExamples.crypto.
Definition claims_code (c : BundleClaims) := ((bc_digest c, bc_mediator_id c), (bc_exp c, bc_iat c)).
Definition claims_of (c : (string * string) * (N * N)) : BundleClaims := let '((d, m), (x, i)) := c in mkBundleClaims d m x i.
Definition jws_with (body : string) : string := compact (TestSha.hex_encode "H") (TestSha.hex_encode body) (TestSha.hex_encode sig).
#[export] Instance BundleBody_eq_dec : EqDecision BundleBody.
Proof. solve_decision. Defined.
#[export] Instance Bundle_eq_dec : EqDecision Bundle.
Proof. solve_decision. Defined.
Definition cid : Cid := mkCid "conn_0123abcd".
Definition artifact : string := jws_with "P".
Definition record : ContractRecord :=
  mkContractRecord cid (mkJti "jti-0001") TestJose.agent TestJose.server TestJose.zone TestJose.zone Tier_TWO "sha256:m" TestJose.digest
    TestJose.surface Terms_default ["mediator-1"] "" CActive standing "v1" 10 100 None 1.
Definition state : Projection := mkProjection ∅ {[ cid := record ]} ∅ ∅ ∅ ∅ [] ∅ ∅ 0.
Definition store : Store := write_artifact (mkStore state (Log.mkLog [] "" 0 0 0 false) [] ∅) (cid_str cid) "mediator-1" artifact.
(** Two bundles, of the same contract; the second one's revocations name its connection. *)
Definition body_with (jwks : string) (revocations : list Value) (head : string) : BundleBody :=
  mkBundleBody 1 "mediator-1" 40 3640 [artifact] jwks revocations head.
Definition seal (b : BundleBody) : Bundle :=
  mkBundle b (jws_with (print (claims_code (mkBundleClaims (body_digest b) "mediator-1" 3640 40)))) "k".
Definition revocation : Value := json_object [("cid", VString (cid_str cid))].
Definition plain_bundle : Bundle := seal (body_with "keys" [] "sha256:0").
Definition revoking_bundle : Bundle := seal (body_with "keys" [revocation] "").
(** A printer that knows them. *)
#[export] Instance bundle_serde : BundleSerde := {|
  bundle_claims_to_vec c := print (claims_code c);
  bundle_claims_from_value v := match v with VString s => claims_of <$> scan s | _ => None end;
  bundle_to_pretty b := if bool_decide (b = plain_bundle) then Some "plain" else if bool_decide (b = revoking_bundle) then Some "revoking" else None;
  bundle_from_str s := if bool_decide (s = "plain") then Some plain_bundle else if bool_decide (s = "revoking") then Some revoking_bundle else None;
  event_to_value e := VString (target (rev_revoked e));
  value_to_pretty v := Some "keys"
|}.
Definition envelope_key : IssuerKey := mkIssuerKey "k" ES256 Local (λ _, Ok sig).
Definition envelope_keys : IssuerKeys := {[ "k" := (ES256, "pub") ]}.

Lemma split_jws_with body : split_on dot (jws_with body) = [TestSha.hex_encode "H"; TestSha.hex_encode body; TestSha.hex_encode sig].
Proof. apply split_compact; apply TestJose.hex_no_dot. Qed.
Lemma signed_verifies body x : parse body = Some (VString body) → bundle_claims_from_value (VString body) = Some x →
  verify_detached bundle_claims_from_value (jws_with body) "k" envelope_keys = Ok x.
Proof.
  intros Hb Hp. unfold verify_detached.
  assert (header_alg (jws_with body) = Ok "ES256") as ->.
  { unfold header_alg. rewrite split_jws_with. vm_compute. reflexivity. }
  cbn [result_bind]. change (envelope_keys !! "k") with (Some (ES256, "pub")). unfold guard_err. cbn [negb str_in ok_or result_bind].
  assert (jwt_decode (jws_with body) "pub" ES256 = Some (VString body)) as ->.
  { cbn [jwt_decode jose]. unfold decode. by rewrite split_jws_with, TestJose.hex_roundtrip. }
  by rewrite Hp.
Qed.
Lemma signing : signs_bundles envelope_key envelope_keys.
Proof.
  intros claims jws E. assert (jws_with (print (claims_code claims)) = jws) as <-.
  { assert (∀ a b : string, @Ok string Code a = Ok b → a = b) as Hok by (by intros a b [=]). apply Hok. rewrite <-E. reflexivity. }
  apply signed_verifies; [reflexivity|]. cbn [bundle_claims_from_value bundle_serde]. rewrite scan_print. by destruct claims.
Qed.
Lemma reading : bundles_read_back.
Proof.
  intros b text. cbn [bundle_to_pretty bundle_from_str bundle_serde]. case_bool_decide as E; [intros [= <-]; by rewrite E|].
  case_bool_decide as E'; [intros [= <-]; by rewrite E'|done].
Qed.

Definition cut : result string := bundle_export store "mediator-1" envelope_key (Some "1h") (Some (Some "ring")) None 40.
Definition trust : Trust := mkTrust envelope_keys "mediator-1" "plane".
Lemma bundle_delivers_witness : ∃ jws, read_artifact store (cid_str cid) "mediator-1" = Some jws ∧
  (verifies trust 50 jws = true → ∃ out, import "plain" envelope_keys trust 50 = Ok out ∧ jws ∈ im_contracts out).
Proof.
  assert (cut = Ok "plain") as Hcut by (vm_compute; reflexivity).
  pose proof (bundle_delivers store "mediator-1" envelope_key (Some "1h") (Some (Some "ring")) None 40 "plain" envelope_keys trust 50
    signing reading Hcut eq_refl) as Hd.
  assert (is_ok (import "plain" envelope_keys trust 50) = true) as Hok by (vm_compute; reflexivity).
  destruct (import "plain" envelope_keys trust 50) as [out|e]; [|discriminate Hok].
  destruct Hd as (_ & _ & Hall); [lia|]. destruct (Hall record) as (jws & Hr & Hj); [split_and!; [by exists cid|done|by left]|].
  exists jws. split; [exact Hr|]. intros Hv. exists out. split; [reflexivity|by apply Hj].
Defined.
(** The contract is imported all the same: the revocations a bundle carries are counted, and neither
    their signatures nor what they name is looked at. *)
Lemma revoked_in_bundle_imported :
  im_contracts <$> (match import "revoking" envelope_keys trust 50 with Ok out => Some out | Err _ => None end) = Some [artifact] ∧
  im_revocations <$> (match import "revoking" envelope_keys trust 50 with Ok out => Some out | Err _ => None end) = Some 1.
Proof. split; vm_compute; reflexivity. Qed.
Lemma import_sealed_witness : ∃ out b, import "revoking" envelope_keys trust 50 = Ok out ∧ bundle_from_str "revoking" = Some b ∧
  sealed envelope_keys b ∧ 50 < im_exp out.
Proof.
  assert (is_ok (import "revoking" envelope_keys trust 50) = true) as Hok by (vm_compute; reflexivity).
  destruct (import "revoking" envelope_keys trust 50) as [out|e] eqn:E; [|discriminate Hok].
  destruct (import_sealed "revoking" envelope_keys trust 50 out E) as (b & Hb & Hs & _ & Hx & _).
  exists out, b. split; [reflexivity|]. split; [exact Hb|]. split; [exact Hs|exact Hx].
Defined.
End BundleExamples.
