(* ===== verification/Tenant.v ===== *)
(** * Tenant: tenants, their paths, and the writer lock ([crates/wc-control/src/tenant.rs], [lock.rs])

    Tenant ids, the paths derived from one, the registry, bindings, and the part of the
    command line that turns a flag into paths; then taking the lock, with or without waiting.
    A path is its text, joined as the standard library joins.  TOML is a parameter; what the
    system answers to opening and locking the lock file is an argument, attempt by attempt. *)

From S2P Require Import Prelude Text Errors Model Std.

#[local] Open Scope N_scope.

(** ** Tenant ids *)

Definition MAX_TENANT_LEN : N := 63.
Definition DEFAULT_TENANT : string := "default".
Definition TenantId := string.
Definition tenant_char (c : N) : bool := is_ascii_lowercase c || is_ascii_digit c || (c =? 45).
Definition TenantId_new (raw : string) : result TenantId :=
  guard_err (bool_decide (raw = "")) TENANT_UNKNOWN $
  guard_err (MAX_TENANT_LEN <? str_len raw) TENANT_UNKNOWN $
  let first := default 0 (head (chars raw)) in
  guard_err (negb (is_ascii_lowercase first) && negb (is_ascii_digit first)) TENANT_UNKNOWN $
  guard_err (negb (forallb tenant_char (chars raw))) TENANT_UNKNOWN $
  Ok raw.

(** ** Paths *)

(** [Path::join]: a part that is absolute replaces what is before it. *)
Definition path_join (base part : string) : string :=
  if starts_with "/" part then part
  else if bool_decide (base = "") || bool_decide (last (bytes base) = Some 47) then base +:+ part
  else base +:+ "/" +:+ part.
Record TenantPaths := mkTenantPaths {
  tp_tenant : TenantId;
  tp_base : string;
  tp_state : string;
  tp_evidence : string;
  tp_revocations : string;
  tp_acks : string;
  tp_set_acks : string;
  tp_artifacts : string
}.
Definition ARTIFACT_DIR : string := "contracts".
Definition TenantPaths_new (root : string) (tenant : TenantId) : TenantPaths :=
  let base := path_join (path_join root "tenants") tenant in
  let state := path_join base "state" in
  mkTenantPaths tenant base state (path_join base "evidence") (path_join base "revocations.jsonl") (path_join base "acks.json")
    (path_join base "set-acks.json") (path_join state ARTIFACT_DIR).
(** Where a tenant's files are. *)
Definition places (p : TenantPaths) : list string :=
  [tp_state p; tp_evidence p; tp_revocations p; tp_acks p; tp_set_acks p; tp_artifacts p].

(** *** On the command line: a flag, else the environment, else a default *)
Definition DEFAULT_ROOT : string := ".connect".
Definition either (flag env : option string) (d : string) : string :=
  match flag with Some v => v | None => match env with Some v => v | None => d end end.
Definition tenant_id (flag env : option string) : result TenantId :=
  match (match flag with Some v => Some v | None => env end) with
  | Some name => TenantId_new name
  | None => Ok DEFAULT_TENANT
  end.
Definition paths_checked (root_flag root_env tenant_flag tenant_env : option string) : result TenantPaths :=
  let root := either root_flag root_env DEFAULT_ROOT in
  let? tenant := tenant_id tenant_flag tenant_env in
  Ok (TenantPaths_new root tenant).
Definition invalid_tenant : string := "/nonexistent/invalid-tenant".
Definition tenant_paths (root_flag root_env tenant_flag tenant_env : option string) : TenantPaths :=
  match paths_checked root_flag root_env tenant_flag tenant_env with
  | Ok p => p
  | Err _ =>
    mkTenantPaths "" invalid_tenant (invalid_tenant +:+ "/state") (invalid_tenant +:+ "/evidence") (invalid_tenant +:+ "/revocations.jsonl")
      (invalid_tenant +:+ "/acks.json") (invalid_tenant +:+ "/set-acks.json") (invalid_tenant +:+ "/artifacts")
  end.

(** ** The registry *)

Record TenantDef := mkTenantDef {
  td_id : TenantId;
  td_name : string;
  td_mode : string;
  td_policy : option string;
  td_issuer_key : option string;
  td_kid : option string;
  td_suspended : bool
}.
Abbreviation TenantRegistry := (list TenantDef).
Definition set_ (o : option string) : bool := match o with Some _ => true | None => false end.
Fixpoint validate_tenants (seen : list string) (r : TenantRegistry) : result unit :=
  match r with
  | [] => Ok tt
  | t :: r =>
    guard_err (str_in (td_id t) seen) CONFIG_INVALID $
    guard_err (negb (str_in (td_mode t) ["enforce"; "observe"])) CONFIG_INVALID $
    guard_err (bool_decide (td_mode t = "enforce") && negb (set_ (td_issuer_key t))) CONFIG_INVALID $
    guard_err (negb (Bool.eqb (set_ (td_issuer_key t)) (set_ (td_kid t)))) CONFIG_INVALID $
    validate_tenants (td_id t :: seen) r
  end.
(** [toml::from_str::<TenantRegistry>], which reads an id through [TenantId::new]. *)
Class TenantToml := tenants_from_toml : string → option TenantRegistry.
Definition TenantRegistry_parse `{TenantToml} (text : string) : result TenantRegistry :=
  let? r := ok_or (tenants_from_toml text) CONFIG_INVALID in
  let? _ := validate_tenants [] r in
  Ok r.
Definition TenantRegistry_load `{TenantToml} (file : option string) : result TenantRegistry :=
  let? text := ok_or file CONFIG_INVALID in TenantRegistry_parse text.
Definition resolve (r : TenantRegistry) (id : TenantId) : result TenantDef :=
  ok_or (List.find (λ t, bool_decide (td_id t = id)) r) TENANT_UNKNOWN.
Definition ids (r : TenantRegistry) : list TenantId := map td_id r.
(** What [tenants] reports of the directories under a root. *)
Definition undeclared (r : TenantRegistry) (on_disk : list string) : list string := filterb (λ d, negb (str_in d (ids r))) on_disk.
Definition unused (r : TenantRegistry) (on_disk : list string) : list string := filterb (λ d, negb (str_in d on_disk)) (ids r).

Record TenantBinding := mkTenantBinding { tb_tenant : TenantId; tb_source : string }.
Definition binding_local (tenant : TenantId) : TenantBinding := mkTenantBinding tenant "local operator".
Definition authorise (b : TenantBinding) (requested : TenantId) : result unit :=
  if bool_decide (requested = tb_tenant b) then Ok tt else Err TENANT_UNKNOWN.
Definition binding_paths (b : TenantBinding) (root : string) : TenantPaths := TenantPaths_new root (tb_tenant b).

(** ** The writer lock *)

(** One attempt: whether the lock file opens, whether [flock] takes it, and the nanoseconds since
    the first attempt began. *)
Record Attempt := mkAttempt { at_opens : bool; at_taken : bool; at_elapsed : N }.
Definition ATTEMPTS : nat := 8.
(** [acquire]: which attempt took the lock, or why none did. *)
Fixpoint acquire_go (n : nat) (answers : nat → Attempt) (i : nat) : result nat :=
  match n with
  | O => Err STORE_LOCKED
  | S n =>
    let a := answers i in
    if negb (at_opens a) then Err STORE_LOCKED
    else if at_taken a then Ok i else acquire_go n answers (S i)
  end.
Definition acquire (answers : nat → Attempt) : result nat := acquire_go ATTEMPTS answers 0.
(** What is slept after a failed attempt, in milliseconds. *)
Definition backoff_ms (attempt : N) : N := N.shiftl 1 (N.min attempt 4).

Record Election := mkElection { el_waited_ms : N; el_uncontended : bool }.
(** [acquire_waiting], on the attempts made so far: the election and what was announced while
    waiting, or nothing yet. *)
Fixpoint acquire_waiting (timeout announced : N) (contended : bool) (attempts : list Attempt)
    : option (result Election) * list N :=
  match attempts with
  | [] => (None, [])
  | a :: attempts =>
    if negb (at_opens a) then (Some (Err STORE_LOCKED), [])
    else if at_taken a then (Some (Ok (mkElection (N.min (at_elapsed a / 1000000) u64_max) (negb contended))), [])
    else if timeout <=? at_elapsed a then (Some (Err STORE_LOCKED), [])
    else
      let secs := at_elapsed a / 1000000000 in
      if announced <? secs
      then let '(out, said) := acquire_waiting timeout secs true attempts in (out, secs :: said)
      else acquire_waiting timeout announced true attempts
  end.

(** ** Tenants are apart *)

(** The bytes of a tenant id: no separator, no dot. *)
Lemma tenant_char_byte c : tenant_char c = true → c < 128 ∧ c ≠ 47 ∧ c ≠ 46.
Proof. unfold tenant_char, is_ascii_lowercase, is_ascii_digit. intros H. rewrite !orb_true_iff, !andb_true_iff, !N.leb_le, N.eqb_eq in H. lia. Qed.
Lemma TenantId_new_ok raw id : TenantId_new raw = Ok id →
  id = raw ∧ raw ≠ "" ∧ str_len raw ≤ MAX_TENANT_LEN ∧ (∀ b, b ∈ bytes raw → b < 128 ∧ b ≠ 47 ∧ b ≠ 46).
Proof.
  unfold TenantId_new. intros [Hne%bool_decide_eq_false [Hlen%N.ltb_ge [_ [Hc%negb_false_iff [= <-]]%guard_err_ok]%guard_err_ok]%guard_err_ok]%guard_err_ok.
  split_and!; [done|done|done|]. rewrite forallb_forall in Hc.
  assert (chars raw = bytes raw) as <-.
  { apply chars_ascii, Forall_forall. intros c Hin%list_elem_of_In. by apply tenant_char_byte, Hc. }
  intros b Hb%list_elem_of_In. by apply tenant_char_byte, Hc.
Qed.

Definition slash : ascii := "/".
Lemma starts_with_slash s : (∀ b, b ∈ bytes s → b ≠ 47) → starts_with "/" s = false.
Proof.
  intros Hs. destruct s as [|c s]; [done|]. unfold starts_with. cbn [strip_prefix]. rewrite bool_decide_eq_false_2; [done|].
  intros <-. apply (Hs 47); [left|done].
Qed.
(** Joining a relative part below a path that has one already. *)
Lemma join_below base part c : last (bytes base) = Some c → c ≠ 47 → starts_with "/" part = false →
  path_join base part = base +:+ "/" +:+ part.
Proof.
  intros Hl Hc Hp. unfold path_join. rewrite Hp, Hl, !bool_decide_eq_false_2; [done|congruence|by intros ->].
Qed.
Lemma last_bytes_app a b : b ≠ "" → last (bytes (a +:+ b)) = last (bytes b).
Proof. intros Hb. rewrite bytes_app, last_app. destruct (last (bytes b)) eqn:E; [done|]. apply last_None in E. by destruct b. Qed.

(** A path is a directory or something below it. *)
Definition under (dir path : string) : Prop := path = dir ∨ ∃ rest, path = dir +:+ "/" +:+ rest.
Definition tenants_dir (root : string) : string := path_join root "tenants".

Lemma tenants_dir_last root : last (bytes (tenants_dir root)) = Some 115.
Proof.
  unfold tenants_dir, path_join. change (starts_with "/" "tenants") with false. cbn [orb].
  destruct (_ || _); by rewrite !last_bytes_app.
Qed.
Lemma tenant_base root raw id : TenantId_new raw = Ok id → tp_base (TenantPaths_new root id) = tenants_dir root +:+ "/" +:+ id.
Proof.
  intros (-> & _ & _ & Hb)%TenantId_new_ok. cbn [TenantPaths_new tp_base].
  apply (join_below _ _ 115); [apply tenants_dir_last|done|]. apply starts_with_slash. intros b Hin. by apply Hb.
Qed.
Lemma last_of_id raw id : TenantId_new raw = Ok id → ∃ c, last (bytes id) = Some c ∧ c ≠ 47.
Proof.
  intros (-> & Hne & _ & Hb)%TenantId_new_ok. destruct (last (bytes raw)) as [c|] eqn:E.
  - exists c. split; [done|]. apply Hb. by apply last_Some_elem_of.
  - apply last_None in E. by destruct raw.
Qed.
Lemma places_under root raw id : TenantId_new raw = Ok id → ∀ q, q ∈ places (TenantPaths_new root id) → under (tp_base (TenantPaths_new root id)) q.
Proof.
  intros Hid. destruct (last_of_id _ _ Hid) as (c & Hc & Hn). pose proof (tenant_base root _ _ Hid) as Hbase. cbn [TenantPaths_new tp_base] in Hbase.
  assert (∀ part, starts_with "/" part = false → path_join (path_join (path_join root "tenants") id) part
    = (tenants_dir root +:+ "/" +:+ id) +:+ "/" +:+ part) as Hj.
  { intros part Hp. rewrite Hbase. apply (join_below _ _ c); [|done|done]. apply TenantId_new_ok in Hid as (-> & Hne & _).
    rewrite !last_bytes_app; [done|done|]. by destruct raw. }
  intros q Hq. unfold places, under in *. cbn [TenantPaths_new tp_base tp_state tp_evidence tp_revocations tp_acks tp_set_acks tp_artifacts] in *.
  rewrite !Hj in Hq by done. rewrite Hbase. right.
  repeat (apply elem_of_cons in Hq as [->|Hq]; [by eexists|]). apply elem_of_cons in Hq as [->|Hq]; [|by apply elem_of_nil in Hq].
  exists ("state" +:+ "/" +:+ ARTIFACT_DIR). rewrite (join_below _ _ 101); [by rewrite !string_app_assoc| |done|done].
  by rewrite !last_bytes_app.
Qed.

Lemma names_apart a b r r' : (∀ x, x ∈ bytes a → x ≠ 47) → (∀ x, x ∈ bytes b → x ≠ 47) →
  a +:+ r = b +:+ r' → (r = "" ∨ ∃ s, r = "/" +:+ s) → (r' = "" ∨ ∃ s, r' = "/" +:+ s) → a = b.
Proof.
  revert b. induction a as [|c a IH]; intros [|d b] Ha Hb E Hr Hr'; [done| | |].
  - exfalso. change ("" +:+ r) with r in E. destruct Hr as [-> |[s ->]]; [done|]. injection E as <- _. apply (Hb 47); [left|done].
  - exfalso. change ("" +:+ r') with r' in E. destruct Hr' as [-> |[s ->]]; [done|]. injection E as -> _. apply (Ha 47); [left|done].
  - injection E as -> E. f_equal. apply IH; try done; [intros x Hx; apply Ha; by right|intros x Hx; apply Hb; by right].
Qed.
Lemma app_cancel p a b : p +:+ a = p +:+ b → a = b.
Proof. induction p as [|c p IH]; [done|]. intros [= E]. by apply IH. Qed.

(** C18: tenants are apart.  Whatever the root, and whatever text an id was made from, the paths of a
    tenant are all below its own directory, which is one directory of the root's [tenants]; and
    nothing below the directory of one tenant is below that of another. *)
Theorem tenants_apart root raw raw' a b :
  TenantId_new raw = Ok a → TenantId_new raw' = Ok b →
  tp_base (TenantPaths_new root a) = tenants_dir root +:+ "/" +:+ a ∧ (∀ x, x ∈ bytes a → x ≠ 47 ∧ x ≠ 46) ∧
  (∀ q, q ∈ places (TenantPaths_new root a) → under (tp_base (TenantPaths_new root a)) q) ∧
  (a ≠ b → ∀ q, under (tp_base (TenantPaths_new root a)) q → ¬ under (tp_base (TenantPaths_new root b)) q).
Proof.
  intros Ha Hb. split_and!; [by eapply tenant_base| |by eapply places_under|].
  - apply TenantId_new_ok in Ha as (-> & _ & _ & Hc). intros x Hx. apply Hc in Hx. tauto.
  - intros Hne q. rewrite (tenant_base _ _ _ Ha), (tenant_base _ _ _ Hb). unfold under. intros Hq Hq'. apply Hne.
    assert (∃ r, q = (tenants_dir root +:+ "/" +:+ a) +:+ r ∧ (r = "" ∨ ∃ s, r = "/" +:+ s)) as (r & Hr & Hrs).
    { destruct Hq as [-> |[s ->]]; [exists ""; split; [by rewrite string_app_nil_r|by left]|exists ("/" +:+ s); split; [done|right; by exists s]]. }
    assert (∃ r, q = (tenants_dir root +:+ "/" +:+ b) +:+ r ∧ (r = "" ∨ ∃ s, r = "/" +:+ s)) as (r' & Hr' & Hrs').
    { destruct Hq' as [-> |[s ->]]; [exists ""; split; [by rewrite string_app_nil_r|by left]|exists ("/" +:+ s); split; [done|right; by exists s]]. }
    rewrite Hr in Hr'. rewrite !string_app_assoc in Hr'. apply app_cancel, app_cancel in Hr'.
    apply TenantId_new_ok in Ha as (-> & _ & _ & Hc), Hb as (-> & _ & _ & Hc').
    apply (names_apart _ _ r r'); [by apply Hc|by apply Hc'|done..].
Qed.
Lemma tenants_apart_witness : under "/srv/tenants/acme" "/srv/tenants/acme/state" ∧ ¬ under "/srv/tenants/acme-2" "/srv/tenants/acme/state".
Proof.
  split.
  - apply (tenants_apart "/srv" "acme" "acme-2" "acme" "acme-2" eq_refl eq_refl). left.
  - apply (tenants_apart "/srv" "acme" "acme-2" "acme" "acme-2" eq_refl eq_refl); [discriminate|]. right. by exists "state".
Defined.
(** So does the command line, or it works below a directory of no tenant. *)
Lemma command_paths root_flag root_env tenant_flag tenant_env :
  let p := tenant_paths root_flag root_env tenant_flag tenant_env in
  (∀ q, q ∈ places p → under (tp_base p) q) ∧
  (tp_base p = invalid_tenant ∨ ∃ id, tp_base p = tenants_dir (either root_flag root_env DEFAULT_ROOT) +:+ "/" +:+ id).
Proof.
  cbv zeta. unfold tenant_paths. destruct (paths_checked _ _ _ _) as [p|e] eqn:E.
  - unfold paths_checked in E. cbv zeta in E. apply result_bind_ok in E as (id & Hid & [= <-]).
    assert (∃ raw, TenantId_new raw = Ok id) as [raw Hraw].
    { unfold tenant_id in Hid. destruct tenant_flag as [v|]; [by exists v|]. destruct tenant_env as [v|]; [by exists v|].
      injection Hid as <-. by exists DEFAULT_TENANT. }
    split; [by eapply places_under|]. right. exists id. by eapply tenant_base.
  - split; [|by left]. intros q Hq. unfold places, under in *. cbn in Hq. right.
    repeat (apply elem_of_cons in Hq as [->|Hq]; [by eexists|]). by apply elem_of_nil in Hq.
Qed.

(** A registry that parses declares no tenant twice, and an enforcing one names a key. *)
Lemma validate_tenants_ok r seen : validate_tenants seen r = Ok tt →
  NoDup (ids r) ∧ (∀ x, x ∈ ids r → x ∉ seen) ∧
  ∀ t, t ∈ r → td_mode t ∈ ["enforce"; "observe"] ∧ (td_mode t = "enforce" → td_issuer_key t ≠ None) ∧
    (td_issuer_key t = None ↔ td_kid t = None).
Proof.
  revert seen. induction r as [|t r IH]; intros seen; cbn [validate_tenants].
  { intros _. split_and!; [apply NoDup_nil_2|by intros x ?%elem_of_nil|by intros t ?%elem_of_nil]. }
  intros [Hs%bool_decide_eq_false [Hm%negb_false_iff%bool_decide_eq_true [He [Hk%negb_false_iff%Bool.eqb_prop Hr]%guard_err_ok]%guard_err_ok]%guard_err_ok]%guard_err_ok.
  destruct (IH _ Hr) as (Hnd & Hnew & Hall). split_and!.
  - apply NoDup_cons. split; [|done]. intros Hin%Hnew. apply Hin. left.
  - intros x [-> |Hx]%elem_of_cons; [done|]. intros Hin. apply (Hnew x Hx). by right.
  - intros t' [-> |Hin]%elem_of_cons; [|by apply Hall]. split; [done|]. split.
    + intros E. rewrite E in He. destruct (td_issuer_key t); [done|]. by vm_compute in He.
    + destruct (td_issuer_key t), (td_kid t); done.
Qed.
(** An unknown tenant and one the caller may not name are the same answer. *)
Lemma unknown_is_forbidden r b id e e' : resolve r id = Err e → authorise b id = Err e' → e = e'.
Proof. unfold resolve, authorise. destruct (List.find _ r); [done|]. intros [= <-]. by case_bool_decide; [|intros [= <-]]. Qed.
(** Two enforcing tenants may name one key: validation asks that each names one, not that it is its own. *)
Example key_shared :
  validate_tenants [] [mkTenantDef "a" "" "enforce" None (Some "key.pem") (Some "k") false;
                       mkTenantDef "b" "" "enforce" None (Some "key.pem") (Some "k") false] = Ok tt.
Proof. reflexivity. Qed.
Example ids_read :
  map TenantId_new ["acme"; "../etc"; "-flag"; "a/b"; ""; "A"] =
    [Ok "acme"; Err TENANT_UNKNOWN; Err TENANT_UNKNOWN; Err TENANT_UNKNOWN; Err TENANT_UNKNOWN; Err TENANT_UNKNOWN] ∧
  tp_artifacts (TenantPaths_new "/srv" "acme") = "/srv/tenants/acme/state/contracts".
Proof. split; vm_compute; reflexivity. Qed.

(** ** The lock *)

(** What an attempt comes to: it cannot be made, it takes the lock, or it finds it held. *)
Definition held (a : Attempt) : Prop := at_opens a = true ∧ at_taken a = false.

Lemma acquire_go_exact n answers i : acquire_go n answers i =
  match List.find (λ j, negb (at_opens (answers j)) || at_taken (answers j)) (seq i n) with
  | Some j => if at_opens (answers j) then Ok j else Err STORE_LOCKED
  | None => Err STORE_LOCKED
  end.
Proof.
  revert i. induction n as [|n IH]; intros i; [done|]. cbn [acquire_go seq List.find].
  destruct (at_opens (answers i)) eqn:Ho; cbn [negb orb]; [|by rewrite Ho]. destruct (at_taken (answers i)); [by rewrite Ho|]. apply IH.
Qed.
(** A lock is given out only by an attempt that took it, the first of at most eight; otherwise the
    answer is that it is held, after less than a tenth of a second of waiting. *)
Theorem acquire_exact answers :
  match acquire answers with
  | Ok j => (j < ATTEMPTS)%nat ∧ at_opens (answers j) = true ∧ at_taken (answers j) = true ∧ ∀ i, (i < j)%nat → held (answers i)
  | Err e => e = STORE_LOCKED ∧ ((∀ i, (i < ATTEMPTS)%nat → held (answers i)) ∨
      ∃ j, (j < ATTEMPTS)%nat ∧ at_opens (answers j) = false ∧ ∀ i, (i < j)%nat → held (answers i))
  end ∧ foldr N.add 0 (map backoff_ms [0; 1; 2; 3; 4; 5; 6]) < 100.
Proof.
  split; [|vm_compute; reflexivity]. unfold acquire. generalize ATTEMPTS. intros n.
  assert (∀ n i, match acquire_go n answers i with
    | Ok j => (i ≤ j < i + n)%nat ∧ at_opens (answers j) = true ∧ at_taken (answers j) = true ∧ ∀ k, (i ≤ k < j)%nat → held (answers k)
    | Err e => e = STORE_LOCKED ∧ ((∀ k, (i ≤ k < i + n)%nat → held (answers k)) ∨
        ∃ j, (i ≤ j < i + n)%nat ∧ at_opens (answers j) = false ∧ ∀ k, (i ≤ k < j)%nat → held (answers k))
    end) as Hgo.
  { clear n. intros n. induction n as [|n IH]; intros i; cbn [acquire_go]; [split; [done|left; lia]|].
    destruct (at_opens (answers i)) eqn:Ho; cbn [negb].
    2: { split; [done|]. right. exists i. split; [lia|]. split; [done|lia]. }
    destruct (at_taken (answers i)) eqn:Ht; [split_and!; [lia|lia|done|done|lia]|].
    assert (∀ k, k = i → held (answers k)) as Hi by (by intros k ->). specialize (IH (S i)).
    destruct (acquire_go n answers (S i)) as [j|e].
    - destruct IH as (Hj & H1 & H2 & H3). split_and!; [lia|lia|done|done|]. intros k Hk.
      destruct (decide (k = i)); [by apply Hi|apply H3; lia].
    - destruct IH as (-> & [Hall|(j & Hj & H1 & H3)]); split; try done; [left|right].
      + intros k Hk. destruct (decide (k = i)); [by apply Hi|apply Hall; lia].
      + exists j. split_and!; [lia|lia|done|]. intros k Hk. destruct (decide (k = i)); [by apply Hi|apply H3; lia]. }
  specialize (Hgo n 0%nat). destruct (acquire_go n answers 0) as [j|e].
  - destruct Hgo as (Hj & H1 & H2 & H3). split_and!; [lia|done|done|]. intros i Hi. apply H3. lia.
  - destruct Hgo as (-> & [Hall|(j & Hj & H1 & H3)]); split; try done; [left|right].
    + intros i Hi. apply Hall. lia.
    + exists j. split_and!; [lia|done|]. intros i Hi. apply H3. lia.
Qed.

(** Waiting for the lock ends.  As soon as an attempt begins at or after the timeout there is an
    answer.  The lock is had only if an attempt took it, and it counts as uncontended exactly if
    that was the first; giving up is never before the timeout unless the file cannot be opened;
    and what was announced are whole seconds, each later than the one before. *)
Theorem waiting_ends timeout announced contended attempts :
  let '(out, said) := acquire_waiting timeout announced contended attempts in
  (∀ a, a ∈ attempts → timeout ≤ at_elapsed a → out ≠ None) ∧
  StronglySorted N.lt (announced :: said) ∧
  match out with
  | None => Forall (λ a, held a ∧ at_elapsed a < timeout) attempts
  | Some r => ∃ before a after, attempts = before ++ a :: after ∧ Forall (λ a, held a ∧ at_elapsed a < timeout) before ∧
      match r with
      | Ok e => at_taken a = true ∧ at_opens a = true ∧ (el_uncontended e = true ↔ contended = false ∧ before = [])
      | Err e => e = STORE_LOCKED ∧ (at_opens a = false ∨ at_taken a = false ∧ timeout ≤ at_elapsed a)
      end
  end.
Proof.
  revert announced contended. induction attempts as [|a attempts IH]; intros announced contended; cbn [acquire_waiting].
  { split_and!; [by intros a ?%elem_of_nil|repeat constructor|constructor]. }
  destruct (at_opens a) eqn:Ho; cbn [negb].
  2: { split_and!; [done|repeat constructor|]. exists [], a, attempts. split_and!; [done|constructor|done|by left]. }
  destruct (at_taken a) eqn:Ht.
  { split_and!; [done|repeat constructor|]. exists [], a, attempts. split_and!; [done|constructor|done|done|]. cbn. destruct contended; naive_solver. }
  destruct (N.leb_spec timeout (at_elapsed a)) as [Hge|Hlt].
  { split_and!; [done|repeat constructor|]. exists [], a, attempts. split_and!; [done|constructor|done|by right]. }
  assert (held a ∧ at_elapsed a < timeout) as Hheld by done.
  assert (∀ out, match out with
    | None => Forall (λ a, held a ∧ at_elapsed a < timeout) attempts
    | Some r => ∃ before b after, attempts = before ++ b :: after ∧ Forall (λ a, held a ∧ at_elapsed a < timeout) before ∧
      match r with
      | Ok e => at_taken b = true ∧ at_opens b = true ∧ (el_uncontended e = true ↔ true = false ∧ before = [])
      | Err e => e = STORE_LOCKED ∧ (at_opens b = false ∨ at_taken b = false ∧ timeout ≤ at_elapsed b)
      end
    end → match out with
    | None => Forall (λ a, held a ∧ at_elapsed a < timeout) (a :: attempts)
    | Some r => ∃ before b after, a :: attempts = before ++ b :: after ∧ Forall (λ a, held a ∧ at_elapsed a < timeout) before ∧
      match r with
      | Ok e => at_taken b = true ∧ at_opens b = true ∧ (el_uncontended e = true ↔ contended = false ∧ before = [])
      | Err e => e = STORE_LOCKED ∧ (at_opens b = false ∨ at_taken b = false ∧ timeout ≤ at_elapsed b)
      end
    end) as Hlift.
  { intros [r|]; [|by constructor]. intros (before & b & after & -> & Hb & Hr). exists (a :: before), b, after.
    split_and!; [done|by constructor|]. destruct r; [|done]. destruct Hr as (? & ? & Hr). split_and!; [done|done|].
    rewrite Hr. split; [by intros [? _]|by intros [_ ?]]. }
  destruct (N.ltb_spec announced (at_elapsed a / 1000000000)) as [Hsay|_].
  - specialize (IH (at_elapsed a / 1000000000) true). destruct (acquire_waiting _ _ _ attempts) as [out said].
    destruct IH as (Hend & Hsorted & Hout). split_and!; [| |by apply Hlift].
    + intros b [-> |Hb]%elem_of_cons Hb'; [lia|by eapply Hend].
    + constructor; [done|]. apply StronglySorted_inv in Hsorted as [_ Hf]. constructor; [done|].
      eapply Forall_impl; [exact Hf|]. intros x Hx. cbn in Hx. lia.
  - specialize (IH announced true). destruct (acquire_waiting _ _ _ attempts) as [out said].
    destruct IH as (Hend & Hsorted & Hout). split_and!; [|done|by apply Hlift].
    intros b [-> |Hb]%elem_of_cons Hb'; [lia|by eapply Hend].
Qed.
