(* ===== verification/Catalog.v ===== *)
(** * Catalog: the frames on the wire and the catalogue filter
    ([crates/wc-mediator/src/{rpc,mcp,filter}.rs])

    A mediated frame is a JSON-RPC request or response.  [Response] has serde's derived
    [Serialize] and [Deserialize]; those are the parameter [ResponseSerde], and what the
    mediator relies on of them is [ResponseSerdeLaws]. *)

From Stdlib Require Import ZArith.
From S2P Require Import Prelude Text Errors Model Json Canon.

(** ** JSON-RPC *)

Record Request := mkRequest {
  rq_jsonrpc : string;
  rq_id : option Value;
  rq_method : string;
  rq_params : Value
}.

Record RpcError := mkRpcError {
  re_code : Z;
  re_message : string;
  re_data : option Value
}.

Record Response := mkResponse {
  rs_jsonrpc : string;
  rs_id : option Value;
  rs_result : option Value;
  rs_error : option RpcError
}.

(** [Value::from(i64)]. *)
Definition value_from_i64 (z : Z) : Value :=
  VNumber (if (0 <=? z)%Z then PosInt (Z.to_N z) else NegInt z).

Definition Request_new (id : Z) (method : string) (params : Value) : Request :=
  mkRequest "2.0" (Some (value_from_i64 id)) method params.

Definition is_notification (r : Request) : bool :=
  match rq_id r with None => true | Some _ => false end.

Definition Response_ok (id : option Value) (result : Value) : Response :=
  mkResponse "2.0" id (Some result) None.

Definition Response_error (id : option Value) (code : Z) (message : string) : Response :=
  mkResponse "2.0" id None (Some (mkRpcError code message None)).

Definition Response_error_with_data (id : option Value) (code : Z) (message : string) (data : Value)
    : Response :=
  mkResponse "2.0" id None (Some (mkRpcError code message (Some data))).

(** ** MCP shapes *)

Definition parse_tool_call (params : Value) : option (string * Value) :=
  name ← vget "name" params ≫= as_str;
  Some (name, default (VObject []) (vget "arguments" params)).

(** [json!({"content": [{"type": "text", "text": text}], "isError": e})]. *)
Definition tool_result (text : string) (is_error : bool) : Value :=
  VObject [("content", VArray [VObject [("text", VString text); ("type", VString "text")]]);
           ("isError", VBool is_error)].
Definition tool_text_result (text : string) : Value := tool_result text false.
Definition tool_error_result (text : string) : Value := tool_result text true.

Definition result_is_tool_error (result : Value) : bool :=
  default false (vget "isError" result ≫= as_bool).

(** ** The catalogue filter *)

Inductive Catalog := Tools | Resources | Prompts.
#[global] Instance Catalog_eq_dec : EqDecision Catalog.
Proof. solve_decision. Defined.

Definition Catalog_method (c : Catalog) : string :=
  match c with
  | Tools => "tools/list"
  | Resources => "resources/list"
  | Prompts => "prompts/list"
  end.

Definition Catalog_member (c : Catalog) : string :=
  match c with Tools => "tools" | Resources => "resources" | Prompts => "prompts" end.

Definition key_field (c : Catalog) : string :=
  match c with Resources => "uri" | _ => "name" end.

Definition Catalog_from_method (method : string) : option Catalog :=
  if bool_decide (method = "tools/list") then Some Tools
  else if bool_decide (method = "resources/list") then Some Resources
  else if bool_decide (method = "prompts/list") then Some Prompts
  else None.

Record FilterStat := mkFilterStat {
  fs_exposed : N;
  fs_hidden : N;
  fs_hidden_names : list string;
  fs_failed_closed : bool;
  fs_truncated : bool
}.

Definition empty_result (original : Value) (catalog : Catalog) : Value :=
  let out := obj_insert "jsonrpc" (VString "2.0") [] in
  let out := match vget "id" original with Some id => obj_insert "id" id out | None => out end in
  VObject (obj_insert "result" (VObject [(Catalog_member catalog, VArray [])]) out).

(** The name of an entry, when it has a non-empty one. *)
Definition entry_name (catalog : Catalog) (entry : Value) : option string :=
  n ← vget (key_field catalog) entry ≫= as_str;
  if bool_decide (n = "") then None else Some n.

(** [entries.retain(...)]: what stays, and the names of what goes. *)
Fixpoint retain (catalog : Catalog) (permitted : list string) (entries : list Value)
    : list Value * list string :=
  match entries with
  | [] => ([], [])
  | entry :: entries =>
    let '(kept, hidden) := retain catalog permitted entries in
    match entry_name catalog entry with
    | None => (kept, "<unnamed>" :: hidden)
    | Some name => if str_in name permitted then (entry :: kept, hidden) else (kept, name :: hidden)
    end
  end.

Definition filter_catalog (catalog : Catalog) (permitted : list string) (resp : Value)
    : Value * FilterStat :=
  match resp with
  | VObject frame =>
    match obj_get "result" frame with
    | Some (VObject result) =>
      let truncated := obj_contains_key "nextCursor" result in
      let result := obj_remove "nextCursor" result in
      match obj_get (Catalog_member catalog) result with
      | Some (VArray entries) =>
        let '(kept, hidden) := retain catalog permitted entries in
        (VObject (obj_insert "result"
                    (VObject (obj_insert (Catalog_member catalog) (VArray kept) result)) frame),
         mkFilterStat (len kept) (len hidden) hidden false truncated)
      | _ => (empty_result resp catalog, mkFilterStat 0 0 [] true truncated)
      end
    | _ => (empty_result resp catalog, mkFilterStat 0 0 [] true false)
    end
  | _ => (empty_result resp catalog, mkFilterStat 0 0 [] true false)
  end.

(** ** [serde_json::to_value] and [from_value] at [Response] *)

Class ResponseSerde := {
  response_to_value : Response → option Value;
  response_from_value : Value → option Response
}.

(** The derived implementations keep the [result] member: an absent result is not written,
    and a missing or null one reads back as absent. *)
Class ResponseSerdeLaws `{ResponseSerde} : Prop := {
  to_value_result r v : response_to_value r = Some v → vget "result" v = rs_result r;
  from_value_result v r : response_from_value v = Some r →
    rs_result r = match vget "result" v with Some VNull => None | o => o end
}.

(** ** What a catalogue shows *)

(** The entries a response value offers under the catalogue's member. *)
Definition catalog_entries (catalog : Catalog) (result : Value) : list Value :=
  default [] (vget (Catalog_member catalog) result ≫= as_array).

(** Lemmas *)

Lemma obj_get_remove {A} k k' (m : list (string * A)) :
  obj_get k (obj_remove k' m) = if bool_decide (k = k') then None else obj_get k m.
Proof.
  unfold obj_remove. induction m as [|[k'' v''] m IH]; simpl; [by case_bool_decide|].
  destruct (decide (k'' = k')) as [->|Hne].
  - rewrite bool_decide_eq_true_2 by done. simpl. rewrite IH. by case_bool_decide.
  - rewrite (bool_decide_eq_false_2 (k'' = k')) by done. simpl. rewrite IH.
    repeat case_bool_decide; naive_solver.
Qed.

Lemma retain_spec catalog permitted entries kept hidden :
  retain catalog permitted entries = (kept, hidden) →
  kept = filterb (λ e, match entry_name catalog e with
                       | Some n => str_in n permitted
                       | None => false
                       end) entries ∧
  length kept + length hidden = length entries.
Proof.
  revert kept hidden. induction entries as [|e entries IH]; intros kept hidden; simpl;
    [by intros [= <- <-]|].
  destruct (retain catalog permitted entries) as [k h]. destruct (IH k h eq_refl) as [-> Hl].
  destruct (entry_name catalog e) as [n|]; [destruct (str_in n permitted)|];
    intros [= <- <-]; simpl; (split; [done|lia]).
Qed.

(** An entry the contract lets the agent see. *)
Definition contracted (catalog : Catalog) (permitted : list string) (e : Value) : bool :=
  match entry_name catalog e with Some n => str_in n permitted | None => false end.

Lemma contracted_true catalog permitted e :
  contracted catalog permitted e = true ↔
  ∃ n, vget (key_field catalog) e = Some (VString n) ∧ n ≠ "" ∧ n ∈ permitted.
Proof.
  unfold contracted, entry_name. destruct (vget (key_field catalog) e) as [v|]; simpl; [|naive_solver].
  destruct v; simpl; try naive_solver. case_bool_decide; simpl; unfold str_in.
  - naive_solver.
  - rewrite bool_decide_eq_true. naive_solver.
Qed.

Definition list_at (catalog : Catalog) (resp : Value) : option (list Value) :=
  (vget "result" resp ≫= vget (Catalog_member catalog)) ≫= as_array.

(** What filtering promises of its output. *)
Definition filtered_from (catalog : Catalog) (permitted : list string) (resp out : Value)
    (stat : FilterStat) : Prop :=
  list_at catalog out = Some (filterb (contracted catalog permitted) (default [] (list_at catalog resp))) ∧
  (vget "result" out ≫= vget "nextCursor") = None ∧ vget "id" out = vget "id" resp ∧
  fs_exposed stat = len (default [] (list_at catalog out)) ∧
  (fs_exposed stat + fs_hidden stat)%N = len (default [] (list_at catalog resp)) ∧
  (fs_failed_closed stat = true ↔ list_at catalog resp = None).

Lemma empty_result_filtered catalog permitted resp truncated :
  list_at catalog resp = None →
  filtered_from catalog permitted resp (empty_result resp catalog) (mkFilterStat 0 0 [] true truncated).
Proof.
  intros Hn.
  assert (vget "result" (empty_result resp catalog) = Some (VObject [(Catalog_member catalog, VArray [])])) as Hr.
  { unfold empty_result. cbn [vget]. by rewrite obj_get_insert. }
  assert (vget "id" (empty_result resp catalog) = vget "id" resp) as Hi.
  { unfold empty_result. cbn [vget]. rewrite obj_get_insert. cbn.
    destruct (vget "id" resp); reflexivity. }
  unfold filtered_from, list_at in *. rewrite Hn, Hr, Hi. cbn. rewrite bool_decide_eq_true_2 by done.
  repeat split; try done. by destruct catalog.
Qed.

Lemma filter_catalog_filtered catalog permitted resp out stat :
  filter_catalog catalog permitted resp = (out, stat) → filtered_from catalog permitted resp out stat.
Proof.
  assert (∀ k (m : Map), k = Catalog_member catalog → k ≠ "nextCursor" ∧
    obj_get k (obj_remove "nextCursor" m) = obj_get k m) as Hmem.
  { intros k m ->. split; [by destruct catalog|]. rewrite obj_get_remove, bool_decide_eq_false_2; [done|].
    by destruct catalog. }
  unfold filter_catalog. destruct resp as [| | | | |frame];
    try (intros [= <- <-]; by apply empty_result_filtered).
  destruct (obj_get "result" frame) as [r|] eqn:Hr;
    [|intros [= <- <-]; apply empty_result_filtered; unfold list_at; cbn; by rewrite Hr].
  destruct r as [| | | | |result];
    try (intros [= <- <-]; apply empty_result_filtered; unfold list_at; cbn; by rewrite Hr).
  destruct (Hmem _ result eq_refl) as [Hne Hget]. cbv zeta. rewrite Hget.
  destruct (obj_get (Catalog_member catalog) result) as [l|] eqn:Hl;
    [|intros [= <- <-]; apply empty_result_filtered; unfold list_at; cbn; rewrite Hr; cbn; by rewrite Hl].
  destruct l as [| | | |entries|];
    try (intros [= <- <-]; apply empty_result_filtered; unfold list_at; cbn; rewrite Hr; cbn; by rewrite Hl).
  destruct (retain catalog permitted entries) as [kept hidden] eqn:Hret.
  destruct (retain_spec _ _ _ _ _ Hret) as [Hk Hlen]. intros [= <- <-].
  assert (list_at catalog (VObject frame) = Some entries) as Hat
    by (unfold list_at; cbn; rewrite Hr; cbn; by rewrite Hl).
  unfold filtered_from. rewrite Hat. cbn [default from_option id].
  set (out := VObject (obj_insert "result" _ frame)).
  assert (vget "result" out = Some (VObject (obj_insert (Catalog_member catalog) (VArray kept)
    (obj_remove "nextCursor" result)))) as Hout by (cbn; by rewrite obj_get_insert).
  assert (list_at catalog out = Some kept) as Hkept.
  { unfold list_at. rewrite Hout. cbn. rewrite obj_get_insert. by rewrite bool_decide_eq_true_2. }
  rewrite Hkept, Hout, Hk. cbn. rewrite obj_get_insert, obj_get_remove.
  split; [done|]. split; [by rewrite bool_decide_eq_false_2|]. split; [by rewrite obj_get_insert|].
  rewrite Hk in Hlen. unfold len. split; [done|]. split; [unfold contracted; lia|done].
Qed.

(** The catalogue an agent sees is exactly the contracted part of what the upstream
    offered: whatever the response, after filtering the list holds those entries, in order,
    that carry a non-empty name in the contracted set, and nothing else; there is no cursor
    to page on with; the response still answers the same request; and the counts account
    for every entry.  A response with no list where the catalogue keeps it -- the only one
    that fails closed -- shows nothing. *)
Theorem catalog_exposes_only_contracted catalog permitted resp :
  let '(out, stat) := filter_catalog catalog permitted resp in
  let offered := default [] (list_at catalog resp) in
  (∃ shown, list_at catalog out = Some shown ∧ shown `sublist_of` offered ∧
     ∀ e, e ∈ shown ↔ e ∈ offered ∧
       ∃ n, vget (key_field catalog) e = Some (VString n) ∧ n ≠ "" ∧ n ∈ permitted) ∧
  (vget "result" out ≫= vget "nextCursor") = None ∧ vget "id" out = vget "id" resp ∧
  (fs_exposed stat + fs_hidden stat)%N = len offered ∧
  (fs_failed_closed stat = true ↔ list_at catalog resp = None) ∧
  (fs_failed_closed stat = true → list_at catalog out = Some []).
Proof.
  destruct (filter_catalog catalog permitted resp) as [out stat] eqn:E.
  apply filter_catalog_filtered in E as (H1 & H2 & H3 & _ & H5 & H6). cbv zeta. split.
  - eexists. split; [exact H1|]. split.
    + apply sublist_filterb.
    + intros e. by rewrite elem_of_filterb, contracted_true.
  - split; [done|]. split; [done|]. split; [done|]. split; [exact H6|]. intros Hf%H6. by rewrite H1, Hf.
Qed.
