(* ===== verification/Cache.v ===== *)
(** * Cache: the mediator's contract set and revocations ([crates/wc-mediator/src/cache.rs])

    Contracts are verified once, when a [Snapshot] is built; a connection looks its contract
    up, and revocation is applied at lookup.  A lock-protected cell read or written as a
    whole is a field of [Cache]; each operation reads the snapshot and the revocations it
    finds there, and a refresh is an operation between two others. *)

From S2P Require Import Prelude Text Errors Model Json Canon Contract Artifact Store.

(** ** Revocations *)

Record Revocations := mkRevocations {
  rv_jtis : gset string;
  rv_cids : gset string;
  rv_parties : gset string;
  rv_distrusted : option string
}.

Definition Revocations_new : Revocations := mkRevocations ∅ ∅ ∅ None.

Definition revoke_jti (r : Revocations) (jti : string) : Revocations :=
  mkRevocations ({[jti]} ∪ rv_jtis r) (rv_cids r) (rv_parties r) (rv_distrusted r).
Definition revoke_cid (r : Revocations) (cid : string) : Revocations :=
  mkRevocations (rv_jtis r) ({[cid]} ∪ rv_cids r) (rv_parties r) (rv_distrusted r).
Definition revoke_party (r : Revocations) (party : string) : Revocations :=
  mkRevocations (rv_jtis r) (rv_cids r) ({[party]} ∪ rv_parties r) (rv_distrusted r).
Definition distrust (r : Revocations) (reason : string) : Revocations :=
  mkRevocations (rv_jtis r) (rv_cids r) (rv_parties r) (Some reason).
Definition trust (r : Revocations) : Revocations :=
  mkRevocations (rv_jtis r) (rv_cids r) (rv_parties r) None.

Definition Revocations_len (r : Revocations) : N :=
  N.of_nat (size (rv_jtis r) + size (rv_cids r) + size (rv_parties r)).
Definition Revocations_is_empty (r : Revocations) : bool := (Revocations_len r =? 0)%N.

#[global] Instance Revocations_view : RevocationView Revocations := {|
  jti_revoked r jti := bool_decide (jti ∈ rv_jtis r);
  cid_revoked r cid := bool_decide (cid ∈ rv_cids r);
  party_revoked r party := bool_decide (party ∈ rv_parties r)
|}.

(** ** Snapshots *)

Record ConflictingContracts := mkConflicting {
  cf_cid : string;
  cf_conflicts_with : string;
  cf_caller : string;
  cf_callee : string;
  cf_items : list string
}.

Record CSnapshot := mkCSnapshot {
  cs_seq : N;
  cs_set_hash : string;
  cs_by_cid : gmap string VerifiedContract;
  cs_by_pair : gmap (string * string) (list VerifiedContract);
  cs_conflicting : list ConflictingContracts;
  cs_rejected : list (string * Code)
}.

Definition CSnapshot_default : CSnapshot := mkCSnapshot 0 "" ∅ ∅ [] [].

Definition vc_cid (vc : VerifiedContract) : string := cid_str (pl_cid (vc_payload vc)).
Definition vc_jti (vc : VerifiedContract) : string := jti_str (pl_jti (vc_payload vc)).
Definition vc_caller (vc : VerifiedContract) : string := entity_str (party_id (pl_caller (vc_payload vc))).
Definition vc_callee (vc : VerifiedContract) : string := entity_str (party_id (pl_callee (vc_payload vc))).
Definition pair_of (vc : VerifiedContract) : string * string := (vc_caller vc, vc_callee vc).

(** [shared.items.intersection(&other.items)], in ascending order. *)
Definition clash (a b : VerifiedContract) : list string :=
  filterb (λ i, str_in i (vc_items b)) (vc_items a).

(** The conflicts of a new contract with those already held for its pair. *)
Definition conflicts_with (shared : VerifiedContract) (held : list VerifiedContract)
    : list ConflictingContracts :=
  other ← held;
  let c := clash shared other in
  if bool_decide (c = []) then []
  else [mkConflicting (vc_cid shared) (vc_cid other) (vc_caller shared) (vc_callee shared) c].

(** One verified contract filed. *)
Definition file_contract (s : CSnapshot) (vc : VerifiedContract) : CSnapshot :=
  let held := default [] (cs_by_pair s !! pair_of vc) in
  mkCSnapshot (cs_seq s) (cs_set_hash s)
    (<[vc_cid vc := vc]> (cs_by_cid s))
    (<[pair_of vc := held ++ [vc]]> (cs_by_pair s))
    (cs_conflicting s ++ conflicts_with vc held)
    (cs_rejected s).

Definition reject_artifact (s : CSnapshot) (jws : string) (e : Code) : CSnapshot :=
  mkCSnapshot (cs_seq s) (cs_set_hash s) (cs_by_cid s) (cs_by_pair s) (cs_conflicting s)
    (cs_rejected s ++ [(from_chars (take 24 (chars jws)), e)]).

Definition set_hash_of (s : CSnapshot) (hash : string) : CSnapshot :=
  mkCSnapshot (cs_seq s) hash (cs_by_cid s) (cs_by_pair s) (cs_conflicting s) (cs_rejected s).

Section Building.
Context `{Sha256, Jose, SerdeParse}.

(** The loop's body: the snapshot so far and the text its hash will cover. *)
Definition build_step (trusted : Trust) (now : N) (st : CSnapshot * string) (jws : string)
    : CSnapshot * string :=
  let '(snapshot, digest_input) := st in
  match verify_artifact jws (VerifyOpts_trusting trusted now) with
  | Ok verified => (file_contract snapshot verified, digest_input +:+ vc_cid verified +:+ NLs)
  | Err e => (reject_artifact snapshot jws e, digest_input)
  end.

Definition Snapshot_build (artifacts : list string) (trusted : Trust) (now : N) : CSnapshot :=
  let '(snapshot, digest_input) := foldl (build_step trusted now) (CSnapshot_default, "") artifacts in
  set_hash_of snapshot (sha256_tagged digest_input).
End Building.

Definition by_cid (s : CSnapshot) (cid : string) : option VerifiedContract := cs_by_cid s !! cid.

Definition holds_artifact (s : CSnapshot) (cid jti : string) : bool :=
  match cs_by_cid s !! cid with Some c => bool_decide (vc_jti c = jti) | None => false end.

Definition all_for_pair (s : CSnapshot) (caller callee : EntityId) : list VerifiedContract :=
  default [] (cs_by_pair s !! (entity_str caller, entity_str callee)).

Definition by_pair (s : CSnapshot) (caller callee : EntityId) : option VerifiedContract :=
  head (all_for_pair s caller callee).

Definition CSnapshot_len (s : CSnapshot) : N := N.of_nat (size (cs_by_cid s)).
Definition CSnapshot_is_empty (s : CSnapshot) : bool := bool_decide (cs_by_cid s = ∅).

Definition has_withdrawn_ceiling (s : CSnapshot) : bool :=
  existsb (λ c, let terms := pl_terms (vc_payload c) in
                match max_calls_per_hour terms with Some _ => true | None => false end
                || match max_concurrent terms with Some _ => true | None => false end
                || match max_spend_usd_per_day terms with Some _ => true | None => false end)
    ((map_to_list (cs_by_cid s)).*2).

(** ** The cache *)

Record Cache := mkCache {
  ca_live : CSnapshot;
  ca_revocations : Revocations;
  ca_used : gmap string N
}.

Definition Cache_new : Cache := mkCache CSnapshot_default Revocations_new ∅.

Definition mark_used (c : Cache) (cid : string) (at_ : N) : Cache :=
  mkCache (ca_live c) (ca_revocations c) (<[cid := at_]> (ca_used c)).
Definition take_usage (c : Cache) : Cache * gmap string N :=
  (mkCache (ca_live c) (ca_revocations c) ∅, ca_used c).
Definition install (c : Cache) (s : CSnapshot) : Cache := mkCache s (ca_revocations c) (ca_used c).
Definition set_revocations (c : Cache) (r : Revocations) : Cache := mkCache (ca_live c) r (ca_used c).

Definition resolve (c : Cache) (cid : option string) (caller callee : EntityId)
    : result VerifiedContract :=
  let snapshot := ca_live c in
  let found := match cid with
               | Some cid => by_cid snapshot cid
               | None => by_pair snapshot caller callee
               end in
  let? contract := ok_or found NO_CONTRACT in
  let revoked := ca_revocations c in
  match rv_distrusted revoked with
  | Some _ => Err CONTRACT_REVOKED
  | None =>
    guard_err (jti_revoked revoked (vc_jti contract)) CONTRACT_REVOKED $
    guard_err (cid_revoked revoked (vc_cid contract)) CONTRACT_REVOKED $
    guard_err (party_revoked revoked (vc_caller contract)) CONTRACT_REVOKED $
    guard_err (party_revoked revoked (vc_callee contract)) CONTRACT_REVOKED $
    Ok contract
  end.

Definition resolve_all (c : Cache) (caller callee : EntityId) : result (list VerifiedContract) :=
  let revoked := ca_revocations c in
  match rv_distrusted revoked with
  | Some _ => Err CONTRACT_REVOKED
  | None =>
    Ok (filterb (λ c, negb (jti_revoked revoked (vc_jti c)) && negb (cid_revoked revoked (vc_cid c))
                      && negb (party_revoked revoked (vc_caller c))
                      && negb (party_revoked revoked (vc_callee c)))
          (all_for_pair (ca_live c) caller callee))
  end.

Definition still_in_force (c : Cache) (cid jti : string) (caller callee : EntityId) : result unit :=
  let? contract := resolve c (Some cid) caller callee in
  guard_err (negb (bool_decide (vc_jti contract = jti))) CONTRACT_REVOKED $ Ok tt.

(** ** What a snapshot holds *)

Section Spec.
Context `{Sha256, Jose, SerdeParse}.

Definition verified_of (trusted : Trust) (now : N) (artifacts : list string) : list VerifiedContract :=
  omap (λ jws, match verify_artifact jws (VerifyOpts_trusting trusted now) with
               | Ok v => Some v | Err _ => None end) artifacts.

Definition rejected_of (trusted : Trust) (now : N) (artifacts : list string) : list (string * Code) :=
  omap (λ jws, match verify_artifact jws (VerifyOpts_trusting trusted now) with
               | Ok _ => None
               | Err e => Some (from_chars (take 24 (chars jws)), e) end) artifacts.

(** Every conflict of a list of contracts, the later against the earlier. *)
Fixpoint conflicts_from (before vs : list VerifiedContract) : list ConflictingContracts :=
  match vs with
  | [] => []
  | v :: vs => conflicts_with v (filterb (λ w, bool_decide (pair_of w = pair_of v)) before)
                 ++ conflicts_from (before ++ [v]) vs
  end.

(** The snapshot after filing [vs]. *)
Definition holds (s : CSnapshot) (vs : list VerifiedContract) : Prop :=
  (∀ cid, cs_by_cid s !! cid = last (filterb (λ v, bool_decide (vc_cid v = cid)) vs)) ∧
  (∀ pr, default [] (cs_by_pair s !! pr) = filterb (λ v, bool_decide (pair_of v = pr)) vs).

Lemma holds_default : holds CSnapshot_default [].
Proof. split; intros; cbn; [by rewrite lookup_empty|by rewrite lookup_empty]. Qed.

Lemma holds_file s vs v : holds s vs → holds (file_contract s v) (vs ++ [v]).
Proof.
  intros [Hc Hp]. split; [intros cid|intros pr]; rewrite filterb_snoc; cbn.
  - case_bool_decide as E.
    + rewrite last_snoc, E. by rewrite lookup_insert_eq.
    + rewrite lookup_insert_ne by done. by rewrite app_nil_r.
  - case_bool_decide as E.
    + rewrite E, lookup_insert_eq. cbn. by rewrite Hp.
    + rewrite lookup_insert_ne by done. by rewrite app_nil_r.
Qed.

Lemma build_loop trusted now artifacts s vs d s' d' :
  holds s vs → foldl (build_step trusted now) (s, d) artifacts = (s', d') →
  holds s' (vs ++ verified_of trusted now artifacts) ∧
  cs_conflicting s' = cs_conflicting s ++ conflicts_from vs (verified_of trusted now artifacts) ∧
  cs_rejected s' = cs_rejected s ++ rejected_of trusted now artifacts ∧
  d' = d +:+ digest_input ((mkCid ∘ vc_cid) <$> verified_of trusted now artifacts).
Proof.
  revert s vs d. unfold verified_of, rejected_of.
  induction artifacts as [|jws l IH]; intros s vs d Hs; cbn [foldl omap list_omap].
  { intros [= <- <-]. cbn. by rewrite !app_nil_r, string_app_nil_r. }
  unfold build_step at 2. destruct (verify_artifact jws _) as [v|e].
  - intros Hf. destruct (IH _ _ _ (holds_file s vs v Hs) Hf) as (Q1 & Q2 & Q3 & Q4).
    rewrite <-app_assoc in Q1. split; [exact Q1|]. split; [|split].
    + rewrite Q2. cbn. destruct Hs as [_ ->]. by rewrite <-app_assoc.
    + done.
    + rewrite Q4. cbn. by rewrite !string_app_assoc.
  - intros Hf. destruct (IH (reject_artifact s jws e) vs d Hs Hf) as (Q1 & Q2 & Q3 & Q4).
    split; [done|]. split; [done|]. split; [|done]. rewrite Q3. cbn. by rewrite <-app_assoc.
Qed.
End Spec.

Lemma elem_of_conflicts_with v held cf :
  cf ∈ conflicts_with v held ↔ ∃ w, w ∈ held ∧ clash v w ≠ [] ∧
    cf = mkConflicting (vc_cid v) (vc_cid w) (vc_caller v) (vc_callee v) (clash v w).
Proof.
  unfold conflicts_with. rewrite list_elem_of_bind. split.
  - intros (w & Hcf & Hw). exists w. case_bool_decide; [by apply not_elem_of_nil in Hcf|].
    apply list_elem_of_singleton in Hcf. done.
  - intros (w & Hw & Hne & ->). exists w. split; [|done].
    rewrite bool_decide_eq_false_2 by done. by apply list_elem_of_singleton.
Qed.

Lemma elem_of_conflicts_from before vs cf :
  cf ∈ conflicts_from before vs ↔
  ∃ l v r w, vs = l ++ v :: r ∧ w ∈ before ++ l ∧ pair_of w = pair_of v ∧ clash v w ≠ [] ∧
    cf = mkConflicting (vc_cid v) (vc_cid w) (vc_caller v) (vc_callee v) (clash v w).
Proof.
  revert before. induction vs as [|x vs IH]; intros before; cbn [conflicts_from].
  { split; [by intros ?%not_elem_of_nil|]. by intros ([|? ?] & ? & ? & ? & [=] & _). }
  rewrite elem_of_app, elem_of_conflicts_with, IH. setoid_rewrite elem_of_filterb.
  setoid_rewrite bool_decide_eq_true. split.
  - intros [(w & [Hw Hp] & Hc & ->)|(l & v & r & w & -> & Hw & Hp & Hc & ->)].
    + exists [], x, vs, w. by rewrite app_nil_r.
    + exists (x :: l), v, r, w. by rewrite <-app_assoc in Hw.
  - intros ([|y l] & v & r & w & [= <- ->] & Hw & Hp & Hc & ->).
    + left. exists w. by rewrite app_nil_r in Hw.
    + right. exists l, v, r, w. by rewrite <-app_assoc.
Qed.

(** ** Properties *)

(** A snapshot loses nothing and invents nothing: every published artifact is either
    held, verified for this mediator and issuer, or reported with the code that refused
    it; a pair's contracts are all kept, in the order given; a connection id finds the
    last contract that carries it; two contracts are reported as conflicting exactly when
    they cover one pair and claim a tool in common; and the set hash is the control
    plane's digest of the connection ids held, in that order. *)
Theorem snapshot_build_exact `{Sha256, Jose, SerdeParse} artifacts trusted now :
  let s := Snapshot_build artifacts trusted now in
  let vs := verified_of trusted now artifacts in
  (∀ v, v ∈ vs ↔ ∃ jws, jws ∈ artifacts ∧ verify_artifact jws (VerifyOpts_trusting trusted now) = Ok v) ∧
  length vs + length (cs_rejected s) = length artifacts ∧
  (∀ caller callee, all_for_pair s caller callee
     = filterb (λ v, bool_decide (pair_of v = (entity_str caller, entity_str callee))) vs) ∧
  (∀ cid, by_cid s cid = last (filterb (λ v, bool_decide (vc_cid v = cid)) vs)) ∧
  (∀ cf, cf ∈ cs_conflicting s ↔
     ∃ l v r w, vs = l ++ v :: r ∧ w ∈ l ∧ pair_of w = pair_of v ∧ clash v w ≠ [] ∧
       cf = mkConflicting (vc_cid v) (vc_cid w) (vc_caller v) (vc_callee v) (clash v w)) ∧
  cs_set_hash s = sha256_tagged (digest_input ((mkCid ∘ vc_cid) <$> vs)).
Proof.
  intros s vs. unfold s, Snapshot_build.
  destruct (foldl (build_step trusted now) (CSnapshot_default, "") artifacts) as [s0 d0] eqn:E.
  destruct (build_loop trusted now artifacts _ [] _ _ _ holds_default E) as ([Hc Hp] & Hcf & Hrj & Hd).
  cbn [app] in *. fold vs in Hc, Hp, Hcf, Hd. split; [|split; [|split; [|split; [|split]]]].
  - intros v. unfold vs, verified_of. rewrite list_elem_of_omap.
    split; intros (jws & Hin & Hv); exists jws; (split; [done|]);
      destruct (verify_artifact jws (VerifyOpts_trusting trusted now)); naive_solver.
  - cbn [set_hash_of cs_rejected]. rewrite Hrj. unfold vs, verified_of, rejected_of. cbn [CSnapshot_default cs_rejected app].
    clear. induction artifacts as [|jws l IH]; [done|]. cbn [omap list_omap].
    destruct (verify_artifact jws (VerifyOpts_trusting trusted now)); cbn [length]; lia.
  - intros. apply Hp.
  - intros. apply Hc.
  - intros cf. cbn [set_hash_of cs_conflicting]. rewrite Hcf. apply elem_of_conflicts_from.
  - cbn. by rewrite Hd.
Qed.

(** Nothing that [c] grants is denied by [r]. *)
Definition revoked_by (r : Revocations) (c : VerifiedContract) : Prop :=
  is_Some (rv_distrusted r) ∨ vc_jti c ∈ rv_jtis r ∨ vc_cid c ∈ rv_cids r ∨
  vc_caller c ∈ rv_parties r ∨ vc_callee c ∈ rv_parties r.

Lemma resolve_ok c cid caller callee contract :
  resolve c cid caller callee = Ok contract ↔
  (match cid with
   | Some cid => by_cid (ca_live c) cid
   | None => by_pair (ca_live c) caller callee
   end = Some contract) ∧ ¬ revoked_by (ca_revocations c) contract.
Proof.
  unfold resolve, revoked_by. rewrite result_bind_ok. setoid_rewrite ok_or_ok.
  set (found := match cid with Some _ => _ | None => _ end). cbn [jti_revoked cid_revoked party_revoked Revocations_view].
  destruct (rv_distrusted (ca_revocations c)) as [why|].
  - split; [by intros (? & _ & ?)|]. intros [_ []]. left. by eexists.
  - setoid_rewrite guard_err_ok. setoid_rewrite guard_err_ok. setoid_rewrite guard_err_ok.
    setoid_rewrite guard_err_ok. setoid_rewrite bool_decide_eq_false. split.
    + intros (x & Hx & H1 & H2 & H3 & H4 & [= ->]). split; [done|].
      intros [[? [=]]|[?|[?|[?|?]]]]; done.
    + intros [Hf Hn]. exists contract. split; [done|]. repeat (split; [by intros ?; apply Hn; tauto|]). done.
Qed.

Lemma resolve_revoked c cid caller callee contract :
  match cid with
  | Some cid => by_cid (ca_live c) cid
  | None => by_pair (ca_live c) caller callee
  end = Some contract →
  revoked_by (ca_revocations c) contract → resolve c cid caller callee = Err CONTRACT_REVOKED.
Proof.
  intros Hf Hr. destruct (resolve c cid caller callee) as [x|e] eqn:E.
  - apply resolve_ok in E as [Hx Hn]. rewrite Hf in Hx. by injection Hx as ->.
  - unfold resolve in E. rewrite Hf in E. cbn in E.
    destruct (rv_distrusted _); [by injection E as <-|]. unfold guard_err in E.
    repeat case_match; by simplify_eq.
Qed.

(** The revocation set is deny-only and takes effect at once: a lookup succeeds exactly
    when a contract is found and nothing about it is revoked, and otherwise says which of
    the two it was; adding revocations never makes a lookup succeed that failed; a set that
    cannot be relied on admits nothing; and the plural lookup answers the same question,
    contract by contract. *)
Theorem revocation_deny_only c cid caller callee :
  let found := match cid with
               | Some cid => by_cid (ca_live c) cid
               | None => by_pair (ca_live c) caller callee
               end in
  let r := ca_revocations c in
  (found = None → resolve c cid caller callee = Err NO_CONTRACT) ∧
  (∀ contract, found = Some contract →
     (revoked_by r contract → resolve c cid caller callee = Err CONTRACT_REVOKED) ∧
     (¬ revoked_by r contract → resolve c cid caller callee = Ok contract)) ∧
  (∀ r' contract, rv_jtis r ⊆ rv_jtis r' → rv_cids r ⊆ rv_cids r' → rv_parties r ⊆ rv_parties r' →
     (is_Some (rv_distrusted r) → is_Some (rv_distrusted r')) →
     resolve (set_revocations c r') cid caller callee = Ok contract →
     resolve c cid caller callee = Ok contract) ∧
  (∀ why contract, resolve (set_revocations c (distrust r why)) cid caller callee ≠ Ok contract) ∧
  (rv_distrusted r = None → ∃ l, resolve_all c caller callee = Ok l ∧
     ∀ x, x ∈ l ↔ x ∈ all_for_pair (ca_live c) caller callee ∧ ¬ revoked_by r x) ∧
  (is_Some (rv_distrusted r) → resolve_all c caller callee = Err CONTRACT_REVOKED).
Proof.
  intros found r. split; [|split; [|split; [|split; [|split]]]].
  - intros Hf. unfold resolve. fold found. by rewrite Hf.
  - intros contract Hf. split; [by apply resolve_revoked|]. intros Hn. by apply resolve_ok.
  - intros r' contract H1 H2 H3 H4. rewrite !resolve_ok. cbn. intros [Hf Hn]. split; [done|].
    unfold revoked_by in *. fold r. set_solver.
  - intros why contract. rewrite resolve_ok. cbn. intros [_ []]. left. by eexists.
  - intros Hd. unfold resolve_all. fold r. rewrite Hd. eexists. split; [done|]. intros x.
    rewrite elem_of_filterb, !andb_true_iff, !negb_true_iff. cbn.
    rewrite !bool_decide_eq_false. unfold revoked_by. rewrite Hd. split.
    + intros (Hx & ((? & ?) & ?) & ?). split; [done|]. intros [[? [=]]|?]. tauto.
    + intros [Hx Hn]. split; [done|]. tauto.
  - intros [why Hd]. unfold resolve_all. fold r. by rewrite Hd.
Qed.

Lemma still_in_force_ok c cid jti caller callee :
  still_in_force c cid jti caller callee = Ok tt ↔
  ∃ contract, by_cid (ca_live c) cid = Some contract ∧ vc_jti contract = jti ∧
              ¬ revoked_by (ca_revocations c) contract.
Proof.
  unfold still_in_force. rewrite result_bind_ok. setoid_rewrite resolve_ok.
  setoid_rewrite guard_err_ok. setoid_rewrite negb_false_iff. setoid_rewrite bool_decide_eq_true.
  naive_solver.
Qed.

Lemma resolve_err c cid caller callee e :
  resolve c cid caller callee = Err e → e = NO_CONTRACT ∨ e = CONTRACT_REVOKED.
Proof.
  unfold resolve. destruct (match cid with Some _ => _ | None => _ end); cbn; [|naive_solver].
  destruct (rv_distrusted _); unfold guard_err; repeat case_match; naive_solver.
Qed.

Lemma still_in_force_err c cid jti caller callee e :
  still_in_force c cid jti caller callee = Err e → e = NO_CONTRACT ∨ e = CONTRACT_REVOKED.
Proof.
  unfold still_in_force. destruct (resolve _ _ _ _) eqn:E; cbn.
  - unfold guard_err. case_match; naive_solver.
  - intros [= <-]. by apply resolve_err in E.
Qed.
