(* ===== verification/Client.v ===== *)
(** * Client: how a mediator refreshes its contracts and revocations
    ([crates/wc-mediator/src/client.rs])

    What the network answered is an argument: a status and a body, or nothing.  serde's
    readers of the answers are the parameter [ClientSerde].  The refresh loop of
    [connect-mediate] carries two sequence numbers between refreshes. *)

From Stdlib Require Import ZArith.
From stdpp Require Import pretty.
From S2P Require Import Prelude Text Errors Model Json Canon Contract Artifact Log Store Std Chain Contain Cache.

(** ** What the control plane serves *)

Record ActiveContract := mkActiveContract { ac_cid : string; ac_jws : option string }.
Record ContractSet := mkContractSet {
  set_seq : N;
  set_hash : string;
  set_active : list ActiveContract;
  set_removed : list string
}.
Definition artifacts (s : ContractSet) : list string := omap ac_jws (set_active s).
Definition missing_artifacts (s : ContractSet) : list string :=
  map ac_cid (filterb (λ c, match ac_jws c with None => true | Some _ => false end) (set_active s)).

Record SignedRevocationWire := mkWire { wire_event : Value; wire_jws : string; wire_kid : string }.
Record RevocationDelta := mkDelta { dl_head_seq : N; dl_head_digest : string; dl_events : list SignedRevocationWire }.

Inductive RevokedTarget := TParty (id : string) | TConnection (cid : string) | TArtifact (jti : string).
Record VerifiedRevocation := mkVerified { vr_seq : N; vr_target : RevokedTarget; vr_reason : string; vr_at : N }.

Class ClientSerde := {
  (** [serde_json::from_str] of the two bodies, [from_value::<VerifiedRevocation>] of a payload. *)
  contract_set_from_str : string → option ContractSet;
  delta_from_str : string → option RevocationDelta;
  verified_from_value : Value → option VerifiedRevocation
}.

Record RevocationReport := mkRevocationReport {
  rp_applied_seq : N;
  rp_head_digest : string;
  rp_applied : N;
  rp_rejected : list (N * Code);
  rp_contiguous : bool;
  rp_set : option Revocations
}.
Definition delta_is_clean (r : RevocationReport) : bool :=
  match rp_rejected r with [] => true | _ => false end && rp_contiguous r.

(** ** The transport *)

(** [trim_end_matches('/')]. *)
Fixpoint drop_slashes (l : list N) : list N := match l with 47%N :: r => drop_slashes r | _ => l end.
Definition trim_end_slashes (s : string) : string := of_bytes (reverse (drop_slashes (reverse (bytes s)))).

(** Uppercase hexadecimal, at least two digits. *)
Fixpoint hex_upper (fuel : nat) (n : N) (acc : list N) : list N :=
  match fuel with
  | O => acc
  | S fuel =>
    let d := (n mod 16)%N in
    let acc := (if (d <? 10)%N then d + 48 else d + 55)%N :: acc in
    if (n <? 16)%N then acc else hex_upper fuel (n / 16) acc
  end.
Definition fmt_02X (c : N) : list N :=
  match hex_upper 8 c [] with [d] => [48%N; d] | ds => ds end.
(** [encoded_id]: each character that is not unreserved as [%] and its scalar value. *)
Definition unreserved (c : N) : bool :=
  is_ascii_alphanumeric c || (c =? 45)%N || (c =? 95)%N || (c =? 46)%N || (c =? 126)%N.
Definition encoded_id (mediator_id : string) : string :=
  of_bytes (flat_map (λ c, if unreserved c then [c] else 37%N :: fmt_02X c) (chars mediator_id)).

(** A status and a body that may not be readable; [None] when there is no answer. *)
Definition Answer : Type := option (N * option string).
Definition is_success (status : N) : bool := (200 <=? status)%N && (status <? 300)%N.
Definition read_answer {T} (code : Code) (parse : string → option T) (a : Answer) : result T :=
  let? (status, body) := ok_or a code in
  let? body := ok_or body code in
  guard_err (negb (is_success status)) code $
  ok_or (parse body) code.
Definition read_ack (a : Answer) : result unit :=
  let? (status, _) := ok_or a MEDIATOR_ACK_MISSING in
  guard_err (negb (is_success status)) MEDIATOR_ACK_MISSING $ Ok tt.

Section Client.
Context `{ClientSerde, Sha256, Jose, SerdeParse}.

Definition fetch (a : Answer) : result ContractSet := read_answer NO_CONTRACT contract_set_from_str a.
Definition fetch_revocations (a : Answer) : result RevocationDelta := read_answer CONTRACT_REVOKED delta_from_str a.

(** ** Applying revocations *)

Definition apply_target (set : Revocations) (t : RevokedTarget) : Revocations :=
  match t with
  | TParty id => revoke_party set id
  | TConnection cid => revoke_cid set cid
  | TArtifact jti => revoke_jti set jti
  end.

Definition claimed_seq (event : Value) : N :=
  default 0%N (match vget "seq" event with Some v => as_u64 v | None => None end).

(** The loop: the set and the report so far, the next sequence expected. *)
Fixpoint apply_events (keys : IssuerKeys) (events : list SignedRevocationWire)
    (set : Revocations) (report : RevocationReport) (expected : N) : Revocations * RevocationReport :=
  match events with
  | [] => (set, report)
  | entry :: events =>
    match verify_detached verified_from_value (wire_jws entry) (wire_kid entry) keys with
    | Err e =>
      apply_events keys events set
        (mkRevocationReport (rp_applied_seq report) (rp_head_digest report) (rp_applied report)
           (rp_rejected report ++ [(claimed_seq (wire_event entry), e)]) (rp_contiguous report) None) expected
    | Ok verified =>
      if negb (vr_seq verified =? expected)%N
      then (set, mkRevocationReport (rp_applied_seq report) (rp_head_digest report) (rp_applied report)
                   (rp_rejected report) false None)
      else apply_events keys events (apply_target set (vr_target verified))
             (mkRevocationReport (vr_seq verified) (rp_head_digest report) (rp_applied report + 1)
                (rp_rejected report) (rp_contiguous report) None) (u64_add expected 1)
    end
  end.

Definition apply_revocations (delta : RevocationDelta) (keys : IssuerKeys) (previous : Revocations) (since : N)
    : RevocationReport :=
  let '(set, report) :=
    apply_events keys (dl_events delta) previous (mkRevocationReport since (dl_head_digest delta) 0 [] true None)
      (u64_add since 1) in
  let set :=
    if delta_is_clean report then trust set
    else distrust set
      (if rp_contiguous report
       then pretty (len (rp_rejected report)) +:+ " feed entries failed verification"
       else "feed is not contiguous after seq " +:+ pretty (rp_applied_seq report)) in
  mkRevocationReport (rp_applied_seq report) (rp_head_digest report) (rp_applied report) (rp_rejected report)
    (rp_contiguous report) (Some set).

Definition install_revocations (cache : Cache) (delta : RevocationDelta) (keys : IssuerKeys) (since : N)
    : Cache * RevocationReport :=
  let report := apply_revocations delta keys (ca_revocations cache) since in
  (match rp_set report, rp_contiguous report with
   | Some set, true => set_revocations cache set
   | _, _ =>
     set_revocations cache
       (distrust (ca_revocations cache)
          (if rp_contiguous report then "a revocation entry did not verify"
           else "the revocation feed has a gap, so what is revoked is unknown"))
   end, report).

(** ** Refreshing *)

Record RefreshReport := mkRefreshReport {
  rf_seq : N;
  rf_set_hash : string;
  rf_installed : N;
  rf_missing : list string;
  rf_rejected : list (string * Code);
  rf_removed : list string;
  rf_acked : bool;
  rf_revocations : option RevocationReport
}.
Definition refresh_is_clean (r : RefreshReport) : bool :=
  match rf_missing r with [] => true | _ => false end && match rf_rejected r with [] => true | _ => false end
  && rf_acked r && match rf_revocations r with Some rev => delta_is_clean rev | None => false end.

(** What the network answers to the three requests. *)
Record Net := mkNet {
  net_contracts : N → Answer;
  net_revocations : N → Answer;
  net_ack : string → N → list string → gmap string N → Answer
}.

Definition refresh (net : Net) (trust : Trust) (since rev_since now : N) : stateR Cache RefreshReport Code := λ cache,
  match fetch (net_contracts net since) with
  | Err e => (cache, Err e)
  | Ok set =>
    let snapshot := Snapshot_build (artifacts set) trust now in
    let cache := install cache snapshot in
    let '(cache, revocations) :=
      match fetch_revocations (net_revocations net rev_since) with
      | Ok delta => let '(cache, rev) := install_revocations cache delta (tr_keys trust) rev_since in (cache, Some rev)
      | Err _ => (cache, None)
      end in
    let '(cache, used) := take_usage cache in
    let acked := is_ok (read_ack (net_ack net (set_hash set) (set_seq set) (set_removed set) used)) in
    (cache, Ok (mkRefreshReport (set_seq set) (set_hash set) (CSnapshot_len snapshot) (missing_artifacts set)
                  (cs_rejected snapshot) (set_removed set) acked revocations))
  end.

(** The loop of [connect-mediate]: the cache and the two sequences it asks from. *)
Record LoopState := mkLoopState { lp_cache : Cache; lp_seq : N; lp_rev_seq : N }.
Definition refresh_step (net : Net) (trust : Trust) (now : N) (st : LoopState) : LoopState :=
  match refresh net trust (lp_seq st) (lp_rev_seq st) now (lp_cache st) with
  | (cache, Ok report) =>
    mkLoopState cache (rf_seq report)
      (match rf_revocations report with Some rev => rp_applied_seq rev | None => lp_rev_seq st end)
  | (cache, Err _) => mkLoopState cache (lp_seq st) (lp_rev_seq st)
  end.
End Client.

(** ** Lemmas: what a delta does to the revocation set *)

Definition denies (r : Revocations) (t : RevokedTarget) : Prop :=
  match t with
  | TParty id => id ∈ rv_parties r
  | TConnection cid => cid ∈ rv_cids r
  | TArtifact jti => jti ∈ rv_jtis r
  end.
(** Nothing denied is let go. *)
Definition deny_le (r r' : Revocations) : Prop := ∀ t, denies r t → denies r' t.
#[global] Instance deny_le_preorder : PreOrder deny_le.
Proof. split; [by intros r t|intros a b c H1 H2 t Ht; by apply H2, H1]. Qed.

Lemma denies_apply r t u : denies (apply_target r t) u ↔ u = t ∨ denies r u.
Proof. destruct t, u; cbn; set_solver. Qed.
Lemma denies_trust r t : denies (trust r) t ↔ denies r t.
Proof. by destruct t. Qed.
Lemma denies_distrust r why t : denies (distrust r why) t ↔ denies r t.
Proof. by destruct t. Qed.

Section Deltas.
Context `{ClientSerde, Sha256, Jose, SerdeParse}.

Definition reads (keys : IssuerKeys) (entry : SignedRevocationWire) (v : VerifiedRevocation) : Prop :=
  verify_detached verified_from_value (wire_jws entry) (wire_kid entry) keys = Ok v.
(** Every entry verifies, and they are numbered on from [n]. *)
Fixpoint in_sequence (keys : IssuerKeys) (n : N) (events : list SignedRevocationWire) (vs : list VerifiedRevocation) : Prop :=
  match events, vs with
  | [], [] => True
  | e :: events, v :: vs => reads keys e v ∧ vr_seq v = n ∧ in_sequence keys (n + 1) events vs
  | _, _ => False
  end.

Lemma apply_events_grows keys events set rep expected :
  deny_le set (apply_events keys events set rep expected).1.
Proof.
  revert set rep expected. induction events as [|e events IH]; intros set rep expected; cbn [apply_events]; [done|].
  destruct (verify_detached _ _ _ _) as [v|]; [|apply IH]. destruct (negb _); [done|]. etrans; [|apply IH].
  intros t Ht. apply denies_apply. by right.
Qed.
Lemma apply_events_sound keys events set rep expected t :
  denies (apply_events keys events set rep expected).1 t →
  denies set t ∨ ∃ e v, e ∈ events ∧ reads keys e v ∧ vr_target v = t.
Proof.
  revert set rep expected. induction events as [|e events IH]; intros set rep expected; cbn [apply_events]; [by left|].
  assert (∀ P : Prop, (P ∨ ∃ x v, x ∈ events ∧ reads keys x v ∧ vr_target v = t) → P ∨ ∃ x v, x ∈ e :: events ∧ reads keys x v ∧ vr_target v = t) as Hmore.
  { intros P [HP|(x & v & ? & ?)]; [by left|right; exists x, v; split; [by right|done]]. }
  destruct (verify_detached _ _ _ _) as [v|] eqn:E; [|intros Ht; by eapply Hmore, IH]. destruct (negb _); [by left|].
  intros Ht. apply IH in Ht as [Ht|Ht]; [|by apply Hmore; right].
  apply denies_apply in Ht as [->|Ht]; [right; exists e, v; split; [by left|done]|by left].
Qed.
(** A report that was not clean stays so. *)
Lemma apply_events_unclean keys events set rep expected :
  delta_is_clean rep = false → delta_is_clean (apply_events keys events set rep expected).2 = false.
Proof.
  revert set rep expected. induction events as [|e events IH]; intros set rep expected Hrep; cbn [apply_events]; [done|].
  assert (∀ l : list (N * Code), ∀ x, match l ++ [x] with [] => true | _ => false end = false) as Hsnoc by (by intros []).
  destruct (verify_detached _ _ _ _) as [v|]; [|apply IH; unfold delta_is_clean; cbn; by rewrite Hsnoc].
  destruct (negb _); [unfold delta_is_clean; cbn; by rewrite andb_false_r|]. by apply IH.
Qed.

Lemma apply_events_clean keys events set rep expected :
  delta_is_clean rep = true → (expected + len events ≤ u64_max)%N →
  delta_is_clean (apply_events keys events set rep expected).2 = true ↔
  ∃ vs, in_sequence keys expected events vs.
Proof.
  revert set rep expected. induction events as [|e events IH]; intros set rep expected Hrep Hlen; cbn [apply_events].
  { split; [intros _; by exists []|done]. }
  assert (len (e :: events) = len events + 1)%N as Hle by (unfold len; simpl; lia).
  destruct (verify_detached verified_from_value (wire_jws e) (wire_kid e) keys) as [v|] eqn:E.
  - destruct (vr_seq v =? expected)%N eqn:Es; cbn [negb].
    + assert (u64_add expected 1 = expected + 1)%N as -> by (unfold u64_add; rewrite N.mod_small; lia). rewrite IH by (done || lia).
      apply N.eqb_eq in Es. split.
      * intros (vs & Hvs). by exists (v :: vs).
      * intros ([|v' vs] & Hvs); [done|]. destruct Hvs as (Hr & _ & Hvs). by exists vs.
    + split; [unfold delta_is_clean; cbn; by rewrite andb_false_r|]. intros ([|v' vs] & Hvs); [done|].
      destruct Hvs as (Hr & Hs & _). unfold reads in Hr. apply N.eqb_neq in Es. congruence.
  - rewrite apply_events_unclean; [|unfold delta_is_clean; cbn; by destruct (rp_rejected rep)]. split; [done|].
    intros ([|v' vs] & Hvs); [done|]. destruct Hvs as (Hr & _). unfold reads in Hr. congruence.
Qed.
Lemma apply_events_all keys events vs set rep expected :
  in_sequence keys expected events vs → (expected + len events ≤ u64_max)%N →
  let r := apply_events keys events set rep expected in
  (∀ v, v ∈ vs → denies r.1 (vr_target v)) ∧
  rp_applied_seq r.2 = (if bool_decide (events = []) then rp_applied_seq rep else expected + len events - 1)%N ∧
  rp_applied r.2 = (rp_applied rep + len events)%N.
Proof.
  revert vs set rep expected. induction events as [|e events IH]; intros [|v vs] set rep expected Hvs Hlen; cbn [apply_events]; try done.
  { split; [set_solver|]. rewrite bool_decide_eq_true_2 by done. split; [done|]. cbn. unfold len. simpl. lia. }
  assert (len (e :: events) = len events + 1)%N as Hle by (unfold len; simpl; lia). destruct Hvs as (Hr & Hs & Hvs).
  unfold reads in Hr. rewrite Hr, Hs, N.eqb_refl. cbn [negb].
  assert (u64_add expected 1 = expected + 1)%N as -> by (unfold u64_add; rewrite N.mod_small; lia).
  edestruct (IH vs) as (Hall & Hseq & Happ); [done|lia|]. split.
  - intros x [->|Hx]%elem_of_cons; [|by apply Hall]. apply apply_events_grows, denies_apply. by left.
  - rewrite Hseq, Happ, (bool_decide_eq_false_2 (e :: events = [])) by done. cbn [rp_applied_seq rp_applied]. split; [|lia].
    case_bool_decide as E; [subst; unfold len; simpl; lia|lia].
Qed.

(** What [install_revocations] leaves in the cache. *)
Lemma install_view cache delta keys since :
  let r := apply_events keys (dl_events delta) (ca_revocations cache) (mkRevocationReport since (dl_head_digest delta) 0 [] true None) (u64_add since 1) in
  let '(cache', report) := install_revocations cache delta keys since in
  ca_live cache' = ca_live cache ∧ delta_is_clean report = delta_is_clean r.2 ∧ rp_applied_seq report = rp_applied_seq r.2 ∧
  rp_applied report = rp_applied r.2 ∧
  (rv_distrusted (ca_revocations cache') = None ↔ delta_is_clean r.2 = true) ∧
  (rp_contiguous report = true → ∀ t, denies (ca_revocations cache') t ↔ denies r.1 t) ∧
  (rp_contiguous report = false → ∀ t, denies (ca_revocations cache') t ↔ denies (ca_revocations cache) t).
Proof.
  intros r. unfold install_revocations, apply_revocations. fold r. destruct r as [set rep]. cbn [fst snd rp_set rp_contiguous].
  unfold delta_is_clean. destruct (rp_rejected rep), (rp_contiguous rep); cbn [andb rp_rejected rp_contiguous rp_applied_seq rp_applied];
    cbn; (split; [done|]); (split; [done|]); (split; [done|]); (split; [done|]); (split; [done|]);
    (split; [intros Hc t|intros Hc t]); rewrite ?denies_trust, ?denies_distrust; try done; by destruct t.
Qed.
End Deltas.

(** ** Theorems *)

Section ClientTheorems.
Context `{ClientSerde, FeedSerde, Sha256, Jose, SerdeParse}.

Lemma install_grows cache delta keys since :
  deny_le (ca_revocations cache) (ca_revocations (install_revocations cache delta keys since).1).
Proof.
  pose proof (install_view cache delta keys since) as Hv. cbv zeta in Hv. destruct (install_revocations cache delta keys since) as [cache' report].
  destruct Hv as (_ & _ & _ & _ & _ & Hc & Hg). intros t Ht. cbn [fst]. destruct (rp_contiguous report).
  - apply Hc; [done|]. by apply apply_events_grows.
  - by apply Hg.
Qed.
Lemma refresh_grows net trust seq rev_seq now cache :
  deny_le (ca_revocations cache) (ca_revocations (refresh net trust seq rev_seq now cache).1).
Proof.
  unfold refresh. destruct (fetch _) as [set|]; [|done]. destruct (fetch_revocations _) as [delta|]; [|done].
  pose proof (install_grows (install cache (Snapshot_build (artifacts set) trust now)) delta (tr_keys trust) rev_seq) as Hg.
  destruct (install_revocations _ _ _ _) as [cache' rev]. exact Hg.
Qed.
Lemma refresh_step_grows net trust now st :
  deny_le (ca_revocations (lp_cache st)) (ca_revocations (lp_cache (refresh_step net trust now st))).
Proof.
  unfold refresh_step. pose proof (refresh_grows net trust (lp_seq st) (lp_rev_seq st) now (lp_cache st)) as Hg.
  by destruct (refresh _ _ _ _ _ _) as [cache [report|]].
Qed.

(** A delta in sequence is applied to its end. *)
Lemma install_in_sequence cache delta keys since vs cache' report :
  install_revocations cache delta keys since = (cache', report) → (since + len (dl_events delta) < u64_max)%N →
  in_sequence keys (since + 1) (dl_events delta) vs →
  delta_is_clean report = true ∧ rv_distrusted (ca_revocations cache') = None ∧
  rp_applied_seq report = (since + len (dl_events delta))%N ∧ ∀ v, v ∈ vs → denies (ca_revocations cache') (vr_target v).
Proof.
  intros Hi Hlen Hvs. pose proof (install_view cache delta keys since) as Hv. cbv zeta in Hv. rewrite Hi in Hv.
  set (rep0 := mkRevocationReport since (dl_head_digest delta) 0 [] true None) in *.
  assert (u64_add since 1 = since + 1)%N as Hexp by (unfold u64_add; rewrite N.mod_small; lia). rewrite Hexp in Hv.
  set (r := apply_events keys (dl_events delta) (ca_revocations cache) rep0 (since + 1)) in *.
  destruct Hv as (_ & Hclean & Hseq & _ & Htr & Hc & _).
  assert (delta_is_clean r.2 = true) as Hcl by (apply apply_events_clean; [done|lia|by exists vs]).
  destruct (apply_events_all keys (dl_events delta) vs (ca_revocations cache) rep0 (since + 1) Hvs ltac:(lia)) as (Hall & Hs & _). fold r in Hall, Hs.
  split; [by rewrite Hclean|]. split; [by apply Htr|]. split.
  - rewrite Hseq, Hs. case_bool_decide as E; [rewrite E; unfold len; simpl; lia|lia].
  - intros v Hin. apply Hc; [|by apply Hall]. rewrite <-Hclean in Hcl. unfold delta_is_clean in Hcl. by apply andb_true_iff in Hcl as [_ ?].
Qed.

(** Whatever a control plane serves as revocations, a mediator only denies more, and only
    what was signed.  After any delta is installed nothing that was denied is let go, and
    everything newly denied is the target of an entry that verifies under the mediator's
    keys.  The set is relied on exactly when every entry verifies and they are numbered on
    from the sequence asked for; then each of them is denied and the sequence recorded is the
    last; otherwise no lookup of any contract succeeds. *)
Theorem delta_only_denies cache delta keys since cache' report :
  install_revocations cache delta keys since = (cache', report) → (since + len (dl_events delta) < u64_max)%N →
  deny_le (ca_revocations cache) (ca_revocations cache') ∧
  (∀ t, denies (ca_revocations cache') t →
    denies (ca_revocations cache) t ∨ ∃ e v, e ∈ dl_events delta ∧ reads keys e v ∧ vr_target v = t) ∧
  (delta_is_clean report = true ↔ ∃ vs, in_sequence keys (since + 1) (dl_events delta) vs) ∧
  (∀ vs, in_sequence keys (since + 1) (dl_events delta) vs →
    rv_distrusted (ca_revocations cache') = None ∧ rp_applied_seq report = (since + len (dl_events delta))%N ∧
    ∀ v, v ∈ vs → denies (ca_revocations cache') (vr_target v)) ∧
  (delta_is_clean report = false → ∀ cid caller callee, is_ok (resolve cache' cid caller callee) = false).
Proof.
  intros Hi Hlen. pose proof (install_grows cache delta keys since) as Hgrow. pose proof (install_view cache delta keys since) as Hv.
  cbv zeta in Hv. rewrite Hi in Hv, Hgrow. set (rep0 := mkRevocationReport since (dl_head_digest delta) 0 [] true None) in *.
  assert (u64_add since 1 = since + 1)%N as Hexp by (unfold u64_add; rewrite N.mod_small; lia). rewrite Hexp in Hv.
  set (r := apply_events keys (dl_events delta) (ca_revocations cache) rep0 (since + 1)) in *.
  destruct Hv as (_ & Hclean & Hseq & _ & Htr & Hc & Hg). split; [done|]. split.
  { intros t Ht. destruct (rp_contiguous report) eqn:E; [|left; by apply Hg]. apply Hc in Ht; [|done]. by apply apply_events_sound in Ht. }
  assert (delta_is_clean r.2 = true ↔ ∃ vs, in_sequence keys (since + 1) (dl_events delta) vs) as Hiff
    by (apply apply_events_clean; [done|lia]).
  split; [by rewrite Hclean|]. split.
  - intros vs Hvs. by destruct (install_in_sequence _ _ _ _ _ _ _ Hi Hlen Hvs) as (_ & ?).
  - intros Hno cid caller callee. destruct (resolve cache' cid caller callee) as [c|] eqn:E; [|done]. apply resolve_ok in E as [_ E].
    exfalso. apply E. left. destruct (rv_distrusted (ca_revocations cache')) as [why|] eqn:Ed; [by exists why|].
    destruct Htr as [Htr _]. rewrite <-Hclean, Hno in Htr. by specialize (Htr eq_refl).
Qed.

(** *** From the plane's feed to the mediator's lookup *)

Definition target_of (r : Revoked) : RevokedTarget :=
  match r with
  | Party id => TParty (entity_str id)
  | Connection cid => TConnection (cid_str cid)
  | RevokedArtifact jti => TArtifact (jti_str jti)
  end.
Definition named_by (r : Revoked) (c : VerifiedContract) : Prop :=
  match r with
  | Party id => vc_caller c = entity_str id ∨ vc_callee c = entity_str id
  | Connection cid => vc_cid c = cid_str cid
  | RevokedArtifact jti => vc_jti c = jti_str jti
  end.

(** The body the plane answers to [GET /v1/revocations?since=n], as read back. *)
Definition serve (to_value : RevocationEvent → Value) (f : RevocationFeed) (n : N) : RevocationDelta :=
  mkDelta (next_seq f - 1) (head_digest f)
    (map (λ e, mkWire (to_value (sr_event e)) (sr_jws e) (sr_kid e)) (since f n)).
(** The revocation key is among the mediator's: a feed entry verifies to what was ordered. *)
Definition mediator_reads (keys : IssuerKeys) (e : SignedRevocation) : Prop :=
  verify_detached verified_from_value (sr_jws e) (sr_kid e) keys
  = Ok (mkVerified (rev_seq (sr_event e)) (target_of (rev_revoked (sr_event e))) (rev_reason (sr_event e)) (rev_at (sr_event e))).
(** The mediator denies what the first [n] events of the feed revoke. *)
Definition knows (r : Revocations) (f : RevocationFeed) (n : N) : Prop :=
  ∀ e, e ∈ fd_events f → (rev_seq (sr_event e) ≤ n)%N → denies r (target_of (rev_revoked (sr_event e))).

Lemma serve_in_sequence keys to_value f n :
  numbered 1 (fd_events f) = true → Forall (mediator_reads keys) (fd_events f) →
  in_sequence keys (n + 1) (dl_events (serve to_value f n))
    (map (λ e, mkVerified (rev_seq (sr_event e)) (target_of (rev_revoked (sr_event e))) (rev_reason (sr_event e)) (rev_at (sr_event e))) (since f n)).
Proof.
  intros Hnum Hall. cbn [dl_events serve]. assert (Forall (mediator_reads keys) (since f n)) as Hs.
  { apply Forall_forall. intros e [He _]%elem_of_filterb. rewrite Forall_forall in Hall. by apply Hall. }
  assert (∀ l m, numbered m l = true → Forall (mediator_reads keys) l →
    in_sequence keys m (map (λ e, mkWire (to_value (sr_event e)) (sr_jws e) (sr_kid e)) l)
      (map (λ e, mkVerified (rev_seq (sr_event e)) (target_of (rev_revoked (sr_event e))) (rev_reason (sr_event e)) (rev_at (sr_event e))) l)) as Hgen.
  { induction l as [|e l IH]; intros m Hm Hl; [done|]. cbn [map in_sequence numbered] in *.
    apply andb_true_iff in Hm as [Hm%N.eqb_eq Hn]. apply Forall_cons in Hl as [He Hl]. split; [exact He|]. split; [done|]. by apply IH. }
  apply Hgen; [|done]. rewrite since_drop by done.
  rewrite <-(take_drop (N.to_nat n) (fd_events f)), numbered_app in Hnum. apply andb_true_iff in Hnum as [_ Hnum].
  destruct (decide (N.to_nat n ≤ length (fd_events f))%nat) as [Hle|Hgt].
  - unfold len in Hnum. rewrite length_take, Nat.min_l in Hnum by done. by replace (n + 1)%N with (1 + N.of_nat (N.to_nat n))%N by lia.
  - by rewrite drop_ge by lia.
Qed.

Lemma denied_refused c r cid caller callee contract :
  denies (ca_revocations c) (target_of r) → named_by r contract →
  resolve c cid caller callee ≠ Ok contract.
Proof.
  intros Hd Hn Hr%resolve_ok. destruct Hr as [_ []]. unfold revoked_by. destruct r; cbn in Hd, Hn.
  - destruct Hn as [->| ->]; tauto.
  - rewrite Hn. tauto.
  - rewrite Hn. tauto.
Qed.

(** C5: a cut written to the feed reaches the mediator and stays.  One refresh in which both
    requests are answered and the revocations are what the plane's feed holds after the
    sequence the mediator asked from leaves the mediator at the head of the feed, relying on
    its set; and from then on, whatever later refreshes bring, honest or not, no lookup ever
    yields a contract that any event of that feed names. *)
Theorem cut_reaches_mediator f to_value net trust now st later :
  numbered 1 (fd_events f) = true → Forall (mediator_reads (tr_keys trust)) (fd_events f) →
  (lp_rev_seq st ≤ len (fd_events f))%N → (len (fd_events f) < u64_max)%N → knows (ca_revocations (lp_cache st)) f (lp_rev_seq st) →
  is_ok (fetch (net_contracts net (lp_seq st))) →
  fetch_revocations (net_revocations net (lp_rev_seq st)) = Ok (serve to_value f (lp_rev_seq st)) →
  let st1 := refresh_step net trust now st in
  let st2 := fold_left (λ st l, refresh_step l.1.1 l.1.2 l.2 st) later st1 in
  lp_rev_seq st1 = len (fd_events f) ∧ rv_distrusted (ca_revocations (lp_cache st1)) = None ∧
  knows (ca_revocations (lp_cache st1)) f (len (fd_events f)) ∧
  ∀ e contract cid caller callee, e ∈ fd_events f → named_by (rev_revoked (sr_event e)) contract →
    resolve (lp_cache st2) cid caller callee ≠ Ok contract.
Proof.
  intros Hnum Hall Hle Hlen Hknows Hfetch Hdelta st1 st2.
  assert (lp_rev_seq st1 = len (fd_events f) ∧ rv_distrusted (ca_revocations (lp_cache st1)) = None ∧
    knows (ca_revocations (lp_cache st1)) f (len (fd_events f))) as (Hs & Ht & Hk).
  { subst st1. unfold refresh_step, refresh. destruct (fetch _) as [set|]; [|done]. rewrite Hdelta.
    set (cache0 := install _ _). destruct (install_revocations cache0 _ (tr_keys trust) (lp_rev_seq st)) as [cache' rev] eqn:Hi.
    cbn [lp_cache lp_rev_seq rf_revocations take_usage ca_revocations].
    set (n := lp_rev_seq st) in *. assert (len (dl_events (serve to_value f n)) = len (fd_events f) - n)%N as Hdl.
    { cbn [serve dl_events]. unfold len. rewrite length_map, since_drop, length_drop by done. lia. }
    pose proof (install_grows cache0 (serve to_value f n) (tr_keys trust) n) as Hgrow. rewrite Hi in Hgrow.
    destruct (install_in_sequence _ _ _ _ _ _ _ Hi ltac:(lia) (serve_in_sequence _ _ f n Hnum Hall)) as (_ & Htr & Happ & Hden).
    split; [rewrite Happ, Hdl; lia|]. split; [done|].
    intros e He _. destruct (decide (rev_seq (sr_event e) ≤ n)%N) as [Hold|Hnew].
    - apply Hgrow. by apply Hknows.
    - apply (Hden (mkVerified (rev_seq (sr_event e)) (target_of (rev_revoked (sr_event e))) (rev_reason (sr_event e)) (rev_at (sr_event e)))).
      apply list_elem_of_In, in_map_iff. exists e. split; [done|]. apply list_elem_of_In, elem_of_filterb. split; [done|]. apply N.ltb_lt. lia. }
  split; [done|]. split; [done|]. split; [done|]. intros e contract cid caller callee He Hn. eapply denied_refused; [|exact Hn].
  assert (deny_le (ca_revocations (lp_cache st1)) (ca_revocations (lp_cache st2))) as Hgrow.
  { subst st2. generalize st1 as st'. clear. induction later as [|l later IH]; intros st'; cbn [fold_left]; [done|]. etrans; [|apply IH].
    apply refresh_step_grows. }
  apply Hgrow, Hk; [done|]. apply list_elem_of_lookup in He as [i Hi]. rewrite (numbered_lookup _ _ _ _ Hnum Hi).
  apply lookup_lt_Some in Hi. unfold len. lia.
Qed.

(** A feed cut short is taken for a whole one.  Serving any prefix of the feed that
    reaches the sequence asked for -- none of the newer entries at all -- is a clean delta,
    whatever head it states: the set is relied on again, although cuts past the prefix were
    ordered and are not denied. *)
Theorem withheld_tail_unseen cache f keys to_value k n head digest :
  numbered 1 (fd_events f) = true → Forall (mediator_reads keys) (fd_events f) → (n ≤ k)%N → (k ≤ len (fd_events f))%N →
  (len (fd_events f) < u64_max)%N →
  let short := mkFeed (fd_file f) (take (N.to_nat k) (fd_events f)) in
  let '(cache', report) := install_revocations cache (mkDelta head digest (dl_events (serve to_value short n))) keys n in
  delta_is_clean report = true ∧ rv_distrusted (ca_revocations cache') = None ∧ rp_applied_seq report = k.
Proof.
  intros Hnum Hall Hnk Hk Hlen short. destruct (install_revocations _ _ _ _) as [cache' report] eqn:Hi.
  assert (numbered 1 (fd_events short) = true) as Hnum'.
  { rewrite <-(take_drop (N.to_nat k) (fd_events f)), numbered_app in Hnum. by apply andb_true_iff in Hnum as [? _]. }
  assert (Forall (mediator_reads keys) (fd_events short)) as Hall' by by apply Forall_take.
  assert (len (fd_events short) = k) as Hls by (cbn; unfold len in *; rewrite length_take; lia).
  assert (len (dl_events (serve to_value short n)) = k - n)%N as Hdl.
  { cbn [serve dl_events]. unfold len. rewrite length_map, since_drop, length_drop by done. unfold len in Hls. lia. }
  destruct (install_in_sequence _ _ _ _ _ _ _ Hi ltac:(cbn [dl_events]; lia) (serve_in_sequence keys to_value short n Hnum' Hall')) as (? & ? & Ha & _).
  cbn [dl_events] in Ha. split; [done|]. split; [done|]. lia.
Qed.
End ClientTheorems.

(** ** A concrete mediator *)

Module ClientExamples.
Import ChainExamples ContainExamples.
#[export] Existing Instance TestSha.sha.

Definition signed (e : RevocationEvent) : SignedRevocation := mkSignedRevocation e (jws_of (event_to_vec e)) "rev".
Definition feed : RevocationFeed := mkFeed None (imap (λ i o, signed (fo_event (N.of_nat i + 1) o)) orders).
Definition to_value (e : RevocationEvent) : Value := VObject [("seq", VNumber (PosInt (rev_seq e)))].
Definition verified_of (e : RevocationEvent) : VerifiedRevocation :=
  mkVerified (rev_seq e) (target_of (rev_revoked e)) (rev_reason e) (rev_at e).
Definition delta : RevocationDelta := serve to_value feed 0.
#[export] Instance client_serde : ClientSerde := {|
  contract_set_from_str _ := Some (mkContractSet 7 "h" [] []);
  delta_from_str _ := Some delta;
  verified_from_value v := match v with VString s => verified_of <$> scan_event s | _ => None end
|}.

Definition net : Net := mkNet (λ _, Some (200%N, Some "set")) (λ _, Some (200%N, Some "delta")) (λ _ _ _ _, None).
Definition trusted : Trust := mkTrust feed_keys "m1" "plane".

Lemma feed_numbered : numbered 1 (fd_events feed) = true.
Proof. reflexivity. Qed.
Lemma feed_readable : Forall (mediator_reads feed_keys) (fd_events feed).
Proof.
  apply Forall_forall. intros e He. apply list_elem_of_lookup in He as [i Hi]. cbn [fd_events feed] in Hi.
  rewrite list_lookup_imap in Hi. apply fmap_Some in Hi as (o & _ & ->). apply jws_verifies.
  cbn [verified_from_value client_serde event_to_vec feed_serde]. by rewrite scan_event_print.
Qed.
Lemma feed_len : len (fd_events feed) = 2%N.
Proof. reflexivity. Qed.

Lemma delta_only_denies_witness :
  ∃ cache' report, install_revocations Cache_new delta feed_keys 0 = (cache', report) ∧
    deny_le (ca_revocations Cache_new) (ca_revocations cache').
Proof.
  destruct (install_revocations Cache_new delta feed_keys 0) as [cache' report] eqn:Hi.
  destruct (delta_only_denies Cache_new delta feed_keys 0 cache' report Hi) as (Hle & _).
  - reflexivity.
  - exists cache', report. split; [reflexivity|exact Hle].
Defined.

Lemma cut_reaches_mediator_witness :
  lp_rev_seq (refresh_step net trusted 5 (mkLoopState Cache_new 0 0)) = 2%N.
Proof.
  destruct (cut_reaches_mediator feed to_value net trusted 5 (mkLoopState Cache_new 0 0) []) as (Hseq & _).
  - exact feed_numbered.
  - exact feed_readable.
  - rewrite feed_len. cbn. lia.
  - rewrite feed_len. unfold u64_max. lia.
  - intros e He Hs. exfalso. apply list_elem_of_lookup in He as [i Hi].
    rewrite (numbered_lookup _ _ _ _ feed_numbered Hi) in Hs. cbn [lp_rev_seq] in Hs. lia.
  - exact I.
  - reflexivity.
  - rewrite Hseq. exact feed_len.
Defined.

Lemma withheld_tail_unseen_witness :
  ∃ cache' report, install_revocations Cache_new (mkDelta 2 "" []) feed_keys 1 = (cache', report) ∧ delta_is_clean report = true.
Proof.
  pose proof (withheld_tail_unseen Cache_new feed feed_keys to_value 1 1 2 "" feed_numbered feed_readable) as Hw.
  change (dl_events (serve to_value _ 1)) with (@nil SignedRevocationWire) in Hw.
  destruct (install_revocations Cache_new (mkDelta 2 "" []) feed_keys 1) as [cache' report].
  exists cache', report. split; [reflexivity|]. apply Hw; rewrite ?feed_len; unfold u64_max; lia.
Defined.
End ClientExamples.
