(* ===== verification/Drain.v ===== *)
(** * Drain: work in flight when a revocation lands ([crates/wc-mediator/src/drain.rs])

    The module decides and counts; nothing in the mediator calls it yet, as its own comment
    says.  A [Duration] is its whole seconds, the only part the decision reads. *)

From Stdlib Require Import ZArith.
From S2P Require Import Prelude Text Errors Model Json Canon Contract Artifact Log Store Std.

Definition DEFAULT_DRAIN_TIMEOUT : N := 10.

Inductive OnRevoke := Drain (timeout : N) | Abort.
Definition OnRevoke_default : OnRevoke := Abort.

Definition OnRevoke_parse (value : string) (timeout : option N) : result OnRevoke :=
  let value := trim_text value in
  if bool_decide (value = "abort") then Ok Abort
  else if bool_decide (value = "drain") then Ok (Drain (default DEFAULT_DRAIN_TIMEOUT timeout))
  else Err CONFIG_INVALID.
Definition on_ambiguous_config : OnRevoke := Abort.
Definition OnRevoke_as_str (m : OnRevoke) : string := match m with Drain _ => "drain" | Abort => "abort" end.
Definition grace (m : OnRevoke) : N := match m with Drain timeout => timeout | Abort => 0 end.

Inductive InFlight := Allow | Cut.

Definition decide_call (mode : OnRevoke) (started_at revoked_at now : N) : InFlight :=
  match mode with
  | Abort => Cut
  | Drain timeout =>
    if (revoked_at <=? started_at)%N then Cut
    else if (now <? saturating_add_u64 revoked_at timeout)%N then Allow else Cut
  end.

Record DrainTally := mkTally { ta_drained : N; ta_aborted : N; ta_refused : N }.
Definition tally_record (o : InFlight) (t : DrainTally) : DrainTally :=
  match o with
  | Allow => mkTally (u64_add (ta_drained t) 1) (ta_aborted t) (ta_refused t)
  | Cut => mkTally (ta_drained t) (u64_add (ta_aborted t) 1) (ta_refused t)
  end.
Definition refuse (t : DrainTally) : DrainTally := mkTally (ta_drained t) (ta_aborted t) (u64_add (ta_refused t) 1).
Definition tally_is_empty (t : DrainTally) : bool := (ta_drained t =? 0)%N && (ta_aborted t =? 0)%N && (ta_refused t =? 0)%N.

(** A call in flight outlives a revocation only inside the grace period.  A call is let
    run exactly when the mode is a drain, it started before the revocation and the clock is
    before the revocation plus the configured seconds, saturating; so once it is cut it stays
    cut, and a configuration that is not understood never lets anything run. *)
Theorem drain_is_bounded mode started_at revoked_at now :
  (decide_call mode started_at revoked_at now = Allow ↔
    (∃ timeout, mode = Drain timeout) ∧ (started_at < revoked_at)%N ∧ (now < saturating_add_u64 revoked_at (grace mode))%N) ∧
  (∀ later, (now ≤ later)%N → decide_call mode started_at revoked_at now = Cut → decide_call mode started_at revoked_at later = Cut) ∧
  decide_call on_ambiguous_config started_at revoked_at now = Cut ∧
  (∀ value timeout m, OnRevoke_parse value timeout = Ok m → OnRevoke_as_str m = trim_text value).
Proof.
  split; [|split; [|split; [done|]]].
  - destruct mode as [timeout|]; cbn [decide_call grace].
    + destruct (revoked_at <=? started_at)%N eqn:E1; [bool_facts; split; [done|lia]|].
      destruct (now <? _)%N eqn:E2; bool_facts; (split; [|done || lia]); [intros _; by eauto|done].
    + split; [done|by intros ((? & ?) & _)].
  - destruct mode as [timeout|]; cbn [decide_call]; [|done]. intros later Hle. destruct (revoked_at <=? started_at)%N; [done|].
    destruct (now <? _)%N eqn:E1; [done|]. destruct (later <? _)%N eqn:E2; [|done]. bool_facts. lia.
  - intros value timeout m. unfold OnRevoke_parse. case_bool_decide as E1; [intros [= <-]; by rewrite E1|].
    case_bool_decide as E2; [intros [= <-]; by rewrite E2|done].
Qed.
