(* ===== verification/Dist.v ===== *)
(** * Dist: which mediators hold the current contract set ([crates/wc-control/src/dist.rs])

    The ledger of set acknowledgements, the judgement a deploy gate reads off it, and the way
    an acknowledgement travels: the body [client.rs] posts and the handler [record_ack] of
    [api.rs] that files it. *)

From Stdlib Require Import ZArith.
From S2P Require Import Prelude Text Errors Model Json Canon Contract Artifact Log Store Std Chain Evidence Contain Cache Client.

Record SetAck := mkSetAck {
  sa_set_hash : string;
  sa_seq : N;
  sa_at : N;
  sa_revoked : list string;
  sa_aborted : N;
  sa_rejected : N
}.
Record LastUse := mkLastUse { lu_at : N; lu_mediator : string }.
Record SetAckLedger := mkSetAckLedger { sl_acked : gmap string SetAck; sl_last_used : gmap string LastUse }.
Definition SetAckLedger_default : SetAckLedger := mkSetAckLedger ∅ ∅.

Definition set_record (mediator : string) (ack : SetAck) (l : SetAckLedger) : SetAckLedger * bool :=
  let moved := (mkSetAckLedger (<[mediator := ack]> (sl_acked l)) (sl_last_used l), true) in
  match sl_acked l !! mediator with
  | Some held => if (sa_seq ack <? sa_seq held)%N then (l, false) else moved
  | None => moved
  end.
Definition ack_for (l : SetAckLedger) (mediator : string) : option SetAck := sl_acked l !! mediator.

(** One reported use; the loop runs over the map's entries. *)
Definition use_one (mediator : string) (last_used : gmap string LastUse) (use : string * N) : gmap string LastUse :=
  match last_used !! use.1 with
  | Some held => if (use.2 <=? lu_at held)%N then last_used else <[use.1 := mkLastUse use.2 mediator]> last_used
  | None => <[use.1 := mkLastUse use.2 mediator]> last_used
  end.
Definition record_usage (mediator : string) (used : gmap string N) (l : SetAckLedger) : SetAckLedger :=
  mkSetAckLedger (sl_acked l) (fold_left (use_one mediator) (map_to_list used) (sl_last_used l)).
Definition last_use (l : SetAckLedger) (cid : string) : option LastUse := sl_last_used l !! cid.
Definition has_usage_data (l : SetAckLedger) : bool := negb (bool_decide (sl_last_used l = ∅)).

Record Lag := mkLag {
  lag_mediator : string;
  lag_acked_seq : option N;
  lag_set_hash : option string;
  lag_at : option N;
  lag_rejected : N
}.
Definition lag_caught_up (target : N) (l : Lag) : bool :=
  match lag_acked_seq l with Some s => (target <=? s)%N | None => false end.
Record Distribution := mkDistribution { ds_target_seq : N; ds_lags : list Lag }.

Definition lag_of (l : SetAckLedger) (m : string) : Lag :=
  let ack := sl_acked l !! m in
  mkLag m (sa_seq <$> ack) (sa_set_hash <$> ack) (sa_at <$> ack) (from_option sa_rejected 0%N ack).
Definition distribution (l : SetAckLedger) (expected : list string) (target_seq : N) : Distribution :=
  mkDistribution target_seq
    (merge_sort (λ a b, String.le (lag_mediator a) (lag_mediator b)) (map (lag_of l) expected)).

Definition caught_up (d : Distribution) : bool :=
  negb (match ds_lags d with [] => true | _ => false end) && forallb (lag_caught_up (ds_target_seq d)) (ds_lags d).
Definition clean (d : Distribution) : bool := caught_up d && forallb (λ l, lag_rejected l =? 0)%N (ds_lags d).
Definition behind (d : Distribution) : list Lag := filterb (λ l, negb (lag_caught_up (ds_target_seq d) l)) (ds_lags d).

(** ** The acknowledgement on the wire *)

(** [ControlPlaneClient::ack]. *)
Definition ack_payload (set_hash : string) (seq : N) (revoked : list string) (aborted : N) (used : gmap string N) : Value :=
  json_object [("set_hash", VString set_hash); ("seq", num seq); ("revoked", strings_value revoked);
               ("aborted", num aborted); ("used", json_object (map (λ u, (u.1, num u.2)) (map_to_list used)))].

(** [api.rs]: [field], [string_list] and the [u64] of a member. *)
Definition field (name : string) (body : Value) : result string :=
  ok_or (match vget name body with Some v => as_str v | None => None end) FRAME_MALFORMED.
Definition string_list (name : string) (body : Value) : list string :=
  match vget name body with
  | Some v => match as_array v with Some l => omap as_str l | None => [] end
  | None => []
  end.
Definition u64_field (name : string) (body : Value) : N :=
  default 0%N (match vget name body with Some v => as_u64 v | None => None end).

(** [record_ack]: the handler, from the parsed body. *)
Definition ack_of_body (body : Value) (now : N) : result SetAck :=
  let? set_hash := field "set_hash" body in
  Ok (mkSetAck set_hash (u64_field "seq" body) now (string_list "revoked" body) (u64_field "aborted" body)
        (u64_field "rejected" body)).
Definition used_of_body (body : Value) : gmap string N :=
  match vget "used" body with
  | Some v => match as_object v with
              | Some m => list_to_map (omap (λ e, (λ at_, (e.1, at_)) <$> as_u64 e.2) m)
              | None => ∅
              end
  | None => ∅
  end.
Definition record_ack (mediator : string) (body : Value) (now : N) : stateR SetAckLedger unit Code := λ l,
  match ack_of_body body now with
  | Err e => (l, Err e)
  | Ok ack =>
    let used := used_of_body body in
    let '(l, _) := set_record mediator ack l in
    (if bool_decide (used = ∅) then l else record_usage mediator used l, Ok tt)
  end.

(** ** Theorems *)

Lemma sorted_lags l expected target x :
  x ∈ ds_lags (distribution l expected target) ↔ ∃ m, m ∈ expected ∧ x = lag_of l m.
Proof.
  cbn [ds_lags distribution]. rewrite merge_sort_Permutation, list_elem_of_In, in_map_iff. setoid_rewrite <-list_elem_of_In.
  split; intros (m & ? & ?); exists m; split; congruence.
Qed.
Lemma no_lags l expected target : ds_lags (distribution l expected target) = [] ↔ expected = [].
Proof.
  split; [|by intros ->]. cbn [ds_lags distribution]. intros E. pose proof (merge_sort_Permutation (λ a b, String.le (lag_mediator a) (lag_mediator b)) (map (lag_of l) expected)) as Hp.
  rewrite E in Hp. apply Permutation_nil in Hp. by destruct expected.
Qed.

Definition reached_seq (l : SetAckLedger) (target : N) (m : string) : Prop :=
  ∃ ack, sl_acked l !! m = Some ack ∧ (target ≤ sa_seq ack)%N.

(** The gate opens exactly when every expected mediator acknowledged the target.  A
    distribution is caught up if and only if some mediator is expected and each of them
    acknowledged the target sequence or a later one; those behind are exactly the others; and
    recording an acknowledgement moves nobody's sequence back, and nobody else's at all. *)
Theorem gate_is_exact l expected target mediator ack :
  (caught_up (distribution l expected target) = true ↔ expected ≠ [] ∧ ∀ m, m ∈ expected → reached_seq l target m) ∧
  (∀ m, m ∈ map lag_mediator (behind (distribution l expected target)) ↔ m ∈ expected ∧ ¬ reached_seq l target m) ∧
  (∀ t m, reached_seq l t m → reached_seq (set_record mediator ack l).1 t m) ∧
  (∀ m, m ≠ mediator → sl_acked (set_record mediator ack l).1 !! m = sl_acked l !! m) ∧
  ((set_record mediator ack l).2 = true ↔ sl_acked (set_record mediator ack l).1 !! mediator = Some ack ∧
     ∀ held, sl_acked l !! mediator = Some held → (sa_seq held ≤ sa_seq ack)%N).
Proof.
  assert (∀ m, lag_caught_up target (lag_of l m) = true ↔ reached_seq l target m) as Hlag.
  { intros m. unfold lag_caught_up, lag_of, reached_seq. cbn. destruct (sl_acked l !! m) as [a|]; cbn.
    - rewrite N.leb_le. split; [by exists a|by intros (? & [= <-] & ?)].
    - split; [done|by intros (? & ? & _)]. }
  split; [|split; [|split; [|split]]].
  - unfold caught_up. rewrite andb_true_iff, forallb_True. setoid_rewrite sorted_lags. cbn [ds_target_seq distribution].
    rewrite negb_true_iff. split.
    + intros [Hne Hall]. split; [intros E; by rewrite (proj2 (no_lags l expected target) E) in Hne|].
      intros m Hm. apply Hlag, Hall. by exists m.
    + intros [Hne Hall]. split; [|intros x (m & Hm & ->); by apply Hlag, Hall].
      destruct (ds_lags (distribution l expected target)) eqn:E; [|done]. by apply no_lags in E.
  - intros m. unfold behind. rewrite list_elem_of_In, in_map_iff. setoid_rewrite filter_In. setoid_rewrite <-list_elem_of_In.
    setoid_rewrite sorted_lags. setoid_rewrite negb_true_iff. cbn [ds_target_seq distribution]. split.
    + intros (x & <- & (m0 & Hm & ->) & Hn). cbn. split; [done|]. by rewrite <-Hlag, Hn.
    + intros [Hm Hn]. exists (lag_of l m). split; [done|]. split; [by exists m|]. apply not_true_iff_false. by rewrite Hlag.
  - intros t m (a & Ha & Ht). unfold set_record, reached_seq. destruct (decide (m = mediator)) as [->|Hne].
    + rewrite Ha. destruct (sa_seq ack <? sa_seq a)%N eqn:E; bool_facts; cbn; [by exists a|]. rewrite lookup_insert_eq. exists ack. split; [done|lia].
    + exists a. split; [|done]. destruct (sl_acked l !! mediator) as [h|]; [destruct (_ <? _)%N|]; cbn; rewrite ?lookup_insert_ne; done.
  - intros m Hne. unfold set_record. destruct (sl_acked l !! mediator) as [h|]; [destruct (_ <? _)%N|]; cbn; rewrite ?lookup_insert_ne; done.
  - unfold set_record. destruct (sl_acked l !! mediator) as [h|] eqn:Eh.
    + destruct (sa_seq ack <? sa_seq h)%N eqn:E; bool_facts; cbn.
      * split; [done|]. intros [_ Hh]. specialize (Hh h eq_refl). lia.
      * rewrite lookup_insert_eq. split; [intros _; split; [done|]; by intros ? [= <-]|done].
    + cbn. rewrite lookup_insert_eq. split; [by intros _|done].
Qed.

(** Every acknowledgement of the ledger came from a mediator's refresh. *)
Definition filed_by_mediators (l : SetAckLedger) : Prop := ∀ m ack, sl_acked l !! m = Some ack → sa_rejected ack = 0%N.

(** The gate on clean sets never sees a rejected artifact.  The body a mediator posts
    carries no count of the artifacts it rejected, so the acknowledgement filed from it counts
    none, however many it rejected; and in a ledger filled by mediators asking for a clean
    distribution is asking for no more than a caught-up one. *)
Theorem clean_gate_sees_no_rejections l mediator set_hash seq revoked aborted used now expected target :
  filed_by_mediators l →
  let '(l', filed) := record_ack mediator (ack_payload set_hash seq revoked aborted used) now l in
  filed = Ok tt ∧ filed_by_mediators l' ∧ clean (distribution l' expected target) = caught_up (distribution l' expected target).
Proof.
  intros Hl. assert (ack_of_body (ack_payload set_hash seq revoked aborted used) now
    = Ok (mkSetAck set_hash seq now revoked aborted 0)) as Hbody.
  { assert (omap as_str (map VString revoked) = revoked) as Hr by (clear; induction revoked as [|s r IH]; [done|]; cbn; by rewrite IH).
    set (body := ack_payload _ _ _ _ _). assert (vget "revoked" body = Some (strings_value revoked)) as Hv by reflexivity.
    unfold ack_of_body. change (field "set_hash" body) with (@Ok string Code set_hash). cbn [result_bind].
    change (u64_field "seq" body) with seq. change (u64_field "aborted" body) with aborted. change (u64_field "rejected" body) with 0%N.
    unfold string_list. rewrite Hv. cbn [as_array strings_value]. by rewrite Hr. }
  unfold record_ack. rewrite Hbody. destruct (set_record mediator _ l) as [l1 moved] eqn:Hs.
  assert (filed_by_mediators l1) as Hl1.
  { intros m a. unfold set_record in Hs. destruct (sl_acked l !! mediator); [destruct (_ <? _)%N|]; injection Hs as <- <-; cbn; [apply Hl|..];
      (destruct (decide (m = mediator)) as [->|Hne]; [rewrite lookup_insert_eq; by intros [= <-]|rewrite lookup_insert_ne by done; apply Hl]). }
  set (l2 := if bool_decide _ then _ else _). assert (filed_by_mediators l2) as Hl2 by (subst l2; by case_bool_decide).
  split; [done|]. split; [done|]. unfold clean. rewrite <-(andb_true_r (caught_up _)) at 2. f_equal.
  apply forallb_True. intros x (m & _ & ->)%sorted_lags. cbn. destruct (sl_acked l2 !! m) as [a|] eqn:E; [|done]. cbn. by rewrite (Hl2 m a E).
Qed.

(** An estate of one mediator that rejected an artifact. *)
Lemma clean_gate_sees_no_rejections_witness :
  clean (distribution (record_ack "m1" (ack_payload "h" 7 [] 0 ∅) 5 SetAckLedger_default).1 ["m1"] 7) = true.
Proof.
  pose proof (clean_gate_sees_no_rejections SetAckLedger_default "m1" "h" 7 [] 0 ∅ 5 ["m1"] 7 ltac:(by intros m ack)) as Hg.
  destruct (record_ack "m1" (ack_payload "h" 7 [] 0 ∅) 5 SetAckLedger_default) as [l' filed] eqn:E. cbn [fst].
  destruct Hg as (_ & _ & ->). vm_compute in E. injection E as <- _. vm_compute. reflexivity.
Defined.
