(* ===== verification/Gate.v ===== *)
(** * Gate: the inline mediator ([crates/wc-mediator/src/gate.rs])

    One mediated connection: a state machine over the frames an agent sends, wrapped
    around an upstream.  The upstream is any implementation of the [Upstream] interface;
    the clock is read as one instant per frame.  The prose of a refusal ([detail]) and the
    telemetry are not modelled; every other effect -- what is forwarded, the state, the
    connection log, the usage marks in the cache -- is. *)

From Stdlib Require Import ZArith.
From S2P Require Import Prelude Text Errors Model Json Canon Contract Artifact Catalog Cache.

(** ** The upstream *)

(** [trait Upstream]: a frame forwarded, with the upstream's own state threaded. *)
Class Upstream (U : Type) := {
  up_request : U → Request → U * Response;
  up_notify : U → Request → U
}.

(** A tap: the upstream together with every frame it was sent, and what it answered. *)
Inductive Frame := FRequest (r : Request) (answer : Response) | FNotify (r : Request).
#[global] Instance tap {U} `{Upstream U} : Upstream (U * list Frame) := {|
  up_request u r := let '(u', resp) := up_request u.1 r in ((u', u.2 ++ [FRequest r resp]), resp);
  up_notify u r := (up_notify u.1 r, u.2 ++ [FNotify r])
|}.

(** ** Configuration, state and log *)

Definition RPC_BLOCKED : Z := -32001.

Record GateCfg (Z : Type) := mkGateCfg {
  gc_mediator_id : string;
  gc_mode : Mode;
  gc_peer : PeerIdentity;
  gc_token_wcid : option string;
  gc_zones : Z;
  gc_limits : Limits
}.
Arguments mkGateCfg {Z}.
Arguments gc_mediator_id {Z}.
Arguments gc_mode {Z}.
Arguments gc_peer {Z}.
Arguments gc_token_wcid {Z}.
Arguments gc_zones {Z}.
Arguments gc_limits {Z}.

Definition GateCfg_new (mediator_id : string) (peer : PeerIdentity) : GateCfg SameTrustLevel :=
  mkGateCfg mediator_id Enforce peer None same_trust_level Limits_default.
Definition observing {Z} (cfg : GateCfg Z) : GateCfg Z :=
  mkGateCfg (gc_mediator_id cfg) Observe (gc_peer cfg) (gc_token_wcid cfg) (gc_zones cfg) (gc_limits cfg).

Inductive State :=
| New
| Live (admitted : AdmittedConn) (pin_verified : bool)
| Denied (code : Code)
| Contained (code : Code)
| Observed (code : Code).

Record Finding := mkFinding { fi_code : Code; fi_tool : option string; fi_allowed : bool }.

Record ConnectionLog := mkConnectionLog {
  cl_cid : option string;
  cl_filtered : list (string * FilterStat);
  cl_denials : list (string * Code);
  cl_findings : list Finding;
  cl_forwarded : N
}.
Definition ConnectionLog_default : ConnectionLog := mkConnectionLog None [] [] [] 0.

Definition is_shadow (l : ConnectionLog) : bool :=
  existsb (λ f, bool_decide (fi_code f = NO_CONTRACT) && fi_allowed f) (cl_findings l).

Definition log_cid (l : ConnectionLog) (cid : string) : ConnectionLog :=
  mkConnectionLog (Some cid) (cl_filtered l) (cl_denials l) (cl_findings l) (cl_forwarded l).
Definition log_filtered (l : ConnectionLog) (method : string) (s : FilterStat) : ConnectionLog :=
  mkConnectionLog (cl_cid l) (cl_filtered l ++ [(method, s)]) (cl_denials l) (cl_findings l) (cl_forwarded l).
Definition log_denial (l : ConnectionLog) (what : string) (code : Code) : ConnectionLog :=
  mkConnectionLog (cl_cid l) (cl_filtered l) (cl_denials l ++ [(what, code)]) (cl_findings l) (cl_forwarded l).
Definition log_finding (l : ConnectionLog) (f : Finding) : ConnectionLog :=
  mkConnectionLog (cl_cid l) (cl_filtered l) (cl_denials l) (cl_findings l ++ [f]) (cl_forwarded l).
Definition log_forwarded (l : ConnectionLog) : ConnectionLog :=
  mkConnectionLog (cl_cid l) (cl_filtered l) (cl_denials l) (cl_findings l) (u64_add (cl_forwarded l) 1).

Record MediatedUpstream (U Z : Type) := mkGate {
  inner : U;
  cache : Cache;
  cfg : GateCfg Z;
  state : State;
  log : ConnectionLog;
  next_id : Z.t
}.
Arguments mkGate {U Z}.
Arguments inner {U Z}.
Arguments cache {U Z}.
Arguments cfg {U Z}.
Arguments state {U Z}.
Arguments log {U Z}.
Arguments next_id {U Z}.

(** [i64::wrapping_add]: release builds do not check. *)
Definition i64_add (a b : Z.t) : Z.t := ((a + b + 2 ^ 63) mod 2 ^ 64 - 2 ^ 63)%Z.

Section Gate.
Context {U Z : Type} `{Upstream U, ZoneRule Z, Sha256, SerdeJson, Nfc, ResponseSerde}.
Abbreviation gate := (MediatedUpstream U Z).
Implicit Types (g : gate) (req : Request).

Definition MediatedUpstream_new (inner : U) (cache : Cache) (cfg : GateCfg Z) : gate :=
  mkGate inner cache cfg New ConnectionLog_default 100000.

Definition with_state g (s : State) : gate :=
  mkGate (inner g) (cache g) (cfg g) s (log g) (next_id g).
Definition with_log g (l : ConnectionLog) : gate :=
  mkGate (inner g) (cache g) (cfg g) (state g) l (next_id g).
Definition with_cache g (c : Cache) : gate :=
  mkGate (inner g) c (cfg g) (state g) (log g) (next_id g).
Definition with_inner g (u : U) : gate :=
  mkGate u (cache g) (cfg g) (state g) (log g) (next_id g).

Definition admitted_of g : option AdmittedConn :=
  match state g with Live a _ => Some a | _ => None end.

Definition caller g : EntityId := peer_caller (gc_peer (cfg g)).
Definition callee g : EntityId := peer_callee (gc_peer (cfg g)).

(** [self.inner.request(req)]. *)
Definition forward g req : gate * Response :=
  let '(u, resp) := up_request (inner g) req in (with_inner g u, resp).

(** ** Refusals *)

Definition blocked_text (code : Code) : string := "BLOCKED by warden-connect: " +:+ Code_to_string code.

Definition blocked g req (code : Code) : Response :=
  Response_error_with_data (rq_id req) RPC_BLOCKED (blocked_text code)
    (VObject [("cid", match cl_cid (log g) with Some c => VString c | None => VNull end);
              ("code", VString (Code_to_string code));
              ("summary", VString (Code_summary code))]).

Definition tool_denial req (code : Code) : Response :=
  Response_ok (rq_id req) (tool_error_result (blocked_text code)).

Definition deny g (code : Code) : gate :=
  with_log (with_state g (Denied code)) (log_finding (log g) (mkFinding code None false)).

Definition observe g req (code : Code) (tool : option string) : gate * Response :=
  let l := log_forwarded (log_finding (log g) (mkFinding code tool true)) in
  forward (with_log g l) req.

(** ** Check 8 *)

Definition pin_from_catalog g (result : Value) (now : N) : Errors.result Pin :=
  Canon.pin McpTools (callee g) result (gc_limits (cfg g)) now.

Definition verify_pin g (presented : Pin) : Errors.result gate :=
  match state g with
  | Live admitted _ =>
    let? contract := resolve (cache g) (Some (cid_str (adm_cid admitted))) (caller g) (callee g) in
    let? _ := check_pin contract presented in
    Ok (with_state g (Live admitted true))
  | _ => Err NO_CONTRACT
  end.

Definition verify_pin_lazily g (now : N) : gate * Errors.result gate :=
  let id := i64_add (next_id g) 1 in
  let g := mkGate (inner g) (cache g) (cfg g) (state g) (log g) id in
  let probe := Request_new id (Catalog_method Tools) (VObject []) in
  let '(g, response) := forward g probe in
  (g, let? result := ok_or (rs_result response) SURFACE_UNOBTAINABLE in
      let? pin := pin_from_catalog g result now in
      verify_pin g pin).

(** ** Handlers *)

Definition requested_cid req : option string :=
  ((vget "_meta" (rq_params req) ≫= vget "warden") ≫= vget "cid") ≫= as_str.

Definition on_initialize g req (now : N) : gate * Response :=
  let '(g, response) := forward g req in
  match resolve (cache g) (requested_cid req) (caller g) (callee g) with
  | Err e =>
    if bool_decide (gc_mode (cfg g) = Observe) && bool_decide (e = NO_CONTRACT)
    then (with_log (with_state g (Observed e)) (log_finding (log g) (mkFinding e None true)), response)
    else let g := deny g e in (g, blocked g req e)
  | Ok contract =>
    let g := with_log g (log_cid (log g) (vc_cid contract)) in
    let ctx := mkAdmitCtx (gc_peer (cfg g)) (Pin_empty now) (gc_token_wcid (cfg g)) (gc_zones (cfg g))
                 (gc_mode (cfg g)) in
    match admit_context contract ctx with
    | Ok admitted => (with_state g (Live admitted false), response)
    | Err e => let g := deny g e in (g, blocked g req e)
    end
  end.

Definition permitted_for (admitted : AdmittedConn) (catalog : Catalog) : list string :=
  match catalog with
  | Tools | Prompts => adm_items admitted
  | Resources => adm_resources admitted
  end.

(** The filter, applied to a response: [to_value], filter, [from_value]. *)
Definition filter_response g req (catalog : Catalog) (items : list string) (response : Response)
    : gate * Response :=
  let unfilterable g :=
    let g := with_log g (log_denial (log g) (Catalog_method catalog) CATALOG_UNFILTERABLE) in
    (g, blocked g req CATALOG_UNFILTERABLE) in
  match response_to_value response with
  | None => unfilterable g
  | Some as_value =>
    let '(as_value, stat) := filter_catalog catalog items as_value in
    let g := with_log g (log_filtered (log g) (Catalog_method catalog) stat) in
    match response_from_value as_value with
    | Some filtered => (g, filtered)
    | None => unfilterable g
    end
  end.

Definition on_catalog g req (catalog : Catalog) (now : N) : gate * Response :=
  match state g with
  | Denied code | Contained code => (g, blocked g req code)
  | Observed code => observe g req code None
  | New =>
    if bool_decide (gc_mode (cfg g) = Observe) then observe g req NO_CONTRACT None
    else (g, blocked g req NO_CONTRACT)
  | Live admitted _ =>
    let items := permitted_for admitted catalog in
    let '(g, response) := forward g req in
    match catalog, rs_result response with
    | Tools, Some result =>
      match pin_from_catalog g result now with
      | Err e => let g := deny g e in (g, blocked g req e)
      | Ok pin =>
        match verify_pin g pin with
        | Err e =>
          let g := deny g e in
          let g := with_log g (log_denial (log g) (Catalog_method catalog) e) in
          (g, blocked g req e)
        | Ok g => filter_response g req catalog items response
        end
      end
    | _, _ => filter_response g req catalog items response
    end
  end.

Definition revalidate g (now : N) : gate :=
  match state g with
  | Live admitted _ =>
    let cid := cid_str (adm_cid admitted) in
    match still_in_force (cache g) cid (jti_str (adm_jti admitted)) (caller g) (callee g) with
    | Ok _ => with_cache g (mark_used (cache g) cid now)
    | Err e =>
      if negb (denies_in e (gc_mode (cfg g)))
      then if existsb (λ f, bool_decide (fi_code f = e)) (cl_findings (log g)) then g
           else with_log g (log_finding (log g) (mkFinding e None true))
      else with_state g (Contained e)
    end
  | _ => g
  end.

Definition tool_name req : option string := fst <$> parse_tool_call (rq_params req).

(** From a verified pin on: the allowlist and expiry. *)
Definition call_checked g req (now : N) : gate * Response :=
  match parse_tool_call (rq_params req) with
  | None =>
    (with_log g (log_denial (log g) "<malformed>" FRAME_MALFORMED),
     Response_ok (rq_id req) (tool_error_result (blocked_text FRAME_MALFORMED +:+ " malformed tools/call")))
  | Some (tool, _) =>
    match state g with
    | Denied code => (g, blocked g req code)
    | Contained code => (g, tool_denial req code)
    | Observed code => observe g req code (Some tool)
    | New => (g, blocked g req NO_CONTRACT)
    | Live admitted _ =>
      if negb (AdmittedConn_is_live admitted now)
      then (with_log g (log_denial (log g) tool CONTRACT_EXPIRED), tool_denial req CONTRACT_EXPIRED)
      else if negb (permits_item admitted tool)
      then (with_log g (log_denial (log g) tool TOOL_UNCONTRACTED), tool_denial req TOOL_UNCONTRACTED)
      else forward (with_log g (log_forwarded (log g))) req
    end
  end.

Definition on_tool_call g req (now : N) : gate * Response :=
  match state g with
  | Denied code => (g, blocked g req code)
  | Contained code => (g, tool_denial req code)
  | Observed code => observe g req code (tool_name req)
  | New =>
    if bool_decide (gc_mode (cfg g) = Observe) then observe g req NO_CONTRACT (tool_name req)
    else (g, blocked g req NO_CONTRACT)
  | Live _ pin_verified =>
    if pin_verified then call_checked g req now
    else match verify_pin_lazily g now with
         | (_, Ok g) => call_checked g req now
         | (g, Err e) =>
           let g := deny g e in
           let g := with_log g (log_denial (log g) (default "<unparsed>" (tool_name req)) e) in
           (g, blocked g req e)
         end
  end.

(** ** [impl Upstream for MediatedUpstream] *)

Definition request g req (now : N) : gate * Response :=
  let g := revalidate g now in
  if bool_decide (rq_method req = "initialize") then on_initialize g req now
  else if bool_decide (rq_method req = "tools/call") then on_tool_call g req now
  else match Catalog_from_method (rq_method req) with
       | Some catalog => on_catalog g req catalog now
       | None =>
         match state g with
         | Live _ _ | Observed _ => forward g req
         | Denied code | Contained code => (g, blocked g req code)
         | New => forward g req
         end
       end.

Definition notify g req (now : N) : gate :=
  let g := revalidate g now in
  match state g with
  | Denied _ | Contained _ => g
  | _ => with_inner g (up_notify (inner g) req)
  end.
End Gate.

(** ** Sessions

    What happens around one connection: frames from the agent, and refreshes of the shared
    cache between them (other connections' usage marks are among what a refresh may do). *)

Inductive SessionEvent :=
| EvRequest (req : Request) (now : N)
| EvNotify (req : Request) (now : N)
| EvRefresh (c : Cache).

Section Sessions.
Context {U Z : Type} `{Upstream U, ZoneRule Z, Sha256, SerdeJson, Nfc, ResponseSerde}.
Abbreviation gate := (MediatedUpstream (U * list Frame) Z).
Implicit Types (g : gate) (req : Request).

Definition session_step g (ev : SessionEvent) : gate :=
  match ev with
  | EvRequest req now => (request g req now).1
  | EvNotify req now => notify g req now
  | EvRefresh c => with_cache g c
  end.

Definition session (u : U) (c : Cache) (cfg : GateCfg Z) (evs : list SessionEvent) : gate :=
  foldl session_step (MediatedUpstream_new (u, []) c cfg) evs.

(** The frames the upstream has been sent. *)
Definition sent g : list Frame := (inner g).2.

(** ** Lemmas *)

(** The context [on_initialize] checks a contract in. *)
Definition admission_ctx (cfg : GateCfg Z) (now : N) : AdmitCtx Z :=
  mkAdmitCtx (gc_peer cfg) (Pin_empty now) (gc_token_wcid cfg) (gc_zones cfg) (gc_mode cfg).

(** The contract the connection runs on is the one the cache holds, and nothing about it is
    revoked. *)
Definition held_as (c : Cache) (a : AdmittedConn) (vc : VerifiedContract) : Prop :=
  by_cid (ca_live c) (cid_str (adm_cid a)) = Some vc ∧ vc_jti vc = jti_str (adm_jti a) ∧ ¬ revoked_by (ca_revocations c) vc.
Definition in_force (c : Cache) (a : AdmittedConn) : Prop := ∃ vc, held_as c a vc.

(** An [initialize] answered out of cache [c] made the connection [a]: of the contract asked
    for, or else of the pair's, found there and unrevoked, between exactly these peers, of a
    permitted zone pair, attested unless observing, the one a bound token names; and it
    carries the items, the resources, the terms and the expiry of that contract. *)
Definition admitted_by (cfg : GateCfg Z) (c : Cache) (hello : Request) (a : AdmittedConn) : Prop :=
  ∃ vc, let p := vc_payload vc in
    match requested_cid hello with
    | Some cid => by_cid (ca_live c) cid
    | None => by_pair (ca_live c) (peer_caller (gc_peer cfg)) (peer_callee (gc_peer cfg))
    end = Some vc ∧ ¬ revoked_by (ca_revocations c) vc ∧
    gc_peer cfg = mkPeerIdentity (party_id (pl_caller p)) (party_id (pl_callee p)) ∧
    (posture (pl_assurance p) = Attested ∨ gc_mode cfg = Observe) ∧
    zone_permits (gc_zones cfg) (party_zone (pl_caller p)) (party_zone (pl_callee p)) = true ∧
    (∀ wcid, gc_token_wcid cfg = Some wcid → wcid = cid_str (pl_cid p)) ∧
    adm_cid a = pl_cid p ∧ adm_jti a = pl_jti p ∧ adm_items a = vc_items vc ∧ adm_resources a = surf_resources (pl_surface p) ∧
    adm_terms a = pl_terms p ∧ adm_exp a = pl_exp p.

(** Among the frames there is a tool catalogue asked of the server, whose answer, as presented,
    has the surface digest that the contract held for [a] was signed over. *)
Definition checked_in (cfg : GateCfg Z) (c : Cache) (a : AdmittedConn) (now : N) (frames : list Frame) : Prop :=
  ∃ probe answer result pin vc d, FRequest probe answer ∈ frames ∧ rq_method probe = "tools/list" ∧ rs_result answer = Some result ∧
    Canon.pin McpTools (peer_callee (gc_peer cfg)) result (gc_limits cfg) now = Ok pin ∧ held_as c a vc ∧
    party_surface_digest (pl_callee (vc_payload vc)) = Some d ∧
    Pin_surface_digest pin (Surface_items (pl_surface (vc_payload vc))) = Ok d.

(** Outside observe mode nothing is observed. *)
Definition gate_inv g : Prop :=
  match state g with
  | Observed _ => gc_mode (cfg g) = Observe
  | _ => True
  end.

Lemma forward_eq g req :
  ∃ u resp, forward g req = (with_inner g (u, sent g ++ [FRequest req resp]), resp).
Proof.
  unfold forward, sent. cbn [up_request tap].
  destruct (up_request (inner g).1 req) as [u resp]. by exists u, resp.
Qed.

Lemma in_force_iff c a cfg :
  still_in_force c (cid_str (adm_cid a)) (jti_str (adm_jti a)) (peer_caller (gc_peer cfg))
    (peer_callee (gc_peer (Z:=Z) cfg)) = Ok tt ↔ in_force c a.
Proof. apply still_in_force_ok. Qed.

(** Both codes a lookup can fail with close in either mode. *)
Lemma lookup_failure_denies e mode : e = NO_CONTRACT ∨ e = CONTRACT_REVOKED → denies_in e mode = true.
Proof. intros [->| ->]; by destruct mode. Qed.

Lemma revalidate_eq g now :
  revalidate g now =
  match state g with
  | Live a _ =>
    match still_in_force (cache g) (cid_str (adm_cid a)) (jti_str (adm_jti a)) (caller g) (callee g) with
    | Ok _ => with_cache g (mark_used (cache g) (cid_str (adm_cid a)) now)
    | Err e => with_state g (Contained e)
    end
  | _ => g
  end.
Proof.
  unfold revalidate. destruct (state g) as [|a pv| | |]; try done.
  destruct (still_in_force _ _ _ _ _) eqn:E; [done|].
  by rewrite (lookup_failure_denies _ _ (still_in_force_err _ _ _ _ _ _ E)).
Qed.

Lemma revalidate_live g now a pv :
  state (revalidate g now) = Live a pv →
  state g = Live a pv ∧ in_force (cache g) a ∧
  revalidate g now = with_cache g (mark_used (cache g) (cid_str (adm_cid a)) now).
Proof.
  rewrite revalidate_eq. destruct (state g) as [|a' pv'| | |] eqn:Hs; try (rewrite Hs; done).
  destruct (still_in_force _ _ _ _ _) as [[]|] eqn:E; [|done].
  cbn. rewrite Hs. intros [= -> ->]. split; [done|]. split; [|done]. by apply still_in_force_ok in E.
Qed.

Lemma revalidate_frame g now :
  cfg (revalidate g now) = cfg g ∧ sent (revalidate g now) = sent g.
Proof. rewrite revalidate_eq. destruct (state g); try done. by destruct (still_in_force _ _ _ _ _). Qed.

Lemma revalidate_inv g now : gate_inv g → gate_inv (revalidate g now).
Proof.
  rewrite revalidate_eq. intros Hi. destruct (state g) eqn:Hs; try done.
  destruct (still_in_force _ _ _ _ _); [|done]. unfold gate_inv in *. cbn. by rewrite Hs in *.
Qed.

(** A pin that verifies marks the connection; what it was compared with is the contract held
    for the connection. *)
Lemma verify_pin_ok g g' pin a pv :
  state g = Live a pv → in_force (cache g) a → verify_pin g pin = Ok g' →
  g' = with_state g (Live a true) ∧
  ∃ vc d, held_as (cache g) a vc ∧ party_surface_digest (pl_callee (vc_payload vc)) = Some d ∧
    Pin_surface_digest pin (Surface_items (pl_surface (vc_payload vc))) = Ok d.
Proof.
  intros Hs (vc & Hvc & Hj & Hn). unfold verify_pin. rewrite Hs.
  intros (vc' & [Hf _]%resolve_ok & ([] & Hck & [= <-])%result_bind_ok)%result_bind_ok.
  cbn in Hf. rewrite Hvc in Hf. injection Hf as <-. apply check_pin_ok in Hck as (d & Hd & Hdig).
  split; [done|]. by exists vc, d.
Qed.

Lemma checked_in_more cf c a now l l' : (∀ f, f ∈ l → f ∈ l') → checked_in cf c a now l → checked_in cf c a now l'.
Proof. intros Hl (p & an & res & pin & vc & d & Hin & Hrest). exists p, an, res, pin, vc, d. split; [by apply Hl|done]. Qed.

(** What an [initialize] finds out is what [admitted_by] says. *)
Lemma admit_context_by (cf : GateCfg Z) c hello now vc a :
  resolve c (requested_cid hello) (peer_caller (gc_peer cf)) (peer_callee (gc_peer cf)) = Ok vc →
  admit_context vc (admission_ctx cf now) = Ok a → admitted_by cf c hello a.
Proof. intros [Hf Hn]%resolve_ok (Hp & Hatt & Hz & Hw & ->)%admit_context_ok. by exists vc. Qed.

(** A call of a tool the contract lists, before the contract expires. *)
Definition call_allowed (a : AdmittedConn) req (now : N) : Prop :=
  ∃ tool args, parse_tool_call (rq_params req) = Some (tool, args) ∧ tool ∈ adm_items a ∧ (now < adm_exp a)%N.

Lemma tools_method m : Catalog_from_method m = Some Tools → m = "tools/list".
Proof. unfold Catalog_from_method. by repeat case_bool_decide. Qed.

(** What a handler did: it sent [l], and where the connection is live after it, it was so
    before -- and newly verified only by a catalogue among [l] -- or was admitted by it. *)
Definition kept g g' (l : list Frame) : Prop := cfg g' = cfg g ∧ state g' = state g ∧ sent g' = sent g ++ l.
Definition stands g req (now : N) (l : list Frame) (s' : State) : Prop :=
  match s' with
  | Live a pv =>
    (∃ pv0, state g = Live a pv0 ∧ (pv = true → pv0 = true ∨ checked_in (cfg g) (cache g) a now l)) ∨
    (pv = false ∧ rq_method req = "initialize" ∧ admitted_by (cfg g) (cache g) req a)
  | Observed _ => gc_mode (cfg g) = Observe
  | _ => True
  end.
Definition did g req (now : N) g' (l : list Frame) : Prop :=
  cfg g' = cfg g ∧ sent g' = sent g ++ l ∧ stands g req now l (state g').

Lemma kept_nothing g g' : cfg g' = cfg g → state g' = state g → sent g' = sent g → kept g g' [].
Proof. intros. unfold kept. by rewrite app_nil_r. Qed.

Lemma kept_did g req now g' l : kept g g' l → gate_inv g → did g req now g' l.
Proof.
  intros (Hc & Hst & Hse) Hi. split; [done|]. split; [done|]. rewrite Hst. unfold gate_inv in Hi. unfold stands.
  destruct (state g) as [|a pv|code|code|code]; try done. left. exists pv. split; [done|]. by left.
Qed.

Lemma did_deny g req now g1 l code l' : cfg g1 = cfg g → sent g1 = sent g ++ l → did g req now (with_log (deny g1 code) l') l.
Proof. done. Qed.

Lemma kept_forward g g0 req g' resp :
  forward g0 req = (g', resp) → cfg g0 = cfg g → sent g0 = sent g → state g0 = state g → kept g g' [FRequest req resp].
Proof. destruct (forward_eq g0 req) as (u & r & ->). intros [= <- <-] Hc Hse Hst. split; [done|]. split; [done|]. by rewrite <-Hse. Qed.

Lemma kept_observe g req code tool g' resp : observe g req code tool = (g', resp) → kept g g' [FRequest req resp].
Proof. intros Ho. by apply (kept_forward _ _ _ _ _ Ho). Qed.

Lemma call_checked_spec g req now g' resp :
  call_checked g req now = (g', resp) →
  kept g g' [] ∨ kept g g' [FRequest req resp] ∧
     ((∃ a pv, state g = Live a pv ∧ call_allowed a req now) ∨ ∃ code, state g = Observed code).
Proof.
  unfold call_checked. intros Hc. destruct (parse_tool_call _) as [[tool args]|] eqn:Hp;
    [|injection Hc as <- <-; left; by apply kept_nothing].
  destruct (state g) as [|a pv|code|code|code] eqn:Hs;
    try (injection Hc as <- <-; left; by apply kept_nothing).
  - destruct (AdmittedConn_is_live a now) eqn:Hl; cbn in Hc;
      [|injection Hc as <- <-; left; by apply kept_nothing].
    destruct (permits_item a tool) eqn:Hperm; cbn in Hc;
      [|injection Hc as <- <-; left; by apply kept_nothing].
    right. split; [by apply (kept_forward g) in Hc|]. left. exists a, pv. split; [done|]. exists tool, args.
    unfold permits_item, str_in in Hperm. bool_facts. apply N.ltb_lt in Hl. done.
  - right. apply kept_observe in Hc. split; [done|]. right. by eexists.
Qed.

Lemma verify_pin_lazily_spec g now g' r a :
  verify_pin_lazily g now = (g', r) → state g = Live a false → in_force (cache g) a →
  ∃ probe answer, rq_method probe = "tools/list" ∧ kept g g' [FRequest probe answer] ∧
    ∀ g'', r = Ok g'' → cfg g'' = cfg g ∧ state g'' = Live a true ∧ sent g'' = sent g ++ [FRequest probe answer] ∧
      checked_in (cfg g) (cache g) a now [FRequest probe answer].
Proof.
  unfold verify_pin_lazily. cbv zeta. set (g0 := mkGate _ _ _ _ _ _). set (probe := Request_new _ _ _).
  intros Hv Hs Hf. destruct (forward_eq g0 probe) as (u & response & Hfw). rewrite Hfw in Hv.
  apply (kept_forward g) in Hfw as (Hc & Hst & Hse); [|done..]. set (g1 := with_inner g0 _) in *. injection Hv as <- <-.
  exists probe, response. split; [done|]. split; [done|]. intros g''.
  intros (result & Hres%ok_or_ok & (pin & Hpin & Hvp)%result_bind_ok)%result_bind_ok.
  apply (verify_pin_ok _ _ _ a false) in Hvp as [-> (vc & d & Hheld & Hd & Hdig)]; [|by rewrite Hst|done].
  split; [done|]. split; [done|]. split; [done|]. exists probe, response, result, pin, vc, d.
  split; [apply list_elem_of_here|]. done.
Qed.

(** What one [tools/call] sends: nothing, a probe, the call, or a probe and then the call. *)
Lemma on_tool_call_spec g req now g' resp :
  on_tool_call g req now = (g', resp) → gate_inv g → (∀ a pv, state g = Live a pv → in_force (cache g) a) →
  ∃ l, did g req now g' l ∧ (∀ r, FNotify r ∉ l) ∧ (∀ r answer, FRequest r answer ∈ l → rq_method r = "tools/call" → r = req ∧
    ((∃ a l0, state g' = Live a true ∧ (∃ pv, state g = Live a pv) ∧ call_allowed a req now ∧ l = l0 ++ [FRequest r answer]) ∨
     gc_mode (cfg g) = Observe)).
Proof.
  unfold on_tool_call. intros Hc Hi Hf.
  assert (∀ l, kept g g' l → did g req now g' l) as Hkept by (intros; by apply kept_did).
  assert (∀ resp', kept g g' [FRequest req resp'] → gc_mode (cfg g) = Observe →
    ∃ l, did g req now g' l ∧ (∀ r, FNotify r ∉ l) ∧ (∀ r answer, FRequest r answer ∈ l → rq_method r = "tools/call" → r = req ∧
      ((∃ a l0, state g' = Live a true ∧ (∃ pv, state g = Live a pv) ∧ call_allowed a req now ∧ l = l0 ++ [FRequest r answer]) ∨
       gc_mode (cfg g) = Observe))) as Hobs.
  { intros resp' Hk Hm. exists [FRequest req resp']. split; [by apply Hkept|]. split; [by intros r [=]%list_elem_of_singleton|].
    intros r answer [= -> ->]%list_elem_of_singleton _. by auto. }
  destruct (state g) as [|a pv|code|code|code] eqn:Hs.
  - case_bool_decide as Hm; [apply kept_observe in Hc; by eapply Hobs|].
    injection Hc as <- <-; exists []; split; [by apply Hkept, kept_nothing|set_solver].
  - destruct pv.
    + apply call_checked_spec in Hc as [Hk|[Hk Hr]]; [exists []; split; [by apply Hkept|set_solver]|].
      exists [FRequest req resp]. split; [by apply Hkept|]. split; [by intros r [=]%list_elem_of_singleton|].
      intros r answer [= -> ->]%list_elem_of_singleton _. split; [done|]. left.
      destruct Hr as [(a' & pv & Hl & Ha)|[code Hl]]; rewrite Hs in Hl; [|done]. injection Hl as <- <-.
      exists a, []. split; [|by eauto]. destruct Hk as (_ & -> & _). done.
    + destruct (verify_pin_lazily g now) as [g1 r] eqn:Hv.
      destruct (verify_pin_lazily_spec g now g1 r a Hv Hs (Hf a false eq_refl)) as (probe & answer & Hp & (Hc1 & Hs1 & Hse1) & Hok).
      assert (∀ r' an l, FRequest r' an ∈ [FRequest probe answer] ++ l → rq_method r' = "tools/call" → FRequest r' an ∈ l) as Hprobe.
      { intros r' an l [[= -> ->]%list_elem_of_singleton|?]%elem_of_app Hr'; [|done]. rewrite Hp in Hr'. done. }
      destruct r as [g2|e].
      * destruct (Hok g2 eq_refl) as (Hc2 & Hst2 & Hse2 & Hchk).
        assert (∀ l, kept g2 g' l → did g req now g' ([FRequest probe answer] ++ l) ∧ state g' = Live a true) as Hdid.
        { intros l (Hc3 & Hs3 & Hse3). rewrite Hst2 in Hs3. split; [|done]. split; [congruence|]. rewrite Hs3.
          split; [by rewrite Hse3, Hse2, <-app_assoc|]. left. exists false. split; [done|]. intros _. right.
          eapply checked_in_more, Hchk. intros f. rewrite elem_of_app. by left. }
        apply call_checked_spec in Hc as [Hk|[Hk Hr]].
        -- exists ([FRequest probe answer] ++ []). split; [by apply Hdid|]. split; [by intros x [=]%list_elem_of_singleton|].
           intros x an Hx Hx'. by pose proof (Hprobe x an [] Hx Hx') as ?%elem_of_nil.
        -- exists ([FRequest probe answer] ++ [FRequest req resp]). destruct (Hdid _ Hk) as [Hd Hst3]. split; [done|].
           split; [by intros x [[=]%list_elem_of_singleton|[=]%list_elem_of_singleton]%elem_of_app|].
           intros x an Hx Hx'. pose proof (Hprobe _ _ _ Hx Hx') as [= -> ->]%list_elem_of_singleton. split; [done|]. left.
           destruct Hr as [(a' & pv & Hl & Ha)|[code Hl]]; rewrite Hst2 in Hl; [|done]. injection Hl as <- <-.
           exists a, [FRequest probe answer]. split; [done|]. by eauto.
      * injection Hc as <- <-. exists [FRequest probe answer]. split; [done|]. split; [by intros x [=]%list_elem_of_singleton|].
        intros x an Hx Hx'. by pose proof (Hprobe x an [] Hx Hx') as ?%elem_of_nil.
  - injection Hc as <- <-. exists []. split; [by apply Hkept, kept_nothing|set_solver].
  - injection Hc as <- <-. exists []. split; [by apply Hkept, kept_nothing|set_solver].
  - apply kept_observe in Hc. eapply Hobs; [done|]. unfold gate_inv in Hi. by rewrite Hs in Hi.
Qed.

Lemma on_initialize_spec g req now g' resp :
  on_initialize g req now = (g', resp) → rq_method req = "initialize" → ∃ answer, did g req now g' [FRequest req answer].
Proof.
  unfold on_initialize. intros Hc Hm. destruct (forward_eq g req) as (u & answer & Hfw). rewrite Hfw in Hc.
  apply (kept_forward g) in Hfw as (Hc1 & Hst & Hs1); [|done..]. set (g1 := with_inner g _) in *. exists answer.
  destruct (resolve _ _ _ _) as [vc|e] eqn:Hr.
  - cbn [cfg with_log] in Hc. destruct (admit_context vc _) as [a|e] eqn:Had;
      injection Hc as <- <-; (split; [done|]); (split; [done|]); [|done].
    right. split; [done|]. split; [done|]. by eapply admit_context_by.
  - destruct (bool_decide _ && bool_decide _) eqn:Hb; injection Hc as <- <-;
      (split; [done|]); (split; [done|]); [|done].
    apply andb_true_iff in Hb as [Hb _]. by apply bool_decide_eq_true in Hb.
Qed.

Lemma filter_response_frame g req catalog items response g' resp :
  filter_response g req catalog items response = (g', resp) →
  cfg g' = cfg g ∧ state g' = state g ∧ sent g' = sent g.
Proof.
  unfold filter_response. destruct (response_to_value response) as [v|]; [|by intros [= <- <-]].
  destruct (filter_catalog catalog items v) as [v' stat].
  by destruct (response_from_value v'); intros [= <- <-].
Qed.

Lemma on_catalog_spec g req catalog now g' resp :
  on_catalog g req catalog now = (g', resp) → Catalog_from_method (rq_method req) = Some catalog → gate_inv g →
  (∀ a pv, state g = Live a pv → in_force (cache g) a) →
  did g req now g' [] ∨ ∃ answer, did g req now g' [FRequest req answer].
Proof.
  unfold on_catalog. intros Hc Hcat Hi Hf.
  assert (∀ l, kept g g' l → did g req now g' l) as Hkept by (intros; by apply kept_did).
  destruct (state g) as [|a pv|code|code|code] eqn:Hs;
    try (injection Hc as <- <-; left; by apply Hkept, kept_nothing).
  - case_bool_decide; [|injection Hc as <- <-; left; by apply Hkept, kept_nothing].
    apply kept_observe in Hc. right. eexists. by apply Hkept.
  - right. destruct (forward_eq g req) as (u & r0 & Hfw0). rewrite Hfw0 in Hc. exists r0.
    apply (kept_forward g) in Hfw0 as (Hc1 & Hst1 & Hs1); [|done..].
    set (g1 := with_inner g (u, sent g ++ [FRequest req r0])) in *.
    assert (∀ g2, filter_response g2 req catalog (permitted_for a catalog) r0 = (g', resp) →
      cfg g2 = cfg g → sent g2 = sent g ++ [FRequest req r0] → stands g req now [FRequest req r0] (state g2) →
      did g req now g' [FRequest req r0]) as Hfin.
    { intros g2 (E1 & E2 & E3)%filter_response_frame Hc2 Hs2 Hst. split; [congruence|]. split; [congruence|]. by rewrite E2. }
    assert (stands g req now [FRequest req r0] (state g1)) as Hsame.
    { rewrite Hst1, Hs. left. exists pv. split; [done|]. by left. }
    destruct catalog; [|by apply (Hfin g1)..]. destruct (rs_result r0) as [result|] eqn:Hres; [|by apply (Hfin g1)].
    destruct (pin_from_catalog g1 result now) as [pin|e] eqn:Hpin; [|injection Hc as <- <-; by split].
    destruct (verify_pin g1 pin) as [g2|e] eqn:Hvp; [|injection Hc as <- <-; by split].
    apply (verify_pin_ok _ _ _ a pv) in Hvp as [-> (vc & d & Hheld & Hd & Hdig)]; [|done|by apply (Hf a pv)].
    apply (Hfin (with_state g1 (Live a true))); [done..|]. left. exists pv. split; [done|]. intros _. right.
    exists req, r0, result, pin, vc, d. split; [apply list_elem_of_here|]. split; [by apply tools_method|]. done.
  - apply kept_observe in Hc. right. eexists. by apply Hkept.
Qed.

(** One frame from the agent. *)
Lemma request_spec g req now g' resp :
  request g req now = (g', resp) → gate_inv g →
  ∃ l, did g req now g' l ∧ (∀ r, FNotify r ∉ l) ∧
    (∀ r answer, FRequest r answer ∈ l → rq_method r = "tools/call" → r = req ∧
      ((∃ a l0, state g' = Live a true ∧ in_force (cache g) a ∧ call_allowed a req now ∧ l = l0 ++ [FRequest r answer]) ∨
       gc_mode (cfg g) = Observe)).
Proof.
  unfold request. intros Hr Hi. destruct (revalidate_frame g now) as [Hcv Hsv].
  pose proof (revalidate_inv g now Hi) as Hiv. pose proof (revalidate_live g now) as Hlive.
  assert (ca_live (cache (revalidate g now)) = ca_live (cache g) ∧ ca_revocations (cache (revalidate g now)) = ca_revocations (cache g)) as [Hcl Hcr].
  { rewrite revalidate_eq. destruct (state g); try done. by destruct (still_in_force _ _ _ _ _). }
  set (g0 := revalidate g now) in *. assert (∀ l, did g0 req now g' l → did g req now g' l) as Hdid.
  { intros l (Hc & Hs & Hst). split; [congruence|]. split; [by rewrite Hs, Hsv|]. unfold stands in *. destruct (state g') as [|a pv|c|c|c]; try done.
    - unfold checked_in, held_as, admitted_by in *. rewrite Hcv, Hcl, Hcr in Hst.
      destruct Hst as [(pv0 & Hs0 & Hck)|Hst]; [left|by right]. exists pv0. split; [by apply (Hlive a pv0)|done].
    - by rewrite <-Hcv. }
  assert (∀ a pv, state g0 = Live a pv → in_force (cache g0) a) as Hf0.
  { intros a pv Hst. destruct (Hlive a pv Hst) as (_ & Hf & ->). exact Hf. }
  assert ((∃ l, did g0 req now g' l ∧ ∀ f, f ∈ l → ∃ answer, f = FRequest req answer ∧ rq_method req ≠ "tools/call") →
    ∃ l, did g req now g' l ∧ (∀ r, FNotify r ∉ l) ∧
    (∀ r answer, FRequest r answer ∈ l → rq_method r = "tools/call" → r = req ∧
      ((∃ a l0, state g' = Live a true ∧ in_force (cache g) a ∧ call_allowed a req now ∧ l = l0 ++ [FRequest r answer]) ∨
       gc_mode (cfg g) = Observe))) as Hother.
  { intros (l & Hd & Hl). exists l. split; [by apply Hdid|]. split.
    - by intros r (an & ? & _)%Hl.
    - by intros r answer (an & [= -> ->] & Hne)%Hl Hr'. }
  case_bool_decide as Hm1.
  { apply on_initialize_spec in Hr as (answer & Hd); [|done]. apply Hother. exists [FRequest req answer]. split; [done|].
    intros f ->%list_elem_of_singleton. exists answer. by rewrite Hm1. }
  case_bool_decide as Hm2.
  { apply on_tool_call_spec in Hr as (l & Hd & Hno & Hcall); [|done|done]. exists l. split; [by apply Hdid|]. split; [done|].
    intros r answer Hin Hr'. destruct (Hcall r answer Hin Hr') as [-> [(a & l0 & Hst & (pv & Hl) & Ha & Hl0)|Ho]]; split; try done.
    - left. exists a, l0. split; [done|]. split; [|done]. by apply (Hlive a pv).
    - right. by rewrite <-Hcv. }
  apply Hother. destruct (Catalog_from_method (rq_method req)) as [catalog|] eqn:Hcat.
  - apply on_catalog_spec in Hr as [Hd|[answer Hd]]; [| |done..]; [exists []|exists [FRequest req answer]]; (split; [done|]).
    + by intros f ?%elem_of_nil.
    + intros f ->%list_elem_of_singleton. by exists answer.
  - destruct (state g0) eqn:Hst; try (injection Hr as <- <-; exists []; split; [by apply kept_did; [apply kept_nothing|]|by intros f ?%elem_of_nil]);
      apply (kept_forward g0) in Hr; try done; exists [FRequest req resp]; (split; [by apply kept_did|]);
      intros f ->%list_elem_of_singleton; by exists resp.
Qed.

(** ** How a live connection came about *)

Lemma session_snoc u c cf evs ev : session u c cf (evs ++ [ev]) = session_step (session u c cf evs) ev.
Proof. unfold session. by rewrite foldl_app. Qed.

(** Between [start] and the end of the session, a frame made the mediator compare what the
    server presents with the contract held then. *)
Definition checked_since (u : U) (c : Cache) (cf : GateCfg Z) (start more : list SessionEvent) (a : AdmittedConn) : Prop :=
  ∃ between req now rest frames, more = between ++ EvRequest req now :: rest ∧
    sent (session u c cf (start ++ between ++ [EvRequest req now])) = sent (session u c cf (start ++ between)) ++ frames ∧
    checked_in cf (cache (session u c cf (start ++ between))) a now frames.
(** The connection was admitted by an [initialize] of the session, out of the cache of that
    moment, and if verified, checked since. *)
Definition lived (u : U) (c : Cache) (cf : GateCfg Z) (evs : list SessionEvent) (a : AdmittedConn) (verified : bool) : Prop :=
  ∃ pre hello t more, evs = (pre ++ [EvRequest hello t]) ++ more ∧ rq_method hello = "initialize" ∧
    admitted_by cf (cache (session u c cf pre)) hello a ∧
    (verified = true → checked_since u c cf (pre ++ [EvRequest hello t]) more a).

Lemma lived_more u c cf evs ev a pv : lived u c cf evs a pv → lived u c cf (evs ++ [ev]) a pv.
Proof.
  intros (pre & hello & t & more & -> & Hm & Ha & Hck). exists pre, hello, t, (more ++ [ev]). split; [by rewrite <-!app_assoc|].
  split; [done|]. split; [done|]. intros Hpv. destruct (Hck Hpv) as (b & req & now & rest & fs & -> & Hrest).
  exists b, req, now, (rest ++ [ev]), fs. split; [by rewrite <-app_assoc|done].
Qed.
Lemma lived_checked u c cf evs req now a pv frames :
  lived u c cf evs a pv → sent (session u c cf (evs ++ [EvRequest req now])) = sent (session u c cf evs) ++ frames →
  checked_in cf (cache (session u c cf evs)) a now frames → lived u c cf (evs ++ [EvRequest req now]) a true.
Proof.
  intros (pre & hello & t & more & -> & Hm & Ha & _) Hs Hck. exists pre, hello, t, (more ++ [EvRequest req now]).
  split; [by rewrite <-!app_assoc|]. split; [done|]. split; [done|]. intros _. exists more, req, now, [], frames.
  split; [done|]. by rewrite app_assoc.
Qed.

Lemma notify_cases g req now :
  notify g req now = revalidate g now ∧ (∃ code, state (revalidate g now) = Denied code ∨ state (revalidate g now) = Contained code) ∨
  (∀ code, state (revalidate g now) ≠ Denied code ∧ state (revalidate g now) ≠ Contained code) ∧
  cfg (notify g req now) = cfg g ∧ state (notify g req now) = state (revalidate g now) ∧ sent (notify g req now) = sent g ++ [FNotify req].
Proof.
  unfold notify. destruct (revalidate_frame g now) as [Hc Hs].
  destruct (state (revalidate g now)) eqn:E; try (left; split; [done|]; by eauto); right; (split; [done|]); (split; [done|]); (split; [done|]); by rewrite <-Hs.
Qed.

Lemma session_inv u c cf evs :
  cfg (session u c cf evs) = cf ∧ gate_inv (session u c cf evs) ∧
  ∀ a pv, state (session u c cf evs) = Live a pv → lived u c cf evs a pv.
Proof.
  induction evs as [|ev evs (Hc & Hi & Hl)] using rev_ind; [done|]. rewrite session_snoc. destruct ev as [req now|req now|ca]; cbn [session_step].
  - destruct (request _ req now) as [g' resp] eqn:E. cbn [fst]. pose proof (request_spec _ _ _ _ _ E Hi) as (l & (Hc' & Hs' & Hst) & _).
    split; [congruence|]. split.
    { unfold gate_inv. unfold stands in Hst. rewrite Hc'. by destruct (state g'). }
    intros a pv Ha. rewrite Ha in Hst. destruct Hst as [(pv0 & Hs0 & Hck)|(-> & Hm & Had)].
    + destruct pv; [|destruct (Hl a pv0 Hs0) as (pre & hello & t & more & Hrest); apply lived_more; exists pre, hello, t, more; naive_solver].
      destruct (Hck eq_refl) as [->|Hck']; [by apply lived_more, Hl|]. rewrite Hc in Hck'.
      eapply lived_checked; [by apply Hl| |exact Hck']. by rewrite session_snoc; cbn [session_step]; rewrite E.
    + rewrite Hc in Had. exists evs, req, now, []. split; [by rewrite app_nil_r|]. done.
  - pose proof (revalidate_inv _ now Hi) as Hiv. destruct (revalidate_frame (session u c cf evs) now) as [Hcv _].
    assert (∀ a pv, state (revalidate (session u c cf evs) now) = Live a pv → lived u c cf evs a pv) as Hlv.
    { intros a pv (Hs & _)%revalidate_live. by apply Hl. }
    destruct (notify_cases (session u c cf evs) req now) as [[-> _]|(_ & Hc' & Hst & _)].
    + split; [congruence|]. split; [done|]. intros a pv Ha. by apply lived_more, Hlv.
    + split; [congruence|]. split; [|intros a pv Ha; apply lived_more, Hlv; congruence].
      unfold gate_inv in *. rewrite Hst, Hc', <-Hcv. done.
  - split; [done|]. split; [done|]. intros a pv Ha. apply lived_more, Hl, Ha.
Qed.

(** ** Properties *)

(** C1: in any session of an enforcing mediator -- whatever the upstream answers, and however the
    cache is refreshed in between -- every [tools/call] request the upstream was ever sent is
    one the agent made as that very request, for a tool among the items of the connection and
    before it expires.  The connection was admitted by an [initialize] before it, under a
    contract the cache of that moment held, for exactly these peers, and carries the items
    and the expiry of that contract; when the call was made the cache held that artifact,
    nothing about it revoked; and between the two the server had been asked for its catalogue,
    and what it answered has the surface digest of the contract then held.  The only other
    frames that can carry a call are notifications, which the agent sent as notifications on a
    connection neither denied nor contained: those are forwarded unread. *)
Theorem forwarded_calls_contracted u c cf evs :
  gc_mode cf = Enforce →
  (∀ r answer, FRequest r answer ∈ sent (session u c cf evs) → rq_method r = "tools/call" →
     ∃ before now after a frames, evs = before ++ EvRequest r now :: after ∧
       sent (session u c cf (before ++ [EvRequest r now])) = frames ++ [FRequest r answer] ∧
       call_allowed a r now ∧ in_force (cache (session u c cf before)) a ∧
       lived u c cf (before ++ [EvRequest r now]) a true) ∧
  (∀ r, FNotify r ∈ sent (session u c cf evs) →
     ∃ before now after, evs = before ++ EvNotify r now :: after ∧
       (∀ code, state (session u c cf before) ≠ Denied code ∧ state (session u c cf before) ≠ Contained code) ∧
       (∀ a pv, state (session u c cf before) = Live a pv → in_force (cache (session u c cf before)) a)).
Proof.
  intros Hm. induction evs as [|ev evs [IHr IHn]] using rev_ind; [split; [intros r answer Hin%elem_of_nil|intros r Hin%elem_of_nil]; done|].
  destruct (session_inv u c cf evs) as (Hc & Hi & _). rewrite session_snoc. destruct ev as [req now|req now|ca]; cbn [session_step].
  - destruct (request (session u c cf evs) req now) as [g' resp] eqn:E. cbn [fst].
    pose proof (request_spec _ _ _ _ _ E Hi) as (l & (Hc' & Hs' & _) & Hno & Hcall).
    assert (session u c cf (evs ++ [EvRequest req now]) = g') as Hg' by (rewrite session_snoc; cbn; by rewrite E).
    split.
    + intros r answer. rewrite Hs'. intros [Hin|Hin]%elem_of_app Hr.
      * destruct (IHr r answer Hin Hr) as (b & t & af & a & fs & -> & Hrest). exists b, t, (af ++ [EvRequest req now]), a, fs.
        split; [by rewrite <-app_assoc|done].
      * destruct (Hcall r answer Hin Hr) as [-> [(a & l0 & Hst & Hf & Ha & ->)|Ho]]; [|by rewrite Hc, Hm in Ho].
        exists evs, now, [], a, (sent (session u c cf evs) ++ l0). split; [done|]. rewrite Hg', Hs'. split; [by rewrite app_assoc|].
        split; [done|]. split; [done|]. apply session_inv. by rewrite Hg'.
    + intros r. rewrite Hs'. intros [Hin|Hin]%elem_of_app; [|by apply Hno in Hin].
      destruct (IHn r Hin) as (b & t & af & -> & Hrest). exists b, t, (af ++ [EvRequest req now]). split; [by rewrite <-app_assoc|done].
  - destruct (revalidate_frame (session u c cf evs) now) as [_ Hsv]. split.
    + intros r answer Hin Hr. assert (FRequest r answer ∈ sent (session u c cf evs)) as Hin'.
      { destruct (notify_cases (session u c cf evs) req now) as [[Hn _]|(_ & _ & _ & Hs)]; [by rewrite Hn, Hsv in Hin|].
        rewrite Hs in Hin. by apply elem_of_app in Hin as [?|[=]%list_elem_of_singleton]. }
      destruct (IHr r answer Hin' Hr) as (b & t & af & a & fs & -> & Hrest). exists b, t, (af ++ [EvNotify req now]), a, fs.
      split; [by rewrite <-app_assoc|done].
    + intros r Hin. assert (FNotify r ∈ sent (session u c cf evs) → ∃ before t after, evs ++ [EvNotify req now] = before ++ EvNotify r t :: after ∧
        (∀ code, state (session u c cf before) ≠ Denied code ∧ state (session u c cf before) ≠ Contained code) ∧
        (∀ a pv, state (session u c cf before) = Live a pv → in_force (cache (session u c cf before)) a)) as Hold.
      { intros (b & t & af & -> & Hrest)%IHn. exists b, t, (af ++ [EvNotify req now]). split; [by rewrite <-app_assoc|done]. }
      destruct (notify_cases (session u c cf evs) req now) as [[Hn _]|(Hst & _ & _ & Hs)]; [rewrite Hn, Hsv in Hin; by apply Hold|].
      rewrite Hs in Hin. apply elem_of_app in Hin as [Hin|[= ->]%list_elem_of_singleton]; [by apply Hold|].
      exists evs, now, []. split; [done|]. rewrite revalidate_eq in Hst. split.
      * intros code. specialize (Hst code). by destruct (state (session u c cf evs)) eqn:Es; rewrite ?Es in Hst.
      * intros a pv Es. rewrite Es in Hst. destruct (still_in_force _ _ _ _ _) as [[]|e] eqn:Ef; [by apply still_in_force_ok in Ef|].
        by destruct (Hst e) as [_ []].
  - split.
    + intros r answer Hin Hr. destruct (IHr r answer Hin Hr) as (b & t & af & a & fs & -> & Hrest).
      exists b, t, (af ++ [EvRefresh ca]), a, fs. split; [by rewrite <-app_assoc|done].
    + intros r Hin. destruct (IHn r Hin) as (b & t & af & -> & Hrest). exists b, t, (af ++ [EvRefresh ca]). split; [by rewrite <-app_assoc|done].
Qed.

(** A notification is forwarded whatever it says: the mediator does not look at its method,
    so a call sent without an id reaches the upstream under no check of its own. *)
Theorem notifications_unread g req now :
  (∀ code, state g ≠ Denied code ∧ state g ≠ Contained code) → (∀ a pv, state g = Live a pv → in_force (cache g) a) →
  sent (notify g req now) = sent g ++ [FNotify req].
Proof.
  intros Hcut Hf. destruct (notify_cases g req now) as [[_ [code Hc]]|(_ & _ & _ & ?)]; [|done]. exfalso.
  rewrite revalidate_eq in Hc. destruct (state g) as [|a pv|c|c|c] eqn:Es; try (destruct (Hcut code); destruct Hc as [Hc|Hc]; rewrite Es in Hc; congruence).
  destruct (still_in_force _ _ _ _ _) as [[]|e] eqn:Ef; [by destruct Hc as [Hc|Hc]; cbn in Hc; rewrite Es in Hc|].
  pose proof (proj2 (in_force_iff _ _ (cfg g)) (Hf a pv eq_refl)) as Hin. unfold caller, callee in Ef. by rewrite Hin in Ef.
Qed.

(** An answer that refuses: a blocked frame, or a failed call. *)
Definition refused (resp : Response) : Prop :=
  (rs_result resp = None ∧ ∃ e, rs_error resp = Some e ∧ re_code e = RPC_BLOCKED) ∨
  (∃ r, rs_result resp = Some r ∧ result_is_tool_error r = true).

Lemma blocked_refused g req code : refused (blocked g req code).
Proof. left. split; [done|]. by eexists. Qed.
Lemma tool_denial_refused req code : refused (tool_denial req code).
Proof. right. by eexists. Qed.

(** Once denied or contained, only [initialize] moves the connection. *)
Lemma cut_request g req now code :
  state g = Denied code ∨ state g = Contained code → rq_method req ≠ "initialize" →
  ∃ resp, request g req now = (g, resp) ∧ refused resp.
Proof.
  intros Hs Hm. assert (revalidate g now = g) as Hrev
    by (rewrite revalidate_eq; by destruct Hs as [->| ->]).
  unfold request. rewrite Hrev, bool_decide_eq_false_2 by done.
  case_bool_decide; [unfold on_tool_call; destruct Hs as [->| ->]; eauto using blocked_refused, tool_denial_refused|].
  destruct (Catalog_from_method _); [unfold on_catalog|];
    destruct Hs as [->| ->]; eauto using blocked_refused.
Qed.

Lemma cut_notify g req now code :
  state g = Denied code ∨ state g = Contained code → notify g req now = g.
Proof.
  intros Hs. unfold notify. rewrite revalidate_eq. by destruct Hs as [Hs|Hs]; rewrite Hs, Hs.
Qed.

(** C23: containment is immediate, in both modes: on the first frame after the contract of a
    live connection was revoked, withdrawn or replaced in the cache -- or after the
    revocations became unreliable -- the connection is contained, the frame is refused, and
    nothing at all reaches the upstream, notifications included; unless the frame is another
    [initialize]. *)
Theorem containment_immediate g req now a pv :
  state g = Live a pv → ¬ in_force (cache g) a →
  (rq_method req ≠ "initialize" →
     ∃ g' resp code, request g req now = (g', resp) ∧ state g' = Contained code ∧ refused resp ∧
       (code = NO_CONTRACT ∨ code = CONTRACT_REVOKED) ∧ sent g' = sent g) ∧
  sent (notify g req now) = sent g ∧ ∃ code, state (notify g req now) = Contained code.
Proof.
  intros Hs Hf.
  destruct (still_in_force (cache g) (cid_str (adm_cid a)) (jti_str (adm_jti a)) (caller g) (callee g))
    as [[]|e] eqn:E.
  { apply still_in_force_ok in E. by destruct Hf. }
  assert (revalidate g now = with_state g (Contained e)) as Hrev by (by rewrite revalidate_eq, Hs, E).
  set (g1 := with_state g (Contained e)) in *.
  assert (revalidate g1 now = g1) as Hrev1 by (by rewrite revalidate_eq).
  split; [|split].
  - intros Hm. destruct (cut_request g1 req now e) as (resp & Hr & Href); [by right|done|].
    exists g1, resp, e. split; [|split; [done|split; [done|split; [|done]]]].
    + rewrite <-Hr. unfold request. by rewrite Hrev, Hrev1.
    + by apply still_in_force_err in E.
  - unfold notify. by rewrite Hrev.
  - exists e. unfold notify. by rewrite Hrev.
Qed.

(** A refusal is documented as terminal, a denied connection not getting to retry its way
    in.  It holds for every frame but one: a denied or contained connection refuses them and
    forwards nothing, but an [initialize] is forwarded to the upstream before anything is
    checked, and admits the connection again whenever a contract resolves and passes its
    context checks then. *)
Theorem refusal_not_terminal g code :
  state g = Denied code ∨ state g = Contained code →
  (∀ req now, rq_method req ≠ "initialize" → ∃ resp, request g req now = (g, resp) ∧ refused resp) ∧
  (∀ req now, notify g req now = g) ∧
  (∀ req now, rq_method req = "initialize" →
     (∃ answer, sent (request g req now).1 = sent g ++ [FRequest req answer]) ∧
     ∀ vc a, resolve (cache g) (requested_cid req) (caller g) (callee g) = Ok vc →
       admit_context vc (admission_ctx (cfg g) now) = Ok a →
       state (request g req now).1 = Live a false).
Proof.
  intros Hs. split; [|split].
  - intros req now Hm. by apply (cut_request g req now code).
  - intros req now. by apply (cut_notify g req now code).
  - intros req now Hm. assert (revalidate g now = g) as Hrev
      by (rewrite revalidate_eq; by destruct Hs as [->| ->]).
    unfold request. rewrite Hrev, Hm, bool_decide_eq_true_2 by done. unfold on_initialize.
    destruct (forward_eq g req) as (u & r & ->). split.
    + exists r. unfold with_inner. cbn. destruct (resolve _ _ _ _) as [vc|e]; [|by destruct (_ && _)].
      by destruct (admit_context _ _).
    + intros vc a Hr Ha. unfold admission_ctx, caller, callee in *.
      cbn [with_inner cache cfg]. rewrite Hr. cbn. by rewrite Ha.
Qed.

(** Before any handshake an enforcing mediator refuses calls and catalogues, but a method
    it does not recognise, and every notification, goes straight to the upstream: the
    comment there says such a method passes only on a live connection. *)
Theorem new_connection_passes_unknown g req now :
  state g = New → gc_mode (cfg g) = Enforce →
  (rq_method req = "tools/call" ∨ is_Some (Catalog_from_method (rq_method req)) →
     ∃ resp, request g req now = (g, resp) ∧ refused resp) ∧
  (rq_method req ≠ "initialize" → rq_method req ≠ "tools/call" →
     Catalog_from_method (rq_method req) = None →
     request g req now = forward g req ∧ ∃ answer, sent (request g req now).1 = sent g ++ [FRequest req answer]) ∧
  sent (notify g req now) = sent g ++ [FNotify req].
Proof.
  intros Hs Hm. assert (revalidate g now = g) as Hrev by (by rewrite revalidate_eq, Hs).
  unfold request, notify. rewrite Hrev. split; [|split].
  - intros Hr. rewrite bool_decide_eq_false_2 by (intros E; rewrite E in Hr; by destruct Hr as [|[? [=]]]).
    case_bool_decide as Ht.
    + unfold on_tool_call. rewrite Hs, Hm. cbn. eauto using blocked_refused.
    + destruct Hr as [Hr|[cat ->]]; [done|]. unfold on_catalog. rewrite Hs, Hm. cbn. eauto using blocked_refused.
  - intros H1' H2' ->. rewrite !bool_decide_eq_false_2, Hs by done. split; [done|].
    destruct (forward_eq g req) as (u & r & ->). by exists r.
  - by rewrite Hs.
Qed.

(** The result an agent reads in a response. *)
Definition shown (resp : Response) : Value := default VNull (rs_result resp).

Lemma filter_response_shown `{!ResponseSerdeLaws} g req catalog items response g' resp :
  filter_response g req catalog items response = (g', resp) →
  (∀ e, e ∈ catalog_entries catalog (shown resp) → contracted catalog items e = true) ∧
  vget "nextCursor" (shown resp) = None ∧
  (rs_result response = None → catalog_entries catalog (shown resp) = []).
Proof.
  unfold filter_response. destruct (response_to_value response) as [v|] eqn:Hto;
    [|intros [= <- <-]; split; [cbn; set_solver|done]].
  destruct (filter_catalog catalog items v) as [out stat] eqn:Hfc.
  apply filter_catalog_filtered in Hfc as (Hl & Hnc & _).
  destruct (response_from_value out) as [r|] eqn:Hfrom; intros [= <- <-];
    [|split; [cbn; set_solver|done]].
  apply to_value_result in Hto. apply from_value_result in Hfrom.
  assert (catalog_entries catalog (shown r) = filterb (contracted catalog items) (default [] (list_at catalog v))) as Hent.
  { unfold catalog_entries, shown, list_at in *. rewrite Hfrom.
    destruct (vget "result" out) as [w|]; [|done]. destruct w; try (cbn in Hl; discriminate).
    cbn in Hl |- *. by rewrite Hl. }
  rewrite Hent. split; [|split].
  - intros e He. by apply elem_of_filterb in He as [_ ?].
  - unfold shown. rewrite Hfrom. destruct (vget "result" out) as [w|]; [|done].
    by destruct w.
  - intros Hn. unfold list_at. by rewrite Hto, Hn.
Qed.

(** A live connection is shown only what it contracted for: the entries of a catalogue it
    gets back all carry a name its contract lists for that catalogue, there is no cursor to
    page on with, and a tool catalogue shows nothing at all unless the pin has been
    verified. *)
Theorem live_catalog_contracted `{!ResponseSerdeLaws} g req catalog now a pv :
  state g = Live a pv → Catalog_from_method (rq_method req) = Some catalog →
  let '(g', resp) := request g req now in
  (∀ e, e ∈ catalog_entries catalog (shown resp) →
     ∃ n, vget (key_field catalog) e = Some (VString n) ∧ n ≠ "" ∧ n ∈ permitted_for a catalog) ∧
  vget "nextCursor" (shown resp) = None ∧
  (catalog = Tools → catalog_entries catalog (shown resp) ≠ [] → state g' = Live a true).
Proof.
  intros Hs Hcat. destruct (request g req now) as [g' resp] eqn:Hr. unfold request in Hr.
  rewrite !bool_decide_eq_false_2, Hcat in Hr by (intros E; by rewrite E in Hcat).
  setoid_rewrite <-contracted_true. set (g0 := revalidate g now) in *.
  assert (state g0 = Live a pv ∨ ∃ code, state g0 = Contained code) as [Hs0|[code Hs0]].
  { unfold g0. rewrite revalidate_eq, Hs. destruct (still_in_force _ _ _ _ _); [by left|right; by eexists]. }
  2: { unfold on_catalog in Hr. rewrite Hs0 in Hr. injection Hr as <- <-. split; [|done]. cbn. set_solver. }
  destruct (revalidate_live g now a pv Hs0) as (_ & Hf & Hg0). fold g0 in Hg0.
  unfold on_catalog in Hr. rewrite Hs0 in Hr. destruct (forward_eq g0 req) as (u & r0 & Hfw).
  rewrite Hfw in Hr. set (g1 := with_inner g0 _) in *.
  assert (∀ g2, filter_response g2 req catalog (permitted_for a catalog) r0 = (g', resp) →
    (rs_result r0 = None ∨ catalog ≠ Tools ∨ state g2 = Live a true) →
    (∀ e, e ∈ catalog_entries catalog (shown resp) → contracted catalog (permitted_for a catalog) e = true) ∧
    vget "nextCursor" (shown resp) = None ∧
    (catalog = Tools → catalog_entries catalog (shown resp) ≠ [] → state g' = Live a true)) as Hfin.
  { intros g2 Hfr Hok. pose proof (filter_response_frame _ _ _ _ _ _ _ Hfr) as (_ & Hst & _).
    apply filter_response_shown in Hfr as (H1' & H2' & H3'). split; [done|]. split; [done|].
    intros HT Hne. rewrite Hst. destruct Hok as [Hok|[?|Hok]]; [|done|done]. by rewrite H3' in Hne. }
  assert (∀ g2 c, (∀ e, e ∈ catalog_entries catalog (shown (blocked g2 req c)) →
      contracted catalog (permitted_for a catalog) e = true) ∧
    vget "nextCursor" (shown (blocked g2 req c)) = None ∧
    (catalog = Tools → catalog_entries catalog (shown (blocked g2 req c)) ≠ [] → state g' = Live a true)) as Hbl.
  { intros. split; [cbn; set_solver|done]. }
  destruct catalog; [|apply (Hfin g1); [exact Hr|by right; left]..].
  destruct (rs_result r0) as [result|] eqn:Hres; [|apply (Hfin g1); [exact Hr|by left]].
  destruct (pin_from_catalog g1 result now) as [pin|e]; [|injection Hr as <- <-; apply Hbl].
  destruct (verify_pin g1 pin) as [g2|e] eqn:Hvp; [|injection Hr as <- <-; apply Hbl].
  apply (verify_pin_ok _ _ _ a pv) in Hvp as [-> _]; [|done|].
  - eapply Hfin; [exact Hr|by right; right].
  - unfold g1. rewrite Hg0. exact Hf.
Qed.
End Sessions.

(** ** A session, with a concrete upstream *)

Module GateExamples.
Import TestSha TestPrinter TestNfc.

(** A frame printer that drops errors: enough for the laws, which are about results. *)
#[local] Instance frames : ResponseSerde := {|
  response_to_value r := Some (VObject (
    match rs_id r with Some i => [("id", i)] | None => [] end ++
    match rs_result r with Some v => [("result", v)] | None => [] end));
  response_from_value v := Some (mkResponse "2.0" (vget "id" v)
    match vget "result" v with Some VNull => None | o => o end None)
|}.
#[local] Instance frames_laws : ResponseSerdeLaws.
Proof.
  split.
  - intros r v [= <-]. by destruct (rs_id r), (rs_result r).
  - intros v r [= <-]. done.
Qed.

Definition tool (name : string) : Value :=
  VObject [("description", VString "d"); ("name", VString name)].
Definition tools : Value := VObject [("nextCursor", VString "2"); ("tools", VArray [tool "read"; tool "write"])].

(** An upstream that presents two tools, whatever it is asked. *)
#[local] Instance server : Upstream unit := {|
  up_request _ r := (tt, Response_ok (rq_id r) tools);
  up_notify u _ := u
|}.

Definition agent_id : EntityId := mkEntityId "spiffe://bank/agent".
Definition server_id : EntityId := mkEntityId "spiffe://bank/mcp".
Definition pin : Errors.result Pin := Canon.pin McpTools server_id tools Limits_default 0.
Definition digest : string :=
  match pin with Ok p => match Pin_surface_digest p ["read"] with Ok d => d | Err _ => "" end | Err _ => "" end.

Definition contract : VerifiedContract :=
  mkVerifiedContract
    (mkPayload CONTRACT_TYP (mkCid "conn_0123abcd") "plane" "mediator-1" (mkJti "jti-0001") 10 10 100
       (mkParty agent_id (mkZoneId "internal.pay") Tier_TWO None None None)
       (mkParty server_id (mkZoneId "internal.pay") Tier_TWO None (Some "sha256:m") (Some digest))
       (mkSurface ["read"] [] []) Terms_default Assurance_default standing "v1" PAYLOAD_SCHEMA)
    ["read"] 50.
Definition held : Cache := install Cache_new (file_contract CSnapshot_default contract).
Definition conf : GateCfg SameTrustLevel := GateCfg_new "mediator-1" (mkPeerIdentity agent_id server_id).

Definition hello : Request := Request_new 1 "initialize" VNull.
Definition list_tools : Request := Request_new 2 "tools/list" VNull.
Definition call (name : string) : Request := Request_new 3 "tools/call" (VObject [("name", VString name)]).

Definition opened : MediatedUpstream (unit * list Frame) SameTrustLevel :=
  session tt held conf [EvRequest hello 60].
Definition conn : AdmittedConn := match state opened with Live a _ => a | _ => mkAdmittedConn (mkCid "")
  (mkJti "") [] [] Terms_default 0 [] end.

Lemma opened_live : state opened = Live conn false.
Proof. vm_compute. reflexivity. Qed.

Definition asked : list SessionEvent := [EvRequest hello 60; EvRequest (call "read") 70].
Lemma forwarded_calls_contracted_witness :
  ∃ answer a, FRequest (call "read") answer ∈ sent (session tt held conf asked) ∧ call_allowed a (call "read") 70 ∧
    adm_items a = ["read"].
Proof.
  set (s := sent (session tt held conf asked)).
  assert (∃ answer, FRequest (call "read") answer ∈ s) as [answer Hin].
  { eexists. vm_compute. do 2 apply list_elem_of_further. apply list_elem_of_here. }
  exists answer. destruct (proj1 (forwarded_calls_contracted tt held conf asked eq_refl) (call "read") answer Hin eq_refl)
    as (before & now & after & a & fs & Hevs & _ & Hcall & (vc & Hvc & Hj & _) & Hlived).
  exists a. split; [exact Hin|].
  assert (before = [EvRequest hello 60] ∧ now = 70%N) as [-> ->].
  { destruct before as [|e [|e' before]]; [discriminate Hevs| |].
    - injection Hevs as <- <- _. done.
    - exfalso. injection Hevs as _ _ Hx. by destruct before. }
  split; [exact Hcall|]. destruct Hlived as (pre & hi & t & more & Hpre & Hm & (vc' & Hfound & _ & _ & _ & _ & _ & _ & _ & Hit & _) & _).
  rewrite Hit. assert (hi = hello) as ->.
  { destruct pre as [|e [|e' pre]]; [by injection Hpre| |].
    - injection Hpre as _ <- _ _. discriminate Hm.
    - exfalso. injection Hpre as _ _ Hx. by destruct pre. }
  assert (pre = []) as -> by (destruct pre as [|e [|e' pre]]; [done|discriminate Hpre|exfalso; injection Hpre as _ _ Hx; by destruct pre]).
  vm_compute in Hfound. injection Hfound as <-. reflexivity.
Defined.

Lemma live_catalog_contracted_witness :
  catalog_entries Tools (shown (request opened list_tools 70).2) = [tool "read"] ∧
  state (request opened list_tools 70).1 = Live conn true.
Proof.
  assert (catalog_entries Tools (shown (request opened list_tools 70).2) = [tool "read"]) as Hc
    by (vm_compute; reflexivity).
  split; [exact Hc|].
  pose proof (live_catalog_contracted opened list_tools Tools 70 conn false opened_live eq_refl) as Hl.
  destruct (request opened list_tools 70) as [g' resp]. destruct Hl as (_ & _ & Hl).
  apply Hl; [reflexivity|]. cbn [snd] in Hc. rewrite Hc. discriminate.
Defined.

(** The same connection after its artifact was revoked. *)
Definition revoked : MediatedUpstream (unit * list Frame) SameTrustLevel :=
  with_cache opened (set_revocations held (revoke_jti Revocations_new "jti-0001")).

Lemma containment_immediate_witness : sent (notify revoked (mkRequest "2.0" None "x" VNull) 70) = sent revoked.
Proof.
  assert (state revoked = Live conn false) as Hst by exact opened_live.
  refine (proj1 (proj2 (containment_immediate revoked (mkRequest "2.0" None "x" VNull) 70 conn false Hst _))).
  intros (vc & Hvc & _ & Hn). apply Hn. right. left. cbn in Hvc.
  assert (vc = contract) as -> by (vm_compute in Hvc; injection Hvc as <-; vm_compute; reflexivity).
  apply elem_of_union. left. by apply elem_of_singleton.
Defined.

Lemma refusal_not_terminal_witness :
  let cut := with_state opened (Denied PIN_MISMATCH) in
  request cut (call "read") 70 = (cut, blocked cut (call "read") PIN_MISMATCH) ∧
  state (request cut hello 70).1 = Live conn false.
Proof.
  intros cut. destruct (refusal_not_terminal cut PIN_MISMATCH (or_introl eq_refl)) as (_ & _ & H3).
  split; [vm_compute; reflexivity|].
  apply (proj2 (H3 hello 70%N eq_refl) contract conn); vm_compute; reflexivity.
Defined.

Lemma new_connection_passes_unknown_witness :
  let fresh := session tt held conf [] in
  let odd := Request_new 4 "sampling/createMessage" VNull in
  ∃ answer, sent (request fresh odd 70).1 = [FRequest odd answer].
Proof.
  intros fresh odd. destruct (new_connection_passes_unknown fresh odd 70 eq_refl eq_refl) as (_ & H2 & _).
  apply (proj2 (H2 ltac:(discriminate) ltac:(discriminate) eq_refl)).
Defined.
End GateExamples.
