(* ===== verification/Upstream.v ===== *)
(** * Upstream: the server a mediated call is forwarded to
    ([crates/wc-mediator/src/upstream.rs])

    An MCP server spawned as a child and spoken to in lines, or reached over HTTP and answering
    with a frame or a stream of them.  The child is what it has written so far and how it then
    stands; the HTTP exchange is a reply; starting a process, time and the client library are
    not modelled.  serde's reader of a response is the parameter [ResponseSerde].  Of an error
    text the part the code writes itself is kept. *)

From Stdlib Require Import ZArith.
From S2P Require Import Prelude Text Errors Model Json Canon Contract Artifact Log Store Std Chain Consent Attest Jwks Peer Catalog Gate.

(** serde_json's reader of a [Response]. *)
Class ResponseSerde := response_from_str : string → option Response.

(** ** A child over its standard streams *)

Definition MAX_UPSTREAM_LINE : N := 8 * 1024 * 1024.

(** How the child stands once what it wrote is read. *)
Inductive ChildEnd := Closed | Broken | Silent.
(** [read_line_capped]: the bytes up to a line feed or the cap, and what stays unread; without
    either, [None] when the read neither ends nor fails. *)
Inductive LineRead := Line (raw rest : string) | ReadFailed (rest : string) | NoAnswer.
Fixpoint read_line_capped (cap : N) (s : string) (e : ChildEnd) : LineRead :=
  if (cap =? 0)%N then Line "" s else
  match s with
  | String c r =>
    if bool_decide (c = "010"%char) then Line (String c "") r
    else match read_line_capped (cap - 1) r e with
         | Line raw rest => Line (String c raw) rest
         | out => out
         end
  | EmptyString => match e with Closed => Line "" "" | Broken => ReadFailed "" | Silent => NoAnswer end
  end.

(** A live child: the bytes its reader holds, unless a read lost it. *)
Record Spawned := mkSpawned { sp_reader : option string }.
Record StdioUpstream := mkStdioUpstream { su_command : string; su_inner : option Spawned }.

(** What the system and the child do during one request. *)
Record Exchange := mkExchange {
  ex_launch_first : bool;      (* starting a child that is missing *)
  ex_sent : bool;              (* the line reaches it *)
  ex_output : string;          (* what it writes until the answer is read *)
  ex_end : ChildEnd;
  ex_relaunch : bool           (* starting one after a fault *)
}.

(** [launch]: a command of blanks names no program. *)
Definition launch (command : string) (starts : bool) : option Spawned :=
  match split_whitespace command with [] => None | _ => if starts then Some (mkSpawned (Some "")) else None end.
Definition spawn (command : string) (starts : bool) : option StdioUpstream :=
  (λ inner, mkStdioUpstream command (Some inner)) <$> launch command starts.
Definition restart (u : StdioUpstream) (starts : bool) : StdioUpstream := mkStdioUpstream (su_command u) (launch (su_command u) starts).

Definition fault (req : Request) (why : string) : Response := Response_error (rq_id req) (-32000) why.

Section Stdio.
Context `{ResponseSerde}.

Definition stdio_request (u : StdioUpstream) (req : Request) (x : Exchange) : StdioUpstream * Response :=
  let u := match su_inner u with None => restart u (ex_launch_first x) | Some _ => u end in
  match su_inner u with
  | None => (u, fault req "upstream unavailable")
  | Some inner =>
    if negb (ex_sent x) then (restart u (ex_relaunch x), fault req "upstream send failed; restarted") else
    match sp_reader inner with
    | None => (restart u (ex_relaunch x), fault req "upstream reader lost; restarted")
    | Some held =>
      match read_line_capped MAX_UPSTREAM_LINE (held +:+ ex_output x) (ex_end x) with
      | Line "" _ => (restart u (ex_relaunch x), fault req "upstream closed; restarted")
      | Line raw rest =>
        (mkStdioUpstream (su_command u) (Some (mkSpawned (Some rest))),
         default (fault req "bad upstream response: ") (response_from_str (trim_text (from_utf8_lossy raw))))
      | ReadFailed _ => (restart u (ex_relaunch x), fault req "upstream read failed: ")
      | NoAnswer => (restart u (ex_relaunch x), fault req "upstream timed out after ")
      end
    end
  end.
(** [notify]: sent if there is a child, and nothing is read. *)
Definition stdio_notify (u : StdioUpstream) (req : Request) : StdioUpstream * option Request :=
  (u, match su_inner u with Some _ => Some req | None => None end).
End Stdio.

(** ** A server over HTTP *)

Inductive UrlError := BadScheme | NoHost | PlaintextRefused (host : string).
Fixpoint take_until (stop : ascii → bool) (s : string) : string :=
  match s with EmptyString => "" | String c r => if stop c then "" else String c (take_until stop r) end.
(** The text after the last of a byte. *)
Definition after_last (c : ascii) (s : string) : string := default "" (last (split_on c s)).
Definition authority_of (rest : string) : string :=
  after_last "@" (take_until (λ c, bool_decide (c = "/"%char ∨ c = "?"%char ∨ c = "#"%char)) rest).
Definition hostname_of (authority : string) : string :=
  match strip_prefix "[" authority with
  | Some v6 => take_until (λ c, bool_decide (c = "]"%char)) v6
  | None => take_until (λ c, bool_decide (c = ":"%char)) authority
  end.
Definition loopback_v4 (host : string) : bool :=
  match read_ipv4 (bytes host) with Some (a, []) => bool_decide (head a = Some 127%N) | _ => false end.
Definition is_loopback_host (host : string) : bool :=
  bool_decide (to_ascii_lowercase host = "localhost") || bool_decide (host = "::1") || loopback_v4 host.
Definition check_upstream_url (url : string) (allow_plaintext : bool) : Result unit UrlError :=
  if starts_with "https://" url then Ok tt else
  let? rest := ok_or (strip_prefix "http://" url) BadScheme in
  let hostname := hostname_of (authority_of rest) in
  guard_err (bool_decide (hostname = "")) NoHost $
  guard_err (negb (is_loopback_host hostname || allow_plaintext)) (PlaintextRefused hostname) $ Ok tt.

Inductive HeaderError := NoColon | EmptyName | InvalidHeader.
Definition parse_upstream_header (raw : string) : Result (string * string) HeaderError :=
  let? parts := ok_or (split_once ":" raw) NoColon in
  let name := trim_text parts.1 in
  let value := trim_text parts.2 in
  guard_err (bool_decide (name = "")) EmptyName $
  guard_err (existsb (λ c, is_whitespace c || is_control c || (c =? 58)%N) (chars name) || existsb is_control (chars value)) InvalidHeader $
  Ok (name, value).

(** *** An event stream *)

Section Sse.
Context `{SerdeParse}.

Definition answers (id : option Value) (payload : string) : bool :=
  match from_slice payload with
  | None => false
  | Some v => match id, vget "id" v with
              | Some want, Some got => bool_decide (want = got)
              | None, _ => true
              | Some _, None => false
              end
  end.
Record Sse := mkSse { ss_data : list string; ss_out : option string }.
Definition LF : string := LFs.
Definition sse_flush (id : option Value) (s : Sse) : Sse :=
  match ss_data s, ss_out s with
  | [], out => mkSse [] out
  | _, Some out => mkSse [] (Some out)
  | data, None => let payload := join LF data in mkSse [] (if answers id payload then Some payload else None)
  end.
Definition sse_line (id : option Value) (s : Sse) (line : string) : Sse :=
  if is_blank line then sse_flush id s
  else match strip_prefix "data:" line with
       | Some rest => mkSse (ss_data s ++ [default rest (strip_prefix " " rest)]) (ss_out s)
       | None => s
       end.
Definition sse_frame_for (body : string) (id : option Value) : option string :=
  ss_out (sse_flush id (foldl (sse_line id) (mkSse [] None) (file_lines body))).
End Sse.

(** *** One exchange *)

Record HttpUpstream := mkHttpUpstream { hu_url : string; hu_headers : list (string * string); hu_session : option string }.
(** A reply: its status, two of its headers, and its body if it can be read. *)
Record HttpReply := mkHttpReply { hr_status : N; hr_session : option string; hr_content_type : option string; hr_body : option string }.
Inductive HttpFault := Unreachable | BodyUnread | NeverAnswered | HttpStatus (status : N) | NoFrame | BadFrame.
(** What is sent: the headers of the operator, and the session once there is one. *)
Definition http_headers (u : HttpUpstream) : list (string * string) :=
  [("content-type", "application/json"); ("accept", "application/json, text/event-stream")] ++ hu_headers u ++
  match hu_session u with Some sid => [("mcp-session-id", sid)] | None => [] end.

Section Http.
Context `{SerdeParse, ResponseSerde}.

Definition http_post (u : HttpUpstream) (req : Request) (reply : option HttpReply) : HttpUpstream * Result Response HttpFault :=
  match reply with
  | None => (u, Err Unreachable)
  | Some r =>
    let u := match hr_session r with Some sid => mkHttpUpstream (hu_url u) (hu_headers u) (Some sid) | None => u end in
    (u,
     let? text := ok_or (hr_body r) BodyUnread in
     if bool_decide (hr_status r = 202%N) && is_blank text
     then match rq_id req with None => Ok (Response_error None 0 "accepted") | Some _ => Err NeverAnswered end
     else
     guard_err (negb ((200 <=? hr_status r) && (hr_status r <? 300))%N) (HttpStatus (hr_status r)) $
     let? frame := (if str_contains "text/event-stream" (to_ascii_lowercase (default "" (hr_content_type r)))
                    then ok_or (sse_frame_for text (rq_id req)) NoFrame else Ok text) in
     ok_or (response_from_str frame) BadFrame)
  end.
Definition http_request (u : HttpUpstream) (req : Request) (reply : option HttpReply) : HttpUpstream * Response :=
  let '(u, r) := http_post u req reply in (u, match r with Ok r => r | Err _ => fault req "" end).
Definition http_notify (u : HttpUpstream) (req : Request) (reply : option HttpReply) : HttpUpstream := (http_post u req reply).1.
End Http.

(** ** Properties *)

(** The payloads of an event stream: the data lines of each block, joined. *)
Definition block (data : list string) : list string := match data with [] => [] | _ => [join LF data] end.
Fixpoint payloads (data lines : list string) : list string :=
  match lines with
  | [] => block data
  | line :: lines =>
    if is_blank line then block data ++ payloads [] lines
    else match strip_prefix "data:" line with
         | Some rest => payloads (data ++ [default rest (strip_prefix " " rest)]) lines
         | None => payloads data lines
         end
  end.

(** The answer taken from a stream is the first block that answers this request: a block is one
    payload however many lines it spans, and nothing before or after it, and no notification,
    stands in for it. *)
Theorem sse_takes_first_answer `{SerdeParse} body id :
  sse_frame_for body id = List.find (answers id) (payloads [] (file_lines body)).
Proof.
  unfold sse_frame_for. assert (∀ lines data out, ss_out (sse_flush id (foldl (sse_line id) (mkSse data out) lines))
    = match out with Some o => Some o | None => List.find (answers id) (payloads data lines) end) as Hall; [|apply Hall].
  assert (∀ data out, sse_flush id (mkSse data out) = mkSse [] (match out with Some o => Some o | None => List.find (answers id) (block data) end)) as Hf.
  { intros [|d data] [o|]; by cbn. }
  induction lines as [|line lines IH]; intros data out; cbn [foldl payloads]; [by rewrite Hf|].
  unfold sse_line at 2. destruct (is_blank line); [|by destruct (strip_prefix "data:" line); cbn [ss_data ss_out]; rewrite IH].
  rewrite Hf, IH. destruct out as [o|]; [done|].
  assert (∀ (p : string → bool) l1 l2, List.find p (l1 ++ l2) = match List.find p l1 with Some x => Some x | None => List.find p l2 end) as Happ.
  { intros p l1 l2. induction l1 as [|a l1 IHl]; cbn; [done|]. by destruct (p a). }
  rewrite Happ. by destruct (List.find _ (block data)).
Qed.

(** Calls cross the network in the clear only where a flag allows it or the host is this one. *)
Theorem plaintext_stays_local url : check_upstream_url url false = Ok tt ↔
  starts_with "https://" url = true ∨ ∃ rest, url = "http://" +:+ rest ∧ hostname_of (authority_of rest) ≠ "" ∧
    is_loopback_host (hostname_of (authority_of rest)) = true.
Proof.
  unfold check_upstream_url. destruct (starts_with "https://" url) eqn:E; [split; [by left|done]|].
  rewrite result_bind_ok. setoid_rewrite ok_or_ok. setoid_rewrite strip_prefix_Some. setoid_rewrite guard_err_ok. setoid_rewrite guard_err_ok.
  setoid_rewrite bool_decide_eq_false. setoid_rewrite orb_false_r. setoid_rewrite negb_false_iff. naive_solver.
Qed.

(** A header of the command line cannot bring a second one with it: what is sent has a name, no
    line break in either part, and no colon in the name. *)
Theorem header_brings_no_other raw name value : parse_upstream_header raw = Ok (name, value) →
  name ≠ "" ∧ no_byte ":"%char name ∧ one_line name ∧ one_line value.
Proof.
  unfold parse_upstream_header. intros (parts & _ & [Hn%bool_decide_eq_false [Hc [= <- <-]]%guard_err_ok]%guard_err_ok)%result_bind_ok.
  apply orb_false_iff in Hc as [Hname Hvalue]. rewrite existsb_False in Hname, Hvalue. split; [done|].
  assert (∀ s b, b ∈ bytes s → (b < 128)%N → b ∈ chars s) as Hk by (intros; by apply utf8_decode_keeps_ascii).
  assert (∀ c, (N_of_ascii c < 128)%N → (is_whitespace (N_of_ascii c) || is_control (N_of_ascii c) || (N_of_ascii c =? 58)%N) = true →
    no_byte c (trim_text parts.1)) as Hnm.
  { intros c Hl Ht Hin%Hk; [|done]. apply Hname in Hin. congruence. }
  split_and!; [by apply Hnm| |]; split; try by apply Hnm.
  all: intros Hin%Hk; [|done]; by apply Hvalue in Hin.
Qed.

(** A line read from the child is the front of what it wrote, no longer than the cap, and the rest
    stays for the next read. *)
Theorem line_bounded cap s e raw rest : read_line_capped cap s e = Line raw rest →
  s = raw +:+ rest ∧ (str_len raw ≤ cap)%N ∧ (no_byte "010"%char raw → str_len raw = cap ∨ e = Closed ∧ rest = "").
Proof.
  revert cap raw rest. induction s as [|c s IH]; intros cap raw rest; cbn [read_line_capped];
    (destruct (N.eqb_spec cap 0) as [->|Hc]; [intros [= <- <-]; split_and!; [done|unfold str_len; cbn [String.length]; lia|by left]|]).
  - destruct e; [intros [= <- <-]|done|done]. split_and!; [done|unfold str_len; cbn [String.length]; lia|by right].
  - case_bool_decide as Hl.
    + intros [= <- <-]. split_and!; [done|unfold str_len; cbn [String.length]; lia|]. intros Hn. exfalso. apply Hn. subst c. by left.
    + destruct (read_line_capped (cap - 1) s e) as [raw' rest'| |] eqn:E; [|done|done]. intros [= <- <-].
      destruct (IH _ _ _ E) as (-> & Hlen & Hend). unfold str_len in *. cbn [String.length]. split_and!; [done|lia|].
      intros Hn. assert (no_byte "010"%char raw') as Hn' by (intros Hin; apply Hn; by right).
      destruct (Hend Hn') as [Heq|[? ?]]; [left; lia|by right].
Qed.

(** Whatever the child does, a request is answered: with what it wrote, or with an error under the
    id of the request; and every fault leaves a fresh child or none, never the old one. *)
Theorem stdio_always_answers `{ResponseSerde} u req x :
  let '(u', r) := stdio_request u req x in
  su_command u' = su_command u ∧
  ((∃ raw rest, r = default (fault req "bad upstream response: ") (response_from_str (trim_text (from_utf8_lossy raw))) ∧
      raw ≠ "" ∧ su_inner u' = Some (mkSpawned (Some rest))) ∨
   (∃ why, r = fault req why ∧ (su_inner u' = None ∨ su_inner u' = Some (mkSpawned (Some ""))))).
Proof.
  assert (∀ command b, launch command b = None ∨ launch command b = Some (mkSpawned (Some ""))) as Hl.
  { intros command b. unfold launch. destruct (split_whitespace command); [by left|]. destruct b; auto. }
  unfold stdio_request. set (v := match su_inner u with None => _ | Some _ => u end).
  assert (su_command v = su_command u) as Hc by (subst v; by destruct (su_inner u)).
  destruct (su_inner v) as [inner|] eqn:Ei; [|split; [done|right; eexists; by split; [|left]]].
  destruct (ex_sent x); cbn [negb]; [|split; [done|right; eexists; split; [done|apply Hl]]].
  destruct (sp_reader inner) as [held|]; [|split; [done|right; eexists; split; [done|apply Hl]]].
  destruct (read_line_capped _ _ _) as [[|c raw] rest|rest|]; (split; [done|]); [right|left|right|right];
    [eexists; split; [done|apply Hl]|by exists (String c raw), rest|eexists; split; [done|apply Hl]..].
Qed.

(** ** What does not hold *)

(** Over a stream of events the answer is matched by its id, because a server may send
    notifications in between; over standard streams the next line is the answer, whatever it
    is.  A notification before an answer is given to the caller as the answer, and the answer
    itself to the next call. *)
Theorem stdio_answers_shift `{ResponseSerde} command first second note answer :
  no_byte "010"%char note → no_byte "010"%char answer → (str_len note < MAX_UPSTREAM_LINE)%N → (str_len answer < MAX_UPSTREAM_LINE)%N →
  let u := mkStdioUpstream command (Some (mkSpawned (Some ""))) in
  let '(u1, r1) := stdio_request u first (mkExchange true true (note +:+ LFs +:+ answer +:+ LFs) Silent true) in
  let '(u2, r2) := stdio_request u1 second (mkExchange true true "" Silent true) in
  r1 = default (fault first "bad upstream response: ") (response_from_str (trim_text (from_utf8_lossy (note +:+ LFs)))) ∧
  r2 = default (fault second "bad upstream response: ") (response_from_str (trim_text (from_utf8_lossy (answer +:+ LFs)))).
Proof.
  assert (∀ w cap rest e, no_byte "010"%char w → (str_len w < cap)%N → read_line_capped cap (w +:+ LFs +:+ rest) e = Line (w +:+ LFs) rest) as Hread.
  { induction w as [|c w IH]; intros cap rest e Hn Hlt; unfold str_len in Hlt; cbn in Hlt.
    - change ("" +:+ LFs +:+ rest) with (String "010" rest). cbn [read_line_capped]. by rewrite (proj2 (N.eqb_neq cap 0)) by lia.
    - change (String c w +:+ LFs +:+ rest) with (String c (w +:+ LFs +:+ rest)). cbn [read_line_capped]. rewrite (proj2 (N.eqb_neq cap 0)) by lia.
      rewrite bool_decide_eq_false_2 by (intros ->; apply Hn; by left). rewrite IH; [done|intros Hin; apply Hn; by right|unfold str_len; lia]. }
  intros Hn Ha Hln Hla. unfold stdio_request. cbn [su_inner ex_sent negb sp_reader ex_output ex_end su_command].
  change ("" +:+ note +:+ LFs +:+ answer +:+ LFs) with (note +:+ LFs +:+ (answer +:+ LFs)). rewrite (Hread note) by done.
  destruct (note +:+ LFs) as [|c w] eqn:En; [by destruct note|]. cbn [su_inner ex_sent negb sp_reader ex_output ex_end su_command].
  rewrite string_app_assoc, (Hread answer) by done.
  by destruct (answer +:+ LFs) as [|c' w'] eqn:Ea; [destruct answer|].
Qed.
