(* ===== verification/Gateway.v ===== *)
(** * Gateway: enforcement shaped for a gateway filter
    ([crates/wc-gateway/src/{lib,contracts,routes,adapter}.rs])

    A gateway cannot fetch anything on its own: one [Filter] per HTTP stream is driven
    through phases, and what has been pinned is remembered in a ledger shared by all
    streams.  The ledger is threaded through the phases; [None] disables it, as in the code.
    Diagnostics on standard error and the prose of refusals are not modelled. *)

From Stdlib Require Import ZArith.
From S2P Require Import Prelude Text Errors Model Json Canon Contract Artifact Std Catalog Cache.

(** ** Verdicts *)

Inductive Verdict := Forward | Refuse (code : Code).
Inductive BodyMode := Buffer | Skip | BodyRefuse (code : Code).
Inductive BodyAction := Pass | Rewrite (frame : Value) | ActionRefuse (code : Code).

(** ** The pin ledger *)

Definition PinLedger := gmap string N.
Definition PinLedger_new : PinLedger := ∅.
Definition record (l : PinLedger) (jti : string) (at_ : N) : PinLedger := <[jti := at_]> l.
Definition forget (l : PinLedger) (jti : string) : PinLedger := delete jti l.
Definition verified_at (l : PinLedger) (jti : string) : option N := l !! jti.

(** ** The filter of one stream *)

Record FilterCfg := mkFilterCfg {
  fc_mode : Mode;
  fc_callee : EntityId;
  fc_pin_max_age : N
}.

Inductive StreamKind := KUnknown | KCatalog (c : Catalog) | KToolCall | KOther.

Abbreviation Held := (AdmittedConn * option VerifiedContract)%type.

Record Filter := mkFilter {
  fl_held : list Held;
  fl_callee : EntityId;
  fl_limits : Limits;
  fl_now : N;
  fl_pin_max_age : N;
  fl_kind : StreamKind;
  fl_mode : Mode
}.

Definition Filter_new (held : list Held) (now : N) (cfg : FilterCfg) : Filter :=
  mkFilter held (fc_callee cfg) Limits_default now (fc_pin_max_age cfg) KUnknown (fc_mode cfg).

Definition set_kind (f : Filter) (k : StreamKind) : Filter :=
  mkFilter (fl_held f) (fl_callee f) (fl_limits f) (fl_now f) (fl_pin_max_age f) k (fl_mode f).

Definition held_jti (h : Held) : string := jti_str (adm_jti h.1).

(** Gate 8 for a stream that carries no catalogue of its own. *)
Definition pin_verdict (f : Filter) (pins : option PinLedger) (jti : string) : Verdict :=
  match pins with
  | None => Forward
  | Some pins =>
    match verified_at pins jti with
    | None => Refuse SURFACE_UNOBTAINABLE
    | Some at_ =>
      if (0 <? fl_pin_max_age f)%N && (fl_pin_max_age f <? saturating_sub (fl_now f) at_)%N
      then Refuse SURFACE_UNOBTAINABLE else Forward
    end
  end.

Definition governing (f : Filter) (tool : string) : list Held :=
  filterb (λ h, str_in tool (adm_items h.1)) (fl_held f).

Definition call_verdict (f : Filter) (pins : option PinLedger) (params : Value) : Verdict :=
  match parse_tool_call params with
  | None => Refuse FRAME_MALFORMED
  | Some (tool, _) =>
    match governing f tool with
    | [] => Refuse TOOL_UNCONTRACTED
    | [only] => pin_verdict f pins (held_jti only)
    | _ => Refuse CONFIG_INVALID
    end
  end.

Definition on_request (f : Filter) (pins : option PinLedger) (method : string) (params : Value)
    : Filter * Verdict :=
  if bool_decide (length (fl_held f) = 0)
  then (set_kind f KOther, match fl_mode f with Observe => Forward | Enforce => Refuse NO_CONTRACT end)
  else match Catalog_from_method method with
       | Some catalog => (set_kind f (KCatalog catalog), Forward)
       | None =>
         if bool_decide (method = "tools/call")
         then (set_kind f KToolCall, call_verdict f pins params)
         else (set_kind f KOther, Forward)
       end.

Definition on_response_headers (f : Filter) (content_type : string) : BodyMode :=
  let ct := to_ascii_lowercase content_type in
  match fl_kind f with
  | KCatalog _ => if str_contains "application/json" ct then Buffer else BodyRefuse SURFACE_UNOBTAINABLE
  | _ => Skip
  end.

Definition gw_permitted_for (admitted : AdmittedConn) (catalog : Catalog) : list string :=
  match catalog with
  | Tools | Prompts => adm_items admitted
  | Resources => adm_resources admitted
  end.

Definition union_permitted (held : list Held) (catalog : Catalog) : list string :=
  h ← held; gw_permitted_for h.1 catalog.

Section Body.
Context `{Sha256, SerdeJson, Nfc, SerdeParse}.

(** The first contract of the pair the presented pin fails. *)
Fixpoint pin_mismatch (held : list Held) (presented : Pin) : option Code :=
  match held with
  | [] => None
  | (_, None) :: held => pin_mismatch held presented
  | (_, Some contract) :: held =>
    match check_pin contract presented with
    | Ok _ => pin_mismatch held presented
    | Err e => Some e
    end
  end.

Definition forget_all (held : list Held) (l : PinLedger) : PinLedger :=
  foldl (λ l h, forget l (held_jti h)) l held.
Definition record_all (held : list Held) (at_ : N) (l : PinLedger) : PinLedger :=
  foldl (λ l h, record l (held_jti h) at_) l held.

Definition on_response_body (f : Filter) (pins : option PinLedger) (body : string)
    : option PinLedger * BodyAction :=
  match fl_kind f with
  | KCatalog catalog =>
    if bool_decide (length (fl_held f) = 0) then (pins, Pass) else
    match from_slice body with
    | None => (pins, ActionRefuse SURFACE_UNOBTAINABLE)
    | Some frame =>
      let rewrite pins :=
        (pins, Rewrite (filter_catalog catalog (union_permitted (fl_held f) catalog) frame).1) in
      match vget "result" frame with
      | None => rewrite pins
      | Some result =>
        match Canon.pin McpTools (fl_callee f) result (fl_limits f) (fl_now f) with
        | Err e => (pins, ActionRefuse e)
        | Ok presented =>
          match pin_mismatch (fl_held f) presented with
          | Some e => (forget_all (fl_held f) <$> pins, ActionRefuse e)
          | None => rewrite (record_all (fl_held f) (fl_now f) <$> pins)
          end
        end
      end
    end
  | _ => (pins, Pass)
  end.
End Body.

(** ** The contract set *)

Record ContractSet (Z : Type) := mkContractSet {
  ks_cache : Cache;
  ks_last_good : N;
  ks_max_stale : N;
  ks_zones : Z;
  ks_mode : Mode
}.
Arguments mkContractSet {Z}.
Arguments ks_cache {Z}.
Arguments ks_last_good {Z}.
Arguments ks_max_stale {Z}.
Arguments ks_zones {Z}.
Arguments ks_mode {Z}.

Record Resolved := mkResolved { rs_admitted : AdmittedConn; rs_contract : VerifiedContract }.

Section ContractSets.
Context {Z : Type} `{ZoneRule Z}.

(** The key source's answer is the argument [keys]; [None] is its error. *)
Definition from_artifacts `{Sha256, Jose, SerdeParse} (artifacts : list string)
    (keys : option IssuerKeys) (mediator_id issuer : string) (zones : Z) (mode : Mode) (at_ max_stale : N)
    : option (ContractSet Z) :=
  keys ← keys;
  let snapshot := Snapshot_build artifacts (mkTrust keys mediator_id issuer) at_ in
  Some (mkContractSet (install Cache_new snapshot) at_ max_stale zones mode).

Definition mark_fresh (k : ContractSet Z) (at_ : N) : ContractSet Z :=
  mkContractSet (ks_cache k) at_ (ks_max_stale k) (ks_zones k) (ks_mode k).

Definition set_mark_used (k : ContractSet Z) (cid : string) (at_ : N) : ContractSet Z :=
  mkContractSet (mark_used (ks_cache k) cid at_) (ks_last_good k) (ks_max_stale k) (ks_zones k) (ks_mode k).

Definition stale (k : ContractSet Z) (now : N) : option N :=
  if (ks_max_stale k =? 0)%N then None
  else let age := saturating_sub now (ks_last_good k) in
       if (ks_max_stale k <? age)%N then Some age else None.

(** One contract of the pair, admitted or left out. *)
Definition admit_one (k : ContractSet Z) (peer : PeerIdentity) (now : N) (contract : VerifiedContract)
    : option Resolved :=
  match admit_context contract (mkAdmitCtx peer (Pin_empty now) None (ks_zones k) (ks_mode k)) with
  | Ok admitted => Some (mkResolved admitted contract)
  | Err _ => None
  end.

Definition set_resolve (k : ContractSet Z) (now : N) (caller : option string) (callee : string)
    : list Resolved :=
  match stale k now with
  | Some _ => []
  | None =>
    match caller with
    | None => []
    | Some caller =>
      match EntityId_new caller, EntityId_new callee with
      | Ok caller, Ok callee =>
        match resolve_all (ks_cache k) caller callee with
        | Ok contracts => omap (admit_one k (mkPeerIdentity caller callee) now) contracts
        | Err _ => []
        end
      | _, _ => []
      end
    end
  end.
End ContractSets.

(** What a binding hands the filter. *)
Definition held_of (l : list Resolved) : list Held :=
  (λ r, (rs_admitted r, Some (rs_contract r))) <$> l.

(** ** What every binding shares *)

Section Adapter.
Context `{SerdeJson, SerdeParse}.

Definition refusal_value (code : Code) (detail : string) : Value :=
  VObject
    [("error", VObject
       [("code", value_from_i64 (-32001));
        ("data", VObject [("code", VString (Code_to_string code)); ("summary", VString detail)]);
        ("message", VString ("BLOCKED by warden-connect: " +:+ Code_to_string code +:+ " " +:+ detail))]);
     ("id", VNull); ("jsonrpc", VString "2.0")].

Definition refusal_frame (code : Code) (detail : string) : string := to_string (refusal_value code detail).

Definition parse_request_frame (body : string) : result (string * Value) :=
  match from_slice body with
  | None => Err FRAME_MALFORMED
  | Some (VArray _) => Err FRAME_MALFORMED
  | Some frame =>
    Ok (default "" (vget "method" frame ≫= as_str), default VNull (vget "params" frame))
  end.
End Adapter.

Definition placeholder_callee : EntityId := mkEntityId "spiffe://unmapped.invalid/ns/x/sa/unmapped".

(** ** Which callee a route fronts *)

Record Entry := mkEntry { en_cluster : option string; en_route : option string; en_callee : string }.

(** [toml::from_str::<File>]: the [[[route]]] entries of a text, if it is one. *)
Class TomlRoutes := toml_routes : string → option (list Entry).

Inductive RouteError :=
| NotToml | NoEntries
| BadCallee (index : nat) (why : Code)
| NoKey (index : nat)
| ClusterTwice (cluster : string)
| RouteTwice (route : string)
| Unreadable.

Record Table := mkTable { by_cluster : gmap string EntityId; by_route : gmap string EntityId }.
Definition Table_default : Table := mkTable ∅ ∅.

(** [BTreeMap::insert(..).is_some()] refused: a key already there. *)
Definition add_key (m : gmap string EntityId) (k : option string) (callee : EntityId) (twice : string → RouteError)
    : Result (gmap string EntityId) RouteError :=
  match k with
  | None => Ok m
  | Some k => guard_err (bool_decide (is_Some (m !! k))) (twice k) $ Ok (<[k := callee]> m)
  end.

Definition add_entry (i : nat) (t : Table) (e : Entry) : Result Table RouteError :=
  let? callee := map_err (BadCallee i) (EntityId_new (en_callee e)) in
  guard_err (match en_cluster e, en_route e with None, None => true | _, _ => false end) (NoKey i) $
  let? c := add_key (by_cluster t) (en_cluster e) callee ClusterTwice in
  let? r := add_key (by_route t) (en_route e) callee RouteTwice in
  Ok (mkTable c r).

Fixpoint add_entries (i : nat) (t : Table) (es : list Entry) : Result Table RouteError :=
  match es with
  | [] => Ok t
  | e :: es => let? t := add_entry i t e in add_entries (S i) t es
  end.

Definition Table_parse `{TomlRoutes} (text : string) : Result Table RouteError :=
  match toml_routes text with
  | None => Err NotToml
  | Some [] => Err NoEntries
  | Some es => add_entries 0 Table_default es
  end.

Definition Table_lookup (t : Table) (cluster route : option string) : option EntityId :=
  match c ← cluster; by_cluster t !! c with
  | Some callee => Some callee
  | None => r ← route; by_route t !! r
  end.

Definition Table_len (t : Table) : nat := size (by_cluster t) + size (by_route t).
Definition Table_is_empty (t : Table) : bool := bool_decide (Table_len t = 0).

(** A table on disk.  What the file system answers is an argument: [None] when the file has
    no metadata, and else its modification time, if the system keeps one, and its text, if
    it can be read. *)
Record RouteFile := mkRouteFile { rf_mtime : option N; rf_text : option string }.
Record Routes := mkRoutes { ro_table : Table; ro_mtime : option N }.
Inductive Reload := Unchanged | Installed (keys : nat) | Failed (why : RouteError).

Definition Routes_load `{TomlRoutes} (file : option RouteFile) : Result Routes RouteError :=
  let? text := ok_or (file ≫= rf_text) Unreadable in
  let? table := Table_parse text in
  Ok (mkRoutes table (file ≫= rf_mtime)).

Definition reload_if_changed `{TomlRoutes} (r : Routes) (file : option RouteFile) : Routes * Reload :=
  match file with
  | None => (r, Unchanged)
  | Some f =>
    if bool_decide (ro_mtime r = rf_mtime f) then (r, Unchanged) else
    match rf_text f with
    | None => (r, Failed Unreadable)
    | Some text =>
      match Table_parse text with
      | Ok t => (mkRoutes t (rf_mtime f), Installed (Table_len t))
      | Err why => (r, Failed why)
      end
    end
  end.

(** ** Lemmas *)

Definition EntryValid (e : Entry) : Prop :=
  is_ok (EntityId_new (en_callee e)) = true ∧ (en_cluster e ≠ None ∨ en_route e ≠ None).

(** The pairs a list of entries puts in one of the two maps. *)
Definition keyed (key : Entry → option string) (es : list Entry) : list (string * EntityId) :=
  omap (λ e, (λ k, (k, mkEntityId (en_callee e))) <$> key e) es.

Definition fresh (m : gmap string EntityId) (kvs : list (string * EntityId)) : Prop :=
  NoDup kvs.*1 ∧ ∀ k, k ∈ kvs.*1 → m !! k = None.

Lemma add_key_ok m k callee twice m' :
  add_key m k callee twice = Ok m' ↔
  (∀ x, k = Some x → m !! x = None) ∧ m' = match k with None => m | Some x => <[x := callee]> m end.
Proof.
  destruct k as [k|]; simpl; [|naive_solver].
  rewrite guard_err_ok, bool_decide_eq_false, <-eq_None_not_Some. naive_solver.
Qed.

Lemma keyed_single key e (m : gmap string EntityId) :
  list_to_map (keyed key [e]) ∪ m
  = match key e with None => m | Some k => <[k := mkEntityId (en_callee e)]> m end.
Proof.
  unfold keyed. simpl. destruct (key e); simpl; [|by rewrite (left_id_L ∅ (∪))].
  by rewrite insert_empty, <-insert_union_singleton_l.
Qed.

Lemma add_entry_ok i t e t' :
  add_entry i t e = Ok t' ↔
  EntryValid e ∧ (∀ x, en_cluster e = Some x → by_cluster t !! x = None) ∧
  (∀ x, en_route e = Some x → by_route t !! x = None) ∧
  t' = mkTable (list_to_map (keyed en_cluster [e]) ∪ by_cluster t) (list_to_map (keyed en_route [e]) ∪ by_route t).
Proof.
  unfold add_entry, EntryValid. rewrite result_bind_ok.
  assert (∀ c, map_err (BadCallee i) (EntityId_new (en_callee e)) = Ok c ↔
               is_ok (EntityId_new (en_callee e)) = true ∧ c = mkEntityId (en_callee e)) as Hc.
  { intros c. rewrite <-EntityId_new_ok. destruct (EntityId_new _); simpl; naive_solver. }
  setoid_rewrite Hc. setoid_rewrite guard_err_ok. setoid_rewrite result_bind_ok.
  setoid_rewrite add_key_ok. setoid_rewrite result_bind_ok. setoid_rewrite add_key_ok.
  rewrite !keyed_single. destruct (en_cluster e), (en_route e); (split; [|naive_solver]);
    intros (? & [? ->] & ? & ? & [? ->] & ? & [? ->] & [= <-]); naive_solver.
Qed.

Lemma fresh_step m key e es :
  fresh (list_to_map (keyed key [e]) ∪ m) (keyed key es) ∧ (∀ x, key e = Some x → m !! x = None) ↔
  fresh m (keyed key (e :: es)).
Proof.
  rewrite keyed_single. unfold fresh, keyed. simpl. destruct (key e) as [k|]; simpl; [|naive_solver].
  rewrite NoDup_cons. setoid_rewrite elem_of_cons. setoid_rewrite lookup_insert_None. naive_solver.
Qed.

Lemma keyed_cons_map m key e es :
  fresh m (keyed key (e :: es)) →
  list_to_map (keyed key es) ∪ (list_to_map (keyed key [e]) ∪ m) = (list_to_map (keyed key (e :: es)) ∪ m : gmap _ _).
Proof.
  rewrite keyed_single. unfold fresh, keyed. simpl. destruct (key e) as [k|]; simpl; [|done].
  intros [[Hk _]%NoDup_cons _]. rewrite <-insert_union_r, insert_union_l; [done|].
  by apply not_elem_of_list_to_map_1.
Qed.

Lemma add_entries_ok i t es t' :
  add_entries i t es = Ok t' ↔
  Forall EntryValid es ∧ fresh (by_cluster t) (keyed en_cluster es) ∧ fresh (by_route t) (keyed en_route es) ∧
  t' = mkTable (list_to_map (keyed en_cluster es) ∪ by_cluster t) (list_to_map (keyed en_route es) ∪ by_route t).
Proof.
  revert i t. induction es as [|e es IH]; intros i t; cbn [add_entries].
  - unfold fresh, keyed. simpl. rewrite !(left_id_L ∅ (∪)). destruct t as [c r]; simpl.
    split; [|naive_solver]. intros [= <-]. repeat split; try constructor; set_solver.
  - rewrite result_bind_ok. setoid_rewrite add_entry_ok. setoid_rewrite IH. rewrite Forall_cons.
    rewrite <-!fresh_step. split.
    + intros (? & (Hv & Hc & Hr & ->) & Hf & Hfc & Hfr & ->). cbn [by_cluster by_route] in *.
      rewrite !keyed_cons_map by (apply fresh_step; split; assumption). tauto.
    + intros ((Hv & Hf) & (Hfc & Hc) & (Hfr & Hr) & ->). eexists. split; [by eauto|]. cbn [by_cluster by_route].
      split; [done|]. split; [done|]. split; [done|].
      by rewrite !keyed_cons_map by (apply fresh_step; split; assumption).
Qed.

(** ** Properties *)

(** What the operator's file says of one request: the entry for the cluster, and the entry
    for the route only when no entry names the cluster. *)
Definition routed (es : list Entry) (cluster route : option string) (callee : EntityId) : Prop :=
  (∃ e, e ∈ es ∧ cluster ≠ None ∧ en_cluster e = cluster ∧ callee = mkEntityId (en_callee e)) ∨
  ((∀ e, e ∈ es → cluster ≠ None → en_cluster e ≠ cluster) ∧
   ∃ e, e ∈ es ∧ route ≠ None ∧ en_route e = route ∧ callee = mkEntityId (en_callee e)).

Lemma elem_of_keyed key es k c : (k, c) ∈ keyed key es ↔ ∃ e, e ∈ es ∧ key e = Some k ∧ c = mkEntityId (en_callee e).
Proof.
  unfold keyed. rewrite list_elem_of_omap. split.
  - intros (e & He & Hf). exists e. destruct (key e); simpl in Hf; naive_solver.
  - intros (e & He & Hk & ->). exists e. by rewrite Hk.
Qed.

Lemma keyed_lookup key es k c :
  NoDup (keyed key es).*1 →
  (list_to_map (keyed key es) : gmap string EntityId) !! k = Some c ↔
  ∃ e, e ∈ es ∧ key e = Some k ∧ c = mkEntityId (en_callee e).
Proof. intros Hd. rewrite <-elem_of_list_to_map by done. apply elem_of_keyed. Qed.

Lemma keyed_lookup_None key es k :
  (list_to_map (keyed key es) : gmap string EntityId) !! k = None ↔ ∀ e, e ∈ es → key e ≠ Some k.
Proof.
  rewrite <-not_elem_of_list_to_map, list_elem_of_fmap. split.
  - intros Hn e He Hk. apply Hn. exists (k, mkEntityId (en_callee e)). split; [done|]. apply elem_of_keyed. eauto.
  - intros Hn ([k' c] & -> & (e & He & Hk & _)%elem_of_keyed). by eapply Hn.
Qed.

Lemma Table_parse_ok `{TomlRoutes} text t :
  Table_parse text = Ok t ↔ ∃ es, toml_routes text = Some es ∧ es ≠ [] ∧ Forall EntryValid es ∧
    NoDup (keyed en_cluster es).*1 ∧ NoDup (keyed en_route es).*1 ∧
    t = mkTable (list_to_map (keyed en_cluster es)) (list_to_map (keyed en_route es)).
Proof.
  unfold Table_parse. destruct (toml_routes text) as [[|e es]|] eqn:E; [naive_solver| |naive_solver].
  rewrite add_entries_ok. unfold fresh. simpl. rewrite !(right_id_L ∅ (∪)). split.
  - intros (Hv & [Hc _] & [Hr _] & ->). exists (e :: es). by repeat split.
  - intros (? & [= <-] & _ & Hv & Hc & Hr & ->). repeat split; done.
Qed.

Lemma keyed_keys key es : (keyed key es).*1 = omap key es.
Proof.
  unfold keyed. induction es as [|e es IH]; [done|]. simpl. destruct (key e); simpl; by f_equal.
Qed.

(** The route table is what the operator wrote, or is not installed at all: a text is
    accepted exactly when it has entries, every entry names a valid callee and something to
    match on, and no cluster and no route is mapped twice; an accepted table sends a
    request to the callee of the entry for its cluster, falling back to its route only when
    no entry names the cluster, and to nobody otherwise; and a reload either leaves the
    serving table and its recorded time untouched -- so a broken file is tried again -- or
    installs the table the file now parses to. *)
Theorem route_table_exact `{TomlRoutes} text r file :
  let accepted es := es ≠ [] ∧ Forall EntryValid es ∧ NoDup (omap en_cluster es) ∧ NoDup (omap en_route es) in
  ((∃ t, Table_parse text = Ok t) ↔ ∃ es, toml_routes text = Some es ∧ accepted es) ∧
  (∀ t es cluster route callee, Table_parse text = Ok t → toml_routes text = Some es →
     (Table_lookup t cluster route = Some callee ↔ routed es cluster route callee)) ∧
  (let '(r', outcome) := reload_if_changed r file in
   match outcome with
   | Installed n => ∃ mtime text', file = Some (mkRouteFile mtime (Some text')) ∧ mtime ≠ ro_mtime r ∧
       Table_parse text' = Ok (ro_table r') ∧ ro_mtime r' = mtime ∧ n = Table_len (ro_table r') ∧ 0 < n
   | _ => r' = r
   end).
Proof.
  cbv zeta. split; [|split].
  - setoid_rewrite Table_parse_ok. setoid_rewrite keyed_keys. naive_solver.
  - intros t es cluster route callee (es' & E & _ & _ & Hc & Hr & ->)%Table_parse_ok Hes.
    rewrite Hes in E. injection E as <-. unfold Table_lookup, routed. simpl.
    destruct cluster as [c|]; simpl.
    + destruct (_ !! c) as [x|] eqn:Ec.
      * split.
        -- intros [= <-]. left. apply keyed_lookup in Ec; [naive_solver|done].
        -- intros [(e & He & _ & Hk & ->)|[Hn _]].
           ++ rewrite <-Ec. apply keyed_lookup; [done|]. eauto.
           ++ apply keyed_lookup in Ec as (e & He & Hk & _); [|done]. by destruct (Hn e He).
      * rewrite keyed_lookup_None in Ec. destruct route as [ro|]; simpl; [|naive_solver].
        rewrite keyed_lookup by done. naive_solver.
    + destruct route as [ro|]; simpl; [|naive_solver]. rewrite keyed_lookup by done. naive_solver.
  - destruct file as [[mtime [text'|]]|]; simpl; [|by case_bool_decide|done].
    case_bool_decide as Hm; [done|]. destruct (Table_parse text') as [t|why] eqn:E; [|done].
    exists mtime, text'. repeat split; try done.
    apply Table_parse_ok in E as (es & _ & Hne & Hv & Hc & Hr & ->). unfold Table_len. simpl.
    destruct es as [|e es]; [done|]. apply Forall_cons in Hv as [[_ Hk] _].
    assert (∀ key k, key e = Some k → 0 < size (list_to_map (keyed key (e :: es)) : gmap string EntityId)) as Hsz.
    { intros key k Hkey. apply Nat.neq_0_lt_0. intros Hz%map_size_empty_inv.
      assert ((list_to_map (keyed key (e :: es)) : gmap string EntityId) !! k = None) as Hn by (by rewrite Hz, lookup_empty).
      rewrite keyed_lookup_None in Hn. by destruct (Hn e (list_elem_of_here _ _)). }
    destruct (en_cluster e) as [k|] eqn:Ek; [pose proof (Hsz en_cluster k Ek); simpl in *; lia|].
    destruct (en_route e) as [k|] eqn:Er; [pose proof (Hsz en_route k Er); simpl in *; lia|]. naive_solver.
Qed.

(** ** What is let through *)

Section Enforcement.
Context {Z : Type} `{ZoneRule Z}.
Implicit Types (k : ContractSet Z) (r : Resolved).

(** A connection the gateway may hold for a pair: of a contract in a set that is not stale,
    between exactly these parties, nothing about which is revoked, and which passed the
    context checks. *)
Definition granted k (now : N) (caller : option string) (callee : string) r : Prop :=
  stale k now = None ∧
  ∃ cl ce, caller = Some (entity_str cl) ∧ callee = entity_str ce ∧
    EntityId_new (entity_str cl) = Ok cl ∧ EntityId_new (entity_str ce) = Ok ce ∧
    rs_contract r ∈ all_for_pair (ca_live (ks_cache k)) cl ce ∧
    ¬ revoked_by (ca_revocations (ks_cache k)) (rs_contract r) ∧
    admit_context (rs_contract r)
      (mkAdmitCtx (mkPeerIdentity cl ce) (Pin_empty now) None (ks_zones k) (ks_mode k)) = Ok (rs_admitted r).

(** The pin of a contract was verified, and recently enough, if a ledger is kept. *)
Definition pin_fresh (f : Filter) (pins : option PinLedger) (jti : string) : Prop :=
  ∀ l, pins = Some l → ∃ at_, verified_at l jti = Some at_ ∧
    (fl_pin_max_age f = 0%N ∨ (fl_now f - at_ ≤ fl_pin_max_age f)%N).

Lemma admit_one_spec k peer now contract r :
  admit_one k peer now contract = Some r ↔
  contract = rs_contract r ∧
  admit_context contract (mkAdmitCtx peer (Pin_empty now) None (ks_zones k) (ks_mode k)) = Ok (rs_admitted r).
Proof.
  unfold admit_one. destruct (admit_context _ _) as [a|e]; destruct r; simpl; naive_solver.
Qed.

Lemma resolve_all_elem c caller callee l x :
  resolve_all c caller callee = Ok l →
  (x ∈ l ↔ x ∈ all_for_pair (ca_live c) caller callee ∧ ¬ revoked_by (ca_revocations c) x).
Proof.
  unfold resolve_all. destruct (rv_distrusted _) as [why|] eqn:Hd; [done|]. intros [= <-].
  rewrite elem_of_filterb, !andb_true_iff, !negb_true_iff. cbn. rewrite !bool_decide_eq_false.
  unfold revoked_by. rewrite Hd, is_Some_alt. naive_solver.
Qed.

Lemma resolve_all_err c caller callee e x : resolve_all c caller callee = Err e → revoked_by (ca_revocations c) x.
Proof. unfold resolve_all, revoked_by. destruct (rv_distrusted _); [by left; eexists|done]. Qed.

Lemma set_resolve_elem k now caller callee r :
  r ∈ set_resolve k now caller callee ↔ granted k now caller callee r.
Proof.
  unfold set_resolve, granted. destruct (stale k now); [set_solver|].
  destruct caller as [cl|]; [|split; [set_solver|naive_solver]].
  destruct (EntityId_new cl) as [cl'|] eqn:Ecl.
  2:{ split; [set_solver|]. intros (_ & ? & ? & [= ->] & _ & Hx & _). by rewrite Ecl in Hx. }
  pose proof (EntityId_new_str _ _ Ecl) as ->.
  destruct (EntityId_new callee) as [ce|] eqn:Ece.
  2:{ split; [set_solver|]. intros (_ & ? & ? & _ & -> & _ & Hx & _). by rewrite Ece in Hx. }
  pose proof (EntityId_new_str _ _ Ece) as ->.
  assert (∀ a b : EntityId, entity_str a = entity_str b → a = b) as Hinj by (intros [] []; simpl; congruence).
  destruct (resolve_all _ cl' ce) as [l|e] eqn:El.
  - rewrite list_elem_of_omap. setoid_rewrite admit_one_spec. split.
    + intros (x & Hx & -> & Ha). apply (resolve_all_elem _ _ _ _ _ El) in Hx as [Hx Hn].
      split; [done|]. exists cl', ce. by repeat split.
    + intros (_ & a & b & [= Ha%Hinj] & Hb%Hinj & _ & _ & Hx & Hn & Hc). subst a b.
      exists (rs_contract r). rewrite (resolve_all_elem _ _ _ _ _ El). naive_solver.
  - split; [set_solver|]. intros (_ & ? & ? & _ & _ & _ & _ & _ & Hn & _). destruct Hn. by eapply resolve_all_err.
Qed.

Lemma pin_verdict_forward f pins jti : pin_verdict f pins jti = Forward ↔ pin_fresh f pins jti.
Proof.
  unfold pin_verdict, pin_fresh. destruct pins as [l|]; [|naive_solver].
  destruct (verified_at l jti) as [at_|] eqn:E; [|naive_solver].
  unfold saturating_sub. case_match eqn:Eb.
  - apply andb_true_iff in Eb as [?%N.ltb_lt ?%N.ltb_lt]. split; [done|].
    intros Hl. destruct (Hl l eq_refl) as (x & Hx & ?). rewrite E in Hx. injection Hx as <-. lia.
  - apply andb_false_iff in Eb. rewrite !N.ltb_ge in Eb. split; [|done].
    intros _ ? [= <-]. exists at_. split; [done|]. lia.
Qed.

Lemma governing_held f rs tool :
  fl_held f = held_of rs →
  governing f tool = held_of (filterb (λ r, str_in tool (adm_items (rs_admitted r))) rs).
Proof.
  unfold governing. intros ->. unfold held_of. induction rs as [|r rs IH]; [done|].
  simpl. destruct (str_in tool _); simpl; [by f_equal|done].
Qed.

(** When a [tools/call] passes the filter of a stream that holds these connections. *)
Lemma call_forwarded (held : list Resolved) now cfg pins params :
  let f := Filter_new (held_of held) now cfg in
  (on_request f pins "tools/call" params).2 = Forward ↔
     (held = [] ∧ fc_mode cfg = Observe) ∨
     ∃ tool args r, parse_tool_call params = Some (tool, args) ∧
       filterb (λ r, str_in tool (adm_items (rs_admitted r))) held = [r] ∧
       r ∈ held ∧ tool ∈ adm_items (rs_admitted r) ∧
       pin_fresh f pins (jti_str (adm_jti (rs_admitted r))).
Proof.
  intros f.
  unfold on_request. change (fl_held f) with (held_of held).
  assert (length (held_of held) = 0 ↔ held = []) as Hl by (unfold held_of; rewrite length_fmap; by destruct held).
  case_bool_decide as Hh; rewrite Hl in Hh.
  - simpl. destruct (fc_mode cfg); simpl; [split; [done|]|naive_solver].
    intros [[_ [=]]|(? & ? & ? & _ & Hf & _)]. by rewrite Hh in Hf.
  - simpl. unfold call_verdict. destruct (parse_tool_call params) as [[tool args]|].
    2:{ split; [done|]. by intros [[? _]|(? & ? & ? & [=] & _)]. }
    rewrite (governing_held f held tool eq_refl). unfold held_of.
    destruct (filterb _ held) as [|r [|r' rs]] eqn:Eg; simpl.
    1,3: split; [done|]; intros [[? _]|(? & ? & ? & [= <- <-] & Hg & _)]; [done|]; by rewrite Eg in Hg.
    unfold held_jti. simpl. rewrite pin_verdict_forward. split.
    + intros Hp. right. exists tool, args, r. split; [done|]. split; [done|].
      assert (r ∈ filterb (λ r, str_in tool (adm_items (rs_admitted r))) held) as Hr by (rewrite Eg; by left).
      apply elem_of_filterb in Hr as [Hr Ht]. unfold str_in in Ht. rewrite bool_decide_eq_true in Ht. done.
    + intros [[? _]|(? & ? & ? & [= <- <-] & Hg & _ & _ & Hp)]; [done|]. rewrite Eg in Hg. injection Hg as <-. done.
Qed.

(** C2: what a gateway lets through.  The connections it holds for a request are exactly
    those of the verified contracts between the authenticated caller and the routed callee
    -- in a set refreshed recently enough, with nothing revoked -- that passed the context
    checks; and a [tools/call] is forwarded exactly when one of these connections, and only
    one, names the tool in its surface, and its pin was seen to match recently enough.
    With no connection at all a call passes only in observe mode. *)
Theorem gateway_calls_contracted k now caller callee cfg pins params :
  let held := set_resolve k now caller callee in
  let f := Filter_new (held_of held) now cfg in
  (∀ r, r ∈ held ↔ granted k now caller callee r) ∧
  ((on_request f pins "tools/call" params).2 = Forward ↔
     (held = [] ∧ fc_mode cfg = Observe) ∨
     ∃ tool args r, parse_tool_call params = Some (tool, args) ∧
       filterb (λ r, str_in tool (adm_items (rs_admitted r))) held = [r] ∧
       r ∈ held ∧ tool ∈ adm_items (rs_admitted r) ∧
       pin_fresh f pins (jti_str (adm_jti (rs_admitted r)))).
Proof. intros held f. split; [intros r; apply set_resolve_elem|apply call_forwarded]. Qed.
End Enforcement.

(** ** The ledger *)

(** The value of a cell after a sequence of writes is the last write's. *)
Lemma last_write {E V} (touch : E → option (option V)) (evs : list E) (x : V) :
  foldl (λ v e, default v (touch e)) None evs = Some x ↔
  ∃ before e after, evs = before ++ e :: after ∧ touch e = Some (Some x) ∧ ∀ e', e' ∈ after → touch e' = None.
Proof.
  induction evs as [|e evs IH] using rev_ind; [split; [done|]; by intros ([] & ? & ? & ? & _)|].
  rewrite foldl_app. simpl. split.
  - destruct (touch e) as [v|] eqn:Et; simpl.
    + intros ->. exists evs, e, []. repeat split; [done|]. by intros e' ?%elem_of_nil.
    + intros (b & e0 & a & -> & ? & Hall)%IH. exists b, e0, (a ++ [e]). rewrite <-app_assoc. split; [done|].
      split; [done|]. intros e' [Hin|Hin]%elem_of_app; [by apply Hall|]. by apply list_elem_of_singleton in Hin as ->.
  - intros (b & e0 & a & Heq & Ht & Hall). destruct a as [|z a _] using rev_ind.
    + apply app_inj_tail in Heq as [-> ->]. by rewrite Ht.
    + rewrite app_comm_cons, app_assoc in Heq. apply app_inj_tail in Heq as [-> ->].
      rewrite (Hall z) by set_solver. simpl. apply IH. exists b, e0, a. split; [done|]. split; [done|].
      intros e' Hin. apply Hall. set_solver.
Qed.

Section Ledger.
Context `{Sha256, SerdeJson, Nfc, SerdeParse}.

(** A response a gateway buffered: the filter of its stream, and the body. *)
Abbreviation BodyEvent := (Filter * string)%type.
Implicit Types (ev : BodyEvent) (l : PinLedger).

Definition jtis ev : list string := held_jti <$> fl_held ev.1.

(** The pin of the catalogue a body presents, if it is one that canonicalises. *)
Definition presented ev : option Pin :=
  match fl_kind ev.1 with
  | KCatalog _ =>
    frame ← from_slice ev.2; result ← vget "result" frame;
    match Canon.pin McpTools (fl_callee ev.1) result (fl_limits ev.1) (fl_now ev.1) with
    | Ok pin => Some pin
    | Err _ => None
    end
  | _ => None
  end.

(** It presents a surface every contract of the pair agrees with, or one that some contract
    of the pair does not. *)
Definition agrees ev : Prop :=
  ∃ pin, presented ev = Some pin ∧ ∀ h vc, h ∈ fl_held ev.1 → h.2 = Some vc → check_pin vc pin = Ok tt.
Definition drifts ev : Prop :=
  ∃ pin h vc, presented ev = Some pin ∧ h ∈ fl_held ev.1 ∧ h.2 = Some vc ∧ check_pin vc pin ≠ Ok tt.

(** The streams of one process share a ledger; their bodies arrive in some order. *)
Definition ledger_step l ev : PinLedger := default l (on_response_body ev.1 (Some l) ev.2).1.
Definition ledger_run l (evs : list BodyEvent) : PinLedger := foldl ledger_step l evs.

Lemma pin_mismatch_None held pin :
  pin_mismatch held pin = None ↔ ∀ h vc, h ∈ held → h.2 = Some vc → check_pin vc pin = Ok tt.
Proof.
  induction held as [|[a [vc|]] held IH]; simpl.
  - split; [|done]. intros _ h vc Hin. by apply elem_of_nil in Hin.
  - destruct (check_pin vc pin) as [[]|e] eqn:E.
    + rewrite IH. setoid_rewrite elem_of_cons. split.
      * intros Hp h vc' [->|Hin]; [by intros [= <-]|by eauto].
      * eauto.
    + split; [done|]. intros Hp. rewrite (Hp (a, Some vc) vc) in E; [done|by left|done].
  - rewrite IH. setoid_rewrite elem_of_cons. split; [|by eauto].
    intros Hp h vc' [->|Hin]; [done|by eauto].
Qed.

Lemma pin_mismatch_Some held pin :
  (∃ e, pin_mismatch held pin = Some e) ↔ ∃ h vc, h ∈ held ∧ h.2 = Some vc ∧ check_pin vc pin ≠ Ok tt.
Proof.
  split.
  - intros [e He]. induction held as [|[a [vc|]] held IH]; simpl in He; [done| |].
    + destruct (check_pin vc pin) as [[]|e'] eqn:E.
      * destruct (IH He) as (h & vc' & Hin & ?). exists h, vc'. split; [by right|done].
      * exists (a, Some vc), vc. rewrite E. split; [by left|done].
    + destruct (IH He) as (h & vc' & Hin & ?). exists h, vc'. split; [by right|done].
  - intros (h & vc & Hin & Hvc & Hn). destruct (pin_mismatch held pin) as [e|] eqn:E; [by eexists|].
    destruct Hn. by eapply pin_mismatch_None.
Qed.

Lemma fold_write_lookup (w : PinLedger → string → PinLedger) (v : option N) held l j :
  (∀ l k j, w l k !! j = if decide (j = k) then v else l !! j) →
  foldl (λ l (h : Held), w l (held_jti h)) l held !! j = if bool_decide (j ∈ held_jti <$> held) then v else l !! j.
Proof.
  intros Hw. revert l. induction held as [|h held IH]; intros l; simpl; [done|]. rewrite IH, Hw.
  repeat (case_bool_decide || case_decide); set_solver.
Qed.

Lemma record_all_lookup held at_ l j :
  record_all held at_ l !! j = if bool_decide (j ∈ held_jti <$> held) then Some at_ else l !! j.
Proof.
  apply (fold_write_lookup (λ l k, record l k at_)). intros l0 k j0. cbv beta. unfold record, PinLedger in *.
  case_decide as Hk; [by rewrite Hk, lookup_insert_eq|]. by rewrite lookup_insert_ne.
Qed.

Lemma forget_all_lookup held l j :
  forget_all held l !! j = if bool_decide (j ∈ held_jti <$> held) then None else l !! j.
Proof.
  apply (fold_write_lookup forget). intros l0 k j0. unfold forget, PinLedger in *.
  case_decide as Hk; [by rewrite Hk, lookup_delete_eq|]. by rewrite lookup_delete_ne.
Qed.

(** What a body does to one record: nothing, or it writes or drops it. *)
Definition touch (j : string) ev : option (option N) :=
  if bool_decide (j ∈ jtis ev) then
    pin ← presented ev;
    Some (match pin_mismatch (fl_held ev.1) pin with None => Some (fl_now ev.1) | Some _ => None end)
  else None.

Lemma ledger_step_lookup l ev j : ledger_step l ev !! j = default (l !! j) (touch j ev).
Proof.
  unfold ledger_step, on_response_body, touch, presented, jtis. destruct ev as [f body]; simpl.
  destruct (fl_kind f) as [|catalog| |]; simpl; try by case_bool_decide.
  case_bool_decide as Hh; [apply nil_length_inv in Hh; by rewrite Hh|].
  destruct (from_slice body) as [frame|]; simpl; [|by case_bool_decide].
  destruct (vget "result" frame) as [result|]; simpl; [|by case_bool_decide].
  destruct (Canon.pin _ _ _ _ _) as [pin|e]; simpl; [|by case_bool_decide].
  destruct (pin_mismatch (fl_held f) pin) as [e|]; simpl.
  - rewrite forget_all_lookup. by case_bool_decide.
  - rewrite record_all_lookup. by case_bool_decide.
Qed.

Lemma touch_write j ev at_ : touch j ev = Some (Some at_) ↔ j ∈ jtis ev ∧ agrees ev ∧ fl_now ev.1 = at_.
Proof.
  unfold touch, agrees. case_bool_decide; [|naive_solver]. destruct (presented ev) as [pin|]; simpl; [|naive_solver].
  pose proof (pin_mismatch_None (fl_held ev.1) pin). destruct (pin_mismatch _ _); naive_solver.
Qed.

Lemma touch_none j ev : touch j ev = None ↔ (j ∈ jtis ev → ¬ agrees ev ∧ ¬ drifts ev).
Proof.
  unfold touch, agrees, drifts. case_bool_decide; [|naive_solver].
  destruct (presented ev) as [pin|]; simpl; [|naive_solver].
  pose proof (pin_mismatch_None (fl_held ev.1) pin). pose proof (pin_mismatch_Some (fl_held ev.1) pin).
  destruct (pin_mismatch _ _); naive_solver.
Qed.

Lemma ledger_run_lookup evs j :
  ledger_run PinLedger_new evs !! j = foldl (λ v e, default v (touch j e)) None evs.
Proof.
  unfold ledger_run. induction evs as [|ev evs IH] using rev_ind; [apply lookup_empty|].
  rewrite !foldl_app. simpl. by rewrite ledger_step_lookup, IH.
Qed.

Lemma elem_of_union_permitted held catalog n :
  n ∈ union_permitted held catalog ↔ ∃ h, h ∈ held ∧ n ∈ gw_permitted_for h.1 catalog.
Proof. unfold union_permitted. rewrite list_elem_of_bind. naive_solver. Qed.

Lemma on_response_body_rewrite f pins body out catalog :
  fl_kind f = KCatalog catalog → (on_response_body f pins body).2 = Rewrite out →
  ∃ frame, from_slice body = Some frame ∧
    out = (filter_catalog catalog (union_permitted (fl_held f) catalog) frame).1 ∧
    (is_Some (vget "result" frame) → agrees (f, body)).
Proof.
  intros Hk. unfold on_response_body, agrees, presented. simpl. rewrite Hk. case_bool_decide; [done|].
  destruct (from_slice body) as [frame|]; [|done]. simpl.
  destruct (vget "result" frame) as [result|] eqn:Hr; simpl.
  - destruct (Canon.pin _ _ _ _ _) as [pin|e]; [|done].
    destruct (pin_mismatch (fl_held f) pin) as [e|] eqn:Em; [done|]. simpl. intros [= <-].
    exists frame. do 2 (split; [done|]). intros _. exists pin. split; [done|]. by apply pin_mismatch_None.
  - intros [= <-]. exists frame. do 2 (split; [done|]). intros [v Hv]. by rewrite Hr in Hv.
Qed.

(** A pin record is evidence: after any interleaving of the responses the streams of a
    process buffered, a contract is on record as verified at a time exactly when some
    catalogue presented at that time, on a connection holding that contract, agreed with
    every contract of its pair, and since then no catalogue on a connection holding it has
    drifted from any contract of its pair, nor agreed again.  And what a stream shows of a
    catalogue it was handed is the part some contract of its pair covers, once the
    catalogue has agreed with all of them. *)
Theorem ledger_sound evs j at_ :
  (verified_at (ledger_run PinLedger_new evs) j = Some at_ ↔
   ∃ before ev after, evs = before ++ ev :: after ∧ (j ∈ jtis ev ∧ agrees ev ∧ fl_now ev.1 = at_) ∧
     ∀ ev', ev' ∈ after → j ∈ jtis ev' → ¬ agrees ev' ∧ ¬ drifts ev') ∧
  (∀ f pins body out catalog, fl_kind f = KCatalog catalog → (on_response_body f pins body).2 = Rewrite out →
     ∃ frame shown, from_slice body = Some frame ∧ list_at catalog out = Some shown ∧
       (∀ e, e ∈ shown ↔ e ∈ default [] (list_at catalog frame) ∧ ∃ n,
          vget (key_field catalog) e = Some (VString n) ∧ n ≠ "" ∧
          ∃ h, h ∈ fl_held f ∧ n ∈ gw_permitted_for h.1 catalog) ∧
       (is_Some (vget "result" frame) → agrees (f, body))).
Proof.
  split.
  - unfold verified_at. rewrite ledger_run_lookup, last_write. setoid_rewrite touch_write.
    by setoid_rewrite touch_none.
  - intros f pins body out catalog Hk (frame & Hf & -> & Ha)%(on_response_body_rewrite _ _ _ _ _ Hk).
    destruct (filter_catalog _ _ frame) as [out stat] eqn:E.
    apply filter_catalog_filtered in E as (Hl & _). exists frame. eexists. split; [done|]. split; [exact Hl|].
    split; [|done]. intros e. rewrite elem_of_filterb, contracted_true.
    by setoid_rewrite elem_of_union_permitted.
Qed.
End Ledger.

(** ** What is not looked at *)

(** The same connection, expiring at another time. *)
Definition expiring (exp : N) (h : Held) : Held :=
  let a := h.1 in
  (mkAdmittedConn (adm_cid a) (adm_jti a) (adm_items a) (adm_resources a) (adm_terms a) exp (adm_findings a), h.2).

Lemma governing_expiring exp f g tool :
  fl_held g = expiring exp <$> fl_held f → governing g tool = expiring exp <$> governing f tool.
Proof.
  unfold governing. intros ->. induction (fl_held f) as [|h held IH]; [done|]. simpl.
  destruct (str_in tool (adm_items h.1)); simpl; [by f_equal|done].
Qed.

(** The request phase never reads when a contract expires: with no refresh source to rebuild
    the set, an expired contract keeps being served. *)
Theorem gateway_ignores_expiry exp held now cfg pins method params :
  (on_request (Filter_new (expiring exp <$> held) now cfg) pins method params).2
  = (on_request (Filter_new held now cfg) pins method params).2.
Proof.
  unfold on_request. cbn [fl_held Filter_new fl_mode]. rewrite length_fmap. case_bool_decide; [done|].
  destruct (Catalog_from_method method); [done|]. case_bool_decide; [|done]. simpl. unfold call_verdict.
  destruct (parse_tool_call params) as [[tool args]|]; [|done].
  rewrite (governing_expiring exp (Filter_new held now cfg)) by done.
  by destruct (governing _ tool) as [|h [|h' l]].
Qed.
