(* ===== verification/Binding.v ===== *)
(** * Binding: the two gateway bindings
    ([daemon/wc-extproc/src/main.rs], [crates/wc-kong/src/{abi,config}.rs], and the callers'
    identities of [crates/wc-gateway/src/adapter.rs])

    Envoy drives a filter through the messages of a stream, Kong through the calls of a C
    interface.  What the streams of a process share -- the contract set, the pin ledger, the
    decision trail and the route table -- is the record [World], threaded through every step;
    the instants the clock was read at and what a write to the trail came to are the argument
    [Moment].  Diagnostics and the prose of refusals are not modelled, a refusal is its code;
    nor are pointers and panics, an absent argument is [None]. *)

From S2P Require Import Prelude Text Errors Model Json Canon Contract Artifact Log Std Consent Attest Jwks Peer Trail Catalog Cache Client Gateway.

#[local] Open Scope N_scope.

(** ** What the streams of a process share *)

(** Where the callee of a stream comes from: the command line, or a table on disk. *)
Inductive CalleeSource := Single (callee : EntityId) | TableOf (routes : Routes).
Definition callee_of (s : CalleeSource) (cluster route : option string) : option EntityId :=
  match s with Single id => Some id | TableOf r => Table_lookup (ro_table r) cluster route end.

Record World (Z : Type) := mkWorld {
  wd_set : Gateway.ContractSet Z;
  wd_pins : option PinLedger;
  wd_trail : option FileSink;
  wd_callees : CalleeSource
}.
Arguments mkWorld {Z}.
Arguments wd_set {Z}.
Arguments wd_pins {Z}.
Arguments wd_trail {Z}.
Arguments wd_callees {Z}.

(** The clock where one step reads it, and the disk. *)
Record Moment := mkMoment {
  mo_resolved : N;     (* when the contract set is asked *)
  mo_opened : N;       (* when the filter is built *)
  mo_recorded : N;     (* on the row of the decision *)
  mo_used : N;         (* when usage is reported *)
  mo_micros : N;
  mo_write : WriteIo
}.

(** What a stream needs to write a record, filled in when its contracts are resolved. *)
Record Note := mkNote {
  nt_delivery : option Trail.Delivery;
  nt_cid : string; nt_jti : string; nt_caller : string; nt_callee : string; nt_mode : string
}.
Definition mode_name (m : Mode) : string := match m with Enforce => "enforce" | Observe => "observe" end.

(** The strictest of the deliveries the contracts of a pair ask for. *)
Definition strictest (ds : list Trail.Delivery) : option Trail.Delivery :=
  match ds with
  | [] => None
  | d :: ds => Some (foldl (λ a b, if bool_decide (a = Trail.Blocking) || bool_decide (b = Trail.Blocking) then Trail.Blocking else Trail.FailSafe) d ds)
  end.
Definition delivery_of (r : Resolved) : Trail.Delivery :=
  Trail.Delivery_parse (ev_delivery (evidence (pl_terms (vc_payload (rs_contract r))))).
Definition note_of (mode : Mode) (resolved : list Resolved) (caller : option string) (callee : string) : Note :=
  mkNote (strictest (map delivery_of resolved))
    (from_option (λ r, cid_str (adm_cid (rs_admitted r))) "" (head resolved))
    (from_option (λ r, jti_str (adm_jti (rs_admitted r))) "" (head resolved))
    (default "" caller) callee (mode_name mode).

(** Envoy's headers and attributes. *)
Record HeaderValue := mkHeaderValue { hv_key : string; hv_value : string; hv_raw : string }.
Abbreviation HttpHeaders := (option (list HeaderValue)).
Inductive AttrValue := AttrString (s : string) | AttrOther.

Section Bindings.
Context {Z : Type} `{ZoneRule Z} `{Sha256}.

Definition set_trail (w : World Z) (t : FileSink) : World Z := mkWorld (wd_set w) (wd_pins w) (Some t) (wd_callees w).
Definition set_pins (w : World Z) (p : option PinLedger) : World Z := mkWorld (wd_set w) p (wd_trail w) (wd_callees w).
(** [Note::write]: false only when the row could not be written and delivery is blocking. *)
Definition decision_of (n : Note) (verdict code tool : string) (m : Moment) (micros : N) : Trail.Decision :=
  mkDecision (nt_cid n) verdict code (nt_mode n) tool (nt_caller n) (nt_callee n) (nt_jti n) (mo_recorded m) micros.
Definition note_write (w : World Z) (n : Note) (verdict code tool : string) (m : Moment) (micros : N) : World Z * bool :=
  match wd_trail w with
  | None => (w, true)
  | Some t =>
    let '(t, ok) := record_or_refuse t (decision_of n verdict code tool m micros) (nt_delivery n) (mo_write m) in
    (set_trail w t, ok)
  end.
Definition note_used (w : World Z) (n : Note) (m : Moment) : World Z :=
  if bool_decide (nt_cid n = "") then w
  else mkWorld (set_mark_used (wd_set w) (nt_cid n) (mo_used m)) (wd_pins w) (wd_trail w) (wd_callees w).

(** ** Who is calling *)

Section Callers.
Context `{AttestCodec, !SerdeParse, !PeerCodec}.

Definition caller_name (p : result Peer.Peer) : option string :=
  match p with Ok p => Some (entity_str (peer_caller (pe_identity p))) | Err _ => None end.
(** [caller_from_tls]: only [SUCCESS] is an identity. *)
Definition caller_from_tls (verify cert_pem remote : option string) (callee : EntityId) : option string :=
  if negb (bool_decide (default "NONE" verify = "SUCCESS")) then None else
  pem ← cert_pem;
  match spiffe_from_cert_pem pem with
  | Err _ => None
  | Ok san => caller_name (Peer.resolve (Mtls callee) (Presented_mtls san (Tcp (default "unknown" remote))) 0)
  end.
Definition caller_from_xfcc (xfcc : option string) (trust : MeshTrust) (origin : Peer.Origin) (callee : EntityId) : option string :=
  xfcc ← xfcc; caller_name (Peer.resolve (Mesh trust callee) (Presented_mesh xfcc origin) 0).

(** ** Envoy *)


(** [str::from_utf8(..).ok()]. *)
Definition from_utf8 (s : string) : option string := if bool_decide (from_utf8_lossy s = s) then Some s else None.
Definition header_value (name : string) (h : HeaderValue) : option string :=
  if bool_decide (to_ascii_lowercase (hv_key h) = to_ascii_lowercase name)
  then if bool_decide (hv_value h = "") then from_utf8 (hv_raw h) else Some (hv_value h)
  else None.
Definition header (h : HttpHeaders) (name : string) : option string := hs ← h; head (omap (header_value name) hs).
(** [attribute], over the structs in the order the map yields them. *)
Definition attr_text (name : string) (st : gmap string AttrValue) : option string :=
  match st !! name with Some (AttrString s) => if bool_decide (s = "") then None else Some s | _ => None end.
Definition attribute (attrs : list (gmap string AttrValue)) (name : string) : option string := head (omap (attr_text name) attrs).

Inductive Message :=
| RequestHeaders (attrs : list (gmap string AttrValue)) (h : HttpHeaders)
| RequestBody (body : string)
| ResponseHeaders (h : HttpHeaders)
| ResponseBody (body : string)
| OtherMessage.
Inductive BodySendMode := SendNone | SendBuffered.
Inductive Response :=
| ContinueHeaders
| Immediate (code : Code)       (* status 200, the refusal frame as its body *)
| ContinueBody
| HeadersOut (body_mode : BodySendMode) (removed : list string)
| BodyOut (replacement : option string)
| NoOpinion.                    (* the default response: no override, nothing changed *)

Record Verifier := mkVerifier { ver_mode : Mode; ver_pin_max_age : N; ver_mesh : MeshTrust }.
Definition resolve_caller (h : HttpHeaders) (trust : MeshTrust) (origin : Peer.Origin) : option string :=
  match EntityId_new "spiffe://placeholder/ns/x/sa/callee" with
  | Ok callee => caller_from_xfcc (header h XFCC) trust origin callee
  | Err _ => None
  end.

(** The origin of the connection Envoy made: the host alone, its port is not an identity. *)
Definition origin_of_addr (remote_ip : option string) : Peer.Origin :=
  match remote_ip with Some ip => Tcp ip | None => Stdio end.

(** A stream: its filter and its note, once there are headers. *)
Record Stream := mkStream { sm_filter : option Gateway.Filter; sm_note : option Note }.
Definition Stream_new : Stream := mkStream None None.

Definition on_request_headers (v : Verifier) (origin : Peer.Origin) (w : World Z) (m : Moment)
    (attrs : list (gmap string AttrValue)) (h : HttpHeaders) : Stream :=
  let callee := callee_of (wd_callees w) (attribute attrs "xds.cluster_name") (attribute attrs "xds.route_name") in
  let caller := resolve_caller h (ver_mesh v) origin in
  let resolved := match callee, caller with
                  | Some cid, Some _ => set_resolve (wd_set w) (mo_resolved m) caller (entity_str cid)
                  | _, _ => []
                  end in
  let cfg := mkFilterCfg (ver_mode v) (default placeholder_callee callee) (ver_pin_max_age v) in
  mkStream (Some (Filter_new (held_of resolved) (mo_opened m) cfg))
    (Some (note_of (ver_mode v) resolved caller (from_option entity_str "" callee))).

Definition opt_write (w : World Z) (n : option Note) (verdict code tool : string) (m : Moment) (micros : N) : World Z * bool :=
  match n with None => (w, true) | Some n => note_write w n verdict code tool m micros end.
Definition opt_used (w : World Z) (n : option Note) (m : Moment) : World Z :=
  match n with None => w | Some n => note_used w n m end.

Definition on_request_body `{SerdeJson} (w : World Z) (f : Gateway.Filter) (n : option Note) (m : Moment) (body : string)
    : World Z * Gateway.Filter * Response :=
  match parse_request_frame body with
  | Err code => ((opt_write w n "deny" (Code_to_string code) "<unparseable frame>" m 0).1, f, Immediate code)
  | Ok (method, params) =>
    let tool := from_option fst method (parse_tool_call params) in
    let '(f, verdict) := on_request f (wd_pins w) method params in
    match verdict with
    | Forward =>
      let '(w, ok) := opt_write w n "allow" "WC-0000" tool m (mo_micros m) in
      if ok then (opt_used w n m, f, ContinueBody) else (w, f, Immediate BLOCKING_SINK_UNAVAILABLE)
    | Refuse code => ((opt_write w n "deny" (Code_to_string code) tool m (mo_micros m)).1, f, Immediate code)
    end
  end.

Definition envoy_response_headers (f : Gateway.Filter) (content_type : string) : Response :=
  match on_response_headers f content_type with
  | Buffer => HeadersOut SendBuffered ["content-length"]
  | Skip => HeadersOut SendNone []
  | BodyRefuse code => Immediate code
  end.
Definition envoy_response_body `{SerdeJson, Nfc} (w : World Z) (f : Gateway.Filter) (body : string) : World Z * Response :=
  let '(pins, action) := on_response_body f (wd_pins w) body in
  (set_pins w pins,
   match action with
   | Pass => BodyOut None
   | Rewrite frame => BodyOut (Some (to_string frame))
   | ActionRefuse code => Immediate code
   end).

(** The loop of [process], one message.  The filter a body without headers gets has no ledger,
    and, holding no contract, reads none. *)
Definition headerless (v : Verifier) (m : Moment) : Gateway.Filter :=
  Filter_new [] (mo_opened m) (mkFilterCfg (ver_mode v) placeholder_callee 0).
Definition envoy_step `{SerdeJson, Nfc} (v : Verifier) (origin : Peer.Origin) (w : World Z) (s : Stream) (msg : Message) (m : Moment)
    : World Z * Stream * Response :=
  match msg with
  | RequestHeaders attrs h => (w, on_request_headers v origin w m attrs h, ContinueHeaders)
  | RequestBody body =>
    let f := default (headerless v m) (sm_filter s) in
    let '(w, f, out) := on_request_body w f (sm_note s) m body in (w, mkStream (Some f) (sm_note s), out)
  | ResponseHeaders h =>
    (w, s, match sm_filter s with
           | Some f => envoy_response_headers f (default "" (header h "content-type"))
           | None => Immediate NO_CONTRACT
           end)
  | ResponseBody body =>
    match sm_filter s with
    | Some f => let '(w, out) := envoy_response_body w f body in (w, s, out)
    | None => (w, s, Immediate NO_CONTRACT)
    end
  | OtherMessage => (w, s, NoOpinion)
  end.

(** ** Kong *)

(** What the plugin observed of a request; nothing of it is an identity by itself. *)
Record KongPeer := mkKongPeer {
  kp_tls_verify : option string; kp_cert_pem : option string; kp_remote : option string; kp_xfcc : option string;
  kp_service : option string; kp_route : option string
}.
Inductive IdentitySource := FromTls | FromXfcc.
Record Handle := mkHandle {
  hd_mode : Mode; hd_pin_max_age : N; hd_identity : IdentitySource; hd_mesh : MeshTrust
}.
Record WcStream := mkWcStream { ws_filter : Gateway.Filter; ws_note : Note }.

(** What a call answers and what it puts in [out]. *)
Definition WC_FORWARD : BinNums.Z := 0%Z.
Definition WC_REFUSE : BinNums.Z := 1%Z.
Definition WC_BUFFER : BinNums.Z := 2%Z.
Definition WC_SKIP : BinNums.Z := 3%Z.
Definition WC_PASS : BinNums.Z := 4%Z.
Definition WC_REWRITE : BinNums.Z := 5%Z.
Definition WC_ERR_PANIC : BinNums.Z := (-1)%Z.
Definition WC_ERR_BADARG : BinNums.Z := (-2)%Z.
Inductive WcOut := OutEmpty | OutRefusal (code : Code) | OutBytes (bytes : string).
Definition kong_refuse (code : Code) : BinNums.Z * WcOut := (WC_REFUSE, OutRefusal code).

Definition origin_of (remote : option string) : Peer.Origin :=
  match remote with
  | Some r => match strip_prefix "unix:" r with Some path => UnixSocket path | None => Tcp r end
  | None => Tcp ""
  end.
Definition method_label (method : string) : string := if bool_decide (method = "") then "<no method>" else method.

Definition kong_caller (h : Handle) (p : KongPeer) (bound : EntityId) : option string :=
  match hd_identity h with
  | FromTls => caller_from_tls (kp_tls_verify p) (kp_cert_pem p) (kp_remote p) bound
  | FromXfcc => caller_from_xfcc (kp_xfcc p) (hd_mesh h) (origin_of (kp_remote p)) bound
  end.
(** [wc_stream_new], on a peer that parsed. *)
Definition wc_stream_new (h : Handle) (w : World Z) (p : KongPeer) (m : Moment) : WcStream :=
  let callee := callee_of (wd_callees w) (kp_service p) (kp_route p) in
  let bound := default placeholder_callee callee in
  let caller := kong_caller h p bound in
  let resolved := match callee with Some c => set_resolve (wd_set w) (mo_resolved m) caller (entity_str c) | None => [] end in
  mkWcStream (Filter_new (held_of resolved) (mo_opened m) (mkFilterCfg (hd_mode h) bound (hd_pin_max_age h)))
    (note_of (hd_mode h) resolved caller (entity_str bound)).

Definition is_catalog (f : Gateway.Filter) : bool := match fl_kind f with KCatalog _ => true | _ => false end.
Definition wc_on_request `{SerdeJson} (w : World Z) (s : WcStream) (m : Moment) (body : option string)
    : World Z * WcStream * (BinNums.Z * WcOut) :=
  match body with
  | None => (w, s, kong_refuse FRAME_MALFORMED)
  | Some body =>
    match parse_request_frame body with
    | Err code => ((note_write w (ws_note s) "deny" (Code_to_string code) "<unparseable frame>" m 0).1, s, kong_refuse code)
    | Ok (method, params) =>
      let tool := from_option fst (method_label method) (parse_tool_call params) in
      let '(f, verdict) := on_request (ws_filter s) (wd_pins w) method params in
      let s := mkWcStream f (ws_note s) in
      match verdict with
      | Forward =>
        let '(w, ok) := note_write w (ws_note s) "allow" "WC-0000" tool m (mo_micros m) in
        if ok then (note_used w (ws_note s) m, s, (if is_catalog f then WC_BUFFER else WC_FORWARD, OutEmpty))
        else (w, s, kong_refuse BLOCKING_SINK_UNAVAILABLE)
      | Refuse code => ((note_write w (ws_note s) "deny" (Code_to_string code) tool m (mo_micros m)).1, s, kong_refuse code)
      end
    end
  end.
Definition wc_on_response_headers (s : WcStream) (ctype : option string) : BinNums.Z * WcOut :=
  match on_response_headers (ws_filter s) (from_option from_utf8_lossy "" ctype) with
  | Buffer => (WC_BUFFER, OutEmpty)
  | Skip => (WC_SKIP, OutEmpty)
  | BodyRefuse code => kong_refuse code
  end.
Definition wc_on_response_body `{SerdeJson, Nfc} (w : World Z) (s : WcStream) (body : option string) : World Z * (BinNums.Z * WcOut) :=
  match body with
  | None => (w, kong_refuse SURFACE_UNOBTAINABLE)
  | Some body =>
    let '(pins, action) := on_response_body (ws_filter s) (wd_pins w) body in
    (set_pins w pins,
     match action with
     | Pass => (WC_PASS, OutEmpty)
     | Rewrite frame => (WC_REWRITE, OutBytes (to_string frame))
     | ActionRefuse code => kong_refuse code
     end)
  end.
(** [wc_refusal]: a number that is no code of the taxonomy is a configuration failure. *)
Definition wc_refusal (code : BinNums.Z) : BinNums.Z * WcOut :=
  let c := if (0 <=? code)%Z && (code <=? 65535)%Z then Code_new (BinInt.Z.to_N code) else None in
  kong_refuse (default CONFIG_INVALID c).
End Callers.

(** ** The refresh loop of a gateway

    The thread of [main] and of [Handle::open]: one turn, on what was read of the key set and
    what the network answered. *)

Section Loop.
Context `{Jose, !SerdeParse, ClientSerde}.

Record GatewayLoop := mkGatewayLoop { gl_trust : KeySource; gl_seq : N; gl_rev_seq : N }.
Definition with_cache (k : Gateway.ContractSet Z) (c : Cache) : Gateway.ContractSet Z :=
  Gateway.mkContractSet c (ks_last_good k) (ks_max_stale k) (ks_zones k) (ks_mode k).
Definition gateway_turn (net : Net) (mediator_id issuer : string) (at_ : N) (r : Reading)
    (k : Gateway.ContractSet Z) (l : GatewayLoop) : Gateway.ContractSet Z * GatewayLoop :=
  let '(trust, (keys, _)) := key_source_keys (gl_trust l) at_ r in
  match keys with
  | Err _ => (k, mkGatewayLoop trust (gl_seq l) (gl_rev_seq l))
  | Ok keys =>
    match Client.refresh net (mkTrust keys mediator_id issuer) (gl_seq l) (gl_rev_seq l) at_ (ks_cache k) with
    | (cache, Err _) => (with_cache k cache, mkGatewayLoop trust (gl_seq l) (gl_rev_seq l))
    | (cache, Ok report) =>
      let k := with_cache k cache in
      (if refresh_is_clean report then mark_fresh k at_ else k,
       mkGatewayLoop trust (rf_seq report)
         (match rf_revocations report with Some rev => rp_applied_seq rev | None => gl_rev_seq l end))
    end
  end.
End Loop.
End Bindings.

(** ** Lemmas: what a stream holds *)

Section Streams.
Context {Z : Type} `{ZoneRule Z} `{Sha256} `{AttestCodec, !SerdeParse, !PeerCodec} `{SerdeJson, Nfc}.

(** A stream is fed messages while the other streams of the process change what they share:
    each message comes with the world it found. *)
Abbreviation Event := (World Z * Message * Moment)%type.
Definition stream_after (v : Verifier) (origin : Peer.Origin) (evs : list Event) : Stream :=
  foldl (λ s e, (envoy_step v origin e.1.1 s e.1.2 e.2).1.2) Stream_new evs.

(** The last headers of a stream, the world and the moment they came in. *)
Definition headers_of (e : Event) : option (World Z * Moment * list (gmap string AttrValue) * HttpHeaders) :=
  match e.1.2 with RequestHeaders attrs h => Some (e.1.1, e.2, attrs, h) | _ => None end.
Definition last_headers (evs : list Event) := last (omap headers_of evs).

Definition routed_callee (w : World Z) (attrs : list (gmap string AttrValue)) : option EntityId :=
  callee_of (wd_callees w) (attribute attrs "xds.cluster_name") (attribute attrs "xds.route_name").
(** The contracts the last headers resolved. *)
Definition held_contracts (v : Verifier) (origin : Peer.Origin) (evs : list Event) : list Resolved :=
  match last_headers evs with
  | None => []
  | Some (w, m, attrs, h) =>
    match routed_callee w attrs, resolve_caller h (ver_mesh v) origin with
    | Some callee, Some caller => set_resolve (wd_set w) (mo_resolved m) (Some caller) (entity_str callee)
    | _, _ => []
    end
  end.
Definition opened_at (evs : list Event) : N := from_option (λ p, mo_opened p.1.1.2) 0 (last_headers evs).

Lemma set_kind_eta f : set_kind f (fl_kind f) = f.
Proof. by destruct f. Qed.
Lemma on_request_kind f pins method params : ∃ k, (on_request f pins method params).1 = set_kind f k.
Proof.
  unfold on_request. case_bool_decide; [by eexists|]. destruct (Catalog_from_method method); [by eexists|].
  case_bool_decide; by eexists.
Qed.
Lemma on_request_set_kind f k pins method params : on_request (set_kind f k) pins method params = on_request f pins method params.
Proof. by destruct f. Qed.

Lemma on_request_body_filter (w : World Z) f n m body : ∃ k, (on_request_body w f n m body).1.2 = set_kind f k.
Proof.
  unfold on_request_body. destruct (parse_request_frame body) as [[method params]|code]; [|exists (fl_kind f); by rewrite set_kind_eta].
  destruct (on_request_kind f (wd_pins w) method params) as [k Hk]. destruct (on_request _ _ _ _) as [f' verdict]. cbn in Hk. subst f'.
  exists k. destruct verdict; [|done]. by destruct (opt_write _ _ _ _ _ _ _) as [w' []].
Qed.

(** The filter of a stream is the one its last headers built, but for what it last saw. *)
Definition built (v : Verifier) (origin : Peer.Origin) (evs : list Event) (s : Stream) : Prop :=
  match last_headers evs with
  | None => sm_note s = None ∧ ∀ f, sm_filter s = Some f → fl_held f = [] ∧ fl_mode f = ver_mode v
  | Some (w, m, attrs, h) => ∃ k f, let s0 := on_request_headers v origin w m attrs h in
      sm_note s = sm_note s0 ∧ sm_filter s0 = Some f ∧ sm_filter s = Some (set_kind f k)
  end.
Lemma stream_built v origin evs : built v origin evs (stream_after v origin evs).
Proof.
  induction evs as [|[[w msg] m] evs IH] using rev_ind; [done|]. unfold stream_after. rewrite foldl_app. cbn [foldl fst snd].
  change (foldl _ Stream_new evs) with (stream_after v origin evs). set (s := stream_after v origin evs) in *.
  unfold built, last_headers in *. rewrite omap_app. destruct msg as [attrs h|body|h|body|]; cbn [omap list_omap headers_of fst snd].
  - rewrite last_snoc. cbn [envoy_step fst snd]. unfold on_request_headers. cbn. eexists _, _. split; [done|]. split; [done|].
    by rewrite set_kind_eta.
  - rewrite app_nil_r. cbn [envoy_step]. set (f := default (headerless v m) (sm_filter s)).
    destruct (on_request_body_filter w f (sm_note s) m body) as [k Hk].
    destruct (on_request_body w f (sm_note s) m body) as [[w' f'] out]. cbn in Hk |- *. subst f'.
    destruct (last (omap headers_of evs)) as [[[[w0 m0] attrs] h]|].
    + destruct IH as (k0 & f0 & Hn & Hf0 & Hf). exists k, f0. split; [done|]. split; [done|]. unfold f. by rewrite Hf.
    + destruct IH as [Hn Hf]. split; [done|]. intros g [= <-]. unfold f. destruct (sm_filter s) as [g|]; [exact (Hf g eq_refl)|done].
  - by rewrite app_nil_r.
  - assert ((envoy_step v origin w s (ResponseBody body) m).1.2 = s) as ->; [|by rewrite app_nil_r].
    cbn [envoy_step]. destruct (sm_filter s); [by destruct (envoy_response_body _ _ _)|done].
  - by rewrite app_nil_r.
Qed.

Lemma on_request_callee held now mode c c' age pins method params :
  (on_request (Filter_new held now (mkFilterCfg mode c age)) pins method params).2
  = (on_request (Filter_new held now (mkFilterCfg mode c' age)) pins method params).2.
Proof.
  unfold on_request. cbn [fl_held Filter_new fl_mode fc_mode]. case_bool_decide; [done|]. destruct (Catalog_from_method method); [done|].
  by case_bool_decide.
Qed.
(** A stream in terms of what it holds: its filter decides as one built from the contracts its
    last headers resolved. *)
Lemma stream_decides v origin evs m pins method params :
  let f := default (headerless v m) (sm_filter (stream_after v origin evs)) in
  (on_request f pins method params).2
  = (on_request (Filter_new (held_of (held_contracts v origin evs)) (opened_at evs)
       (mkFilterCfg (ver_mode v) placeholder_callee (ver_pin_max_age v))) pins method params).2.
Proof.
  intros f. pose proof (stream_built v origin evs) as Hb. unfold built, held_contracts, opened_at in *.
  destruct (last_headers evs) as [[[[w0 m0] attrs] h]|].
  - destruct Hb as (k & f0 & _ & Hf0 & Hf). unfold f. rewrite Hf. cbn [default from_option id]. rewrite on_request_set_kind.
    unfold on_request_headers in Hf0. cbn in Hf0. injection Hf0 as <-. unfold routed_callee.
    destruct (callee_of _ _ _) as [c|]; [|done]. destruct (resolve_caller _ _ _) as [caller|]; apply on_request_callee.
  - assert (fl_held f = [] ∧ fl_mode f = ver_mode v) as [Hh Hm].
    { destruct Hb as [_ Hb]. unfold f. destruct (sm_filter _) as [g|]; [by apply Hb|done]. }
    unfold on_request. rewrite Hh, Hm. done.
Qed.

(** The caller of a stream, as the mesh names it. *)
Definition mesh_named (v : Verifier) (origin : Peer.Origin) (h : HttpHeaders) (caller : EntityId) : Prop :=
  ∃ text uri, header h XFCC = Some text ∧ believed (ver_mesh v) origin ∧ xfcc_peer_uri text = Ok uri ∧ spiffe_id uri = Ok caller.
Lemma resolve_caller_named h v origin caller :
  resolve_caller h (ver_mesh v) origin = Some caller ↔ ∃ c, caller = entity_str c ∧ mesh_named v origin h c.
Proof.
  unfold resolve_caller, mesh_named, caller_from_xfcc.
  replace (EntityId_new "spiffe://placeholder/ns/x/sa/callee") with (Ok (E := Code) (mkEntityId "spiffe://placeholder/ns/x/sa/callee")) by (by vm_compute).
  destruct (header h XFCC) as [text|]; cbn [mbind option_bind]; [|naive_solver].
  unfold Peer.resolve, Presented_mesh. cbn [pr_origin pr_headers ok_or result_bind]. rewrite lookup_singleton_eq. cbn [ok_or result_bind].
  setoid_rewrite <-accepts_believed. destruct (accepts (ver_mesh v) origin); cbn [negb guard_err]; [|naive_solver].
  destruct (xfcc_peer_uri text) as [uri|e] eqn:Eu; cbn.
  2:{ split; [done|]. intros (c & _ & t & u & [= <-] & _ & Hu & _). congruence. }
  destruct (spiffe_id uri) as [c|e] eqn:E; cbn.
  - split; [intros [= <-]; exists c; split; [done|]; by exists text, uri|]. intros (c' & -> & t & u & [= <-] & _ & Hu & Hc). congruence.
  - split; [done|]. intros (c' & -> & t & u & [= <-] & _ & Hu & Hc). congruence.
Qed.

(** The contracts of a stream are those granted, when its last headers came, between the party
    the mesh named and the callee the operator routed to. *)
Lemma held_granted v origin evs r : r ∈ held_contracts v origin evs ↔
  ∃ w m attrs h caller callee, last_headers evs = Some (w, m, attrs, h) ∧ mesh_named v origin h caller ∧
    routed_callee w attrs = Some callee ∧ granted (wd_set w) (mo_resolved m) (Some (entity_str caller)) (entity_str callee) r.
Proof.
  unfold held_contracts. destruct (last_headers evs) as [[[[w m] attrs] h]|]; [|set_solver].
  destruct (routed_callee w attrs) as [callee|] eqn:Er; [|set_solver].
  destruct (resolve_caller h (ver_mesh v) origin) as [caller|] eqn:Ec.
  - rewrite set_resolve_elem. apply resolve_caller_named in Ec as (c & -> & Hc). split; [by exists w, m, attrs, h, c, callee|].
    intros (w' & m' & attrs' & h' & c' & callee' & [= <- <- <- <-] & Hc' & Hr & Hg). rewrite Er in Hr. injection Hr as <-.
    assert (entity_str c' = entity_str c) as <-; [|done].
    assert (resolve_caller h (ver_mesh v) origin = Some (entity_str c)) as Hx by (apply resolve_caller_named; eauto).
    assert (resolve_caller h (ver_mesh v) origin = Some (entity_str c')) as Hy by (apply resolve_caller_named; eauto). congruence.
  - split; [set_solver|]. intros (w' & m' & attrs' & h' & c' & callee' & [= <- <- <- <-] & Hc' & _).
    assert (resolve_caller h (ver_mesh v) origin = Some (entity_str c')) as Hy by (apply resolve_caller_named; eauto). congruence.
Qed.

Lemma record_written t d delivery io : (record_or_refuse t d delivery io).2 = true ↔
  io = Written ∨ default (fs_delivery t) delivery = Trail.FailSafe.
Proof. unfold record_or_refuse. destruct io; cbn; [naive_solver|]. destruct (default _ _); cbn; naive_solver. Qed.
Lemma strictest_blocking ds : strictest ds = Some Trail.Blocking ↔ Trail.Blocking ∈ ds.
Proof.
  destruct ds as [|d ds]; [set_solver|]. cbn [strictest].
  assert (∀ d, Some (foldl (λ a b, if bool_decide (a = Trail.Blocking) || bool_decide (b = Trail.Blocking) then Trail.Blocking else Trail.FailSafe) d ds)
            = Some Trail.Blocking ↔ d = Trail.Blocking ∨ Trail.Blocking ∈ ds) as Hf; [|rewrite Hf; set_solver].
  induction ds as [|b ds IH]; intros a; cbn [foldl]; [rewrite elem_of_nil; naive_solver|]. rewrite IH, elem_of_cons.
  destruct a, b; cbn; naive_solver.
Qed.

(** ** Properties *)

(** What a filter over these contracts lets pass: for a call, one of them alone names the tool,
    and its pin was seen to match recently enough. *)
Definition lets_pass (v : Verifier) (held : list Resolved) (opened : N) (pins : option PinLedger) (method : string) (params : Value) : Prop :=
  (held = [] ∧ ver_mode v = Observe) ∨
  (held ≠ [] ∧ (method = "tools/call" → ∃ tool args r, parse_tool_call params = Some (tool, args) ∧
     filterb (λ r, str_in tool (adm_items (rs_admitted r))) held = [r] ∧ r ∈ held ∧ tool ∈ adm_items (rs_admitted r) ∧
     ∀ l, pins = Some l → ∃ at_, verified_at l (jti_str (adm_jti (rs_admitted r))) = Some at_ ∧
       (ver_pin_max_age v = 0 ∨ opened - at_ ≤ ver_pin_max_age v))).
(** The row of a call is in the trail, or the terms let it go missing. *)
Definition may_go (w : World Z) (n : option Note) (m : Moment) : Prop :=
  ∀ t n', wd_trail w = Some t → n = Some n' → mo_write m = Written ∨ default (fs_delivery t) (nt_delivery n') = Trail.FailSafe.

Lemma catalog_not_call : Catalog_from_method "tools/call" = None.
Proof. by vm_compute. Qed.
Lemma on_request_lets v held opened pins method params :
  (on_request (Filter_new (held_of held) opened (mkFilterCfg (ver_mode v) placeholder_callee (ver_pin_max_age v))) pins method params).2 = Forward ↔
  lets_pass v held opened pins method params.
Proof.
  unfold lets_pass. destruct (decide (method = "tools/call")) as [->|Hm].
  - rewrite call_forwarded. unfold pin_fresh. cbn [fc_mode fl_pin_max_age fl_now Filter_new fc_pin_max_age]. split.
    + intros [?|(tool & args & r & Hp & Hf & Hr & Hrest)]; [by left|right]. split; [intros ->; by apply elem_of_nil in Hr|].
      intros _. by exists tool, args, r.
    + intros [?|[_ Hall]]; [by left|right]. by apply Hall.
  - unfold on_request. cbn [fl_held Filter_new fl_mode fc_mode].
    assert (length (held_of held) = 0%nat ↔ held = []) as Hl by (unfold held_of; rewrite length_fmap; by destruct held).
    case_bool_decide as Hh; rewrite Hl in Hh.
    + destruct (ver_mode v); cbn; (split; [try done|naive_solver]). intros _. by left.
    + rewrite (bool_decide_eq_false_2 (method = "tools/call")) by done.
      split; [intros _; by right|intros _]. by destruct (Catalog_from_method method).
Qed.
Lemma note_write_ok (w : World Z) n verdict code tool m micros : (note_write w n verdict code tool m micros).2 = true ↔ may_go w (Some n) m.
Proof.
  unfold note_write, may_go. destruct (wd_trail w) as [t|]; [|split; [by intros _ ?|done]].
  pose proof (record_written t (decision_of n verdict code tool m micros) (nt_delivery n) (mo_write m)) as Hr.
  destruct (record_or_refuse _ _ _ _) as [t' ok]. cbn in *. rewrite Hr. split; [by intros ? ? ? [= <-] [= <-]|]. intros Hg. by apply Hg.
Qed.
Lemma opt_write_ok (w : World Z) n verdict code tool m micros : (opt_write w n verdict code tool m micros).2 = true ↔ may_go w n m.
Proof. destruct n as [n|]; [apply note_write_ok|]. split; [by intros _ ? ? _|done]. Qed.

(** C3: what the Envoy binding lets through, over any stream of messages and whatever the other
    streams of the process do in between.  A request body is passed on exactly when it is one
    frame the filter lets pass -- over the contracts held, a call needs one of them alone to
    name its tool and its pin to have been seen to match; without contracts only observe mode
    passes anything -- and its row is in the trail, or its delivery is fail-safe.  The
    contracts held are exactly those granted, when the last headers came, between the caller
    the mesh named, from an origin it may be believed from, and the callee of the operator's
    route: without headers there are none. *)
Theorem envoy_passes_contracted v origin evs w body m :
  let s := stream_after v origin evs in
  let held := held_contracts v origin evs in
  ((envoy_step v origin w s (RequestBody body) m).2 = ContinueBody ↔
     (∃ method params, parse_request_frame body = Ok (method, params) ∧
        lets_pass v held (opened_at evs) (wd_pins w) method params) ∧ may_go w (sm_note s) m) ∧
  (∀ r, r ∈ held ↔ ∃ w0 m0 attrs h caller callee, last_headers evs = Some (w0, m0, attrs, h) ∧
     mesh_named v origin h caller ∧ routed_callee w0 attrs = Some callee ∧
     granted (wd_set w0) (mo_resolved m0) (Some (entity_str caller)) (entity_str callee) r).
Proof.
  intros s held. split; [|intros r; apply held_granted]. cbn [envoy_step].
  pose proof (stream_decides v origin evs m (wd_pins w)) as Hd. cbv zeta in Hd. fold s held in Hd.
  set (f := default (headerless v m) (sm_filter s)) in *. unfold on_request_body.
  destruct (parse_request_frame body) as [[method params]|code]; cbn.
  2:{ split; [done|]. by intros [(? & ? & [=] & _) _]. }
  assert ((on_request f (wd_pins w) method params).2 = Forward ↔ lets_pass v held (opened_at evs) (wd_pins w) method params) as Hl
    by (rewrite Hd; apply on_request_lets).
  destruct (on_request f (wd_pins w) method params) as [f' verdict]. cbn in Hl. destruct verdict as [|code]; cbn.
  - pose proof (opt_write_ok w (sm_note s) "allow" "WC-0000" (from_option fst method (parse_tool_call params)) m (mo_micros m)) as Hw.
    destruct (opt_write _ _ _ _ _ _ _) as [w' ok]. cbn in Hw. rewrite <-Hw. destruct ok; cbn; [|naive_solver].
    split; [intros _|done]. split; [|done]. exists method, params. split; [done|]. by apply Hl.
  - split; [done|]. intros [(? & ? & [= <- <-] & Hp) _]. apply Hl in Hp. done.
Qed.

(** What two streams share apart from the trail. *)
Definition same_but_trail (w w' : World Z) : Prop := wd_set w = wd_set w' ∧ wd_pins w = wd_pins w' ∧ wd_callees w = wd_callees w'.
Lemma note_write_shares (w : World Z) n verdict code tool m micros : same_but_trail (note_write w n verdict code tool m micros).1 w.
Proof. unfold note_write. destruct (wd_trail w); [|done]. by destruct (record_or_refuse _ _ _ _). Qed.
Lemma note_used_shares (w w' : World Z) n m : same_but_trail w w' → same_but_trail (note_used w n m) (note_used w' n m).
Proof. intros (Hs & Hp & Hc). unfold note_used. case_bool_decide; [done|]. split; [|done]. cbn. by rewrite Hs. Qed.
Lemma same_but_trail_via (w a b : World Z) : same_but_trail a w → same_but_trail b w → same_but_trail a b.
Proof. intros (? & ? & ?) (? & ? & ?). unfold same_but_trail. split_and!; congruence. Qed.

(** C35: the two bindings decide alike.  On the same stream and the same body Envoy passes a request
    exactly when Kong does, refuses with the same code, and leaves the same filter, the same
    contract set with the same usage, the same pins and routes; and -- unless the frame names
    neither a tool nor a method, which only Kong labels -- the same records. *)
Theorem bindings_agree (w : World Z) f n m body :
  let '(we, fe, out) := on_request_body w f (Some n) m body in
  let '(wk, sk, (code, o)) := wc_on_request w (mkWcStream f n) m (Some body) in
  (out = ContinueBody ↔ code = WC_FORWARD ∨ code = WC_BUFFER) ∧
  (∀ c, out = Immediate c ↔ code = WC_REFUSE ∧ o = OutRefusal c) ∧ ws_filter sk = fe ∧
  wd_set wk = wd_set we ∧ wd_pins wk = wd_pins we ∧ wd_callees wk = wd_callees we ∧
  ((∀ params, parse_tool_call params = None → parse_request_frame body ≠ Ok ("", params)) → wk = we).
Proof.
  unfold on_request_body, wc_on_request. destruct (parse_request_frame body) as [[method params]|code]; cbn.
  2:{ split; [by split; [|intros []]|]. split; [naive_solver|done]. }
  set (te := from_option fst method (parse_tool_call params)). set (tk := from_option fst (method_label method) (parse_tool_call params)).
  assert (∀ verdict code' micros, (note_write w n verdict code' te m micros).2 = (note_write w n verdict code' tk m micros).2) as Hok.
  { intros. apply eq_true_iff_eq. by rewrite !note_write_ok. }
  assert (∀ verdict code' micros, same_but_trail (note_write w n verdict code' tk m micros).1 (note_write w n verdict code' te m micros).1) as Hshare.
  { intros. eapply same_but_trail_via; apply note_write_shares. }
  assert ((∀ params', parse_tool_call params' = None → Ok (E := Code) (method, params) ≠ Ok ("", params')) → te = tk) as Ht.
  { intros Hne. unfold te, tk, method_label. destruct (parse_tool_call params) eqn:Ep; [done|]. cbn.
    case_bool_decide as Hm; [|done]. exfalso. apply (Hne params Ep). by rewrite Hm. }
  destruct (on_request f (wd_pins w) method params) as [f' [|code]]; cbn.
  - specialize (Hok "allow" "WC-0000" (mo_micros m)). specialize (Hshare "allow" "WC-0000" (mo_micros m)).
    destruct (note_write w n "allow" "WC-0000" te m (mo_micros m)) as [w1 ok1] eqn:E1.
    destruct (note_write w n "allow" "WC-0000" tk m (mo_micros m)) as [w2 ok2] eqn:E2. cbn in Hok, Hshare. subst ok2.
    destruct ok1; cbn.
    + destruct (note_used_shares _ _ n m Hshare) as (? & ? & ?). split_and!; [..|done|done|done|done|intros <-%Ht; congruence].
      * split; [destruct (is_catalog f'); auto|done].
      * intros c. destruct (is_catalog f'); split; [done|by intros []|done|by intros []].
    + destruct Hshare as (? & ? & ?). split_and!; [by split; [|intros []]|naive_solver|done|done|done|done|intros <-%Ht; congruence].
  - destruct (Hshare "deny" (Code_to_string code) (mo_micros m)) as (? & ? & ?).
    split_and!; [by split; [|intros []]|naive_solver|done|done|done|done|]. intros <-%Ht. done.
Qed.

(** ** What does not hold *)

(** Observe mode is documented as recording what would have been refused and forwarding
    everything; with a contract held, a call of a tool outside it is refused all the same, and
    with none, the call is recorded as an allow under no code. *)
Theorem observe_is_not_observed (w : World Z) f n m body params tool args :
  parse_request_frame body = Ok ("tools/call", params) → parse_tool_call params = Some (tool, args) → fl_mode f = Observe →
  (fl_held f ≠ [] → governing f tool = [] → (on_request_body w f n m body).2 = Immediate TOOL_UNCONTRACTED) ∧
  (∀ t n', fl_held f = [] → wd_trail w = Some t → n = Some n' → mo_write m = Written → nt_cid n' = "" →
     ∃ w', (on_request_body w f n m body).1.1 = w' ∧
       wd_trail w' = Some (Trail.record t (decision_of n' "allow" "WC-0000" tool m (mo_micros m)) Written).1).
Proof.
  intros Hb Hp Hm. unfold on_request_body. rewrite Hb, Hp. split.
  - intros Hh Hg. unfold on_request. rewrite bool_decide_eq_false_2 by (by intros ?%nil_length_inv). rewrite catalog_not_call.
    rewrite bool_decide_eq_true_2 by done. unfold call_verdict. by rewrite Hp, Hg.
  - intros t n' Hh Ht -> Hw Hc. unfold on_request. rewrite Hh, Hm. cbn. unfold note_write. rewrite Ht, Hw. cbn.
    unfold note_used. rewrite Hc. cbn. eexists. split; [done|]. done.
Qed.

(** A mesh trusted at the path of a socket, which the usage gives for --mesh-origin, believes no
    connection: the origin Envoy's connection is given is its host or standard input. *)
Theorem socket_mesh_names_nobody path remote h : resolve_caller h (MeshTrust_socket path) (origin_of_addr remote) = None.
Proof.
  destruct (resolve_caller h (MeshTrust_socket path) (origin_of_addr remote)) as [caller|] eqn:E; [|done].
  apply (resolve_caller_named h (mkVerifier Enforce 0 (MeshTrust_socket path))) in E as (c & _ & text & uri & _ & Hb & _).
  destruct remote; cbn in Hb; [|done]. by destruct Hb as [?%elem_of_nil _].
Qed.

(** The responses of a stream leave no row: a catalogue refused for drifting from its pin is not
    in the trail. *)
Theorem response_refusals_unrecorded v origin (w : World Z) s msg m :
  match msg with ResponseHeaders _ | ResponseBody _ => True | _ => False end →
  wd_trail (envoy_step v origin w s msg m).1.1 = wd_trail w.
Proof.
  destruct msg as [attrs h|body|h|body|]; try done. cbn [envoy_step]. intros _. destruct (sm_filter s) as [f|]; [|done].
  unfold envoy_response_body. by destruct (on_response_body f (wd_pins w) body).
Qed.
End Streams.

(** ** How a gateway stays fresh *)

Section Freshness.
Context {Z : Type} `{ZoneRule Z} `{Sha256} `{Jose, !SerdeParse, ClientSerde}.

(** A turn of the refresh loop renews the set's time only by a refresh that was clean under keys
    still vouched for; without keys nothing of the set changes; and a set whose last clean
    refresh is older than its bound grants nothing to anybody. *)
Theorem freshness_is_earned net mediator_id issuer at_ r (k : Gateway.ContractSet Z) l :
  let k' := (gateway_turn net mediator_id issuer at_ r k l).1 in
  let keys := (key_source_keys (gl_trust l) at_ r).2.1 in
  ks_max_stale k' = ks_max_stale k ∧
  (is_ok keys = false → k' = k) ∧
  (ks_last_good k' = ks_last_good k ∨
   ks_last_good k' = at_ ∧ ∃ ks cache report, keys = Ok ks ∧ refresh_is_clean report = true ∧ ks_cache k' = cache ∧
     Client.refresh net (mkTrust ks mediator_id issuer) (gl_seq l) (gl_rev_seq l) at_ (ks_cache k) = (cache, Ok report)) ∧
  (∀ now caller callee, ks_max_stale k ≠ 0 → ks_last_good k' + ks_max_stale k < now → set_resolve k' now caller callee = []).
Proof.
  intros k' keys. assert (ks_max_stale k' = ks_max_stale k ∧ (is_ok keys = false → k' = k) ∧
    (ks_last_good k' = ks_last_good k ∨ ks_last_good k' = at_ ∧ ∃ ks cache report, keys = Ok ks ∧ refresh_is_clean report = true ∧
       ks_cache k' = cache ∧ Client.refresh net (mkTrust ks mediator_id issuer) (gl_seq l) (gl_rev_seq l) at_ (ks_cache k) = (cache, Ok report)))
    as (Hm & He & Hg).
  { subst k' keys. unfold gateway_turn. destruct (key_source_keys (gl_trust l) at_ r) as [trust [[ks|e] warn]]; cbn [fst snd]; [|split_and!; auto].
    destruct (Client.refresh _ _ _ _ _ _) as [cache [report|e]] eqn:Er; cbn [fst snd]; [|split_and!; auto; done].
    destruct (refresh_is_clean report) eqn:Ec; cbn; (split_and!; [done|done|]); [|by left].
    right. split; [done|]. by exists ks, cache, report. }
  split_and!; [done|done|done|]. intros now caller callee Hz Hlt. unfold set_resolve, stale. rewrite Hm.
  rewrite (proj2 (N.eqb_neq _ _) Hz). cbv zeta. unfold saturating_sub.
  by rewrite (proj2 (N.ltb_lt (ks_max_stale k) (now - ks_last_good k'))) by lia.
Qed.
End Freshness.
