(* ===== verification/Startup.v ===== *)
(** * Startup: what an enforcement point starts with
    ([daemon/wc-extproc/src/main.rs] [run], [crates/wc-kong/src/config.rs] [Handle::open],
    [crates/wc-mediator/src/bin/connect-mediate.rs] [run])

    The flags of the command lines and the configuration of the plugin, read in the order the
    code reads them, up to a process that serves or the first reason it does not.  What the
    file system and the key server answer is the argument [Outside].  Printing, and the
    threads a start leaves behind, are not modelled; one turn of them is [gateway_turn] and
    [refresh_step]. *)

From stdpp Require Import pretty.
From S2P Require Import Prelude Text Errors Model Json Canon Contract Artifact Log Store Std Consent Attest Jwks Peer Trail Catalog Cache Client Gateway Binding.

#[local] Open Scope N_scope.

(** ** Flags *)

Fixpoint flag_of (key : string) (args : list string) : option string :=
  match args with
  | [] => None
  | a :: rest =>
    match strip_prefix (key +:+ "=") a with
    | Some v => Some v
    | None => if bool_decide (a = key) then head rest else flag_of key rest
    end
  end.
Definition flag (args : list string) (name : string) : option string := flag_of ("--" +:+ name) args.
Definition present (args : list string) (name : string) : bool := str_in ("--" +:+ name) args.

(** The values of [--contract], which only a value in the next argument gives. *)
Fixpoint contract_paths (args : list string) : list string :=
  match args with
  | [] => []
  | a :: rest => (if bool_decide (a = "--contract") then option_list (head rest) else []) ++ contract_paths rest
  end.

Inductive StartError :=
| FlagRequired (name : string) | CalleeAndRoutes | CalleeOrRoutes | BadEntity (name : string) (e : Code)
| BadRoutes (e : RouteError) | ContractUnreadable (path : string) | NoContracts | NotSeconds (name : string)
| BadTrust (e : TrustError) | NoKeys | NoneVerified | BadListen | TokenRequired | TokenUnused | BadTrail (e : TrailError)
| MeshRequired | MeshWithTls | NoRoutes | TrailShared | CoreFlagAlone (name : string) | CoreNotBuilt
| BadLogLevel | NoSource | FirstRefresh (e : Code) | BadPeerMode (e : Code) | PeerModeNeedsListener (mode : string).

(** A number of seconds, refused when it is not one. *)
Definition secs (args : list string) (name : string) : Result (option N) StartError :=
  match flag args name with
  | None => Ok None
  | Some v => let? n := ok_or (parse_u64 v) (NotSeconds name) in Ok (Some n)
  end.
(** One that falls back in silence. *)
Definition secs_or (args : list string) (name : string) (fallback : N) : N :=
  default fallback (flag args name ≫= parse_u64).

(** [str::parse::<SocketAddr>]: an address and a port, the IPv6 one in brackets. *)
Definition read_port (l : list N) : bool :=
  match read_number 10 dec_digit (length l) true 65535 l with Some (_, []) => true | _ => false end.
Definition scope_dropped (l : list N) : option (list N) :=
  match l with
  | 37 :: l => p ← read_number 10 dec_digit (length l) true 4294967295 l; Some p.2
  | _ => Some l
  end.
Definition is_socket_addr (s : string) : bool :=
  match read_ipv4 (bytes s) with
  | Some (_, 58 :: port) => read_port port
  | _ =>
    match bytes s with
    | 91 :: l => match read_ipv6 l with
                 | Some (_, rest) => match scope_dropped rest with Some (93 :: 58 :: port) => read_port port | _ => false end
                 | None => false
                 end
    | _ => false
    end
  end.

(** ** What starting asks of the outside *)

Record Outside := mkOutside {
  ou_read : string → option string;        (* a file as text *)
  ou_routes : string → option RouteFile;   (* a route table with its time *)
  ou_set : Reading;                        (* the key set when trust is built *)
  ou_set_again : Reading;                  (* and when the contracts are verified, if it is due *)
  ou_opens : bool;                         (* whether the trail opens for appending *)
  ou_now : N
}.

(** The zone rule an operator chose. *)
Inductive ZoneChoice := AnyZones | SameLevel.
#[export] Instance ZoneChoice_rule : ZoneRule ZoneChoice := λ z,
  match z with AnyZones => zone_permits any_zone | SameLevel => zone_permits same_trust_level end.

Definition read_contracts (o : Outside) (paths : list string) : Result (list string) StartError :=
  mapR (λ p, let? t := ok_or (ou_read o p) (ContractUnreadable p) in Ok (trim_text t)) paths.

Section Startup.
Context `{Sha256, AttestCodec, !SerdeParse, TomlRoutes, ClientSerde}.

(** Trust from the flags, and the keys it gives. *)
Definition trust_spec (args : list string) : Result TrustSpec StartError :=
  let? ttl := secs args "jwks-ttl" in
  let? max_stale := secs args "jwks-max-stale" in
  Ok (mkTrustSpec (flag args "issuer-pub") (flag args "kid") (flag args "alg") (flag args "jwks-url") (flag args "jwks-file") ttl max_stale).
Definition start_trust (o : Outside) (spec : TrustSpec) : Result KeySource StartError :=
  let? built := map_err BadTrust (build_trust spec (ou_now o) (ts_issuer_pub spec ≫= ou_read o) (ou_set o)) in Ok built.1.
(** [ContractSet::from_artifacts], on the keys of the moment. *)
Definition start_set (o : Outside) (trust : KeySource) (artifacts : list string) (mediator_id issuer : string) (zones : ZoneChoice)
    (mode : Mode) (max_stale : N) : Result (KeySource * Gateway.ContractSet ZoneChoice) StartError :=
  let '(trust, (keys, _)) := key_source_keys trust (ou_now o) (ou_set_again o) in
  let? set := ok_or (from_artifacts artifacts (match keys with Ok k => Some k | Err _ => None end) mediator_id issuer zones mode (ou_now o) max_stale) NoKeys in
  Ok (trust, set).
Definition set_len (k : Gateway.ContractSet ZoneChoice) : N := CSnapshot_len (ca_live (ks_cache k)).
Definition mesh_trust (origin : string) : MeshTrust :=
  if starts_with "/" origin then MeshTrust_socket origin else mkMeshTrust None [origin].
Definition open_trail (o : Outside) (path : string) (delivery : option string) : Result FileSink StartError :=
  map_err BadTrail (FileSink_open (ou_read o path) (Delivery_parse (default "fail-safe" delivery)) (ou_opens o)).

(** ** The Envoy daemon *)

Record Pull := mkPull { pu_url : string; pu_token : string; pu_every : N }.
Record Started := mkStarted {
  sd_verifier : Verifier; sd_world : World ZoneChoice; sd_listen : string; sd_pull : option Pull;
  sd_trust : KeySource; sd_mediator_id : string; sd_issuer_id : string
}.

Definition callee_source (o : Outside) (args : list string) : Result CalleeSource StartError :=
  match flag args "callee", flag args "routes" with
  | Some _, Some _ => Err CalleeAndRoutes
  | None, None => Err CalleeOrRoutes
  | Some c, None => let? id := map_err (BadEntity "callee") (EntityId_new c) in Ok (Single id)
  | None, Some path => let? r := map_err BadRoutes (Routes_load (ou_routes o path)) in Ok (TableOf r)
  end.
Definition pull_of (args : list string) : Result (option Pull) StartError :=
  match flag args "contracts", flag args "token" with
  | Some url, Some t => Ok (Some (mkPull url t (secs_or args "refresh" 5)))
  | Some _, None => Err TokenRequired
  | None, Some _ => Err TokenUnused
  | None, None => Ok None
  end.
Definition required (args : list string) (name : string) : Result string StartError := ok_or (flag args name) (FlagRequired name).

Definition extproc_run (o : Outside) (args : list string) : Result Started StartError :=
  let? listen := required args "listen" in
  let? callees := callee_source o args in
  let? mediator_id := required args "mediator-id" in
  let? issuer_id := required args "issuer-id" in
  let mode := if present args "observe" then Observe else Enforce in
  let? artifacts := read_contracts o (contract_paths args) in
  guard_err (bool_decide (length artifacts = 0%nat)) NoContracts $
  let? spec := trust_spec args in
  let? trust := start_trust o spec in
  let zones := if present args "any-zone" then AnyZones else SameLevel in
  let max_stale := match flag args "contracts" with Some _ => secs_or args "max-stale" 3600 | None => 0 end in
  let? (trust, set) := start_set o trust artifacts mediator_id issuer_id zones mode max_stale in
  guard_err (set_len set =? 0) NoneVerified $
  let? mesh_origin := required args "mesh-origin" in
  let pins := if present args "allow-unpinned" then None else Some PinLedger_new in
  guard_err (negb (is_socket_addr listen)) BadListen $
  let? pull := pull_of args in
  let? trail := match flag args "evidence" with
                | Some path => let? t := open_trail o path (flag args "evidence-delivery") in Ok (Some t)
                | None => Ok None
                end in
  Ok (mkStarted (mkVerifier mode (secs_or args "pin-max-age" 0) (mesh_trust mesh_origin)) (mkWorld set pins trail callees) listen pull
        trust mediator_id issuer_id).

(** ** The Kong plugin *)

(** The configuration as serde read it, its defaults filled in. *)
Record KongConfig := mkKongConfig {
  kc_contracts : list string; kc_routes : string;
  kc_jwks_file : option string; kc_jwks_url : option string; kc_issuer_pub : option string; kc_kid : option string;
  kc_mediator_id : string; kc_issuer_id : string;
  kc_identity : IdentitySource; kc_mesh_origin : option string; kc_mode : Mode;
  kc_pin_max_age : N; kc_max_stale : N;
  kc_contracts_url : option string; kc_token : option string; kc_refresh_secs : option N;
  kc_any_zone : bool; kc_no_pin : bool; kc_workers : option N; kc_worker_id : option N;
  kc_evidence_path : option string; kc_evidence_delivery : option string
}.

(** [path.replace("%w", id)]. *)
Fixpoint worker_path (id path : string) : string :=
  match path with
  | EmptyString => ""
  | String c r =>
    match r with
    | String d r' => if bool_decide (c = "%"%char) && bool_decide (d = "w"%char) then id +:+ worker_path id r' else String c (worker_path id r)
    | EmptyString => String c ""
    end
  end.

Definition kong_mesh (identity : IdentitySource) (origin : option string) : Result MeshTrust StartError :=
  match identity, origin with
  | FromXfcc, Some p => Ok (mesh_trust p)
  | FromXfcc, None => Err MeshRequired
  | FromTls, Some _ => Err MeshWithTls
  | FromTls, None => Ok (mkMeshTrust None [])
  end.
Definition kong_trail (o : Outside) (cfg : KongConfig) : Result (option FileSink) StartError :=
  match kc_evidence_path cfg with
  | None => Ok None
  | Some p =>
    guard_err ((1 <? default 1 (kc_workers cfg)) && negb (str_contains "%w" p)) TrailShared $
    let? t := open_trail o (worker_path (pretty (default 0 (kc_worker_id cfg))) p) (kc_evidence_delivery cfg) in Ok (Some t)
  end.
Definition kong_pull (cfg : KongConfig) : Result (option Pull) StartError :=
  match kc_contracts_url cfg with
  | None => Ok None
  | Some url => let? token := ok_or (kc_token cfg) TokenRequired in
                Ok (Some (mkPull url token (N.max (default 5 (kc_refresh_secs cfg)) 1)))
  end.

Record Opened := mkOpened {
  op_handle : Handle; op_world : World ZoneChoice; op_pull : option Pull; op_trust : KeySource
}.
Definition Handle_open (o : Outside) (cfg : KongConfig) : Result Opened StartError :=
  let spec := mkTrustSpec (kc_issuer_pub cfg) (kc_kid cfg) None (kc_jwks_url cfg) (kc_jwks_file cfg) None None in
  let? trust := start_trust o spec in
  let zones := if kc_any_zone cfg then AnyZones else SameLevel in
  let? mesh := kong_mesh (kc_identity cfg) (kc_mesh_origin cfg) in
  let? routes := map_err BadRoutes (Routes_load (ou_routes o (kc_routes cfg))) in
  guard_err (Table_is_empty (ro_table routes)) NoRoutes $
  guard_err (bool_decide (length (kc_contracts cfg) = 0%nat)) NoContracts $
  let? artifacts := read_contracts o (kc_contracts cfg) in
  let? (trust, set) := start_set o trust artifacts (kc_mediator_id cfg) (kc_issuer_id cfg) zones (kc_mode cfg) (kc_max_stale cfg) in
  guard_err (set_len set =? 0) NoneVerified $
  let? trail := kong_trail o cfg in
  let? pull := kong_pull cfg in
  Ok (mkOpened (mkHandle (kc_mode cfg) (kc_pin_max_age cfg) (kc_identity cfg) mesh)
        (mkWorld set (if kc_no_pin cfg then None else Some PinLedger_new) trail (TableOf routes)) pull trust).

(** ** The inline mediator *)

(** [which_mode]: a flag only Warden core reads, without it, is refused; [built] is whether the
    binary was built with it. *)
Definition which_mode (built : bool) (args : list string) : Result bool StartError :=
  let warden := match flag args "policy" with Some _ => true | None => false end in
  match List.find (λ f, match flag args f with Some _ => negb warden | None => false end) ["audit"; "approvals"; "agent"] with
  | Some f => Err (CoreFlagAlone f)
  | None => guard_err (warden && negb built) CoreNotBuilt $ Ok warden
  end.

Record Mediating := mkMediating {
  md_warden : bool; md_peer : Peer.Peer; md_level : LogLevel; md_cache : Cache; md_pull : option Pull; md_trust : KeySource;
  md_mode : Mode; md_zones : ZoneChoice
}.
(** The contracts of a start: those given as files, then the first refresh, which must succeed. *)
Definition first_contracts (o : Outside) (net : Net) (trust : KeySource) (mediator_id issuer : string) (inline : list string) (pull : option Pull)
    : Result (KeySource * Cache) StartError :=
  let now := ou_now o in
  let? (trust, cache) :=
    match inline with
    | [] => Ok (trust, Cache_new)
    | _ => let '(trust, (keys, _)) := key_source_keys trust now (ou_set_again o) in
           let? keys := map_err (λ _, NoKeys) keys in
           Ok (trust, install Cache_new (Snapshot_build inline (mkTrust keys mediator_id issuer) now))
    end in
  match pull with
  | None => Ok (trust, cache)
  | Some _ =>
    let '(trust, (keys, _)) := key_source_keys trust now (ou_set_again o) in
    let? keys := map_err (λ _, NoKeys) keys in
    match Client.refresh net (mkTrust keys mediator_id issuer) 0 0 now cache with
    | (cache, Ok _) => Ok (trust, cache)
    | (_, Err e) => Err (FirstRefresh e)
    end
  end.
(** Who is at the other end of a sidecar: what was configured, the other modes being refused. *)
Definition sidecar_peer (o : Outside) (args : list string) (caller callee : EntityId) `{!PeerCodec} : Result Peer.Peer StartError :=
  let? mode := map_err BadPeerMode (Peer.parse_mode (default "configured" (flag args "peer-mode"))) in
  guard_err (negb (bool_decide (mode = "configured"))) (PeerModeNeedsListener mode) $
  map_err BadPeerMode (Peer.resolve (Configured caller callee) (mkPresented (Some Stdio) None ∅ None) (ou_now o)).
Definition mediate_run (built : bool) (o : Outside) (net : Net) (args : list string) `{!PeerCodec} : Result Mediating StartError :=
  let? warden := which_mode built args in
  let? mediator_id := required args "mediator-id" in
  let? issuer_id := required args "issuer-id" in
  let? caller_text := required args "caller" in
  let? caller := map_err (BadEntity "caller") (EntityId_new caller_text) in
  let? callee_text := required args "callee" in
  let? callee := map_err (BadEntity "callee") (EntityId_new callee_text) in
  let? spec := trust_spec args in
  let? trust := start_trust o spec in
  let? level := match flag args "decision-log" with None => Ok LNotable | Some word => ok_or (LogLevel_parse word) BadLogLevel end in
  let? inline := read_contracts o (contract_paths args) in
  let? pull := pull_of args in
  guard_err (match pull, inline with None, [] => true | _, _ => false end) NoSource $
  let? (trust, cache) := first_contracts o net trust mediator_id issuer_id inline pull in
  let? peer := sidecar_peer o args caller callee in
  Ok (mkMediating warden peer level cache pull trust (if present args "observe" then Observe else Enforce)
        (if present args "any-zone" then AnyZones else SameLevel)).
(** [flush_usage]: what is still to be reported when the process ends; a failed report loses it. *)
Definition flush_usage (net : Net) (pull : option Pull) (cache : Cache) : Cache * option bool :=
  match pull with
  | None => (cache, None)
  | Some _ =>
    let '(cache, used) := take_usage cache in
    if bool_decide (used = ∅) then (cache, None)
    else (cache, Some (is_ok (read_ack (net_ack net (cs_set_hash (ca_live cache)) (cs_seq (ca_live cache)) [] used))))
  end.
End Startup.

(** ** What a start guarantees *)

(** The row before the first of this process, if the trail is a file that was there. *)
Definition resumes (o : Outside) (path : string) (t : FileSink) `{Sha256, SerdeParse} : Prop :=
  ∀ text, ou_read o path = Some text → fs_file t = text ∧ verify (Some text) = Ok (fs_head t).

Section Guarantees.
Context `{Sha256, AttestCodec, !SerdeParse, TomlRoutes, ClientSerde}.

Lemma map_err_ok {A E F} (f : E → F) (r : Result A E) a : map_err f r = Ok a ↔ r = Ok a.
Proof. destruct r; cbn; [|done]. split; congruence. Qed.
Lemma open_trail_resumes o path delivery t : open_trail o path delivery = Ok t → resumes o path t.
Proof.
  unfold open_trail. rewrite map_err_ok. unfold FileSink_open. intros (h & Hh & [_ [= <-]]%guard_err_ok)%result_bind_ok.
  intros text Ht. rewrite Ht in *. done.
Qed.
Lemma start_set_fresh o trust artifacts mediator_id issuer zones mode max_stale trust' set :
  start_set o trust artifacts mediator_id issuer zones mode max_stale = Ok (trust', set) →
  ks_last_good set = ou_now o ∧ ks_max_stale set = max_stale ∧ ks_mode set = mode ∧ ks_zones set = zones ∧
  ∃ keys, (key_source_keys trust (ou_now o) (ou_set_again o)).2.1 = Ok keys ∧
    ca_live (ks_cache set) = Snapshot_build artifacts (mkTrust keys mediator_id issuer) (ou_now o).
Proof.
  unfold start_set. destruct (key_source_keys trust (ou_now o) (ou_set_again o)) as [trust1 [[keys|e] warn]]; cbn; [|done].
  intros [= <- <-]. split_and!; try done. by exists keys.
Qed.

(** What the Envoy daemon serves with.  A start that succeeds has at least one contract, all of
    them verified now, under keys vouched for now, for this mediator from this issuer; it
    refuses a stale set only when it pulls; it has one origin to believe a header from; it
    observes, leaves calls unpinned and lets any zones meet only where a flag said so; and a
    trail it was given verified, and goes on from its head. *)
Theorem extproc_starts_guarded o args sd : extproc_run o args = Ok sd →
  let set := wd_set (sd_world sd) in
  0 < set_len set ∧ ks_last_good set = ou_now o ∧ (flag args "contracts" = None → ks_max_stale set = 0) ∧
  (∃ trust artifacts keys, (key_source_keys trust (ou_now o) (ou_set_again o)).2.1 = Ok keys ∧
     read_contracts o (contract_paths args) = Ok artifacts ∧
     ca_live (ks_cache set) = Snapshot_build artifacts (mkTrust keys (sd_mediator_id sd) (sd_issuer_id sd)) (ou_now o)) ∧
  (∃ origin, flag args "mesh-origin" = Some origin ∧ ver_mesh (sd_verifier sd) = mesh_trust origin) ∧
  (present args "observe" = false → ver_mode (sd_verifier sd) = Enforce ∧ ks_mode set = Enforce) ∧
  (present args "allow-unpinned" = false → wd_pins (sd_world sd) = Some PinLedger_new) ∧
  (present args "any-zone" = false → ks_zones set = SameLevel) ∧
  (∀ path, flag args "evidence" = Some path → ∃ t, wd_trail (sd_world sd) = Some t ∧ resumes o path t).
Proof.
  unfold extproc_run, required.
  intros (listen & _ & (callees & _ & (mid & _ & (iss & _ & (arts & Harts & [_ Hr]%guard_err_ok)%result_bind_ok)%result_bind_ok)%result_bind_ok)%result_bind_ok)%result_bind_ok.
  apply result_bind_ok in Hr as (spec & _ & (trust & _ & ([trust' set] & Hset & [Hlen Hr]%guard_err_ok)%result_bind_ok)%result_bind_ok).
  apply result_bind_ok in Hr as (mesh & Hmesh%ok_or_ok & [_ Hr]%guard_err_ok).
  apply result_bind_ok in Hr as (pull & _ & (trail & Htrail & [= <-])%result_bind_ok).
  apply start_set_fresh in Hset as (Hgood & Hmax & Hmode & Hzones & keys & Hkeys & Hlive). cbn.
  apply N.eqb_neq in Hlen. split_and!; [lia|done| |by exists trust, arts, keys|by exists mesh| | | |].
  - intros Hn. by rewrite Hmax, Hn.
  - intros Hn. rewrite Hmode, Hn. done.
  - by intros ->.
  - intros Hn. by rewrite Hzones, Hn.
  - intros path Hp. rewrite Hp in Htrail. apply result_bind_ok in Htrail as (t & Ht & [= <-]). exists t. split; [done|].
    by eapply open_trail_resumes.
Qed.

(** *** Workers *)

Lemma string_ind2 (P : string → Prop) : P "" → (∀ c, P (String c "")) → (∀ c d r, P r → P (String d r) → P (String c (String d r))) → ∀ s, P s.
Proof.
  intros He Hs Hm. assert (∀ s, P s ∧ ∀ c, P (String c s)) as Hall; [|intros s; apply Hall].
  induction s as [|d s [IH IHc]]; split; auto.
Qed.
Definition is_mark (c d : ascii) : bool := bool_decide (c = "%"%char) && bool_decide (d = "w"%char).
Lemma mark_contains c d r : str_contains "%w" (String c (String d r)) = is_mark c d || str_contains "%w" (String d r).
Proof.
  change (str_contains "%w" (String c (String d r))) with (starts_with "%w" (String c (String d r)) || str_contains "%w" (String d r)).
  f_equal. unfold starts_with, is_mark. cbn. repeat case_bool_decide; congruence || (subst; done).
Qed.
Lemma worker_path_cons id c d r : worker_path id (String c (String d r)) =
  if is_mark c d then id +:+ worker_path id r else String c (worker_path id (String d r)).
Proof. done. Qed.
Lemma worker_path_marks path : ∃ k, (∀ id, String.length (worker_path id path) + 2 * k = String.length path + k * String.length id)%nat ∧
  (str_contains "%w" path = true → 0 < k)%nat.
Proof.
  induction path as [|c|c d r (k & Hk & _) (k' & Hk' & Hc)] using string_ind2; [by exists 0%nat| |].
  { exists 0%nat. split; [done|]. unfold str_contains, starts_with. cbn. by case_bool_decide. }
  destruct (is_mark c d) eqn:E.
  - exists (S k). split; [|lia]. intros id. rewrite worker_path_cons, E, string_length_app. specialize (Hk id). cbn [String.length]. lia.
  - exists k'. split; [|rewrite mark_contains, E; exact Hc]. intros id. rewrite worker_path_cons, E.
    specialize (Hk' id). cbn [String.length] in *. lia.
Qed.
Lemma string_app_same_length (a b x y : string) : String.length a = String.length b → a +:+ x = b +:+ y → a = b ∧ x = y.
Proof.
  revert b. induction a as [|c a IH]; intros [|d b] Hl; cbn in Hl; try done. intros He.
  change (String c (a +:+ x) = String d (b +:+ y)) in He. injection He as -> He. destruct (IH b) as [-> ->]; [lia|done|done].
Qed.
Lemma worker_path_inj a b path : str_contains "%w" path = true → worker_path a path = worker_path b path → a = b.
Proof.
  intros Hc He. assert (String.length a = String.length b) as Hl.
  { destruct (worker_path_marks path) as (k & Hk & Hpos). pose proof (Hk a) as Ha. rewrite He in Ha. specialize (Hk b). specialize (Hpos Hc). nia. }
  revert Hc He. induction path as [|c|c d r IHr IH] using string_ind2; [done| |].
  { unfold str_contains, starts_with. cbn. by case_bool_decide. }
  rewrite mark_contains, !worker_path_cons. destruct (is_mark c d); cbn [orb]; intros Hc He.
  - by apply (string_app_same_length _ _ _ _ Hl) in He as [-> _].
  - injection He as He. by apply IH.
Qed.

(** What the Kong plugin serves with.  A start that succeeds has routes and at least one contract
    verified now; a mesh identity has an origin and a TLS identity none; it pulls only with a
    token, at most once a second; a trail it was given verified; and of several workers no
    two write the same file. *)
Theorem kong_starts_guarded o cfg op : Handle_open o cfg = Ok op →
  0 < set_len (wd_set (op_world op)) ∧
  (∃ r, wd_callees (op_world op) = TableOf r ∧ Table_is_empty (ro_table r) = false) ∧
  (hd_identity (op_handle op) = FromXfcc → ∃ p, kc_mesh_origin cfg = Some p ∧ hd_mesh (op_handle op) = mesh_trust p) ∧
  (hd_identity (op_handle op) = FromTls → kc_mesh_origin cfg = None ∧ ∀ origin, accepts (hd_mesh (op_handle op)) origin = false) ∧
  (∀ p, op_pull op = Some p → kc_contracts_url cfg = Some (pu_url p) ∧ kc_token cfg = Some (pu_token p) ∧ 1 ≤ pu_every p) ∧
  (∀ path, kc_evidence_path cfg = Some path → ∃ t, wd_trail (op_world op) = Some t ∧
     resumes o (worker_path (pretty (default 0 (kc_worker_id cfg))) path) t ∧
     (1 < default 1 (kc_workers cfg) → ∀ i j : N, worker_path (pretty i) path = worker_path (pretty j) path → i = j)).
Proof.
  unfold Handle_open. intros (trust & _ & (mesh & Hmesh & (routes & _ & [Hne [_ Hr]%guard_err_ok]%guard_err_ok)%result_bind_ok)%result_bind_ok)%result_bind_ok.
  apply result_bind_ok in Hr as (arts & _ & ([trust' set] & _ & [Hlen%N.eqb_neq Hr]%guard_err_ok)%result_bind_ok).
  apply result_bind_ok in Hr as (trail & Htrail & (pull & Hpull & [= <-])%result_bind_ok). cbn. unfold kong_mesh in Hmesh.
  split_and!; [lia|by exists routes| | | |].
  - intros Hi. rewrite Hi in Hmesh. destruct (kc_mesh_origin cfg) as [p|]; [|done]. injection Hmesh as <-. by exists p.
  - intros Hi. rewrite Hi in Hmesh. destruct (kc_mesh_origin cfg) as [p|]; [done|]. injection Hmesh as <-. by split; [|intros []].
  - intros p ->. unfold kong_pull in Hpull. destruct (kc_contracts_url cfg) as [url|]; [|done].
    apply result_bind_ok in Hpull as (token & Ht%ok_or_ok & [= <-]). cbn. split_and!; [done|done|lia].
  - intros path Hp. unfold kong_trail in Htrail. rewrite Hp in Htrail. apply guard_err_ok in Htrail as [Hsh Htrail].
    apply result_bind_ok in Htrail as (t & Ht & [= <-]). exists t. split; [done|]. split; [by eapply open_trail_resumes|].
    intros Hw i j Hij. rewrite (proj2 (N.ltb_lt _ _) Hw) in Hsh. cbn in Hsh. apply negb_false_iff in Hsh.
    by apply (worker_path_inj _ _ _ Hsh), (inj pretty) in Hij.
Qed.

(** The inline mediator serves the parties of its flags and nobody else, marked as configured;
    it has a source of contracts, and where it pulls, the first pull succeeded. *)
Theorem mediator_starts_guarded built o net args `{!PeerCodec} md : mediate_run built o net args = Ok md →
  (∃ caller callee, flag args "caller" = Some (entity_str caller) ∧ flag args "callee" = Some (entity_str callee) ∧
     pe_identity (md_peer md) = mkPeerIdentity caller callee ∧ pe_verified (md_peer md) = false) ∧
  (md_pull md = None → contract_paths args ≠ []) ∧
  (md_pull md ≠ None → ∃ trust cache report, Client.refresh net trust 0 0 (ou_now o) cache = (md_cache md, Ok report)) ∧
  (flag args "policy" = None → ∀ f, f ∈ ["audit"; "approvals"; "agent"] → flag args f = None).
Proof.
  unfold mediate_run, required.
  intros (warden & Hwarden & (mid & _ & (iss & _ & (ct & Hct%ok_or_ok & (caller & Hcaller & Hr)%result_bind_ok)%result_bind_ok)%result_bind_ok)%result_bind_ok)%result_bind_ok.
  apply result_bind_ok in Hr as (et & Het%ok_or_ok & (callee & Hcallee & (spec & _ & (trust & _ & Hr)%result_bind_ok)%result_bind_ok)%result_bind_ok).
  apply result_bind_ok in Hr as (level & _ & (inline & Hinline & (pull & _ & [Hsrc Hr]%guard_err_ok)%result_bind_ok)%result_bind_ok).
  apply result_bind_ok in Hr as ([trust' cache] & Hfirst & (peer & Hpeer & [= <-])%result_bind_ok).
  apply result_bind_ok in Hpeer as (mode & _ & [_ Hpeer]%guard_err_ok).
  rewrite map_err_ok in Hcaller, Hcallee. injection Hpeer as <-. cbn.
  apply EntityId_new_ok in Hcaller as [_ ->], Hcallee as [_ ->]. split_and!.
  - exists (mkEntityId ct), (mkEntityId et). by rewrite Hct, Het.
  - intros -> Hp. unfold read_contracts in Hinline. rewrite Hp in Hinline. injection Hinline as <-. done.
  - intros Hne. unfold first_contracts in Hfirst. apply result_bind_ok in Hfirst as ([t1 c1] & _ & Hfirst).
    destruct pull as [p|]; [|done]. destruct (key_source_keys t1 _ _) as [t2 [keys warn]].
    apply result_bind_ok in Hfirst as (ks & _ & Hfirst). destruct (Client.refresh _ _ _ _ _ _) as [c2 [report|e]] eqn:Er; [|done].
    injection Hfirst as <- <-. eauto.
  - intros Hp f Hf. unfold which_mode in Hwarden. rewrite Hp in Hwarden. cbv zeta in Hwarden.
    destruct (List.find _ _) as [x|] eqn:E; [done|]. apply list_elem_of_In, (List.find_none _ _ E) in Hf. by destruct (flag args f).
Qed.

(** ** What does not hold *)

(** [--contract] is documented as the alternative to [--contracts] for an estate without a
    network; the daemon asks for one however it is told to pull. *)
Theorem pulling_needs_a_file o args : contract_paths args = [] → is_ok (extproc_run o args) = false.
Proof.
  intros Hn. destruct (extproc_run o args) as [sd|] eqn:E; [|done]. apply extproc_starts_guarded in E as (Hl & _ & _ & (trust & arts & keys & _ & Ha & Hs) & _).
  unfold read_contracts in Ha. rewrite Hn in Ha. injection Ha as <-. unfold set_len in Hl. rewrite Hs in Hl. by vm_compute in Hl.
Qed.

(** [kid] is documented to select a key when the source holds more than one; beside a key set the
    plugin refuses to start. *)
Theorem kid_beside_a_set_refused o cfg kid : kc_kid cfg = Some kid → kc_issuer_pub cfg = None →
  (∃ source, (kc_jwks_url cfg = Some source ∧ kc_jwks_file cfg = None) ∨ (kc_jwks_url cfg = None ∧ kc_jwks_file cfg = Some source)) →
  Handle_open o cfg = Err (BadTrust FlagWithoutEffect).
Proof.
  intros Hk Hp (source & [[Hu Hf]|[Hu Hf]]); unfold Handle_open, start_trust, build_trust; cbn [ts_issuer_pub ts_kid ts_alg ts_jwks_url ts_jwks_file];
    by rewrite Hk, Hp, Hu, Hf.
Qed.

(** A number of seconds that is none falls back in silence: a pin asked to be verified again
    every hour is verified once and for good; and a contract named in one argument with its
    flag is not seen. *)
Theorem flags_read_in_silence :
  secs_or ["--pin-max-age"; "1h"] "pin-max-age" 0 = 0 ∧ contract_paths ["--contract=payments.jws"] = [] ∧
  flag ["--contract=payments.jws"] "contract" = Some "payments.jws".
Proof. by vm_compute. Qed.
End Guarantees.
