(* ===== verification/Examples.v ===== *)
(** * Examples: a concrete record format for events, and the store's theorems at work

    The store's theorems are about any record format with the laws of [FramedJsonLaws].
    Events are countable data, so the format of Log.v's [TestFramed] serves for them. *)

From S2P Require Import Prelude Text Errors Model Json Canon Contract Log Store.

(** ** Every record an event carries is countable *)

#[global] Instance RepinCause_eq_dec : EqDecision RepinCause.
Proof. solve_decision. Defined.
#[global] Instance SuspendCause_eq_dec : EqDecision SuspendCause.
Proof. solve_decision. Defined.
#[global] Instance Event_eq_dec : EqDecision Event.
Proof. solve_decision. Defined.

#[global] Existing Instance TestPrinter.spec_float_countable.

#[global] Instance Kind_countable : Countable Kind.
Proof.
  refine (inj_countable' (λ x, match x with | Agent => 0%N | McpServer => 1%N | A2aAgent => 2%N end)
    (λ n, match n with | 0%N => Agent | 1%N => McpServer | _ => A2aAgent end) _).
  by intros [].
Defined.

#[global] Instance Posture_countable : Countable Posture.
Proof.
  refine (inj_countable' (λ x, match x with | Attested => 0%N | Degraded => 1%N | Unattested => 2%N | Quarantined => 3%N end)
    (λ n, match n with | 0%N => Attested | 1%N => Degraded | 2%N => Unattested | _ => Quarantined end) _).
  by intros [].
Defined.

#[global] Instance Lifecycle_countable : Countable Lifecycle.
Proof.
  refine (inj_countable' (λ x, match x with | Pending => 0%N | Active => 1%N | Suspended => 2%N | Retired => 3%N end)
    (λ n, match n with | 0%N => Pending | 1%N => Active | 2%N => Suspended | _ => Retired end) _).
  by intros [].
Defined.

#[global] Instance SurfaceKind_countable : Countable SurfaceKind.
Proof.
  refine (inj_countable' (λ x, match x with | McpTools => 0%N | A2aCard => 1%N end)
    (λ n, match n with | 0%N => McpTools | _ => A2aCard end) _).
  by intros [].
Defined.

#[global] Instance ApprovalMode_countable : Countable ApprovalMode.
Proof.
  refine (inj_countable' (λ x, match x with | Human => 0%N | StandingPolicy => 1%N | BreakGlass => 2%N | ReviewedMerge => 3%N end)
    (λ n, match n with | 0%N => Human | 1%N => StandingPolicy | 2%N => BreakGlass | _ => ReviewedMerge end) _).
  by intros [].
Defined.

#[global] Instance Side_countable : Countable Side.
Proof.
  refine (inj_countable' (λ x, match x with | Source => 0%N | Target => 1%N end)
    (λ n, match n with | 0%N => Source | _ => Target end) _).
  by intros [].
Defined.

#[global] Instance ContractStatus_countable : Countable ContractStatus.
Proof.
  refine (inj_countable' (λ x, match x with | CActive => 0%N | CSuspended => 1%N | CRevoked => 2%N end)
    (λ n, match n with | 0%N => CActive | 1%N => CSuspended | _ => CRevoked end) _).
  by intros [].
Defined.

#[global] Instance RequestStatus_countable : Countable RequestStatus.
Proof.
  refine (inj_countable' (λ x, match x with | ReqPending => 0%N | ReqMinted => 1%N | ReqDenied => 2%N | ReqLapsed => 3%N end)
    (λ n, match n with | 0%N => ReqPending | 1%N => ReqMinted | 2%N => ReqDenied | _ => ReqLapsed end) _).
  by intros [].
Defined.

#[global] Instance TermApproval_countable : Countable TermApproval.
Proof.
  refine (inj_countable' (λ x, match x with | PreGranted => 0%N | NamedConsumer => 1%N end)
    (λ n, match n with | 0%N => PreGranted | _ => NamedConsumer end) _).
  by intros [].
Defined.

#[global] Instance TierOp_countable : Countable TierOp.
Proof.
  refine (inj_countable' (λ x, match x with | OpGt => 0%N | OpLt => 1%N | OpEq => 2%N | OpContains => 3%N end)
    (λ n, match n with | 0%N => OpGt | 1%N => OpLt | 2%N => OpEq | _ => OpContains end) _).
  by intros [].
Defined.

#[global] Instance RepinCause_countable : Countable RepinCause.
Proof.
  refine (inj_countable' (λ x, match x with | RepinAdmission => 0%N | RepinBenign => 1%N | RepinMaterial => 2%N | RepinAlgUpgrade => 3%N end)
    (λ n, match n with | 0%N => RepinAdmission | 1%N => RepinBenign | 2%N => RepinMaterial | _ => RepinAlgUpgrade end) _).
  by intros [].
Defined.

#[global] Instance SuspendCause_countable : Countable SuspendCause.
Proof.
  refine (inj_countable' (λ x, match x with | SuspendDrift => 0%N | SuspendReattest => 1%N | SuspendOwner => 2%N | SuspendPolicy => 3%N end)
    (λ n, match n with | 0%N => SuspendDrift | 1%N => SuspendReattest | 2%N => SuspendOwner | _ => SuspendPolicy end) _).
  by intros [].
Defined.

#[global] Instance Jti_countable : Countable Jti.
Proof.
  refine (inj_countable' (λ x, jti_str x)
    (λ a0, mkJti a0) _).
  by intros [].
Defined.

#[global] Instance HumanRef_countable : Countable HumanRef.
Proof.
  refine (inj_countable' (λ x, human_str x)
    (λ a0, mkHumanRef a0) _).
  by intros [].
Defined.

#[global] Instance ZoneId_countable : Countable ZoneId.
Proof.
  refine (inj_countable' (λ x, zone_str x)
    (λ a0, mkZoneId a0) _).
  by intros [].
Defined.

#[global] Instance Tier_countable : Countable Tier.
Proof.
  refine (inj_countable' (λ x, tier_u8 x)
    (λ a0, mkTier a0) _).
  by intros [].
Defined.

#[global] Instance Pin_countable : Countable Pin.
Proof.
  refine (inj_countable' (λ x, (pin_alg x, pin_manifest x, pin_items x, pinned_at x))
    (λ '(a0, a1, a2, a3), mkPin a0 a1 a2 a3) _).
  by intros [].
Defined.

#[global] Instance PinDiff_countable : Countable PinDiff.
Proof.
  refine (inj_countable' (λ x, (diff_added x, diff_removed x, diff_changed x))
    (λ '(a0, a1, a2), mkPinDiff a0 a1 a2) _).
  by intros [].
Defined.

#[global] Instance ProvRef_countable : Countable ProvRef.
Proof.
  refine (inj_countable' (λ x, (prov_kind x, prov_reference x))
    (λ '(a0, a1), mkProvRef a0 a1) _).
  by intros [].
Defined.

#[global] Instance Entity_countable : Countable Entity.
Proof.
  refine (inj_countable' (λ x, (ent_id x, ent_kind x, ent_owner x, ent_service x, ent_tier x, ent_zone x, ent_pin x, ent_provenance x, ent_posture x, ent_posture_score x, ent_lifecycle x, ent_data_classes x, ent_jurisdictions x, ent_endpoint x, ent_reattest_every x, ent_reattested_at x, ent_created_at x, ent_updated_at x, ent_quarantined_at x, ent_schema x))
    (λ '(a0, a1, a2, a3, a4, a5, a6, a7, a8, a9, a10, a11, a12, a13, a14, a15, a16, a17, a18, a19), mkEntity a0 a1 a2 a3 a4 a5 a6 a7 a8 a9 a10 a11 a12 a13 a14 a15 a16 a17 a18 a19) _).
  by intros [].
Defined.

#[global] Instance Surface_countable : Countable Surface.
Proof.
  refine (inj_countable' (λ x, (surf_tools x, surf_skills x, surf_resources x))
    (λ '(a0, a1, a2), mkSurface a0 a1 a2) _).
  by intros [].
Defined.

#[global] Instance Delegation_countable : Countable Delegation.
Proof.
  refine (inj_countable' (λ x, (deleg_max_depth x, deleg_attenuation x))
    (λ '(a0, a1), mkDelegation a0 a1) _).
  by intros [].
Defined.

#[global] Instance EvidenceTerms_countable : Countable EvidenceTerms.
Proof.
  refine (inj_countable' (λ x, (ev_sink x, ev_delivery x))
    (λ '(a0, a1), mkEvidenceTerms a0 a1) _).
  by intros [].
Defined.

#[global] Instance Terms_countable : Countable Terms.
Proof.
  refine (inj_countable' (λ x, (data_classes x, jurisdictions x, max_calls_per_hour x, max_concurrent x, max_spend_usd_per_day x, human_oversight x, delegation x, evidence x, classes_closed x, jurisdictions_closed x))
    (λ '(a0, a1, a2, a3, a4, a5, a6, a7, a8, a9), mkTerms a0 a1 a2 a3 a4 a5 a6 a7 a8 a9) _).
  by intros [].
Defined.

#[global] Instance MergeApproval_countable : Countable MergeApproval.
Proof.
  refine (inj_countable' (λ x, (merge_side x, merge_repo x, merge_sha x, merge_request_id x, merge_author x, merge_approvers x, merge_via x, merge_bootstrap x))
    (λ '(a0, a1, a2, a3, a4, a5, a6, a7), mkMergeApproval a0 a1 a2 a3 a4 a5 a6 a7) _).
  by intros [].
Defined.

#[global] Instance ApprovalRef_countable : Countable ApprovalRef.
Proof.
  refine (inj_countable' (λ x, (appr_by x, appr_jti x, appr_ticket x, appr_mode x, appr_second x, appr_merges x))
    (λ '(a0, a1, a2, a3, a4, a5), mkApprovalRef a0 a1 a2 a3 a4 a5) _).
  by intros [].
Defined.

#[global] Instance ContractRecord_countable : Countable ContractRecord.
Proof.
  refine (inj_countable' (λ x, (rec_cid x, rec_jti x, rec_caller x, rec_callee x, rec_caller_zone x, rec_callee_zone x, rec_callee_tier x, rec_callee_manifest x, rec_surface_digest x, rec_surface x, rec_terms x, rec_aud x, rec_jws_sha256 x, rec_status x, rec_approval x, rec_policy_version x, rec_iat x, rec_exp x, rec_offer_version x, rec_schema x))
    (λ '(a0, a1, a2, a3, a4, a5, a6, a7, a8, a9, a10, a11, a12, a13, a14, a15, a16, a17, a18, a19), mkContractRecord a0 a1 a2 a3 a4 a5 a6 a7 a8 a9 a10 a11 a12 a13 a14 a15 a16 a17 a18 a19) _).
  by intros [].
Defined.

#[global] Instance PendingRequest_countable : Countable PendingRequest.
Proof.
  refine (inj_countable' (λ x, (req_id x, req_caller x, req_callee x, req_surface x, req_terms x, req_ttl_secs x, req_justification x, req_requester x, req_mediators x, req_approver_role x, req_dual_control x, req_require_distinct_approvers x, req_owner_merge_approves x, req_owner_must_approve x, req_policy_version x, req_policy_reason x, req_policy_trace x, req_created_at x, req_expires_at x, req_status x))
    (λ '(a0, a1, a2, a3, a4, a5, a6, a7, a8, a9, a10, a11, a12, a13, a14, a15, a16, a17, a18, a19), mkPendingRequest a0 a1 a2 a3 a4 a5 a6 a7 a8 a9 a10 a11 a12 a13 a14 a15 a16 a17 a18 a19) _).
  by intros [].
Defined.

#[global] Instance ApprovalBlock_countable : Countable ApprovalBlock.
Proof.
  refine (inj_countable' (λ x, (ab_approvers x, ab_min x))
    (λ '(a0, a1), mkApprovalBlock a0 a1) _).
  by intros [].
Defined.

#[global] Instance TierMatch_countable : Countable TierMatch.
Proof.
  refine (inj_countable' (λ x, (tm_op x, tm_value x))
    (λ '(a0, a1), mkTierMatch a0 a1) _).
  by intros [].
Defined.

#[global] Instance Audience_countable : Countable Audience.
Proof.
  refine (inj_countable' (λ x, (aud_zone x, aud_tier x))
    (λ '(a0, a1), mkAudience a0 a1) _).
  by intros [].
Defined.

#[global] Instance Deprecation_countable : Countable Deprecation.
Proof.
  refine (inj_countable' (λ x, (dep_item x, dep_after x))
    (λ '(a0, a1), mkDeprecation a0 a1) _).
  by intros [].
Defined.

#[global] Instance Term_countable : Countable Term.
Proof.
  refine (inj_countable' (λ x, (term_items x, term_to x, term_approval x, term_ttl_max x, term_deprecates x))
    (λ '(a0, a1, a2, a3, a4), mkTerm a0 a1 a2 a3 a4) _).
  by intros [].
Defined.

#[global] Instance OfferSource_countable : Countable OfferSource.
Proof.
  refine (inj_countable' (λ x, (os_repo x, os_sha x, os_manifest_digest x))
    (λ '(a0, a1, a2), mkOfferSource a0 a1 a2) _).
  by intros [].
Defined.

#[global] Instance Offer_countable : Countable Offer.
Proof.
  refine (inj_countable' (λ x, (offer_asset x, offer_version x, offer_surface_kind x, offer_surface_digest x, offer_terms x, offer_source x, offer_consent x, offer_approval x))
    (λ '(a0, a1, a2, a3, a4, a5, a6, a7), mkOffer a0 a1 a2 a3 a4 a5 a6 a7) _).
  by intros [].
Defined.

#[global] Instance NeedRecord_countable : Countable NeedRecord.
Proof.
  refine (inj_countable' (λ x, (need_asset x, need_approval x, need_repo x, need_sha x))
    (λ '(a0, a1, a2, a3), mkNeedRecord a0 a1 a2 a3) _).
  by intros [].
Defined.

#[global] Instance Actor_countable : Countable Actor.
Proof.
  refine (inj_countable' (λ x, match x with ActorHuman h => inl h | ActorService s => inr (Some s) | ActorAssurance => inr None end)
    (λ x, match x with inl h => ActorHuman h | inr (Some s) => ActorService s | inr None => ActorAssurance end) _).
  by intros [].
Defined.

#[global] Instance Event_countable : Countable Event.
Proof.
  refine (inj_countable'
    (λ x, match x with
     | EntityPut entity actor => inl ((entity, actor))
     | EntityTransition id to why actor => inr (inl ((id, to, why, actor)))
     | EntityRepin id pin cause diff => inr (inr (inl ((id, pin, cause, diff))))
     | EntityPosture id posture score => inr (inr (inr (inl ((id, posture, score)))))
     | ContractRequest request actor => inr (inr (inr (inr (inl ((request, actor))))))
     | ContractApprove request approvers policy_version actor => inr (inr (inr (inr (inr (inl ((request, approvers, policy_version, actor)))))))
     | ContractDeny request reason actor => inr (inr (inr (inr (inr (inr (inl ((request, reason, actor))))))))
     | ContractLapse request => inr (inr (inr (inr (inr (inr (inr (inl (request))))))))
     | ContractIssued request cid => inr (inr (inr (inr (inr (inr (inr (inr (inl ((request, cid))))))))))
     | ContractMint record => inr (inr (inr (inr (inr (inr (inr (inr (inr (inl (record))))))))))
     | ContractRevoke cid reason actor => inr (inr (inr (inr (inr (inr (inr (inr (inr (inr (inl ((cid, reason, actor))))))))))))
     | ContractSuspend cid cause => inr (inr (inr (inr (inr (inr (inr (inr (inr (inr (inr (inl ((cid, cause)))))))))))))
     | ContractReinstate cid => inr (inr (inr (inr (inr (inr (inr (inr (inr (inr (inr (inr (inl (cid)))))))))))))
     | QuarantineOrder party reason actor dual_control => inr (inr (inr (inr (inr (inr (inr (inr (inr (inr (inr (inr (inr (inl ((party, reason, actor, dual_control)))))))))))))))
     | QuarantineCleared party actor dual_control => inr (inr (inr (inr (inr (inr (inr (inr (inr (inr (inr (inr (inr (inr (inl ((party, actor, dual_control))))))))))))))))
     | OfferPublished offer actor => inr (inr (inr (inr (inr (inr (inr (inr (inr (inr (inr (inr (inr (inr (inr (inl ((offer, actor)))))))))))))))))
     | NeedDeclared need actor => inr (inr (inr (inr (inr (inr (inr (inr (inr (inr (inr (inr (inr (inr (inr (inr (inl ((need, actor))))))))))))))))))
     | UnknownEvent => inr (inr (inr (inr (inr (inr (inr (inr (inr (inr (inr (inr (inr (inr (inr (inr (inr (tt)))))))))))))))))
     end)
    (λ x, match x with
     | inl ((entity, actor)) => EntityPut entity actor
     | inr (inl ((id, to, why, actor))) => EntityTransition id to why actor
     | inr (inr (inl ((id, pin, cause, diff)))) => EntityRepin id pin cause diff
     | inr (inr (inr (inl ((id, posture, score))))) => EntityPosture id posture score
     | inr (inr (inr (inr (inl ((request, actor)))))) => ContractRequest request actor
     | inr (inr (inr (inr (inr (inl ((request, approvers, policy_version, actor))))))) => ContractApprove request approvers policy_version actor
     | inr (inr (inr (inr (inr (inr (inl ((request, reason, actor)))))))) => ContractDeny request reason actor
     | inr (inr (inr (inr (inr (inr (inr (inl (request)))))))) => ContractLapse request
     | inr (inr (inr (inr (inr (inr (inr (inr (inl ((request, cid)))))))))) => ContractIssued request cid
     | inr (inr (inr (inr (inr (inr (inr (inr (inr (inl (record)))))))))) => ContractMint record
     | inr (inr (inr (inr (inr (inr (inr (inr (inr (inr (inl ((cid, reason, actor)))))))))))) => ContractRevoke cid reason actor
     | inr (inr (inr (inr (inr (inr (inr (inr (inr (inr (inr (inl ((cid, cause))))))))))))) => ContractSuspend cid cause
     | inr (inr (inr (inr (inr (inr (inr (inr (inr (inr (inr (inr (inl (cid))))))))))))) => ContractReinstate cid
     | inr (inr (inr (inr (inr (inr (inr (inr (inr (inr (inr (inr (inr (inl ((party, reason, actor, dual_control))))))))))))))) => QuarantineOrder party reason actor dual_control
     | inr (inr (inr (inr (inr (inr (inr (inr (inr (inr (inr (inr (inr (inr (inl ((party, actor, dual_control)))))))))))))))) => QuarantineCleared party actor dual_control
     | inr (inr (inr (inr (inr (inr (inr (inr (inr (inr (inr (inr (inr (inr (inr (inl ((offer, actor))))))))))))))))) => OfferPublished offer actor
     | inr (inr (inr (inr (inr (inr (inr (inr (inr (inr (inr (inr (inr (inr (inr (inr (inl ((need, actor)))))))))))))))))) => NeedDeclared need actor
     | inr (inr (inr (inr (inr (inr (inr (inr (inr (inr (inr (inr (inr (inr (inr (inr (inr (_))))))))))))))))) => UnknownEvent
     end) _).
  by intros [].
Defined.

(** ** The store's theorems at a small history *)

Module StoreExamples.
Import TestSha TestFramed.

Definition agent : EntityId := mkEntityId "spiffe://acme/agent".
Definition server : EntityId := mkEntityId "spiffe://acme/tools".
Definition other : EntityId := mkEntityId "spiffe://acme/other".
Definition owner : HumanRef := mkHumanRef "pat@acme".

Definition entity (id : EntityId) : Entity :=
  Entity_pending id McpServer owner (mkZoneId "internal") (mkTier 2) 10.

Definition contract (cid : string) (caller callee : EntityId) : ContractRecord :=
  mkContractRecord (mkCid cid) (mkJti cid) caller callee (mkZoneId "internal") (mkZoneId "internal")
    (mkTier 2) "sha256:m" "sha256:d" (mkSurface ["read"] [] []) Terms_default ["warden:mediator"]
    "sha256:j" CActive (mkApprovalRef None None None StandingPolicy None []) "v1" 20 4000 None 2.

Definition by_owner : Actor := ActorHuman owner.

Definition history : list (Framed Event) :=
  [mkFramed 1 10 (EntityPut (entity agent) by_owner);
   mkFramed 2 11 (EntityPut (entity server) by_owner);
   mkFramed 3 20 (ContractMint (contract "c1" agent server));
   mkFramed 4 21 (ContractMint (contract "c2" agent other))]%N.

Definition order : Framed Event := mkFramed 5 30 (QuarantineOrder server "drift" by_owner [owner]).

Lemma indexes_complete_witness :
  rec_cid (contract "c1" agent server) = mkCid "c1" ∧
  ∀ id, involves (contract "c1" agent server) id = true → mkCid "c1" ∈ contracts_for (project history) id.
Proof.
  destruct (indexes_complete history (mkCid "c1") (contract "c1" agent server)) as (H1 & H2 & _);
    [vm_compute; reflexivity|]. split; [exact H1|exact H2].
Defined.

Lemma quarantine_cuts_all_witness :
  ∃ c, pr_contracts (apply (project history) order RebuildReport_default).1 !! mkCid "c1" = Some c ∧
       involves c server = true ∧ rec_status c = CRevoked.
Proof.
  exists (set_status (contract "c1" agent server) CRevoked).
  assert (pr_contracts (apply (project history) order RebuildReport_default).1 !! mkCid "c1"
    = Some (set_status (contract "c1" agent server) CRevoked)) as Hc by (vm_compute; reflexivity).
  split; [exact Hc|]. split; [vm_compute; reflexivity|].
  refine (proj1 (quarantine_cuts_all history order RebuildReport_default server "drift" by_owner [owner]
    eq_refl) _ _ Hc _). vm_compute. reflexivity.
Defined.

Lemma revoked_until_revived_witness :
  let p := project (history ++ [order]) in
  let cleared := mkFramed 6 40 (QuarantineCleared server by_owner [owner]) in
  is_revoked_in (apply p cleared RebuildReport_default).1 (mkCid "c1").
Proof.
  refine (proj1 (revoked_until_revived (project (history ++ [order])) (mkFramed 6 40
    (QuarantineCleared server by_owner [owner])) RebuildReport_default (mkCid "c1") _) eq_refl).
  exists (set_status (contract "c1" agent server) CRevoked). split; vm_compute; reflexivity.
Defined.

(** A log that holds the history. *)
Definition kept : Log := mkLog [] (text_of history) 4 0 1000000 true.
Lemma kept_holds : log_holds kept history.
Proof.
  exists [], history. split; [reflexivity|]. split; [reflexivity|]. split; reflexivity.
Qed.

Definition store : Store := mkStore (project history) kept [] ∅.

Lemma commit_refines_log_witness :
  ∃ s', commit store (fr_rec order) 30 Durable io_ok = (s', Ok (log_last_seq kept + 1)%N) ∧
    log_holds (st_log s') (history ++ [mkFramed (log_last_seq kept + 1) 30 (fr_rec order)]).
Proof.
  assert (is_u64 (log_last_seq (st_log store) + 1)) as Hu by (apply N.leb_le; reflexivity).
  pose proof (commit_refines_log store history (fr_rec order) 30 Durable io_ok kept_holds eq_refl Hu) as H.
  destruct (proj2 H eq_refl eq_refl eq_refl eq_refl) as (s' & H1 & H2 & _).
  exists s'. split; [exact H1|exact H2].
Defined.

Lemma snapshot_rebuild_witness :
  ∃ q report, rebuild (Some (take_snapshot (project (take 2 history)))) (log_segments kept) = Ok (q, report) ∧
    agree q (project history).
Proof.
  destruct (snapshot_rebuild kept (take 2 history) (drop 2 history)) as (q & report & H1 & H2 & _).
  - exact kept_holds.
  - cbn. repeat split; unfold stable_event, same_parties; try done;
      intros c' Hc'; vm_compute in Hc'; discriminate.
  - intros f Hf. apply N.leb_le. revert f Hf. apply forallb_True. vm_compute. reflexivity.
  - intros f Hf. apply N.ltb_lt. revert f Hf. apply forallb_True. vm_compute. reflexivity.
  - exists q, report. split; [exact H1|exact H2].
Defined.
End StoreExamples.
